(* ===== verification/_CoqProject ===== *)
-Q . S2P
Prelude.v
Facts.v
F64.v
Error.v
Text.v
Bencode.v
BencodeFacts.v
BencodeSpec.v
Net.v
Handshake.v
PeerMessage.v
Compact.v
IpText.v
Tracker.v
Codec.v
Pex.v
Extension.v
Krpc.v
Dht.v
DhtFacts.v
Piece.v
Metainfo.v
MetainfoFacts.v
MetainfoBuilder.v
MetainfoFiles.v
Magnet.v
MagnetFacts.v
Lsd.v
Download.v
Step.v
PeerManager.v
Upload.v
Swarm.v
Pipeline.v
Choke.v
Registration.v
PeerStream.v
SwarmFacts.v
ExtContext.v
SuperSeed.v
PexExt.v
WebSeed.v
Uploads.v
SwarmLoop.v
WebSeedFacts.v
FullLoop.v
FullLoopFacts.v
TorrentLife.v
PipelineFacts.v
Robust.v
Exchange.v
SwarmExchange.v
ChokeFacts.v
Utp.v
UtpFacts.v
Congestion.v
UtpConnection.v
UtpDelivery.v
UtpSocket.v
UtpStream.v
UtpSender.v
UtpNode.v
UdpTracker.v
Storage.v
StorageFacts.v
StorageArray.v
SwarmDisk.v
HttpClient.v
HttpTracker.v
HttpAnnounce.v
TrackerClient.v
MetadataDownload.v
DhtRpc.v
DhtNode.v
DhtExchange.v
Seeding.v
SeedVerify.v
Session.v
SessionLife.v
Discovery.v
