(* ===== verification/Prelude.v ===== *)
(** A BitTorrent library in Rust and what makes it correct.

    The crate [torrent-core] (crates/torrent-core/src) has the formats and the bookkeeping without
    input and output; the crate [torrent] (crates/torrent/src) has the sockets, the trackers, the DHT
    and the session, whose torrents each have a loop of their own. This library models both as
    executable functions and step relations and proves what they promise.

    * Conventions

    A byte string, and a Rust [String], is a [list Z] of bytes; a machine integer is a [Z] whose
    overflow is written out: [checked_add_panic] and its variants panic, as the debug build does,
    [as_u32] and [wrapping_add16] wrap. A call that can fail gives an [outcome]: [Ok], [Err] with an
    [ErrorKind], [Panic] for a panic of the source, or [NoFuel] of a function on fuel. A method on
    [&mut self] is a [step] of [Step.v]: state to state and result, the changes made before a failure
    kept. Hash maps are [gmap]s and hash sets [gset]s; where the order of their iteration matters it is
    an argument. Durations and instants are integers, [f64] is the executable IEEE model of [F64.v].

    Not under src, and so arguments: SHA-1, the [url] and [http] crates (classes of [HttpClient.v]),
    random draws, clocks, the operating system (files by path, sockets by what arrives on them), the
    order in which tasks run. Hypotheses about them say what is documented, and every theorem with a
    hypothesis has a witness at a concrete instance.

    * Fuel

    Only recursion that is not structural takes fuel. [Bencode.decode] needs at most [2 * n + 1] for
    [n] bytes ([decode_fuel_enough]); [Seeding.hash_loop] one round for each byte; the loops of the UDP
    tracker and of redirects are bounded by the constants of the source. The DHT lookup
    [DhtNode.lookup_loop] has no bound of its own in the source; [dht_lookup] says how much fuel it
    takes when every node answers, and what happens when one does not.

    * The parts

    Foundations: [Prelude], [Facts], [F64], [Text], [Step] (the monad of steps with its weakest
    preconditions), [Error] (error.rs), [Net] and [IpText] (addresses and their text).

    Formats of torrent-core, each with its codec: [Bencode], [BencodeFacts], [BencodeSpec] (bencode/);
    [Metainfo], [MetainfoFacts], [MetainfoBuilder], [MetainfoFiles] (metainfo/); [Magnet],
    [MagnetFacts] (magnet/); [Handshake], [PeerMessage], [Extension] (with the metadata messages),
    [Pex], [Lsd] (peer/); [Krpc], [Compact], [Dht], [DhtFacts] (dht/); [Tracker] (tracker/); [Piece]
    (piece/); [Utp], [UtpFacts], [Congestion] (peer/utp/). [Codec] is the interface of the messages
    that travel as bencode.

    Transports of torrent (peer/utp/): [UtpConnection], [UtpDelivery] (what a connection receives),
    [UtpSender] (what it sends), [UtpSocket] (dispatch and the stream), [UtpStream] (the task of a
    connection and its reader as one system), [UtpNode] (the socket with all its connections, and two
    sockets joined by a network); [PeerStream] (peer/stream.rs, the task that reads a peer, and the
    peer ids of torrent-core); [HttpClient] (net/http.rs, net/tls.rs).

    Storage: [Storage], [StorageFacts], [StorageArray] (storage/). [FlatStorage] is the abstract
    specification, one array of bytes; its reading half [FlatReads] is what verification needs, and both
    the file storage and the storage over a seeder's data source implement it.

    Trackers and the DHT: [UdpTracker], [HttpTracker], [HttpAnnounce], [TrackerClient] (tracker/, with
    spec.rs and net/into_url.rs); [DhtRpc], [DhtNode], [DhtExchange] (dht/).

    The loop of one torrent (session/): [PeerManager] (with uni_deque.rs), [Upload] and [Download] are
    the objects it owns; [Swarm] handles the messages of peers and verifies pieces (swarm/peer.rs,
    pieces.rs), [Pipeline] requests blocks, [Choke] chooses whom to upload to, [Registration] adds
    peers; [SwarmLoop] is the core of the loop as a transition system. [ExtContext] has what a torrent
    reports and the class of the extensions, [SuperSeed], [PexExt] and [WebSeed] are the extensions, and
    [FullLoop] is the whole loop with announces and commands. [SwarmFacts], [PipelineFacts],
    [ChokeFacts], [Uploads], [Robust], [WebSeedFacts], [FullLoopFacts] and [TorrentLife] are about
    them, [SwarmDisk] about the loop and the file storage together. [Exchange] has one loop that
    downloads from, or uploads to, another one, and [SwarmExchange] the two joined by a connection.

    The session (session/): [MetadataDownload] (download/), [Seeding] and [SeedVerify] (seed/),
    [Session] and [SessionLife] (mod.rs, config.rs and the handles of swarm/mod.rs), [Discovery]
    (inbound.rs, lsd.rs). An activated torrent of a session is the initial state of a [FullLoop]; what
    the loop does from there on the session sees as [loop_moves].

    Most definitions keep the name they have in the source; a prefix tells apart what the source tells
    apart by its type, as [spec_name] and [tracker_len], and fields of records carry one where Rocq
    would confuse them.

    * What the theorems show

    Downloading: whatever peers, web seeds, trackers and commands do, in every state of the loop each
    piece that is complete, announced or served was written with the hash of the torrent
    ([swarm_stores_verified_pieces]), and is on the disk ([completed_pieces_are_on_disk],
    [storage_is_flat_array]) if the layout of the torrent is one that the file storage handles: with an
    empty file among several a write stops early ([write_stops_at_empty_file]). No event of a peer stops
    the loop, apart from two ([peer_events_keep_swarm_running]); the requests that are sent are for
    missing blocks of peers that have them ([fill_requests_are_good]); both need a metainfo with as many
    hashes as its size calls for, which nothing checks ([short_torrent_stops_fill]). A web seed that
    sends the right bytes completes its range. Two loops that are joined, one complete and one not,
    end, neither stuck nor panicking, with everything at the second one ([torrent_is_exchanged]). Its
    runs start where both loops have registered the other as a connected peer, and leave out the
    choke rounds of the downloading side, which has nothing to upload. The session itself does not
    bring a peer into this state on both sides, as [registration_outcome] says.

    Uploading: only requested blocks, to unchoked peers or within the allowed fast set, with the stored
    bytes; the choke rounds keep to the slots; a super seed gives each piece to one peer first.

    The life of a torrent: its states and events ([torrent_life_cycle]), the session's registry and its
    limit ([session_registry], [active_torrents_are_limited]), seeding from a source
    ([seeder_serves_what_it_hashed], [seeding_starts_complete], [verification_is_exact]), what becomes
    of a magnet link ([magnet_metadata_outcome]).

    Finding peers: UDP and HTTP announces end and give what a tracker answered, redirects and queries
    included; a tracker list is a set; the DHT's routing table, its queries, its lookup and which questions
    a node answers ([dht_questions_and_answers]); peer exchange, local discovery and incoming connections between two sessions.

    Wire formats: each codec reads back what it writes, and the decoders of untrusted bytes end in a value
    or an error, apart from the panics that their theorems name. Transport: the reader of a uTP stream
    gets what the remote wrote, in order ([utp_stream_in_order]), and all of it if it is at most 2 MiB,
    its packets arrive and their numbers stay below 65536 ([utp_stream_complete]); between two sockets of this code it is
    what the other application wrote ([utp_end_to_end]), from the moment when a connection is open:
    the handshakes of two such sockets fail ([utp_handshake_is_reset]), and with another
    implementation at the other end the payload of the first packet is lost
    ([first_payload_is_dropped]). A connection gives the messages of a peer, in order, to the loop.

    Where the code departs from its documentation, or from what it is for, the theorem or an example next
    to it says so as the code behaves.

    * Not modelled

    Binding sockets and resolving names (their outcome is an argument), TLS (only whether certificates
    are checked), timers that only call a modelled step again, logging, the derived serde and Debug
    implementations, the [Service] wrappers of tower, the examples: they are input and output or glue.
    Locks are not modelled: an operation of the session is one step, and so is a turn of a loop, which
    owns its state. A start is the exception, since its storage is made between the check of the limit
    and the activation: [start_begin] and [start_finish] are steps of their own, with anything between
    them. The download of the metadata of a magnet link ([session_resolve]) and the verification of a
    seeder's pieces are single steps, although other tasks run while they wait.

    The stack is unbounded: [decode] recurses as the source does, and on input that is nested deeply
    enough the source overflows its stack. An [Instant] is any integer: subtracting two minutes from one
    ([update_delay]) cannot fail here, and may panic on a platform whose clock starts near zero. Of uTP no theorem says that a stream gets through by retransmission: what is received is
    not acknowledged by itself ([receiving_sends_nothing]), so that a sender whose peer has nothing to
    say gives up, and [utp_stream_complete] assumes that the packets arrive.

    This file has the shared vocabulary: outcomes of fallible Rust code, machine integers, byte strings,
    big-endian fields, decimal numbers, stable sorting, and the tactics and hint databases that the
    component files use. *)

From stdpp Require Import base numbers list strings sorting.
From Stdlib Require Import ZArith Lia.

#[global] Open Scope Z_scope.

(** * Outcomes

    A Rust call returns a value, returns an [Error], or panics.  [NoFuel] is the extra outcome of
    a Rocq function that recurses on fuel; every such function comes with a theorem that its fuel
    is enough. The error type is a parameter so that every component can use its own. *)

Inductive outcome (E A : Type) : Type :=
| Ok (a : A)
| Err (e : E)
| Panic
| NoFuel.
Arguments Ok {E A} a.
Arguments Err {E A} e.
Arguments Panic {E A}.
Arguments NoFuel {E A}.

Definition obind {E A B} (m : outcome E A) (f : A → outcome E B) : outcome E B :=
  match m with
  | Ok a => f a
  | Err e => Err e
  | Panic => Panic
  | NoFuel => NoFuel
  end.

Definition ok_or {E A} (o : option A) (e : E) : outcome E A :=
  match o with
  | Some a => Ok a
  | None => Err e
  end.

(** [Result::ok], and [Option::unwrap_or] on the result of a fallible call. *)
Definition outcome_ok {E A} (m : outcome E A) : option A :=
  match m with
  | Ok a => Some a
  | _ => None
  end.

Definition guard_err {E} (b : bool) (e : E) : outcome E unit :=
  if b then Err e else Ok tt.

Declare Scope outcome_scope.
Delimit Scope outcome_scope with outcome.
Notation "'let!' p ':=' m 'in' k" := (obind m (fun p => k))
  (at level 10, p pattern, m at level 100, k at level 200,
   format "'[v' 'let!'  p  ':='  m  'in' '/' k ']'") : outcome_scope.
#[global] Open Scope outcome_scope.

(** [x?] applied to every element of a list, in order: the first failure wins. *)
Fixpoint omap_list {E A B} (f : A → outcome E B) (l : list A) : outcome E (list B) :=
  match l with
  | [] => Ok []
  | x :: l' => let! y := f x in let! ys := omap_list f l' in Ok (y :: ys)
  end.

Definition is_ok {E A} (m : outcome E A) : bool :=
  match m with Ok _ => true | _ => false end.

Definition no_panic {E A} (m : outcome E A) : Prop :=
  match m with Panic => False | NoFuel => False | _ => True end.

(** * Machine integers *)

Abbreviation u8_max := 255 (only parsing).
Abbreviation u16_max := 65535 (only parsing).
Abbreviation u32_max := 4294967295 (only parsing).
Abbreviation u64_max := 18446744073709551615 (only parsing).
Abbreviation i64_min := (-9223372036854775808) (only parsing).
Abbreviation i64_max := 9223372036854775807 (only parsing).

Definition in_u8 (z : Z) : Prop := 0 ≤ z ≤ u8_max.
Definition in_u16 (z : Z) : Prop := 0 ≤ z ≤ u16_max.
Definition in_u32 (z : Z) : Prop := 0 ≤ z ≤ u32_max.
Definition in_u64 (z : Z) : Prop := 0 ≤ z ≤ u64_max.
Definition in_i64 (z : Z) : Prop := i64_min ≤ z ≤ i64_max.

#[global] Instance in_u8_dec z : Decision (in_u8 z) := _.
#[global] Instance in_u16_dec z : Decision (in_u16 z) := _.
#[global] Instance in_u32_dec z : Decision (in_u32 z) := _.
#[global] Instance in_u64_dec z : Decision (in_u64 z) := _.
#[global] Instance in_i64_dec z : Decision (in_i64 z) := _.

(** [as u8], [as u16], [as u32], [as u64] on an integer of any width, and [as i64] on a [u64]. *)
Definition as_u8 (z : Z) : Z := z mod 2 ^ 8.
Definition as_u16 (z : Z) : Z := z mod 2 ^ 16.
Definition as_u32 (z : Z) : Z := z mod 2 ^ 32.
Definition as_u64 (z : Z) : Z := z mod 2 ^ 64.
Definition as_i64 (z : Z) : Z := (z + 2 ^ 63) mod 2 ^ 64 - 2 ^ 63.

(** [T::try_from(z).ok()] for an unsigned type with maximum [hi]. *)
Definition try_unsigned (hi z : Z) : option Z :=
  if (0 <=? z) && (z <=? hi) then Some z else None.

(** An unsigned addition that must not overflow (a debug build panics, and so does this model). *)
Definition checked_add_panic {E} (hi a b : Z) : outcome E Z :=
  if a + b <=? hi then Ok (a + b) else Panic.

Definition saturating_sub (a b : Z) : Z := Z.max 0 (a - b).
Definition saturating_add (hi a b : Z) : Z := Z.min hi (a + b).

Definition zlen {A} (l : list A) : Z := Z.of_nat (length l).

(** * Byte strings

    A byte is a [Z]; [bytes_ok] says that every element is one. *)

Abbreviation bytes := (list Z).

Definition bytes_ok (l : bytes) : Prop := Forall in_u8 l.

#[global] Instance bytes_ok_dec l : Decision (bytes_ok l) := _.

Definition chr (a : Ascii.ascii) : Z := Z.of_N (Ascii.N_of_ascii a).

(** The bytes of an ASCII literal, [b"..."] in the source. *)
Definition bs (s : string) : bytes := map chr (String.list_ascii_of_string s).

(** ASCII codes of the characters the parsers test. *)
Abbreviation c_percent := 37 (only parsing).
Abbreviation c_plus := 43 (only parsing).
Abbreviation c_minus := 45 (only parsing).
Abbreviation c_0 := 48 (only parsing).
Abbreviation c_9 := 57 (only parsing).
Abbreviation c_colon := 58 (only parsing).
Abbreviation c_d := 100 (only parsing).
Abbreviation c_e := 101 (only parsing).
Abbreviation c_i := 105 (only parsing).
Abbreviation c_l := 108 (only parsing).

(** [&data[a..b]]: panics unless [a <= b <= len]. *)
Definition slice {E} (l : bytes) (a b : nat) : outcome E bytes :=
  if (a <=? b)%nat && (b <=? length l)%nat then Ok (take (b - a) (drop a l)) else Panic.

(** [vec![0u8; n]] panics when the capacity exceeds [isize::MAX]. *)
Definition zeroed {E} (n : Z) : outcome E bytes := if n <=? i64_max then Ok (replicate (Z.to_nat n) 0) else Panic.

(** [data[i]]. *)
Definition index {E A} (l : list A) (i : nat) : outcome E A :=
  match l !! i with
  | Some x => Ok x
  | None => Panic
  end.

(** Lexicographic order of byte strings ([Ord] on [[u8]]). *)
Fixpoint bytes_leb (a b : bytes) : bool :=
  match a, b with
  | [], _ => true
  | _ :: _, [] => false
  | x :: a', y :: b' => (x <? y) || ((x =? y) && bytes_leb a' b')
  end.

Definition bytes_lt (a b : bytes) : Prop := bytes_leb a b = true ∧ a ≠ b.

(** * Big-endian fields: [to_be_bytes] and [from_be_bytes] at [w] bytes *)

Fixpoint be_bytes (w : nat) (v : Z) : bytes :=
  match w with
  | O => []
  | S w' => (v / 256 ^ Z.of_nat w') mod 256 :: be_bytes w' v
  end.

Definition be_val (l : bytes) : Z := fold_left (fun acc b => acc * 256 + b) l 0.

(** [uN::from_be_bytes([data[off], ..., data[off + w - 1]])]. *)
Definition get_be {E} (w off : nat) (l : bytes) : outcome E Z :=
  if (off + w <=? length l)%nat then Ok (be_val (take w (drop off l))) else Panic.

(** * Bitfields with the most significant bit first

    Bit [i] of a byte string is bit [7 - i % 8] of byte [i / 8], as in the handshake's reserved
    bytes and the peer protocol's bitfields. *)

(** [l[i / 8] |= 1 << (7 - i % 8)] for an index in range. *)
Definition set_msb_bit (l : bytes) (i : nat) : bytes :=
  alter (fun b => Z.lor b (Z.shiftl 1 (Z.of_nat (7 - i mod 8)))) (i / 8)%nat l.

(** [l[i / 8] &= !(1 << (7 - i % 8))]. *)
Definition clear_msb_bit (l : bytes) (i : nat) : bytes :=
  alter (fun b => Z.ldiff b (Z.shiftl 1 (Z.of_nat (7 - i mod 8)))) (i / 8)%nat l.

Definition msb_bit (l : bytes) (i : nat) : bool :=
  match l !! (i / 8)%nat with
  | Some b => Z.testbit b (Z.of_nat (7 - i mod 8))
  | None => false
  end.

(** * Decimal numbers *)

Definition is_ascii_digit (b : Z) : bool := (c_0 <=? b) && (b <=? c_9).

(** Digits of a non-negative number, most significant first. Twenty digits hold any [u64]. *)
Fixpoint dec_digits (fuel : nat) (n : Z) (acc : bytes) : bytes :=
  match fuel with
  | O => acc
  | S f =>
      let acc' := (c_0 + n mod 10) :: acc in
      if n <? 10 then acc' else dec_digits f (n / 10) acc'
  end.

(** [u64::to_string] and [i64::to_string]. *)
Definition u64_to_string (n : Z) : bytes := dec_digits 20 n [].

Definition i64_to_string (i : Z) : bytes :=
  if i <? 0 then c_minus :: u64_to_string (- i) else u64_to_string i.

(** The value of a non-empty string of ASCII digits. *)
Definition digits_val (l : bytes) : Z := fold_left (fun acc b => acc * 10 + (b - c_0)) l 0.

Definition parse_digits (l : bytes) : option Z :=
  match l with
  | [] => None
  | _ => if forallb is_ascii_digit l then Some (digits_val l) else None
  end.

(** The digits after an optional sign ([i64]) or an optional plus sign (unsigned types), with the
    sign applied; [core::num::from_str_radix] before its range check. *)
Definition signed_value (l : bytes) : option Z :=
  match l with
  | c :: l' =>
      if c =? c_minus then option_map Z.opp (parse_digits l')
      else if c =? c_plus then parse_digits l'
      else parse_digits l
  | [] => None
  end.

Definition unsigned_value (l : bytes) : option Z :=
  match l with
  | c :: l' => if c =? c_plus then parse_digits l' else parse_digits l
  | [] => None
  end.

(** [str::parse::<i64>], and [str::parse::<uN>] with maximum [hi]. *)
Definition parse_i64 (l : bytes) : option Z :=
  match signed_value l with
  | Some z => if (i64_min <=? z) && (z <=? i64_max) then Some z else None
  | None => None
  end.

Definition parse_unsigned (hi : Z) (l : bytes) : option Z :=
  match unsigned_value l with
  | Some z => if z <=? hi then Some z else None
  | None => None
  end.

(** * UTF-8

    A Rust [String] is a UTF-8 byte string; [from_utf8] is the check of
    [core::str::from_utf8] (the byte ranges of RFC 3629). *)

Definition in_range (lo hi b : Z) : bool := (lo <=? b) && (b <=? hi).

Definition is_cont (b : Z) : bool := in_range 128 191 b.

Fixpoint utf8_valid (l : bytes) : bool :=
  match l with
  | [] => true
  | b0 :: l0 =>
      if in_range 0 127 b0 then utf8_valid l0
      else
        match l0 with
        | [] => false
        | b1 :: l1 =>
            if in_range 194 223 b0 then is_cont b1 && utf8_valid l1
            else
              match l1 with
              | [] => false
              | b2 :: l2 =>
                  if in_range 224 239 b0 then
                    (if b0 =? 224 then in_range 160 191 b1
                     else if b0 =? 237 then in_range 128 159 b1
                     else is_cont b1)
                    && is_cont b2 && utf8_valid l2
                  else
                    match l2 with
                    | [] => false
                    | b3 :: l3 =>
                        in_range 240 244 b0
                        && (if b0 =? 240 then in_range 144 191 b1
                            else if b0 =? 244 then in_range 128 143 b1
                            else is_cont b1)
                        && is_cont b2 && is_cont b3 && utf8_valid l3
                    end
              end
        end
  end.

Definition from_utf8 (l : bytes) : option bytes := if utf8_valid l then Some l else None.

(** * Stable sorting

    [slice::sort_by_key] and [slice::sort_by] are stable; a stable sort of a list by a total
    preorder has one result, which insertion from the right computes. *)

Section stable_sort.
Context {A : Type} (leb : A → A → bool).

Fixpoint insert_sorted (x : A) (l : list A) : list A :=
  match l with
  | [] => [x]
  | y :: l' => if leb x y then x :: y :: l' else y :: insert_sorted x l'
  end.

Definition stable_sort (l : list A) : list A := foldr insert_sorted [] l.
End stable_sort.

(** * Tactics and hint databases *)

Create HintDb torrent discriminated.

(** Case analysis on a boolean comparison of the goal or of a hypothesis. *)
Ltac case_bool :=
  match goal with
  | |- context [?a <=? ?b] => destruct (Z.leb_spec a b)
  | |- context [?a <? ?b] => destruct (Z.ltb_spec a b)
  | |- context [?a =? ?b] => destruct (Z.eqb_spec a b)
  | |- context [(?a <=? ?b)%nat] => destruct (Nat.leb_spec a b)
  | |- context [(?a <? ?b)%nat] => destruct (Nat.ltb_spec a b)
  | |- context [(?a =? ?b)%nat] => destruct (Nat.eqb_spec a b)
  | H : context [?a <=? ?b] |- _ => destruct (Z.leb_spec a b)
  | H : context [?a <? ?b] |- _ => destruct (Z.ltb_spec a b)
  | H : context [?a =? ?b] |- _ => destruct (Z.eqb_spec a b)
  | H : context [(?a <=? ?b)%nat] |- _ => destruct (Nat.leb_spec a b)
  | H : context [(?a <? ?b)%nat] |- _ => destruct (Nat.ltb_spec a b)
  | H : context [(?a =? ?b)%nat] |- _ => destruct (Nat.eqb_spec a b)
  end.

(** Invert the hypotheses that say what an [obind] chain returned: guards become boolean equations
    [G], options equations [O], calls equations [E], and pairs are taken apart. *)
Ltac inv_outcome :=
  repeat match goal with
  | H : obind (guard_err ?b _) _ = _ |- _ =>
      let G := fresh "G" in
      unfold guard_err in H at 1; destruct b eqn:G; cbn [obind] in H; try discriminate H
  | H : obind (ok_or ?o _) _ = _ |- _ =>
      let O := fresh "O" in let x := fresh "x" in
      destruct o as [x|] eqn:O; cbn [ok_or obind] in H; try discriminate H
  | H : obind ?m _ = _ |- _ =>
      let E := fresh "E" in let x := fresh "x" in
      destruct m as [x| | |] eqn:E; cbn [obind] in H; try discriminate H;
      lazymatch type of x with prod _ _ => destruct x | _ => idtac end
  | H : Ok _ = Ok _ |- _ => injection H; clear H; intros
  | H : Err _ = Ok _ |- _ => discriminate H
  | H : Panic = Ok _ |- _ => discriminate H
  | H : NoFuel = Ok _ |- _ => discriminate H
  | H : ok_or ?o _ = Ok _ |- _ =>
      let O := fresh "O" in unfold ok_or in H; destruct o eqn:O; try discriminate H
  end.

(** [slice::chunks]: the last chunk may be shorter. A chunk takes at least one element, so that the
    length is enough fuel when [n] is positive. *)
Fixpoint chunks_fuel_of {A} (fuel : nat) (n : nat) (l : list A) : list (list A) :=
  match fuel, l with
  | S fuel', _ :: _ => take n l :: chunks_fuel_of fuel' n (drop n l)
  | _, _ => []
  end.

Definition chunks {A} (n : nat) (l : list A) : list (list A) := chunks_fuel_of (length l) n l.
