(* ===== verification/Facts.v ===== *)
(** Facts about the definitions of [Prelude]: slices, big-endian fields, decimal numbers, UTF-8,
    the byte-string order and the stable sort. *)

From stdpp Require Import base numbers list strings sorting.
From Stdlib Require Import ZArith Lia.
From S2P Require Import Prelude.

(** * Lists and slices *)

Lemma zlen_nonneg {A} (l : list A) : 0 ≤ zlen l.
Proof. unfold zlen. lia. Qed.

Lemma zlen_app {A} (l k : list A) : zlen (l ++ k) = zlen l + zlen k.
Proof. unfold zlen. rewrite length_app. lia. Qed.

Lemma slice_ok {E} (l : bytes) a b :
  (a ≤ b)%nat → (b ≤ length l)%nat → slice (E:=E) l a b = Ok (take (b - a) (drop a l)).
Proof.
  intros Hab Hb. unfold slice.
  rewrite (proj2 (Nat.leb_le _ _) Hab), (proj2 (Nat.leb_le _ _) Hb). done.
Qed.

Lemma slice_app_mid {E} (p m s : bytes) :
  slice (E:=E) (p ++ m ++ s) (length p) (length p + length m) = Ok m.
Proof.
  rewrite slice_ok; [|lia|rewrite !length_app; lia].
  rewrite drop_app_length. replace (_ - _)%nat with (length m) by lia.
  by rewrite take_app_length.
Qed.

Lemma slice_fields {E} (p m s : bytes) a b :
  a = length p → b = (length p + length m)%nat → slice (E:=E) (p ++ m ++ s) a b = Ok m.
Proof. intros -> ->. apply slice_app_mid. Qed.

Lemma slice_inv {E} (l m : bytes) a b :
  slice (E:=E) l a b = Ok m → m = take (b - a) (drop a l) ∧ (a ≤ b ≤ length l)%nat.
Proof.
  unfold slice. destruct (Nat.leb_spec a b), (Nat.leb_spec b (length l)); try done. cbn [andb].
  by intros [= <-].
Qed.

(** Adjacent slices join. *)
Lemma take_drop_join {A} (l : list A) a b c :
  (a ≤ b ≤ c)%nat → take (b - a) (drop a l) ++ take (c - b) (drop b l) = take (c - a) (drop a l).
Proof.
  intros H. replace (drop b l) with (drop (b - a) (drop a l)).
  - rewrite take_take_drop. f_equal. lia.
  - rewrite drop_drop. f_equal. lia.
Qed.

Lemma index_inv {E A} (l : list A) i x : index (E:=E) l i = Ok x → l !! i = Some x.
Proof. unfold index. destruct (l !! i); [|done]. by intros [= ->]. Qed.

Lemma get_be_ok {E} w off (l : bytes) :
  (off + w ≤ length l)%nat → get_be (E:=E) w off l = Ok (be_val (take w (drop off l))).
Proof. intros H. unfold get_be. by rewrite (proj2 (Nat.leb_le _ _) H). Qed.

Lemma index_ok {E A} (l : list A) i x : l !! i = Some x → index (E:=E) l i = Ok x.
Proof. intros H. unfold index. by rewrite H. Qed.

Lemma index_lt {E A} (l : list A) i :
  (i < length l)%nat → ∃ x, l !! i = Some x ∧ index (E:=E) l i = Ok x.
Proof.
  intros H. destruct (lookup_lt_is_Some_2 l i H) as [x Hx]. exists x. split; [done|].
  by apply index_ok.
Qed.

Lemma Forall_lookup_u8 (l : bytes) i x : bytes_ok l → l !! i = Some x → in_u8 x.
Proof. intros Hl Hi. eapply Forall_lookup_1; eauto. Qed.

Lemma bytes_ok_app l k : bytes_ok (l ++ k) ↔ bytes_ok l ∧ bytes_ok k.
Proof. apply Forall_app. Qed.

Lemma bytes_ok_take n l : bytes_ok l → bytes_ok (take n l).
Proof. apply Forall_take. Qed.

Lemma bytes_ok_drop n l : bytes_ok l → bytes_ok (drop n l).
Proof. apply Forall_drop. Qed.

#[export] Hint Resolve bytes_ok_take bytes_ok_drop : torrent.

(** Only a fuel-driven function runs out of fuel. *)
Lemma obind_no_fuel {E A B} (m : outcome E A) (f : A → outcome E B) :
  m ≠ NoFuel → (∀ x, f x ≠ NoFuel) → obind m f ≠ NoFuel.
Proof. intros Hm Hf. destruct m; cbn; try done. Qed.

Lemma guard_err_no_fuel {E} b (e : E) : guard_err b e ≠ NoFuel.
Proof. by destruct b. Qed.

Lemma ok_or_no_fuel {E A} (o : option A) (e : E) : ok_or o e ≠ NoFuel.
Proof. by destruct o. Qed.

Lemma slice_no_fuel {E} l a b : slice (E:=E) l a b ≠ NoFuel.
Proof. unfold slice. by destruct (_ && _). Qed.

Lemma get_be_no_fuel {E} w off l : get_be (E:=E) w off l ≠ NoFuel.
Proof. unfold get_be. by destruct (_ <=? _)%nat. Qed.

Lemma checked_add_no_fuel {E} hi a b : checked_add_panic (E:=E) hi a b ≠ NoFuel.
Proof. unfold checked_add_panic. by destruct (_ <=? _). Qed.

#[export] Hint Resolve guard_err_no_fuel ok_or_no_fuel slice_no_fuel get_be_no_fuel
  checked_add_no_fuel : torrent.

Ltac solve_no_fuel :=
  repeat first
    [ done | solve [auto with torrent] | apply obind_no_fuel; [|intros ?]
    | case_match ].

(** * Big-endian fields *)

Lemma as_u32_id z : 0 ≤ z ≤ u32_max → as_u32 z = z.
Proof. intros. unfold as_u32. apply Z.mod_small. lia. Qed.

Lemma length_be_bytes w v : length (be_bytes w v) = w.
Proof. revert v. induction w as [|w IH]; intros v; simpl; [done|]. by rewrite IH. Qed.

Lemma be_bytes_ok w v : bytes_ok (be_bytes w v).
Proof.
  induction w as [|w IH]; simpl; constructor; [|done].
  unfold in_u8. pose proof (Z.mod_pos_bound (v / 256 ^ Z.of_nat w) 256). lia.
Qed.

Lemma fold_be_acc l acc :
  fold_left (λ a b, a * 256 + b) l acc = acc * 256 ^ Z.of_nat (length l) + be_val l.
Proof.
  unfold be_val. revert acc. induction l as [|b l IH]; intros acc.
  - simpl. lia.
  - cbn [fold_left length]. rewrite IH, (IH (0 * 256 + b)).
    rewrite Nat2Z.inj_succ, Z.pow_succ_r by lia. ring.
Qed.

Lemma be_val_cons b l : be_val (b :: l) = b * 256 ^ Z.of_nat (length l) + be_val l.
Proof.
  transitivity (fold_left (λ a c, a * 256 + c) l (0 * 256 + b)); [reflexivity|].
  rewrite fold_be_acc. ring.
Qed.

Lemma be_val_bound l : bytes_ok l → 0 ≤ be_val l < 256 ^ Z.of_nat (length l).
Proof.
  induction 1 as [|b l Hb Hl IH]; [by vm_compute|].
  rewrite be_val_cons. cbn [length]. rewrite Nat2Z.inj_succ, Z.pow_succ_r by lia.
  unfold in_u8 in Hb. nia.
Qed.

Lemma be_val_be_bytes_mod w v : be_val (be_bytes w v) = v mod 256 ^ Z.of_nat w.
Proof.
  induction w as [|w IH]; [by rewrite Z.mod_1_r|].
  cbn [be_bytes]. rewrite be_val_cons, length_be_bytes, IH.
  rewrite Nat2Z.inj_succ, Z.pow_succ_r by lia.
  rewrite (Z.mul_comm 256), Z.rem_mul_r by lia. ring.
Qed.

Lemma be_val_be_bytes w v : 0 ≤ v < 256 ^ Z.of_nat w → be_val (be_bytes w v) = v.
Proof. intros H. rewrite be_val_be_bytes_mod. by apply Z.mod_small. Qed.

Lemma be_bytes_mod w k v : (w ≤ k)%nat → be_bytes w (v mod 256 ^ Z.of_nat k) = be_bytes w v.
Proof.
  induction w as [|w IH]; intros Hk; [done|]. cbn [be_bytes]. f_equal; [|apply IH; lia].
  assert (256 ^ Z.of_nat k = 256 ^ Z.of_nat w * (256 * 256 ^ Z.of_nat (k - w - 1))) as Hp.
  { rewrite <- Z.pow_succ_r, <- Z.pow_add_r by lia. f_equal. lia. }
  set (q := v / 256 ^ Z.of_nat k). set (m := 256 ^ Z.of_nat (k - w - 1)) in *.
  assert (v mod 256 ^ Z.of_nat k = v + (- (256 * m) * q) * 256 ^ Z.of_nat w) as ->.
  { rewrite Z.mod_eq by (rewrite Hp; lia). fold q. rewrite Hp. ring. }
  rewrite Z.div_add by lia.
  replace (- (256 * m) * q) with ((- m * q) * 256) by ring. by rewrite Z.mod_add.
Qed.

Lemma be_bytes_be_val l : bytes_ok l → be_bytes (length l) (be_val l) = l.
Proof.
  induction 1 as [|b l Hb Hl IH]; [done|].
  cbn [length be_bytes]. pose proof (be_val_bound l Hl) as Hv. unfold in_u8 in Hb.
  rewrite be_val_cons. f_equal.
  - rewrite Z.div_add_l by lia. rewrite (Z.div_small (be_val l)) by lia.
    rewrite Z.add_0_r. apply Z.mod_small. lia.
  - etransitivity; [|exact IH].
    rewrite <- (be_bytes_mod _ (length l)) by lia. f_equal.
    rewrite Z.add_comm, Z.mod_add by lia. by apply Z.mod_small.
Qed.

Lemma get_be_app {E} w (p s : bytes) v :
  0 ≤ v < 256 ^ Z.of_nat w → get_be (E:=E) w (length p) (p ++ be_bytes w v ++ s) = Ok v.
Proof.
  intros Hv. rewrite get_be_ok by (rewrite !length_app, length_be_bytes; lia).
  rewrite drop_app_length. rewrite take_app_le by (rewrite length_be_bytes; lia).
  rewrite take_ge by (rewrite length_be_bytes; lia).
  by rewrite be_val_be_bytes.
Qed.

Lemma get_be_head {E} w v s :
  0 ≤ v < 256 ^ Z.of_nat w → get_be (E:=E) w 0 (be_bytes w v ++ s) = Ok v.
Proof. by apply (get_be_app w []). Qed.

(** * Bitfields *)

Lemma length_set_msb_bit l i : length (set_msb_bit l i) = length l.
Proof. apply length_alter. Qed.

Lemma length_clear_msb_bit l i : length (clear_msb_bit l i) = length l.
Proof. apply length_alter. Qed.

Lemma land_shiftr_1 z n : 0 ≤ n → (Z.land (Z.shiftr z n) 1 =? 1) = Z.testbit z n.
Proof.
  intros Hn. change 1 with (Z.ones 1) at 1. rewrite Z.land_ones by lia.
  rewrite Z.pow_1_r, <- Z.bit0_mod, Z.shiftr_spec by lia. rewrite Z.add_0_l.
  by destruct (Z.testbit z n).
Qed.

Lemma testbit_shiftl_1 n m : 0 ≤ n → Z.testbit (Z.shiftl 1 n) m = bool_decide (n = m).
Proof.
  intros Hn. rewrite Z.shiftl_1_l. case_bool_decide as H.
  - subst. by apply Z.pow2_bits_true.
  - by apply Z.pow2_bits_false.
Qed.

Lemma msb_pos_inj i j :
  (i / 8 = j / 8)%nat → Z.of_nat (7 - i mod 8) = Z.of_nat (7 - j mod 8) → i = j.
Proof.
  intros Hd Hm. pose proof (Nat.mod_upper_bound i 8). pose proof (Nat.mod_upper_bound j 8).
  rewrite (Nat.div_mod_eq i 8), (Nat.div_mod_eq j 8), Hd. lia.
Qed.

Lemma msb_bit_set l i j :
  (i / 8 < length l)%nat → msb_bit (set_msb_bit l i) j = bool_decide (i = j) || msb_bit l j.
Proof.
  intros Hi. unfold msb_bit, set_msb_bit. rewrite list_lookup_alter.
  case_decide as Hd.
  - rewrite <- Hd. destruct (lookup_lt_is_Some_2 l (i / 8) Hi) as [b Hb]. rewrite Hb.
    cbn [fmap option_fmap option_map].
    rewrite Z.lor_spec, testbit_shiftl_1 by lia. rewrite orb_comm. f_equal.
    apply bool_decide_ext. split; [by apply msb_pos_inj|by intros ->].
  - rewrite (bool_decide_eq_false_2 (i = j)); [done|]. by intros ->.
Qed.

Lemma msb_bit_clear l i j :
  msb_bit (clear_msb_bit l i) j = negb (bool_decide (i = j)) && msb_bit l j.
Proof.
  unfold msb_bit, clear_msb_bit. rewrite list_lookup_alter.
  case_decide as Hd.
  - rewrite <- Hd. destruct (l !! (i / 8)%nat) as [b|];
      cbn [fmap option_fmap option_map]; [|by rewrite andb_false_r].
    rewrite Z.ldiff_spec, testbit_shiftl_1 by lia. rewrite andb_comm. do 2 f_equal.
    apply bool_decide_ext. split; [by apply msb_pos_inj|by intros ->].
  - rewrite (bool_decide_eq_false_2 (i = j)); [done|]. by intros ->.
Qed.

Lemma msb_bit_zero n i : msb_bit (replicate n 0) i = false.
Proof.
  unfold msb_bit. destruct (replicate n 0 !! _) eqn:E; [|done].
  apply lookup_replicate in E as [-> _]. apply Z.bits_0.
Qed.

Lemma msb_bit_out l i : (length l ≤ i / 8)%nat → msb_bit l i = false.
Proof. intros H. unfold msb_bit. by rewrite lookup_ge_None_2. Qed.

(** A non-negative number whose bits from 8 on are clear is a byte. *)
Lemma in_u8_bits b : in_u8 b ↔ 0 ≤ b ∧ ∀ n, 8 ≤ n → Z.testbit b n = false.
Proof.
  unfold in_u8. split.
  - intros Hb. split; [lia|]. intros n Hn.
    rewrite <- (Z.mod_small b (2 ^ 8)) by lia. by apply Z.mod_pow2_bits_high.
  - intros [H0 Hb]. split; [done|].
    assert (b = b mod 2 ^ 8) as ->; [|pose proof (Z.mod_pos_bound b (2 ^ 8)); lia].
    apply Z.bits_inj'. intros n Hn. destruct (Z.lt_ge_cases n 8).
    + by rewrite Z.mod_pow2_bits_low.
    + by rewrite Z.mod_pow2_bits_high, Hb by lia.
Qed.

Lemma in_u8_lor a b : in_u8 a → in_u8 b → in_u8 (Z.lor a b).
Proof.
  rewrite !in_u8_bits. intros [Ha1 Ha2] [Hb1 Hb2]. split; [by apply Z.lor_nonneg|].
  intros n Hn. by rewrite Z.lor_spec, Ha2, Hb2.
Qed.

Lemma in_u8_ldiff a b : in_u8 a → in_u8 (Z.ldiff a b).
Proof.
  rewrite !in_u8_bits. intros [Ha1 Ha2]. split; [by apply Z.ldiff_nonneg; left|].
  intros n Hn. by rewrite Z.ldiff_spec, Ha2.
Qed.

Lemma in_u8_shiftl_1 n : 0 ≤ n < 8 → in_u8 (Z.shiftl 1 n).
Proof.
  intros Hn. rewrite in_u8_bits. split; [by apply Z.shiftl_nonneg|].
  intros m Hm. rewrite testbit_shiftl_1 by lia. apply bool_decide_eq_false. lia.
Qed.

Lemma set_msb_bit_ok l i : bytes_ok l → bytes_ok (set_msb_bit l i).
Proof.
  intros Hl. apply Forall_alter; [done|]. intros b _ Hb. apply in_u8_lor; [done|].
  apply in_u8_shiftl_1. lia.
Qed.

Lemma clear_msb_bit_ok l i : bytes_ok l → bytes_ok (clear_msb_bit l i).
Proof. intros Hl. apply Forall_alter; [done|]. intros b _ Hb. by apply in_u8_ldiff. Qed.

(** * Decimal numbers *)

Lemma is_ascii_digit_spec b : is_ascii_digit b = true ↔ 48 ≤ b ≤ 57.
Proof. unfold is_ascii_digit. rewrite andb_true_iff, !Z.leb_le. lia. Qed.

Lemma digits_val_acc l acc :
  fold_left (λ a b, a * 10 + (b - 48)) l acc = acc * 10 ^ Z.of_nat (length l) + digits_val l.
Proof.
  unfold digits_val. revert acc. induction l as [|b l IH]; intros acc.
  - simpl. lia.
  - cbn [fold_left length]. rewrite IH, (IH (0 * 10 + (b - 48))).
    rewrite Nat2Z.inj_succ, Z.pow_succ_r by lia. ring.
Qed.

Lemma digits_val_cons b l :
  digits_val (b :: l) = (b - 48) * 10 ^ Z.of_nat (length l) + digits_val l.
Proof.
  transitivity (fold_left (λ a c, a * 10 + (c - 48)) l (0 * 10 + (b - 48))); [reflexivity|].
  rewrite digits_val_acc. ring.
Qed.

Lemma digits_val_bound l :
  forallb is_ascii_digit l = true → 0 ≤ digits_val l < 10 ^ Z.of_nat (length l).
Proof.
  induction l as [|b l IH]; [by vm_compute|].
  cbn [forallb]. rewrite andb_true_iff, is_ascii_digit_spec. intros [Hb Hl].
  rewrite digits_val_cons. cbn [length]. rewrite Nat2Z.inj_succ, Z.pow_succ_r by lia.
  specialize (IH Hl). nia.
Qed.

(** [dec_digits] prepends the digits of [n] to the accumulator. *)
Lemma dec_digits_spec fuel n acc :
  (0 < fuel)%nat → 0 ≤ n < 10 ^ Z.of_nat fuel →
  ∃ d ds, dec_digits fuel n acc = (d :: ds) ++ acc ∧
    forallb is_ascii_digit (d :: ds) = true ∧ digits_val (d :: ds) = n ∧
    (length (d :: ds) ≤ fuel)%nat ∧ (d = 48 → ds = [] ∧ n = 0).
Proof.
  revert n acc. induction fuel as [|f IH]; intros n acc Hf Hn; [lia|].
  cbn [dec_digits]. pose proof (Z.mod_pos_bound n 10) as Hm.
  destruct (Z.ltb_spec n 10) as [Hlt|Hge].
  - exists (48 + n mod 10), []. rewrite Z.mod_small by lia. split; [done|].
    split; [|split; [|split; [simpl; lia|intros; split; [done|lia]]]].
    + cbn [forallb]. rewrite andb_true_iff, is_ascii_digit_spec. split; [lia|done].
    + unfold digits_val. cbn [fold_left]. lia.
  - rewrite Nat2Z.inj_succ, Z.pow_succ_r in Hn by lia.
    destruct f as [|f]; [cbn in Hn; lia|].
    destruct (IH (n / 10) ((48 + n mod 10) :: acc)) as (d & ds & E & Hd & Hv & Hl & H0).
    { lia. }
    { split; [apply Z.div_pos; lia|]. apply Z.div_lt_upper_bound; lia. }
    exists d, (ds ++ [48 + n mod 10]). split; [by rewrite E; simpl; rewrite <- app_assoc|].
    rewrite !app_comm_cons. split; [|split; [|split]].
    + rewrite forallb_app, Hd. cbn [forallb]. rewrite !andb_true_iff, is_ascii_digit_spec.
      split; [done|]. split; [lia|done].
    + unfold digits_val in *. rewrite fold_left_app. rewrite Hv. cbn [fold_left].
      pose proof (Z.div_mod n 10). lia.
    + rewrite length_app. simpl in *. lia.
    + intros ->. destruct (H0 eq_refl) as [_ Hz].
      assert (1 ≤ n / 10) by (apply Z.div_le_lower_bound; lia). lia.
Qed.

Lemma u64_to_string_spec n :
  0 ≤ n < 10 ^ 20 →
  ∃ d ds, u64_to_string n = d :: ds ∧ forallb is_ascii_digit (d :: ds) = true ∧
    digits_val (d :: ds) = n ∧ (length (d :: ds) ≤ 20)%nat ∧ (d = 48 → ds = [] ∧ n = 0).
Proof.
  intros Hn. destruct (dec_digits_spec 20 n [] ltac:(lia) Hn) as (d & ds & E & H).
  exists d, ds. split; [|done]. unfold u64_to_string. by rewrite E, app_nil_r.
Qed.

Lemma forallb_digit_not_in c l :
  forallb is_ascii_digit l = true → is_ascii_digit c = false → c ∉ l.
Proof.
  intros Hl Hc Hin. apply list_elem_of_In in Hin.
  rewrite forallb_forall in Hl. apply Hl in Hin. congruence.
Qed.

Lemma parse_digits_of_digits l :
  l ≠ [] → forallb is_ascii_digit l = true → parse_digits l = Some (digits_val l).
Proof. intros Hn Hd. destruct l; [done|]. unfold parse_digits. by rewrite Hd. Qed.

(** Printing then parsing an [i64]. *)
Lemma parse_i64_to_string i : in_i64 i → parse_i64 (i64_to_string i) = Some i.
Proof.
  intros Hi. unfold in_i64 in Hi. unfold i64_to_string.
  destruct (Z.ltb_spec i 0) as [Hneg|Hpos].
  - destruct (u64_to_string_spec (- i)) as (d & ds & E & Hd & Hv & _); [lia|].
    rewrite E. unfold parse_i64, signed_value. cbn [Z.eqb Pos.eqb].
    rewrite parse_digits_of_digits by done. rewrite Hv. cbn [option_map].
    rewrite Z.opp_involutive.
    by rewrite (proj2 (Z.leb_le _ _)), (proj2 (Z.leb_le _ _)) by lia.
  - destruct (u64_to_string_spec i) as (d & ds & E & Hd & Hv & _); [lia|].
    rewrite E. unfold parse_i64, signed_value.
    assert (48 ≤ d ≤ 57) as Hd1.
    { cbn [forallb] in Hd. apply andb_true_iff in Hd as [Hd _].
      by apply is_ascii_digit_spec in Hd. }
    rewrite (proj2 (Z.eqb_neq d 45)), (proj2 (Z.eqb_neq d 43)) by lia.
    rewrite parse_digits_of_digits by done. rewrite Hv.
    by rewrite (proj2 (Z.leb_le _ _)), (proj2 (Z.leb_le _ _)) by lia.
Qed.

Lemma parse_i64_range l v : parse_i64 l = Some v → in_i64 v.
Proof.
  unfold parse_i64. intros H. destruct (signed_value l); [|done]. case_match; simplify_eq.
  rewrite andb_true_iff, !Z.leb_le in *. unfold in_i64. lia.
Qed.

(** Printing then parsing an unsigned integer of any width up to 64 bits. *)
Lemma parse_unsigned_to_string hi n :
  0 ≤ n ≤ hi → hi < 10 ^ 20 → parse_unsigned hi (u64_to_string n) = Some n.
Proof.
  intros Hn Hhi. destruct (u64_to_string_spec n) as (d & ds & E & Hd & Hv & _); [lia|].
  rewrite E. unfold parse_unsigned, unsigned_value.
  assert (48 ≤ d ≤ 57) as Hd1.
  { cbn [forallb] in Hd. apply andb_true_iff in Hd as [Hd _].
    by apply is_ascii_digit_spec in Hd. }
  rewrite (proj2 (Z.eqb_neq d 43)) by lia.
  rewrite parse_digits_of_digits by done. rewrite Hv.
  by rewrite (proj2 (Z.leb_le _ _)) by lia.
Qed.

(** * UTF-8 *)

Lemma utf8_valid_ascii l : Forall (λ b, 0 ≤ b ≤ 127) l → utf8_valid l = true.
Proof.
  induction 1 as [|b l Hb Hl IH]; [done|]. cbn [utf8_valid].
  replace (in_range 0 127 b) with true; [done|].
  unfold in_range. symmetry. rewrite andb_true_iff, !Z.leb_le. lia.
Qed.

Lemma utf8_valid_app l k : utf8_valid l = true → utf8_valid k = true → utf8_valid (l ++ k) = true.
Proof.
  intros Hl Hk. revert Hl.
  induction l as [l IH] using (induction_ltof1 _ (@length Z)). unfold ltof in IH.
  destruct l as [|b0 l0]; [done|]. simpl.
  destruct (in_range 0 127 b0); [intros H; apply IH; [simpl; lia|done]|].
  destruct l0 as [|b1 l1]; [done|]. simpl.
  destruct (in_range 194 223 b0).
  { rewrite !andb_true_iff. intros [? H]. split; [done|]. apply IH; [simpl; lia|done]. }
  destruct l1 as [|b2 l2]; [done|]. simpl.
  destruct (in_range 224 239 b0).
  { rewrite !andb_true_iff. intros [? H]. split; [done|]. apply IH; [simpl; lia|done]. }
  destruct l2 as [|b3 l3]; [done|]. simpl.
  rewrite !andb_true_iff. intros [? H]. split; [done|]. apply IH; [simpl; lia|done].
Qed.

Lemma from_utf8_valid l : utf8_valid l = true → from_utf8 l = Some l.
Proof. intros H. unfold from_utf8. by rewrite H. Qed.

Lemma from_utf8_Some l s : from_utf8 l = Some s → s = l ∧ utf8_valid l = true.
Proof. unfold from_utf8. destruct (utf8_valid l) eqn:E; [|done]. by intros [= <-]. Qed.

(** * The order of byte strings *)

Lemma bytes_leb_refl a : bytes_leb a a = true.
Proof.
  induction a as [|x a IH]; [done|]. cbn [bytes_leb]. rewrite IH, Z.eqb_refl. by rewrite orb_true_r.
Qed.

Lemma bytes_leb_cons x a y b :
  bytes_leb (x :: a) (y :: b) = true ↔ x < y ∨ (x = y ∧ bytes_leb a b = true).
Proof. cbn [bytes_leb]. by rewrite orb_true_iff, andb_true_iff, Z.ltb_lt, Z.eqb_eq. Qed.

Lemma bytes_leb_antisym a b : bytes_leb a b = true → bytes_leb b a = true → a = b.
Proof.
  revert b. induction a as [|x a IH]; intros [|y b]; [done|done|done|].
  rewrite !bytes_leb_cons. intros [?|[-> ?]] [?|[? ?]]; try lia. f_equal. by apply IH.
Qed.

Lemma bytes_leb_trans a b c :
  bytes_leb a b = true → bytes_leb b c = true → bytes_leb a c = true.
Proof.
  revert b c. induction a as [|x a IH]; intros [|y b] [|z c]; [done..|].
  rewrite !bytes_leb_cons. intros [?|[-> ?]] [?|[-> ?]]; [lia|lia|lia|]. right. eauto.
Qed.

Lemma bytes_leb_total a b : bytes_leb a b = true ∨ bytes_leb b a = true.
Proof.
  revert b. induction a as [|x a IH]; intros [|y b]; [by left|by left|by right|].
  rewrite !bytes_leb_cons. destruct (Z.lt_total x y) as [?|[->|?]]; [tauto| |tauto].
  destruct (IH b); tauto.
Qed.

(** * The stable sort *)

Section stable_sort_facts.
Context {A : Type} (leb : A → A → bool).
Context (leb_total : ∀ x y, leb x y = true ∨ leb y x = true).
Context (leb_trans : ∀ x y z, leb x y = true → leb y z = true → leb x z = true).

Abbreviation le := (λ x y, leb x y = true).

Lemma insert_sorted_perm x l : insert_sorted leb x l ≡ₚ x :: l.
Proof using.
  induction l as [|y l IH]; [done|]. cbn [insert_sorted].
  destruct (leb x y); [done|]. rewrite IH. by apply perm_swap.
Qed.

Lemma stable_sort_perm l : stable_sort leb l ≡ₚ l.
Proof using.
  induction l as [|x l IH]; [done|]. cbn [stable_sort foldr]. fold (stable_sort leb l).
  by rewrite insert_sorted_perm, IH.
Qed.

Lemma insert_sorted_sorted x l :
  StronglySorted le l → StronglySorted le (insert_sorted leb x l).
Proof using leb_total leb_trans.
  induction 1 as [|y l Hl IH Hy]; cbn [insert_sorted]; [repeat constructor|].
  destruct (leb x y) eqn:E.
  - constructor; [by constructor|]. constructor; [done|].
    eapply Forall_impl; [exact Hy|]. intros z Hz. by eapply leb_trans.
  - constructor; [done|]. rewrite insert_sorted_perm. constructor; [|done].
    destruct (leb_total x y); congruence.
Qed.

Lemma stable_sort_sorted l : StronglySorted le (stable_sort leb l).
Proof using leb_total leb_trans.
  induction l as [|x l IH]; [constructor|]. by apply insert_sorted_sorted.
Qed.

Lemma stable_sort_id l : StronglySorted le l → stable_sort leb l = l.
Proof using.
  induction 1 as [|x l Hl IH Hx]; [done|].
  cbn [stable_sort foldr]. fold (stable_sort leb l). rewrite IH.
  destruct l as [|y l]; [done|]. cbn [insert_sorted].
  apply Forall_cons in Hx as [Hx _]. by rewrite Hx.
Qed.

Lemma stable_sort_length l : length (stable_sort leb l) = length l.
Proof using. by rewrite stable_sort_perm. Qed.
End stable_sort_facts.

(** Sorting commutes with a map that keeps the sort key. *)
Lemma stable_sort_map {A B} (f : A → B) (leA : A → A → bool) (leB : B → B → bool) l :
  (∀ x y, leB (f x) (f y) = leA x y) →
  stable_sort leB (map f l) = map f (stable_sort leA l).
Proof.
  intros Hf. induction l as [|x l IH]; [done|].
  cbn [stable_sort foldr map]. fold (stable_sort leB (map f l)) (stable_sort leA l).
  rewrite IH. generalize (stable_sort leA l) as k. induction k as [|y k IHk]; [done|].
  cbn [insert_sorted map]. rewrite Hf. destruct (leA x y); [done|]. cbn [map]. by rewrite IHk.
Qed.

(** * Filters *)

Section filter_facts.
Context {A : Type} (P Q : A → Prop) `{HP : ∀ x, Decision (P x)} `{HQ : ∀ x, Decision (Q x)}.

Lemma filter_none (l : list A) : (∀ x, x ∈ l → ¬ P x) → filter P l = [].
Proof using.
  induction l as [|x l IH]; intros H; [done|]. rewrite filter_cons_False by (apply H; by left).
  apply IH. intros y Hy. apply H. by right.
Qed.

Lemma filter_every (l : list A) : (∀ x, x ∈ l → P x) → filter P l = l.
Proof using.
  induction l as [|x l IH]; intros H; [done|]. rewrite filter_cons_True by (apply H; by left).
  f_equal. apply IH. intros y Hy. apply H. by right.
Qed.

Lemma filter_ext_in (l : list A) : (∀ x, x ∈ l → P x ↔ Q x) → filter P l = filter Q l.
Proof using.
  induction l as [|x l IH]; intros H; [done|]. rewrite !filter_cons.
  rewrite IH by (intros y Hy; apply H; by right).
  assert (P x ↔ Q x) as HPQ by (apply H; by left). by do 2 case_decide; try tauto.
Qed.
End filter_facts.

(** * Chunks *)

Lemma chunks_cons {A} n (l : list A) : l ≠ [] → (0 < n)%nat → chunks n l = take n l :: chunks n (drop n l).
Proof.
  intros Hl Hn. unfold chunks. destruct l as [|b l']; [done|]. cbn [chunks_fuel_of length]. f_equal.
  assert (∀ f f' (k : list A), (length k ≤ f)%nat → (length k ≤ f')%nat →
    chunks_fuel_of f n k = chunks_fuel_of f' n k) as Hfuel.
  { induction f as [|f IH]; intros [|f'] [|x k] Hf Hf'; cbn [chunks_fuel_of length] in *; try done; try lia.
    f_equal. destruct n; [lia|]. cbn [drop]. apply IH; rewrite length_drop; lia. }
  apply Hfuel; rewrite ?length_drop; cbn [length]; lia.
Qed.

Lemma concat_chunks {A} n (l : list A) : (0 < n)%nat → concat (chunks n l) = l.
Proof.
  intros Hn. assert (∃ k, k = length l) as [k Hk] by eauto. revert l Hk.
  induction k as [k IH] using lt_wf_ind. intros l ->. destruct l as [|x l]; [done|].
  rewrite chunks_cons by done. cbn [concat]. rewrite (IH (length (drop n (x :: l)))).
  - apply take_drop.
  - rewrite length_drop. cbn [length]. lia.
  - done.
Qed.

(** * Numbers in a radix *)

Definition number (radix : Z) (ds : list Z) : Z := fold_left (λ acc d, acc * radix + d) ds 0.

Lemma number_acc radix ds acc :
  fold_left (λ acc d, acc * radix + d) ds acc = acc * radix ^ Z.of_nat (length ds) + number radix ds.
Proof.
  unfold number. revert acc. induction ds as [|d ds IH]; intros acc; [cbn; lia|].
  cbn [fold_left length]. rewrite IH, (IH (0 * radix + d)). rewrite Nat2Z.inj_succ, Z.pow_succ_r by lia. ring.
Qed.

Lemma number_app radix a b :
  number radix (a ++ b) = number radix a * radix ^ Z.of_nat (length b) + number radix b.
Proof. unfold number at 1. rewrite fold_left_app. apply number_acc. Qed.

Lemma number_bound radix ds :
  0 < radix → Forall (λ d, 0 ≤ d < radix) ds → 0 ≤ number radix ds < radix ^ Z.of_nat (length ds).
Proof.
  intros Hr. induction ds as [|d ds IH] using rev_ind; intros HF; [done|].
  apply Forall_app in HF as [HF Hd]. specialize (IH HF). apply Forall_inv in Hd. cbn in Hd.
  rewrite number_app, length_app. cbn [length]. rewrite Nat2Z.inj_add, Z.pow_add_r by lia.
  change (number radix [d]) with d. change (Z.of_nat 1) with 1. rewrite Z.pow_1_r. nia.
Qed.

Lemma be_bytes_app a b x y :
  0 ≤ y < 256 ^ Z.of_nat b → be_bytes (a + b) (x * 256 ^ Z.of_nat b + y) = be_bytes a x ++ be_bytes b y.
Proof.
  intros Hy. assert (0 < 256 ^ Z.of_nat b) by lia. revert x. induction a as [|a IH]; intros x; cbn [Nat.add be_bytes app].
  - rewrite <- (be_bytes_mod b b (_ + _)) by lia. rewrite Z.add_comm, Z.mod_add by lia.
    by rewrite Z.mod_small.
  - cbn [be_bytes app]. rewrite IH. f_equal. rewrite Nat2Z.inj_add, Z.pow_add_r, (Z.mul_comm (256 ^ Z.of_nat a)) by lia.
    rewrite <- Z.div_div by lia. do 2 f_equal. rewrite Z.div_add_l by lia.
    rewrite (Z.div_small y) by lia. lia.
Qed.

#[global] Arguments be_bytes : simpl never.
#[global] Arguments be_val : simpl never.
