(* ===== verification/F64.v ===== *)
(** The [f64] arithmetic of the source, on the Standard Library's executable model of IEEE 754
    numbers, and integer bounds on its results: rounding never crosses an integer below [2 ^ 53]. *)

From stdpp Require Import base numbers.
From Stdlib Require Import ZArith Lia SpecFloat.
From S2P Require Import Prelude.

(** * Operations *)

(** [z as f64] for an integer type. *)
Definition f64_of_Z (z : Z) : spec_float := binary_normalize 53 1024 z 0 false.
Definition f64_one : spec_float := f64_of_Z 1.
Definition f64_mul (a b : spec_float) : spec_float := SFmul 53 1024 a b.
Definition f64_div (a b : spec_float) : spec_float := SFdiv 53 1024 a b.
Definition f64_add (a b : spec_float) : spec_float := SFadd 53 1024 a b.
Definition f64_sub (a b : spec_float) : spec_float := SFsub 53 1024 a b.
Definition f64_sqrt (a : spec_float) : spec_float := SFsqrt 53 1024 a.

Definition is_nan (f : spec_float) : bool := match f with S754_nan => true | _ => false end.

(** [f64::min], [f64::max], and [f64::clamp] for bounds that are numbers. *)
Definition f64_min (a b : spec_float) : spec_float :=
  if is_nan a then b else if is_nan b then a else if SFltb b a then b else a.

Definition f64_max (a b : spec_float) : spec_float :=
  if is_nan a then b else if is_nan b then a else if SFltb a b then b else a.

Definition f64_clamp (x lo hi : spec_float) : spec_float :=
  let x := if SFltb x lo then lo else x in
  if SFltb hi x then hi else x.

(** [f as iN] and [f as uN]: the fraction is dropped, the value saturates, and a NaN is zero. *)
Definition f64_trunc (f : spec_float) : Z :=
  match f with
  | S754_finite s m e =>
      let v := if 0 <=? e then Z.pos m * 2 ^ e else Z.pos m / 2 ^ (- e) in
      if s then - v else v
  | _ => 0
  end.

Definition f64_as (lo hi : Z) (f : spec_float) : Z :=
  match f with
  | S754_infinity s => if s then lo else hi
  | _ => Z.max lo (Z.min hi (f64_trunc f))
  end.

(** * Bounds *)

(** A number of sign [s] whose magnitude lies between two integers below [2 ^ 53]. *)
Definition f64_in (s : bool) (lo hi : Z) (f : spec_float) : Prop :=
  match f with
  | S754_zero s' => s' = s ∧ lo = 0
  | S754_finite s' m e => s' = s ∧ e ≤ 0 ∧ Z.pos m < 2 ^ 53 ∧ lo * 2 ^ (- e) ≤ Z.pos m ≤ hi * 2 ^ (- e)
  | _ => False
  end.

Lemma digits2_log2 p : Z.pos (digits2_pos p) = Z.log2 (Z.pos p) + 1.
Proof.
  induction p as [p IH|p IH|]; [..|done]; cbn [digits2_pos]; rewrite Pos2Z.inj_succ, IH.
  - rewrite (Pos2Z.inj_xI p), Z.log2_succ_double by lia. lia.
  - rewrite (Pos2Z.inj_xO p), Z.log2_double by lia. lia.
Qed.

Lemma Zdigits2_le m k : 0 ≤ m < 2 ^ k → 0 ≤ k → Zdigits2 m ≤ k.
Proof.
  destruct m as [|p|p]; cbn [Zdigits2]; [lia| |lia]. intros [_ H] Hk.
  rewrite digits2_log2. apply Z.log2_lt_pow2 in H; lia.
Qed.

Lemma lt_Zdigits2 m : 0 ≤ m → m < 2 ^ Zdigits2 m.
Proof.
  destruct m as [|p|p]; cbn [Zdigits2]; [done| |lia]. intros _. rewrite digits2_log2.
  apply (Z.log2_spec (Z.pos p)). lia.
Qed.

(** ** Shifting *)

Definition shr_ok (m : Z) (exact : bool) (n : Z) (r : shr_record) : Prop :=
  shr_m r = m / 2 ^ n ∧ (exact = true → m mod 2 ^ n = 0 → shr_r r = false ∧ shr_s r = false).

Lemma shr_1_ok m exact n r : 0 ≤ m → 0 ≤ n → shr_ok m exact n r → shr_ok m exact (n + 1) (shr_1 r).
Proof.
  intros Hm Hn [Hr Hx]. destruct r as [q rb sb]. cbn [shr_m shr_r shr_s] in *.
  assert (0 ≤ q) as Hq by (rewrite Hr; apply Z.div_pos; lia).
  assert (m / 2 ^ (n + 1) = q / 2) as E.
  { rewrite Hr, Z.div_div by lia. by rewrite Z.pow_add_r by lia. }
  assert (m mod 2 ^ (n + 1) = 0 → m mod 2 ^ n = 0 ∧ q mod 2 = 0) as Hmod.
  { rewrite Z.pow_add_r, Z.pow_1_r, Z.rem_mul_r, <- Hr by lia.
    pose proof (Z.mod_pos_bound m (2 ^ n) ltac:(apply Z.pow_pos_nonneg; lia)).
    pose proof (Z.mod_pos_bound q 2). assert (0 < 2 ^ n) by (apply Z.pow_pos_nonneg; lia). nia. }
  unfold shr_ok. rewrite E. unfold shr_1.
  destruct q as [|[p|p|]|p]; [| | | |lia]; cbn [shr_m shr_r shr_s].
  - split; [done|]. intros He [H1 _]%Hmod. by destruct (Hx He H1) as [-> ->].
  - split; [rewrite Pos2Z.inj_xI; by rewrite Z.mul_comm, Z.div_add_l, Z.add_0_r|].
    intros _ [_ H2]%Hmod. rewrite Pos2Z.inj_xI, Z.add_comm, Z.mul_comm, Z.mod_add in H2 by done. done.
  - split; [by rewrite Pos2Z.inj_xO, Z.mul_comm, Z.div_mul|]. intros He [H1 _]%Hmod.
    by destruct (Hx He H1) as [-> ->].
  - split; [done|]. by intros _ [_ H2]%Hmod.
Qed.

Lemma iter_shr_ok p m exact n r :
  0 ≤ m → 0 ≤ n → shr_ok m exact n r → shr_ok m exact (n + Z.pos p) (iter_pos shr_1 p r).
Proof.
  intros Hm. revert n r. induction p as [p IH|p IH|]; intros n r Hn H; cbn [iter_pos].
  - rewrite Pos2Z.inj_xI. replace (n + (2 * Z.pos p + 1)) with (n + 1 + Z.pos p + Z.pos p) by lia.
    apply IH; [lia|]. apply IH; [lia|]. by apply shr_1_ok.
  - rewrite Pos2Z.inj_xO. replace (n + 2 * Z.pos p) with (n + Z.pos p + Z.pos p) by lia.
    apply IH; [lia|]. by apply IH.
  - by apply shr_1_ok.
Qed.

Definition is_exact (l : location) : bool := match l with loc_Exact => true | _ => false end.

(** The shift of [shr_fexp] reaches the target exponent, or is none. *)
Definition shift_of (m e : Z) : Z := Z.max 0 (fexp 53 1024 (Zdigits2 m + e) - e).

Lemma shr_fexp_ok m e l :
  0 ≤ m →
  ∃ r, shr_fexp 53 1024 m e l = (r, e + shift_of m e) ∧ shr_ok m (is_exact l) (shift_of m e) r.
Proof.
  intros Hm. unfold shr_fexp, shift_of.
  assert (shr_ok m (is_exact l) 0 (shr_record_of_loc m l)) as H0.
  { unfold shr_ok. change (2 ^ 0) with 1. rewrite Z.div_1_r, Z.mod_1_r. by destruct l as [|[]]. }
  destruct (fexp 53 1024 (Zdigits2 m + e) - e) as [|p|p]; cbn [shr Z.max Z.compare].
  - eexists. by rewrite Z.add_0_r.
  - eexists. split; [done|]. by apply (iter_shr_ok p m _ 0).
  - eexists. by rewrite Z.add_0_r.
Qed.

(** ** Rounding *)

Lemma pow_shift k e n : 0 ≤ n → e + n ≤ 0 → k * 2 ^ (- e) = k * 2 ^ (- (e + n)) * 2 ^ n.
Proof. intros. rewrite <- Z.mul_assoc, <- Z.pow_add_r by lia. do 2 f_equal. lia. Qed.

Lemma shift_target m e hi :
  0 ≤ m → e ≤ 0 → hi < 2 ^ 53 → m ≤ hi * 2 ^ (- e) → 0 ≤ shift_of m e ∧ e + shift_of m e ≤ 0.
Proof.
  intros Hm He Hhi Hle. split; [unfold shift_of; lia|].
  assert (0 < 2 ^ (- e)) by (apply Z.pow_pos_nonneg; lia).
  assert (Zdigits2 m ≤ 53 + - e).
  { apply Zdigits2_le; [|lia]. split; [done|]. rewrite Z.pow_add_r by lia. nia. }
  unfold shift_of, fexp, emin. lia.
Qed.

Lemma shift_digits m e : 0 ≤ m → m / 2 ^ shift_of m e < 2 ^ 53.
Proof.
  intros Hm. apply Z.div_lt_upper_bound; [apply Z.pow_pos_nonneg; unfold shift_of; lia|].
  rewrite <- Z.pow_add_r by (unfold shift_of; lia).
  eapply Z.lt_le_trans; [by apply lt_Zdigits2|]. apply Z.pow_le_mono_r; [lia|].
  unfold shift_of, fexp. lia.
Qed.

Lemma round_bounds m exact n r A B :
  shr_ok m exact n r → 0 ≤ n → 0 ≤ m → A * 2 ^ n ≤ m → m + (if exact then 0 else 1) ≤ B * 2 ^ n →
  A ≤ round_nearest_even (shr_m r) (loc_of_shr_record r) ≤ B.
Proof.
  intros [Hq Hx] Hn Hm HA HB. assert (0 < 2 ^ n) as Hp by (apply Z.pow_pos_nonneg; lia).
  pose proof (Z.div_mod m (2 ^ n)) as Hd. pose proof (Z.mod_pos_bound m (2 ^ n) Hp) as Hb.
  assert (A ≤ m / 2 ^ n) by (apply Z.div_le_lower_bound; lia).
  assert (m / 2 ^ n ≤ B) by (apply Z.div_le_upper_bound; destruct exact; lia).
  assert (¬ (exact = true ∧ m mod 2 ^ n = 0) → m / 2 ^ n + 1 ≤ B) as Hup.
  { intros Hne. assert (m / 2 ^ n < B); [|lia]. apply Z.div_lt_upper_bound; [done|].
    destruct exact; [|lia]. assert (m ≠ B * 2 ^ n); [|lia].
    intros ->. apply Hne. split; [done|]. apply Z.mod_mul. lia. }
  assert (shr_r r = true → m / 2 ^ n + 1 ≤ B) as Hr.
  { intros Hr. apply Hup. intros [He Hz]. destruct (Hx He Hz). congruence. }
  rewrite Hq. destruct r as [q rb sb]. cbn [shr_m shr_r shr_s] in *.
  destruct rb, sb; cbn [loc_of_shr_record round_nearest_even]; [| |lia..].
  - specialize (Hr eq_refl). lia.
  - specialize (Hr eq_refl). destruct (IntDef.Z.even _); lia.
Qed.

Lemma binary_round_bounds s m e l lo hi :
  0 ≤ m → e ≤ 0 → 0 ≤ lo → hi < 2 ^ 53 →
  lo * 2 ^ (- e) ≤ m → m + (if is_exact l then 0 else 1) ≤ hi * 2 ^ (- e) →
  f64_in s lo hi (binary_round_aux 53 1024 s m e l).
Proof.
  intros Hm He Hlo Hhi Hl Hh. unfold binary_round_aux.
  assert (m ≤ hi * 2 ^ (- e)) as Hh' by (destruct (is_exact l); lia).
  destruct (shift_target m e hi Hm He Hhi Hh') as [Hn Hen].
  destruct (shr_fexp_ok m e l Hm) as (r & -> & Hr). set (n := shift_of m e) in *.
  rewrite (pow_shift lo e n), (pow_shift hi e n) in * by done.
  pose proof (round_bounds m _ n r _ _ Hr Hn Hm Hl Hh) as [H1 H2].
  set (m1 := round_nearest_even _ _) in *. set (e1 := e + n) in *.
  assert (0 ≤ m1) as Hm1 by (assert (0 ≤ lo * 2 ^ (- e1)) by (apply Z.mul_nonneg_nonneg; [done|apply Z.pow_nonneg; lia]); lia).
  destruct (shift_target m1 e1 hi Hm1 Hen Hhi H2) as [Hn1 Hen1].
  destruct (shr_fexp_ok m1 e1 loc_Exact Hm1) as (r1 & -> & [Hr1 _]). pose proof (shift_digits m1 e1 Hm1) as H53.
  set (n1 := shift_of m1 e1) in *. rewrite (pow_shift lo e1 n1), (pow_shift hi e1 n1) in * by done.
  assert (0 < 2 ^ n1) as Hp by (apply Z.pow_pos_nonneg; lia).
  assert (lo * 2 ^ (- (e1 + n1)) ≤ m1 / 2 ^ n1) as G1 by (apply Z.div_le_lower_bound; lia).
  assert (m1 / 2 ^ n1 ≤ hi * 2 ^ (- (e1 + n1))) as G2 by (apply Z.div_le_upper_bound; lia).
  assert (0 ≤ m1 / 2 ^ n1) as G0 by (apply Z.div_pos; lia).
  rewrite Hr1. destruct (m1 / 2 ^ n1) as [|p|p]; [| |lia].
  - split; [done|]. assert (0 < 2 ^ (- (e1 + n1))) by (apply Z.pow_pos_nonneg; lia). nia.
  - rewrite (proj2 (Z.leb_le _ _)) by lia. done.
Qed.

(** * Operations on bounded numbers *)

Lemma f64_in_round s p : Z.pos p < 2 ^ 53 → f64_in s (Z.pos p) (Z.pos p) (binary_round 53 1024 s p 0).
Proof.
  intros Hp. unfold binary_round, shl_align. set (t := fexp _ _ _).
  assert (t ≤ 0) as Ht.
  { unfold t, fexp, emin. cut (Z.pos (digits2_pos p) ≤ 53); [lia|]. by apply (Zdigits2_le (Z.pos p) 53). }
  destruct (t - 0) as [|d|d] eqn:E;
    [apply binary_round_bounds; change (2 ^ (- 0)) with 1; cbn [is_exact]; lia|lia|].
  assert (Z.pos (Pos.iter xO p d) = Z.pos p * 2 ^ Z.pos d) as Hs.
  { clear -p. induction d as [|d IH] using Pos.peano_ind; [cbn; lia|].
    rewrite Pos.iter_succ, Pos2Z.inj_xO, IH, Pos2Z.inj_succ, Z.pow_succ_r by lia. lia. }
  apply binary_round_bounds; [lia..|done| |]; rewrite Hs; cbn [is_exact]; replace (- t) with (Z.pos d) by lia; lia.
Qed.

Lemma f64_in_of_Z z : 0 ≤ z < 2 ^ 53 → f64_in false z z (f64_of_Z z).
Proof. destruct z as [|p|p]; [done| |lia]. intros [_ Hp]. by apply f64_in_round. Qed.

Lemma f64_in_of_neg z : 0 < z < 2 ^ 53 → f64_in true z z (f64_of_Z (- z)).
Proof. destruct z as [|p|p]; [lia| |lia]. intros [_ Hp]. by apply f64_in_round. Qed.

Lemma f64_in_mul a b sa sb la ha lb hb :
  f64_in sa la ha a → f64_in sb lb hb b → 0 ≤ la → 0 ≤ lb → ha * hb < 2 ^ 53 →
  f64_in (xorb sa sb) (la * lb) (ha * hb) (f64_mul a b).
Proof.
  destruct a as [s1|s1| |s1 m1 e1], b as [s2|s2| |s2 m2 e2]; try done; cbn [f64_in f64_mul SFmul].
  - intros [-> ->] [-> ->] _ _ _. by split.
  - intros [-> ->] (-> & _) _ _ _. by split.
  - intros (-> & _) [-> ->] _ _ _. split; [done|lia].
  - intros (-> & He1 & _ & H1 & H1') (-> & He2 & _ & H2 & H2') Ha Hb Hh.
    assert (0 < 2 ^ (- e1)) by (apply Z.pow_pos_nonneg; lia).
    assert (0 < 2 ^ (- e2)) by (apply Z.pow_pos_nonneg; lia).
    assert (2 ^ (- (e1 + e2)) = 2 ^ (- e1) * 2 ^ (- e2)) as E.
    { rewrite <- Z.pow_add_r by lia. f_equal. lia. }
    assert (0 ≤ la * 2 ^ (- e1)) by nia. assert (0 ≤ lb * 2 ^ (- e2)) by nia.
    apply binary_round_bounds; [lia|lia|nia|done|..]; rewrite E, Pos2Z.inj_mul; cbn [is_exact].
    + transitivity ((la * 2 ^ (- e1)) * (lb * 2 ^ (- e2))); [lia|]. apply Z.mul_le_mono_nonneg; lia.
    + transitivity ((ha * 2 ^ (- e1)) * (hb * 2 ^ (- e2))); [|lia]. rewrite Z.add_0_r.
      apply Z.mul_le_mono_nonneg; lia.
Qed.

Lemma f64_in_div a b sa sb la ha lb hb lo hi :
  f64_in sa la ha a → f64_in sb lb hb b → 0 < lb → ha < 2 ^ 53 →
  0 ≤ lo → hi < 2 ^ 53 → lo * hb ≤ la → ha ≤ hi * lb →
  f64_in (xorb sa sb) lo hi (f64_div a b).
Proof.
  intros Ha Hb Hlb Hha Hlo Hhi Hl Hh.
  destruct b as [s2|s2| |s2 m2 e2]; try done; cbn [f64_in] in Hb; [lia|].
  destruct Hb as (-> & He2 & _ & H2 & H2').
  assert (0 < 2 ^ (- e2)) as Hp2 by (apply Z.pow_pos_nonneg; lia).
  assert (lb ≤ hb) by nia.
  destruct a as [s1|s1| |s1 m1 e1]; try done; cbn [f64_in f64_div SFdiv] in *.
  { destruct Ha as [-> ->]. split; [done|]. nia. }
  destruct Ha as (-> & He1 & _ & H1 & H1').
  assert (0 < 2 ^ (- e1)) as Hp1 by (apply Z.pow_pos_nonneg; lia).
  unfold SFdiv_core_binary. set (e' := Z.min _ _). set (s := e1 - e2 - e').
  assert (e' ≤ 0) as He'.
  { unfold e', fexp, emin. cut (Zdigits2 (Z.pos m1) + e1 ≤ 53 ∧ 1 ≤ Zdigits2 (Z.pos m2) + e2); [lia|]. split.
    - cut (Zdigits2 (Z.pos m1) ≤ 53 + - e1); [lia|]. apply Zdigits2_le; [|lia]. rewrite Z.pow_add_r by lia. nia.
    - cbn [Zdigits2]. rewrite digits2_log2. cut (- e2 ≤ Z.log2 (Z.pos m2)); [lia|]. apply Z.log2_le_pow2; nia. }
  assert (0 ≤ s) as Hs by (unfold s, e'; lia).
  assert (match s with 0 => Z.pos m1 | Z.pos _ => Z.shiftl (Z.pos m1) s | Z.neg _ => 0 end = Z.pos m1 * 2 ^ s) as ->.
  { destruct s as [|p|p]; [lia|by rewrite Z.shiftl_mul_pow2|lia]. }
  set (M := Z.pos m1 * 2 ^ s). pose proof (Z_div_mod M (Z.pos m2) ltac:(lia)) as Hdm.
  destruct (Z.div_eucl M (Z.pos m2)) as [q r]. destruct Hdm as [Hd Hr].
  assert (0 < 2 ^ (- e')) as Hp' by (apply Z.pow_pos_nonneg; lia).
  assert (0 < 2 ^ s) as Hps by (apply Z.pow_pos_nonneg; lia).
  assert (2 ^ (- e1) * 2 ^ s = 2 ^ (- e2) * 2 ^ (- e')) as Ee.
  { rewrite <- !Z.pow_add_r by lia. f_equal. unfold s. lia. }
  assert (lo * 2 ^ (- e') * Z.pos m2 ≤ M) as G1.
  { transitivity (la * 2 ^ (- e1) * 2 ^ s); [|unfold M; nia].
    replace (la * 2 ^ (- e1) * 2 ^ s) with (la * (2 ^ (- e2) * 2 ^ (- e'))) by (rewrite <- Ee; ring).
    transitivity (lo * 2 ^ (- e') * (hb * 2 ^ (- e2))); [|nia].
    apply Z.mul_le_mono_nonneg_l; [nia|lia]. }
  assert (M ≤ hi * 2 ^ (- e') * Z.pos m2) as G2.
  { transitivity (ha * 2 ^ (- e1) * 2 ^ s); [unfold M; nia|].
    replace (ha * 2 ^ (- e1) * 2 ^ s) with (ha * (2 ^ (- e2) * 2 ^ (- e'))) by (rewrite <- Ee; ring).
    transitivity (hi * 2 ^ (- e') * (lb * 2 ^ (- e2))); [nia|].
    apply Z.mul_le_mono_nonneg_l; [|lia]. assert (0 ≤ hi) by nia. nia. }
  assert (is_exact (new_location (Z.pos m2) r) = (r =? 0)) as El.
  { unfold new_location, new_location_even, new_location_odd. by destruct (Z.even _), (r =? 0). }
  apply binary_round_bounds; [nia|lia|lia|lia|nia|]. rewrite El. destruct (Z.eqb_spec r 0); nia.
Qed.

(** What a bounded number is as an integer. *)
Lemma f64_trunc_in s lo hi f :
  f64_in s lo hi f → 0 ≤ lo → lo ≤ (if s then - f64_trunc f else f64_trunc f) ≤ hi ∨ lo = 0 ∧ f64_trunc f = 0.
Proof.
  destruct f as [s'|s'| |s' m e]; cbn [f64_in f64_trunc]; try done.
  - intros [-> ->] _. by right.
  - intros (-> & He & _ & Hl & Hh) Hlo. left. assert (0 < 2 ^ (- e)) by (apply Z.pow_pos_nonneg; lia).
    assert (lo ≤ Z.pos m / 2 ^ (- e) ≤ hi) as Hq.
    { split; [apply Z.div_le_lower_bound; lia|apply Z.div_le_upper_bound; lia]. }
    destruct (Z.leb_spec 0 e) as [H0|H0].
    + assert (e = 0) as -> by lia. change (2 ^ 0) with 1 in *. change (2 ^ (- 0)) with 1 in *. destruct s; lia.
    + destruct s; lia.
Qed.

Lemma f64_as_in lo hi f tmin tmax :
  f64_in false lo hi f → 0 ≤ lo → 0 ≤ hi → tmin ≤ 0 → hi ≤ tmax → lo ≤ f64_as tmin tmax f ≤ hi.
Proof.
  intros H Hlo Hhi Hmin Hmax. pose proof (f64_trunc_in _ _ _ _ H Hlo) as Ht.
  destruct f as [s'|s'| |s' m e]; try done; unfold f64_as; cbn [f64_in] in H; lia.
Qed.

Lemma f64_as_neg hi f tmin tmax :
  f64_in true 0 hi f → 0 ≤ hi → tmin ≤ - hi → 0 ≤ tmax → - hi ≤ f64_as tmin tmax f ≤ 0.
Proof.
  intros H Hhi Hmin Hmax. pose proof (f64_trunc_in _ _ _ _ H (Z.le_refl 0)) as Ht.
  destruct f as [s'|s'| |s' m e]; try done; unfold f64_as; cbn [f64_in] in H; lia.
Qed.

(** A number that an integer bounds from below does not compare below the float of that integer. *)
Lemma f64_not_below f k hi mc ec :
  f64_in false k hi f → 2 ^ 52 ≤ Z.pos mc → Z.pos mc = k * 2 ^ (- ec) → ec ≤ 0 → 0 < k →
  SFltb f (S754_finite false mc ec) = false.
Proof.
  destruct f as [s|s| |s m e]; try done; cbn [f64_in]; [lia|].
  intros (-> & He & Hm & Hl & _) Hmc Ec Hec Hk. unfold SFltb, SFcompare.
  destruct (Z.compare_spec e ec) as [->|Hlt|]; [|exfalso|done].
  - change (Pos.compare_cont Eq m mc) with (m ?= mc)%positive.
    destruct (Pos.compare_spec m mc) as [|Hp|]; [done| |done]. exfalso. lia.
  - assert (2 ^ (- e) = 2 ^ (ec - e) * 2 ^ (- ec)) as E by (rewrite <- Z.pow_add_r by lia; f_equal; lia).
    assert (2 ≤ 2 ^ (ec - e)) by (change 2 with (2 ^ 1) at 1; apply Z.pow_le_mono_r; lia).
    change (2 ^ 53) with (2 * 2 ^ 52) in Hm. rewrite E in Hl.
    assert (k * (2 ^ (ec - e) * 2 ^ (- ec)) = 2 ^ (ec - e) * Z.pos mc) as E' by (rewrite Ec; ring).
    rewrite E' in Hl. nia.
Qed.

Lemma f64_in_nan s lo hi f : f64_in s lo hi f → is_nan f = false.
Proof. by destruct f. Qed.

Lemma f64_in_weaken s lo hi lo' hi' f :
  f64_in s lo hi f → 0 ≤ lo' ≤ lo → hi ≤ hi' → f64_in s lo' hi' f.
Proof.
  destruct f as [s'|s'| |s' m e]; try done; cbn [f64_in].
  - intros [-> ->] ? ?. split; [done|lia].
  - intros (-> & He & Hm & Hl & Hh) ? ?. assert (0 < 2 ^ (- e)) by (apply Z.pow_pos_nonneg; lia).
    split_and!; [done..|nia|nia].
Qed.

Lemma f64_not_below_eq f mc ec :
  f64_in false 1 (2 ^ 53) f → SFltb f (S754_finite false mc ec) = false →
  SFltb (S754_finite false mc ec) f = false → f = S754_finite false mc ec.
Proof.
  destruct f as [s|s| |s m e]; try done. intros [-> _].
  unfold SFltb, SFcompare. change (Pos.compare_cont Eq) with Pos.compare.
  rewrite (Z.compare_antisym e ec), (Pos.compare_antisym m mc).
  destruct (Z.compare_spec e ec) as [->|H|H]; [|done..].
  by destruct (Pos.compare_spec m mc) as [->|H|H].
Qed.

(** [x.min(1.0)] of a number that is at most one or at least one. *)
Lemma f64_min_one f hi :
  hi ≤ 2 ^ 53 → f64_in false 0 1 f ∨ f64_in false 1 hi f → f64_in false 0 1 (f64_min f (f64_of_Z 1)).
Proof.
  intros Hhi H. assert (f64_in false 0 1 (f64_of_Z 1)) as H1.
  { eapply f64_in_weaken; [by apply f64_in_of_Z|done..]. }
  unfold f64_min. rewrite (f64_in_nan _ _ _ _ H1). destruct H as [H|H]; rewrite (f64_in_nan _ _ _ _ H).
  - by case_match.
  - destruct (SFltb (f64_of_Z 1) f) eqn:E; [done|].
    assert (f = f64_of_Z 1) as ->; [|done]. apply f64_not_below_eq; [by eapply f64_in_weaken| |done].
    by eapply (f64_not_below f 1).
Qed.

(** [x.clamp(1.0, 10.0)] of a number between one and ten, or at least ten. *)
Lemma f64_clamp_ten f hi :
  hi ≤ 2 ^ 53 → f64_in false 1 10 f ∨ f64_in false 10 hi f →
  f64_in false 1 10 (f64_clamp f (f64_of_Z 1) (f64_of_Z 10)).
Proof.
  intros Hhi H.
  assert (f64_in false 1 10 (f64_of_Z 1)) as H1 by (by eapply f64_in_weaken; [apply f64_in_of_Z|..]).
  assert (f64_in false 1 10 (f64_of_Z 10)) as H10 by (by eapply f64_in_weaken; [apply f64_in_of_Z|..]).
  assert (SFltb f (f64_of_Z 1) = false) as E1.
  { destruct H as [H|H]; [by eapply (f64_not_below f 1)|].
    eapply (f64_not_below f 1 hi); [by eapply f64_in_weaken|done..]. }
  unfold f64_clamp. rewrite E1. destruct H as [H|H]; [by case_match|].
  destruct (SFltb (f64_of_Z 10) f) eqn:E; [done|].
  assert (f = f64_of_Z 10) as ->; [|done]. apply f64_not_below_eq; [by eapply f64_in_weaken| |done].
  by eapply (f64_not_below f 10).
Qed.
