(* ===== verification/Error.v ===== *)
(** The error type of [crates/torrent-core/src/error.rs]: its kinds and what they print. *)

From stdpp Require Import base numbers list strings.
From Stdlib Require Import ZArith.
From S2P Require Import Prelude.

(** [enum ErrorKind]. *)
Inductive ErrorKind : Type :=
| BencodeInvalidSyntax
| BencodeInvalidInteger
| BencodeUnexpectedEof
| BencodeIntegerOverflow
| MetainfoMissingField
| MetainfoInvalidField
| MetainfoInvalidPieces
| MetainfoInvalidUrlList
| MetainfoInvalidHttpSeeds
| PeerInvalidHandshake
| PeerInvalidMessage
| PeerConnectionClosed
| PeerInvalidExtendedMessage
| PeerInvalidPexMessage
| PeerInvalidFastMessage
| PeerInvalidLsdAnnounce
| PeerUtpInvalidHeader
| PeerUtpProtocolError
| PeerUtpConnectionFailed
| TrackerInvalidResponse
| TrackerRequestFailed
| TrackerProtocolError
| WebSeedHashMismatch
| Io
| InvalidInput
| Protocol.

#[global] Instance ErrorKind_eq_dec : EqDecision ErrorKind.
Proof. solve_decision. Defined.

(** [struct Error]: a kind and the text of an optional source. *)
Record Error : Type := mk_error { source : option bytes; kind : ErrorKind }.

(** [Error::new], [Error::with_source] and the shorthands built on them. *)
Definition error_new (k : ErrorKind) : Error := {| source := None; kind := k |}.

Definition error_with_source (k : ErrorKind) (src : bytes) : Error :=
  {| source := Some src; kind := k |}.

Definition error_io (src : bytes) : Error := error_with_source Io src.
Definition error_peer_closed (src : bytes) : Error := error_with_source PeerConnectionClosed src.
Definition error_tracker_failed (src : bytes) : Error := error_with_source TrackerRequestFailed src.
Definition error_protocol (src : bytes) : Error := error_with_source Protocol src.
Definition error_invalid_input (src : bytes) : Error := error_with_source InvalidInput src.

(** The message of a kind in [Display for Error]. *)
Definition kind_message (k : ErrorKind) : bytes :=
  match k with
  | BencodeInvalidSyntax => bs "invalid bencode syntax"
  | BencodeInvalidInteger => bs "invalid bencode integer"
  | BencodeUnexpectedEof => bs "unexpected end of bencode data"
  | BencodeIntegerOverflow => bs "bencode integer overflow"
  | MetainfoMissingField => bs "missing required metainfo field"
  | MetainfoInvalidField => bs "invalid metainfo field"
  | MetainfoInvalidPieces => bs "invalid pieces length in metainfo"
  | MetainfoInvalidUrlList => bs "invalid url-list in metainfo"
  | MetainfoInvalidHttpSeeds => bs "invalid httpseeds in metainfo"
  | PeerInvalidHandshake => bs "invalid peer handshake"
  | PeerInvalidMessage => bs "invalid peer message"
  | PeerConnectionClosed => bs "peer connection closed"
  | PeerInvalidExtendedMessage => bs "invalid extended peer message"
  | PeerInvalidPexMessage => bs "invalid PEX message"
  | PeerInvalidFastMessage => bs "invalid Fast Extension message"
  | PeerInvalidLsdAnnounce => bs "invalid LSD announce message"
  | PeerUtpInvalidHeader => bs "invalid uTP packet header"
  | PeerUtpProtocolError => bs "uTP protocol error"
  | PeerUtpConnectionFailed => bs "uTP connection failed"
  | TrackerInvalidResponse => bs "invalid tracker response"
  | TrackerRequestFailed => bs "tracker request failed"
  | TrackerProtocolError => bs "tracker protocol error"
  | WebSeedHashMismatch => bs "web seed SHA-1 hash mismatch"
  | Io => bs "I/O error"
  | InvalidInput => bs "invalid input"
  | Protocol => bs "protocol error"
  end.

(** [Display for Error]: the message, then [": "] and the source when there is one. *)
Definition error_display (e : Error) : bytes :=
  kind_message (kind e) ++
  match source e with
  | Some src => bs ": " ++ src
  | None => []
  end.

(** [Display for ErrorKind]. *)
Definition kind_display (k : ErrorKind) : bytes :=
  match k with
  | BencodeInvalidSyntax => bs "BencodeInvalidSyntax"
  | BencodeInvalidInteger => bs "BencodeInvalidInteger"
  | BencodeUnexpectedEof => bs "BencodeUnexpectedEof"
  | BencodeIntegerOverflow => bs "BencodeIntegerOverflow"
  | MetainfoMissingField => bs "MetainfoMissingField"
  | MetainfoInvalidField => bs "MetainfoInvalidField"
  | MetainfoInvalidPieces => bs "MetainfoInvalidPieces"
  | MetainfoInvalidUrlList => bs "MetainfoInvalidUrlList"
  | MetainfoInvalidHttpSeeds => bs "MetainfoInvalidHttpSeeds"
  | PeerInvalidHandshake => bs "PeerInvalidHandshake"
  | PeerInvalidMessage => bs "PeerInvalidMessage"
  | PeerConnectionClosed => bs "PeerConnectionClosed"
  | PeerInvalidExtendedMessage => bs "PeerInvalidExtendedMessage"
  | PeerInvalidPexMessage => bs "PeerInvalidPexMessage"
  | PeerInvalidFastMessage => bs "PeerInvalidFastMessage"
  | PeerInvalidLsdAnnounce => bs "PeerInvalidLsdAnnounce"
  | PeerUtpInvalidHeader => bs "PeerUtpInvalidHeader"
  | PeerUtpProtocolError => bs "PeerUtpProtocolError"
  | PeerUtpConnectionFailed => bs "PeerUtpConnectionFailed"
  | TrackerInvalidResponse => bs "TrackerInvalidResponse"
  | TrackerRequestFailed => bs "TrackerRequestFailed"
  | TrackerProtocolError => bs "TrackerProtocolError"
  | WebSeedHashMismatch => bs "WebSeedHashMismatch"
  | Io => bs "Io"
  | InvalidInput => bs "InvalidInput"
  | Protocol => bs "Protocol"
  end.

(** A component call of the model: the [Error] it may return is known by its kind. *)
Abbreviation result := (outcome ErrorKind).

(** Every kind, in declaration order. *)
Definition all_kinds : list ErrorKind :=
  [BencodeInvalidSyntax;
   BencodeInvalidInteger;
   BencodeUnexpectedEof;
   BencodeIntegerOverflow;
   MetainfoMissingField;
   MetainfoInvalidField;
   MetainfoInvalidPieces;
   MetainfoInvalidUrlList;
   MetainfoInvalidHttpSeeds;
   PeerInvalidHandshake;
   PeerInvalidMessage;
   PeerConnectionClosed;
   PeerInvalidExtendedMessage;
   PeerInvalidPexMessage;
   PeerInvalidFastMessage;
   PeerInvalidLsdAnnounce;
   PeerUtpInvalidHeader;
   PeerUtpProtocolError;
   PeerUtpConnectionFailed;
   TrackerInvalidResponse;
   TrackerRequestFailed;
   TrackerProtocolError;
   WebSeedHashMismatch;
   Io;
   InvalidInput;
   Protocol].

Lemma all_kinds_complete k : k ∈ all_kinds.
Proof. destruct k; vm_compute; repeat constructor. Qed.

(** No two kinds print alike, under either form of printing. *)
Lemma printed_kinds_distinct :
  NoDup (map kind_display all_kinds) ∧ NoDup (map kind_message all_kinds).
Proof.
  split; apply (bool_decide_unpack _); vm_compute; exact I.
Qed.

Lemma map_NoDup_inj {A B} (f : A → B) l x y :
  NoDup (map f l) → x ∈ l → y ∈ l → f x = f y → x = y.
Proof.
  intros Hnd Hx Hy E. induction l as [|z l IH]; [by apply not_elem_of_nil in Hx|].
  cbn in Hnd. apply NoDup_cons in Hnd as [Hz Hnd].
  apply elem_of_cons in Hx as [->|Hx]; apply elem_of_cons in Hy as [->|Hy]; [done| | |eauto].
  - destruct Hz. rewrite E. by apply list_elem_of_fmap_2.
  - destruct Hz. rewrite <- E. by apply list_elem_of_fmap_2.
Qed.

Lemma kind_display_inj k1 k2 : kind_display k1 = kind_display k2 → k1 = k2.
Proof. apply (map_NoDup_inj _ all_kinds); [apply printed_kinds_distinct|apply all_kinds_complete..]. Qed.

Lemma kind_message_inj k1 k2 : kind_message k1 = kind_message k2 → k1 = k2.
Proof. apply (map_NoDup_inj _ all_kinds); [apply printed_kinds_distinct|apply all_kinds_complete..]. Qed.
