(* ===== verification/Text.v ===== *)
(** Operations on Rust strings that several parsers share: splitting, trimming, ASCII case, lossy
    UTF-8 decoding and hexadecimal digits. A [String] is its UTF-8 bytes. *)

From stdpp Require Import base numbers list list_numbers strings.
From Stdlib Require Import ZArith Lia.
From S2P Require Import Prelude Facts Error.

(** * Splitting *)

(** [str::split] on an ASCII character, collected. *)
Fixpoint split_on (c : Z) (l : bytes) : list bytes :=
  match l with
  | [] => [[]]
  | x :: l' =>
      if x =? c then [] :: split_on c l'
      else match split_on c l' with
           | [] => [[x]]
           | s :: ss => (x :: s) :: ss
           end
  end.

(** [str::split_once] on an ASCII character. *)
Fixpoint split_once (c : Z) (l : bytes) : option (bytes * bytes) :=
  match l with
  | [] => None
  | x :: l' =>
      if x =? c then Some ([], l')
      else match split_once c l' with
           | Some (a, b) => Some (x :: a, b)
           | None => None
           end
  end.

(** [str::strip_prefix]. *)
Fixpoint strip_prefix (p l : bytes) : option bytes :=
  match p, l with
  | [], _ => Some l
  | x :: p', y :: l' => if x =? y then strip_prefix p' l' else None
  | _ :: _, [] => None
  end.

(** [str::split_once] on a string: at its first occurrence. *)
Fixpoint split_once_str (p l : bytes) : option (bytes * bytes) :=
  match strip_prefix p l with
  | Some rest => Some ([], rest)
  | None =>
      match l with
      | [] => None
      | x :: l' =>
          match split_once_str p l' with
          | Some (a, b) => Some (x :: a, b)
          | None => None
          end
      end
  end.

(** [str::lines]: a line ends at a line feed, without a carriage return before it; a last line without
    a line feed is kept as it is. *)
Definition strip_cr (l : bytes) : bytes :=
  match last l with
  | Some c => if c =? 13 then removelast l else l
  | None => l
  end.

Fixpoint lines_of (segments : list bytes) : list bytes :=
  match segments with
  | [] => []
  | [s] => match s with [] => [] | _ => [s] end
  | s :: ss => strip_cr s :: lines_of ss
  end.

Definition lines (l : bytes) : list bytes := lines_of (split_on 10 l).

(** [&s[..n]] on a string panics inside a character as well as past the end. *)
Definition is_char_boundary (l : bytes) (n : nat) : bool :=
  match l !! n with
  | Some b => negb (is_cont b)
  | None => (n =? length l)%nat
  end.

(** * ASCII case *)

Definition ascii_lower (b : Z) : Z := if in_range 65 90 b then b + 32 else b.

Definition eq_ignore_ascii_case (a b : bytes) : bool :=
  bool_decide (map ascii_lower a = map ascii_lower b).

(** * Trimming *)

(** The characters of Unicode's [White_Space], in UTF-8. *)
Definition whitespace : list bytes :=
  map (λ b, [b]) [9; 10; 11; 12; 13; 32] ++ [[194; 133]; [194; 160]; [225; 154; 128]] ++
  map (λ b, [226; 128; b]) [128; 129; 130; 131; 132; 133; 134; 135; 136; 137; 138; 168; 169; 175] ++
  [[226; 129; 159]; [227; 128; 128]].

Fixpoint strip_any (ps : list bytes) (l : bytes) : option bytes :=
  match ps with
  | [] => None
  | p :: ps' => match strip_prefix p l with Some l' => Some l' | None => strip_any ps' l end
  end.

Fixpoint strip_all (fuel : nat) (ps : list bytes) (l : bytes) : bytes :=
  match fuel with
  | O => l
  | S f => match strip_any ps l with Some l' => strip_all f ps l' | None => l end
  end.

(** [str::trim]: the end is the start of the reversed string. *)
Definition trim_start (l : bytes) : bytes := strip_all (length l) whitespace l.
Definition trim_end (l : bytes) : bytes := rev (strip_all (length l) (map (@rev Z) whitespace) (rev l)).
Definition trim (l : bytes) : bytes := trim_end (trim_start l).

(** * Hexadecimal digits *)

Definition hex_val (b : Z) : result Z :=
  if in_range 48 57 b then Ok (b - 48)
  else if in_range 97 102 b then Ok (b - 97 + 10)
  else if in_range 65 70 b then Ok (b - 65 + 10)
  else Err InvalidInput.

Definition hex_digit (upper : bool) (n : Z) : Z :=
  if n <? 10 then 48 + n else if upper then 55 + n else 87 + n.

(** [format!("{:02x}", b)], and with [upper] [format!("{:02X}", b)]. *)
Definition hex_byte (upper : bool) (b : Z) : bytes := [hex_digit upper (b / 16); hex_digit upper (b mod 16)].

(** * Lossy UTF-8 *)

Definition replacement : bytes := [239; 191; 189].

(** [String::from_utf8_lossy]: every maximal prefix of a character that is not completed, and every
    byte that starts none, becomes U+FFFD. *)
Fixpoint utf8_lossy (l : bytes) : bytes :=
  match l with
  | [] => []
  | b0 :: l0 =>
      if in_range 0 127 b0 then b0 :: utf8_lossy l0
      else
        match l0 with
        | [] => replacement
        | b1 :: l1 =>
            if in_range 194 223 b0 then
              if is_cont b1 then b0 :: b1 :: utf8_lossy l1 else replacement ++ utf8_lossy l0
            else if in_range 224 239 b0 then
              if (if b0 =? 224 then in_range 160 191 b1
                  else if b0 =? 237 then in_range 128 159 b1
                  else is_cont b1)
              then
                match l1 with
                | [] => replacement
                | b2 :: l2 =>
                    if is_cont b2 then b0 :: b1 :: b2 :: utf8_lossy l2 else replacement ++ utf8_lossy l1
                end
              else replacement ++ utf8_lossy l0
            else if in_range 240 244 b0 then
              if (if b0 =? 240 then in_range 144 191 b1
                  else if b0 =? 244 then in_range 128 143 b1
                  else is_cont b1)
              then
                match l1 with
                | [] => replacement
                | b2 :: l2 =>
                    if is_cont b2 then
                      match l2 with
                      | [] => replacement
                      | b3 :: l3 =>
                          if is_cont b3 then b0 :: b1 :: b2 :: b3 :: utf8_lossy l3
                          else replacement ++ utf8_lossy l2
                      end
                    else replacement ++ utf8_lossy l1
                end
              else replacement ++ utf8_lossy l0
            else replacement ++ utf8_lossy l0
        end
  end.

(** * Facts *)

Lemma split_on_app c a l : c ∉ a → split_on c (a ++ c :: l) = a :: split_on c l.
Proof.
  induction a as [|x a IH]; intros Hc; cbn [app split_on].
  - by rewrite Z.eqb_refl.
  - apply not_elem_of_cons in Hc as [Hx Ha]. rewrite (proj2 (Z.eqb_neq _ _)) by congruence.
    by rewrite IH.
Qed.

Lemma split_on_none c a : c ∉ a → split_on c a = [a].
Proof.
  induction a as [|x a IH]; intros Hc; [done|]. apply not_elem_of_cons in Hc as [Hx Ha].
  cbn [split_on]. rewrite (proj2 (Z.eqb_neq _ _)) by congruence. by rewrite IH.
Qed.

(** Segments joined by a separator. *)
Fixpoint join (c : Z) (ss : list bytes) : bytes :=
  match ss with
  | [] => []
  | [s] => s
  | s :: ss' => s ++ c :: join c ss'
  end.

Lemma split_on_join c s ss : Forall (λ s, c ∉ s) (s :: ss) → split_on c (join c (s :: ss)) = s :: ss.
Proof.
  revert s. induction ss as [|s' ss IH]; intros s [Hs HF]%Forall_cons; [by apply split_on_none|].
  change (join c (s :: s' :: ss)) with (s ++ c :: join c (s' :: ss)).
  rewrite split_on_app by done. by rewrite IH.
Qed.

Lemma split_once_app c a l : c ∉ a → split_once c (a ++ c :: l) = Some (a, l).
Proof.
  induction a as [|x a IH]; intros Hc; cbn [app split_once].
  - by rewrite Z.eqb_refl.
  - apply not_elem_of_cons in Hc as [Hx Ha]. rewrite (proj2 (Z.eqb_neq _ _)) by congruence.
    by rewrite IH.
Qed.

Lemma strip_prefix_app p l : strip_prefix p (p ++ l) = Some l.
Proof. induction p as [|x p IH]; [done|]. cbn. by rewrite Z.eqb_refl. Qed.

Lemma strip_prefix_Some p l l' : strip_prefix p l = Some l' → l = p ++ l'.
Proof.
  revert l. induction p as [|x p IH]; intros l H; cbn in H; [by injection H|].
  destruct l as [|y l]; [done|]. destruct (Z.eqb_spec x y) as [->|]; [|done]. cbn. f_equal. by apply IH.
Qed.

(** A visible ASCII character at both ends is not trimmed. *)
Definition graphic (b : Z) : Prop := 33 ≤ b ≤ 126.

Lemma strip_any_graphic ps b l :
  graphic b → Forall (λ p, match p with [] => False | x :: _ => ¬ graphic x end) ps →
  strip_any ps (b :: l) = None.
Proof.
  intros Hb. induction 1 as [|p ps Hp _ IH]; [done|]. cbn [strip_any].
  destruct p as [|x p]; [done|]. cbn [strip_prefix].
  destruct (Z.eqb_spec x b) as [->|]; [done|]. exact IH.
Qed.

Lemma strip_all_graphic fuel ps b l :
  graphic b → Forall (λ p, match p with [] => False | x :: _ => ¬ graphic x end) ps →
  strip_all fuel ps (b :: l) = b :: l.
Proof. intros Hb HF. destruct fuel; [done|]. cbn [strip_all]. by rewrite strip_any_graphic. Qed.

Lemma whitespace_not_graphic :
  Forall (λ p, match p with [] => False | x :: _ => ¬ graphic x end) whitespace ∧
  Forall (λ p, match p with [] => False | x :: _ => ¬ graphic x end) (map (@rev Z) whitespace).
Proof.
  split; unfold whitespace; cbn [map app rev]; repeat first [apply List.Forall_nil | apply List.Forall_cons];
    unfold graphic; cbn; lia.
Qed.

Lemma trim_graphic a l z : graphic a → graphic z → trim (a :: l ++ [z]) = a :: l ++ [z].
Proof.
  intros Ha Hz. destruct whitespace_not_graphic as [H1 H2]. unfold trim, trim_start.
  rewrite strip_all_graphic by done. unfold trim_end.
  change (a :: l ++ [z]) with ((a :: l) ++ [z]). rewrite rev_app_distr.
  change (rev [z] ++ rev (a :: l)) with (z :: rev (a :: l)). rewrite strip_all_graphic by done.
  change (z :: rev (a :: l)) with (rev [z] ++ rev (a :: l)).
  by rewrite <- rev_app_distr, rev_involutive.
Qed.

(** Both hexadecimal forms of a byte read back. *)
Lemma hex_val_digit upper n : 0 ≤ n < 16 → hex_val (hex_digit upper n) = Ok n.
Proof.
  intros Hn. unfold hex_digit, hex_val, in_range.
  destruct upper; repeat case_bool; cbn [andb]; try (f_equal; lia); lia.
Qed.

Lemma hex_digit_graphic upper n : 0 ≤ n < 16 → 48 ≤ hex_digit upper n ≤ 102 ∧ hex_digit upper n ≠ 61.
Proof. intros Hn. unfold hex_digit. destruct upper; repeat case_bool; lia. Qed.

Lemma nibbles b : in_u8 b → 0 ≤ b / 16 < 16 ∧ 0 ≤ b mod 16 < 16 ∧ Z.lor (as_u8 (Z.shiftl (b / 16) 4)) (b mod 16) = b.
Proof.
  intros Hb. unfold in_u8 in Hb.
  assert (0 ≤ b / 16 < 16) as H1 by (split; [apply Z.div_pos; lia|apply Z.div_lt_upper_bound; lia]).
  assert (0 ≤ b mod 16 < 16) as H2 by (apply Z.mod_pos_bound; lia). split; [done|]. split; [done|].
  assert (forallb (λ b, Z.lor (as_u8 (Z.shiftl (b / 16) 4)) (b mod 16) =? b) (seqZ 0 256) = true) as Hall
    by (vm_compute; reflexivity).
  rewrite forallb_forall in Hall. apply Z.eqb_eq, Hall, list_elem_of_In, elem_of_seqZ. lia.
Qed.

Lemma utf8_lossy_valid l : utf8_valid l = true → utf8_lossy l = l.
Proof.
  assert (∀ n l, (length l ≤ n)%nat → utf8_valid l = true → utf8_lossy l = l) as H; [|by apply (H (length l))].
  clear l. induction n as [|n IH]; intros l Hn Hv; [by destruct l; cbn in Hn; [|lia]|].
  destruct l as [|b0 l0]; [done|]. cbn [utf8_lossy utf8_valid length] in *.
  destruct (in_range 0 127 b0); [by rewrite IH by (done || lia)|].
  destruct l0 as [|b1 l1]; [done|]. cbn [length] in Hn.
  destruct (in_range 194 223 b0).
  { apply andb_true_iff in Hv as [-> Hv]. by rewrite IH by (done || lia). }
  destruct l1 as [|b2 l2]; [done|]. cbn [length] in Hn. destruct (in_range 224 239 b0).
  { apply andb_true_iff in Hv as [[-> ->]%andb_true_iff Hv]. by rewrite IH by (done || lia). }
  destruct l2 as [|b3 l3]; [done|]. cbn [length] in Hn.
  apply andb_true_iff in Hv as [[[[-> ->]%andb_true_iff ->]%andb_true_iff ->]%andb_true_iff Hv].
  by rewrite IH by (done || lia).
Qed.

Lemma replacement_valid l : utf8_valid l = true → utf8_valid (replacement ++ l) = true.
Proof. done. Qed.

Lemma utf8_lossy_ok l : utf8_valid (utf8_lossy l) = true.
Proof.
  assert (∀ n l, (length l ≤ n)%nat → utf8_valid (utf8_lossy l) = true) as H; [|by apply (H (length l))].
  clear l. induction n as [|n IH]; intros l Hn; [by destruct l; cbn in Hn; [|lia]|].
  destruct l as [|b0 l0]; [done|]. cbn [utf8_lossy length] in *.
  destruct (in_range 0 127 b0) eqn:E0.
  { cbn [utf8_valid]. rewrite E0. apply IH. lia. }
  destruct l0 as [|b1 l1]; [done|]. cbn [length] in Hn.
  assert (utf8_valid (replacement ++ utf8_lossy (b1 :: l1)) = true) as Hr0.
  { apply replacement_valid, IH. cbn. lia. }
  destruct (in_range 194 223 b0) eqn:E1.
  { destruct (is_cont b1) eqn:Ec; [|done]. cbn [utf8_valid]. rewrite E0, E1, Ec. apply IH. lia. }
  assert (utf8_valid (replacement ++ utf8_lossy l1) = true) as Hr1.
  { apply replacement_valid, IH. lia. }
  destruct (in_range 224 239 b0) eqn:E2.
  { destruct (if b0 =? 224 then _ else _) eqn:Ec1; [|done].
    destruct l1 as [|b2 l2]; [done|]. cbn [length] in Hn. destruct (is_cont b2) eqn:Ec2; [|done].
    cbn [utf8_valid]. rewrite E0, E1, E2, Ec1, Ec2. apply IH. lia. }
  destruct (in_range 240 244 b0) eqn:E3; [|done].
  destruct (if b0 =? 240 then _ else _) eqn:Ec1; [|done].
  destruct l1 as [|b2 l2]; [done|]. cbn [length] in Hn. destruct (is_cont b2) eqn:Ec2; [|done].
  destruct l2 as [|b3 l3]; [done|]. cbn [length] in Hn. destruct (is_cont b3) eqn:Ec3.
  - cbn [utf8_valid]. rewrite E0, E1, E2, E3, Ec1, Ec2, Ec3. apply IH. lia.
  - apply replacement_valid, IH. cbn. lia.
Qed.

Lemma in_range_u8 lo hi b : in_range lo hi b = true → 0 ≤ lo → hi ≤ u8_max → in_u8 b.
Proof. unfold in_range, in_u8. rewrite andb_true_iff, !Z.leb_le. lia. Qed.

Lemma utf8_valid_bytes l : utf8_valid l = true → bytes_ok l.
Proof.
  assert (∀ n l, (length l ≤ n)%nat → utf8_valid l = true → bytes_ok l) as H; [|by apply (H (length l))].
  clear l. induction n as [|n IH]; intros l Hn Hv; [destruct l; cbn in Hn; [constructor|lia]|].
  destruct l as [|b0 l0]; [constructor|]. cbn [utf8_valid length] in *.
  destruct (in_range 0 127 b0) eqn:E0.
  { apply Forall_cons. split; [by eapply in_range_u8|]. apply IH; [lia|done]. }
  destruct l0 as [|b1 l1]; [done|]. cbn [length] in Hn.
  destruct (in_range 194 223 b0) eqn:E1.
  { apply andb_true_iff in Hv as [Hc Hv]. repeat (apply Forall_cons; split; [by eapply in_range_u8|]).
    apply IH; [lia|done]. }
  destruct l1 as [|b2 l2]; [done|]. cbn [length] in Hn. destruct (in_range 224 239 b0) eqn:E2.
  { apply andb_true_iff in Hv as [[Hc Hc2]%andb_true_iff Hv].
    assert (in_u8 b1) by (repeat case_match; by eapply in_range_u8).
    repeat (apply Forall_cons; split; [by (done || eapply in_range_u8)|]). apply IH; [lia|done]. }
  destruct l2 as [|b3 l3]; [done|]. cbn [length] in Hn.
  apply andb_true_iff in Hv as [[[[Hb Hc]%andb_true_iff Hc2]%andb_true_iff Hc3]%andb_true_iff Hv].
  assert (in_u8 b1) by (repeat case_match; by eapply in_range_u8).
  repeat (apply Forall_cons; split; [by (done || eapply in_range_u8)|]). apply IH; [lia|done].
Qed.

(** Text whose lines all end in CR LF. *)
Lemma strip_cr_crlf l : strip_cr (l ++ [13]) = l.
Proof. unfold strip_cr. rewrite last_snoc. cbn. by rewrite removelast_last. Qed.

Lemma lines_crlf ls :
  Forall (λ l, 10 ∉ l) ls → lines (concat (map (λ l, l ++ [13; 10]) ls)) = ls.
Proof.
  intros Hls. unfold lines. induction Hls as [|l ls Hl _ IH]; [done|]. cbn [map concat].
  change (l ++ [13; 10]) with (l ++ [13] ++ [10]). rewrite (app_assoc l), <- app_assoc. cbn [app].
  rewrite split_on_app by (rewrite not_elem_of_app, list_elem_of_singleton; split; [done|lia]).
  destruct (split_on 10 _) as [|s ss] eqn:E.
  - exfalso. revert E. destruct (concat _) as [|x r]; [done|]. cbn. destruct (x =? 10); [done|].
    by destruct (split_on 10 r).
  - change (lines_of ((l ++ [13]) :: s :: ss)) with (strip_cr (l ++ [13]) :: lines_of (s :: ss)).
    by rewrite strip_cr_crlf, IH.
Qed.

Lemma split_once_str_app x p a l :
  x ∉ a → split_once_str (x :: p) (a ++ (x :: p) ++ l) = Some (a, l).
Proof.
  induction a as [|y a IH]; intros Hx.
  - cbn [app]. change (x :: p ++ l) with ((x :: p) ++ l). destruct (x :: p) eqn:E; [done|].
    cbn [app split_once_str]. pose proof (strip_prefix_app (z :: l0) l) as Hs. cbn [app] in Hs. by rewrite Hs.
  - apply not_elem_of_cons in Hx as [Hy Ha]. cbn [app split_once_str strip_prefix].
    rewrite (proj2 (Z.eqb_neq x y)) by done. cbn [app] in IH. by rewrite IH.
Qed.
