(* ===== verification/Bencode.v ===== *)
(** Bencode encoding and decoding: [crates/torrent-core/src/bencode/].

    [Bencode] is the value type of [mod.rs]; [decode] and its parsers are those of [decode.rs];
    [encode] and its printers those of [encode.rs]; [dict_get] and its variants, [decode_str] and
    [encode_str] those of [util.rs]. The recursive descent is on fuel: a call on [n] bytes needs at
    most [2 * n + 1], which [decode_fuel_enough] proves, so [decode] itself takes no fuel. *)

From stdpp Require Import base numbers list strings sorting.
From Stdlib Require Import ZArith Lia.
From S2P Require Import Prelude Facts Error.

(** [enum Bencode]. *)
Inductive Bencode : Type :=
| BBytes (b : bytes)
| BInteger (i : Z)
| BList (items : list Bencode)
| BDict (entries : list (bytes * Bencode)).

(** * Encoding *)

Definition encode_bytes (b : bytes) : bytes := u64_to_string (zlen b) ++ [c_colon] ++ b.

Definition encode_integer (i : Z) : bytes := [c_i] ++ i64_to_string i ++ [c_e].

Definition key_leb {A} (x y : bytes * A) : bool := bytes_leb x.1 y.1.

(** [sorted.sort_by(|(a, _), (b, _)| a.cmp(b))]. *)
Definition sort_entries {A} (entries : list (bytes * A)) : list (bytes * A) :=
  stable_sort key_leb entries.

(** The values are encoded before the entries are sorted by key, which keeps the recursion
    structural; [encode_dict_eq] gives the loop of [encode_dict], which sorts first. *)
Fixpoint encode (val : Bencode) : bytes :=
  match val with
  | BBytes b => encode_bytes b
  | BInteger i => encode_integer i
  | BList items => [c_l] ++ concat (map encode items) ++ [c_e]
  | BDict entries =>
      [c_d]
      ++ concat (map (fun '(k, v) => encode_bytes k ++ v)
           (sort_entries (map (fun '(k, v) => (k, encode v)) entries)))
      ++ [c_e]
  end.

Definition encode_list (items : list Bencode) : bytes :=
  [c_l] ++ concat (map encode items) ++ [c_e].

Definition encode_dict (entries : list (bytes * Bencode)) : bytes :=
  [c_d]
  ++ concat (map (fun '(k, v) => encode (BBytes k) ++ encode v) (sort_entries entries))
  ++ [c_e].

(** * Decoding *)

(** [iter().position(p)]. *)
Fixpoint position {A} (p : A → bool) (l : list A) : option nat :=
  match l with
  | [] => None
  | x :: l' => if p x then Some O else option_map S (position p l')
  end.

(** The loop of [parse_decimal_u64], with its checked multiplication and addition. *)
Fixpoint parse_decimal_loop (s : bytes) (val : Z) : result Z :=
  match s with
  | [] => Ok val
  | b :: s' =>
      if negb (is_ascii_digit b) then Err BencodeInvalidInteger
      else if val * 10 <=? u64_max then
        if val * 10 + (b - c_0) <=? u64_max then parse_decimal_loop s' (val * 10 + (b - c_0))
        else Err BencodeIntegerOverflow
      else Err BencodeIntegerOverflow
  end.

Definition parse_decimal_u64 (s : bytes) : result Z :=
  match s with
  | [] => Err BencodeInvalidInteger
  | _ => parse_decimal_loop s 0
  end.

(** [start + len] is a [usize] addition: it panics when it overflows. *)
Definition parse_string (data : bytes) : result (Bencode * bytes) :=
  let! colon_pos := ok_or (position (Z.eqb c_colon) data) BencodeInvalidSyntax in
  let len_str := take colon_pos data in
  let! len := parse_decimal_u64 len_str in
  let! _ := guard_err ((1 <? length len_str)%nat && bool_decide (head len_str = Some c_0))
              BencodeInvalidInteger in
  let start := (colon_pos + 1)%nat in
  let! e := checked_add_panic u64_max (Z.of_nat start) len in
  let! _ := guard_err (zlen data <? e) BencodeUnexpectedEof in
  Ok (BBytes (take (Z.to_nat len) (drop start data)), drop (start + Z.to_nat len) data).

Definition parse_integer (data : bytes) : result (Bencode * bytes) :=
  let! e := ok_or (position (Z.eqb c_e) data) BencodeUnexpectedEof in
  let! num_str := slice data 1 e in
  let! _ := guard_err (bool_decide (num_str = [])) BencodeInvalidInteger in
  let has_sign := bool_decide (head num_str = Some c_minus) in
  let digits_start := if has_sign then 1%nat else 0%nat in
  let! _ := guard_err (length num_str <=? digits_start)%nat BencodeInvalidInteger in
  let! _ := guard_err (has_sign && bool_decide (num_str !! 1%nat = Some c_0)
                         && (length num_str =? 2)%nat) BencodeInvalidInteger in
  let! _ := guard_err ((1 <? length num_str - digits_start)%nat
                         && bool_decide (num_str !! digits_start = Some c_0))
              BencodeInvalidInteger in
  let! num_str_ascii := ok_or (from_utf8 num_str) BencodeInvalidInteger in
  let! value := ok_or (parse_i64 num_str_ascii) BencodeIntegerOverflow in
  Ok (BInteger value, drop (e + 1) data).

Definition has_key {A} (key : bytes) (entries : list (bytes * A)) : bool :=
  existsb (fun '(k, _) => bool_decide (k = key)) entries.

(** [decode], and the loops of [parse_list] and [parse_dict] on the bytes that are left and on
    what was collected so far. *)
Fixpoint decode_fuel (fuel : nat) (data : bytes) : result (Bencode * bytes) :=
  match fuel with
  | O => NoFuel
  | S f =>
      match data with
      | [] => Err BencodeUnexpectedEof
      | c :: rest =>
          if is_ascii_digit c then parse_string data
          else if c =? c_i then parse_integer data
          else if c =? c_l then parse_list_fuel f rest []
          else if c =? c_d then parse_dict_fuel f rest []
          else Err BencodeInvalidSyntax
      end
  end
with parse_list_fuel (fuel : nat) (rest : bytes) (items : list Bencode)
    : result (Bencode * bytes) :=
  match fuel with
  | O => NoFuel
  | S f =>
      match rest with
      | [] => Err BencodeUnexpectedEof
      | c :: rest' =>
          if c =? c_e then Ok (BList items, rest')
          else
            let! (item, remaining) := decode_fuel f rest in
            parse_list_fuel f remaining (items ++ [item])
      end
  end
with parse_dict_fuel (fuel : nat) (rest : bytes) (entries : list (bytes * Bencode))
    : result (Bencode * bytes) :=
  match fuel with
  | O => NoFuel
  | S f =>
      match rest with
      | [] => Err BencodeUnexpectedEof
      | c :: rest' =>
          if c =? c_e then Ok (BDict (sort_entries entries), rest')
          else
            let! (key_val, remaining) := decode_fuel f rest in
            match key_val with
            | BBytes key =>
                match remaining with
                | [] => Err BencodeUnexpectedEof
                | _ =>
                    let! (val, remaining') := decode_fuel f remaining in
                    let! _ := guard_err (has_key key entries) BencodeInvalidSyntax in
                    parse_dict_fuel f remaining' (entries ++ [(key, val)])
                end
            | _ => Err BencodeInvalidSyntax
            end
      end
  end.

(** The recursion is as deep as the input is nested; the stack that the source needs for it is not
    modelled. *)
Definition decode (data : bytes) : result (Bencode * bytes) :=
  decode_fuel (2 * length data + 1) data.

Definition parse_list (rest : bytes) (items : list Bencode) : result (Bencode * bytes) :=
  parse_list_fuel (2 * length rest + 2) rest items.

Definition parse_dict (rest : bytes) (entries : list (bytes * Bencode))
    : result (Bencode * bytes) :=
  parse_dict_fuel (2 * length rest + 2) rest entries.

(** * Dictionary access and string helpers *)

Definition dict_get (val : Bencode) (key : bytes) : option Bencode :=
  match val with
  | BDict entries =>
      match List.find (fun '(k, _) => bool_decide (k = key)) entries with
      | Some (_, v) => Some v
      | None => None
      end
  | _ => None
  end.

Definition dict_get_int (val : Bencode) (key : bytes) : option Z :=
  match dict_get val key with
  | Some (BInteger i) => Some i
  | _ => None
  end.

Definition dict_get_bytes (val : Bencode) (key : bytes) : option bytes :=
  match dict_get val key with
  | Some (BBytes b) => Some b
  | _ => None
  end.

Definition decode_str (data : bytes) : result bytes :=
  let! (val, _) := decode data in
  match val with
  | BBytes b => ok_or (from_utf8 b) InvalidInput
  | _ => Err InvalidInput
  end.

Definition encode_str (s : bytes) : bytes := encode (BBytes s).

(** * Well-formed and canonical values

    [bencode_wf] holds of the values Rust can build and [encode] writes faithfully: integers in
    [i64], byte strings shorter than the largest allocation, dictionaries without duplicate keys.
    [canonical] adds that every dictionary is sorted; [normalize] sorts them. *)

Definition short (b : bytes) : Prop := zlen b ≤ i64_max.

Inductive bencode_wf : Bencode → Prop :=
| wf_bytes b : short b → bencode_wf (BBytes b)
| wf_integer i : in_i64 i → bencode_wf (BInteger i)
| wf_list l : Forall bencode_wf l → bencode_wf (BList l)
| wf_dict l :
    NoDup (map fst l) → Forall (fun e => short e.1 ∧ bencode_wf e.2) l → bencode_wf (BDict l).

Fixpoint normalize (val : Bencode) : Bencode :=
  match val with
  | BList items => BList (map normalize items)
  | BDict entries => BDict (sort_entries (map (fun '(k, v) => (k, normalize v)) entries))
  | _ => val
  end.

Definition canonical (val : Bencode) : Prop := bencode_wf val ∧ normalize val = val.
