(* ===== verification/BencodeFacts.v ===== *)
(** The bencode codec is correct: fuel is enough, decoding consumes a prefix and depends on
    nothing after it, every decoded value is canonical, and decoding inverts encoding up to the
    order of dictionary keys. *)

From stdpp Require Import base numbers list strings sorting.
From Stdlib Require Import ZArith Lia.
From S2P Require Import Prelude Facts Error Bencode.

(** * Induction over values *)

Section bencode_induction.
Context (P : Bencode → Prop).
Context (Hbytes : ∀ b, P (BBytes b)) (Hint : ∀ i, P (BInteger i)).
Context (Hlist : ∀ l, Forall P l → P (BList l)).
Context (Hdict : ∀ l, Forall (λ e, P e.2) l → P (BDict l)).

Fixpoint bencode_ind' (v : Bencode) : P v :=
  match v with
  | BBytes b => Hbytes b
  | BInteger i => Hint i
  | BList l =>
      Hlist l ((fix go l : Forall P l :=
        match l with [] => Forall_nil_2 _ | x :: l' => Forall_cons_2 _ _ _ (bencode_ind' x) (go l') end) l)
  | BDict l =>
      Hdict l ((fix go l : Forall (λ e, P e.2) l :=
        match l with
        | [] => Forall_nil_2 _
        | x :: l' => Forall_cons_2 _ _ _ (bencode_ind' x.2) (go l')
        end) l)
  end.
End bencode_induction.

(** * Fuel *)

(** [suffix_of rest data]: [rest] is what is left after a non-empty prefix of [data]. *)
Definition consumed (data rest : bytes) : Prop := ∃ c, c ≠ [] ∧ data = c ++ rest.

Lemma consumed_length data rest : consumed data rest → (length rest < length data)%nat.
Proof. intros (c & Hc & ->). rewrite length_app. destruct c; [done|simpl; lia]. Qed.

Lemma consumed_trans d r s : consumed d r → consumed r s → consumed d s.
Proof.
  intros (c & Hc & ->) (c' & Hc' & ->). exists (c ++ c'). rewrite app_assoc. split; [|done].
  by destruct c.
Qed.

Lemma consumed_cons c data rest : consumed data rest → consumed (c :: data) rest.
Proof. intros (p & Hp & ->). by exists (c :: p). Qed.

Lemma consumed_one c data : consumed (c :: data) data.
Proof. by exists [c]. Qed.

Lemma consumed_drop n data : (0 < n)%nat → data ≠ [] → consumed data (drop n data).
Proof.
  intros Hn Hd. exists (take n data). rewrite take_drop. split; [|done].
  destruct n; [lia|]. by destruct data.
Qed.

#[export] Hint Resolve consumed_trans consumed_cons consumed_one : torrent.

Lemma position_lt {A} p (l : list A) i : position p l = Some i → (i < length l)%nat.
Proof.
  revert i. induction l as [|x l IH]; intros i; [done|]. cbn [position length].
  destruct (p x); [intros [= <-]; lia|].
  destruct (position p l); [|done]. intros [= <-]. specialize (IH _ eq_refl). lia.
Qed.

Lemma position_app {A} p (l k : list A) i : position p l = Some i → position p (l ++ k) = Some i.
Proof.
  revert i. induction l as [|x l IH]; intros i; [done|]. cbn [position app].
  destruct (p x); [done|]. destruct (position p l); [|done].
  intros [= <-]. by rewrite (IH _ eq_refl).
Qed.

Lemma position_first {A} (p : A → bool) l c k :
  Forall (λ x, p x = false) l → p c = true → position p (l ++ c :: k) = Some (length l).
Proof.
  induction 1 as [|x l Hx Hl IH]; intros Hc; cbn [position app]; [by rewrite Hc|].
  rewrite Hx, IH by done. done.
Qed.

(** Data in which a position was found is not empty. *)
Ltac nonempty_by_position :=
  match goal with
  | O : position _ ?data = Some _ |- ?data ≠ [] =>
      apply position_lt in O; intros ->; cbn in O; lia
  end.

Lemma parse_string_consumes data v rest :
  parse_string data = Ok (v, rest) → consumed data rest.
Proof.
  unfold parse_string. intros H. inv_outcome. subst.
  apply consumed_drop; [lia|]. nonempty_by_position.
Qed.

Lemma parse_integer_consumes data v rest :
  parse_integer data = Ok (v, rest) → consumed data rest.
Proof.
  unfold parse_integer. intros H. inv_outcome. subst.
  apply consumed_drop; [lia|]. nonempty_by_position.
Qed.

#[export] Hint Resolve parse_string_consumes parse_integer_consumes : torrent.

(** The three mutually recursive parsers, joined for induction on fuel. *)
Definition each_parser (P : ∀ (A : Type), (nat → A → bytes → result (Bencode * bytes)) → Prop)
  : Prop :=
  P unit (λ n _ d, decode_fuel n d) ∧
  P (list Bencode) (λ n a d, parse_list_fuel n d a) ∧
  P (list (bytes * Bencode)) (λ n a d, parse_dict_fuel n d a).

Lemma parsers_consume n :
  (∀ d v r, decode_fuel n d = Ok (v, r) → consumed d r) ∧
  (∀ d a v r, parse_list_fuel n d a = Ok (v, r) → consumed d r) ∧
  (∀ d a v r, parse_dict_fuel n d a = Ok (v, r) → consumed d r).
Proof.
  induction n as [|n (IHd & IHl & IHm)]; [by repeat split|].
  split; [|split]; intros [|c d]; cbn [decode_fuel parse_list_fuel parse_dict_fuel]; try done.
  - intros v r. repeat case_match; intros ?; try done; eauto with torrent.
  - intros a v r. case_match; [intros [= <- <-]; auto with torrent|].
    intros Hr. inv_outcome. eauto with torrent.
  - intros a v r. case_match; [intros [= <- <-]; auto with torrent|].
    intros Hr. inv_outcome. case_match; try done. case_match; [done|].
    inv_outcome. subst. eauto 6 with torrent.
Qed.

Lemma decode_fuel_consumes n d v r : decode_fuel n d = Ok (v, r) → consumed d r.
Proof. apply (proj1 (parsers_consume n)). Qed.

Lemma parse_decimal_no_fuel l : parse_decimal_u64 l ≠ NoFuel.
Proof.
  assert (∀ v, parse_decimal_loop l v ≠ NoFuel) as Hloop.
  { induction l as [|b l IH]; intros v; [done|]. cbn. repeat case_match; done. }
  destruct l; [done|apply Hloop].
Qed.

#[export] Hint Resolve parse_decimal_no_fuel : torrent.

Lemma parse_string_no_fuel data : parse_string data ≠ NoFuel.
Proof. unfold parse_string. solve_no_fuel. Qed.

Lemma parse_integer_no_fuel data : parse_integer data ≠ NoFuel.
Proof. unfold parse_integer. solve_no_fuel. Qed.

Lemma parsers_fuel_enough n :
  (∀ d, (2 * length d + 1 ≤ n)%nat → decode_fuel n d ≠ NoFuel) ∧
  (∀ d a, (2 * length d + 2 ≤ n)%nat → parse_list_fuel n d a ≠ NoFuel) ∧
  (∀ d a, (2 * length d + 2 ≤ n)%nat → parse_dict_fuel n d a ≠ NoFuel).
Proof.
  induction n as [|n (IHd & IHl & IHm)]; [repeat split; intros; lia|].
  split; [|split]; intros [|c d]; cbn [length decode_fuel parse_list_fuel parse_dict_fuel]; try done.
  - intros Hn. repeat case_match; try done;
      auto using parse_string_no_fuel, parse_integer_no_fuel with lia.
  - intros a Hn. case_match; [done|].
    destruct (decode_fuel n (c :: d)) as [[item rem]| | |] eqn:E; try done; cbn [obind].
    + apply parsers_consume, consumed_length in E. cbn in E. apply IHl. cbn [length] in *. lia.
    + exfalso. apply (IHd (c :: d)); [cbn [length] in *; lia|done].
  - intros a Hn. case_match; [done|].
    destruct (decode_fuel n (c :: d)) as [[key rem]| | |] eqn:E; try done; cbn [obind].
    + apply parsers_consume, consumed_length in E. cbn in E.
      destruct key; try done. destruct rem as [|c' rem]; [done|].
      destruct (decode_fuel n (c' :: rem)) as [[val rem']| | |] eqn:E'; try done; cbn [obind].
      * apply parsers_consume, consumed_length in E'. cbn in E'.
        unfold guard_err. case_match; [done|]. cbn [obind]. apply IHm. cbn [length] in *. lia.
      * exfalso. apply (IHd (c' :: rem)); [cbn [length] in *; lia|done].
    + exfalso. apply (IHd (c :: d)); [cbn [length] in *; lia|done].
Qed.

Lemma obind_mono {A B} (m m' : result A) (f f' : A → result B) :
  (m ≠ NoFuel → m' = m) → (∀ x, f x ≠ NoFuel → f' x = f x) →
  obind m f ≠ NoFuel → obind m' f' = obind m f.
Proof.
  intros Hm Hf Hn. rewrite Hm by (intros ->; done). destruct m; cbn in *; try done. by apply Hf.
Qed.

Lemma parsers_fuel_mono n :
  (∀ d, decode_fuel n d ≠ NoFuel → decode_fuel (S n) d = decode_fuel n d) ∧
  (∀ d a, parse_list_fuel n d a ≠ NoFuel → parse_list_fuel (S n) d a = parse_list_fuel n d a) ∧
  (∀ d a, parse_dict_fuel n d a ≠ NoFuel → parse_dict_fuel (S n) d a = parse_dict_fuel n d a).
Proof.
  induction n as [|n (IHd & IHl & IHm)]; [by repeat split|].
  split; [|split]; intros [|c d]; try done.
  - intros H. cbn [decode_fuel] in H |- *. repeat case_match; auto.
  - intros a H. cbn [parse_list_fuel] in H |- *. case_match; [done|].
    apply obind_mono; [apply IHd| |exact H]. intros [item rem]. apply IHl.
  - intros a H. cbn [parse_dict_fuel] in H |- *. case_match; [done|].
    apply obind_mono; [apply IHd| |exact H]. intros [[key| | |] rem]; try done.
    destruct rem as [|c' rem]; [done|]. intros H'.
    apply obind_mono; [apply IHd| |exact H']. intros [val rem'] H''.
    apply obind_mono; [done| |exact H'']. intros _. apply IHm.
Qed.

Lemma decode_fuel_mono n m d :
  (n ≤ m)%nat → decode_fuel n d ≠ NoFuel → decode_fuel m d = decode_fuel n d.
Proof.
  induction 1 as [|m Hm IH]; intros H; [done|].
  rewrite <- (IH H). apply parsers_fuel_mono. by rewrite IH.
Qed.

Lemma parse_list_fuel_mono n m d a :
  (n ≤ m)%nat → parse_list_fuel n d a ≠ NoFuel → parse_list_fuel m d a = parse_list_fuel n d a.
Proof.
  induction 1 as [|m Hm IH]; intros H; [done|].
  rewrite <- (IH H). apply parsers_fuel_mono. by rewrite IH.
Qed.

Lemma parse_dict_fuel_mono n m d a :
  (n ≤ m)%nat → parse_dict_fuel n d a ≠ NoFuel → parse_dict_fuel m d a = parse_dict_fuel n d a.
Proof.
  induction 1 as [|m Hm IH]; intros H; [done|].
  rewrite <- (IH H). apply parsers_fuel_mono. by rewrite IH.
Qed.

Lemma decode_fuel_enough n d : (2 * length d + 1 ≤ n)%nat → decode_fuel n d = decode d.
Proof. intros Hn. unfold decode. apply decode_fuel_mono; [done|]. by apply parsers_fuel_enough. Qed.

Lemma parse_list_fuel_enough n d a :
  (2 * length d + 2 ≤ n)%nat → parse_list_fuel n d a = parse_list d a.
Proof. intros Hn. apply parse_list_fuel_mono; [done|]. by apply parsers_fuel_enough. Qed.

Lemma parse_dict_fuel_enough n d a :
  (2 * length d + 2 ≤ n)%nat → parse_dict_fuel n d a = parse_dict d a.
Proof. intros Hn. apply parse_dict_fuel_mono; [done|]. by apply parsers_fuel_enough. Qed.

(** * The equations of the source, without fuel *)

Lemma decode_nil : decode [] = Err BencodeUnexpectedEof.
Proof. done. Qed.

Lemma decode_cons c rest :
  decode (c :: rest) =
    if is_ascii_digit c then parse_string (c :: rest)
    else if c =? c_i then parse_integer (c :: rest)
    else if c =? c_l then parse_list rest []
    else if c =? c_d then parse_dict rest []
    else Err BencodeInvalidSyntax.
Proof.
  unfold decode. cbn [length].
  replace (2 * S (length rest) + 1)%nat with (S (2 * length rest + 2)) by lia.
  done.
Qed.

Lemma parse_list_eq rest items :
  parse_list rest items =
    match rest with
    | [] => Err BencodeUnexpectedEof
    | c :: rest' =>
        if c =? c_e then Ok (BList items, rest')
        else let! (item, remaining) := decode rest in parse_list remaining (items ++ [item])
    end.
Proof.
  unfold parse_list at 1. destruct rest as [|c d]; [done|].
  replace (2 * length (c :: d) + 2)%nat with (S (2 * length (c :: d) + 1)) by lia.
  cbn [parse_list_fuel]. case_match; [done|]. rewrite decode_fuel_enough by lia.
  destruct (decode (c :: d)) as [[item rem]| | |] eqn:E; try done. cbn [obind].
  apply parsers_consume, consumed_length in E. cbn in E.
  apply parse_list_fuel_enough. cbn. lia.
Qed.

Lemma parse_dict_eq rest entries :
  parse_dict rest entries =
    match rest with
    | [] => Err BencodeUnexpectedEof
    | c :: rest' =>
        if c =? c_e then Ok (BDict (sort_entries entries), rest')
        else
          let! (key_val, remaining) := decode rest in
          match key_val with
          | BBytes key =>
              match remaining with
              | [] => Err BencodeUnexpectedEof
              | _ =>
                  let! (val, remaining') := decode remaining in
                  let! _ := guard_err (has_key key entries) BencodeInvalidSyntax in
                  parse_dict remaining' (entries ++ [(key, val)])
              end
          | _ => Err BencodeInvalidSyntax
          end
    end.
Proof.
  unfold parse_dict at 1. destruct rest as [|c d]; [done|].
  replace (2 * length (c :: d) + 2)%nat with (S (2 * length (c :: d) + 1)) by lia.
  cbn [parse_dict_fuel]. case_match; [done|]. rewrite decode_fuel_enough by lia.
  destruct (decode (c :: d)) as [[key rem]| | |] eqn:E; try done. cbn [obind].
  apply parsers_consume, consumed_length in E. cbn [length] in E.
  destruct key; try done. destruct rem as [|c' rem]; [done|].
  rewrite decode_fuel_enough by (cbn [length] in *; lia).
  destruct (decode (c' :: rem)) as [[val rem']| | |] eqn:E'; try done. cbn [obind].
  apply parsers_consume, consumed_length in E'. cbn [length] in E'.
  unfold guard_err. case_match; [done|]. cbn [obind].
  apply parse_dict_fuel_enough. cbn [length] in *. lia.
Qed.

Lemma decode_consumes d v r : decode d = Ok (v, r) → consumed d r.
Proof. apply parsers_consume. Qed.

Lemma encode_dict_eq entries : encode (BDict entries) = encode_dict entries.
Proof.
  unfold encode_dict. cbn [encode]. f_equal. f_equal.
  unfold sort_entries.
  rewrite (stable_sort_map (λ '(k, v), (k, encode v)) key_leb) by (by intros [] []).
  rewrite map_map. f_equal. apply map_ext. by intros [].
Qed.

(** * Decoding looks at nothing after the value *)

Lemma parse_string_app d x v r :
  parse_string d = Ok (v, r) → parse_string (d ++ x) = Ok (v, r ++ x).
Proof.
  unfold parse_string. intros H. inv_outcome. subst.
  pose proof (position_lt _ _ _ O) as Hlt. rewrite (position_app _ _ x _ O). cbn [ok_or obind].
  rewrite take_app_le by lia. rewrite E. cbn [obind]. rewrite G. cbn [guard_err obind].
  rewrite E0. cbn [obind].
  unfold checked_add_panic in E0. destruct (_ <=? u64_max); [|done]. injection E0 as <-.
  apply Z.ltb_ge in G0. unfold zlen in *. rewrite length_app.
  rewrite (proj2 (Z.ltb_ge _ _)) by lia. cbn [guard_err obind].
  rewrite drop_app_le by lia. rewrite take_app_le by (rewrite length_drop; lia).
  by rewrite drop_app_le by lia.
Qed.

Lemma parse_integer_app d x v r :
  parse_integer d = Ok (v, r) → parse_integer (d ++ x) = Ok (v, r ++ x).
Proof.
  unfold parse_integer. intros H.
  destruct (position _ d) as [e|] eqn:O; [|done]. cbn [ok_or obind] in H.
  pose proof (position_lt _ _ _ O) as Hlt. rewrite (position_app _ _ x _ O). cbn [ok_or obind].
  assert (slice (E:=ErrorKind) (d ++ x) 1 e = slice d 1 e) as ->.
  { unfold slice. rewrite length_app.
    rewrite (proj2 (Nat.leb_le e (_ + _))), (proj2 (Nat.leb_le e _)) by lia.
    destruct (1 <=? e)%nat eqn:E1; [|done]. apply Nat.leb_le in E1. cbn [andb].
    rewrite drop_app_le by lia. by rewrite take_app_le by (rewrite length_drop; lia). }
  rewrite drop_app_le by lia. inv_outcome. subst.
  cbn [obind].
  repeat (match goal with E : ?m = _ |- context [?m] => rewrite E end; cbn [obind ok_or guard_err]).
  done.
Qed.

Lemma parsers_app x n :
  (∀ d v r, decode_fuel n d = Ok (v, r) → decode (d ++ x) = Ok (v, r ++ x)) ∧
  (∀ d a v r, parse_list_fuel n d a = Ok (v, r) → parse_list (d ++ x) a = Ok (v, r ++ x)) ∧
  (∀ d a v r, parse_dict_fuel n d a = Ok (v, r) → parse_dict (d ++ x) a = Ok (v, r ++ x)).
Proof.
  induction n as [|n (IHd & IHl & IHm)]; [by repeat split|].
  split; [|split]; intros [|c d]; cbn [decode_fuel parse_list_fuel parse_dict_fuel]; try done.
  - intros v r H. cbn [app]. rewrite decode_cons.
    repeat case_match; try done; eauto.
    + by apply (parse_string_app (c :: d)).
    + by apply (parse_integer_app (c :: d)).
  - intros a v r. rewrite parse_list_eq. cbn [app].
    case_match; [by intros [= <- <-]|]. intros Hr. inv_outcome.
    change (c :: d ++ x) with ((c :: d) ++ x). erewrite IHd by done. cbn [obind]. eauto.
  - intros a v r. rewrite parse_dict_eq. cbn [app].
    case_match; [by intros [= <- <-]|]. intros Hr. inv_outcome.
    case_match; try done. case_match; [done|]. inv_outcome. subst.
    change (c :: d ++ x) with ((c :: d) ++ x). erewrite IHd by done. cbn [obind app].
    rewrite app_comm_cons. erewrite IHd by done. cbn [obind]. rewrite G. cbn [guard_err obind].
    eauto.
Qed.

Lemma decode_app d x v r : decode d = Ok (v, r) → decode (d ++ x) = Ok (v, r ++ x).
Proof. apply parsers_app. Qed.

(** ** The bytes a value takes *)

Lemma position_prefix {A} p (l k : list A) i :
  position p (l ++ k) = Some i → (i < length l)%nat → position p l = Some i.
Proof.
  revert i. induction l as [|x l IH]; intros i; cbn [app position length]; [lia|].
  destruct (p x); [done|]. intros H Hi. destruct (position p (l ++ k)) as [j|] eqn:E; [|done].
  injection H as <-. by rewrite (IH j) by (done || lia).
Qed.

(** A call that returned [v] and left [r] read a prefix that gives [v] before any other bytes. *)
Definition reads (parse : bytes → result (Bencode * bytes)) (d : bytes) (v : Bencode) (r : bytes)
    : Prop :=
  ∃ c, d = c ++ r ∧ ∀ y, parse (c ++ y) = Ok (v, y).

Lemma parse_string_reads d v r : parse_string d = Ok (v, r) → reads parse_string d v r.
Proof.
  intros H. pose proof H as H0. unfold parse_string in H0. inv_outcome. subst.
  pose proof (position_lt _ _ _ O) as Hlt.
  unfold checked_add_panic in E0. destruct (Z.leb_spec (Z.of_nat (x + 1) + x0) u64_max); [|done].
  injection E0 as <-. apply Z.ltb_ge in G0. unfold zlen in G0.
  assert (0 ≤ x0) as Hx0.
  { destruct (Z.le_gt_cases 0 x0) as [|Hneg]; [done|]. exfalso.
    revert E. unfold parse_decimal_u64. destruct (take x d) as [|b l]; [done|].
    assert (∀ l acc, 0 ≤ acc → ∀ z, parse_decimal_loop l acc = Ok z → 0 ≤ z) as Hpos.
    { clear. induction l as [|b l IH]; intros acc Ha z Hz; cbn [parse_decimal_loop] in Hz;
        [injection Hz as <-; done|].
      destruct (is_ascii_digit b) eqn:Hb; cbn [negb] in Hz; [|done].
      apply is_ascii_digit_spec in Hb. repeat case_match; try done. eapply IH; [|done]. lia. }
    intros E. specialize (Hpos (b :: l) 0 ltac:(lia) _ E). lia. }
  set (n := (x + 1 + Z.to_nat x0)%nat) in *.
  assert (n ≤ length d)%nat as Hn by lia.
  exists (take n d). split; [symmetry; apply take_drop|]. intros y.
  assert (position (Z.eqb c_colon) (take n d) = Some x) as Hp.
  { apply (position_prefix _ _ (drop n d)); [by rewrite take_drop|]. rewrite length_take. lia. }
  unfold parse_string. rewrite (position_app _ _ y _ Hp). cbn [ok_or obind].
  rewrite take_app_le by (rewrite length_take; lia). rewrite take_take, Nat.min_l by lia.
  rewrite E. cbn [obind]. rewrite G. cbn [guard_err obind].
  unfold checked_add_panic. rewrite (proj2 (Z.leb_le _ _)) by done. cbn [obind].
  unfold zlen. rewrite length_app, length_take. rewrite (proj2 (Z.ltb_ge _ _)) by lia.
  cbn [guard_err obind]. fold n.
  rewrite (drop_app_length' (take n d) y n) by (rewrite length_take; lia).
  rewrite drop_app_le by (rewrite length_take; lia).
  rewrite take_app_le by (rewrite length_drop, length_take; lia).
  rewrite <- (take_drop n d) at 2.
  rewrite drop_app_le by (rewrite length_take; lia).
  by rewrite (take_app_le (drop (x + 1) (take n d))) by (rewrite length_drop, length_take; lia).
Qed.

Lemma parse_integer_reads d v r : parse_integer d = Ok (v, r) → reads parse_integer d v r.
Proof.
  unfold parse_integer. intros H. destruct (position _ d) as [e|] eqn:O; [|done].
  cbn [ok_or obind] in H. pose proof (position_lt _ _ _ O) as Hlt.
  assert (r = drop (e + 1) d) as -> by (inv_outcome; by subst).
  exists (take (e + 1) d). split; [symmetry; apply take_drop|]. intros y.
  assert (position (Z.eqb c_e) (take (e + 1) d) = Some e) as Hp.
  { apply (position_prefix _ _ (drop (e + 1) d)); [by rewrite take_drop|]. rewrite length_take. lia. }
  unfold parse_integer. rewrite (position_app _ _ y _ Hp). cbn [ok_or obind].
  assert (slice (E:=ErrorKind) (take (e + 1) d ++ y) 1 e = slice d 1 e) as ->.
  { unfold slice. rewrite length_app, length_take.
    rewrite (proj2 (Nat.leb_le e (_ + _))), (proj2 (Nat.leb_le e _)) by lia.
    destruct (1 <=? e)%nat eqn:E1; [|done]. apply Nat.leb_le in E1. cbn [andb].
    rewrite <- (take_drop (e + 1) d) at 2.
    rewrite !drop_app_le by (rewrite length_take; lia).
    by rewrite !take_app_le by (rewrite length_drop, length_take; lia). }
  rewrite (drop_app_length' (take (e + 1) d)) by (rewrite length_take; lia).
  inv_outcome. subst. cbn [obind].
  repeat (match goal with E : ?m = _ |- context [?m] => rewrite E end; cbn [obind ok_or guard_err]).
  done.
Qed.

Lemma reads_cons (p : bytes → result (Bencode * bytes)) q c d v r :
  reads p d v r → (∀ x, p x = Ok (v, r) ∨ True → q (c :: x) = p x) → reads q (c :: d) v r.
Proof.
  intros (k & -> & Hk) Hq. exists (c :: k). split; [done|]. intros y. cbn [app].
  rewrite Hq by by right. apply Hk.
Qed.

Lemma parsers_read n :
  (∀ d v r, decode_fuel n d = Ok (v, r) → reads decode d v r) ∧
  (∀ d a v r, parse_list_fuel n d a = Ok (v, r) → reads (λ d, parse_list d a) d v r) ∧
  (∀ d a v r, parse_dict_fuel n d a = Ok (v, r) → reads (λ d, parse_dict d a) d v r).
Proof.
  induction n as [|n (IHd & IHl & IHm)]; [by repeat split|].
  split; [|split]; intros [|c d]; cbn [decode_fuel parse_list_fuel parse_dict_fuel]; try done.
  - intros v r H.
    destruct (is_ascii_digit c) eqn:Hc.
    + destruct (parse_string_reads (c :: d) v r H) as (k & Ek & Hk). exists k. split; [done|].
      intros y. destruct k as [|c' k]; [exfalso; specialize (Hk []); done|]. injection Ek as -> _.
      cbn [app]. rewrite decode_cons, Hc. apply (Hk y).
    + destruct (c =? c_i) eqn:Hi.
      * destruct (parse_integer_reads (c :: d) v r H) as (k & Ek & Hk). exists k. split; [done|].
        intros y. destruct k as [|c' k]; [exfalso; specialize (Hk []); done|]. injection Ek as -> _.
        cbn [app]. rewrite decode_cons, Hc, Hi. apply (Hk y).
      * destruct (c =? c_l) eqn:Hl; [|destruct (c =? c_d) eqn:Hd; [|done]].
        -- eapply reads_cons; [by apply IHl|]. intros x _. by rewrite decode_cons, Hc, Hi, Hl.
        -- eapply reads_cons; [by apply IHm|]. intros x _. by rewrite decode_cons, Hc, Hi, Hl, Hd.
  - intros a v r. case_match eqn:Hc.
    { intros [= <- <-]. exists [c]. split; [done|]. intros y. rewrite parse_list_eq. cbn [app].
      by rewrite Hc. }
    intros Hr. inv_outcome. destruct (IHd _ _ _ E) as (k & Ek & Hk).
    destruct (IHl _ _ _ _ Hr) as (k' & -> & Hk'). exists (k ++ k'). split; [by rewrite <- app_assoc|].
    intros y. destruct k as [|c' k]; [by specialize (Hk [])|].
    injection Ek as -> _. rewrite parse_list_eq. cbn [app]. rewrite Hc, <- app_assoc.
    change (c' :: k ++ k' ++ y) with ((c' :: k) ++ k' ++ y). rewrite Hk. cbn [obind]. apply Hk'.
  - intros a v r. case_match eqn:Hc.
    { intros [= <- <-]. exists [c]. split; [done|]. intros y. rewrite parse_dict_eq. cbn [app].
      by rewrite Hc. }
    intros Hr. inv_outcome. destruct (IHd _ _ _ E) as (k & Ek & Hk).
    case_match; try done. case_match; [done|]. inv_outcome. subst.
    destruct (IHd _ _ _ E0) as (k' & Ek' & Hk').
    destruct (IHm _ _ _ _ Hr) as (k'' & -> & Hk''). exists (k ++ k' ++ k'').
    split; [by rewrite <- !app_assoc, <- Ek'|].
    intros y. destruct k as [|c' k]; [by specialize (Hk [])|].
    injection Ek as -> _. rewrite parse_dict_eq. cbn [app]. rewrite Hc, <- !app_assoc.
    change (c' :: k ++ k' ++ k'' ++ y) with ((c' :: k) ++ k' ++ k'' ++ y). rewrite Hk. cbn [obind].
    destruct k' as [|c'' k']; [by specialize (Hk' [])|].
    cbn [app]. change (c'' :: k' ++ k'' ++ y) with ((c'' :: k') ++ k'' ++ y). rewrite Hk'.
    cbn [obind]. rewrite G. cbn [guard_err obind]. apply Hk''.
Qed.

Lemma decode_reads d v r : decode d = Ok (v, r) → reads decode d v r.
Proof. apply parsers_read. Qed.

(** * Decoded values are canonical *)

Lemma key_leb_total {A} (x y : bytes * A) : key_leb x y = true ∨ key_leb y x = true.
Proof. apply bytes_leb_total. Qed.

Lemma key_leb_trans {A} (x y z : bytes * A) :
  key_leb x y = true → key_leb y z = true → key_leb x z = true.
Proof. apply bytes_leb_trans. Qed.

Lemma sort_entries_perm {A} (l : list (bytes * A)) : sort_entries l ≡ₚ l.
Proof. apply stable_sort_perm. Qed.

Lemma sort_entries_sorted {A} (l : list (bytes * A)) :
  StronglySorted (λ x y, key_leb x y = true) (sort_entries l).
Proof. apply stable_sort_sorted; [apply key_leb_total|apply key_leb_trans]. Qed.

Lemma sort_entries_idemp {A} (l : list (bytes * A)) :
  sort_entries (sort_entries l) = sort_entries l.
Proof. apply stable_sort_id, sort_entries_sorted. Qed.

Lemma sort_entries_map {A B} (f : A → B) (l : list (bytes * A)) :
  sort_entries (map (λ '(k, v), (k, f v)) l) = map (λ '(k, v), (k, f v)) (sort_entries l).
Proof. apply stable_sort_map. by intros [] []. Qed.

Lemma normalize_dict entries :
  normalize (BDict entries) = BDict (map (λ '(k, v), (k, normalize v)) (sort_entries entries)).
Proof. cbn [normalize]. by rewrite sort_entries_map. Qed.

Lemma wf_dict_sorted entries :
  bencode_wf (BDict entries) → bencode_wf (BDict (sort_entries entries)).
Proof. inversion_clear 1. constructor; by rewrite sort_entries_perm. Qed.

Lemma canonical_dict entries :
  NoDup (map fst entries) → Forall (λ e, short e.1 ∧ canonical e.2) entries →
  canonical (BDict (sort_entries entries)).
Proof.
  intros Hnd Hf. split.
  - apply wf_dict_sorted. constructor; [done|].
    eapply Forall_impl; [exact Hf|]. intros [k v] (Hk & Hv & _). done.
  - rewrite normalize_dict, sort_entries_idemp. f_equal.
    assert (Forall (λ e, short e.1 ∧ canonical e.2) (sort_entries entries)) as Hs
      by (by rewrite sort_entries_perm).
    clear Hf Hnd. induction Hs as [|[k v] l (_ & _ & Hv) Hl IH]; [done|].
    cbn in *. by rewrite Hv, IH.
Qed.

Lemma canonical_list items : Forall canonical items → canonical (BList items).
Proof.
  intros Hf. split.
  - constructor. eapply Forall_impl; [exact Hf|]. by intros v [].
  - cbn [normalize]. f_equal. induction Hf as [|v l [_ Hv] Hl IH]; [done|]. cbn. by rewrite Hv, IH.
Qed.

Lemma parse_string_canonical d v r : short d → parse_string d = Ok (v, r) → canonical v.
Proof.
  unfold parse_string, short. intros Hd H. inv_outcome. subst.
  split; [|done]. constructor. unfold short, zlen in *. rewrite length_take, length_drop. lia.
Qed.

Lemma parse_integer_canonical d v r : parse_integer d = Ok (v, r) → canonical v.
Proof.
  unfold parse_integer. intros H. inv_outcome. subst.
  split; [|done]. constructor. by eapply parse_i64_range.
Qed.

Lemma has_key_spec {A} k (entries : list (bytes * A)) :
  has_key k entries = false ↔ k ∉ map fst entries.
Proof.
  induction entries as [|[k' v] l IH]; [cbn; split; [intros _; apply not_elem_of_nil|done]|].
  cbn. rewrite orb_false_iff, bool_decide_eq_false, not_elem_of_cons. cbn. fold (has_key k l).
  rewrite IH. split; intros [? ?]; split; auto.
Qed.

Lemma consumed_short d r : consumed d r → short d → short r.
Proof. intros H%consumed_length. unfold short, zlen. lia. Qed.

Lemma parsers_canonical n :
  (∀ d v r, short d → decode_fuel n d = Ok (v, r) → canonical v) ∧
  (∀ d a v r, short d → Forall canonical a → parse_list_fuel n d a = Ok (v, r) → canonical v) ∧
  (∀ d a v r, short d → NoDup (map fst a) → Forall (λ e, short e.1 ∧ canonical e.2) a →
     parse_dict_fuel n d a = Ok (v, r) → canonical v).
Proof.
  induction n as [|n (IHd & IHl & IHm)]; [by repeat split|].
  split; [|split]; intros [|c d]; cbn [decode_fuel parse_list_fuel parse_dict_fuel]; try done.
  - intros v r Hs H. pose proof (consumed_short _ _ (consumed_one c d) Hs).
    repeat case_match; try done;
      eauto using parse_string_canonical, parse_integer_canonical.
    apply (IHm d [] v r); try done; constructor.
  - intros a v r Hs Ha. case_match; [intros [= <- <-]; by apply canonical_list|].
    intros Hr. inv_outcome. eapply IHl; [| |done].
    + eauto using consumed_short, decode_fuel_consumes.
    + apply Forall_app. split; [done|]. repeat constructor; by eapply IHd.
  - intros a v r Hs Hn Ha. case_match; [intros [= <- <-]; by apply canonical_dict|].
    intros Hr. inv_outcome. case_match; try done. case_match; [done|]. inv_outcome. subst.
    pose proof E as Hk. apply IHd in Hk as [Hk _]; [|done]. inversion Hk; subst.
    pose proof (decode_fuel_consumes _ _ _ _ E). pose proof (decode_fuel_consumes _ _ _ _ E0).
    eapply IHm; [| | |done].
    + eauto using consumed_short.
    + rewrite map_app. apply NoDup_app. split; [done|]. split; [|apply NoDup_singleton].
      intros k Hk1 Hk2. apply list_elem_of_singleton in Hk2. cbn in Hk2. subst.
      by apply has_key_spec in Hk1.
    + apply Forall_app. split; [done|]. repeat constructor; [done|..]; eapply IHd in E0;
        try apply E0; eauto using consumed_short.
Qed.

Lemma decode_canonical d v r : short d → decode d = Ok (v, r) → canonical v.
Proof. apply parsers_canonical. Qed.

(** * Decoding inverts encoding *)

Lemma zlen_decimal {A} (l : list A) : zlen l ≤ i64_max → 0 ≤ zlen l < 10 ^ 20.
Proof. pose proof (zlen_nonneg l). lia. Qed.

Lemma parse_decimal_loop_spec s acc :
  forallb is_ascii_digit s = true → 0 ≤ acc →
  acc * 10 ^ Z.of_nat (length s) + digits_val s ≤ u64_max →
  parse_decimal_loop s acc = Ok (acc * 10 ^ Z.of_nat (length s) + digits_val s).
Proof.
  revert acc. induction s as [|b s IH]; intros acc Hs Hacc Hmax.
  - cbn. f_equal. unfold digits_val. cbn. lia.
  - cbn [forallb] in Hs. apply andb_true_iff in Hs as [Hb Hs].
    pose proof Hb as Hb'. apply is_ascii_digit_spec in Hb'.
    pose proof (digits_val_bound s Hs).
    rewrite digits_val_cons in *. cbn [length] in *.
    rewrite Nat2Z.inj_succ, Z.pow_succ_r in * by lia.
    cbn [parse_decimal_loop]. rewrite Hb. cbn [negb].
    rewrite (proj2 (Z.leb_le _ _)), (proj2 (Z.leb_le (_ + _) _)) by nia.
    rewrite IH by nia || done. f_equal. ring.
Qed.

(** Every encoding starts with a digit or a type marker, never with the end marker [e]. *)
Lemma encode_bytes_head b :
  short b → ∃ d t, encode_bytes b = d :: t ∧ is_ascii_digit d = true.
Proof.
  intros Hb. unfold encode_bytes.
  destruct (u64_to_string_spec (zlen b) (zlen_decimal b Hb)) as (d & ds & -> & Hd & _).
  cbn [forallb] in Hd. apply andb_true_iff in Hd as [Hd _].
  by exists d, (ds ++ [c_colon] ++ b).
Qed.

Lemma encode_head v : bencode_wf v → ∃ c t, encode v = c :: t ∧ (c =? c_e) = false.
Proof.
  destruct 1 as [b Hb|i Hi|l Hl|l Hn Hl].
  - destruct (encode_bytes_head b Hb) as (d & t & E & Hd). exists d, t. split; [done|].
    apply is_ascii_digit_spec in Hd. apply Z.eqb_neq. lia.
  - by exists c_i, (i64_to_string i ++ [c_e]).
  - by exists c_l, (concat (map encode l) ++ [c_e]).
  - rewrite encode_dict_eq. by eexists c_d, _.
Qed.

Lemma decode_encode_bytes b rest :
  short b → decode (encode_bytes b ++ rest) = Ok (BBytes b, rest).
Proof.
  intros Hb. destruct (encode_bytes_head b Hb) as (c & t & E & Hc).
  rewrite E. cbn [app]. rewrite decode_cons, Hc. rewrite app_comm_cons, <- E.
  unfold encode_bytes.
  destruct (u64_to_string_spec (zlen b) (zlen_decimal b Hb)) as (d & ds & Ed & Hd & Hv & Hl & H0).
  rewrite Ed. unfold short in Hb. pose proof (zlen_nonneg b).
  rewrite <- !app_assoc. cbn [app]. rewrite app_comm_cons.
  set (s := d :: ds) in *. unfold parse_string.
  rewrite position_first; [|apply List.Forall_forall; intros x Hx; apply Z.eqb_neq; intros <-|done].
  2: { by apply (forallb_digit_not_in c_colon s Hd); [|apply list_elem_of_In]. }
  cbn [ok_or obind]. rewrite take_app_length.
  change (parse_decimal_u64 s) with (parse_decimal_loop s 0).
  rewrite parse_decimal_loop_spec by (done || lia). rewrite Z.mul_0_l, Z.add_0_l, Hv.
  cbn [obind].
  replace ((1 <? length s)%nat && _) with false.
  2: { symmetry. apply andb_false_iff. destruct (decide (head s = Some c_0)) as [[= ->]|Hn].
       - left. destruct H0 as [-> _]; [done|]. done.
       - right. by apply bool_decide_eq_false. }
  cbn [guard_err obind]. unfold checked_add_panic.
  rewrite (proj2 (Z.leb_le _ _)) by lia. cbn [obind].
  rewrite (proj2 (Z.ltb_ge _ _)).
  2: { unfold zlen in *. rewrite length_app. cbn [length]. rewrite length_app. lia. }
  cbn [guard_err obind]. unfold zlen. rewrite Nat2Z.id.
  assert (drop (length s + 1) (s ++ c_colon :: b ++ rest) = b ++ rest) as Hdrop.
  { rewrite <- drop_drop, drop_app_length. done. }
  rewrite <- (drop_drop _ (length b)), Hdrop. by rewrite take_app_length, drop_app_length.
Qed.

Lemma decode_encode_integer i rest :
  in_i64 i → decode (encode_integer i ++ rest) = Ok (BInteger i, rest).
Proof.
  intros Hi. unfold encode_integer. cbn [app]. rewrite decode_cons. cbn [is_ascii_digit].
  change (is_ascii_digit c_i) with false. change (c_i =? c_i) with true. cbn match.
  rewrite <- app_assoc. cbn [app].
  assert (∃ sgn d ds, i64_to_string i = sgn ++ d :: ds ∧ (sgn = [] ∨ sgn = [c_minus]) ∧
            forallb is_ascii_digit (d :: ds) = true ∧ (d = c_0 → ds = [] ∧ sgn = []))
    as (sgn & d & ds & E & Hsgn & Hd & H0).
  { unfold i64_to_string, in_i64 in *. destruct (Z.ltb_spec i 0).
    - destruct (u64_to_string_spec (- i)) as (d & ds & -> & Hd & _ & _ & H0); [lia|].
      exists [c_minus], d, ds. split_and!; auto. intros Hd0. destruct (H0 Hd0). lia.
    - destruct (u64_to_string_spec i) as (d & ds & -> & Hd & _ & _ & H0); [lia|].
      exists [], d, ds. split_and!; auto. intros Hd0. by destruct (H0 Hd0). }
  assert (Forall (λ x, (c_e =? x) = false) (c_i :: i64_to_string i)) as Hne.
  { rewrite E. apply List.Forall_forall. intros x Hx. apply Z.eqb_neq. intros <-.
    destruct Hx as [Hx|Hx]; [done|]. apply in_app_or in Hx as [Hx|Hx].
    - destruct Hsgn as [->| ->]; cbn in Hx; intuition lia.
    - by apply (forallb_digit_not_in c_e _ Hd); [|apply list_elem_of_In]. }
  unfold parse_integer. rewrite app_comm_cons, position_first by done.
  cbn [ok_or obind]. set (s := i64_to_string i) in *.
  rewrite slice_ok; [|cbn; lia|rewrite length_app; cbn; lia].
  replace (take _ _) with s.
  2: { transitivity (take (length s) (s ++ c_e :: rest)); [by rewrite take_app_length|].
       cbn [length]. by rewrite Nat.sub_succ, Nat.sub_0_r. }
  assert (drop (length (c_i :: s) + 1) ((c_i :: s) ++ c_e :: rest) = rest) as ->.
  { rewrite <- drop_drop, drop_app_length. done. }
  assert (48 ≤ d ≤ 57) as Hdd.
  { cbn [forallb] in Hd. apply andb_true_iff in Hd as [Hd _]. by apply is_ascii_digit_spec in Hd. }
  assert (from_utf8 s = Some s) as Hu.
  { apply from_utf8_valid, utf8_valid_ascii. rewrite E. apply Forall_app. split.
    - destruct Hsgn as [->| ->]; repeat constructor; lia.
    - apply List.Forall_forall. intros x Hx. rewrite forallb_forall in Hd.
      apply Hd, is_ascii_digit_spec in Hx. lia. }
  assert (parse_i64 s = Some i) as Hp by (by apply parse_i64_to_string).
  cbn [obind]. rewrite Hu. rewrite E in Hp |- *.
  destruct Hsgn as [->| ->]; cbn [app head length] in Hp |- *.
  - rewrite (bool_decide_eq_false_2 (Some d = Some c_minus)) by (intros [=]; lia).
    cbn [guard_err obind andb Nat.leb Nat.sub lookup list_lookup].
    replace ((1 <? S (length ds))%nat && _) with false.
    2: { symmetry. apply andb_false_iff. destruct (decide (d = c_0)) as [->|Hn].
         - left. by destruct H0 as [-> _].
         - right. apply bool_decide_eq_false. congruence. }
    cbn [guard_err obind ok_or]. by rewrite Hp.
  - rewrite (bool_decide_eq_true_2 (Some c_minus = Some c_minus)) by done.
    assert (d ≠ c_0) by (intros ->; by destruct H0).
    cbn [guard_err obind andb Nat.leb Nat.sub lookup list_lookup].
    rewrite (bool_decide_eq_false_2 (Some d = Some c_0)) by (intros [=]; done).
    rewrite andb_false_r. cbn [guard_err obind andb ok_or]. by rewrite Hp.
Qed.

Definition round_trips (v : Bencode) : Prop :=
  bencode_wf v → ∀ rest, decode (encode v ++ rest) = Ok (normalize v, rest).

Lemma parse_list_encode l acc rest :
  Forall round_trips l → Forall bencode_wf l →
  parse_list (concat (map encode l) ++ c_e :: rest) acc =
    Ok (BList (acc ++ map normalize l), rest).
Proof.
  intros Hl. revert acc. induction Hl as [|v l Hv Hl IH]; intros acc Hwf.
  - cbn [map concat app]. rewrite parse_list_eq. cbn. by rewrite app_nil_r.
  - apply Forall_cons in Hwf as [Hwv Hwf]. cbn [map concat].
    destruct (encode_head v Hwv) as (c & t & E & Hc).
    rewrite <- app_assoc, E. rewrite parse_list_eq. cbn [app]. rewrite Hc.
    rewrite app_comm_cons, <- E. rewrite Hv by done. cbn [obind].
    rewrite IH by done. by rewrite <- app_assoc.
Qed.

Lemma parse_dict_encode l acc rest :
  Forall (λ e, round_trips e.2) l → Forall (λ e, short e.1 ∧ bencode_wf e.2) l →
  NoDup (map fst acc ++ map fst l) →
  parse_dict (concat (map (λ '(k, v), encode (BBytes k) ++ encode v) l) ++ c_e :: rest) acc =
    Ok (BDict (sort_entries (acc ++ map (λ '(k, v), (k, normalize v)) l)), rest).
Proof.
  intros Hl. revert acc. induction Hl as [|[k v] l Hv Hl IH]; intros acc Hwf Hnd.
  - cbn [map concat app]. rewrite parse_dict_eq. cbn. by rewrite app_nil_r.
  - apply Forall_cons in Hwf as [[Hk Hwv] Hwf]. cbn [map concat encode fst snd] in *.
    destruct (encode_bytes_head k Hk) as (d & t & E & Hd).
    rewrite <- !app_assoc, E. rewrite parse_dict_eq. cbn [app].
    replace (d =? c_e) with false
      by (symmetry; apply Z.eqb_neq; apply is_ascii_digit_spec in Hd; lia).
    rewrite app_comm_cons, <- E. rewrite decode_encode_bytes by done. cbn [obind].
    destruct (encode_head v Hwv) as (c & t' & E' & Hc).
    rewrite E'. cbn [app]. rewrite app_comm_cons, <- E'. rewrite Hv by done. cbn [obind].
    replace (has_key k acc) with false.
    2: { symmetry. apply has_key_spec. intros Hin. apply NoDup_app in Hnd as (_ & Hd' & _).
         eapply Hd'; [exact Hin|]. by left. }
    cbn [guard_err obind]. cbn [encode] in IH. rewrite IH; [by rewrite <- app_assoc|done|].
    rewrite map_app. cbn [map fst]. by rewrite <- app_assoc.
Qed.

Lemma encode_round_trips v : round_trips v.
Proof.
  induction v as [b|i|l IH|l IH] using bencode_ind'; intros Hwf rest; inversion_clear Hwf.
  - by apply decode_encode_bytes.
  - by apply decode_encode_integer.
  - cbn [encode app normalize]. rewrite <- app_assoc. cbn [app]. rewrite decode_cons.
    change (is_ascii_digit c_l) with false. change (c_l =? c_i) with false.
    change (c_l =? c_l) with true. cbn match. by apply parse_list_encode.
  - rewrite encode_dict_eq. unfold encode_dict. cbn [app]. rewrite <- app_assoc. cbn [app].
    rewrite decode_cons. change (is_ascii_digit c_d) with false.
    change (c_d =? c_i) with false. change (c_d =? c_l) with false.
    change (c_d =? c_d) with true. cbn match.
    rewrite parse_dict_encode.
    + cbn [app]. rewrite <- sort_entries_map, sort_entries_idemp. done.
    + by rewrite sort_entries_perm.
    + by rewrite sort_entries_perm.
    + cbn. by rewrite sort_entries_perm.
Qed.

Lemma decode_encode v rest : bencode_wf v → decode (encode v ++ rest) = Ok (normalize v, rest).
Proof. intros H. by apply encode_round_trips. Qed.

Lemma decode_encode_canonical v rest : canonical v → decode (encode v ++ rest) = Ok (v, rest).
Proof. intros [Hwf Hn]. rewrite decode_encode by done. by rewrite Hn. Qed.

(** * Lookup in dictionaries *)

Lemma dict_get_cons k v l key :
  dict_get (BDict ((k, v) :: l)) key = if bool_decide (k = key) then Some v else dict_get (BDict l) key.
Proof. cbn. by destruct (bool_decide _). Qed.

Lemma dict_get_In l key v :
  NoDup (map fst l) → dict_get (BDict l) key = Some v ↔ (key, v) ∈ l.
Proof.
  induction l as [|[k w] l IH]; intros Hnd.
  - cbn. split; [done|]. by intros ?%not_elem_of_nil.
  - cbn in Hnd. apply NoDup_cons in Hnd as [Hk Hnd].
    rewrite dict_get_cons, elem_of_cons. case_bool_decide as Hd.
    + subst. split; [intros [= ->]; by left|]. intros [[= <-]|Hin]; [done|].
      destruct Hk. by apply (list_elem_of_fmap_2 fst) in Hin.
    + rewrite IH by done. split; [by right|]. intros [[= ??]|?]; [congruence|done].
Qed.

Lemma dict_get_perm l l' key :
  NoDup (map fst l) → l ≡ₚ l' → dict_get (BDict l) key = dict_get (BDict l') key.
Proof.
  intros Hnd Hp. assert (NoDup (map fst l')) as Hnd' by (by rewrite <- Hp).
  destruct (dict_get (BDict l') key) as [v|] eqn:E.
  - apply dict_get_In; [done|]. rewrite Hp. by apply dict_get_In.
  - destruct (dict_get (BDict l) key) as [v|] eqn:E'; [|done].
    apply dict_get_In in E'; [|done]. rewrite Hp in E'.
    apply dict_get_In in E'; [|done]. congruence.
Qed.

Lemma dict_get_map (f : Bencode → Bencode) l key :
  dict_get (BDict (map (λ '(k, v), (k, f v)) l)) key = f <$> dict_get (BDict l) key.
Proof.
  induction l as [|[k v] l IH]; [done|]. cbn [map]. rewrite !dict_get_cons.
  by case_bool_decide.
Qed.

(** Looking a key up before or after the trip through the wire gives the same value. *)
Lemma dict_get_wf v k w : bencode_wf v → dict_get v k = Some w → bencode_wf w.
Proof.
  intros Hwf H. destruct v as [| | |l]; try done. inversion Hwf as [| | |? Hnd HF]; subst.
  apply dict_get_In in H; [|done]. rewrite Forall_forall in HF. by apply (HF (k, w)).
Qed.

Lemma dict_get_normalize v key :
  bencode_wf v → dict_get (normalize v) key = normalize <$> dict_get v key.
Proof.
  intros Hwf. destruct v as [b|i|l|l]; [done..|]. inversion_clear Hwf as [| | |? Hnd Hf].
  rewrite normalize_dict, dict_get_map. f_equal. symmetry. apply dict_get_perm; [done|].
  by rewrite sort_entries_perm.
Qed.

Lemma dict_get_int_normalize v key :
  bencode_wf v → dict_get_int (normalize v) key = dict_get_int v key.
Proof.
  intros Hwf. unfold dict_get_int. rewrite dict_get_normalize by done.
  by destruct (dict_get v key) as [[]|].
Qed.

Lemma dict_get_bytes_normalize v key :
  bencode_wf v → dict_get_bytes (normalize v) key = dict_get_bytes v key.
Proof.
  intros Hwf. unfold dict_get_bytes. rewrite dict_get_normalize by done.
  by destruct (dict_get v key) as [[]|].
Qed.

(** * Panics

    The one arithmetic panic of the decoder is [start + len] in [parse_string]. *)

(** Digits of a length that fits a [u64] while the end offset computed from it does not. *)
Definition overflowing_length (ds : bytes) : Prop :=
  ds ≠ [] ∧ forallb is_ascii_digit ds = true ∧ head ds ≠ Some c_0 ∧
  digits_val ds ≤ u64_max < digits_val ds + zlen ds + 1.

Lemma parse_decimal_loop_inv s acc n :
  0 ≤ acc → parse_decimal_loop s acc = Ok n →
  forallb is_ascii_digit s = true ∧ n = acc * 10 ^ Z.of_nat (length s) + digits_val s ∧
  0 ≤ n.
Proof.
  revert acc. induction s as [|b s IH]; intros acc Hacc.
  - cbn. intros [= <-]. unfold digits_val. cbn. split_and!; [done|lia|lia].
  - cbn [parse_decimal_loop]. destruct (is_ascii_digit b) eqn:Hb; [|done]. cbn [negb].
    pose proof Hb as Hb'. apply is_ascii_digit_spec in Hb'.
    case_match; [|done]. case_match; [|done]. intros Hl. apply IH in Hl as (Hs & -> & Hn); [|lia].
    cbn [forallb length]. rewrite Hb, Hs, digits_val_cons, Nat2Z.inj_succ, Z.pow_succ_r by lia.
    split_and!; [done|ring|lia].
Qed.

Lemma position_split {A} p (l : list A) i :
  position p l = Some i →
  ∃ x, l = take i l ++ x :: drop (i + 1) l ∧ p x = true ∧ length (take i l) = i.
Proof.
  revert i. induction l as [|y l IH]; intros i; [done|]. cbn [position].
  destruct (p y) eqn:Hp; [intros [= <-]; exists y; split_and!; [cbn; by rewrite drop_0|done..]|].
  destruct (position p l) as [j|]; [|done]. intros [= <-].
  destruct (IH j eq_refl) as (x & Hx & Hpx & Hl). exists x. cbn. split_and!; [by f_equal|done|].
  by f_equal.
Qed.

Lemma parse_string_panic d :
  parse_string d = Panic → ∃ ds t, d = ds ++ c_colon :: t ∧ overflowing_length ds.
Proof.
  unfold parse_string. destruct (position _ d) as [i|] eqn:Hp; [|done]. cbn [ok_or obind].
  apply position_split in Hp as (x & Hd & Hx & Hi). apply Z.eqb_eq in Hx as <-.
  set (ds := take i d) in *.
  destruct (parse_decimal_u64 ds) as [n| | |] eqn:E; try done; cbn [obind].
  2: { exfalso. assert (∀ s a, parse_decimal_loop s a ≠ Panic) as Hl.
       { induction s as [|b s IH]; intros a; [done|]. cbn. repeat case_match; done. }
       destruct ds; [done|]. by apply Hl in E. }
  destruct ((1 <? length ds)%nat && _) eqn:G; [done|]. cbn [guard_err obind].
  unfold checked_add_panic. destruct (Z.leb_spec (Z.of_nat (i + 1) + n) u64_max); cbn [obind].
  { destruct (zlen d <? _); done. }
  intros _. exists ds, (drop (i + 1) d). split; [done|].
  destruct ds as [|b ds'] eqn:Eds; [done|].
  cbn [parse_decimal_u64] in E. unfold parse_decimal_u64 in E.
  pose proof E as E'. apply parse_decimal_loop_inv in E' as (Hdig & Hn & Hn0); [|lia].
  rewrite Z.mul_0_l, Z.add_0_l in Hn. subst n.
  assert (digits_val (b :: ds') ≤ u64_max) as Hmax.
  { assert (∀ s a m, a ≤ u64_max → parse_decimal_loop s a = Ok m → m ≤ u64_max) as Hl.
    { induction s as [|c s IH]; intros a m Ha; [by intros [= <-]|]. cbn [parse_decimal_loop].
      repeat case_match; try done. apply IH. by apply Z.leb_le. }
    eapply Hl; [|exact E]. lia. }
  split_and!; [done|done| |lia|unfold zlen; lia].
  intros [= ->]. destruct ds' as [|c ds''].
  - cbn in Hi. subst i. unfold digits_val in *. cbn in *. lia.
  - cbn [length Nat.ltb Nat.leb] in G. by rewrite bool_decide_eq_true_2 in G.
Qed.

Lemma obind_panic {A B} (m : result A) (f : A → result B) :
  obind m f = Panic → m = Panic ∨ ∃ x, m = Ok x ∧ f x = Panic.
Proof. destruct m; cbn; intros; eauto; done. Qed.

Lemma parse_integer_no_panic d : parse_integer (c_i :: d) ≠ Panic.
Proof.
  unfold parse_integer. cbn [position]. change (c_e =? c_i) with false. cbn match.
  destruct (position _ d) as [i|] eqn:Hp; [|done]. cbn [option_map ok_or obind].
  apply position_lt in Hp. rewrite slice_ok by (cbn; lia). cbn [obind].
  intros H. repeat (apply obind_panic in H as [H|(? & ? & H)];
    [unfold guard_err, ok_or in H; by case_match|]). done.
Qed.

Definition panics_at (d : bytes) : Prop :=
  ∃ p ds t, d = p ++ ds ++ c_colon :: t ∧ overflowing_length ds.

Lemma panics_at_app p d : panics_at d → panics_at (p ++ d).
Proof. intros (q & ds & t & -> & H). exists (p ++ q), ds, t. by rewrite app_assoc. Qed.

Lemma panics_at_consumed d r : consumed d r → panics_at r → panics_at d.
Proof. intros (c & _ & ->). apply panics_at_app. Qed.

Lemma parsers_panic n :
  (∀ d, decode_fuel n d = Panic → panics_at d) ∧
  (∀ d a, parse_list_fuel n d a = Panic → panics_at d) ∧
  (∀ d a, parse_dict_fuel n d a = Panic → panics_at d).
Proof.
  induction n as [|n (IHd & IHl & IHm)]; [by repeat split|].
  split; [|split]; intros [|c d]; cbn [decode_fuel parse_list_fuel parse_dict_fuel]; try done.
  - destruct (is_ascii_digit c) eqn:Hc.
    { intros (ds & t & E & H)%parse_string_panic. by exists [], ds, t. }
    destruct (Z.eqb_spec c c_i) as [->|_]; [by intros ?%parse_integer_no_panic|].
    repeat case_match; try done; intros Hp; apply (panics_at_app [c]); eauto.
  - intros a. case_match; [done|]. intros [Hp|([item rem] & E & Hp)]%obind_panic; [auto|].
    eapply panics_at_consumed; [|eauto]. by eapply decode_fuel_consumes.
  - intros a. case_match; [done|]. intros [Hp|([key rem] & E & Hp)]%obind_panic; [auto|].
    apply decode_fuel_consumes in E. case_match; try done. case_match; [done|].
    eapply panics_at_consumed; [exact E|]. subst.
    apply obind_panic in Hp as [Hp|([val rem'] & E' & Hp)]; [auto|].
    apply decode_fuel_consumes in E'.
    apply obind_panic in Hp as [Hp|(? & _ & Hp)]; [unfold guard_err in Hp; by case_match|].
    eapply panics_at_consumed; eauto.
Qed.

Lemma decode_overflowing ds t : overflowing_length ds → decode (ds ++ c_colon :: t) = Panic.
Proof.
  intros (Hne & Hdig & Hhd & Hmax & Hov). destruct ds as [|b ds']; [done|].
  cbn [app]. rewrite decode_cons.
  assert (is_ascii_digit b = true) as ->.
  { cbn [forallb] in Hdig. by apply andb_true_iff in Hdig as [? _]. }
  rewrite app_comm_cons. set (ds := b :: ds') in *. unfold parse_string.
  rewrite position_first; [|apply List.Forall_forall; intros x Hx; apply Z.eqb_neq; intros <-|done].
  2: { by apply (forallb_digit_not_in c_colon ds Hdig); [|apply list_elem_of_In]. }
  cbn [ok_or obind]. rewrite take_app_length.
  change (parse_decimal_u64 ds) with (parse_decimal_loop ds 0).
  rewrite parse_decimal_loop_spec by (done || lia). rewrite Z.mul_0_l, Z.add_0_l. cbn [obind].
  rewrite bool_decide_eq_false_2 by done. rewrite andb_false_r. cbn [guard_err obind].
  unfold checked_add_panic. rewrite (proj2 (Z.leb_gt _ _)); [done|]. unfold zlen in *. lia.
Qed.
