(* ===== verification/BencodeSpec.v ===== *)
(** What the bencode codec promises to the rest of the program, and where its decoder departs from
    its documentation. *)

From stdpp Require Import base numbers list strings sorting.
From Stdlib Require Import ZArith Lia.
From S2P Require Import Prelude Facts Error Bencode BencodeFacts.

(** A sample torrent-like dictionary with its keys out of order, used by the witnesses. *)
Definition sample_value : Bencode :=
  BDict [(bs "spam", BList [BBytes (bs "a"); BInteger (-7)]);
         (bs "cow", BDict [(bs "z", BInteger 0); (bs "moo", BBytes [])])].

Lemma sample_value_wf : bencode_wf sample_value.
Proof.
  unfold sample_value, short.
  repeat first
    [ apply wf_bytes | apply wf_integer | apply wf_list | apply wf_dict | apply Forall_nil_2
    | apply Forall_cons_2 | apply NoDup_nil_2 | apply NoDup_cons_2 | split
    | (apply (bool_decide_unpack _); vm_compute; exact I) ].
Qed.

(** C26: decoding what [encode] wrote returns the value with its dictionaries sorted and leaves
    exactly the bytes that follow it; in particular [encode] output is always accepted. *)
Theorem bencode_roundtrip : ∀ v rest,
  bencode_wf v → decode (encode v ++ rest) = Ok (normalize v, rest).
Proof. intros v rest H. by apply encode_round_trips. Qed.

Lemma bencode_roundtrip_witness :
  bencode_wf sample_value ∧
  decode (encode sample_value ++ bs "tail") = Ok (normalize sample_value, bs "tail").
Proof. split; [apply sample_value_wf|]. apply bencode_roundtrip, sample_value_wf. Defined.

(** C27: a successful decode consumes a non-empty prefix of its input, depends on nothing after it,
    and returns a canonical value (integers in range, keys sorted and unique), so that encoding the
    value and decoding it again gives it back: [encode] after [decode] is idempotent. *)
Theorem bencode_decode_sound : ∀ d v r,
  short d → decode d = Ok (v, r) →
  consumed d r ∧ (∀ x, decode (d ++ x) = Ok (v, r ++ x)) ∧ canonical v ∧
  decode (encode v) = Ok (v, []).
Proof.
  intros d v r Hs H. pose proof (decode_canonical d v r Hs H) as Hc. split_and!; [|intros x| |].
  - by eapply decode_consumes.
  - by apply decode_app.
  - done.
  - rewrite <- (app_nil_r (encode v)). by apply decode_encode_canonical.
Qed.

Lemma bencode_decode_sound_witness :
  let d := bs "d3:fooi42e3:bar4:spamexyz" in
  let v := BDict [(bs "bar", BBytes (bs "spam")); (bs "foo", BInteger 42)] in
  decode d = Ok (v, bs "xyz") ∧ consumed d (bs "xyz") ∧
  (∀ x, decode (d ++ x) = Ok (v, bs "xyz" ++ x)) ∧ canonical v ∧ decode (encode v) = Ok (v, []).
Proof.
  intros d v. assert (decode d = Ok (v, bs "xyz")) as H by (vm_compute; reflexivity).
  split; [exact H|]. apply bencode_decode_sound; [|exact H].
  unfold short. vm_compute. discriminate.
Defined.

(** C28: the recursive descent terminates on every input (its fuel is enough), and it panics exactly
    where a byte-string length fits a [u64] but the end offset computed from it overflows [usize]:
    any panic comes from such a length prefix, and every such prefix panics. *)
Theorem bencode_decode_total :
  (∀ d, decode d ≠ NoFuel) ∧
  (∀ d, decode d = Panic → panics_at d) ∧
  (∀ ds t, overflowing_length ds → decode (ds ++ c_colon :: t) = Panic).
Proof.
  split_and!; [intros d; by apply parsers_fuel_enough|intros d; apply (proj1 (parsers_panic _))|].
  apply decode_overflowing.
Qed.

(** An integer with an explicit plus sign is accepted and decodes to its value, although the
    encoder never writes one: the decoder's grammar is larger than bencode. *)
Theorem decode_accepts_plus_sign : ∀ i rest,
  0 ≤ i ≤ i64_max →
  decode (c_i :: c_plus :: i64_to_string i ++ c_e :: rest) = Ok (BInteger i, rest) ∧
  encode (BInteger i) ≠ c_i :: c_plus :: i64_to_string i ++ [c_e].
Proof.
  intros i rest Hi. unfold i64_to_string. rewrite (proj2 (Z.ltb_ge _ _)) by lia.
  destruct (u64_to_string_spec i) as (d & ds & E & Hd & Hv & _); [lia|].
  assert (48 ≤ d ≤ 57) as Hdd.
  { cbn [forallb] in Hd. apply andb_true_iff in Hd as [Hd' _]. by apply is_ascii_digit_spec in Hd'. }
  split.
  2: { cbn [encode]. unfold encode_integer, i64_to_string. rewrite (proj2 (Z.ltb_ge _ _)) by lia.
       rewrite E. cbn. intros [=]. lia. }
  rewrite E. set (s := d :: ds) in *.
  assert (Forall (λ x, (c_e =? x) = false) (c_i :: c_plus :: s)) as Hne.
  { do 2 (constructor; [done|]). apply List.Forall_forall. intros x Hx. apply Z.eqb_neq. intros <-.
    by apply (forallb_digit_not_in c_e s Hd); [|apply list_elem_of_In]. }
  rewrite decode_cons. change (is_ascii_digit c_i) with false. change (c_i =? c_i) with true.
  cbn match. unfold parse_integer. rewrite !app_comm_cons, position_first by done.
  cbn [ok_or obind]. rewrite slice_ok; [|cbn; lia|rewrite length_app; cbn; lia].
  replace (take _ _) with (c_plus :: s).
  2: { transitivity (take (length (c_plus :: s)) ((c_plus :: s) ++ c_e :: rest));
         [by rewrite take_app_length|]. cbn [length]. by rewrite Nat.sub_succ, Nat.sub_0_r. }
  assert (drop (length (c_i :: c_plus :: s) + 1) ((c_i :: c_plus :: s) ++ c_e :: rest) = rest) as ->.
  { rewrite <- drop_drop, drop_app_length. done. }
  cbn [obind head].
  rewrite (bool_decide_eq_false_2 (c_plus :: s = [])) by discriminate.
  rewrite (bool_decide_eq_false_2 (Some c_plus = Some c_minus)) by discriminate.
  cbn [obind guard_err andb length Nat.leb Nat.sub lookup list_lookup].
  rewrite (bool_decide_eq_false_2 (Some c_plus = Some c_0)) by discriminate.
  rewrite andb_false_r. cbn [obind guard_err]. rewrite from_utf8_valid.
  2: { apply utf8_valid_ascii. constructor; [lia|]. apply List.Forall_forall. intros x Hx.
       rewrite forallb_forall in Hd. apply Hd, is_ascii_digit_spec in Hx. lia. }
  cbn [ok_or obind]. unfold parse_i64, signed_value. cbn [Z.eqb Pos.eqb].
  rewrite parse_digits_of_digits by done. rewrite Hv.
  by rewrite (proj2 (Z.leb_le _ _)), (proj2 (Z.leb_le _ _)) by lia.
Qed.

Lemma decode_accepts_plus_sign_witness :
  0 ≤ 5 ≤ i64_max ∧
  decode (c_i :: c_plus :: i64_to_string 5 ++ c_e :: bs "x") = Ok (BInteger 5, bs "x") ∧
  encode (BInteger 5) ≠ c_i :: c_plus :: i64_to_string 5 ++ [c_e].
Proof. split; [lia|]. apply (decode_accepts_plus_sign 5 (bs "x")). lia. Defined.

(** The syntax errors of the documentation, on one input each: a leading zero, a negative zero and
    an empty integer are [BencodeInvalidInteger], an early end is [BencodeUnexpectedEof], a wrong
    marker and a duplicate key are [BencodeInvalidSyntax], a number out of range is
    [BencodeIntegerOverflow]. The last two lines are the documented exceptions the code makes: text
    that is no number at all is reported as an overflow. *)
Example decode_errors :
  map (λ d, decode (bs d))
    ["i03e"; "i-0e"; "ie"; "03:abc"; ""; "5:spam"; "d1:a"; "x"; "d1:ai1e1:ai2ee";
     "i9223372036854775808e"; "ixe"; "i--5e"] =
  [Err BencodeInvalidInteger; Err BencodeInvalidInteger; Err BencodeInvalidInteger;
   Err BencodeInvalidInteger; Err BencodeUnexpectedEof; Err BencodeUnexpectedEof;
   Err BencodeUnexpectedEof; Err BencodeInvalidSyntax; Err BencodeInvalidSyntax;
   Err BencodeIntegerOverflow; Err BencodeIntegerOverflow; Err BencodeIntegerOverflow].
Proof. vm_compute. reflexivity. Qed.

(** Decoding a dictionary, then looking a key up, finds what the encoded dictionary had under
    that key, whatever the order of its entries: lookup commutes with the wire. *)
Theorem dict_get_through_wire : ∀ v rest key,
  bencode_wf v →
  ∃ w, decode (encode v ++ rest) = Ok (w, rest) ∧
    dict_get w key = normalize <$> dict_get v key ∧
    dict_get_int w key = dict_get_int v key ∧ dict_get_bytes w key = dict_get_bytes v key.
Proof.
  intros v rest key Hwf. exists (normalize v). split; [by apply encode_round_trips|].
  split_and!; [by apply dict_get_normalize|by apply dict_get_int_normalize|].
  by apply dict_get_bytes_normalize.
Qed.

Lemma dict_get_through_wire_witness :
  bencode_wf sample_value ∧
  ∃ w, decode (encode sample_value ++ []) = Ok (w, []) ∧
    dict_get w (bs "spam") = normalize <$> dict_get sample_value (bs "spam") ∧
    dict_get_int w (bs "spam") = dict_get_int sample_value (bs "spam") ∧
    dict_get_bytes w (bs "spam") = dict_get_bytes sample_value (bs "spam").
Proof. split; [apply sample_value_wf|]. apply dict_get_through_wire, sample_value_wf. Defined.

(** [decode_str] inverts [encode_str] on text, and refuses everything that is not a byte string. *)
Lemma decode_encode_str s :
  short s → utf8_valid s = true → decode_str (encode_str s) = Ok s.
Proof.
  intros Hs Hu. unfold decode_str, encode_str. cbn [encode].
  rewrite <- (app_nil_r (encode_bytes s)), decode_encode_bytes by done. cbn [obind].
  by rewrite from_utf8_valid.
Qed.
