(* ===== verification/Net.v ===== *)
(** Socket addresses of [std::net], as far as the program uses them: an address is an [IpAddr]
    with its octets in network order, and a port. *)

From stdpp Require Import base numbers list countable.
From Stdlib Require Import ZArith Lia.
From S2P Require Import Prelude Facts.

Inductive IpAddr : Type :=
| V4 (octets : bytes)
| V6 (octets : bytes).

Record SocketAddr : Type := mk_addr { ip : IpAddr; port : Z }.

#[global] Instance IpAddr_eq_dec : EqDecision IpAddr.
Proof. solve_decision. Defined.

#[global] Instance SocketAddr_eq_dec : EqDecision SocketAddr.
Proof. solve_decision. Defined.

#[global] Instance IpAddr_countable : Countable IpAddr.
Proof.
  apply (inj_countable' (λ a, match a with V4 o => (true, o) | V6 o => (false, o) end)
           (λ p : bool * bytes, if p.1 then V4 p.2 else V6 p.2)).
  by intros [].
Defined.

#[global] Instance SocketAddr_countable : Countable SocketAddr.
Proof.
  apply (inj_countable' (λ a, (ip a, port a)) (λ p, mk_addr p.1 p.2)).
  by intros [].
Defined.

Definition octets (a : IpAddr) : bytes :=
  match a with V4 o => o | V6 o => o end.

Definition is_v4 (a : SocketAddr) : bool :=
  match ip a with V4 _ => true | V6 _ => false end.

Definition is_v6 (a : SocketAddr) : bool := negb (is_v4 a).

(** What the Rust types guarantee: four or sixteen octets, and a 16-bit port. *)
Definition ip_ok (a : IpAddr) : Prop :=
  bytes_ok (octets a) ∧ length (octets a) = match a with V4 _ => 4%nat | V6 _ => 16%nat end.

Definition addr_ok (a : SocketAddr) : Prop := ip_ok (ip a) ∧ in_u16 (port a).

#[global] Instance addr_ok_dec a : Decision (addr_ok a) := _.

(** The size of the octets of an address family. *)
Definition octet_count (v6 : bool) : nat := if v6 then 16%nat else 4%nat.

Definition mk_ip (v6 : bool) (o : bytes) : IpAddr := if v6 then V6 o else V4 o.

Lemma ip_ok_v4 o : ip_ok (V4 o) ↔ bytes_ok o ∧ length o = 4%nat.
Proof. done. Qed.

Lemma ip_ok_v6 o : ip_ok (V6 o) ↔ bytes_ok o ∧ length o = 16%nat.
Proof. done. Qed.
