(* ===== verification/Handshake.v ===== *)
(** The 68-byte BitTorrent handshake: [crates/torrent-core/src/peer/handshake.rs]. *)

From stdpp Require Import base numbers list strings.
From Stdlib Require Import ZArith Lia.
From S2P Require Import Prelude Facts Error.

Definition PROTOCOL_STR : bytes := bs "BitTorrent protocol".

Definition HANDSHAKE_SIZE : nat := 68.

(** [struct Handshake]: arrays of 20, 20 and 8 bytes. *)
Record Handshake : Type := mk_handshake {
  info_hash : bytes;
  peer_id : bytes;
  reserved : bytes;
}.

Definition handshake_ok (h : Handshake) : Prop :=
  length (info_hash h) = 20%nat ∧ length (peer_id h) = 20%nat ∧ length (reserved h) = 8%nat ∧
  bytes_ok (reserved h).

Definition new (ih pid : bytes) : Handshake :=
  {| info_hash := ih; peer_id := pid; reserved := replicate 8 0 |}.

(** [reserved[bit / 8] |= 1 << (7 - bit % 8)], guarded by [bit < 64]. *)
Definition set_extension (h : Handshake) (bit : nat) : Handshake :=
  if (bit <? 64)%nat then
    {| info_hash := info_hash h; peer_id := peer_id h; reserved := set_msb_bit (reserved h) bit |}
  else h.

Definition with_extensions (ih pid : bytes) (extensions : list nat) : Handshake :=
  fold_left set_extension extensions (new ih pid).

Definition to_bytes (h : Handshake) : bytes :=
  [19] ++ PROTOCOL_STR ++ reserved h ++ info_hash h ++ peer_id h.

Definition from_bytes (data : bytes) : result Handshake :=
  let! _ := guard_err (negb (length data =? HANDSHAKE_SIZE)%nat) PeerInvalidHandshake in
  let! b0 := index data 0 in
  let! _ := guard_err (negb (b0 =? 19)) PeerInvalidHandshake in
  let! pstr := slice data 1 20 in
  let! _ := guard_err (negb (bool_decide (pstr = PROTOCOL_STR))) PeerInvalidHandshake in
  let! reserved := slice data 20 28 in
  let! ih := slice data 28 48 in
  let! pid := slice data 48 68 in
  Ok {| info_hash := ih; peer_id := pid; reserved := reserved |}.

Definition has_extension (h : Handshake) (bit : nat) : result bool :=
  if (64 <=? bit)%nat then Ok false
  else
    let byte := (bit / 8)%nat in
    let bit_in_byte := (7 - bit mod 8)%nat in
    let! r := index (reserved h) byte in
    Ok (Z.land (Z.shiftr r (Z.of_nat bit_in_byte)) 1 =? 1).

(** The [debug_assert!] of a debug build panics; a release build leaves the handshake alone. *)
Definition set_reserved_byte (h : Handshake) (i : nat) (value : Z) : result Handshake :=
  if (i <? 8)%nat then
    Ok {| info_hash := info_hash h; peer_id := peer_id h; reserved := <[i:=value]> (reserved h) |}
  else Panic.

(** * The wire format is a bijection *)

Lemma length_PROTOCOL_STR : length PROTOCOL_STR = 19%nat.
Proof. done. Qed.

Lemma length_to_bytes h : handshake_ok h → length (to_bytes h) = HANDSHAKE_SIZE.
Proof. intros (? & ? & ? & _). unfold to_bytes, HANDSHAKE_SIZE. rewrite !length_app, length_PROTOCOL_STR. cbn [length]. lia. Qed.

Ltac solve_offsets := rewrite ?length_app, ?length_PROTOCOL_STR; cbn [length]; lia.

Lemma from_to_bytes h : handshake_ok h → from_bytes (to_bytes h) = Ok h.
Proof.
  intros Hok. pose proof (length_to_bytes h Hok) as Hlen. destruct Hok as (Hi & Hp & Hr & _).
  unfold from_bytes. rewrite Hlen. cbn [negb Nat.eqb HANDSHAKE_SIZE guard_err obind].
  unfold to_bytes at 1. cbn [index lookup list_lookup app obind Z.eqb Pos.eqb negb guard_err].
  unfold to_bytes. rewrite (slice_fields [19] PROTOCOL_STR _ 1 20) by done. cbn [obind].
  rewrite bool_decide_eq_true_2 by done. cbn [negb guard_err obind].
  rewrite (app_assoc [19]).
  rewrite (slice_fields (_ ++ _) (reserved h) _ 20 28) by solve_offsets.
  cbn [obind]. rewrite (app_assoc (_ ++ _)).
  rewrite (slice_fields (_ ++ _) (info_hash h) _ 28 48) by solve_offsets.
  cbn [obind]. rewrite (app_assoc (_ ++ _)). rewrite <- (app_nil_r (peer_id h)) at 1.
  rewrite (slice_fields (_ ++ _) (peer_id h) _ 48 68) by solve_offsets.
  cbn [obind]. by destruct h.
Qed.

Lemma to_from_bytes d h : from_bytes d = Ok h → to_bytes h = d ∧ length d = HANDSHAKE_SIZE.
Proof.
  unfold from_bytes. intros H. inv_outcome. subst.
  apply negb_false_iff, Nat.eqb_eq in G. apply negb_false_iff, Z.eqb_eq in G0. subst.
  apply negb_false_iff, bool_decide_eq_true in G1. split; [|done].
  apply slice_inv in E0 as [E0 _], E1 as [E1 _], E2 as [E2 _], E3 as [E3 _].
  unfold to_bytes. cbn [reserved info_hash peer_id]. rewrite <- G1, E0, E1, E2, E3.
  rewrite (take_drop_join d 28 48 68), (take_drop_join d 20 28 68), (take_drop_join d 1 20 68) by lia.
  unfold HANDSHAKE_SIZE in G. destruct d as [|b d]; [done|].
  unfold index in E. cbn in E. injection E as ->.
  transitivity (19 :: take 67 d); [done|]. by rewrite take_ge by (cbn in G; lia).
Qed.

(** Parsing never panics. *)
Lemma from_bytes_outcome d : (∃ h, from_bytes d = Ok h) ∨ from_bytes d = Err PeerInvalidHandshake.
Proof.
  unfold from_bytes, guard_err.
  destruct (Nat.eqb_spec (length d) HANDSHAKE_SIZE) as [Hl|Hl]; [|by right].
  cbn [negb obind]. unfold HANDSHAKE_SIZE in Hl.
  destruct (index_lt (E:=ErrorKind) d 0) as (b & _ & ->); [lia|]. cbn [obind].
  destruct (b =? 19); [|by right]. cbn [negb obind].
  rewrite !slice_ok by lia. cbn [obind]. case_bool_decide; [|by right]. left. by eexists.
Qed.

(** * Extension bits *)

Lemma has_extension_spec h bit :
  handshake_ok h → has_extension h bit = Ok ((bit <? 64)%nat && msb_bit (reserved h) bit).
Proof.
  intros (_ & _ & Hr & _). unfold has_extension.
  destruct (Nat.leb_spec 64 bit); [by rewrite (proj2 (Nat.ltb_ge _ _))|].
  rewrite (proj2 (Nat.ltb_lt _ _)) by done.
  destruct (lookup_lt_is_Some_2 (reserved h) (bit / 8)) as [b Hb].
  { rewrite Hr. apply Nat.Div0.div_lt_upper_bound. lia. }
  rewrite (index_ok _ _ _ Hb). cbn [obind andb]. unfold msb_bit. rewrite Hb.
  by rewrite land_shiftr_1 by lia.
Qed.

Lemma set_extension_ok h bit : handshake_ok h → handshake_ok (set_extension h bit).
Proof.
  intros (Hi & Hp & Hr & Hb). unfold set_extension. destruct (_ <? _)%nat; [|done].
  split_and!; cbn [reserved info_hash peer_id]; [done|done| |by apply set_msb_bit_ok].
  by rewrite length_set_msb_bit.
Qed.

Lemma new_ok ih pid : length ih = 20%nat → length pid = 20%nat → handshake_ok (new ih pid).
Proof. intros. split_and!; [done..|]. apply (bool_decide_unpack _). vm_compute. exact I. Qed.

Lemma set_extensions_spec exts h bit :
  handshake_ok h → (bit < 64)%nat →
  handshake_ok (fold_left set_extension exts h) ∧
  msb_bit (reserved (fold_left set_extension exts h)) bit =
    bool_decide (bit ∈ exts) || msb_bit (reserved h) bit.
Proof.
  revert h. induction exts as [|e exts IH]; intros h Hok Hbit; [done|]. cbn [fold_left].
  destruct (IH (set_extension h e)) as [Hok' ->]; [by apply set_extension_ok|done|].
  split; [done|]. unfold set_extension. destruct (Nat.ltb_spec e 64) as [He|He]; cbn [reserved].
  - destruct Hok as (_ & _ & Hr & _).
    rewrite msb_bit_set by (rewrite Hr; apply Nat.Div0.div_lt_upper_bound; lia).
    rewrite (bool_decide_ext (bit ∈ e :: exts) (bit ∈ exts ∨ e = bit))
      by (rewrite elem_of_cons; split; intros [?|?]; subst; auto).
    rewrite bool_decide_or. by rewrite orb_assoc.
  - f_equal. apply bool_decide_ext. rewrite elem_of_cons. split; [by right|].
    intros [->|?]; [lia|done].
Qed.

(** * Properties *)

Definition sample_handshake : Handshake :=
  with_extensions (replicate 20 1) (replicate 20 2) [44; 63; 99]%nat.

(** [to_bytes] and [from_bytes] are inverse to each other: every handshake serializes to 68
    bytes that parse back to it, and every byte string that parses is the serialization of what it
    parsed to; every other input is an error, never a panic. *)
Theorem handshake_codec :
  (∀ h, handshake_ok h → length (to_bytes h) = HANDSHAKE_SIZE ∧ from_bytes (to_bytes h) = Ok h) ∧
  (∀ d h, from_bytes d = Ok h → d = to_bytes h) ∧
  (∀ d, (∃ h, from_bytes d = Ok h) ∨ from_bytes d = Err PeerInvalidHandshake).
Proof.
  split_and!.
  - intros h Hok. split; [by apply length_to_bytes|by apply from_to_bytes].
  - intros d h H. symmetry. by apply to_from_bytes.
  - apply from_bytes_outcome.
Qed.

(** A handshake built with a list of extension bits announces exactly those bits of the list
    that fit the 64 reserved bits, and no query of an extension bit panics. *)
Theorem handshake_extensions : ∀ ih pid exts bit,
  length ih = 20%nat → length pid = 20%nat →
  has_extension (with_extensions ih pid exts) bit =
    Ok (bool_decide ((bit < 64)%nat ∧ bit ∈ exts)).
Proof.
  intros ih pid exts bit Hi Hp. unfold with_extensions.
  pose proof (new_ok ih pid Hi Hp) as Hn.
  destruct (set_extensions_spec exts (new ih pid) 0 Hn) as [Hok _]; [lia|].
  rewrite has_extension_spec by done. f_equal.
  destruct (Nat.ltb_spec bit 64) as [Hb|Hb]; cbn [andb].
  - destruct (set_extensions_spec exts (new ih pid) bit Hn Hb) as [_ ->].
    change (reserved (new ih pid)) with (replicate 8 0).
    rewrite msb_bit_zero, orb_false_r. apply bool_decide_ext. tauto.
  - symmetry. apply bool_decide_eq_false. lia.
Qed.

Lemma handshake_extensions_witness :
  has_extension sample_handshake 63 = Ok (bool_decide ((63 < 64)%nat ∧ 63%nat ∈ [44; 63; 99]%nat)) ∧
  bool_decide ((63 < 64)%nat ∧ 63%nat ∈ [44; 63; 99]%nat) = true.
Proof. split; [by apply handshake_extensions|by vm_compute]. Defined.
