(* ===== verification/PeerMessage.v ===== *)
(** The peer wire protocol: [crates/torrent-core/src/peer/message.rs].

    [PeerMessage] has the constructors of the source; [encode] and [decode] are its codec, and
    [compute_allowed_fast_set] derives the pieces of BEP 6 from a hash function. *)

From stdpp Require Import base numbers list gmap.
From Stdlib Require Import ZArith Lia.
From S2P Require Import Prelude Facts Error Net.

(** [enum PeerMessage]. *)
Inductive PeerMessage : Type :=
| KeepAlive
| Choke
| Unchoke
| Interested
| NotInterested
| Have (index : Z)
| Bitfield (bitfield : bytes)
| Request (index begin length : Z)
| Piece (index begin : Z) (data : bytes)
| Cancel (index begin length : Z)
| Port (port : Z)
| Extended (ext_id : Z) (data : bytes)
| Suggest (index : Z)
| HaveAll
| HaveNone
| Reject (index begin length : Z)
| AllowedFast (index : Z)
| Unknown (id : Z) (data : bytes).

#[global] Instance PeerMessage_eq_dec : EqDecision PeerMessage.
Proof. solve_decision. Defined.

(** [header + u32::try_from(data.len()).expect(..)]. *)
Definition prefixed_len (header : Z) (data : bytes) : result Z :=
  match try_unsigned u32_max (zlen data) with
  | Some n => checked_add_panic u32_max header n
  | None => Panic
  end.

Definition u32_be (v : Z) : bytes := be_bytes 4 v.

#[global] Arguments u32_be : simpl never.

Definition encode (msg : PeerMessage) : result bytes :=
  match msg with
  | KeepAlive => Ok [0; 0; 0; 0]
  | Choke => Ok [0; 0; 0; 1; 0]
  | Unchoke => Ok [0; 0; 0; 1; 1]
  | Interested => Ok [0; 0; 0; 1; 2]
  | NotInterested => Ok [0; 0; 0; 1; 3]
  | Have index => Ok ([0; 0; 0; 5; 4] ++ u32_be index)
  | Bitfield bitfield =>
      let! len := prefixed_len 1 bitfield in Ok (u32_be len ++ [5] ++ bitfield)
  | Request index begin length =>
      Ok ([0; 0; 0; 13; 6] ++ u32_be index ++ u32_be begin ++ u32_be length)
  | Cancel index begin length =>
      Ok ([0; 0; 0; 13; 8] ++ u32_be index ++ u32_be begin ++ u32_be length)
  | Piece index begin data =>
      let! len := prefixed_len 9 data in
      Ok (u32_be len ++ [7] ++ u32_be index ++ u32_be begin ++ data)
  | Port port => Ok ([0; 0; 0; 3; 9] ++ be_bytes 2 port)
  | Extended ext_id data =>
      let! len := prefixed_len 2 data in Ok (u32_be len ++ [20] ++ [ext_id] ++ data)
  | Suggest index => Ok ([0; 0; 0; 5; 13] ++ u32_be index)
  | HaveAll => Ok [0; 0; 0; 1; 14]
  | HaveNone => Ok [0; 0; 0; 1; 15]
  | Reject index begin length =>
      Ok ([0; 0; 0; 13; 16] ++ u32_be index ++ u32_be begin ++ u32_be length)
  | AllowedFast index => Ok ([0; 0; 0; 5; 17] ++ u32_be index)
  | Unknown id data =>
      let! len := prefixed_len 1 data in Ok (u32_be len ++ [id] ++ data)
  end.

(** The arms of [decode] that read one or three [u32] fields of a payload of fixed size. *)
Definition decode_empty (len : Z) (e : ErrorKind) (msg : PeerMessage) : result PeerMessage :=
  let! _ := guard_err (negb (len =? 1)) e in Ok msg.

Definition decode_index (len : Z) (payload : bytes) (e : ErrorKind) (mk : Z → PeerMessage)
    : result PeerMessage :=
  let! _ := guard_err (negb (len =? 5) || negb (length payload =? 4)%nat) e in
  let! index := get_be 4 0 payload in
  Ok (mk index).

Definition decode_block (len : Z) (payload : bytes) (e : ErrorKind) (mk : Z → Z → Z → PeerMessage)
    : result PeerMessage :=
  let! _ := guard_err (negb (len =? 13) || negb (length payload =? 12)%nat) e in
  let! index := get_be 4 0 payload in
  let! begin := get_be 4 4 payload in
  let! length := get_be 4 8 payload in
  Ok (mk index begin length).

Definition decode_payload (msg_id len : Z) (payload : bytes) : result PeerMessage :=
  match msg_id with
  | 0 => decode_empty len PeerInvalidMessage Choke
  | 1 => decode_empty len PeerInvalidMessage Unchoke
  | 2 => decode_empty len PeerInvalidMessage Interested
  | 3 => decode_empty len PeerInvalidMessage NotInterested
  | 4 => decode_index len payload PeerInvalidMessage Have
  | 5 => Ok (Bitfield payload)
  | 6 => decode_block len payload PeerInvalidMessage Request
  | 7 =>
      let! _ := guard_err (length payload <? 8)%nat PeerInvalidMessage in
      let! index := get_be 4 0 payload in
      let! begin := get_be 4 4 payload in
      Ok (Piece index begin (drop 8 payload))
  | 8 => decode_block len payload PeerInvalidMessage Cancel
  | 9 =>
      let! _ := guard_err (negb (len =? 3) || negb (length payload =? 2)%nat)
                  PeerInvalidMessage in
      let! port := get_be 2 0 payload in
      Ok (Port port)
  | 20 =>
      let! _ := guard_err (bool_decide (payload = [])) PeerInvalidExtendedMessage in
      let! ext_id := index payload 0 in
      Ok (Extended ext_id (drop 1 payload))
  | 13 => decode_index len payload PeerInvalidFastMessage Suggest
  | 14 => decode_empty len PeerInvalidFastMessage HaveAll
  | 15 => decode_empty len PeerInvalidFastMessage HaveNone
  | 16 => decode_block len payload PeerInvalidFastMessage Reject
  | 17 => decode_index len payload PeerInvalidFastMessage AllowedFast
  | _ => Ok (Unknown msg_id payload)
  end.

Definition decode (data : bytes) : result PeerMessage :=
  let! _ := guard_err (length data <? 4)%nat PeerInvalidMessage in
  let! len := get_be 4 0 data in
  if len =? 0 then Ok KeepAlive
  else
    let! _ := guard_err (length data <? 5)%nat PeerInvalidMessage in
    let! _ := guard_err (zlen data <? 4 + len) PeerInvalidMessage in
    let! payload := slice data 5 (4 + Z.to_nat len) in
    let! msg_id := index data 4 in
    decode_payload msg_id len payload.

(** * Allowed Fast set (BEP 6) *)

Section allowed_fast.
Context (sha1 : bytes → bytes).

(** The candidate of round [i]: the first four bytes of the hash, modulo the piece count. *)
Definition fast_candidate (info_hash ip_bytes : bytes) (num_pieces i : Z) : result Z :=
  let! v := get_be 4 0 (sha1 (info_hash ++ ip_bytes ++ be_bytes 4 i)) in
  Ok (v mod num_pieces).

(** The loop of [compute_allowed_fast_set]: [fuel] rounds are left before [max_iterations]; the
    counter is a [u32] and panics past its maximum. *)
Fixpoint allowed_fast_loop (fuel : nat) (info_hash ip_bytes : bytes) (num_pieces : Z) (k : nat)
    (i : Z) (seen : gset Z) (set : list Z) : result (list Z) :=
  if (k <=? length set)%nat then Ok set
  else
    match fuel with
    | O => Ok set
    | S f =>
        if u32_max <? i then Panic
        else
          let! piece_index := fast_candidate info_hash ip_bytes num_pieces i in
          if bool_decide (piece_index ∈ seen) then
            allowed_fast_loop f info_hash ip_bytes num_pieces k (i + 1) seen set
          else
            allowed_fast_loop f info_hash ip_bytes num_pieces k (i + 1)
              ({[piece_index]} ∪ seen) (set ++ [piece_index])
    end.

Definition compute_allowed_fast_set (info_hash : bytes) (addr : SocketAddr) (num_pieces : Z)
    (k : nat) : result (list Z) :=
  if (num_pieces =? 0) || (k =? 0)%nat then Ok []
  else
    allowed_fast_loop (Z.to_nat (num_pieces * 4)) info_hash (octets (ip addr)) num_pieces k 0 ∅ [].
End allowed_fast.

(** * What the types guarantee *)

Definition known_id (id : Z) : bool :=
  bool_decide (id ∈ [0; 1; 2; 3; 4; 5; 6; 7; 8; 9; 13; 14; 15; 16; 17; 20]).

Definition payload_fits (header : Z) (data : bytes) : Prop :=
  bytes_ok data ∧ header + zlen data ≤ u32_max.

(** A message of the Rust type whose payload is short enough for the length prefix; an [Unknown]
    message carries an identifier that no other constructor uses. *)
Definition message_ok (msg : PeerMessage) : Prop :=
  match msg with
  | KeepAlive | Choke | Unchoke | Interested | NotInterested | HaveAll | HaveNone => True
  | Have i | Suggest i | AllowedFast i => in_u32 i
  | Bitfield b => payload_fits 1 b
  | Request i b l | Cancel i b l | Reject i b l => in_u32 i ∧ in_u32 b ∧ in_u32 l
  | Piece i b d => in_u32 i ∧ in_u32 b ∧ payload_fits 9 d
  | Port p => in_u16 p
  | Extended e d => in_u8 e ∧ payload_fits 2 d
  | Unknown id d => in_u8 id ∧ known_id id = false ∧ payload_fits 1 d
  end.

(** * The peer message codec is a bijection between messages and frames, its errors are classified by
    message identifier, and the Allowed Fast set is the list of first occurrences of its hash
    sequence. *)

(** * Frames

    Every message but [KeepAlive] is a frame: a length prefix, an identifier, a payload. *)

Definition message_id (msg : PeerMessage) : Z :=
  match msg with
  | KeepAlive => -1
  | Choke => 0 | Unchoke => 1 | Interested => 2 | NotInterested => 3
  | Have _ => 4 | Bitfield _ => 5 | Request _ _ _ => 6 | Piece _ _ _ => 7
  | Cancel _ _ _ => 8 | Port _ => 9 | Extended _ _ => 20 | Suggest _ => 13
  | HaveAll => 14 | HaveNone => 15 | Reject _ _ _ => 16 | AllowedFast _ => 17
  | Unknown id _ => id
  end.

Definition message_payload (msg : PeerMessage) : bytes :=
  match msg with
  | Have i | Suggest i | AllowedFast i => u32_be i
  | Bitfield b => b
  | Request i b l | Cancel i b l | Reject i b l => u32_be i ++ u32_be b ++ u32_be l
  | Piece i b d => u32_be i ++ u32_be b ++ d
  | Port p => be_bytes 2 p
  | Extended e d => [e] ++ d
  | Unknown _ d => d
  | _ => []
  end.

Definition frame (id : Z) (payload : bytes) : bytes :=
  u32_be (1 + zlen payload) ++ [id] ++ payload.

Lemma length_u32_be v : length (u32_be v) = 4%nat.
Proof. apply length_be_bytes. Qed.

Lemma u32_bound v : in_u32 v → 0 ≤ v < 256 ^ Z.of_nat 4.
Proof. unfold in_u32. change (256 ^ Z.of_nat 4) with 4294967296. lia. Qed.

Lemma get_u32 {E} off p v s :
  off = length p → in_u32 v → get_be (E:=E) 4 off (p ++ u32_be v ++ s) = Ok v.
Proof. intros -> Hv. by apply get_be_app, u32_bound. Qed.

Lemma get_u32_head {E} v s : in_u32 v → get_be (E:=E) 4 0 (u32_be v ++ s) = Ok v.
Proof. by apply (get_u32 0 []). Qed.

Lemma get_u32_last {E} off p v : off = length p → in_u32 v → get_be (E:=E) 4 off (p ++ u32_be v) = Ok v.
Proof. intros ? ?. rewrite <- (app_nil_r (u32_be v)). by apply get_u32. Qed.

Ltac lengths := unfold zlen in *; repeat (rewrite length_app in * || rewrite length_u32_be in *
  || rewrite length_be_bytes in *); cbn [length] in *.

Lemma payload_fits_u32 msg :
  message_ok msg → 0 < 1 + zlen (message_payload msg) ≤ u32_max ∧ bytes_ok (message_payload msg).
Proof.
  intros H. destruct msg; cbn [message_ok message_payload] in *; unfold payload_fits in *; destruct_and?;
    (split; [lengths; lia|]); rewrite ?bytes_ok_app; split_and?;
    repeat first [apply be_bytes_ok | assumption | apply Forall_nil_2 | apply Forall_cons_2].
Qed.

Lemma prefixed_len_ok h d :
  0 ≤ h → h + zlen d ≤ u32_max → prefixed_len h d = Ok (h + zlen d).
Proof.
  intros Hh H. pose proof (zlen_nonneg d). unfold prefixed_len, try_unsigned, checked_add_panic.
  rewrite (proj2 (Z.leb_le 0 _)), (proj2 (Z.leb_le (zlen d) _)) by lia. cbn [andb].
  by rewrite (proj2 (Z.leb_le _ _)) by lia.
Qed.

Lemma encode_frame msg :
  message_ok msg → msg ≠ KeepAlive → encode msg = Ok (frame (message_id msg) (message_payload msg)).
Proof.
  intros Hok Hk. unfold frame. destruct msg; try done; cbn [encode message_id message_payload] in *;
    try (f_equal; unfold zlen; repeat rewrite length_app; rewrite ?length_u32_be, ?length_be_bytes;
         reflexivity);
    cbn in Hok; unfold payload_fits in Hok; destruct_and?;
    rewrite prefixed_len_ok by lia; cbn [obind]; do 3 f_equal; lengths; lia.
Qed.

Lemma decode_frame id payload rest :
  1 + zlen payload ≤ u32_max →
  decode (frame id payload ++ rest) = decode_payload id (1 + zlen payload) payload.
Proof.
  intros Hl. pose proof (zlen_nonneg payload). unfold decode, frame. set (len := 1 + zlen payload).
  rewrite <- !app_assoc. cbn [app].
  assert (length (u32_be len ++ id :: payload ++ rest) = (5 + length payload + length rest)%nat)
    as Hlen by (rewrite length_app, length_u32_be; cbn; rewrite length_app; lia).
  rewrite Hlen. rewrite (proj2 (Nat.ltb_ge _ 4)), (proj2 (Nat.ltb_ge _ 5)) by lia.
  cbn [guard_err obind].
  rewrite get_u32_head by (unfold in_u32; lia).
  cbn [obind]. rewrite (proj2 (Z.eqb_neq _ _)) by lia.
  unfold zlen at 1. rewrite Hlen. rewrite (proj2 (Z.ltb_ge _ _)) by (unfold zlen in *; lia).
  cbn [guard_err obind]. rewrite cons_middle, app_assoc.
  rewrite (slice_fields (_ ++ [id]) payload) by
    (rewrite ?length_app, length_u32_be; cbn [length]; unfold zlen in *; lia).
  cbn [obind]. rewrite <- app_assoc. unfold index.
  rewrite lookup_app_r by (rewrite length_u32_be; lia). by rewrite length_u32_be.
Qed.

(** * Fields of a payload *)

Lemma decode_index_ok i e mk :
  in_u32 i → decode_index (1 + zlen (u32_be i)) (u32_be i) e mk = Ok (mk i).
Proof.
  intros Hi. unfold decode_index, zlen. rewrite length_u32_be.
  change (negb (1 + Z.of_nat 4 =? 5) || negb (4 =? 4)%nat) with false. cbn [guard_err obind].
  rewrite <- (app_nil_r (u32_be i)). by rewrite get_u32_head.
Qed.

Lemma decode_block_ok i b l e mk :
  in_u32 i → in_u32 b → in_u32 l →
  let p := u32_be i ++ u32_be b ++ u32_be l in
  decode_block (1 + zlen p) p e mk = Ok (mk i b l).
Proof.
  intros Hi Hb Hl p. subst p. unfold decode_block, zlen.
  rewrite !length_app, !length_u32_be.
  change (negb (1 + Z.of_nat (4 + (4 + 4)) =? 13) || negb (4 + (4 + 4) =? 12)%nat) with false.
  cbn [guard_err obind].
  rewrite get_u32_head by done. cbn [obind].
  rewrite (get_u32 4 (u32_be i)) by done. cbn [obind].
  rewrite app_assoc, get_u32_last by (rewrite ?length_app; done). done.
Qed.

Lemma decode_payload_unknown id len p :
  known_id id = false → decode_payload id len p = Ok (Unknown id p).
Proof.
  unfold known_id. rewrite bool_decide_eq_false, !not_elem_of_cons. intros H.
  unfold decode_payload.
  repeat (match goal with |- context [match ?x with _ => _ end] => is_var x; destruct x end;
    try done; try lia).
Qed.

Lemma decode_payload_ok msg :
  message_ok msg → msg ≠ KeepAlive →
  decode_payload (message_id msg) (1 + zlen (message_payload msg)) (message_payload msg) = Ok msg.
Proof.
  intros Hok Hk. destruct msg; try done; cbn [message_id message_payload message_ok] in *;
    unfold payload_fits in *; destruct_and?;
    try (by apply decode_payload_unknown); cbn [decode_payload].
  - by apply decode_index_ok.
  - by apply decode_block_ok.
  - rewrite !length_app, !length_u32_be. cbn [Nat.ltb Nat.leb Nat.add guard_err obind].
    rewrite get_u32_head by done. cbn [obind].
    rewrite (get_u32 4 (u32_be index)) by done. cbn [obind].
    rewrite app_assoc, drop_app_length'; [done|]. by rewrite length_app, !length_u32_be.
  - by apply decode_block_ok.
  - unfold zlen. rewrite length_be_bytes.
    change (negb (1 + Z.of_nat 2 =? 3) || negb (2 =? 2)%nat) with false. cbn [guard_err obind].
    rewrite <- (app_nil_r (be_bytes 2 port)). rewrite get_be_head; [done|].
    unfold in_u16 in *. change (256 ^ Z.of_nat 2) with 65536. lia.
  - by apply decode_index_ok.
  - by apply decode_block_ok.
  - by apply decode_index_ok.
Qed.

Lemma message_decode_encode msg rest :
  message_ok msg → ∃ e, encode msg = Ok e ∧ decode (e ++ rest) = Ok msg.
Proof.
  intros Hok. destruct (decide (msg = KeepAlive)) as [->|Hk].
  - exists [0; 0; 0; 0]. split; [done|]. unfold decode. cbn [length app Nat.ltb Nat.leb guard_err obind].
    by rewrite (get_u32_head 0 rest).
  - exists (frame (message_id msg) (message_payload msg)). split; [by apply encode_frame|].
    rewrite decode_frame by (apply payload_fits_u32 in Hok; lia). by apply decode_payload_ok.
Qed.

(** * What decode accepts *)

Lemma u32_be_get {E} off (p : bytes) v :
  get_be (E:=E) 4 off p = Ok v → bytes_ok p → in_u32 v ∧ u32_be v = take 4 (drop off p).
Proof.
  unfold get_be. destruct (Nat.leb_spec (off + 4) (length p)); [|done]. intros [= <-] Hp.
  assert (bytes_ok (take 4 (drop off p))) as Hf by auto with torrent.
  assert (length (take 4 (drop off p)) = 4%nat) as Hl
    by (rewrite length_take, length_drop; lia).
  split.
  - pose proof (be_val_bound _ Hf) as Hb. rewrite Hl in Hb.
    change (256 ^ Z.of_nat 4) with 4294967296 in Hb. unfold in_u32. lia.
  - unfold u32_be. rewrite <- Hl at 1. by apply be_bytes_be_val.
Qed.

Lemma fields_join (p : bytes) : take 4 (drop 0 p) ++ take 4 (drop 4 p) ++ drop 8 p = p.
Proof.
  transitivity (take 4 p ++ drop 4 p); [|apply take_drop]. f_equal.
  transitivity (take 4 (drop 4 p) ++ drop 4 (drop 4 p)); [|apply take_drop].
  by rewrite drop_drop.
Qed.

(** The result of a payload decoder has the identifier and the payload it was decoded from. *)
Definition decoded (id : Z) (p : bytes) (msg : PeerMessage) : Prop :=
  message_ok msg ∧ msg ≠ KeepAlive ∧ message_id msg = id ∧ message_payload msg = p.

Lemma decode_empty_inv len e m msg (p : bytes) :
  len = 1 + zlen p → decode_empty len e m = Ok msg → msg = m ∧ p = [].
Proof.
  unfold decode_empty. intros Hl H. inv_outcome. subst.
  apply negb_false_iff, Z.eqb_eq in G. unfold zlen in G. split; [done|].
  destruct p; [done|cbn in G; lia].
Qed.

Lemma decode_index_inv len p e mk msg :
  bytes_ok p → decode_index len p e mk = Ok msg → ∃ i, msg = mk i ∧ in_u32 i ∧ u32_be i = p.
Proof.
  unfold decode_index. intros Hp H. inv_outcome. subst.
  apply orb_false_iff in G as [_ G]. apply negb_false_iff, Nat.eqb_eq in G.
  apply u32_be_get in E as [Hi He]; [|done]. rewrite drop_0, take_ge in He by lia. eauto.
Qed.

Lemma decode_block_inv len p e mk msg :
  bytes_ok p → decode_block len p e mk = Ok msg →
  ∃ i b l, msg = mk i b l ∧ in_u32 i ∧ in_u32 b ∧ in_u32 l ∧ u32_be i ++ u32_be b ++ u32_be l = p.
Proof.
  unfold decode_block. intros Hp H. inv_outcome. subst.
  apply orb_false_iff in G as [_ G]. apply negb_false_iff, Nat.eqb_eq in G.
  apply u32_be_get in E as [Hi Ei], E0 as [Hb Eb], E1 as [Hl El]; try done.
  do 3 eexists. split_and!; [done..|].
  rewrite Ei, Eb, El. rewrite (take_ge (drop 8 p)) by (rewrite length_drop; lia).
  apply fields_join.
Qed.

Ltac inv_index_arm H Hp :=
  apply decode_index_inv in H as (? & -> & ? & <-); [|exact Hp]; done.

Lemma decode_payload_inv id p msg :
  in_u8 id → bytes_ok p → 1 + zlen p ≤ u32_max →
  decode_payload id (1 + zlen p) p = Ok msg → decoded id p msg.
Proof.
  intros Hid Hp Hl H. destruct (known_id id) eqn:Hk.
  2: { rewrite decode_payload_unknown in H by done. injection H as <-. done. }
  apply bool_decide_eq_true in Hk.
  repeat (apply elem_of_cons in Hk as [->|Hk]; [cbn [decode_payload] in H|]);
    [..|by apply not_elem_of_nil in Hk];
    try (apply decode_empty_inv with (p := p) in H as [-> ->]; [|reflexivity]; done);
    try (apply decode_index_inv in H as (i & -> & ? & <-); [|exact Hp]; done);
    try (apply decode_block_inv in H as (i & b & l & -> & ? & ? & ? & <-); [|exact Hp]; done).
  - injection H as <-. done.
  - inv_outcome. subst. apply Nat.ltb_ge in G.
    apply u32_be_get in E as [Hi Ei], E0 as [Hb Eb]; try done.
    assert (u32_be x ++ u32_be x0 ++ drop 8 p = p) as Ep.
    { rewrite Ei, Eb. apply fields_join. }
    split_and!; [|done|done|done]. split_and!; [done|done|].
    split; [auto with torrent|]. unfold zlen in *. rewrite length_drop. lia.
  - inv_outcome. subst. apply orb_false_iff in G as [_ G].
    apply negb_false_iff, Nat.eqb_eq in G.
    unfold get_be in E. rewrite (proj2 (Nat.leb_le _ _)) in E by lia. injection E as <-.
    rewrite drop_0, take_ge by lia.
    pose proof (be_val_bound p Hp) as Hb. rewrite G in Hb. change (256 ^ Z.of_nat 2) with 65536 in Hb.
    split_and!; [cbn; unfold in_u16; lia|done|done|]. cbn. rewrite <- G. by apply be_bytes_be_val.
  - destruct p as [|e d]; [done|]. cbn in H. injection H as <-.
    apply Forall_cons in Hp as [He Hd]. split_and!; [|done|done|done].
    split; [done|]. split; [done|]. unfold zlen in *. cbn [length] in Hl. rewrite drop_0. lia.
Qed.

Lemma decode_inv d msg :
  bytes_ok d → decode d = Ok msg → msg ≠ KeepAlive →
  message_ok msg ∧ ∃ rest, d = frame (message_id msg) (message_payload msg) ++ rest.
Proof.
  unfold decode. intros Hd H Hk. inv_outcome.
  apply u32_be_get in E as [Hlen Elen]; [|done]. rewrite drop_0 in Elen.
  destruct (Z.eqb_spec x 0) as [->|Hx]; [by injection H as <-|].
  inv_outcome. apply Z.ltb_ge in G1. unfold in_u32 in Hlen.
  apply slice_inv in E as [Ep Hb]. apply index_inv in E0.
  assert (zlen x0 = x - 1) as Hz.
  { rewrite Ep. unfold zlen in *. rewrite length_take, length_drop. lia. }
  assert (bytes_ok x0) as Hx0 by (rewrite Ep; auto with torrent).
  pose proof (Forall_lookup_u8 _ _ _ Hd E0) as Hid.
  replace x with (1 + zlen x0) in H by lia.
  apply decode_payload_inv in H as (Hok & _ & <- & <-); [|done..|lia].
  split; [done|]. exists (drop (4 + Z.to_nat x) d). unfold frame.
  replace (1 + zlen (message_payload msg)) with x by lia. rewrite Elen, Ep, <- !app_assoc.
  rewrite <- (take_drop 4 d) at 1. f_equal.
  apply drop_S in E0. rewrite E0. cbn [app]. f_equal.
  rewrite <- (take_drop (4 + Z.to_nat x - 5) (drop 5 d)) at 1. f_equal. rewrite drop_drop. f_equal. lia.
Qed.

(** * Errors by identifier *)

Definition error_kind_of (id : Z) : ErrorKind :=
  if bool_decide (id = 20) then PeerInvalidExtendedMessage
  else if bool_decide (13 ≤ id ≤ 17) then PeerInvalidFastMessage
  else PeerInvalidMessage.

Definition safe (e : ErrorKind) (m : result PeerMessage) : Prop :=
  (∃ msg, m = Ok msg) ∨ m = Err e.

Lemma safe_ok e msg : safe e (Ok msg).
Proof. left. eauto. Qed.

Lemma safe_guard e b (f : unit → result PeerMessage) :
  (b = false → safe e (f tt)) → safe e (obind (guard_err b e) f).
Proof. destruct b; intros H; [by right|by apply H]. Qed.

Lemma safe_get_be e w off p (f : Z → result PeerMessage) :
  (off + w ≤ length p)%nat → (∀ v, safe e (f v)) → safe e (obind (get_be w off p) f).
Proof. intros Hl Hf. rewrite get_be_ok by done. apply Hf. Qed.

Lemma decode_index_safe len p e mk : safe e (decode_index len p e mk).
Proof.
  apply safe_guard. intros [_ G]%orb_false_iff. apply negb_false_iff, Nat.eqb_eq in G.
  apply safe_get_be; [lia|]. intros v. apply safe_ok.
Qed.

Lemma decode_block_safe len p e mk : safe e (decode_block len p e mk).
Proof.
  apply safe_guard. intros [_ G]%orb_false_iff. apply negb_false_iff, Nat.eqb_eq in G.
  do 3 (apply safe_get_be; [lia|]; intros ?). apply safe_ok.
Qed.

Lemma decode_empty_safe len e m : safe e (decode_empty len e m).
Proof. apply safe_guard. intros _. apply safe_ok. Qed.

#[export] Hint Resolve decode_index_safe decode_block_safe decode_empty_safe safe_ok : torrent.

Lemma decode_payload_safe id len p : safe (error_kind_of id) (decode_payload id len p).
Proof.
  destruct (known_id id) eqn:Hk; [|rewrite decode_payload_unknown by done; apply safe_ok].
  apply bool_decide_eq_true in Hk.
  repeat (apply elem_of_cons in Hk as [->|Hk]; [cbn [decode_payload]|]);
    [..|by apply not_elem_of_nil in Hk]; try (apply decode_empty_safe || apply decode_index_safe
      || apply decode_block_safe || apply safe_ok).
  - apply safe_guard. intros G%Nat.ltb_ge.
    do 2 (apply safe_get_be; [lia|]; intros ?). apply safe_ok.
  - apply safe_guard. intros [_ G]%orb_false_iff. apply negb_false_iff, Nat.eqb_eq in G.
    apply safe_get_be; [lia|]. intros v. apply safe_ok.
  - destruct p; [by right|left; by eexists].
Qed.

(** C30: [encode] and [decode] are inverse to each other. Every message of the Rust type with a
    payload that fits encodes, and the bytes decode to it whatever follows them; and whatever
    decodes to a message other than [KeepAlive] starts with the encoding of that message, which is
    well formed: no two byte frames mean the same message. *)
Theorem peer_message_codec :
  (∀ msg rest, message_ok msg → ∃ e, encode msg = Ok e ∧ decode (e ++ rest) = Ok msg) ∧
  (∀ d msg, bytes_ok d → decode d = Ok msg → msg ≠ KeepAlive →
     message_ok msg ∧ ∃ e rest, encode msg = Ok e ∧ d = e ++ rest).
Proof.
  split; [apply message_decode_encode|]. intros d msg Hd H Hk.
  destruct (decode_inv d msg Hd H Hk) as (Hok & rest & ->). split; [done|].
  exists (frame (message_id msg) (message_payload msg)), rest. split; [|done].
  by apply encode_frame.
Qed.

(** [decode] never panics, on any bytes, and its error tells the family of the message: an
    identifier of BEP 10 gives [PeerInvalidExtendedMessage], one of BEP 6 [PeerInvalidFastMessage],
    everything else (truncated frames included) [PeerInvalidMessage]. *)
Theorem peer_message_decode_errors : ∀ d,
  bytes_ok d →
  (∃ msg, decode d = Ok msg) ∨ decode d = Err PeerInvalidMessage ∨
  (∃ id, d !! 4%nat = Some id ∧ decode d = Err (error_kind_of id)).
Proof.
  intros d Hd. unfold decode, guard_err.
  destruct (Nat.ltb_spec (length d) 4); [auto|]. cbn [obind].
  destruct (get_be (E:=ErrorKind) 4 0 d) as [len| | |] eqn:El;
    try (rewrite get_be_ok in El by lia; discriminate El).
  apply u32_be_get in El as [Hlen _]; [|done]. unfold in_u32 in Hlen. cbn [obind].
  destruct (Z.eqb_spec len 0); [left; eauto|].
  destruct (Nat.ltb_spec (length d) 5); [auto|]. cbn [obind].
  destruct (Z.ltb_spec (zlen d) (4 + len)); [auto|]. cbn [obind].
  rewrite slice_ok by (unfold zlen in *; lia). cbn [obind].
  destruct (index_lt (E:=ErrorKind) d 4) as (id & Hid & ->); [lia|]. cbn [obind].
  destruct (decode_payload_safe id len (take (4 + Z.to_nat len - 5) (drop 5 d))) as [?|?]; eauto.
Qed.

Definition sample_piece : PeerMessage := Piece 7 16384 [1; 2; 3].

Lemma peer_message_decode_errors_witness :
  let d := [0; 0; 0; 2; 17; 9] in
  bytes_ok d ∧
  ((∃ msg, decode d = Ok msg) ∨ decode d = Err PeerInvalidMessage ∨
   (∃ id, d !! 4%nat = Some id ∧ decode d = Err (error_kind_of id))) ∧
  decode d = Err PeerInvalidFastMessage.
Proof.
  intros d. assert (bytes_ok d) as Hd by (apply (bool_decide_unpack _); vm_compute; exact I).
  split; [exact Hd|]. split; [by apply peer_message_decode_errors|by vm_compute].
Defined.

(** A payload too long for the length prefix panics, as [encode] documents; one byte less does
    not. *)
Lemma encode_panics_when_too_long b :
  encode (Bitfield b) = Panic ↔ u32_max < 1 + zlen b.
Proof.
  cbn [encode]. unfold prefixed_len, try_unsigned, checked_add_panic.
  pose proof (zlen_nonneg b). rewrite (proj2 (Z.leb_le 0 _)) by done. cbn [andb].
  destruct (Z.leb_spec (zlen b) u32_max); [|split; [lia|done]].
  destruct (Z.leb_spec (1 + zlen b) u32_max); cbn [obind]; split; done || lia.
Qed.

(** * The Allowed Fast set *)

(** First occurrences, in order. *)
Fixpoint firsts (seen : gset Z) (l : list Z) : list Z :=
  match l with
  | [] => []
  | x :: l' => if bool_decide (x ∈ seen) then firsts seen l' else x :: firsts ({[x]} ∪ seen) l'
  end.

Lemma firsts_elem seen l x : x ∈ firsts seen l ↔ x ∈ l ∧ x ∉ seen.
Proof.
  revert seen. induction l as [|y l IH]; intros seen; cbn [firsts].
  - rewrite elem_of_nil. tauto.
  - case_bool_decide as Hy; rewrite ?elem_of_cons, IH, ?elem_of_cons.
    + split; [tauto|]. intros [[->|?] ?]; [done|tauto].
    + rewrite elem_of_union, elem_of_singleton.
      destruct (decide (x = y)) as [->|]; tauto.
Qed.

Lemma firsts_nodup seen l : NoDup (firsts seen l).
Proof.
  revert seen. induction l as [|y l IH]; intros seen; cbn [firsts]; [constructor|].
  case_bool_decide; [done|]. constructor; [|done]. rewrite firsts_elem.
  intros [_ Hn]. apply Hn, elem_of_union_l, elem_of_singleton_2. done.
Qed.

Section allowed_fast_facts.
Context (sha1 : bytes → bytes).
Context (sha1_length : ∀ l, length (sha1 l) = 20%nat).
Context (info_hash ip_bytes : bytes) (num_pieces : Z).

(** The candidate of round [i] as a plain number. *)
Definition candidate (i : Z) : Z :=
  be_val (take 4 (sha1 (info_hash ++ ip_bytes ++ be_bytes 4 i))) mod num_pieces.

Lemma fast_candidate_ok i :
  fast_candidate sha1 info_hash ip_bytes num_pieces i = Ok (candidate i).
Proof using sha1_length.
  unfold fast_candidate. rewrite get_be_ok by (rewrite sha1_length; lia). cbn [obind].
  by rewrite drop_0.
Qed.

Definition candidates (i : Z) (n : nat) : list Z := map (λ j, candidate (i + Z.of_nat j)) (seq 0 n).

Lemma candidates_S i n : candidates i (S n) = candidate i :: candidates (i + 1) n.
Proof.
  unfold candidates. cbn [seq map]. rewrite Z.add_0_r. f_equal. rewrite <- seq_shift, map_map.
  apply map_ext. intros j. f_equal. lia.
Qed.

Lemma allowed_fast_loop_spec fuel k i seen set :
  0 ≤ i → i + Z.of_nat fuel ≤ u32_max + 1 → (length set ≤ k)%nat →
  allowed_fast_loop sha1 fuel info_hash ip_bytes num_pieces k i seen set =
    Ok (take k (set ++ firsts seen (candidates i fuel))).
Proof using sha1_length.
  revert i seen set. induction fuel as [|f IH]; intros i seen set Hi Hf Hk; cbn [allowed_fast_loop].
  - cbn. rewrite app_nil_r, take_ge by lia. by destruct (k <=? _)%nat.
  - destruct (Nat.leb_spec k (length set)).
    { rewrite take_app_le by lia. by rewrite take_ge by lia. }
    rewrite (proj2 (Z.ltb_ge _ _)) by lia. rewrite fast_candidate_ok. cbn [obind].
    rewrite candidates_S. cbn [firsts]. case_bool_decide.
    + rewrite IH by lia || done. done.
    + rewrite IH by (rewrite ?length_app; cbn; lia). by rewrite <- app_assoc.
Qed.

End allowed_fast_facts.

(** The Allowed Fast set of BEP 6 is the list of the first [k] distinct values of the sequence
    [SHA1(info_hash || ip || i) mod num_pieces], in generation order, over at most four rounds per
    piece: it has no duplicates, only valid piece indices, at most [k] of them, and the set for a
    smaller [k] is a prefix of it. *)
Theorem allowed_fast_set_spec : ∀ (sha1 : bytes → bytes) info_hash addr num_pieces k,
  (∀ l, length (sha1 l) = 20%nat) → 0 < num_pieces → num_pieces * 4 ≤ u32_max →
  let seq := candidates sha1 info_hash (octets (ip addr)) num_pieces 0 (Z.to_nat (num_pieces * 4)) in
  let set := take k (firsts ∅ seq) in
  compute_allowed_fast_set sha1 info_hash addr num_pieces k = Ok set ∧
  NoDup set ∧ (∀ x, x ∈ set → 0 ≤ x < num_pieces ∧ x ∈ seq) ∧ (length set ≤ k)%nat ∧
  (∀ j, (j ≤ k)%nat → compute_allowed_fast_set sha1 info_hash addr num_pieces j = Ok (take j set)).
Proof.
  intros sha1 ih addr n k Hlen Hn Hmax seq set.
  assert (∀ j, compute_allowed_fast_set sha1 ih addr n j = Ok (take j (firsts ∅ seq))) as Hall.
  { intros j. unfold compute_allowed_fast_set. rewrite (proj2 (Z.eqb_neq _ _)) by lia. cbn [orb].
    destruct (Nat.eqb_spec j 0) as [->|]; [done|].
    rewrite allowed_fast_loop_spec by (done || lia || cbn; lia). done. }
  split_and!; [apply Hall| | | |].
  - eapply sublist_NoDup; [apply firsts_nodup|apply sublist_take].
  - intros x Hx. apply elem_of_take in Hx as (i & Hi & _). apply list_elem_of_lookup_2 in Hi.
    apply firsts_elem in Hi as [Hi _]. split; [|done].
    apply list_elem_of_fmap in Hi as (j & -> & _). apply Z.mod_pos_bound. lia.
  - subst set. rewrite length_take. lia.
  - intros j Hj. rewrite Hall. subst set. by rewrite take_take, Nat.min_l.
Qed.

Lemma allowed_fast_set_spec_witness :
  let addr := mk_addr (V4 [127; 0; 0; 1]) 6881 in
  let h := λ l : bytes, [0; 0; 0; default 0 (last l)] ++ replicate 16 0 in
  compute_allowed_fast_set h [] addr 5 3 = Ok [0; 1; 2] ∧
  NoDup (take 3 (firsts ∅ (candidates h [] [127; 0; 0; 1] 5 0 20))).
Proof.
  intros addr h. split; [by vm_compute|].
  destruct (allowed_fast_set_spec h [] addr 5 3) as (_ & H & _); [|lia|lia|exact H].
  intros l. reflexivity.
Defined.
