(* ===== verification/Compact.v ===== *)
(** Compact peer and node lists: sequences of fixed-width records.

    The peer lists of BEP 23 and BEP 7 ([parse_compact_peers_*], [encode_compact_peers_*] of
    [crates/torrent-core/src/tracker/mod.rs]) and the node lists of BEP 5 and BEP 32
    ([parse_compact_nodes*], [encode_compact_nodes*] of [crates/torrent-core/src/dht/krpc.rs]).
    A [FixedCodec] states what one record promises; the theorems about the lists are proved from it
    and hold of the four instances. *)

From stdpp Require Import base numbers list.
From Stdlib Require Import ZArith Lia.
From S2P Require Import Prelude Facts Error Net.

(** * Chunks: [slice::chunks_exact] and its [remainder] *)

Fixpoint chunks_fuel (fuel w : nat) (l : bytes) : list bytes :=
  match fuel with
  | O => []
  | S f => if (w <=? length l)%nat then take w l :: chunks_fuel f w (drop w l) else []
  end.

(** A chunk takes at least one byte, so [length l] steps are enough. *)
Definition chunks_exact (w : nat) (l : bytes) : list bytes := chunks_fuel (length l) w l.

Definition chunks_remainder (w : nat) (l : bytes) : bytes := drop (w * (length l / w)) l.

(** * Records *)

(** The bytes of one chunk, read with constant offsets below the width of the chunk. *)
Definition addr4_of_chunk (chunk : bytes) : SocketAddr :=
  mk_addr (V4 (take 4 chunk)) (be_val (take 2 (drop 4 chunk))).

Definition addr6_of_chunk (chunk : bytes) : SocketAddr :=
  mk_addr (V6 (take 16 chunk)) (be_val (take 2 (drop 16 chunk))).

(** [struct Node] of [dht/mod.rs]. *)
Record Node : Type := mk_node { node_id : bytes; node_addr : SocketAddr }.

#[global] Instance Node_eq_dec : EqDecision Node.
Proof. solve_decision. Defined.

Definition node4_of_chunk (chunk : bytes) : Node :=
  mk_node (take 20 chunk)
    (mk_addr (V4 (take 4 (drop 20 chunk))) (be_val (take 2 (drop 24 chunk)))).

Definition node6_of_chunk (chunk : bytes) : Node :=
  mk_node (take 20 chunk)
    (mk_addr (V6 (take 16 (drop 20 chunk))) (be_val (take 2 (drop 36 chunk)))).

(** * Lists *)

Definition parse_compact_peers_ipv4 (data : bytes) : result (list SocketAddr) :=
  let! _ := guard_err (negb (length data mod 6 =? 0)%nat) TrackerInvalidResponse in
  Ok (map addr4_of_chunk (chunks_exact 6 data)).

Definition parse_compact_peers_ipv6 (data : bytes) : result (list SocketAddr) :=
  let! _ := guard_err (negb (length data mod 18 =? 0)%nat) TrackerInvalidResponse in
  Ok (map addr6_of_chunk (chunks_exact 18 data)).

Definition encode_compact_peers_ipv4 (addrs : list SocketAddr) : bytes :=
  concat (map (fun addr =>
    match ip addr with V4 o => o ++ be_bytes 2 (port addr) | V6 _ => [] end) addrs).

Definition encode_compact_peers_ipv6 (addrs : list SocketAddr) : bytes :=
  concat (map (fun addr =>
    match ip addr with V6 o => o ++ be_bytes 2 (port addr) | V4 _ => [] end) addrs).

Definition parse_compact_nodes4 (data : bytes) : list Node :=
  map node4_of_chunk (chunks_exact 26 data).

Definition parse_compact_nodes6 (data : bytes) : list Node :=
  map node6_of_chunk (chunks_exact 38 data).

Definition encode_compact_nodes4 (nodes : list Node) : bytes :=
  concat (map (fun node =>
    match ip (node_addr node) with
    | V4 o => node_id node ++ o ++ be_bytes 2 (port (node_addr node))
    | V6 _ => []
    end) nodes).

Definition encode_compact_nodes6 (nodes : list Node) : bytes :=
  concat (map (fun node =>
    match ip (node_addr node) with
    | V6 o => node_id node ++ o ++ be_bytes 2 (port (node_addr node))
    | V4 _ => []
    end) nodes).

Definition node_ok (n : Node) : Prop :=
  length (node_id n) = 20%nat ∧ bytes_ok (node_id n) ∧ addr_ok (node_addr n).

#[global] Instance node_ok_dec n : Decision (node_ok n) := _.

(** * Facts about chunks *)

Lemma chunks_fuel_concat f w ls rest :
  (0 < w)%nat → Forall (λ c, length c = w) ls → (length rest < w)%nat →
  (length ls ≤ f)%nat → chunks_fuel f w (concat ls ++ rest) = ls.
Proof.
  intros Hw Hls Hr. revert f. induction Hls as [|c ls Hc Hls IH]; intros f Hf.
  - destruct f; [done|]. cbn [chunks_fuel concat app]. by rewrite (proj2 (Nat.leb_gt _ _)).
  - destruct f as [|f]; [cbn in Hf; lia|]. cbn [chunks_fuel concat].
    rewrite <- app_assoc, length_app, (proj2 (Nat.leb_le _ _)) by lia.
    rewrite take_app_length', drop_app_length' by done. by rewrite IH by (cbn in Hf; lia).
Qed.

Lemma length_concat_fixed w (ls : list bytes) :
  Forall (λ c, length c = w) ls → length (concat ls) = (w * length ls)%nat.
Proof. induction 1 as [|c ls Hc _ IH]; cbn [concat length]; [lia|]. rewrite length_app, IH. lia. Qed.

Lemma chunks_exact_concat w ls rest :
  (0 < w)%nat → Forall (λ c, length c = w) ls → (length rest < w)%nat →
  chunks_exact w (concat ls ++ rest) = ls.
Proof.
  intros Hw Hls Hr. unfold chunks_exact. apply chunks_fuel_concat; [done..|].
  rewrite length_app, (length_concat_fixed w) by done. nia.
Qed.

Lemma chunks_fuel_inv f w l :
  (0 < w)%nat → (length l ≤ f)%nat →
  ∃ rest, l = concat (chunks_fuel f w l) ++ rest ∧ (length rest < w)%nat ∧
    Forall (λ c, length c = w) (chunks_fuel f w l).
Proof.
  intros Hw. revert l. induction f as [|f IH]; intros l Hl.
  { destruct l; [|cbn in Hl; lia]. by exists []. }
  cbn [chunks_fuel]. destruct (Nat.leb_spec w (length l)) as [Hle|Hlt].
  - destruct (IH (drop w l)) as (rest & E & Hr & HF); [rewrite length_drop; lia|].
    exists rest. split_and!; [|done|constructor; [by rewrite length_take, Nat.min_l|done]].
    cbn [concat]. rewrite <- app_assoc, <- E. by rewrite take_drop.
  - exists l. by split_and!; [|lia|].
Qed.

Lemma chunks_exact_inv w l :
  (0 < w)%nat →
  l = concat (chunks_exact w l) ++ chunks_remainder w l ∧
  length (chunks_remainder w l) = (length l mod w)%nat ∧
  Forall (λ c, length c = w) (chunks_exact w l).
Proof.
  intros Hw. destruct (chunks_fuel_inv (length l) w l Hw) as (rest & E & Hr & HF); [done|].
  fold (chunks_exact w l) in E, HF.
  assert (length l = w * length (chunks_exact w l) + length rest)%nat as Hl.
  { rewrite E at 1. by rewrite length_app, (length_concat_fixed w). }
  assert (chunks_remainder w l = rest) as Hrem.
  { unfold chunks_remainder.
    assert (length l / w = length (chunks_exact w l))%nat as ->.
    { symmetry. by eapply Nat.div_unique; [exact Hr|]. }
    rewrite E at 2. by rewrite drop_app_length' by (by rewrite (length_concat_fixed w)). }
  rewrite Hrem. split_and!; [done| |done].
  by eapply Nat.mod_unique; [exact Hr|].
Qed.

Lemma chunks_exact_mult w l :
  (0 < w)%nat → (length l mod w = 0)%nat → concat (chunks_exact w l) = l.
Proof.
  intros Hw Hm. destruct (chunks_exact_inv w l Hw) as (E & Hr & _).
  rewrite Hm in Hr. apply nil_length_inv in Hr. rewrite Hr, app_nil_r in E. done.
Qed.

(** * Fixed-width records *)

Record FixedCodec (A : Type) : Type := {
  fc_width : nat;
  fc_put : A → bytes;
  fc_get : bytes → A;
  fc_valid : A → Prop;
  fc_width_pos : (0 < fc_width)%nat;
  fc_put_length a : fc_valid a → length (fc_put a) = fc_width;
  fc_get_put a : fc_valid a → fc_get (fc_put a) = a;
  fc_put_get b : length b = fc_width → bytes_ok b → fc_put (fc_get b) = b ∧ fc_valid (fc_get b);
}.
Arguments fc_width {A}.
Arguments fc_put {A}.
Arguments fc_get {A}.
Arguments fc_valid {A}.

Section fixed_codec.
Context {A : Type} (c : FixedCodec A).

Lemma fixed_get_put l rest :
  Forall (fc_valid c) l → (length rest < fc_width c)%nat →
  map (fc_get c) (chunks_exact (fc_width c) (concat (map (fc_put c) l) ++ rest)) = l.
Proof.
  intros Hl Hr. rewrite chunks_exact_concat; [|apply fc_width_pos| |done].
  - rewrite map_map. induction Hl as [|a l Ha _ IH]; [done|]. cbn [map].
    by rewrite fc_get_put, IH.
  - induction Hl as [|a l Ha _ IH]; constructor; [by apply fc_put_length|done].
Qed.

Lemma fixed_put_get b :
  bytes_ok b →
  let l := map (fc_get c) (chunks_exact (fc_width c) b) in
  concat (map (fc_put c) l) ++ chunks_remainder (fc_width c) b = b ∧ Forall (fc_valid c) l.
Proof.
  intros Hb. destruct (chunks_exact_inv (fc_width c) b (fc_width_pos _ c)) as (E & _ & HF).
  rewrite E in Hb. apply bytes_ok_app in Hb as [Hb _]. cbn zeta.
  rewrite E at 3. generalize dependent (chunks_exact (fc_width c) b). intros ls Hb _ HF.
  assert (concat (map (fc_put c) (map (fc_get c) ls)) = concat ls ∧
          Forall (fc_valid c) (map (fc_get c) ls)) as [-> ?]; [|done].
  induction HF as [|x ls Hx _ IH]; [by split|]. cbn [concat] in Hb.
  apply bytes_ok_app in Hb as [Hbx Hbl]. destruct (IH Hbl) as [IH1 IH2].
  destruct (fc_put_get _ c x Hx Hbx) as [Hp Hv]. cbn [map concat]. rewrite Hp, IH1.
  split; [done|by constructor].
Qed.
End fixed_codec.

(** * The four instances *)

Definition of_family (v6 : bool) (a : SocketAddr) : Prop :=
  addr_ok a ∧ is_v6 a = v6.

Lemma be2_put_get (b : bytes) :
  length b = 2%nat → bytes_ok b → be_bytes 2 (be_val b) = b ∧ in_u16 (be_val b).
Proof.
  intros Hl Hb. split; [rewrite <- Hl at 1; by apply be_bytes_be_val|].
  pose proof (be_val_bound b Hb) as Hv. rewrite Hl in Hv. unfold in_u16. lia.
Qed.

Lemma be2_get_put p : in_u16 p → be_val (be_bytes 2 p) = p.
Proof. intros Hp. apply be_val_be_bytes. unfold in_u16 in Hp. cbn. lia. Qed.

Lemma take_drop_split (a b : nat) (l : bytes) :
  length l = (a + b)%nat → take a l ++ take b (drop a l) = l.
Proof. intros H. rewrite (take_ge (drop a l)) by (rewrite length_drop; lia). apply take_drop. Qed.

Section families.
Variable v6 : bool.

Let n := octet_count v6.

Definition addr_put (a : SocketAddr) : bytes := octets (ip a) ++ be_bytes 2 (port a).
Definition addr_get (b : bytes) : SocketAddr :=
  mk_addr (mk_ip v6 (take n b)) (be_val (take 2 (drop n b))).

Lemma addr_put_length a : of_family v6 a → length (addr_put a) = (n + 2)%nat.
Proof.
  intros [[[_ Ho] _] Hf]. unfold addr_put, n, octet_count. rewrite length_app, length_be_bytes, Ho.
  destruct v6, a as [[o|o] p]; done.
Qed.

Lemma addr_get_put a : of_family v6 a → addr_get (addr_put a) = a.
Proof.
  intros Ha. pose proof (addr_put_length a Ha) as Hl. destruct Ha as [[[_ Ho] Hp] Hf].
  unfold addr_put in *. rewrite length_app, length_be_bytes in Hl. unfold addr_get.
  rewrite take_app_length', drop_app_length' by lia. rewrite take_ge by (by rewrite length_be_bytes).
  rewrite be2_get_put by done. destruct v6, a as [[o|o] p]; done.
Qed.

Lemma addr_put_get b :
  length b = (n + 2)%nat → bytes_ok b → addr_put (addr_get b) = b ∧ of_family v6 (addr_get b).
Proof.
  intros Hl Hb. unfold addr_put, addr_get. cbn [ip port].
  destruct (be2_put_get (take 2 (drop n b))) as [E Hp];
    [rewrite length_take, length_drop; lia|auto with torrent|].
  assert (octets (mk_ip v6 (take n b)) = take n b) as -> by by destruct v6.
  rewrite E. split; [by apply take_drop_split|].
  assert (length (take n b) = n) as Ht by (rewrite length_take; lia).
  pose proof (bytes_ok_take n b Hb). unfold n, octet_count in *.
  split; [|by destruct v6]. split; [|done]. by destruct v6.
Qed.

Lemma addr_width_pos : (0 < n + 2)%nat.
Proof. lia. Qed.

Definition addr_codec : FixedCodec SocketAddr :=
  {| fc_width := n + 2; fc_put := addr_put; fc_get := addr_get; fc_valid := of_family v6;
     fc_width_pos := addr_width_pos; fc_put_length := addr_put_length;
     fc_get_put := addr_get_put; fc_put_get := addr_put_get |}.

Definition node_of_family (nd : Node) : Prop := node_ok nd ∧ is_v6 (node_addr nd) = v6.

Definition node_put (nd : Node) : bytes := node_id nd ++ addr_put (node_addr nd).
Definition node_get (b : bytes) : Node := mk_node (take 20 b) (addr_get (drop 20 b)).

Lemma node_put_length nd : node_of_family nd → length (node_put nd) = (20 + (n + 2))%nat.
Proof.
  intros [(Hi & _ & Ha) Hf]. unfold node_put.
  by rewrite length_app, addr_put_length, Hi.
Qed.

Lemma node_get_put nd : node_of_family nd → node_get (node_put nd) = nd.
Proof.
  intros [(Hi & _ & Ha) Hf]. unfold node_get, node_put.
  rewrite take_app_length', drop_app_length' by done. rewrite addr_get_put by done.
  by destruct nd.
Qed.

Lemma node_put_get b :
  length b = (20 + (n + 2))%nat → bytes_ok b →
  node_put (node_get b) = b ∧ node_of_family (node_get b).
Proof.
  intros Hl Hb. destruct (addr_put_get (drop 20 b)) as [E [Ha Hf]];
    [rewrite length_drop; lia|auto with torrent|].
  unfold node_put, node_get. cbn [node_id node_addr]. rewrite E, take_drop. split; [done|].
  split; [|done]. unfold node_ok. cbn [node_id node_addr]. rewrite length_take.
  split_and!; [lia|auto with torrent|apply Ha..].
Qed.

Lemma node_width_pos : (0 < 20 + (n + 2))%nat.
Proof. lia. Qed.

Definition node_codec : FixedCodec Node :=
  {| fc_width := 20 + (n + 2); fc_put := node_put; fc_get := node_get; fc_valid := node_of_family;
     fc_width_pos := node_width_pos; fc_put_length := node_put_length;
     fc_get_put := node_get_put; fc_put_get := node_put_get |}.
End families.

(** What the encoders of the source skip: the entries of the other family. *)
Definition keep_addrs (v6 : bool) (l : list SocketAddr) : list SocketAddr :=
  filter (λ a, is_v6 a = v6) l.

Definition keep_nodes (v6 : bool) (l : list Node) : list Node :=
  filter (λ nd, is_v6 (node_addr nd) = v6) l.

Lemma encode_peers_eq (v6 : bool) l :
  (if v6 then encode_compact_peers_ipv6 else encode_compact_peers_ipv4) l =
    concat (map (fc_put (addr_codec v6)) (keep_addrs v6 l)).
Proof.
  unfold keep_addrs, encode_compact_peers_ipv6, encode_compact_peers_ipv4.
  induction l as [|[[o|o] p] l IH]; [by destruct v6| |]; rewrite filter_cons;
    destruct v6; cbn [map concat ip port] in *; rewrite IH; done.
Qed.

Lemma encode_nodes_eq (v6 : bool) l :
  (if v6 then encode_compact_nodes6 else encode_compact_nodes4) l =
    concat (map (fc_put (node_codec v6)) (keep_nodes v6 l)).
Proof.
  unfold keep_nodes, encode_compact_nodes6, encode_compact_nodes4.
  induction l as [|[i [[o|o] p]] l IH]; [by destruct v6| |]; rewrite filter_cons;
    destruct v6; cbn [map concat ip port node_addr] in *; rewrite IH; done.
Qed.

Lemma addr_chunk_eq (v6 : bool) chunk :
  (if v6 then addr6_of_chunk else addr4_of_chunk) chunk = fc_get (addr_codec v6) chunk.
Proof. by destruct v6. Qed.

Lemma node_chunk_eq (v6 : bool) chunk :
  (if v6 then node6_of_chunk else node4_of_chunk) chunk = fc_get (node_codec v6) chunk.
Proof.
  destruct v6; cbn [fc_get node_codec]; unfold node_get, addr_get;
    rewrite !drop_drop; done.
Qed.

Lemma keep_addrs_of_family v6 l :
  Forall addr_ok l → Forall (of_family v6) (keep_addrs v6 l).
Proof.
  intros Hl. apply Forall_forall. intros a [Hf Ha]%list_elem_of_filter.
  rewrite Forall_forall in Hl. split; auto.
Qed.

Lemma keep_nodes_of_family v6 l :
  Forall node_ok l → Forall (node_of_family v6) (keep_nodes v6 l).
Proof.
  intros Hl. apply Forall_forall. intros a [Hf Ha]%list_elem_of_filter.
  rewrite Forall_forall in Hl. split; auto.
Qed.

Lemma parse_peers_eq (v6 : bool) data :
  (if v6 then parse_compact_peers_ipv6 else parse_compact_peers_ipv4) data =
    if (length data mod (octet_count v6 + 2) =? 0)%nat
    then Ok (map (fc_get (addr_codec v6)) (chunks_exact (fc_width (addr_codec v6)) data))
    else Err TrackerInvalidResponse.
Proof.
  destruct v6; cbn [octet_count]; unfold parse_compact_peers_ipv6, parse_compact_peers_ipv4;
    destruct (_ =? _)%nat; done.
Qed.

Lemma parse_nodes_eq (v6 : bool) data :
  (if v6 then parse_compact_nodes6 else parse_compact_nodes4) data =
    map (fc_get (node_codec v6)) (chunks_exact (fc_width (node_codec v6)) data).
Proof.
  destruct v6; (apply map_ext; intros c; [apply (node_chunk_eq true)|apply (node_chunk_eq false)])
  || (unfold parse_compact_nodes6, parse_compact_nodes4; apply map_ext; intros c).
  - apply (node_chunk_eq true).
  - apply (node_chunk_eq false).
Qed.

(** Encoding, then parsing, returns the entries of the encoded family, in order. *)
Lemma parse_encode_peers (v6 : bool) l :
  Forall addr_ok l →
  (if v6 then parse_compact_peers_ipv6 else parse_compact_peers_ipv4)
    ((if v6 then encode_compact_peers_ipv6 else encode_compact_peers_ipv4) l) =
  Ok (keep_addrs v6 l).
Proof.
  intros Hl. pose proof (keep_addrs_of_family v6 l Hl) as Hk.
  rewrite parse_peers_eq, encode_peers_eq.
  rewrite (length_concat_fixed (octet_count v6 + 2)).
  - rewrite Nat.mul_comm, Nat.Div0.mod_mul. cbn [Nat.eqb].
    rewrite <- (app_nil_r (concat _)), fixed_get_put; [done|done|apply fc_width_pos].
  - apply Forall_map. eapply Forall_impl; [exact Hk|]. intros a Ha. by apply fc_put_length.
Qed.

Lemma parse_encode_nodes (v6 : bool) l rest :
  Forall node_ok l → (length rest < octet_count v6 + 22)%nat →
  (if v6 then parse_compact_nodes6 else parse_compact_nodes4)
    ((if v6 then encode_compact_nodes6 else encode_compact_nodes4) l ++ rest) =
  keep_nodes v6 l.
Proof.
  intros Hl Hr. rewrite parse_nodes_eq, encode_nodes_eq.
  apply fixed_get_put; [by apply keep_nodes_of_family|].
  cbn [fc_width node_codec]. destruct v6; cbn in *; lia.
Qed.

(** * Properties *)

(** Compact peer and node lists, for both address families. The encoder keeps exactly the
    entries of its family, in order, and the parser returns them; the peer parser accepts a byte
    string if and only if its length is a multiple of the entry size, and what it accepts is the
    encoding of what it returns; the node parser ignores less than one entry of trailing bytes. *)
Theorem compact_lists_codec : ∀ v6 : bool,
  let parse_peers := if v6 then parse_compact_peers_ipv6 else parse_compact_peers_ipv4 in
  let encode_peers := if v6 then encode_compact_peers_ipv6 else encode_compact_peers_ipv4 in
  let parse_nodes := if v6 then parse_compact_nodes6 else parse_compact_nodes4 in
  let encode_nodes := if v6 then encode_compact_nodes6 else encode_compact_nodes4 in
  let size := (octet_count v6 + 2)%nat in
  (∀ l, Forall addr_ok l → parse_peers (encode_peers l) = Ok (keep_addrs v6 l)) ∧
  (∀ d, (length d mod size ≠ 0)%nat → parse_peers d = Err TrackerInvalidResponse) ∧
  (∀ d, bytes_ok d → (length d mod size = 0)%nat →
     ∃ l, parse_peers d = Ok l ∧ encode_peers l = d ∧ keep_addrs v6 l = l ∧ Forall addr_ok l) ∧
  (∀ l rest, Forall node_ok l → (length rest < 20 + size)%nat →
     parse_nodes (encode_nodes l ++ rest) = keep_nodes v6 l) ∧
  (∀ d, bytes_ok d →
     encode_nodes (parse_nodes d) ++ chunks_remainder (20 + size) d = d).
Proof.
  intros v6 parse_peers encode_peers parse_nodes encode_nodes size. split_and!.
  - apply parse_encode_peers.
  - intros d Hd. unfold parse_peers. rewrite parse_peers_eq. by rewrite (proj2 (Nat.eqb_neq _ _)).
  - intros d Hd Hm. unfold parse_peers, encode_peers. rewrite parse_peers_eq.
    rewrite (proj2 (Nat.eqb_eq _ _)) by done.
    destruct (fixed_put_get (addr_codec v6) d Hd) as [E Hv].
    eexists. split; [done|]. rewrite encode_peers_eq.
    assert (∀ l, Forall (of_family v6) l → keep_addrs v6 l = l) as Hk.
    { intros l Hl. induction Hl as [|a l [_ Ha] _ IH]; [done|]. unfold keep_addrs.
      rewrite filter_cons_True by done. by f_equal. }
    rewrite Hk by done. split_and!; [|done|by eapply Forall_impl; [exact Hv|intros ? []]].
    unfold chunks_remainder in E. rewrite drop_ge in E; [by rewrite app_nil_r in E|].
    cbn [fc_width addr_codec]. fold size. pose proof (Nat.div_mod_eq (length d) size). lia.
  - intros l rest Hl Hr. apply parse_encode_nodes; [done|]. unfold size in Hr. lia.
  - intros d Hd. unfold parse_nodes, encode_nodes. rewrite parse_nodes_eq.
    destruct (fixed_put_get (node_codec v6) d Hd) as [E Hv].
    rewrite encode_nodes_eq.
    assert (∀ l, Forall (node_of_family v6) l → keep_nodes v6 l = l) as ->; [|exact E|done].
    intros l Hl. induction Hl as [|a l [_ Ha] _ IH]; [done|]. unfold keep_nodes.
    rewrite filter_cons_True by done. by f_equal.
Qed.

Lemma compact_lists_codec_witness :
  let l := [mk_addr (V4 [127; 0; 0; 1]) 6881; mk_addr (V6 (replicate 16 1)) 80] in
  Forall addr_ok l ∧
  parse_compact_peers_ipv4 (encode_compact_peers_ipv4 l) = Ok (keep_addrs false l) ∧
  encode_compact_peers_ipv4 l = [127; 0; 0; 1; 26; 225].
Proof.
  intros l. assert (Forall addr_ok l) as Hl by (apply (bool_decide_unpack _); vm_compute; exact I).
  split; [exact Hl|]. split; [|by vm_compute].
  exact (proj1 (compact_lists_codec false) l Hl).
Defined.
