(* ===== verification/IpText.v ===== *)
(** Textual IP and socket addresses: [str::parse::<IpAddr>], [str::parse::<SocketAddr>] and
    [Ipv4Addr::to_string] of the standard library, which the tracker response parser, magnet links and
    the session use.

    The parser is the recursive descent of [core::net::parser]: a reader returns the value and the
    bytes that are left, or nothing, and a reader that fails consumes nothing. *)

From stdpp Require Import base numbers list strings.
From Stdlib Require Import ZArith Lia.
From S2P Require Import Prelude Facts Net.

(** [char::to_digit(radix)]. *)
Definition to_digit (radix b : Z) : option Z :=
  let d :=
    if is_ascii_digit b then b - c_0
    else if in_range 97 122 b then b - 97 + 10
    else if in_range 65 90 b then b - 65 + 10
    else radix in
  if d <? radix then Some d else None.

(** The digits of [read_number]: at most [max] of them, one more is a failure. *)
Fixpoint read_digits (radix : Z) (max : nat) (acc : Z) (count : nat) (l : bytes) {struct l}
    : option (Z * nat * bytes) :=
  match l with
  | b :: l' =>
      match to_digit radix b with
      | Some d =>
          match max with
          | O => None
          | S max' => read_digits radix max' (acc * radix + d) (S count) l'
          end
      | None => Some (acc, count, l)
      end
  | [] => Some (acc, count, l)
  end.

Definition read_number (radix hi : Z) (max : nat) (allow_zero_prefix : bool) (l : bytes)
    : option (Z * bytes) :=
  let has_leading_zero := bool_decide (head l = Some c_0) in
  match read_digits radix max 0 0 l with
  | Some (n, count, rest) =>
      if (count =? 0)%nat then None
      else if negb allow_zero_prefix && has_leading_zero && (1 <? count)%nat then None
      else if n <=? hi then Some (n, rest) else None
  | None => None
  end.

Definition read_given_char (c : Z) (l : bytes) : option bytes :=
  match l with
  | b :: l' => if b =? c then Some l' else None
  | [] => None
  end.

(** [read_separator]: the separator comes before every element but the first. *)
Definition read_separator {A} (sep : Z) (index : nat) (inner : bytes → option (A * bytes))
    (l : bytes) : option (A * bytes) :=
  if (0 <? index)%nat then
    match read_given_char sep l with
    | Some l' => inner l'
    | None => None
    end
  else inner l.

Definition c_dot : Z := 46.

(** [read_ipv4_addr]: four groups [i], [i + 1], ... of at most three digits. *)
Fixpoint read_octets (todo i : nat) (l : bytes) : option (bytes * bytes) :=
  match todo with
  | O => Some ([], l)
  | S todo' =>
      match read_separator c_dot i (read_number 10 255 3 false) l with
      | Some (n, l') =>
          match read_octets todo' (S i) l' with
          | Some (ns, l'') => Some (n :: ns, l'')
          | None => None
          end
      | None => None
      end
  end.

Definition read_ipv4_addr (l : bytes) : option (bytes * bytes) := read_octets 4 0 l.

(** [read_groups]: up to [limit] 16-bit groups, the last two of which may be an IPv4 address. The
    result is the bytes of the groups, whether they end in an IPv4 address, and what is left. *)
Fixpoint read_groups (todo i : nat) (l : bytes) : bytes * bool * bytes :=
  match todo with
  | O => ([], false, l)
  | S todo' =>
      let hex :=
        match read_separator c_colon i (read_number 16 65535 4 true) l with
        | Some (g, l') =>
            let '(gs, v4, l'') := read_groups todo' (S i) l' in (be_bytes 2 g ++ gs, v4, l'')
        | None => ([], false, l)
        end in
      match todo' with
      | O => hex
      | S _ =>
          match read_separator c_colon i read_ipv4_addr l with
          | Some (o, l') => (o, true, l')
          | None => hex
          end
      end
  end.

Definition read_ipv6_addr (l : bytes) : option (bytes * bytes) :=
  let '(hd, head_ipv4, l1) := read_groups 8 0 l in
  if (length hd =? 16)%nat then Some (hd, l1)
  else if head_ipv4 then None
  else
    match read_given_char c_colon l1 with
    | Some l2 =>
        match read_given_char c_colon l2 with
        | Some l3 =>
            let '(tl, _, l4) := read_groups (8 - (length hd / 2 + 1)) 0 l3 in
            Some (hd ++ replicate (16 - length hd - length tl) 0 ++ tl, l4)
        | None => None
        end
    | None => None
    end.

(** [IpAddr::from_str]: the whole string is one address. *)
Definition parse_ip (l : bytes) : option IpAddr :=
  match
    match read_ipv4_addr l with
    | Some (o, rest) => Some (V4 o, rest)
    | None =>
        match read_ipv6_addr l with
        | Some (o, rest) => Some (V6 o, rest)
        | None => None
        end
    end
  with
  | Some (a, []) => Some a
  | _ => None
  end.

(** [Ipv4Addr::to_string]. *)
Definition ipv4_to_string (o : bytes) : bytes :=
  match map u64_to_string o with
  | [a; b; c; d] => a ++ [c_dot] ++ b ++ [c_dot] ++ c ++ [c_dot] ++ d
  | _ => []
  end.

(** [{:x}] of a [u16]. *)
Fixpoint hex_digits (fuel : nat) (n : Z) (acc : bytes) : bytes :=
  match fuel with
  | O => acc
  | S f =>
      let d := n mod 16 in
      let acc' := (if d <? 10 then c_0 + d else 87 + d) :: acc in
      if n <? 16 then acc' else hex_digits f (n / 16) acc'
  end.

(** The segments of an address. *)
Fixpoint segments (o : bytes) : list Z :=
  match o with
  | a :: b :: o' => a * 256 + b :: segments o'
  | _ => []
  end.

(** The loop for the longest run of zero segments: index, current run and longest run, as start and
    length. *)
Fixpoint longest_zeros (i : nat) (segs : list Z) (current longest : nat * nat) : nat * nat :=
  match segs with
  | [] => longest
  | s :: segs' =>
      if s =? 0 then
        let current := (if (current.2 =? 0)%nat then i else current.1, S current.2) in
        longest_zeros (S i) segs' current (if (longest.2 <? current.2)%nat then current else longest)
      else longest_zeros (S i) segs' (0, 0)%nat longest
  end.

Fixpoint fmt_subslice (segs : list Z) : bytes :=
  match segs with
  | [] => []
  | [s] => hex_digits 4 s []
  | s :: segs' => hex_digits 4 s [] ++ [c_colon] ++ fmt_subslice segs'
  end.

(** [Ipv6Addr::to_string]. *)
Definition ipv6_to_string (o : bytes) : bytes :=
  if bool_decide (take 12 o = replicate 10 0 ++ [255; 255]) then bs "::ffff:" ++ ipv4_to_string (drop 12 o)
  else
    let segs := segments o in
    let '(start, len) := longest_zeros 0 segs (0, 0)%nat (0, 0)%nat in
    if (1 <? len)%nat then fmt_subslice (take start segs) ++ bs "::" ++ fmt_subslice (drop (start + len) segs)
    else fmt_subslice segs.

(** [IpAddr::to_string]. *)
Definition ip_to_string (a : IpAddr) : bytes :=
  match a with V4 o => ipv4_to_string o | V6 o => ipv6_to_string o end.

Example ip_to_string_examples :
  map ip_to_string [V4 [127; 0; 0; 1]; V6 (replicate 15 0 ++ [1]); V6 (replicate 16 0);
    V6 (replicate 10 0 ++ [255; 255; 1; 2; 3; 4]); V6 ([32; 1; 13; 184] ++ replicate 8 0 ++ [0; 1; 0; 0]);
    V6 [0; 1; 0; 0; 0; 1; 0; 0; 0; 1; 0; 0; 0; 1; 171; 205]] =
  map bs ["127.0.0.1"; "::1"; "::"; "::ffff:1.2.3.4"; "2001:db8::1:0"; "1:0:1:0:1:0:1:abcd"].
Proof. vm_compute. reflexivity. Qed.

Example parse_ip_examples :
  map (λ s, parse_ip (bs s)) ["127.0.0.1"; "::1"; "1:2::"; "::ffff:1.2.3.4"; "01.2.3.4"; "1.2.3"; "256.1.1.1"; "x"] =
  [Some (V4 [127; 0; 0; 1]); Some (V6 (replicate 15 0 ++ [1]));
   Some (V6 ([0; 1; 0; 2] ++ replicate 12 0));
   Some (V6 (replicate 10 0 ++ [255; 255; 1; 2; 3; 4])); None; None; None; None].
Proof. vm_compute. reflexivity. Qed.

(** * Facts *)

Lemma to_digit_dot radix : radix ≤ 36 → to_digit radix c_dot = None.
Proof. intros. unfold to_digit. cbn. by rewrite (proj2 (Z.ltb_ge _ _)) by lia. Qed.

Lemma read_digits_octet n rest :
  0 ≤ n ≤ 255 → match rest with [] => True | b :: _ => to_digit 10 b = None end →
  read_number 10 255 3 false (u64_to_string n ++ rest) = Some (n, rest).
Proof.
  intros Hn Hr.
  assert (∃ k, n = Z.of_nat k ∧ (k < 256)%nat) as (k & -> & Hk) by (exists (Z.to_nat n); lia).
  destruct rest as [|b rest].
  - clear Hr. rewrite app_nil_r. clear Hn.
    assert (Forall (λ k, read_number 10 255 3 false (u64_to_string (Z.of_nat k)) = Some (Z.of_nat k, []))
              (seq 0 256)) as HF by (apply (bool_decide_unpack _); vm_compute; exact I).
    rewrite Forall_forall in HF. apply HF, elem_of_seq. lia.
  - assert (Forall (λ k, ∃ ds, u64_to_string (Z.of_nat k) = ds ∧ (length ds ≤ 3)%nat ∧
        read_digits 10 3 0 0 ds = Some (Z.of_nat k, length ds, []) ∧
        negb false && bool_decide (head ds = Some c_0) && (1 <? length ds)%nat = false ∧ ds ≠ [])
      (seq 0 256)) as HF.
    { apply Forall_seq. intros j Hj. eexists. split; [done|].
      assert (Forall (λ j, (length (u64_to_string (Z.of_nat j)) ≤ 3)%nat ∧
        read_digits 10 3 0 0 (u64_to_string (Z.of_nat j)) =
          Some (Z.of_nat j, length (u64_to_string (Z.of_nat j)), []) ∧
        negb false && bool_decide (head (u64_to_string (Z.of_nat j)) = Some c_0) &&
          (1 <? length (u64_to_string (Z.of_nat j)))%nat = false ∧
        u64_to_string (Z.of_nat j) ≠ []) (seq 0 256)) as HF
        by (apply (bool_decide_unpack _); vm_compute; exact I).
      rewrite Forall_seq in HF. by apply HF. }
    rewrite Forall_seq in HF. destruct (HF k) as (ds & -> & Hlen & Hd & Hz & Hne); [lia|].
    assert (∀ m acc cnt l n' c', read_digits 10 m acc cnt l = Some (n', c', []) →
        read_digits 10 m acc cnt (l ++ b :: rest) = Some (n', c', b :: rest)) as Happ.
    { intros m acc cnt l. revert m acc cnt. induction l as [|x l IH]; intros m acc cnt n' c' H.
      - cbn [read_digits app] in *. rewrite Hr. by injection H as -> ->.
      - cbn [read_digits app] in *. destruct (to_digit 10 x); [|done].
        destruct m; [done|]. by apply IH. }
    unfold read_number. rewrite (Happ _ _ _ _ _ _ Hd).
    assert (head (ds ++ b :: rest) = head ds) as -> by by destruct ds.
    rewrite Hz. destruct (Nat.eqb_spec (length ds) 0); [by destruct ds|].
    by rewrite (proj2 (Z.leb_le _ _)) by lia.
Qed.

(** The text of an IPv4 address parses back to it. *)
Lemma parse_ip_to_string o :
  length o = 4%nat → bytes_ok o → parse_ip (ipv4_to_string o) = Some (V4 o).
Proof.
  intros Hl Ho. destruct o as [|a [|b [|c [|d [|]]]]]; try done. clear Hl.
  repeat (apply Forall_cons in Ho as [? Ho]). unfold parse_ip, ipv4_to_string, read_ipv4_addr.
  cbn [map read_octets]. unfold read_separator. cbn [Nat.ltb Nat.leb app].
  rewrite read_digits_octet by done. cbn [read_given_char Z.eqb Pos.eqb c_dot].
  do 2 (rewrite read_digits_octet by done; cbn [read_given_char Z.eqb Pos.eqb c_dot]).
  rewrite <- (app_nil_r (u64_to_string d)). by rewrite read_digits_octet.
Qed.

Lemma length_read_octets todo i l o rest :
  read_octets todo i l = Some (o, rest) → length o = todo ∧ bytes_ok o.
Proof.
  revert i l o. induction todo as [|todo IH]; intros i l o H; cbn [read_octets] in H.
  - injection H as <- _. by split; [|constructor].
  - destruct (read_separator _ _ _ _) as [[n l']|] eqn:Hs; [|done].
    destruct (read_octets todo (S i) l') as [[ns l'']|] eqn:Ho; [|done]. injection H as <- <-.
    destruct (IH _ _ _ Ho) as [<- ?]. split; [done|]. constructor; [|done].
    assert (∃ l, read_number 10 255 3 false l = Some (n, l')) as [k Hk].
    { unfold read_separator in Hs. destruct (0 <? i)%nat; [destruct (read_given_char _ _)|]; eauto; done. }
    unfold read_number in Hk. destruct (read_digits 10 3 0 0 k) as [[[m cnt] r]|] eqn:Hd; [|done].
    assert (∀ mx acc c l m c' r, 0 ≤ acc → read_digits 10 mx acc c l = Some (m, c', r) → 0 ≤ m) as Hpos.
    { clear. intros mx acc c l. revert mx acc c. induction l as [|x l IH]; intros mx acc c m c' r Ha H;
        cbn [read_digits] in H; [by injection H as <- _ _|].
      destruct (to_digit 10 x) as [d|] eqn:Hd; [|by injection H as <- _ _].
      destruct mx; [done|]. eapply IH; [|exact H]. unfold to_digit in Hd.
      revert Hd. unfold is_ascii_digit, in_range. repeat case_bool; cbn [andb]; intros [=]; lia. }
    apply Hpos in Hd; [|lia].
    destruct (cnt =? 0)%nat; [done|]. destruct (_ && _ && _); [done|].
    destruct (Z.leb_spec m 255); [|done]. injection Hk as -> _. split; lia.
Qed.

(** A printed address has digits, lower case letters up to [f], colons and dots. *)
Definition ip_char (b : Z) : Prop := 48 ≤ b ≤ 58 ∨ 97 ≤ b ≤ 102 ∨ b = c_dot.

#[global] Instance ip_char_dec b : Decision (ip_char b).
Proof. unfold ip_char. apply _. Defined.

Lemma hex_digits_chars fuel n acc : Forall ip_char acc → Forall ip_char (hex_digits fuel n acc).
Proof.
  revert n acc. induction fuel as [|f IH]; intros n acc Ha; [done|]. cbn [hex_digits].
  assert (Forall ip_char ((if n mod 16 <? 10 then c_0 + n mod 16 else 87 + n mod 16) :: acc)).
  { constructor; [|done]. unfold ip_char. pose proof (Z.mod_pos_bound n 16 ltac:(lia)). destruct (Z.ltb_spec (n mod 16) 10); lia. }
  destruct (n <? 16); auto.
Qed.

Lemma dec_digits_chars fuel n acc : Forall ip_char acc → Forall ip_char (dec_digits fuel n acc).
Proof.
  revert n acc. induction fuel as [|f IH]; intros n acc Ha; [done|]. cbn [dec_digits].
  assert (Forall ip_char ((c_0 + n mod 10) :: acc)).
  { constructor; [|done]. unfold ip_char. pose proof (Z.mod_pos_bound n 10 ltac:(lia)). lia. }
  destruct (n <? 10); auto.
Qed.

Lemma ipv4_chars o : Forall ip_char (ipv4_to_string o).
Proof.
  unfold ipv4_to_string. assert (∀ n, Forall ip_char (u64_to_string n)) by (intros; by apply dec_digits_chars).
  assert (ip_char c_dot) by (right; by right).
  destruct o as [|? [|? [|? [|? [|? o]]]]]; cbn [map]; try by apply List.Forall_nil.
  repeat (first [apply List.Forall_app; split | constructor]; auto).
Qed.

Lemma fmt_subslice_chars segs : Forall ip_char (fmt_subslice segs).
Proof.
  assert (ip_char c_colon) by (left; lia).
  induction segs as [|s [|s' segs] IH]; cbn [fmt_subslice]; [constructor|by apply hex_digits_chars|].
  apply List.Forall_app. split; [by apply hex_digits_chars|]. apply List.Forall_app. split; [|exact IH].
  apply List.Forall_cons; [done|apply List.Forall_nil].
Qed.

Lemma ip_to_string_chars a : Forall ip_char (ip_to_string a).
Proof.
  destruct a as [o|o]; cbn [ip_to_string]; [apply ipv4_chars|]. unfold ipv6_to_string.
  assert (ip_char c_colon) by (left; lia).
  destruct (bool_decide _).
  - apply List.Forall_app. split; [|apply ipv4_chars]. by apply (bool_decide_unpack _).
  - destruct (longest_zeros _ _ _ _) as [start len]. destruct (1 <? len)%nat; [|apply fmt_subslice_chars].
    apply List.Forall_app. split; [apply fmt_subslice_chars|].
    apply List.Forall_app. split; [|apply fmt_subslice_chars]. by apply (bool_decide_unpack _).
Qed.

(** [SocketAddr::from_str]: [a.b.c.d:port] or [[address]:port], where a scope may follow the IPv6
    address; the model's addresses have no scope. *)
Definition read_port (l : bytes) : option (Z * bytes) :=
  match read_given_char c_colon l with Some l' => read_number 10 65535 (length l') true l' | None => None end.

Definition read_scope_id (l : bytes) : bytes :=
  match read_given_char 37 l with
  | Some l' => match read_number 10 4294967295 (length l') true l' with Some (_, l'') => l'' | None => l end
  | None => l
  end.

Definition parse_socket_addr (l : bytes) : option SocketAddr :=
  let v4 := match read_ipv4_addr l with
            | Some (o, l1) => match read_port l1 with Some (p, l2) => Some (mk_addr (V4 o) p, l2) | None => None end
            | None => None
            end in
  let v6 := match read_given_char 91 l with
            | Some l0 =>
                match read_ipv6_addr l0 with
                | Some (o, l1) =>
                    match read_given_char 93 (read_scope_id l1) with
                    | Some l2 => match read_port l2 with Some (p, l3) => Some (mk_addr (V6 o) p, l3) | None => None end
                    | None => None
                    end
                | None => None
                end
            | None => None
            end in
  match match v4 with Some r => Some r | None => v6 end with
  | Some (a, []) => Some a
  | _ => None
  end.

Example socket_addrs :
  map parse_socket_addr [bs "10.0.0.1:6881"; bs "[::1%4]:80"; bs "10.0.0.1:65536"; bs "::1:80"; bs "10.0.0.1:80x"]
  = [Some (mk_addr (V4 [10; 0; 0; 1]) 6881); Some (mk_addr (V6 (replicate 15 0 ++ [1])) 80); None; None; None].
Proof. vm_compute. reflexivity. Qed.
