(* ===== verification/Tracker.v ===== *)
(** Tracker announce data types and the parser of HTTP tracker responses:
    [crates/torrent-core/src/tracker/mod.rs]. The compact peer lists of that file are in
    [Compact]. *)

From stdpp Require Import base numbers list strings.
From Stdlib Require Import ZArith Lia.
From S2P Require Import Prelude Facts Error Bencode BencodeFacts Net Compact IpText.

(** [enum AnnounceEvent]. *)
Inductive AnnounceEvent : Type :=
| Started
| Stopped
| Completed
| NoEvent.

#[global] Instance AnnounceEvent_eq_dec : EqDecision AnnounceEvent.
Proof. solve_decision. Defined.

(** [struct AnnounceRequest]. *)
Record AnnounceRequest : Type := {
  req_info_hash : bytes;
  req_peer_id : bytes;
  req_port : Z;
  uploaded : Z;
  downloaded : Z;
  left_bytes : Z;
  event : AnnounceEvent;
  compact : bool;
  numwant : option Z;
  key : option Z;
  trackerid : option bytes;
  req_ip : option bytes;
  req_ipv6 : option bytes;
}.

Definition request_new (info_hash peer_id : bytes) (port : Z) : AnnounceRequest :=
  {| req_info_hash := info_hash; req_peer_id := peer_id; req_port := port;
     uploaded := 0; downloaded := 0; left_bytes := 0; event := NoEvent; compact := true;
     numwant := Some 50; key := None; trackerid := None; req_ip := None; req_ipv6 := None |}.

(** [struct AnnounceResponse]. *)
Record AnnounceResponse : Type := {
  interval : Z;
  complete : Z;
  incomplete : Z;
  peers : list SocketAddr;
  warning_message : option bytes;
  tracker_id : option bytes;
  min_interval : option Z;
}.

(** [dict_get(..).and_then(|v| match v { Bytes(b) => String::from_utf8(..).ok(), _ => None })]. *)
Definition dict_get_utf8 (val : Bencode) (k : bytes) : option bytes :=
  match dict_get val k with
  | Some (BBytes b) => from_utf8 b
  | _ => None
  end.

Definition dict_get_u32 (val : Bencode) (k : bytes) : option Z :=
  match dict_get_int val k with
  | Some v => try_unsigned u32_max v
  | None => None
  end.

(** One entry of the list-of-dict format. *)
Definition parse_peer_dict (peer : Bencode) : list SocketAddr :=
  let ip_str := default [] (dict_get_utf8 peer (bs "ip")) in
  let port := as_u16 (default 0 (dict_get_int peer (bs "port"))) in
  match parse_ip ip_str with
  | Some a => [mk_addr a port]
  | None =>
      match dict_get peer (bs "ip") with
      | Some (BBytes b) => if (length b =? 4)%nat then [mk_addr (V4 b) port] else []
      | _ => []
      end
  end.

Definition nonempty_bytes (o : option bytes) : option bytes :=
  match o with
  | Some [] => None
  | _ => o
  end.

Definition parse_peers (val : Bencode) : result (list SocketAddr) :=
  match nonempty_bytes (dict_get_bytes val (bs "peers")) with
  | Some b => parse_compact_peers_ipv4 b
  | None =>
      match nonempty_bytes (dict_get_bytes val (bs "peers6")) with
      | Some b =>
          let peers := map addr6_of_chunk (chunks_exact 18 b) in
          let! _ := guard_err (negb (bool_decide (chunks_remainder 18 b = [])))
                      TrackerInvalidResponse in
          Ok peers
      | None =>
          match dict_get val (bs "peers") with
          | Some (BList peer_list) => Ok (concat (map parse_peer_dict peer_list))
          | _ => Ok []
          end
      end
  end.

Definition response_of_bencode (val : Bencode) : result AnnounceResponse :=
  let! interval_i64 := ok_or (dict_get_int val (bs "interval")) TrackerInvalidResponse in
  let! interval := ok_or (try_unsigned u32_max interval_i64) TrackerInvalidResponse in
  let complete := default 0 (dict_get_u32 val (bs "complete")) in
  let incomplete := default 0 (dict_get_u32 val (bs "incomplete")) in
  let warning_message := dict_get_utf8 val (bs "warning message") in
  let tracker_id := dict_get_utf8 val (bs "tracker id") in
  let min_interval := dict_get_u32 val (bs "min interval") in
  let! peers := parse_peers val in
  Ok {| interval := interval; complete := complete; incomplete := incomplete; peers := peers;
        warning_message := warning_message; tracker_id := tracker_id;
        min_interval := min_interval |}.

(** [AnnounceResponse::from_bencode]. *)
Definition response_from_bencode (data : bytes) : result AnnounceResponse :=
  let! (val, _) := decode data in
  response_of_bencode val.

Definition response_from_udp_fields (interval complete incomplete : Z) (peers : list SocketAddr)
    : AnnounceResponse :=
  {| interval := interval; complete := complete; incomplete := incomplete; peers := peers;
     warning_message := None; tracker_id := None; min_interval := None |}.

(** * Facts *)

Lemma dict_get_utf8_normalize v k :
  bencode_wf v → dict_get_utf8 (normalize v) k = dict_get_utf8 v k.
Proof.
  intros Hwf. unfold dict_get_utf8. rewrite dict_get_normalize by done.
  by destruct (dict_get v k) as [[]|].
Qed.

Lemma dict_get_u32_normalize v k :
  bencode_wf v → dict_get_u32 (normalize v) k = dict_get_u32 v k.
Proof. intros Hwf. unfold dict_get_u32. by rewrite dict_get_int_normalize. Qed.

Lemma parse_peer_dict_normalize p :
  bencode_wf p → parse_peer_dict (normalize p) = parse_peer_dict p.
Proof.
  intros Hwf. unfold parse_peer_dict.
  rewrite dict_get_utf8_normalize, dict_get_int_normalize, dict_get_normalize by done.
  by destruct (dict_get p (bs "ip")) as [[]|].
Qed.

Lemma parse_peers_normalize v : bencode_wf v → parse_peers (normalize v) = parse_peers v.
Proof.
  intros Hwf. unfold parse_peers. rewrite !dict_get_bytes_normalize, dict_get_normalize by done.
  destruct (nonempty_bytes _); [done|]. destruct (nonempty_bytes _); [done|].
  destruct (dict_get v (bs "peers")) as [[| |l|]|] eqn:Hp; try done. cbn [fmap option_fmap option_map normalize].
  apply dict_get_wf in Hp; [|done]. inversion Hp as [| |? HF|]; subst.
  do 2 f_equal. rewrite map_map. apply map_ext_in. intros p Hin.
  apply parse_peer_dict_normalize. rewrite Forall_forall in HF. by apply HF, list_elem_of_In.
Qed.

(** The order of the keys on the wire does not matter to the parser. *)
Lemma response_of_encoded v rest :
  bencode_wf v → response_from_bencode (encode v ++ rest) = response_of_bencode v.
Proof.
  intros Hwf. unfold response_from_bencode. rewrite decode_encode by done. cbn [obind].
  unfold response_of_bencode.
  by rewrite dict_get_int_normalize, !dict_get_u32_normalize, !dict_get_utf8_normalize,
    parse_peers_normalize by done.
Qed.

(** The dictionary of one peer in the list-of-dict format, with its address as text. *)
Definition peer_dict (a : SocketAddr) : Bencode :=
  BDict [(bs "ip", BBytes (ipv4_to_string (octets (ip a)))); (bs "port", BInteger (port a))].

Lemma u64_to_string_ascii n : 0 ≤ n < 10 ^ 20 → Forall (λ b, 0 ≤ b ≤ 127) (u64_to_string n).
Proof.
  intros Hn. destruct (u64_to_string_spec n Hn) as (d & ds & -> & Hd & _).
  apply List.Forall_forall. intros x Hx. rewrite forallb_forall in Hd.
  apply Hd, is_ascii_digit_spec in Hx. lia.
Qed.

Lemma ipv4_to_string_utf8 o : bytes_ok o → utf8_valid (ipv4_to_string o) = true.
Proof.
  intros Ho. apply utf8_valid_ascii. unfold ipv4_to_string.
  destruct o as [|a [|b [|c [|d [|]]]]]; try (constructor; fail). cbn [map].
  repeat (apply Forall_cons in Ho as [? Ho]). unfold in_u8 in *.
  repeat (apply Forall_app; split); try (apply u64_to_string_ascii; lia);
    by repeat constructor.
Qed.

Lemma parse_peer_dict_ok a : of_family false a → parse_peer_dict (peer_dict a) = [a].
Proof.
  intros [[[Ho Hl] Hp] Hf]. unfold parse_peer_dict, peer_dict, dict_get_utf8, dict_get_int.
  rewrite dict_get_cons, bool_decide_eq_true_2 by done.
  rewrite from_utf8_valid by by apply ipv4_to_string_utf8. cbn [from_option id].
  destruct a as [[o|o] p]; [|done]. cbn [octets ip port] in *.
  rewrite parse_ip_to_string by done. rewrite !dict_get_cons.
  rewrite bool_decide_eq_false_2 by done. rewrite bool_decide_eq_true_2 by done.
  cbn [from_option id]. unfold as_u16. do 2 f_equal. apply Z.mod_small. unfold in_u16 in Hp. lia.
Qed.

Lemma encode_peers_nonempty l a :
  of_family false a → encode_compact_peers_ipv4 (a :: l) ≠ [].
Proof.
  intros Ha. rewrite (encode_peers_eq false). unfold keep_addrs.
  rewrite filter_cons_True by apply Ha. cbn [map concat]. intros H.
  apply app_eq_nil in H as [H _]. pose proof (addr_put_length false a Ha) as Hl.
  cbn [fc_put addr_codec] in H. rewrite H in Hl. done.
Qed.

Lemma keep_addrs_all v6 l : Forall (of_family v6) l → keep_addrs v6 l = l.
Proof.
  intros Hl. induction Hl as [|a l [_ Ha] _ IH]; [done|]. unfold keep_addrs.
  rewrite filter_cons_True by done. by f_equal.
Qed.

(** The ways a tracker lists IPv4 peers: a compact list, or dictionaries. A non-empty compact list
    is used whatever [peers6] holds. *)
Inductive lists_peers (v : Bencode) (l : list SocketAddr) : Prop :=
| lists_compact :
    l ≠ [] → dict_get v (bs "peers") = Some (BBytes (encode_compact_peers_ipv4 l)) →
    lists_peers v l
| lists_compact_empty :
    l = [] → dict_get v (bs "peers") = Some (BBytes []) →
    nonempty_bytes (dict_get_bytes v (bs "peers6")) = None → lists_peers v l
| lists_dicts :
    dict_get v (bs "peers") = Some (BList (map peer_dict l)) →
    nonempty_bytes (dict_get_bytes v (bs "peers6")) = None → lists_peers v l.

Lemma parse_peers_formats v l :
  Forall (of_family false) l → lists_peers v l → parse_peers v = Ok l.
Proof.
  intros Hl [Hne Hp| -> Hp H6|Hp H6]; unfold parse_peers; rewrite ?H6;
    unfold dict_get_bytes; rewrite Hp.
  - destruct l as [|a l]; [done|].
    pose proof (encode_peers_nonempty l a (Forall_inv Hl)) as Hn.
    assert (nonempty_bytes (Some (encode_compact_peers_ipv4 (a :: l))) =
            Some (encode_compact_peers_ipv4 (a :: l))) as ->
      by (revert Hn; by destruct (encode_compact_peers_ipv4 (a :: l))).
    rewrite (parse_encode_peers false); [by rewrite keep_addrs_all|].
    eapply Forall_impl; [exact Hl|]. by intros ? [].
  - done.
  - cbn [nonempty_bytes]. f_equal. rewrite map_map. clear Hp.
    induction Hl as [|a l Ha _ IH]; [done|]. cbn [map concat]. by rewrite parse_peer_dict_ok, IH.
Qed.

(** A tracker response that lists IPv4 peers, in the compact or in the list-of-dict format,
    with any other keys in any order and any trailing bytes, parses to exactly those peers and to
    the interval it states; the peer lists of the two formats are therefore interchangeable. The
    non-empty compact list wins over [peers6], whose peers are dropped. A response without an
    interval in [u32] is refused. *)
Theorem announce_response_formats : ∀ v rest l i,
  bencode_wf v → dict_get_int v (bs "interval") = Some i →
  Forall (of_family false) l → lists_peers v l →
  (in_u32 i → ∃ r, response_from_bencode (encode v ++ rest) = Ok r ∧
     interval r = i ∧ peers r = l ∧ complete r = default 0 (dict_get_u32 v (bs "complete")) ∧
     incomplete r = default 0 (dict_get_u32 v (bs "incomplete"))) ∧
  (¬ in_u32 i → response_from_bencode (encode v ++ rest) = Err TrackerInvalidResponse).
Proof.
  intros v rest l i Hwf Hi Hl Hp. rewrite response_of_encoded by done.
  unfold response_of_bencode. rewrite Hi. cbn [ok_or obind]. unfold try_unsigned at 1 2. split.
  - intros [H0 H1]. rewrite (proj2 (Z.leb_le _ _) H0), (proj2 (Z.leb_le _ _) H1).
    cbn [andb ok_or obind]. rewrite (parse_peers_formats v l) by done. cbn [obind].
    by eexists.
  - intros Hn. destruct (_ && _) eqn:G; [|done]. exfalso. apply Hn.
    by apply andb_true_iff in G as [?%Z.leb_le ?%Z.leb_le].
Qed.

Definition sample_peers : list SocketAddr :=
  [mk_addr (V4 [10; 0; 0; 1]) 6881; mk_addr (V4 [192; 168; 7; 200]) 51413].

Definition sample_response : Bencode :=
  BDict [(bs "peers6", BBytes (replicate 18 7)); (bs "interval", BInteger 1800);
         (bs "peers", BBytes (encode_compact_peers_ipv4 sample_peers))].

Lemma sample_response_wf : bencode_wf sample_response.
Proof. unfold sample_response, short. repeat constructor; apply (bool_decide_unpack _); vm_compute; exact I. Qed.

Lemma announce_response_formats_witness :
  ∃ r, response_from_bencode (encode sample_response ++ []) = Ok r ∧
    interval r = 1800 ∧ peers r = sample_peers ∧
    complete r = default 0 (dict_get_u32 sample_response (bs "complete")) ∧
    incomplete r = default 0 (dict_get_u32 sample_response (bs "incomplete")).
Proof.
  refine (proj1 (announce_response_formats sample_response [] sample_peers 1800
    sample_response_wf _ _ _) _); [done| |by apply lists_compact|done].
  apply (bool_decide_unpack _). vm_compute. exact I.
Defined.
