(* ===== verification/Codec.v ===== *)
(** The interface between the messages that travel as bencode and the bencode codec.

    [BencodeCodec] is what a message type promises: its dictionary is well formed, and reading the
    dictionary back, with its entries in the order of the wire, gives the message, up to the
    normalization [canon] that the message type documents. [receive_encoded] is what the client
    gets from it: sending and receiving a message is the identity up to [canon]. *)

From stdpp Require Import base numbers list strings sorting.
From Stdlib Require Import ZArith Lia.
From S2P Require Import Prelude Facts Error Bencode BencodeFacts.

Class BencodeCodec (A : Type) : Type := {
  to_bencode : A → Bencode;
  from_bencode : Bencode → result A;
  msg_ok : A → Prop;
  canon : A → A;
  to_bencode_wf a : msg_ok a → bencode_wf (to_bencode a);
  from_to_bencode a : msg_ok a → from_bencode (normalize (to_bencode a)) = Ok (canon a);
}.

(** Decode one bencoded value, then read the message out of it; what follows is kept. *)
Definition receive `{BencodeCodec A} (data : bytes) : result (A * bytes) :=
  let! (v, rest) := decode data in
  let! a := from_bencode v in
  Ok (a, rest).

Definition send `{BencodeCodec A} (a : A) : bytes := encode (to_bencode a).

Lemma receive_encoded `{BencodeCodec A} (a : A) rest :
  msg_ok a → receive (send a ++ rest) = Ok (canon a, rest).
Proof.
  intros Ha. unfold receive, send. rewrite decode_encode by by apply to_bencode_wf.
  cbn [obind]. by rewrite from_to_bencode.
Qed.

(** * Dictionaries with optional entries *)

(** [if let Some(v) = o { entries.push((key, v)) }]. *)
Definition opt_entry (key : bytes) (o : option Bencode) : list (bytes * Bencode) :=
  match o with
  | Some v => [(key, v)]
  | None => []
  end.

(** [String::from_utf8(b.to_vec()).ok()] of an optional byte string. *)
Definition opt_utf8 (o : option bytes) : option bytes := o ≫= from_utf8.

Lemma dict_get_nil key : dict_get (BDict []) key = None.
Proof. done. Qed.

Lemma dict_get_app l k key :
  dict_get (BDict (l ++ k)) key =
    match dict_get (BDict l) key with Some v => Some v | None => dict_get (BDict k) key end.
Proof.
  induction l as [|[k' v] l IH]; [done|]. rewrite <- app_comm_cons, !dict_get_cons.
  by case_bool_decide.
Qed.

Lemma dict_get_opt_entry k o key :
  dict_get (BDict (opt_entry k o)) key = if bool_decide (k = key) then o else None.
Proof. destruct o; cbn [opt_entry]; [rewrite dict_get_cons|]; by case_bool_decide. Qed.

Lemma opt_entry_keys k o : map fst (opt_entry k o) `sublist_of` [k].
Proof. destruct o; cbn; [done|apply sublist_nil_l]. Qed.

(** The reader sees the entries of a sorted, normalized dictionary as the writer listed them. *)
Section dict.
Context (entries : list (bytes * Bencode)).
Context (Hwf : bencode_wf (BDict entries)).

Lemma dict_get_sorted key :
  dict_get (normalize (BDict (sort_entries entries))) key = normalize <$> dict_get (BDict entries) key.
Proof.
  rewrite dict_get_normalize by by apply wf_dict_sorted. f_equal. inversion Hwf; subst.
  symmetry. apply dict_get_perm; [done|]. symmetry. apply sort_entries_perm.
Qed.

Lemma dict_get_int_sorted key :
  dict_get_int (normalize (BDict (sort_entries entries))) key = dict_get_int (BDict entries) key.
Proof. unfold dict_get_int. rewrite dict_get_sorted. by destruct (dict_get _ _) as [[]|]. Qed.

Lemma dict_get_bytes_sorted key :
  dict_get_bytes (normalize (BDict (sort_entries entries))) key = dict_get_bytes (BDict entries) key.
Proof. unfold dict_get_bytes. rewrite dict_get_sorted. by destruct (dict_get _ _) as [[]|]. Qed.
End dict.

(** Keys that are pairwise different by computation. *)
Ltac nodup_keys := apply (bool_decide_unpack _); vm_compute; exact I.

Lemma wf_entries entries keys :
  map fst entries `sublist_of` keys → NoDup keys → Forall (λ e, short e.1 ∧ bencode_wf e.2) entries →
  bencode_wf (BDict entries).
Proof.
  intros Hs Hnd HF. constructor; [|done]. by eapply sublist_NoDup.
Qed.

Lemma wf_opt_entry k o :
  short k → (∀ v, o = Some v → bencode_wf v) → Forall (λ e, short e.1 ∧ bencode_wf e.2) (opt_entry k o).
Proof. intros Hk Ho. destruct o; cbn; constructor; [|done]. split; auto. Qed.

Lemma is_dict_normalize v : (∃ l, v = BDict l) → ∃ l, normalize v = BDict l.
Proof. intros [l ->]. eexists. reflexivity. Qed.

(** Closes [short] goals on literals, and lookups of literal keys. *)
Ltac short_lit := apply (bool_decide_unpack _); vm_compute; exact I.

(** A literal list of entries is well formed when its values are. *)
Ltac wf_fields :=
  repeat (apply Forall_cons; split; [split; [cbn [fst]; try short_lit|cbn [snd]]|]);
  [..|apply Forall_nil_2].

Ltac dict_lookup :=
  repeat first
    [ rewrite dict_get_app | rewrite dict_get_opt_entry | rewrite dict_get_cons
    | rewrite dict_get_nil
    | rewrite bool_decide_eq_true_2 by reflexivity
    | rewrite bool_decide_eq_false_2 by (vm_compute; discriminate) ].
