(* ===== verification/Pex.v ===== *)
(** Peer exchange messages (BEP 11): [crates/torrent-core/src/peer/pex.rs]. *)

From stdpp Require Import base numbers list strings sorting.
From Stdlib Require Import ZArith Lia.
From S2P Require Import Prelude Facts Error Bencode BencodeFacts Net Compact Codec.

(** [struct PexMessage]. *)
Record PexMessage : Type := mk_pex {
  added : list SocketAddr;
  dropped : list SocketAddr;
  added6 : list SocketAddr;
  dropped6 : list SocketAddr;
}.

#[global] Instance PexMessage_eq_dec : EqDecision PexMessage.
Proof. solve_decision. Defined.

Definition pex_new : PexMessage := {| added := []; dropped := []; added6 := []; dropped6 := [] |}.

(** An address list is pushed only when it is not empty. *)
Definition peers_entry (encode_peers : list SocketAddr → bytes) (l : list SocketAddr)
    : option Bencode :=
  match l with
  | [] => None
  | _ => Some (BBytes (encode_peers l))
  end.

Definition pex_entries (m : PexMessage) : list (bytes * Bencode) :=
  opt_entry (bs "added") (peers_entry encode_compact_peers_ipv4 (added m))
  ++ opt_entry (bs "added6") (peers_entry encode_compact_peers_ipv6 (added6 m))
  ++ opt_entry (bs "dropped") (peers_entry encode_compact_peers_ipv4 (dropped m))
  ++ opt_entry (bs "dropped6") (peers_entry encode_compact_peers_ipv6 (dropped6 m)).

Definition pex_to_bencode (m : PexMessage) : Bencode := BDict (sort_entries (pex_entries m)).

(** [dict_get_bytes(..).and_then(|b| parse(b).ok()).unwrap_or_default()]. *)
Definition peers_field (parse : bytes → result (list SocketAddr)) (o : option bytes)
    : list SocketAddr :=
  match o with
  | Some b => default [] (outcome_ok (parse b))
  | None => []
  end.

Definition pex_from_bencode (val : Bencode) : result PexMessage :=
  match val with
  | BDict _ =>
      Ok {| added := peers_field parse_compact_peers_ipv4 (dict_get_bytes val (bs "added"));
            dropped := peers_field parse_compact_peers_ipv4 (dict_get_bytes val (bs "dropped"));
            added6 := peers_field parse_compact_peers_ipv6 (dict_get_bytes val (bs "added6"));
            dropped6 := peers_field parse_compact_peers_ipv6 (dict_get_bytes val (bs "dropped6")) |}
  | _ => Err PeerInvalidPexMessage
  end.

(** * The codec *)

Definition addrs_ok (l : list SocketAddr) : Prop := Forall addr_ok l ∧ zlen l * 18 ≤ i64_max.

Definition pex_ok (m : PexMessage) : Prop :=
  addrs_ok (added m) ∧ addrs_ok (dropped m) ∧ addrs_ok (added6 m) ∧ addrs_ok (dropped6 m).

(** The families that do not belong in a field are not written. *)
Definition pex_canon (m : PexMessage) : PexMessage :=
  {| added := keep_addrs false (added m); dropped := keep_addrs false (dropped m);
     added6 := keep_addrs true (added6 m); dropped6 := keep_addrs true (dropped6 m) |}.

Lemma encode_peers_short (v6 : bool) l :
  addrs_ok l →
  short ((if v6 then encode_compact_peers_ipv6 else encode_compact_peers_ipv4) l).
Proof.
  intros [Hl Hn]. unfold short, zlen in *. rewrite encode_peers_eq.
  rewrite (length_concat_fixed (octet_count v6 + 2)).
  - rewrite length_map. unfold keep_addrs. pose proof (length_filter (λ a, is_v6 a = v6) l).
    destruct v6; cbn [octet_count]; lia.
  - apply Forall_map. eapply Forall_impl; [by apply keep_addrs_of_family|].
    intros a Ha. by apply fc_put_length.
Qed.

Lemma peers_entry_wf (v6 : bool) l v :
  addrs_ok l →
  peers_entry (if v6 then encode_compact_peers_ipv6 else encode_compact_peers_ipv4) l = Some v →
  bencode_wf v.
Proof.
  intros Hl H. unfold peers_entry in H. destruct l as [|a l]; [done|]. injection H as <-.
  constructor. by apply encode_peers_short.
Qed.

Lemma pex_entries_wf m : pex_ok m → bencode_wf (BDict (pex_entries m)).
Proof.
  intros (Ha & Hd & Ha6 & Hd6). unfold pex_entries.
  apply (wf_entries _ [bs "added"; bs "added6"; bs "dropped"; bs "dropped6"]); [|nodup_keys|].
  - rewrite !map_app. change [bs "added"; bs "added6"; bs "dropped"; bs "dropped6"]
      with ([bs "added"] ++ [bs "added6"] ++ [bs "dropped"] ++ [bs "dropped6"]).
    repeat apply sublist_app; apply opt_entry_keys.
  - rewrite !Forall_app. split_and!; apply wf_opt_entry; try short_lit; intros v Hv.
    + by apply (peers_entry_wf false (added m)).
    + by apply (peers_entry_wf true (added6 m)).
    + by apply (peers_entry_wf false (dropped m)).
    + by apply (peers_entry_wf true (dropped6 m)).
Qed.

Lemma peers_field_ok (v6 : bool) l :
  addrs_ok l →
  peers_field (if v6 then parse_compact_peers_ipv6 else parse_compact_peers_ipv4)
    match peers_entry (if v6 then encode_compact_peers_ipv6 else encode_compact_peers_ipv4) l with
    | Some (BBytes b) => Some b
    | _ => None
    end = keep_addrs v6 l.
Proof.
  intros [Hl _]. destruct l as [|a l]; [done|]. cbn [peers_entry peers_field].
  by rewrite parse_encode_peers.
Qed.

Lemma pex_from_to m :
  pex_ok m → pex_from_bencode (normalize (pex_to_bencode m)) = Ok (pex_canon m).
Proof.
  intros Hm. pose proof (pex_entries_wf m Hm) as Hwf. destruct Hm as (Ha & Hd & Ha6 & Hd6).
  unfold pex_from_bencode, pex_to_bencode.
  rewrite !dict_get_bytes_sorted by done. rewrite normalize_dict. f_equal.
  unfold pex_canon, dict_get_bytes, pex_entries. f_equal; dict_lookup.
  - rewrite <- (peers_field_ok false) by done. by destruct (peers_entry _ _) as [[]|].
  - rewrite <- (peers_field_ok false) by done. by destruct (peers_entry _ _) as [[]|].
  - rewrite <- (peers_field_ok true) by done. by destruct (peers_entry _ _) as [[]|].
  - rewrite <- (peers_field_ok true) by done. by destruct (peers_entry _ _) as [[]|].
Qed.

#[global] Instance pex_codec : BencodeCodec PexMessage.
Proof.
  refine {| to_bencode := pex_to_bencode; from_bencode := pex_from_bencode; msg_ok := pex_ok;
            canon := pex_canon; from_to_bencode := pex_from_to |}.
  intros m Hm. by apply wf_dict_sorted, pex_entries_wf.
Defined.
