(* ===== verification/Extension.v ===== *)
(** Extension negotiation (BEP 10): [crates/torrent-core/src/peer/extension.rs]. *)

From stdpp Require Import base numbers list gmap strings sorting.
From Stdlib Require Import ZArith Lia.
From S2P Require Import Prelude Facts Error Bencode BencodeFacts Net Compact Codec Pex.

(** [struct ExtensionNegotiation]: strings are UTF-8 byte strings. *)
Record ExtensionNegotiation : Type := mk_negotiation {
  m : gmap bytes Z;
  v : option bytes;
  yourip : option bytes;
  metadata_size : option Z;
  reqq : option Z;
}.

Definition negotiation_new : ExtensionNegotiation :=
  {| m := ∅; v := None; yourip := None; metadata_size := None; reqq := None |}.

(** The [debug_assert!] panics on an identifier of zero. *)
Definition add_extension (n : ExtensionNegotiation) (name : bytes) (id : Z)
    : result ExtensionNegotiation :=
  if id =? 0 then Panic
  else Ok {| m := <[name:=id]> (m n); v := v n; yourip := yourip n;
             metadata_size := metadata_size n; reqq := reqq n |}.

(** The map is iterated in an arbitrary order and then sorted. *)
Definition m_entries (ids : gmap bytes Z) : list (bytes * Bencode) :=
  sort_entries (map (fun '(name, id) => (name, BInteger id)) (map_to_list ids)).

Definition negotiation_entries (n : ExtensionNegotiation) : list (bytes * Bencode) :=
  [(bs "m", BDict (m_entries (m n)))]
  ++ opt_entry (bs "v") (BBytes <$> v n)
  ++ opt_entry (bs "yourip") (BBytes <$> yourip n)
  ++ opt_entry (bs "metadata_size") (BInteger <$> metadata_size n)
  ++ opt_entry (bs "reqq") (BInteger <$> reqq n).

Definition negotiation_to_bencode (n : ExtensionNegotiation) : Bencode :=
  BDict (sort_entries (negotiation_entries n)).

(** The loop over the [m] dictionary. *)
Fixpoint read_ids (entries : list (bytes * Bencode)) (acc : gmap bytes Z)
    : result (gmap bytes Z) :=
  match entries with
  | [] => Ok acc
  | (key, value) :: entries' =>
      let! name := ok_or (from_utf8 key) PeerInvalidExtendedMessage in
      let! id :=
        match value with
        | BInteger i => ok_or (try_unsigned u8_max i) PeerInvalidExtendedMessage
        | _ => Err PeerInvalidExtendedMessage
        end in
      if id =? 0 then read_ids entries' acc else read_ids entries' (<[name:=id]> acc)
  end.

Definition negotiation_from_bencode (val : Bencode) : result ExtensionNegotiation :=
  match val with
  | BDict _ =>
      let! ids :=
        match dict_get val (bs "m") with
        | Some (BDict entries) => read_ids entries ∅
        | _ => Err PeerInvalidExtendedMessage
        end in
      Ok {| m := ids;
            v := opt_utf8 (dict_get_bytes val (bs "v"));
            yourip := opt_utf8 (dict_get_bytes val (bs "yourip"));
            metadata_size := dict_get_int val (bs "metadata_size");
            reqq := dict_get_int val (bs "reqq") |}
  | _ => Err PeerInvalidExtendedMessage
  end.

(** * The codec *)

Definition string_ok (s : bytes) : Prop := short s ∧ utf8_valid s = true.

Definition opt_all {A} (P : A → Prop) (o : option A) : Prop := ∀ x, o = Some x → P x.

Definition negotiation_ok (n : ExtensionNegotiation) : Prop :=
  map_Forall (λ name id, string_ok name ∧ in_u8 id) (m n) ∧
  opt_all string_ok (v n) ∧ opt_all string_ok (yourip n) ∧
  opt_all in_i64 (metadata_size n) ∧ opt_all in_i64 (reqq n).

(** An identifier of zero says that the extension is disabled: it is dropped. *)
Definition negotiation_canon (n : ExtensionNegotiation) : ExtensionNegotiation :=
  {| m := filter (λ e, e.2 ≠ 0) (m n); v := v n; yourip := yourip n;
     metadata_size := metadata_size n; reqq := reqq n |}.

Definition id_entry : bytes * Z → bytes * Bencode := fun '(name, id) => (name, BInteger id).

Lemma m_entries_eq ids : m_entries ids = map id_entry (sort_entries (map_to_list ids)).
Proof. apply (sort_entries_map BInteger). Qed.

Lemma m_entries_elem (ids : gmap bytes Z) e :
  e ∈ sort_entries (map_to_list ids) → ids !! e.1 = Some e.2.
Proof.
  intros H. destruct e as [k i]. rewrite sort_entries_perm in H. by apply elem_of_map_to_list in H.
Qed.

Lemma m_keys_NoDup (ids : gmap bytes Z) : NoDup (map fst (sort_entries (map_to_list ids))).
Proof. rewrite sort_entries_perm. apply NoDup_fst_map_to_list. Qed.

Lemma m_entries_wf (ids : gmap bytes Z) :
  map_Forall (λ name id, string_ok name ∧ in_u8 id) ids → bencode_wf (BDict (m_entries ids)).
Proof.
  intros Hids. rewrite m_entries_eq. constructor.
  - rewrite map_map. erewrite map_ext; [apply m_keys_NoDup|]. by intros [].
  - apply Forall_map, Forall_forall. intros [k i] H%m_entries_elem.
    destruct (Hids _ _ H) as [[Hs _] Hi]. split; [done|]. constructor.
    cbn [fst snd] in Hi. unfold in_u8 in Hi. unfold in_i64. lia.
Qed.

Lemma read_ids_ok (kvs : list (bytes * Z)) (acc : gmap bytes Z) :
  NoDup (map fst kvs) → Forall (λ e, string_ok e.1 ∧ in_u8 e.2) kvs →
  read_ids (map id_entry kvs) acc =
    Ok (list_to_map (filter (λ e, e.2 ≠ 0) kvs) ∪ acc).
Proof.
  revert acc. induction kvs as [|[k i] kvs IH]; intros acc Hnd HF; cbn [map read_ids id_entry].
  { f_equal. symmetry. apply (left_id_L ∅ (∪)). }
  apply NoDup_cons in Hnd as [Hk Hnd]. apply Forall_cons in HF as [[[_ Hu] Hi] HF].
  cbn [fst snd] in *. rewrite from_utf8_valid by done. cbn [ok_or obind]. unfold try_unsigned.
  rewrite (proj2 (Z.leb_le 0 i)), (proj2 (Z.leb_le i _)) by (unfold in_u8 in Hi; lia).
  cbn [andb ok_or obind]. rewrite filter_cons. destruct (Z.eqb_spec i 0) as [->|Hne].
  - rewrite decide_False by auto. by apply IH.
  - rewrite decide_True by done. rewrite IH by done. f_equal. cbn [list_to_map foldr].
    rewrite <- insert_union_r, <- insert_union_l; [done|].
    apply not_elem_of_list_to_map_1. intros Hin. apply Hk.
    apply list_elem_of_fmap in Hin as (e & -> & He). apply list_elem_of_filter in He as [_ He].
    by apply (list_elem_of_fmap_2 fst).
Qed.

Lemma read_ids_m (ids : gmap bytes Z) :
  map_Forall (λ name id, string_ok name ∧ in_u8 id) ids →
  match normalize (BDict (m_entries ids)) with
  | BDict entries => read_ids entries ∅
  | _ => Err PeerInvalidExtendedMessage
  end = Ok (filter (λ e, e.2 ≠ 0) ids).
Proof.
  intros Hids. rewrite normalize_dict. unfold m_entries at 1. rewrite sort_entries_idemp.
  fold (m_entries ids). rewrite m_entries_eq, map_map.
  rewrite (map_ext _ id_entry) by by intros [].
  rewrite read_ids_ok; [| apply m_keys_NoDup |].
  - f_equal. rewrite (right_id_L ∅ (∪)), map_filter_alt.
    apply list_to_map_proper; [|by rewrite sort_entries_perm].
    eapply sublist_NoDup; [apply m_keys_NoDup|]. apply fmap_sublist, sublist_filter.
  - apply Forall_forall. intros [k i] H%m_entries_elem. by apply (Hids _ _ H).
Qed.

Lemma negotiation_entries_wf n : negotiation_ok n → bencode_wf (BDict (negotiation_entries n)).
Proof.
  intros (Hm & Hv & Hy & Hs & Hr). unfold negotiation_entries.
  apply (wf_entries _ [bs "m"; bs "v"; bs "yourip"; bs "metadata_size"; bs "reqq"]);
    [|nodup_keys|].
  - rewrite !map_app. change [bs "m"; bs "v"; bs "yourip"; bs "metadata_size"; bs "reqq"]
      with ([bs "m"] ++ [bs "v"] ++ [bs "yourip"] ++ [bs "metadata_size"] ++ [bs "reqq"]).
    repeat apply sublist_app; try apply opt_entry_keys. done.
  - rewrite !Forall_app. split_and!; try (apply wf_opt_entry; [short_lit|]).
    + constructor; [|done]. split; [short_lit|by apply m_entries_wf].
    + intros x (b & Hb & ->)%fmap_Some. constructor. by apply Hv.
    + intros x (b & Hb & ->)%fmap_Some. constructor. by apply Hy.
    + intros x (b & Hb & ->)%fmap_Some. constructor. by apply Hs.
    + intros x (b & Hb & ->)%fmap_Some. constructor. by apply Hr.
Qed.

Lemma opt_utf8_ok o : opt_all string_ok o → opt_utf8 o = o.
Proof.
  intros H. destruct o as [s|]; [|done]. unfold opt_utf8. cbn.
  apply from_utf8_valid. by apply H.
Qed.

Lemma negotiation_from_to n :
  negotiation_ok n →
  negotiation_from_bencode (normalize (negotiation_to_bencode n)) = Ok (negotiation_canon n).
Proof.
  intros Hn. pose proof (negotiation_entries_wf n Hn) as Hwf.
  destruct Hn as (Hm & Hv & Hy & Hs & Hr).
  unfold negotiation_from_bencode, negotiation_to_bencode.
  rewrite !dict_get_bytes_sorted, !dict_get_int_sorted, dict_get_sorted by done.
  rewrite normalize_dict. unfold dict_get_bytes, dict_get_int, negotiation_entries.
  dict_lookup. cbn [fmap option_fmap option_map].
  pose proof (read_ids_m (m n) Hm) as Hids.
  destruct (normalize (BDict (m_entries (m n)))); try discriminate Hids.
  rewrite Hids. cbn [obind]. unfold negotiation_canon. repeat f_equal.
  - rewrite <- (opt_utf8_ok (v n)) at 2 by done. by destruct (v n).
  - rewrite <- (opt_utf8_ok (yourip n)) at 2 by done. by destruct (yourip n).
  - by destruct (metadata_size n).
  - by destruct (reqq n).
Qed.

#[global] Instance negotiation_codec : BencodeCodec ExtensionNegotiation.
Proof.
  refine {| to_bencode := negotiation_to_bencode; from_bencode := negotiation_from_bencode;
            msg_ok := negotiation_ok; canon := negotiation_canon;
            from_to_bencode := negotiation_from_to |}.
  intros n Hn. by apply wf_dict_sorted, negotiation_entries_wf.
Defined.

(** Registered extensions survive the wire: what [add_extension] put under a name with a non-zero
    identifier is what the peer reads there. *)
Lemma add_extension_canon n name id n' :
  add_extension n name id = Ok n' → m (negotiation_canon n') !! name = Some id.
Proof.
  unfold add_extension. destruct (Z.eqb_spec id 0) as [|Hne]; [done|]. intros [= <-].
  cbn [m negotiation_canon]. apply map_lookup_filter_Some. by rewrite lookup_insert_eq.
Qed.

(** * Metadata exchange messages (BEP 9): [crates/torrent-core/src/peer/metadata.rs]. *)

Definition UT_METADATA_EXT : bytes := bs "ut_metadata".
Definition UT_METADATA_ID : Z := 2.
Definition METADATA_PIECE_SIZE : Z := 16 * 1024.

(** [struct MetadataRequest] has one field, a [u32]. *)
Record MetadataRequest : Type := mk_request { req_piece : Z }.

(** [struct Metadata]. *)
Record Metadata : Type := mk_metadata { md_piece : Z; total_size : Z; md_data : bytes }.

Definition request_to_bencode (r : MetadataRequest) : Bencode :=
  BDict [(bs "msg_type", BInteger 0); (bs "piece", BInteger (req_piece r))].

(** [piece as u32] truncates. *)
Definition request_from_bencode (val : Bencode) : result MetadataRequest :=
  let! msg_type := ok_or (dict_get_int val (bs "msg_type")) PeerInvalidExtendedMessage in
  let! _ := guard_err (negb (msg_type =? 0)) PeerInvalidExtendedMessage in
  let! piece := ok_or (dict_get_int val (bs "piece")) PeerInvalidExtendedMessage in
  Ok {| req_piece := as_u32 piece |}.

(** The dictionary that precedes the raw data; [total_size as i64] wraps. *)
Definition to_bencode_with_data (d : Metadata) : Bencode :=
  BDict [(bs "msg_type", BInteger 1); (bs "piece", BInteger (md_piece d));
         (bs "total_size", BInteger (as_i64 (total_size d)))].

Definition metadata_from_bencode (val : Bencode) (raw_data : bytes) : result Metadata :=
  let! msg_type := ok_or (dict_get_int val (bs "msg_type")) PeerInvalidExtendedMessage in
  let! _ := guard_err (negb (msg_type =? 1)) PeerInvalidExtendedMessage in
  let! piece := ok_or (dict_get_int val (bs "piece")) PeerInvalidExtendedMessage in
  let! total_size := ok_or (dict_get_int val (bs "total_size")) PeerInvalidExtendedMessage in
  Ok {| md_piece := as_u32 piece; total_size := as_u64 total_size; md_data := raw_data |}.

Definition is_reject (val : Bencode) : bool :=
  bool_decide (dict_get_int val (bs "msg_type") = Some 2).

(** * Facts *)

Definition request_ok (r : MetadataRequest) : Prop := in_u32 (req_piece r).

Definition metadata_ok (d : Metadata) : Prop := in_u32 (md_piece d) ∧ in_u64 (total_size d).

Lemma as_i64_range z : in_i64 (as_i64 z).
Proof.
  unfold as_i64, in_i64. pose proof (Z.mod_pos_bound (z + 2 ^ 63) (2 ^ 64) eq_refl). lia.
Qed.

Lemma as_u64_as_i64 z : in_u64 z → as_u64 (as_i64 z) = z.
Proof.
  intros Hz. unfold as_u64, as_i64, in_u64 in *. rewrite Zminus_mod_idemp_l.
  replace (z + 2 ^ 63 - 2 ^ 63) with z by lia. apply Z.mod_small. lia.
Qed.

Lemma in_u32_i64 z : in_u32 z → in_i64 z.
Proof. unfold in_u32, in_i64. lia. Qed.

Lemma request_wf r : request_ok r → bencode_wf (request_to_bencode r).
Proof.
  intros Hr. apply (wf_entries _ [bs "msg_type"; bs "piece"]); [done|nodup_keys|].
  wf_fields; apply wf_integer; [short_lit|by apply in_u32_i64].
Qed.

Lemma request_from_to r :
  request_ok r → request_from_bencode (normalize (request_to_bencode r)) = Ok r.
Proof.
  intros Hr. unfold request_from_bencode.
  rewrite !dict_get_int_normalize by by apply request_wf.
  unfold dict_get_int, request_to_bencode. dict_lookup. cbn [ok_or obind negb Z.eqb guard_err].
  rewrite as_u32_id by done. by destruct r.
Qed.

#[global] Instance request_codec : BencodeCodec MetadataRequest :=
  {| to_bencode := request_to_bencode; from_bencode := request_from_bencode;
     msg_ok := request_ok; canon := id;
     to_bencode_wf := request_wf; from_to_bencode := request_from_to |}.

Lemma metadata_wf d : metadata_ok d → bencode_wf (to_bencode_with_data d).
Proof.
  intros [Hp Hs]. apply (wf_entries _ [bs "msg_type"; bs "piece"; bs "total_size"]); [done|nodup_keys|].
  wf_fields; apply wf_integer; [short_lit|by apply in_u32_i64|apply as_i64_range].
Qed.

Lemma metadata_from_to d :
  metadata_ok d →
  metadata_from_bencode (normalize (to_bencode_with_data d)) (md_data d) = Ok d.
Proof.
  intros Hd. unfold metadata_from_bencode.
  rewrite !dict_get_int_normalize by by apply metadata_wf.
  unfold dict_get_int, to_bencode_with_data. dict_lookup. destruct Hd as [Hp Hs].
  cbn [ok_or obind negb Z.eqb Pos.eqb guard_err].
  rewrite as_u32_id, as_u64_as_i64 by done. by destruct d.
Qed.

(** * Properties *)

(** Every message of the extension protocol survives the wire, whatever bytes follow it: a
    peer exchange message without the addresses of the wrong family, an extension negotiation
    without its disabled extensions, a metadata request unchanged, and a metadata piece with the
    raw data that follows its dictionary. *)
Theorem extension_messages_roundtrip :
  (∀ (p : PexMessage) rest, pex_ok p → receive (send p ++ rest) = Ok (pex_canon p, rest)) ∧
  (∀ (n : ExtensionNegotiation) rest, negotiation_ok n →
     receive (send n ++ rest) = Ok (negotiation_canon n, rest)) ∧
  (∀ (r : MetadataRequest) rest, request_ok r → receive (send r ++ rest) = Ok (r, rest)) ∧
  (∀ d : Metadata, metadata_ok d →
     (let! (val, raw) := decode (encode (to_bencode_with_data d) ++ md_data d) in
      metadata_from_bencode val raw) = Ok d).
Proof.
  split_and!; [intros p rest Hp; exact (receive_encoded p rest Hp)
              |intros n rest Hn; exact (receive_encoded n rest Hn)
              |intros r rest Hr; exact (receive_encoded r rest Hr)|].
  intros d Hd. rewrite decode_encode by by apply metadata_wf. cbn [obind].
  by apply metadata_from_to.
Qed.
