(* ===== verification/Krpc.v ===== *)
(** KRPC messages of the DHT (BEP 5, BEP 32): [crates/torrent-core/src/dht/krpc.rs]. The compact
    node lists of that file are in [Compact]. *)

From stdpp Require Import base numbers list strings sorting.
From Stdlib Require Import ZArith Lia.
From S2P Require Import Prelude Facts Error Bencode BencodeFacts Net Compact Codec.

(** [enum KrpcMessage]. *)
Inductive KrpcMessage : Type :=
| Query (transaction_id method : bytes) (args : Bencode)
| Response (transaction_id : bytes) (res : Bencode)
| KrpcError (transaction_id : bytes) (code : Z) (message : bytes).

Definition krpc_to_bencode (msg : KrpcMessage) : Bencode :=
  match msg with
  | Query tid method args =>
      BDict [(bs "t", BBytes tid); (bs "y", BBytes (bs "q")); (bs "q", BBytes method);
             (bs "a", args)]
  | Response tid res =>
      BDict [(bs "t", BBytes tid); (bs "y", BBytes (bs "r")); (bs "r", res)]
  | KrpcError tid code message =>
      BDict [(bs "t", BBytes tid); (bs "y", BBytes (bs "e"));
             (bs "e", BList [BInteger code; BBytes message])]
  end.

(** [KrpcMessage::to_bytes]. *)
Definition krpc_to_bytes (msg : KrpcMessage) : bytes := encode (krpc_to_bencode msg).

(** [arr[..len].copy_from_slice(&b[..len])] with [len = min(b.len(), n)] into a zeroed array. *)
Definition copy_padded (n : nat) (b : bytes) : bytes :=
  take n b ++ replicate (n - length b) 0.

Definition krpc_from_bencode (val : Bencode) : result KrpcMessage :=
  let! t := ok_or (dict_get_bytes val (bs "t")) Protocol in
  let transaction_id := copy_padded 2 t in
  let! y := ok_or (dict_get_bytes val (bs "y")) Protocol in
  let y_byte := default 0 (head y) in
  if y_byte =? 113 then
    let! method := ok_or (opt_utf8 (dict_get_bytes val (bs "q"))) Protocol in
    let args := default (BDict []) (dict_get val (bs "a")) in
    Ok (Query transaction_id method args)
  else if y_byte =? 114 then
    Ok (Response transaction_id (default (BDict []) (dict_get val (bs "r"))))
  else if y_byte =? 101 then
    let! err_val := ok_or (dict_get val (bs "e")) Protocol in
    match err_val with
    | BList (BInteger code :: BBytes b :: _) =>
        Ok (KrpcError transaction_id code (default [] (from_utf8 b)))
    | _ => Err Protocol
    end
  else Err Protocol.

(** [KrpcMessage::from_bytes]. *)
Definition krpc_from_bytes (data : bytes) : result KrpcMessage :=
  let! (val, _) := decode data in
  krpc_from_bencode val.

(** * Builders of queries *)

(** [if let Some(w) = want { entries.push(("want", List(..))) }]. *)
Definition want_entry (want : option (list bytes)) : list (bytes * Bencode) :=
  opt_entry (bs "want") ((λ w, BList (map BBytes w)) <$> want).

Definition build_ping (tid id : bytes) : bytes :=
  krpc_to_bytes (Query tid (bs "ping") (BDict [(bs "id", BBytes id)])).

Definition build_find_node (tid id target : bytes) (want : option (list bytes)) : bytes :=
  krpc_to_bytes (Query tid (bs "find_node")
    (BDict ([(bs "id", BBytes id); (bs "target", BBytes target)] ++ want_entry want))).

Definition build_get_peers (tid id info_hash : bytes) (want : option (list bytes)) : bytes :=
  krpc_to_bytes (Query tid (bs "get_peers")
    (BDict ([(bs "id", BBytes id); (bs "info_hash", BBytes info_hash)] ++ want_entry want))).

Definition build_announce_peer (tid id info_hash : bytes) (port : Z) (token : bytes) : bytes :=
  krpc_to_bytes (Query tid (bs "announce_peer")
    (BDict [(bs "id", BBytes id); (bs "info_hash", BBytes info_hash);
            (bs "port", BInteger port); (bs "token", BBytes token)])).

(** * Builders of responses *)

Definition build_ping_response (tid id : bytes) : bytes :=
  krpc_to_bytes (Response tid (BDict [(bs "id", BBytes id)])).

(** [if !compact6.is_empty() { entries.push(("nodes6", ..)) }]. *)
Definition nodes6_entry (nodes : list Node) : list (bytes * Bencode) :=
  let compact6 := encode_compact_nodes6 nodes in
  opt_entry (bs "nodes6") (match compact6 with [] => None | _ => Some (BBytes compact6) end).

Definition build_find_node_response (tid id : bytes) (nodes : list Node) : bytes :=
  krpc_to_bytes (Response tid
    (BDict ([(bs "id", BBytes id); (bs "nodes", BBytes (encode_compact_nodes4 nodes))]
            ++ nodes6_entry nodes))).

Definition compact_value (addr : SocketAddr) : Bencode :=
  BBytes (octets (ip addr) ++ be_bytes 2 (port addr)).

Definition values_result (id token : bytes) (peers : list SocketAddr) : Bencode :=
  BDict [(bs "id", BBytes id); (bs "token", BBytes token);
         (bs "values", BList (map compact_value peers))].

Definition build_get_peers_response_values (tid id token : bytes) (peers : list SocketAddr)
    : bytes :=
  krpc_to_bytes (Response tid (values_result id token peers)).

Definition nodes_result (id token : bytes) (nodes : list Node) : Bencode :=
  BDict ([(bs "id", BBytes id); (bs "token", BBytes token);
          (bs "nodes", BBytes (encode_compact_nodes4 nodes))] ++ nodes6_entry nodes).

Definition build_get_peers_response_nodes (tid id token : bytes) (nodes : list Node) : bytes :=
  krpc_to_bytes (Response tid (nodes_result id token nodes)).

Definition build_error_response (tid : bytes) (code : Z) (message : bytes) : bytes :=
  krpc_to_bytes (KrpcError tid code message).

(** * Parsers of responses *)

Definition parse_ping_response (msg : KrpcMessage) : result bytes :=
  match msg with
  | Response _ res =>
      let! id := ok_or (dict_get_bytes res (bs "id")) Protocol in
      Ok (copy_padded 20 id)
  | _ => Err Protocol
  end.

(** [enum GetPeersResult]. *)
Inductive GetPeersResult : Type :=
| Values (token : bytes) (peers : list SocketAddr)
| Nodes (nodes : list Node).

(** One element of the [values] list; other lengths are skipped. *)
Definition parse_value (v : Bencode) : list SocketAddr :=
  match v with
  | BBytes b =>
      if (length b =? 6)%nat then [addr4_of_chunk b]
      else if (length b =? 18)%nat then [addr6_of_chunk b]
      else []
  | _ => []
  end.

Definition parse_get_peers_response (msg : KrpcMessage) : result GetPeersResult :=
  match msg with
  | Response _ res =>
      let! token := ok_or (dict_get_bytes res (bs "token")) Protocol in
      match dict_get res (bs "values") with
      | Some (BList values) => Ok (Values token (concat (map parse_value values)))
      | _ =>
          let nodes4 := default [] (parse_compact_nodes4 <$> dict_get_bytes res (bs "nodes")) in
          let nodes6 := default [] (parse_compact_nodes6 <$> dict_get_bytes res (bs "nodes6")) in
          match nodes4, nodes6 with
          | _ :: _, _ => Ok (Nodes nodes4)
          | [], _ :: _ => Ok (Nodes nodes6)
          | [], [] => Err Protocol
          end
      end
  | _ => Err Protocol
  end.

(** * The message codec *)

Definition krpc_ok (msg : KrpcMessage) : Prop :=
  match msg with
  | Query tid method args =>
      length tid = 2%nat ∧ short method ∧ utf8_valid method = true ∧ bencode_wf args
  | Response tid res => length tid = 2%nat ∧ bencode_wf res
  | KrpcError tid code message =>
      length tid = 2%nat ∧ in_i64 code ∧ short message ∧ utf8_valid message = true
  end.

(** Dictionaries arrive with their keys sorted. *)
Definition krpc_canon (msg : KrpcMessage) : KrpcMessage :=
  match msg with
  | Query tid method args => Query tid method (normalize args)
  | Response tid res => Response tid (normalize res)
  | KrpcError tid code message => KrpcError tid code message
  end.

Lemma copy_padded_exact n b : length b = n → copy_padded n b = b.
Proof.
  intros <-. unfold copy_padded. rewrite take_ge by done. rewrite Nat.sub_diag. apply app_nil_r.
Qed.

Lemma length_copy_padded n b : length (copy_padded n b) = n.
Proof. unfold copy_padded. rewrite length_app, length_take, length_replicate. lia. Qed.

Lemma short_small b : (length b ≤ 100)%nat → short b.
Proof. unfold short, zlen. lia. Qed.

Lemma krpc_wf msg : krpc_ok msg → bencode_wf (krpc_to_bencode msg).
Proof.
  destruct msg as [tid method args|tid res|tid code message]; cbn [krpc_ok krpc_to_bencode].
  - intros (Ht & Hm & _ & Ha). apply (wf_entries _ [bs "t"; bs "y"; bs "q"; bs "a"]);
      [done|nodup_keys|].
    wf_fields; try apply wf_bytes; first [done|apply short_small; lia|short_lit].
  - intros (Ht & Hr). apply (wf_entries _ [bs "t"; bs "y"; bs "r"]); [done|nodup_keys|].
    wf_fields; try apply wf_bytes; first [done|apply short_small; lia|short_lit].
  - intros (Ht & Hc & Hs & _). apply (wf_entries _ [bs "t"; bs "y"; bs "e"]); [done|nodup_keys|].
    wf_fields; try apply wf_bytes; try first [apply short_small; lia|short_lit].
    constructor. repeat (apply Forall_cons; split); by constructor.
Qed.

Lemma krpc_from_to msg :
  krpc_ok msg → krpc_from_bencode (normalize (krpc_to_bencode msg)) = Ok (krpc_canon msg).
Proof.
  intros Hm. pose proof (krpc_wf msg Hm) as Hwf. unfold krpc_from_bencode.
  rewrite !dict_get_bytes_normalize, !dict_get_normalize by done.
  destruct msg as [tid method args|tid res|tid code message]; cbn [krpc_ok] in Hm;
    unfold dict_get_bytes, krpc_to_bencode; dict_lookup;
    cbn [fmap option_fmap option_map normalize map];
    change (bs "q") with [113]; change (bs "r") with [114]; change (bs "e") with [101];
    cbn [ok_or obind head from_option id Z.eqb Pos.eqb];
    rewrite copy_padded_exact by (by destruct Hm).
  - destruct Hm as (_ & _ & Hu & _). unfold opt_utf8. cbn [mbind option_bind].
    by rewrite from_utf8_valid.
  - done.
  - destruct Hm as (_ & _ & _ & Hu).
    by rewrite from_utf8_valid.
Qed.

#[global] Instance krpc_codec : BencodeCodec KrpcMessage :=
  {| to_bencode := krpc_to_bencode; from_bencode := krpc_from_bencode; msg_ok := krpc_ok;
     canon := krpc_canon; to_bencode_wf := krpc_wf; from_to_bencode := krpc_from_to |}.

Lemma krpc_from_to_bytes msg :
  krpc_ok msg → krpc_from_bytes (krpc_to_bytes msg) = Ok (krpc_canon msg).
Proof.
  intros Hm. pose proof (receive_encoded msg [] Hm) as H. rewrite app_nil_r in H.
  unfold receive, send in H. unfold krpc_from_bytes, krpc_to_bytes.
  change (to_bencode msg) with (krpc_to_bencode msg) in H.
  destruct (decode _) as [[v r]| | |]; cbn [obind] in *; try discriminate H.
  change (from_bencode v) with (krpc_from_bencode v) in H.
  destruct (krpc_from_bencode v); cbn [obind] in H; try discriminate H. by injection H as -> _.
Qed.

(** * Responses through the wire *)

Lemma addr4_of_octets o p : length o = 4%nat → addr_ok (mk_addr (V4 o) p) →
  addr4_of_chunk (o ++ be_bytes 2 p) = mk_addr (V4 o) p.
Proof. intros _ Ha. exact (addr_get_put false (mk_addr (V4 o) p) (conj Ha eq_refl)). Qed.

Lemma addr6_of_octets o p : length o = 16%nat → addr_ok (mk_addr (V6 o) p) →
  addr6_of_chunk (o ++ be_bytes 2 p) = mk_addr (V6 o) p.
Proof. intros _ Ha. exact (addr_get_put true (mk_addr (V6 o) p) (conj Ha eq_refl)). Qed.

Lemma length_compact_value a :
  addr_ok a → length (octets (ip a) ++ be_bytes 2 (port a)) = (octet_count (is_v6 a) + 2)%nat.
Proof.
  intros [[_ Ho] _]. rewrite length_app, length_be_bytes, Ho. by destruct a as [[]].
Qed.

Lemma parse_value_ok a : addr_ok a → parse_value (compact_value a) = [a].
Proof.
  intros Ha. unfold parse_value, compact_value. rewrite length_compact_value by done.
  pose proof Ha as [[_ Ho] _]. destruct a as [[o|o] p]; cbn [is_v6 is_v4 ip port octets] in *.
  - change ((octet_count (negb true) + 2 =? 6)%nat) with true. cbn match.
    by rewrite addr4_of_octets.
  - change ((octet_count (negb false) + 2 =? 6)%nat) with false.
    change ((octet_count (negb false) + 2 =? 18)%nat) with true. cbn match.
    by rewrite addr6_of_octets.
Qed.

Lemma parse_values_ok l :
  Forall addr_ok l → concat (map parse_value (map compact_value l)) = l.
Proof. induction 1 as [|a l Ha _ IH]; [done|]. cbn [map concat]. by rewrite parse_value_ok, IH. Qed.

Lemma values_result_wf id token peers :
  length id = 20%nat → short token → Forall addr_ok peers →
  bencode_wf (values_result id token peers).
Proof.
  intros Hi Ht Hp. apply (wf_entries _ [bs "id"; bs "token"; bs "values"]); [done|nodup_keys|].
  wf_fields; try apply wf_bytes; try done; [apply short_small; lia|].
  apply wf_list, Forall_map. eapply Forall_impl; [exact Hp|]. intros a Ha. constructor.
  apply short_small. rewrite length_compact_value by done.
  destruct (is_v6 a); cbn; lia.
Qed.

Definition nodes_fit (nodes : list Node) : Prop := Forall node_ok nodes ∧ zlen nodes * 38 ≤ i64_max.

Lemma encode_nodes_short (v6 : bool) nodes :
  nodes_fit nodes → short ((if v6 then encode_compact_nodes6 else encode_compact_nodes4) nodes).
Proof.
  intros [Hl Hn]. unfold short, zlen in *. rewrite encode_nodes_eq.
  rewrite (length_concat_fixed (20 + (octet_count v6 + 2))).
  - rewrite length_map. unfold keep_nodes.
    pose proof (length_filter (λ a, is_v6 (node_addr a) = v6) nodes).
    destruct v6; cbn [octet_count]; lia.
  - apply Forall_map. eapply Forall_impl; [by apply keep_nodes_of_family|].
    intros a Ha. by apply fc_put_length.
Qed.

Lemma nodes_result_wf id token nodes :
  length id = 20%nat → short token → nodes_fit nodes → bencode_wf (nodes_result id token nodes).
Proof.
  intros Hi Ht Hn. unfold nodes_result.
  apply (wf_entries _ [bs "id"; bs "token"; bs "nodes"; bs "nodes6"]); [|nodup_keys|].
  - rewrite map_app. change [bs "id"; bs "token"; bs "nodes"; bs "nodes6"]
      with ([bs "id"; bs "token"; bs "nodes"] ++ [bs "nodes6"]).
    apply sublist_app; [done|apply opt_entry_keys].
  - rewrite Forall_app. split.
    + wf_fields; apply wf_bytes; [apply short_small; lia|done|].
      by apply (encode_nodes_short false).
    + apply wf_opt_entry; [short_lit|]. intros v Hv.
      pose proof (encode_nodes_short true nodes Hn) as Hs.
      destruct (encode_compact_nodes6 nodes); [done|]. injection Hv as <-. by constructor.
Qed.

Lemma nodes6_field nodes :
  Forall node_ok nodes →
  default [] (parse_compact_nodes6 <$>
    match match encode_compact_nodes6 nodes with [] => None | _ => Some (BBytes (encode_compact_nodes6 nodes)) end with
    | Some (BBytes b) => Some b
    | _ => None
    end) = keep_nodes true nodes.
Proof.
  intros Hn. pose proof (parse_encode_nodes true nodes [] Hn) as H.
  rewrite app_nil_r in H. rewrite <- H by (cbn; lia). by destruct (encode_compact_nodes6 nodes).
Qed.

(** * Properties *)

(** A KRPC message decodes to itself, with the dictionaries in its payload sorted; queries,
    responses and errors are never confused with one another. *)
Theorem krpc_roundtrip : ∀ msg,
  krpc_ok msg → krpc_from_bytes (krpc_to_bytes msg) = Ok (krpc_canon msg).
Proof. exact krpc_from_to_bytes. Qed.

Lemma krpc_roundtrip_witness :
  krpc_ok (KrpcError [1; 2] 203 (bs "Protocol Error")) ∧
  krpc_from_bytes (krpc_to_bytes (KrpcError [1; 2] 203 (bs "Protocol Error"))) =
    Ok (KrpcError [1; 2] 203 (bs "Protocol Error")).
Proof.
  assert (krpc_ok (KrpcError [1; 2] 203 (bs "Protocol Error"))) as H by (split_and!; try done; short_lit).
  split; [exact H|]. exact (krpc_roundtrip _ H).
Defined.

(** What a node answers to [get_peers] is what the querying node reads. The peers of a
    [values] response come back with the token, in order and for both address families. Of a
    [nodes] response the reader gets the IPv4 nodes if there are any and otherwise the IPv6 nodes,
    and an empty node list is a protocol error, although the response carries a token. *)
Theorem get_peers_through_wire : ∀ tid id token,
  length tid = 2%nat → length id = 20%nat → short token →
  (∀ peers, Forall addr_ok peers →
     (let! msg := krpc_from_bytes (build_get_peers_response_values tid id token peers) in
      parse_get_peers_response msg) = Ok (Values token peers)) ∧
  (∀ nodes, nodes_fit nodes →
     (let! msg := krpc_from_bytes (build_get_peers_response_nodes tid id token nodes) in
      parse_get_peers_response msg) =
     match keep_nodes false nodes, keep_nodes true nodes with
     | [], [] => Err Protocol
     | [], n6 => Ok (Nodes n6)
     | n4, _ => Ok (Nodes n4)
     end).
Proof.
  intros tid id token Ht Hi Hs. split.
  - intros peers Hp. pose proof (values_result_wf id token peers Hi Hs Hp) as Hwf.
    unfold build_get_peers_response_values. rewrite krpc_from_to_bytes by done.
    cbn [krpc_canon obind parse_get_peers_response].
    rewrite dict_get_bytes_normalize, dict_get_normalize by done.
    unfold dict_get_bytes, values_result. dict_lookup.
    cbn [ok_or obind fmap option_fmap option_map normalize].
    rewrite (map_map compact_value normalize), (map_ext _ compact_value) by done.
    by rewrite parse_values_ok.
  - intros nodes Hn. pose proof (nodes_result_wf id token nodes Hi Hs Hn) as Hwf.
    unfold build_get_peers_response_nodes. rewrite krpc_from_to_bytes by done.
    cbn [krpc_canon obind parse_get_peers_response]. destruct Hn as [Hn _].
    rewrite !dict_get_bytes_normalize, dict_get_normalize by done.
    unfold dict_get_bytes, nodes_result, nodes6_entry. dict_lookup.
    cbn [ok_or obind fmap option_fmap option_map].
    pose proof (nodes6_field nodes Hn) as H6.
    cbn [fmap option_fmap option_map] in H6. rewrite H6.
    pose proof (parse_encode_nodes false nodes [] Hn) as H4. rewrite app_nil_r in H4.
    cbn [from_option Datatypes.id]. rewrite H4 by (cbn; lia).
    by destruct (keep_nodes false nodes), (keep_nodes true nodes).
Qed.

Definition sample_nodes : list Node :=
  [mk_node (replicate 20 3) (mk_addr (V6 (replicate 16 9)) 6881);
   mk_node (replicate 20 5) (mk_addr (V4 [1; 2; 3; 4]) 80)].

Lemma get_peers_through_wire_witness :
  (let! msg := krpc_from_bytes
     (build_get_peers_response_nodes [1; 2] (replicate 20 7) (bs "tok") sample_nodes) in
   parse_get_peers_response msg) =
    Ok (Nodes [mk_node (replicate 20 5) (mk_addr (V4 [1; 2; 3; 4]) 80)]).
Proof.
  refine (proj2 (get_peers_through_wire [1; 2] (replicate 20 7) (bs "tok") eq_refl eq_refl _)
            sample_nodes _); [short_lit|].
  split; [apply (bool_decide_unpack _); vm_compute; exact I|].
  intros H; vm_compute in H; discriminate H.
Defined.

Example krpc_ping :
  (let! msg := krpc_from_bytes (build_ping_response [1; 2] (replicate 20 7)) in
   parse_ping_response msg) = Ok (replicate 20 7).
Proof. vm_compute. reflexivity. Qed.

Example krpc_queries :
  map krpc_from_bytes
    [build_ping [1; 2] (replicate 20 7);
     build_announce_peer [1; 2] (replicate 20 7) (replicate 20 8) 6881 (bs "t");
     build_error_response [1; 2] 201 (bs "no"); bs "i1e"; bs "de"] =
  [Ok (Query [1; 2] (bs "ping") (BDict [(bs "id", BBytes (replicate 20 7))]));
   Ok (Query [1; 2] (bs "announce_peer")
         (BDict [(bs "id", BBytes (replicate 20 7)); (bs "info_hash", BBytes (replicate 20 8));
                 (bs "port", BInteger 6881); (bs "token", BBytes (bs "t"))]));
   Ok (KrpcError [1; 2] 201 (bs "no")); Err Protocol; Err Protocol].
Proof. vm_compute. reflexivity. Qed.
