(* ===== verification/Dht.v ===== *)
(** The Kademlia routing table (BEP 5, BEP 32): [crates/torrent-core/src/dht/mod.rs] and
    [crates/torrent-core/src/dht/kbucket.rs].

    A [KBucket] is the list of its nodes, the least recently seen one first; a routing table is a
    node identifier and 160 buckets. *)

From stdpp Require Import base numbers list strings sorting sets.
From Stdlib Require Import ZArith Lia.
From S2P Require Import Prelude Facts Error Bencode Net Compact.

(** * K-buckets *)

Module KBucket.

Definition K : nat := 8.

(** [struct KBucket]: a [VecDeque], front first. *)
Abbreviation KBucket := (list Node).

Definition new : KBucket := [].

(** The [bool] is [true] when the node was not in the bucket. *)
Definition insert (nodes : KBucket) (node : Node) : KBucket * bool :=
  match position (fun n => bool_decide (node_id n = node_id node)) nodes with
  | Some pos => (delete pos nodes ++ [node], false)
  | None =>
      let nodes := if (K <=? length nodes)%nat then tail nodes else nodes in
      (nodes ++ [node], true)
  end.

(** The specification: an unbounded list of the nodes seen, each once, the latest last. *)
Definition touch (seen : list Node) (node : Node) : list Node :=
  filter (λ n, node_id n ≠ node_id node) seen ++ [node].

Definition seen_after (nodes : list Node) : list Node := fold_left touch nodes [].

(** The bucket after a sequence of insertions into an empty one. *)
Definition bucket_after (nodes : list Node) : KBucket :=
  fold_left (λ b n, (insert b n).1) nodes new.

Definition ids (l : list Node) : list bytes := map node_id l.

(** ** Facts *)

Lemma ids_filter_NoDup P `{!∀ x : Node, Decision (P x)} l :
  NoDup (ids l) → NoDup (ids (filter P l)).
Proof. intros Hl. eapply sublist_NoDup; [exact Hl|]. apply fmap_sublist, sublist_filter. Qed.

Lemma filter_absent l node :
  node_id node ∉ ids l → filter (λ n, node_id n ≠ node_id node) l = l.
Proof.
  intros H. induction l as [|n l IH]; [done|]. cbn [ids map] in H.
  apply not_elem_of_cons in H as [Hn Hl]. rewrite filter_cons_True by congruence.
  by rewrite IH.
Qed.

(** What [position] finds is the only node with that identifier. *)
Lemma position_id l node :
  NoDup (ids l) →
  match position (fun n => bool_decide (node_id n = node_id node)) l with
  | Some pos =>
      filter (λ n, node_id n ≠ node_id node) l = delete pos l ∧ node_id node ∈ ids l ∧
      S (length (delete pos l)) = length l
  | None => node_id node ∉ ids l
  end.
Proof.
  induction l as [|n l IH]; intros Hnd; cbn [position]; [set_solver|].
  cbn [ids map] in Hnd. apply NoDup_cons in Hnd as [Hn Hnd]. specialize (IH Hnd).
  case_bool_decide as Heq.
  - rewrite filter_cons_False by tauto. split_and!; [|cbn; rewrite Heq; set_solver|done].
    cbn [delete list_delete]. apply filter_absent. by rewrite <- Heq.
  - destruct (position _ l) as [pos|]; cbn [option_map].
    + destruct IH as (E & Hin & Hlen). rewrite filter_cons_True by done. cbn [delete list_delete].
      rewrite E. split_and!; [done|by apply list_elem_of_further|].
      change (S (S (length (delete pos l))) = S (length l)). by rewrite Hlen.
    + apply not_elem_of_cons. by split; [congruence|].
Qed.

Lemma touch_NoDup seen node : NoDup (ids seen) → NoDup (ids (touch seen node)).
Proof.
  intros H. unfold touch, ids. rewrite map_app. apply NoDup_app. split_and!.
  - by apply ids_filter_NoDup.
  - intros i (n & -> & [Hn _]%list_elem_of_filter)%list_elem_of_fmap Hi.
    cbn in Hi. apply list_elem_of_singleton in Hi. congruence.
  - apply NoDup_singleton.
Qed.

(** The bucket is the end of the list of nodes seen, and full when nodes are missing from it. *)
Definition tracks (seen : list Node) (b : KBucket) : Prop :=
  ∃ older, seen = older ++ b ∧ (length b ≤ K)%nat ∧ (older ≠ [] → length b = K).

Lemma insert_tracks seen b node :
  NoDup (ids seen) → tracks seen b → tracks (touch seen node) (insert b node).1.
Proof.
  intros Hnd (older & -> & Hb & Hfull). unfold touch, insert.
  unfold ids in Hnd. rewrite map_app in Hnd. apply NoDup_app in Hnd as (Hndo & Hdis & Hndb).
  fold (ids older) in *. fold (ids b) in *.
  pose proof (position_id b node Hndb) as Hpos. rewrite filter_app.
  destruct (position _ b) as [pos|]; cbn [fst].
  - destruct Hpos as (-> & Hin & Hlen). rewrite filter_absent.
    2: { intros Ho. by apply (Hdis _ Ho). }
    exists older. rewrite <- app_assoc. split; [done|].
    rewrite length_app. cbn [length]. rewrite Nat.add_1_r, Hlen. done.
  - rewrite (filter_absent b) by done.
    destruct (Nat.leb_spec K (length b)) as [Hle|Hlt].
    + destruct b as [|n b]; [cbn in Hle; unfold K in Hle; lia|]. cbn [tail].
      exists (filter (λ n, node_id n ≠ node_id node) older ++ [n]).
      rewrite <- !app_assoc. split; [done|]. rewrite length_app. cbn [length] in *. lia.
    + destruct (decide (older = [])) as [->|Hne]; [|rewrite (Hfull Hne) in Hlt; lia].
      exists []. split; [done|]. rewrite length_app. cbn [length]. split; [lia|done].
Qed.

Lemma bucket_tracks nodes :
  NoDup (ids (seen_after nodes)) ∧ tracks (seen_after nodes) (bucket_after nodes).
Proof.
  induction nodes as [|node nodes [IHn IHt]] using rev_ind.
  - split; [by constructor|]. exists []. split_and!; [done|cbn; lia|done].
  - unfold seen_after, bucket_after in *. rewrite !fold_left_app. cbn [fold_left].
    split; [by apply touch_NoDup|by apply insert_tracks].
Qed.

(** What one insertion preserves: the bound and the uniqueness of identifiers. *)
Definition bucket_ok (b : KBucket) : Prop := (length b ≤ K)%nat ∧ NoDup (ids b).

Lemma insert_ok b node :
  bucket_ok b →
  bucket_ok (insert b node).1 ∧
  (∃ b', (insert b node).1 = b' ++ [node] ∧ b' `sublist_of` b) ∧
  (insert b node).2 = bool_decide (node_id node ∉ ids b).
Proof.
  intros [Hb Hnd]. pose proof (position_id b node Hnd) as Hpos. split_and!.
  - assert (tracks b b) as Ht by (exists []; split_and!; [done|lia|done]).
    destruct (insert_tracks b b node Hnd Ht) as (older & E & Hlen & _).
    split; [done|]. pose proof (touch_NoDup b node Hnd) as Hn. rewrite E in Hn.
    unfold ids in Hn. rewrite map_app in Hn. by apply NoDup_app in Hn as (_ & _ & ?).
  - unfold insert. destruct (position _ b); cbn [fst].
    + eexists. split; [done|]. apply sublist_delete.
    + eexists. split; [done|]. destruct (K <=? length b)%nat; [|done].
      destruct b; [done|]. cbn [tail]. by apply sublist_cons.
  - unfold insert. destruct (position _ b); cbn [snd].
    + by rewrite bool_decide_eq_false_2 by tauto.
    + by rewrite bool_decide_eq_true_2.
Qed.

(** A K-bucket is an exact least-recently-seen cache. After any sequence of insertions it
    holds the last eight distinct nodes seen, in the order they were last seen, with the address of
    the latest sighting; it never exceeds eight nodes, holds no identifier twice, and [insert]
    returns whether the identifier was absent. *)
Theorem kbucket_is_lru : ∀ nodes,
  bucket_after nodes = drop (length (seen_after nodes) - K) (seen_after nodes) ∧
  bucket_ok (bucket_after nodes) ∧
  ∀ node, (insert (bucket_after nodes) node).2 =
    bool_decide (node_id node ∉ ids (bucket_after nodes)).
Proof.
  intros nodes. destruct (bucket_tracks nodes) as [Hnd (older & E & Hlen & Hfull)].
  assert (bucket_ok (bucket_after nodes)) as Hok.
  { split; [done|]. rewrite E in Hnd. unfold ids in Hnd. rewrite map_app in Hnd.
    by apply NoDup_app in Hnd as (_ & _ & ?). }
  split_and!; [|done|intros node; by apply insert_ok].
  rewrite E, length_app. destruct (decide (older = [])) as [->|Hne].
  - cbn [app length]. replace (_ - _)%nat with 0%nat by lia. done.
  - rewrite (Hfull Hne). replace (_ - _)%nat with (length older) by lia.
    by rewrite drop_app_length.
Qed.
End KBucket.

(** * Distances and bucket indices *)

Definition NUM_BUCKETS : nat := 160.

(** [u8::leading_zeros]. *)
Definition leading_zeros_u8 (b : Z) : nat := if b =? 0 then 8 else (7 - Z.to_nat (Z.log2 b))%nat.

(** [xor_distance]: the loop [for i in 0..20]. *)
Fixpoint xor_bytes (a b : bytes) : bytes :=
  match a, b with
  | x :: a', y :: b' => Z.lxor x y :: xor_bytes a' b'
  | _, _ => []
  end.

Definition xor_distance (a b : bytes) : bytes := xor_bytes a b.

(** The loop of [bucket_index] from byte [i] on. *)
Fixpoint bucket_index_from (i : nat) (our_id id : bytes) : nat :=
  match our_id, id with
  | x :: our_id', y :: id' =>
      let diff := Z.lxor x y in
      if diff =? 0 then bucket_index_from (S i) our_id' id'
      else (i * 8 + leading_zeros_u8 diff)%nat
  | _, _ => 0%nat
  end.

Definition bucket_index (our_id id : bytes) : nat := bucket_index_from 0 our_id id.

(** [generate_node_id] and [generate_secret], for the hash and the random seed they draw. *)
Definition generate_node_id (sha1 : bytes → bytes) (seed : Z) : bytes :=
  sha1 (be_bytes 8 seed ++ bs "torrent-rs-dht-node").

Definition generate_secret (sha1 : bytes → bytes) (seed : Z) : bytes :=
  sha1 (be_bytes 8 seed ++ bs "torrent-rs-dht-secret").

(** * Routing tables *)

(** [insert_into_buckets]: [buckets[idx].insert(node)], which panics out of range. *)
Definition insert_into_buckets (buckets : list (list Node)) (our_id : bytes) (node : Node)
    : result (list (list Node) * bool) :=
  let idx := bucket_index our_id (node_id node) in
  let! b := index buckets idx in
  let '(b', added) := KBucket.insert b node in
  Ok (<[idx:=b']> buckets, added).

Definition dist_leb (target : bytes) (m n : Node) : bool :=
  bytes_leb (xor_distance (node_id m) target) (xor_distance (node_id n) target).

Definition find_closest_in_buckets (buckets : list (list Node)) (target : bytes) (count : nat)
    : list Node :=
  take count (stable_sort (dist_leb target) (concat buckets)).

Definition count_nodes (buckets : list (list Node)) : nat := length (concat buckets).

(** [struct RoutingTable]. *)
Record RoutingTable : Type := { rt_id : bytes; buckets : list (list Node) }.

Definition rt_with_id (id : bytes) : RoutingTable :=
  {| rt_id := id; buckets := replicate NUM_BUCKETS KBucket.new |}.

Definition rt_insert (t : RoutingTable) (node : Node) : result (RoutingTable * bool) :=
  let! (bs', added) := insert_into_buckets (buckets t) (rt_id t) node in
  Ok ({| rt_id := rt_id t; buckets := bs' |}, added).

Definition rt_find_closest (t : RoutingTable) (target : bytes) (count : nat) : list Node :=
  find_closest_in_buckets (buckets t) target count.

Definition rt_num_nodes (t : RoutingTable) : nat := count_nodes (buckets t).

(** [struct DualRoutingTable]. *)
Record DualRoutingTable : Type := {
  dual_id : bytes; buckets_v4 : list (list Node); buckets_v6 : list (list Node) }.

Definition dual_with_id (id : bytes) : DualRoutingTable :=
  {| dual_id := id; buckets_v4 := replicate NUM_BUCKETS KBucket.new;
     buckets_v6 := replicate NUM_BUCKETS KBucket.new |}.

Definition dual_insert (t : DualRoutingTable) (node : Node) : result (DualRoutingTable * bool) :=
  if is_v4 (node_addr node) then
    let! (b4, added) := insert_into_buckets (buckets_v4 t) (dual_id t) node in
    Ok ({| dual_id := dual_id t; buckets_v4 := b4; buckets_v6 := buckets_v6 t |}, added)
  else
    let! (b6, added) := insert_into_buckets (buckets_v6 t) (dual_id t) node in
    Ok ({| dual_id := dual_id t; buckets_v4 := buckets_v4 t; buckets_v6 := b6 |}, added).

Definition dual_find_closest_v4 (t : DualRoutingTable) (target : bytes) (count : nat) :=
  find_closest_in_buckets (buckets_v4 t) target count.

Definition dual_find_closest_v6 (t : DualRoutingTable) (target : bytes) (count : nat) :=
  find_closest_in_buckets (buckets_v6 t) target count.

Definition dual_find_closest (t : DualRoutingTable) (target : bytes) (count : nat) : list Node :=
  take count (stable_sort (dist_leb target)
    (dual_find_closest_v4 t target count ++ dual_find_closest_v6 t target count)).

Definition dual_num_nodes (t : DualRoutingTable) : nat :=
  (count_nodes (buckets_v4 t) + count_nodes (buckets_v6 t))%nat.
