(* ===== verification/DhtFacts.v ===== *)
(** Properties of the routing table: bucket indices, the invariant of insertion, and the nodes a
    lookup returns. *)

From stdpp Require Import base numbers list strings sorting sets.
From Stdlib Require Import ZArith Lia.
From S2P Require Import Prelude Facts Error Bencode Net Compact Dht.

(** * Bucket indices *)

Lemma log2_u8 b : in_u8 b → b ≠ 0 → 0 ≤ Z.log2 b ≤ 7.
Proof.
  intros [? ?] Hb. split; [apply Z.log2_nonneg|].
  assert (Z.log2 b < 8); [|lia]. apply Z.log2_lt_pow2; cbn; lia.
Qed.

Lemma in_u8_lxor a b : in_u8 a → in_u8 b → in_u8 (Z.lxor a b).
Proof.
  rewrite !in_u8_bits. intros [Ha Hab] [Hb Hbb]. split; [apply Z.lxor_nonneg; tauto|].
  intros n Hn. by rewrite Z.lxor_spec, Hab, Hbb.
Qed.

(** The bit of [leading_zeros] is the first one set. *)
Lemma leading_zeros_spec b :
  in_u8 b → b ≠ 0 →
  (leading_zeros_u8 b < 8)%nat ∧ Z.testbit b (Z.of_nat (7 - leading_zeros_u8 b)) = true ∧
  ∀ j, (j < leading_zeros_u8 b)%nat → Z.testbit b (Z.of_nat (7 - j)) = false.
Proof.
  intros Hb Hne. pose proof (log2_u8 b Hb Hne) as Hl. unfold leading_zeros_u8.
  rewrite (proj2 (Z.eqb_neq _ _)) by done. split_and!; [lia| |].
  - replace (Z.of_nat _) with (Z.log2 b) by lia. apply Z.bit_log2. destruct Hb. lia.
  - intros j Hj. apply Z.bits_above_log2; destruct Hb; lia.
Qed.

Lemma msb_bit_head x l j : (j < 8)%nat → msb_bit (x :: l) j = Z.testbit x (Z.of_nat (7 - j)).
Proof. intros Hj. unfold msb_bit. rewrite Nat.div_small, Nat.mod_small by done. done. Qed.

Lemma msb_bit_cons x l j : msb_bit (x :: l) (8 + j) = msb_bit l j.
Proof.
  unfold msb_bit. replace (8 + j)%nat with (j + 1 * 8)%nat by lia.
  rewrite Nat.div_add, Nat.Div0.mod_add by lia. by rewrite Nat.add_1_r.
Qed.

Lemma bucket_index_from_spec i a b :
  length a = length b → bytes_ok a → bytes_ok b → a ≠ b →
  ∃ k, bucket_index_from i a b = (8 * i + k)%nat ∧ (k < 8 * length a)%nat ∧
    msb_bit a k ≠ msb_bit b k ∧ ∀ j, (j < k)%nat → msb_bit a j = msb_bit b j.
Proof.
  revert i b. induction a as [|x a IH]; intros i [|y b] Hl Ha Hb Hne; try done.
  apply Forall_cons in Ha as [Hx Ha], Hb as [Hy Hb]. cbn [bucket_index_from].
  destruct (Z.eqb_spec (Z.lxor x y) 0) as [Hxy|Hxy].
  - apply Z.lxor_eq in Hxy as <-. destruct (IH (S i) b) as (k & E & Hk & Hd & Hs);
      [by injection Hl|done..|congruence|].
    exists (8 + k)%nat. rewrite E. rewrite !msb_bit_cons. split_and!; [lia|cbn [length]; lia|done|].
    intros j Hj. destruct (Nat.lt_ge_cases j 8) as [Hj8|Hj8].
    + by rewrite !msb_bit_head.
    + replace j with (8 + (j - 8))%nat by lia. rewrite !msb_bit_cons. apply Hs. lia.
  - destruct (leading_zeros_spec (Z.lxor x y)) as (Hz & Hbit & Hbefore);
      [by apply in_u8_lxor|done|].
    exists (leading_zeros_u8 (Z.lxor x y)). split_and!; [lia|cbn [length]; lia| |].
    + rewrite !msb_bit_head by done. rewrite Z.lxor_spec in Hbit.
      intros H. rewrite H, xorb_nilpotent in Hbit. done.
    + intros j Hj. rewrite !msb_bit_head by lia. specialize (Hbefore j Hj).
      rewrite Z.lxor_spec in Hbefore. by apply xorb_eq in Hbefore.
Qed.

Lemma bucket_index_from_same i a : bucket_index_from i a a = 0%nat.
Proof.
  revert i. induction a as [|x a IH]; intros i; [done|]. cbn [bucket_index_from].
  rewrite Z.lxor_nilpotent. apply IH.
Qed.

Definition id_ok (id : bytes) : Prop := length id = 20%nat ∧ bytes_ok id.

Lemma bucket_index_lt a b :
  id_ok a → id_ok b → (bucket_index a b < NUM_BUCKETS)%nat.
Proof.
  intros [Hla Ha] [Hlb Hb]. unfold bucket_index. destruct (decide (a = b)) as [->|Hne].
  - rewrite bucket_index_from_same. unfold NUM_BUCKETS. lia.
  - destruct (bucket_index_from_spec 0 a b) as (k & -> & Hk & _); [congruence|done..|].
    rewrite Hla in Hk. unfold NUM_BUCKETS. lia.
Qed.

(** The bucket of a node is the position of the first bit, from the most significant one, in
    which its identifier differs from ours; it is below 160, so that indexing the buckets never
    panics, and it is the number of leading zeros of the XOR distance. Our own identifier goes to
    bucket 0. *)
Theorem bucket_index_spec : ∀ our_id id,
  id_ok our_id → id_ok id →
  (bucket_index our_id id < NUM_BUCKETS)%nat ∧ bucket_index our_id our_id = 0%nat ∧
  (our_id ≠ id →
     let i := bucket_index our_id id in
     msb_bit our_id i ≠ msb_bit id i ∧
     (∀ j, (j < i)%nat → msb_bit our_id j = msb_bit id j)).
Proof.
  intros a b Ha Hb. split_and!; [by apply bucket_index_lt|apply bucket_index_from_same|].
  intros Hne. destruct Ha as [Hla Ha], Hb as [Hlb Hb].
  destruct (bucket_index_from_spec 0 a b) as (k & E & Hk); [congruence|done..|].
  unfold bucket_index. rewrite E. cbn [Nat.mul Nat.add]. tauto.
Qed.

Lemma bucket_index_spec_witness :
  let a := replicate 20 0 in
  let b := [0; 0; 3] ++ replicate 17 255 in
  id_ok a ∧ id_ok b ∧ bucket_index a b = 22%nat ∧ msb_bit a (bucket_index a b) ≠ msb_bit b (bucket_index a b).
Proof.
  intros a b. assert (id_ok a ∧ id_ok b) as [Ha Hb].
  { split; (split; [done|]); apply (bool_decide_unpack _); vm_compute; exact I. }
  split_and!; [done|done|by vm_compute|].
  exact (proj1 (proj2 (proj2 (bucket_index_spec a b Ha Hb)) ltac:(discriminate))).
Defined.

(** * The invariant of insertion *)

Lemma elem_of_concat {A} (ls : list (list A)) x : x ∈ concat ls ↔ ∃ l, x ∈ l ∧ l ∈ ls.
Proof.
  rewrite list_elem_of_In, in_concat. split; intros (l & ? & ?); exists l;
    by rewrite ?list_elem_of_In in *.
Qed.

(** Every bucket is a bounded list without duplicate identifiers, and holds only nodes whose
    bucket it is. *)
Definition table_ok (our_id : bytes) (bks : list (list Node)) : Prop :=
  length bks = NUM_BUCKETS ∧
  ∀ i b, bks !! i = Some b →
    KBucket.bucket_ok b ∧ Forall (λ n, id_ok (node_id n) ∧ bucket_index our_id (node_id n) = i) b.

Lemma table_ok_new id : table_ok id (replicate NUM_BUCKETS KBucket.new).
Proof.
  split; [apply length_replicate|]. intros i b [-> _]%lookup_replicate. split; [|by constructor].
  split; [cbn; lia|constructor].
Qed.

Lemma insert_table_ok our_id bks node :
  id_ok our_id → id_ok (node_id node) → table_ok our_id bks →
  ∃ bks' added, insert_into_buckets bks our_id node = Ok (bks', added) ∧ table_ok our_id bks' ∧
    node ∈ concat bks' ∧ (∀ n, n ∈ concat bks' → n = node ∨ n ∈ concat bks) ∧
    added = bool_decide (node_id node ∉ KBucket.ids (concat bks)).
Proof.
  intros Ho Hn [Hlen Hb]. unfold insert_into_buckets.
  set (idx := bucket_index our_id (node_id node)).
  assert (idx < length bks)%nat as Hidx by (rewrite Hlen; by apply bucket_index_lt).
  destruct (index_lt (E:=ErrorKind) bks idx Hidx) as (b & Hlb & ->). cbn [obind].
  destruct (Hb _ _ Hlb) as [Hbok Hin].
  destruct (KBucket.insert_ok b node Hbok) as (Hok' & (b' & Eb & Hsub) & Hadd).
  destruct (KBucket.insert b node) as [b2 added]. cbn [fst snd] in *. subst b2.
  eexists _, _. split; [done|]. split_and!.
  - split; [by rewrite length_insert|]. intros i c Hc.
    destruct (decide (i = idx)) as [->|Hi].
    + rewrite list_lookup_insert_eq in Hc by done. injection Hc as <-. split; [done|].
      apply Forall_app. split; [|by constructor]. apply Forall_forall. intros n Hnb. rewrite Forall_forall in Hin. apply Hin. by eapply elem_of_sublist.
    + rewrite list_lookup_insert_ne in Hc by done. by apply Hb.
  - apply elem_of_concat. exists (b' ++ [node]). split; [by apply elem_of_app; right; apply list_elem_of_singleton|].
    apply list_elem_of_lookup_2 with idx. by apply list_lookup_insert_eq.
  - intros n (c & Hnc & [i Hc]%list_elem_of_lookup_1)%elem_of_concat.
    destruct (decide (i = idx)) as [->|Hi].
    + rewrite list_lookup_insert_eq in Hc by done. injection Hc as <-.
      apply elem_of_app in Hnc as [Hnc|Hnc%list_elem_of_singleton]; [right|by left].
      apply elem_of_concat. exists b. split; [|by eapply list_elem_of_lookup_2].
      by eapply elem_of_sublist.
    + rewrite list_lookup_insert_ne in Hc by done. right. apply elem_of_concat.
      exists c. split; [done|by eapply list_elem_of_lookup_2].
  - rewrite Hadd. apply bool_decide_ext. split.
    + intros Hnot (n & Heq & (c & Hnc & [i Hc]%list_elem_of_lookup_1)%elem_of_concat)%list_elem_of_fmap.
      symmetry in Heq.
      destruct (Hb _ _ Hc) as [_ HF]. rewrite Forall_forall in HF. destruct (HF n Hnc) as [_ Hi].
      rewrite Heq in Hi. fold idx in Hi. subst i. rewrite Hlb in Hc. injection Hc as <-.
      apply Hnot. rewrite <- Heq. by apply (list_elem_of_fmap_2 node_id).
    + intros Hall (n & Heq & Hnb)%list_elem_of_fmap. apply Hall.
      apply list_elem_of_fmap. exists n. split; [done|].
      apply elem_of_concat. exists b. split; [done|by eapply list_elem_of_lookup_2].
Qed.

Lemma concat_length_bound {A} (k : nat) (ls : list (list A)) :
  Forall (λ l, (length l ≤ k)%nat) ls → (length (concat ls) ≤ k * length ls)%nat.
Proof. induction 1 as [|l ls Hl _ IH]; cbn [concat length]; [lia|]. rewrite length_app. nia. Qed.

(** Buckets without duplicates whose elements know their bucket have no duplicates together. *)
Lemma concat_ids_NoDup (f : bytes → nat) (ls : list (list Node)) (k : nat) :
  (∀ i b, ls !! i = Some b →
     NoDup (KBucket.ids b) ∧ Forall (λ n, f (node_id n) = (k + i)%nat) b) →
  NoDup (KBucket.ids (concat ls)).
Proof.
  revert k. induction ls as [|b ls IH]; intros k H; [constructor|].
  cbn [concat]. unfold KBucket.ids. rewrite map_app. apply NoDup_app.
  destruct (H 0%nat b eq_refl) as [Hb HFb]. split_and!; [done| |].
  - intros i (n & -> & Hn)%list_elem_of_fmap (m & Hm & (c & Hmc & [j Hc]%list_elem_of_lookup_1)%elem_of_concat)%list_elem_of_fmap.
    destruct (H (S j) c Hc) as [_ HFc]. rewrite Forall_forall in HFb, HFc.
    specialize (HFb n Hn). specialize (HFc m Hmc). rewrite <- Hm, HFb in HFc. lia.
  - apply (IH (S k)). intros i c Hc. destruct (H (S i) c Hc) as [? HF]. split; [done|].
    eapply Forall_impl; [exact HF|]. intros n Hn. cbn in Hn. lia.
Qed.

Lemma table_ok_NoDup our_id bks : table_ok our_id bks → NoDup (KBucket.ids (concat bks)).
Proof.
  intros [_ H]. apply (concat_ids_NoDup (bucket_index our_id) bks 0).
  intros i b Hb. destruct (H i b Hb) as [[_ Hnd] HF]. split; [done|].
  eapply Forall_impl; [exact HF|]. by intros n [_ ?].
Qed.

Lemma table_ok_size our_id bks : table_ok our_id bks → (count_nodes bks ≤ 8 * 160)%nat.
Proof.
  intros [Hl H]. unfold count_nodes. change 160%nat with NUM_BUCKETS. rewrite <- Hl.
  apply concat_length_bound, Forall_lookup. intros i b Hb. by destruct (H i b Hb) as [[? _] _].
Qed.

(** A routing table after a sequence of insertions. *)
Fixpoint rt_insert_all (t : RoutingTable) (nodes : list Node) : result RoutingTable :=
  match nodes with
  | [] => Ok t
  | n :: nodes' => let! (t', _) := rt_insert t n in rt_insert_all t' nodes'
  end.

Lemma rt_insert_all_ok t nodes :
  id_ok (rt_id t) → Forall (λ n, id_ok (node_id n)) nodes → table_ok (rt_id t) (buckets t) →
  ∃ t', rt_insert_all t nodes = Ok t' ∧ rt_id t' = rt_id t ∧ table_ok (rt_id t) (buckets t') ∧
    (∀ n, n ∈ concat (buckets t') → n ∈ nodes ∨ n ∈ concat (buckets t)).
Proof.
  intros Hid HF. revert t Hid. induction HF as [|n nodes Hn HF IH]; intros t Hid Ht.
  - exists t. split_and!; [done|done|done|by right].
  - destruct (insert_table_ok (rt_id t) (buckets t) n Hid Hn Ht)
      as (bks & added & E & Ht' & Hin & Hfrom & _).
    cbn [rt_insert_all]. unfold rt_insert. rewrite E. cbn [obind].
    destruct (IH {| rt_id := rt_id t; buckets := bks |} Hid Ht') as (t' & -> & Hid' & Hok & Hsub).
    exists t'. split_and!; [done|done|done|].
    intros m [Hm|Hm]%Hsub; [left; by right|]. cbn [buckets] in Hm.
    destruct (Hfrom m Hm) as [->|Hm']; [left; by left|by right].
Qed.

Lemma concat_replicate_nil {A} n : concat (replicate n (@nil A)) = [].
Proof. induction n; [done|]. by cbn. Qed.

(** C39: whatever nodes are inserted into a fresh routing table, no insertion panics, and the table
    keeps its invariant: 160 buckets of at most eight nodes, every node in the bucket of its
    identifier, no identifier twice, and only nodes that were inserted. The next insertion always
    leaves its node in the table, and reports whether its identifier was new. *)
Theorem routing_table_invariant : ∀ our_id nodes node,
  id_ok our_id → Forall (λ n, id_ok (node_id n)) (node :: nodes) →
  ∃ t t' added,
    rt_insert_all (rt_with_id our_id) nodes = Ok t ∧ rt_insert t node = Ok (t', added) ∧
    table_ok our_id (buckets t) ∧ NoDup (KBucket.ids (concat (buckets t))) ∧
    (rt_num_nodes t ≤ 8 * 160)%nat ∧ (∀ n, n ∈ concat (buckets t) → n ∈ nodes) ∧
    node ∈ concat (buckets t') ∧
    added = bool_decide (node_id node ∉ KBucket.ids (concat (buckets t))).
Proof.
  intros our_id nodes node Hid [Hn HF]%Forall_cons.
  destruct (rt_insert_all_ok (rt_with_id our_id) nodes Hid HF (table_ok_new our_id))
    as (t & Et & Hidt & Hok & Hsub).
  cbn [rt_id rt_with_id] in *.
  destruct (insert_table_ok our_id (buckets t) node Hid Hn Hok)
    as (bks & added & E & Ht' & Hin & _ & Ha).
  exists t, {| rt_id := rt_id t; buckets := bks |}, added.
  split_and!; [done| |done|by eapply table_ok_NoDup|by eapply table_ok_size| |done|done].
  - unfold rt_insert. by rewrite Hidt, E.
  - intros n Hnt. destruct (Hsub n Hnt) as [?|Hnil]; [done|].
    change (n ∈ concat (replicate NUM_BUCKETS (@nil Node))) in Hnil.
    rewrite concat_replicate_nil in Hnil.
    by apply elem_of_nil in Hnil.
Qed.

Lemma routing_table_invariant_witness :
  let id := replicate 20 0 in
  let node k := mk_node (replicate 19 0 ++ [k]) (mk_addr (V4 [1; 2; 3; k]) 80) in
  id_ok id ∧
  ∃ t t' added,
    rt_insert_all (rt_with_id id) [node 1; node 2] = Ok t ∧ rt_insert t (node 1) = Ok (t', added) ∧
    (rt_num_nodes t ≤ 8 * 160)%nat ∧ node 1 ∈ concat (buckets t').
Proof.
  intros id node.
  assert (id_ok id) as Hid by (split; [done|]; apply (bool_decide_unpack _); vm_compute; exact I).
  split; [exact Hid|].
  destruct (routing_table_invariant id [node 1; node 2] (node 1) Hid) as (t & t' & a & H).
  { apply (bool_decide_unpack _). vm_compute. exact I. }
  exists t, t', a. tauto.
Defined.

(** * The closest nodes *)

Section closest.
Context {A : Type} (leb : A → A → bool).
Context (leb_total : ∀ x y, leb x y = true ∨ leb y x = true).
Context (leb_trans : ∀ x y z, leb x y = true → leb y z = true → leb x z = true).

(** [r] are the [count] smallest elements of [all], in order. *)
Definition closest (count : nat) (all r : list A) : Prop :=
  ∃ rest, all ≡ₚ r ++ rest ∧ length r = Nat.min count (length all) ∧
    StronglySorted (λ x y, leb x y = true) r ∧
    ∀ x y, x ∈ r → y ∈ rest → leb x y = true.

Lemma closest_take_sort count all : closest count all (take count (stable_sort leb all)).
Proof.
  exists (drop count (stable_sort leb all)).
  pose proof (stable_sort_sorted leb leb_total leb_trans all) as Hs.
  split_and!.
  - rewrite take_drop. symmetry. apply stable_sort_perm.
  - by rewrite length_take, stable_sort_length.
  - rewrite <- (take_drop count (stable_sort leb all)) in Hs.
    by apply StronglySorted_app_1_l in Hs.
  - rewrite <- (take_drop count (stable_sort leb all)) in Hs.
    intros x y Hx Hy. apply StronglySorted_app in Hs as [Hs _]. by apply Hs.
Qed.

Definition ltb (x y : A) : bool := negb (leb y x).

(** Taking the closest of the closest of two lists loses nothing. *)
Lemma closest_merge_half count (a ra resta rb r rest : list A) x y :
  (a ≡ₚ ra ++ resta) → length ra = Nat.min count (length a) →
  (∀ x y, x ∈ ra → y ∈ resta → leb x y = true) →
  (ra ++ rb ≡ₚ r ++ rest) → length r = Nat.min count (length (ra ++ rb)) →
  (∀ x y, x ∈ r → y ∈ rest → leb x y = true) →
  x ∈ r → y ∈ resta → leb x y = true.
Proof.
  intros Ha Hla Hra Hm Hlr Hr Hx Hy. destruct (leb x y) eqn:Hxy; [done|]. exfalso.
  assert (leb y x = true) as Hyx by (destruct (leb_total x y); congruence).
  assert (length a = length ra + length resta)%nat as Hlen by by rewrite Ha, length_app.
  assert (0 < length resta)%nat by (destruct resta; [by apply elem_of_nil in Hy|cbn; lia]).
  assert (length ra = count) as Hc by lia.
  assert (length r = count) as Hcr by (rewrite length_app in Hlr; lia).
  set (P := λ z, leb x z = false).
  assert (HP : ∀ z, Decision (P z)) by (intros z; unfold P; apply _).
  assert (filter P ra = ra) as Efa.
  { apply filter_every. intros z Hz. unfold P. destruct (leb x z) eqn:Hxz; [|done].
    rewrite (leb_trans x z y Hxz) in Hxy; [done|]. by apply Hra. }
  assert (filter P rest = []) as Efr.
  { apply filter_none. intros z Hz. unfold P. by rewrite (Hr x z Hx Hz). }
  assert (length (filter P (ra ++ rb)) = length (filter P (r ++ rest))) as E by by rewrite Hm.
  rewrite !filter_app, Efa, Efr, app_nil_r, length_app in E.
  assert (length (filter P r) < length r)%nat; [|lia].
  apply (length_filter_lt P r x Hx). unfold P.
  destruct (leb_total x x) as [->| ->]; done.
Qed.

Lemma closest_merge count a b ra rb r :
  closest count a ra → closest count b rb → closest count (ra ++ rb) r →
  closest count (a ++ b) r.
Proof.
  intros (resta & Ha & Hla & _ & Hra) (restb & Hb & Hlb & _ & Hrb) (rest & Hr & Hlr & Hs & Hrr).
  exists (rest ++ resta ++ restb). split_and!.
  - rewrite Ha, Hb. rewrite (app_assoc r), <- Hr. solve_Permutation.
  - rewrite Hlr, !length_app, Hla, Hlb. lia.
  - done.
  - intros x y Hx [Hy|[Hy|Hy]%elem_of_app]%elem_of_app; [by apply Hrr| |].
    + by eapply (closest_merge_half count a ra resta rb r rest).
    + eapply (closest_merge_half count b rb restb ra r rest); try done.
      * by rewrite (Permutation_app_comm rb ra).
      * rewrite Hlr, !length_app. lia.
Qed.
End closest.

Lemma dist_leb_total target x y : dist_leb target x y = true ∨ dist_leb target y x = true.
Proof. apply bytes_leb_total. Qed.

Lemma dist_leb_trans target x y z :
  dist_leb target x y = true → dist_leb target y z = true → dist_leb target x z = true.
Proof. apply bytes_leb_trans. Qed.

Lemma bytes_leb_be_val a b :
  length a = length b → bytes_ok a → bytes_ok b → bytes_leb a b = (be_val a <=? be_val b).
Proof.
  revert b. induction a as [|x a IH]; intros [|y b] Hl Ha Hb; try done.
  apply Forall_cons in Ha as [Hx Ha], Hb as [Hy Hb]. injection Hl as Hl.
  cbn [bytes_leb]. rewrite !be_val_cons, IH by done. rewrite Hl.
  pose proof (be_val_bound a Ha) as Hba. pose proof (be_val_bound b Hb) as Hbb. rewrite Hl in Hba.
  set (p := 256 ^ Z.of_nat (length b)) in *.
  destruct (Z.ltb_spec x y), (Z.eqb_spec x y); cbn [orb andb]; subst;
    repeat case_bool; try done; try lia; exfalso; nia.
Qed.

Lemma length_xor_bytes a b : length a = length b → length (xor_bytes a b) = length a.
Proof.
  revert b. induction a as [|x a IH]; intros [|y b] H; try done. cbn. f_equal. apply IH. by injection H.
Qed.

Lemma xor_bytes_ok a b : bytes_ok a → bytes_ok b → bytes_ok (xor_bytes a b).
Proof.
  intros Ha. revert b. induction Ha as [|x a Hx Ha IH]; intros b Hb; [by constructor|].
  destruct Hb as [|y b Hy Hb]; [by constructor|]. constructor; [by apply in_u8_lxor|by apply IH].
Qed.

(** The comparison of distances is the comparison of 160-bit numbers. *)
Lemma dist_leb_number target m n :
  id_ok target → id_ok (node_id m) → id_ok (node_id n) →
  dist_leb target m n =
    (be_val (xor_distance (node_id m) target) <=? be_val (xor_distance (node_id n) target)).
Proof.
  intros [Hlt Ht] [Hlm Hm] [Hln Hn]. unfold dist_leb, xor_distance. apply bytes_leb_be_val.
  - rewrite !length_xor_bytes by congruence. congruence.
  - by apply xor_bytes_ok.
  - by apply xor_bytes_ok.
Qed.

(** C40: [find_closest] returns the nodes of the table nearest to the target: as many as it has, up
    to [count], sorted by XOR distance, and no node left out is nearer than one returned. The dual
    table does the same over the union of its two families, although it merges two partial
    results; the distance is compared as a 160-bit number. *)
Theorem find_closest_is_closest : ∀ target count,
  (∀ t, closest (dist_leb target) count (concat (buckets t)) (rt_find_closest t target count)) ∧
  (∀ t, closest (dist_leb target) count
          (concat (buckets_v4 t) ++ concat (buckets_v6 t)) (dual_find_closest t target count)) ∧
  (∀ m n, id_ok target → id_ok (node_id m) → id_ok (node_id n) →
     dist_leb target m n =
       (be_val (xor_distance (node_id m) target) <=? be_val (xor_distance (node_id n) target))).
Proof.
  intros target count. pose proof (dist_leb_total target) as Ht.
  pose proof (dist_leb_trans target) as Htr. split_and!.
  - intros t. by apply closest_take_sort.
  - intros t. unfold dual_find_closest, dual_find_closest_v4, dual_find_closest_v6.
    apply (closest_merge (dist_leb target) Ht Htr count _ _ (find_closest_in_buckets (buckets_v4 t) target count)
             (find_closest_in_buckets (buckets_v6 t) target count)); by apply closest_take_sort.
  - by apply dist_leb_number.
Qed.

