(* ===== verification/Piece.v ===== *)
(** Piece bookkeeping and piece selection:
    [crates/torrent-core/src/piece/manager.rs], [crates/torrent-core/src/piece/selector.rs], and
    [parse_bitfield] of [crates/torrent/src/session/swarm/types.rs].

    A piece index is a [u32], a [Z] here; a bitfield is a list of booleans. *)

From stdpp Require Import base numbers list.
From Stdlib Require Import ZArith Lia SpecFloat.
From S2P Require Import Prelude Facts F64.

(** * Piece manager *)

(** [struct PieceManager]. *)
Record PieceManager : Type := { num_pieces : nat; bitfield : list bool }.

Definition pm_new (n : nat) : PieceManager := {| num_pieces := n; bitfield := replicate n false |}.

(** [bitfield[i] = true] is in range because the two fields agree, see [pm_ok]. *)
Definition set_piece (pm : PieceManager) (index : Z) : PieceManager :=
  let i := Z.to_nat index in
  if (i <? num_pieces pm)%nat then
    {| num_pieces := num_pieces pm; bitfield := <[i:=true]> (bitfield pm) |}
  else pm.

Definition has_piece (pm : PieceManager) (index : Z) : bool :=
  let i := Z.to_nat index in
  (i <? num_pieces pm)%nat && default false (bitfield pm !! i).

(** [iter().enumerate().filter(p).map(|(i, _)| i as u32)]. *)
Definition indices_where (p : bool → bool) (bf : list bool) : list Z :=
  map (λ e, as_u32 (Z.of_nat e.1)) (filter (λ e, p e.2 = true) (imap pair bf)).

Definition completed_pieces (pm : PieceManager) : list Z := indices_where id (bitfield pm).

Definition missing_pieces (pm : PieceManager) : list Z := indices_where negb (bitfield pm).

Definition f64_of_nat (n : nat) : spec_float := f64_of_Z (Z.of_nat n).

Definition progress (pm : PieceManager) : spec_float :=
  if (num_pieces pm =? 0)%nat then f64_one
  else f64_div (f64_of_nat (length (filter (λ b, b = true) (bitfield pm))))
         (f64_of_nat (num_pieces pm)).

(** The loop of [to_bitfield], which sets the bit of every piece we have. *)
Definition to_bitfield (pm : PieceManager) : bytes :=
  let byte_count := ((num_pieces pm + 7) / 8)%nat in
  foldl (λ bytes e, if (e.2 : bool) then set_msb_bit bytes e.1 else bytes)
    (replicate byte_count 0) (imap pair (bitfield pm)).

(** [parse_bitfield] of [swarm/types.rs]: bits past the end of the bytes are unset, surplus bits are
    ignored. *)
Definition parse_bitfield (bytes : bytes) (n : nat) : list bool :=
  map (λ i, if (i / 8 <? length bytes)%nat
            then negb (Z.land (default 0 (bytes !! (i / 8)%nat))
                         (Z.shiftl 1 (Z.of_nat (7 - i mod 8))) =? 0)
            else false) (seq 0 n).

Definition pm_ok (pm : PieceManager) : Prop := length (bitfield pm) = num_pieces pm.

(** * Piece selection *)

(** The candidates all selectors share: the piece is missing and some peer has it. *)
Definition candidate_at (our_bitfield : list bool) (availability : list nat) (i : nat) : bool :=
  negb (default false (our_bitfield !! i)) && (0 <? default 0%nat (availability !! i))%nat.

(** The loop of [RarestFirst::select] over [0..len], with [best_idx] and [best_count];
    [best_count] starts at [usize::MAX]. *)
Fixpoint rarest_loop (i : nat) (ours : list bool) (avail : list nat)
    (best_idx : option Z) (best_count : Z) : option Z :=
  match ours, avail with
  | have :: ours', count :: avail' =>
      if have then rarest_loop (S i) ours' avail' best_idx best_count
      else if (count =? 0)%nat then rarest_loop (S i) ours' avail' best_idx best_count
      else if Z.of_nat count <? best_count
      then rarest_loop (S i) ours' avail' (Some (as_u32 (Z.of_nat i))) (Z.of_nat count)
      else rarest_loop (S i) ours' avail' best_idx best_count
  | _, _ => best_idx
  end.

Definition rarest_first (our_bitfield : list bool) (availability : list nat) : option Z :=
  rarest_loop 0 our_bitfield availability None u64_max.

Definition candidates (our_bitfield : list bool) (availability : list nat) : list Z :=
  map (λ i, as_u32 (Z.of_nat i))
    (filter (λ i, candidate_at our_bitfield availability i = true)
       (seq 0 (Nat.min (length our_bitfield) (length availability)))).

(** [RandomFirst::select]: [pick] is the random index drawn below the number of candidates. *)
Definition random_first (pick : nat → nat) (our_bitfield : list bool) (availability : list nat)
    : option Z :=
  match candidates our_bitfield availability with
  | [] => None
  | cs => cs !! pick (length cs)
  end.

Definition sequential (our_bitfield : list bool) (availability : list nat) : option Z :=
  match List.find (candidate_at our_bitfield availability)
          (seq 0 (Nat.min (length our_bitfield) (length availability))) with
  | Some i => Some (as_u32 (Z.of_nat i))
  | None => None
  end.

Definition end_game (our_bitfield : list bool) (availability : list nat) : option Z :=
  sequential our_bitfield availability.

(** * Facts about the piece manager *)

Lemma pm_new_ok n : pm_ok (pm_new n).
Proof. apply length_replicate. Qed.

Lemma set_piece_ok pm i : pm_ok pm → pm_ok (set_piece pm i).
Proof.
  unfold pm_ok, set_piece. intros H. destruct (_ <? _)%nat; [|done]. cbn. by rewrite length_insert.
Qed.

#[export] Hint Resolve pm_new_ok set_piece_ok : torrent.

Lemma has_piece_set pm i j :
  pm_ok pm → 0 ≤ i → 0 ≤ j →
  has_piece (set_piece pm i) j =
    bool_decide (i = j ∧ i < Z.of_nat (num_pieces pm)) || has_piece pm j.
Proof.
  intros Hok Hi Hj. unfold has_piece, set_piece.
  destruct (Nat.ltb_spec (Z.to_nat i) (num_pieces pm)) as [Hlt|Hge]; cbn [num_pieces bitfield].
  - destruct (decide (i = j)) as [->|Hne].
    + rewrite bool_decide_eq_true_2 by lia. rewrite (proj2 (Nat.ltb_lt _ _)) by done.
      by rewrite list_lookup_insert_eq by (rewrite Hok; done).
    + rewrite bool_decide_eq_false_2 by tauto. by rewrite list_lookup_insert_ne by lia.
  - rewrite bool_decide_eq_false_2 by lia. done.
Qed.

Lemma indices_where_elem p bf i :
  Z.of_nat (length bf) ≤ u32_max →
  i ∈ indices_where p bf ↔ 0 ≤ i ∧ p <$> bf !! Z.to_nat i = Some true.
Proof.
  intros Hlen. unfold indices_where. rewrite list_elem_of_fmap. split.
  - intros ([k b] & -> & [Hp Hin]%list_elem_of_filter). cbn in *.
    apply list_elem_of_lookup_1 in Hin as [n Hn]. rewrite list_lookup_imap in Hn.
    apply fmap_Some in Hn as (b' & Hb' & [= <- <-]).
    pose proof (lookup_lt_Some _ _ _ Hb') as Hlt. unfold as_u32. rewrite Z.mod_small by lia.
    rewrite Nat2Z.id, Hb'. cbn. rewrite Hp. split; [lia|done].
  - intros [H0 (b & Hb & Hp)%fmap_Some]. exists (Z.to_nat i, b). cbn.
    pose proof (lookup_lt_Some _ _ _ Hb) as Hlt. split.
    + unfold as_u32. rewrite Z.mod_small by lia. lia.
    + apply list_elem_of_filter. split; [done|].
      apply list_elem_of_lookup_2 with (Z.to_nat i). rewrite list_lookup_imap, Hb. done.
Qed.

Lemma completed_pieces_spec pm i :
  pm_ok pm → Z.of_nat (num_pieces pm) ≤ u32_max → 0 ≤ i →
  i ∈ completed_pieces pm ↔ has_piece pm i = true.
Proof.
  intros Hok Hn Hi. unfold completed_pieces. rewrite indices_where_elem by (by rewrite Hok).
  unfold has_piece. destruct (bitfield pm !! Z.to_nat i) as [b|] eqn:Hb; cbn [fmap option_fmap option_map from_option].
  - apply lookup_lt_Some in Hb. rewrite Hok in Hb. rewrite (proj2 (Nat.ltb_lt _ _)) by done.
    cbn [andb]. unfold id. split; [by intros [_ [= ->]]|by intros ->].
  - split; [by intros [_ ?]|]. rewrite andb_false_r. done.
Qed.

Lemma missing_pieces_spec pm i :
  pm_ok pm → Z.of_nat (num_pieces pm) ≤ u32_max → 0 ≤ i →
  i ∈ missing_pieces pm ↔ i < Z.of_nat (num_pieces pm) ∧ has_piece pm i = false.
Proof.
  intros Hok Hn Hi. unfold missing_pieces. rewrite indices_where_elem by (by rewrite Hok).
  unfold has_piece. destruct (bitfield pm !! Z.to_nat i) as [b|] eqn:Hb; cbn [fmap option_fmap option_map from_option].
  - apply lookup_lt_Some in Hb. rewrite Hok in Hb. rewrite (proj2 (Nat.ltb_lt _ _)) by done.
    unfold id. destruct b; cbn [andb negb]; split; intros [? ?]; done || (split; [lia|done]).
  - apply lookup_ge_None in Hb. rewrite Hok in Hb. split; [by intros [_ ?]|]. lia.
Qed.

(** ** The bitfield message *)

Lemma to_bitfield_loop bf k bytes j :
  (∀ i, (i < length bf)%nat → ((k + i) / 8 < length bytes)%nat) →
  let r := foldl (λ bytes e, if (e.2 : bool) then set_msb_bit bytes e.1 else bytes)
             bytes (imap (λ i b, (k + i, b)%nat) bf) in
  length r = length bytes ∧
  msb_bit r j = (if (k <=? j)%nat then default false (bf !! (j - k)%nat) else false) || msb_bit bytes j.
Proof.
  revert k bytes. induction bf as [|b bf IH]; intros k bytes Hin; cbn [imap foldl].
  - split; [done|]. by destruct (k <=? j)%nat.
  - rewrite Nat.add_0_r. cbn [fst snd].
    set (bytes' := if b then set_msb_bit bytes k else bytes).
    assert (length bytes' = length bytes) as Hl by (unfold bytes'; destruct b; [apply length_set_msb_bit|done]).
    rewrite (imap_ext _ (λ i b, (S k + i, b)%nat)) by (intros; cbn; f_equal; lia).
    destruct (IH (S k) bytes') as [Hl' ->].
    { intros i Hi. rewrite Hl. replace (S k + i)%nat with (k + S i)%nat by lia. apply Hin. cbn. lia. }
    split; [by rewrite Hl'|].
    assert (msb_bit bytes' j = (bool_decide (k = j) && b) || msb_bit bytes j) as ->.
    { unfold bytes'. destruct b; [|by rewrite andb_false_r].
      rewrite msb_bit_set, andb_true_r; [done|]. specialize (Hin 0%nat).
      rewrite Nat.add_0_r in Hin. apply Hin. cbn. lia. }
    rewrite orb_assoc. f_equal.
    destruct (Nat.leb_spec k j), (Nat.leb_spec (S k) j); try lia.
    + rewrite bool_decide_eq_false_2 by lia. replace (j - k)%nat with (S (j - S k)) by lia.
      cbn. by rewrite orb_false_r.
    + replace j with k by lia. rewrite bool_decide_eq_true_2, Nat.sub_diag by done. by destruct b.
    + rewrite bool_decide_eq_false_2 by lia. done.
Qed.

Lemma to_bitfield_spec pm j :
  pm_ok pm →
  length (to_bitfield pm) = ((num_pieces pm + 7) / 8)%nat ∧
  msb_bit (to_bitfield pm) j = default false (bitfield pm !! j).
Proof.
  intros Hok. unfold to_bitfield.
  destruct (to_bitfield_loop (bitfield pm) 0 (replicate ((num_pieces pm + 7) / 8) 0) j) as [Hl Hj].
  - intros i Hi. rewrite length_replicate. rewrite Hok in Hi. cbn [Nat.add].
    pose proof (Nat.div_mod_eq i 8). pose proof (Nat.div_mod_eq (num_pieces pm + 7) 8).
    pose proof (Nat.mod_upper_bound (num_pieces pm + 7) 8 ltac:(lia)). lia.
  - rewrite length_replicate in Hl. rewrite msb_bit_zero, orb_false_r, Nat.sub_0_r in Hj.
    by split.
Qed.

Lemma testbit_land_shiftl b n : 0 ≤ n → negb (Z.land b (Z.shiftl 1 n) =? 0) = Z.testbit b n.
Proof.
  intros Hn. rewrite Z.shiftl_1_l.
  destruct (Z.testbit b n) eqn:Hb.
  - apply negb_true_iff, Z.eqb_neq. intros H. assert (Z.testbit (Z.land b (2 ^ n)) n = false) as Hz
      by (rewrite H; apply Z.bits_0).
    rewrite Z.land_spec, Hb, Z.pow2_bits_true in Hz by done. done.
  - apply negb_false_iff, Z.eqb_eq, Z.bits_inj'. intros m Hm. rewrite Z.land_spec, Z.bits_0.
    destruct (decide (m = n)) as [->|Hne]; [by rewrite Hb|].
    rewrite Z.pow2_bits_false by done. apply andb_false_r.
Qed.

Lemma parse_bitfield_eq bytes n : parse_bitfield bytes n = map (msb_bit bytes) (seq 0 n).
Proof.
  unfold parse_bitfield. apply map_ext. intros i. unfold msb_bit.
  destruct (Nat.ltb_spec (i / 8) (length bytes)) as [Hlt|Hge].
  - apply lookup_lt_is_Some in Hlt as [b ->]. cbn. by rewrite testbit_land_shiftl by lia.
  - by rewrite (proj2 (lookup_ge_None _ _) Hge).
Qed.

Lemma seq_lookup_map {A} (d : A) (l : list A) : map (λ i, default d (l !! i)) (seq 0 (length l)) = l.
Proof.
  apply list_eq. intros i. change (map ?f ?l) with (f <$> l). rewrite list_lookup_fmap.
  destruct (Nat.lt_ge_cases i (length l)) as [Hi|Hi].
  - rewrite lookup_seq_lt by done. cbn. by destruct (lookup_lt_is_Some_2 l i Hi) as [x ->].
  - rewrite lookup_seq_ge by done. cbn. symmetry. by apply lookup_ge_None.
Qed.

(** * Facts about selection *)

(** A swarm the counters of the code can hold. *)
Definition sizes_ok (ours : list bool) (avail : list nat) : Prop :=
  Z.of_nat (length ours) ≤ u32_max ∧ Forall (λ c, Z.of_nat c < u64_max) avail.

Lemma candidate_at_lt ours avail i :
  (i < Nat.min (length ours) (length avail))%nat →
  candidate_at ours avail i = true ↔
    ours !! i = Some false ∧ ∃ c, avail !! i = Some c ∧ (0 < c)%nat.
Proof.
  intros Hi. unfold candidate_at.
  destruct (lookup_lt_is_Some_2 ours i) as [b ->]; [lia|].
  destruct (lookup_lt_is_Some_2 avail i) as [c ->]; [lia|]. cbn [from_option]. unfold id.
  rewrite andb_true_iff, negb_true_iff, Nat.ltb_lt. split.
  - intros [-> ?]. split; [done|eauto].
  - intros [[= ->] (c' & [= <-] & ?)]. done.
Qed.

(** What a loop from position [k] returns: the earlier choice if nothing beats its count, and
    otherwise the first of the rarest candidates. *)
Definition rarest_result (k : nat) (ours : list bool) (avail : list nat)
    (best : option Z) (cnt : Z) (r : option Z) : Prop :=
  (r = best ∧ ∀ i c, ours !! i = Some false → avail !! i = Some c → (0 < c)%nat → cnt ≤ Z.of_nat c)
  ∨ ∃ i c, r = Some (as_u32 (Z.of_nat (k + i))) ∧ ours !! i = Some false ∧ avail !! i = Some c ∧
      (0 < c)%nat ∧ Z.of_nat c < cnt ∧
      (∀ j d, ours !! j = Some false → avail !! j = Some d → (0 < d)%nat →
         (c ≤ d)%nat ∧ ((j < i)%nat → (c < d)%nat)).

Lemma rarest_loop_skip k b c ours avail best cnt r :
  (b = true ∨ c = 0%nat ∨ cnt ≤ Z.of_nat c) →
  rarest_result (S k) ours avail best cnt r → rarest_result k (b :: ours) (c :: avail) best cnt r.
Proof.
  intros Hskip [[-> Hall]|(i & d & -> & Ho & Ha & Hd & Hlt & Hmin)].
  - left. split; [done|]. intros [|i] d Ho Ha Hd; cbn in Ho, Ha; [|by eapply Hall].
    injection Ho as ->. injection Ha as ->. destruct Hskip as [?|[?|?]]; [done|lia|done].
  - right. exists (S i), d. split_and!; [do 2 f_equal; lia|done|done|done|done|].
    intros [|j] e Hoj Haj He; cbn in Hoj, Haj.
    + injection Hoj as ->. injection Haj as ->. destruct Hskip as [?|[?|?]]; [done|lia|lia].
    + destruct (Hmin j e Hoj Haj He) as [? Hj]. split; [done|]. intros. apply Hj. lia.
Qed.

Lemma rarest_loop_spec k ours avail best cnt :
  rarest_result k ours avail best cnt (rarest_loop k ours avail best cnt).
Proof.
  revert k avail best cnt. induction ours as [|b ours IH]; intros k avail best cnt.
  { left. split; [by destruct avail|]. intros i c H. by rewrite lookup_nil in H. }
  destruct avail as [|c avail].
  { left. split; [done|]. intros i c _ H. by rewrite lookup_nil in H. }
  cbn [rarest_loop]. destruct b; [apply rarest_loop_skip; [by left|apply IH]|].
  destruct (Nat.eqb_spec c 0); [apply rarest_loop_skip; [by right; left|apply IH]|].
  destruct (Z.ltb_spec (Z.of_nat c) cnt) as [Hlt|Hge];
    [|apply rarest_loop_skip; [by right; right|apply IH]].
  destruct (IH (S k) avail (Some (as_u32 (Z.of_nat k))) (Z.of_nat c))
    as [[-> Hall]|(i & d & -> & Ho & Ha & Hd & Hlt' & Hmin)]; right.
  - exists 0%nat, c. rewrite Nat.add_0_r. split_and!; [done|done|done|lia|done|].
    intros [|j] e Hoj Haj He; cbn in Hoj, Haj; [injection Haj as ->; lia|].
    specialize (Hall j e Hoj Haj He). lia.
  - exists (S i), d. split_and!; [do 2 f_equal; lia|done|done|done|lia|].
    intros [|j] e Hoj Haj He; cbn in Hoj, Haj; [injection Haj as ->; lia|].
    destruct (Hmin j e Hoj Haj He) as [? Hj]. split; [done|]. intros. apply Hj. lia.
Qed.

(** The contract of the trait [PieceSelector]: a selector picks a piece that is missing and that
    some peer has, and picks one whenever there is one. *)
Class PieceSelector (select : list bool → list nat → option Z) : Prop := {
  select_sound ours avail i :
    sizes_ok ours avail → select ours avail = Some i →
    0 ≤ i ∧ ours !! Z.to_nat i = Some false ∧
    ∃ c, avail !! Z.to_nat i = Some c ∧ (0 < c)%nat;
  select_complete ours avail :
    sizes_ok ours avail → select ours avail = None →
    ∀ i c, ours !! i = Some false → avail !! i = Some c → c = 0%nat;
}.

Lemma as_u32_small n : Z.of_nat n ≤ u32_max → as_u32 (Z.of_nat n) = Z.of_nat n.
Proof. intros. unfold as_u32. apply Z.mod_small. lia. Qed.

Lemma sizes_ok_index ours avail i b :
  sizes_ok ours avail → ours !! i = Some b → as_u32 (Z.of_nat i) = Z.of_nat i.
Proof. intros [Hl _] Hi%lookup_lt_Some. apply as_u32_small. lia. Qed.

#[global] Instance rarest_first_selector : PieceSelector rarest_first.
Proof.
  split.
  - intros ours avail i Hs H. unfold rarest_first in H.
    destruct (rarest_loop_spec 0 ours avail None u64_max)
      as [[E _]|(k & c & E & Ho & Ha & Hc & _)]; rewrite H in E; [done|]. injection E as ->.
    cbn [Nat.add]. rewrite (sizes_ok_index ours avail k false) by done. rewrite Nat2Z.id.
    split; [lia|]. eauto.
  - intros ours avail [_ Hs] H i c Ho Ha. unfold rarest_first in H.
    destruct (rarest_loop_spec 0 ours avail None u64_max)
      as [[_ Hall]|(k & d & E & _)]; [|rewrite H in E; done].
    rewrite Forall_lookup in Hs. specialize (Hs i c Ha). cbn in Hs.
    destruct (Nat.eq_dec c 0); [done|]. specialize (Hall i c Ho Ha). lia.
Qed.

Lemma candidate_lookup ours avail i :
  sizes_ok ours avail →
  candidate_at ours avail i = true → (i < Nat.min (length ours) (length avail))%nat →
  0 ≤ as_u32 (Z.of_nat i) ∧ ours !! Z.to_nat (as_u32 (Z.of_nat i)) = Some false ∧
  ∃ c, avail !! Z.to_nat (as_u32 (Z.of_nat i)) = Some c ∧ (0 < c)%nat.
Proof.
  intros Hs Hc Hi. apply candidate_at_lt in Hc as [Ho Hc]; [|done].
  rewrite (sizes_ok_index ours avail i false) by done. rewrite Nat2Z.id. split; [lia|done].
Qed.

Lemma candidate_none ours avail i c :
  ours !! i = Some false → avail !! i = Some c → c ≠ 0%nat →
  candidate_at ours avail i = true ∧ i ∈ seq 0 (Nat.min (length ours) (length avail)).
Proof.
  intros Ho Ha Hc. assert (i < Nat.min (length ours) (length avail))%nat as Hi
    by (apply lookup_lt_Some in Ho, Ha; lia).
  split; [apply candidate_at_lt; [done|]; split; [done|]; exists c; split; [done|lia]|].
  apply elem_of_seq. lia.
Qed.

#[global] Instance sequential_selector : PieceSelector sequential.
Proof.
  split.
  - intros ours avail i Hs H. unfold sequential in H.
    destruct (List.find _ _) as [k|] eqn:Hf; [|done]. injection H as <-.
    apply find_some in Hf as [Hin Hc]. apply in_seq in Hin. apply candidate_lookup; [done..|lia].
  - intros ours avail _ H i c Ho Ha. unfold sequential in H.
    destruct (List.find _ _) as [k|] eqn:Hf; [done|].
    destruct (Nat.eq_dec c 0) as [|Hc]; [done|]. exfalso.
    destruct (candidate_none ours avail i c Ho Ha Hc) as [Hcand Hin].
    rewrite (find_none _ _ Hf i) in Hcand; [done|]. by apply list_elem_of_In.
Qed.

#[global] Instance random_first_selector pick :
  (∀ n, (0 < n)%nat → (pick n < n)%nat) → PieceSelector (random_first pick).
Proof.
  intros Hpick. split.
  - intros ours avail i Hs H. unfold random_first in H.
    assert (i ∈ candidates ours avail) as Hi.
    { destruct (candidates ours avail); [done|]. by eapply list_elem_of_lookup_2. }
    unfold candidates in Hi. apply list_elem_of_fmap in Hi as (k & -> & [Hc Hk]%list_elem_of_filter).
    apply elem_of_seq in Hk. apply candidate_lookup; [done..|lia].
  - intros ours avail _ H i c Ho Ha. unfold random_first in H.
    destruct (Nat.eq_dec c 0) as [|Hc]; [done|]. exfalso.
    destruct (candidate_none ours avail i c Ho Ha Hc) as [Hcand Hin].
    assert (as_u32 (Z.of_nat i) ∈ candidates ours avail) as Hmem.
    { apply (list_elem_of_fmap_2 (λ i, as_u32 (Z.of_nat i))). by apply list_elem_of_filter. }
    destruct (candidates ours avail) as [|x l] eqn:E; [by apply elem_of_nil in Hmem|].
    apply lookup_ge_None in H. specialize (Hpick (length (x :: l))). cbn [length] in *. lia.
Qed.

(** * Properties *)

(** The bitfield message carries exactly the pieces we have. It has one bit per piece, most
    significant first, and no other bit set; the parser of the receiving peer returns the bitfield
    unchanged; [set_piece] sets one piece, in range, and nothing else. *)
Theorem bitfield_through_wire : ∀ pm i,
  pm_ok pm → 0 ≤ i →
  parse_bitfield (to_bitfield pm) (num_pieces pm) = bitfield pm ∧
  length (to_bitfield pm) = ((num_pieces pm + 7) / 8)%nat ∧
  (∀ j, (num_pieces pm ≤ j)%nat → msb_bit (to_bitfield pm) j = false) ∧
  pm_ok (set_piece pm i) ∧
  (∀ j, 0 ≤ j → has_piece (set_piece pm i) j =
     bool_decide (i = j ∧ i < Z.of_nat (num_pieces pm)) || has_piece pm j).
Proof.
  intros pm i Hok Hi. split_and!.
  - rewrite parse_bitfield_eq, (map_ext _ (λ j, default false (bitfield pm !! j))).
    + rewrite <- Hok. apply seq_lookup_map.
    + intros j. by apply to_bitfield_spec.
  - by apply (to_bitfield_spec pm 0).
  - intros j Hj. rewrite (proj2 (to_bitfield_spec pm j Hok)).
    by rewrite (proj2 (lookup_ge_None _ _)) by (rewrite Hok; done).
  - auto with torrent.
  - intros j Hj. by apply has_piece_set.
Qed.

Definition sample_manager : PieceManager := set_piece (set_piece (pm_new 10) 0) 9.

Lemma bitfield_through_wire_witness :
  to_bitfield sample_manager = [128; 64] ∧
  parse_bitfield (to_bitfield sample_manager) 10 = bitfield sample_manager.
Proof.
  split; [by vm_compute|].
  refine (proj1 (bitfield_through_wire sample_manager 3 _ _)); [|lia].
  unfold sample_manager. auto with torrent.
Defined.

(** rarest-first picks a missing piece that some peer has, no reachable missing piece is held
    by fewer peers, and among the rarest it picks the first; it picks nothing only when no missing
    piece is reachable. *)
Theorem rarest_first_minimal : ∀ ours avail,
  sizes_ok ours avail →
  match rarest_first ours avail with
  | Some i =>
      ∃ c, 0 ≤ i ∧ ours !! Z.to_nat i = Some false ∧ avail !! Z.to_nat i = Some c ∧ (0 < c)%nat ∧
      ∀ j d, ours !! j = Some false → avail !! j = Some d → (0 < d)%nat →
        (c ≤ d)%nat ∧ ((j < Z.to_nat i)%nat → (c < d)%nat)
  | None => ∀ j d, ours !! j = Some false → avail !! j = Some d → d = 0%nat
  end.
Proof.
  intros ours avail Hs. destruct (rarest_first ours avail) as [i|] eqn:H.
  - unfold rarest_first in H. destruct (rarest_loop_spec 0 ours avail None u64_max)
      as [[E _]|(k & c & E & Ho & Ha & Hc & _ & Hmin)]; rewrite H in E; [done|]. injection E as ->.
    cbn [Nat.add]. rewrite (sizes_ok_index ours avail k false) by done. rewrite Nat2Z.id.
    exists c. split_and!; [lia|done..].
  - exact (select_complete ours avail Hs H).
Qed.

Lemma rarest_first_minimal_witness :
  let ours := [true; false; false; false] in
  let avail := [1; 3; 2; 2]%nat in
  sizes_ok ours avail ∧ rarest_first ours avail = Some 2 ∧
  ∃ c, 0 ≤ 2 ∧ ours !! 2%nat = Some false ∧ avail !! 2%nat = Some c.
Proof.
  intros ours avail. assert (sizes_ok ours avail) as Hs.
  { split; [by vm_compute|]. apply (bool_decide_unpack _). vm_compute. exact I. }
  split; [exact Hs|]. split; [by vm_compute|].
  destruct (rarest_first_minimal ours avail Hs) as (c & H). exists c. tauto.
Defined.

Example progress_examples :
  (progress (pm_new 0), progress sample_manager, progress (set_piece (pm_new 1) 0)) =
  (f64_one, f64_div (f64_of_nat 2) (f64_of_nat 10), f64_one).
Proof. vm_compute. reflexivity. Qed.
