(* ===== verification/Metainfo.v ===== *)
(** Torrent files: [crates/torrent-core/src/metainfo/mod.rs] and
    [crates/torrent-core/src/metainfo/parse.rs].

    SHA-1 is the external crate [sha1]: the definitions that hash take it as an argument. Sizes are
    [u64]; arithmetic that overflows panics. *)

From stdpp Require Import base numbers list strings sorting.
From Stdlib Require Import ZArith Lia SpecFloat.
From S2P Require Import Prelude Facts F64 Error Bencode BencodeFacts Codec Compact Piece.

(** * Data *)

(** [struct FileInfo]. *)
Record FileInfo : Type := mk_file { file_length : Z; file_path : list bytes }.

(** [enum Mode]. *)
Inductive Mode : Type :=
| Single (name : bytes) (length : Z)
| Multiple (name : bytes) (files : list FileInfo).

(** [enum RawInfo]. *)
Inductive RawInfo : Type :=
| RawBytes (raw : bytes)
| RawHash (hash : bytes).

(** [struct Info]. *)
Record Info : Type := mk_info {
  piece_length : Z;
  pieces : list bytes;
  mode : Mode;
  raw_info : RawInfo;
}.

(** [struct Metainfo]. *)
Record Metainfo : Type := mk_metainfo {
  announce : bytes;
  announce_list : list (list bytes);
  info : Info;
  url_list : list bytes;
  httpseeds : list bytes;
  creation_date : option Z;
  comment : option bytes;
  created_by : option bytes;
  encoding : option bytes;
}.

(** [struct FileOffset] and [struct FileStatus]. *)
Record FileOffset : Type := mk_offset { fo_offset : Z; fo_length : Z; fo_path : list bytes }.

Record FileStatus : Type := mk_status {
  fs_path : list bytes; fs_length : Z; fs_downloaded : Z; fs_progress : spec_float }.

(** * Sizes and offsets *)

Definition num_pieces (i : Info) : nat := length (pieces i).

(** [files.iter().map(|f| f.length).sum()]. *)
Fixpoint sum_lengths (acc : Z) (files : list FileInfo) : result Z :=
  match files with
  | [] => Ok acc
  | f :: files' => let! acc' := checked_add_panic u64_max acc (file_length f) in sum_lengths acc' files'
  end.

Definition total_size (i : Info) : result Z :=
  match mode i with
  | Single _ length => Ok length
  | Multiple _ files => sum_lengths 0 files
  end.

Fixpoint offsets_from (offset : Z) (files : list FileInfo) : result (list FileOffset) :=
  match files with
  | [] => Ok []
  | f :: files' =>
      let fo := {| fo_offset := offset; fo_length := file_length f; fo_path := file_path f |} in
      let! offset' := checked_add_panic u64_max offset (file_length f) in
      let! rest := offsets_from offset' files' in
      Ok (fo :: rest)
  end.

Definition file_offsets (i : Info) : result (list FileOffset) :=
  match mode i with
  | Single name length => Ok [{| fo_offset := 0; fo_length := length; fo_path := [name] |}]
  | Multiple _ files => offsets_from 0 files
  end.

(** [a * b] on [u64]. *)
Definition checked_mul_panic (a b : Z) : result Z := if a * b <=? u64_max then Ok (a * b) else Panic.

(** [a - b] on an unsigned type. *)
Definition checked_sub_panic (a b : Z) : result Z := if b <=? a then Ok (a - b) else Panic.

(** The inner loop of [file_status]: the overlap of a piece with every file, up to the file that
    contains the end of the piece. *)
Fixpoint add_piece (piece_start piece_end : Z) (offsets : list FileOffset) (downloaded : list Z)
    : result (list Z) :=
  match offsets, downloaded with
  | fo :: offsets', d :: downloaded' =>
      let! file_end := checked_add_panic u64_max (fo_offset fo) (fo_length fo) in
      let overlap_start := Z.max piece_start (fo_offset fo) in
      let overlap_end := Z.min piece_end file_end in
      let! d' :=
        if overlap_start <? overlap_end
        then checked_add_panic u64_max d (overlap_end - overlap_start) else Ok d in
      if piece_end <=? file_end then Ok (d' :: downloaded')
      else let! rest := add_piece piece_start piece_end offsets' downloaded' in Ok (d' :: rest)
  | _, _ => Ok downloaded
  end.

(** The outer loop, over the pieces from [i] on. *)
Fixpoint add_pieces (total piece_len : Z) (offsets : list FileOffset) (i : Z) (bitfield : list bool)
    (downloaded : list Z) : result (list Z) :=
  match bitfield with
  | [] => Ok downloaded
  | have :: bitfield' =>
      if negb have then add_pieces total piece_len offsets (i + 1) bitfield' downloaded
      else
        let! piece_start := checked_mul_panic i piece_len in
        let! piece_stop := checked_add_panic u64_max piece_start piece_len in
        let piece_end := Z.min total piece_stop in
        if piece_end <=? piece_start then Ok downloaded
        else
          let! downloaded' := add_piece piece_start piece_end offsets downloaded in
          add_pieces total piece_len offsets (i + 1) bitfield' downloaded'
  end.

Definition status_of (fo : FileOffset) (dl : Z) : FileStatus :=
  {| fs_path := fo_path fo; fs_length := fo_length fo; fs_downloaded := dl;
     fs_progress := if 0 <? fo_length fo then f64_div (f64_of_Z dl) (f64_of_Z (fo_length fo))
                    else f64_one |}.

(** The [assert_eq!] on the length of the bitfield panics. *)
Definition file_status (i : Info) (bitfield : list bool) : result (list FileStatus) :=
  let! _ := if (length bitfield =? num_pieces i)%nat then Ok tt else Panic in
  let! offsets := file_offsets i in
  let! total := total_size i in
  let! downloaded :=
    add_pieces total (piece_length i) offsets 0 bitfield (replicate (length offsets) 0) in
  Ok (zip_with status_of offsets downloaded).

(** [Info::set_raw_bytes]. *)
Definition set_raw_bytes (i : Info) (raw : bytes) : Info :=
  {| piece_length := piece_length i; pieces := pieces i; mode := mode i; raw_info := RawBytes raw |}.

(** [Metainfo::info_hash]. *)
Definition info_hash (sha1 : bytes → bytes) (m : Metainfo) : bytes :=
  match raw_info (info m) with
  | RawHash h => h
  | RawBytes raw => sha1 raw
  end.

(** * Serialization *)

Definition url_tiers (l : list (list bytes)) : Bencode :=
  BList (map (fun tier => BList (map BBytes tier)) l).

(** The entries but [info], before they are sorted. *)
Definition metainfo_entries (m : Metainfo) : list (bytes * Bencode) :=
  [(bs "announce", BBytes (announce m))]
  ++ opt_entry (bs "announce-list")
       (match announce_list m with [] => None | l => Some (url_tiers l) end)
  ++ opt_entry (bs "creation date") (BInteger <$> creation_date m)
  ++ opt_entry (bs "comment") (BBytes <$> comment m)
  ++ opt_entry (bs "created by") (BBytes <$> created_by m)
  ++ opt_entry (bs "encoding") (BBytes <$> encoding m).

(** [Metainfo::to_bytes]: the raw [info] bytes are spliced in, last. *)
Definition metainfo_to_bytes (m : Metainfo) : option bytes :=
  match raw_info (info m) with
  | RawHash _ => None
  | RawBytes raw =>
      Some ([c_d]
        ++ concat (map (fun '(key, val) => encode (BBytes key) ++ encode val)
             (sort_entries (metainfo_entries m)))
        ++ encode (BBytes (bs "info")) ++ raw ++ [c_e])
  end.

(** * Parsing *)

(** The loop of [find_raw_info_bytes] on the bytes that are left. *)
Fixpoint find_raw_loop (fuel : nat) (remaining : bytes) : result bytes :=
  match fuel with
  | O => NoFuel
  | S f =>
      match remaining with
      | [] => Err MetainfoMissingField
      | _ =>
          match decode remaining with
          | Err _ => Err MetainfoMissingField
          | Panic => Panic
          | NoFuel => NoFuel
          | Ok (key, val_remaining) =>
              let! (_, val_rest) := decode val_remaining in
              let val_consumed := (length val_remaining - length val_rest)%nat in
              match key with
              | BBytes b =>
                  if bool_decide (b = bs "info") then Ok (take val_consumed val_remaining)
                  else find_raw_loop f val_rest
              | _ => find_raw_loop f val_rest
              end
          end
      end
  end.

(** Every round consumes at least two bytes. *)
Definition find_raw_info_bytes (data : bytes) : result bytes :=
  match data with
  | c :: rest =>
      if c =? c_d then find_raw_loop (length data) rest else Err MetainfoInvalidField
  | [] => Err MetainfoInvalidField
  end.

Definition string_from_bencode_bytes (b : bytes) : result bytes := ok_or (from_utf8 b) InvalidInput.

Definition string_from_bencode (val : Bencode) : result bytes :=
  match val with
  | BBytes b => string_from_bencode_bytes b
  | _ => Err MetainfoInvalidField
  end.

Definition get_required_string (val : Bencode) (key : bytes) : result bytes :=
  let! b := ok_or (dict_get_bytes val key) MetainfoMissingField in
  string_from_bencode_bytes b.

(** [dict_get(..).and_then(|v| string_from_bencode(v).ok())]. *)
Definition optional_string (val : Bencode) (key : bytes) : option bytes :=
  match dict_get val key with
  | Some v => outcome_ok (string_from_bencode v)
  | None => None
  end.

Definition parse_file (item : Bencode) : result FileInfo :=
  let! length := ok_or (dict_get_int item (bs "length")) MetainfoMissingField in
  let! _ := guard_err (length <? 0) MetainfoInvalidField in
  let! path_parts :=
    match dict_get item (bs "path") with
    | Some (BList parts) => Ok parts
    | _ => Err MetainfoInvalidField
    end in
  let! path := omap_list string_from_bencode path_parts in
  let! _ := guard_err (match path with [] => true | _ => false end) MetainfoInvalidField in
  Ok {| file_length := length; file_path := path |}.

Definition parse_files_list (val : Bencode) : result (list FileInfo) :=
  match val with
  | BList items => omap_list parse_file items
  | _ => Err MetainfoInvalidField
  end.

(** [filter_map(|u| string_from_bencode(u).ok())]. *)
Definition strings_of (items : list Bencode) : list bytes :=
  omap (λ u, outcome_ok (string_from_bencode u)) items.

Definition parse_announce_list (val : Bencode) : list (list bytes) :=
  match dict_get val (bs "announce-list") with
  | Some (BList tiers) =>
      omap (λ tier,
        match tier with
        | BList urls => match strings_of urls with [] => None | l => Some l end
        | _ => None
        end) tiers
  | _ => []
  end.

Definition nonempty_strings (items : list Bencode) : list bytes :=
  filter (λ s, s ≠ []) (strings_of items).

Definition parse_url_list (val : Bencode) : list bytes :=
  match dict_get val (bs "url-list") with
  | Some (BBytes b) => match from_utf8 b with Some (_ :: _) => [b] | _ => [] end
  | Some (BList items) => nonempty_strings items
  | _ => []
  end.

Definition parse_httpseeds (val : Bencode) : list bytes :=
  match dict_get val (bs "httpseeds") with
  | Some (BList items) => nonempty_strings items
  | _ => []
  end.

Definition parse_mode (val : Bencode) (name : bytes) : result Mode :=
  match dict_get_int val (bs "length") with
  | Some length =>
      let! _ := guard_err (length <? 0) MetainfoInvalidField in
      Ok (Single name length)
  | None =>
      match dict_get val (bs "files") with
      | Some files_val => let! files := parse_files_list files_val in Ok (Multiple name files)
      | None => Err MetainfoMissingField
      end
  end.

Definition parse_info (val : Bencode) (raw : bytes) : result Info :=
  let! piece_length := ok_or (dict_get_int val (bs "piece length")) MetainfoMissingField in
  let! _ := guard_err (piece_length <=? 0) MetainfoInvalidField in
  let! pieces_bytes := ok_or (dict_get_bytes val (bs "pieces")) MetainfoMissingField in
  let! _ := guard_err (negb (length pieces_bytes mod 20 =? 0)%nat) MetainfoInvalidPieces in
  let pieces := chunks_exact 20 pieces_bytes in
  let! name := get_required_string val (bs "name") in
  let! mode := parse_mode val name in
  Ok {| piece_length := piece_length; pieces := pieces; mode := mode; raw_info := RawBytes raw |}.

(** [parse::from_bytes], the body of every [TryFrom] of [Metainfo]. *)
Definition metainfo_from_bytes (data : bytes) : result Metainfo :=
  let! (val, _) := decode data in
  let! _ := match val with BDict _ => Ok tt | _ => Err MetainfoInvalidField end in
  let announce := default [] (optional_string val (bs "announce")) in
  let! info_val := ok_or (dict_get val (bs "info")) MetainfoMissingField in
  let! raw_info_bytes := find_raw_info_bytes data in
  let! info := parse_info info_val raw_info_bytes in
  Ok {| announce := announce; announce_list := parse_announce_list val; info := info;
        url_list := parse_url_list val; httpseeds := parse_httpseeds val;
        creation_date := dict_get_int val (bs "creation date");
        comment := optional_string val (bs "comment");
        created_by := optional_string val (bs "created by");
        encoding := optional_string val (bs "encoding") |}.
