(* ===== verification/MetainfoFacts.v ===== *)
(** Properties of torrent files: the bytes that are hashed, the validation of the parser, and the
    round trip through the file format. *)

From stdpp Require Import base numbers list strings sorting.
From Stdlib Require Import ZArith Lia.
From S2P Require Import Prelude Facts Error Bencode BencodeFacts Codec Compact Metainfo.

Abbreviation info_key := (bs "info").

(** * The raw info bytes *)

Lemma parse_dict_inv d acc v r :
  parse_dict d acc = Ok (v, r) →
  (d = c_e :: r ∧ v = BDict (sort_entries acc)) ∨
  (∃ key d1 val d2, decode d = Ok (BBytes key, d1) ∧ decode d1 = Ok (val, d2) ∧
    (key ∉ map fst acc) ∧ parse_dict d2 (acc ++ [(key, val)]) = Ok (v, r)).
Proof.
  intros H. rewrite parse_dict_eq in H. destruct d as [|c d]; [done|].
  destruct (Z.eqb_spec c c_e) as [->|Hc]; [injection H as <- <-; by left|]. right.
  destruct (decode (c :: d)) as [[kv d1]| | |] eqn:E; try done. cbn [obind] in H.
  destruct kv as [key| | |]; try done. destruct d1 as [|c1 d1]; [done|].
  destruct (decode (c1 :: d1)) as [[val d2]| | |] eqn:E1; try done. cbn [obind] in H.
  unfold guard_err in H. destruct (has_key key acc) eqn:Hk; [done|]. cbn [obind] in H.
  exists key, (c1 :: d1), val, d2. by apply has_key_spec in Hk.
Qed.

Lemma NoDup_snoc_key (acc : list (bytes * Bencode)) key val :
  NoDup (map fst acc) → key ∉ map fst acc → NoDup (map fst (acc ++ [(key, val)])).
Proof.
  intros Hacc Hk. rewrite map_app. apply NoDup_app. split_and!; [done| |apply NoDup_singleton].
  intros x Hx Hin. cbn in Hin. by apply list_elem_of_singleton in Hin as ->.
Qed.

(** What [parse_dict] collects on top of what it was given. *)
Lemma parse_dict_result n d acc v r :
  (length d < n)%nat → parse_dict d acc = Ok (v, r) →
  ∃ new, v = BDict (sort_entries (acc ++ new)) ∧
    (NoDup (map fst acc) → NoDup (map fst (acc ++ new))).
Proof.
  revert d acc. induction n as [|n IH]; intros d acc Hn H; [lia|].
  destruct (parse_dict_inv d acc v r H) as [[_ ->]|(key & d1 & val & d2 & E & E1 & Hk & H')].
  { exists []. by rewrite app_nil_r. }
  apply decode_consumes, consumed_length in E, E1.
  apply IH in H' as (new & -> & Hnd); [|lia].
  exists ((key, val) :: new). rewrite <- app_assoc in *. split; [done|]. intros Hacc. apply Hnd.
  by apply NoDup_snoc_key.
Qed.

Lemma dict_get_sort entries key :
  NoDup (map fst entries) → dict_get (BDict (sort_entries entries)) key = dict_get (BDict entries) key.
Proof. intros Hnd. symmetry. apply dict_get_perm; [done|]. symmetry. apply sort_entries_perm. Qed.

Lemma dict_get_none entries key : key ∉ map fst entries → dict_get (BDict entries) key = None.
Proof.
  intros H. induction entries as [|[k v] l IH]; [done|]. rewrite dict_get_cons. cbn in H.
  apply not_elem_of_cons in H as [? ?]. rewrite bool_decide_eq_false_2 by congruence. by apply IH.
Qed.

Lemma dict_get_middle acc key v new :
  key ∉ map fst acc → dict_get (BDict (acc ++ (key, v) :: new)) key = Some v.
Proof.
  intros H. rewrite dict_get_app, dict_get_none by done. rewrite dict_get_cons.
  by rewrite bool_decide_eq_true_2.
Qed.

Lemma find_raw_loop_S f rem :
  find_raw_loop (S f) rem =
    match rem with
    | [] => Err MetainfoMissingField
    | _ =>
        match decode rem with
        | Err _ => Err MetainfoMissingField
        | Panic => Panic
        | NoFuel => NoFuel
        | Ok (key, val_remaining) =>
            let! (_, val_rest) := decode val_remaining in
            let val_consumed := (length val_remaining - length val_rest)%nat in
            match key with
            | BBytes b =>
                if bool_decide (b = info_key) then Ok (take val_consumed val_remaining)
                else find_raw_loop f val_rest
            | _ => find_raw_loop f val_rest
            end
        end
    end.
Proof. done. Qed.

(** The scan follows the decoder: it stops at the value the decoded dictionary has under [info]. *)
Lemma find_raw_loop_spec n d acc v r :
  (length d < n)%nat → NoDup (map fst acc) → info_key ∉ map fst acc →
  parse_dict d acc = Ok (v, r) →
  match dict_get v info_key with
  | Some iv => ∃ p raw s, d = p ++ raw ++ s ∧ find_raw_loop n d = Ok raw ∧
                 ∀ y, decode (raw ++ y) = Ok (iv, y)
  | None => find_raw_loop n d = Err MetainfoMissingField
  end.
Proof.
  revert d acc. induction n as [|n IH]; intros d acc Hn Hnd Hni H; [lia|].
  destruct (parse_dict_inv d acc v r H) as [[-> ->]|(key & d1 & val & d2 & E & E1 & Hk & H')].
  { rewrite dict_get_sort, dict_get_none by done. done. }
  rewrite find_raw_loop_S, E. cbn match. rewrite E1. cbn [obind].
  pose proof (decode_consumes _ _ _ E) as Hl%consumed_length.
  pose proof (decode_consumes _ _ _ E1) as Hl1%consumed_length.
  destruct (decode_reads _ _ _ E) as (k & Ek & _).
  destruct (decode_reads _ _ _ E1) as (raw & Eraw & Hraw).
  destruct d as [|c d]; [done|]. pose proof (NoDup_snoc_key acc key val Hnd Hk) as Hnd'.
  case_bool_decide as Hkey.
  - subst key. apply (parse_dict_result (S (length d2))) in H' as (new & -> & Hnd2); [|lia].
    rewrite <- app_assoc in *. cbn [app] in *. rewrite dict_get_sort by auto.
    rewrite dict_get_middle by done.
    exists k, raw, d2. split; [by rewrite Ek, Eraw|]. split; [|done].
    rewrite Eraw, length_app. replace (_ - _)%nat with (length raw) by lia. by rewrite take_app_length.
  - assert (info_key ∉ map fst (acc ++ [(key, val)])) as Hni'.
    { rewrite map_app, not_elem_of_app. split; [done|]. cbn [map fst].
      intros Hin%list_elem_of_singleton. congruence. }
    specialize (IH d2 (acc ++ [(key, val)]) ltac:(lia) Hnd' Hni' H').
    destruct (dict_get v info_key) as [iv|] eqn:Hiv; [|done].
    destruct IH as (p & raw' & s & E2 & Hf & Hr).
    exists (k ++ raw ++ p), raw', s. split; [|done]. rewrite Ek, Eraw, E2. by rewrite <- !app_assoc.
Qed.

(** * Validation *)

(** What the parser guarantees of the [info] dictionary. *)
Definition file_valid (f : FileInfo) : Prop := in_i64 (file_length f) ∧ 0 ≤ file_length f ∧ file_path f ≠ [].

Definition mode_valid (md : Mode) : Prop :=
  match md with
  | Single _ length => 0 ≤ length ≤ i64_max
  | Multiple _ files => Forall file_valid files
  end.

Definition info_valid (i : Info) : Prop :=
  0 < piece_length i ≤ i64_max ∧ Forall (λ h, length h = 20%nat) (pieces i) ∧ mode_valid (mode i).

Lemma omap_list_inv {A B} (f : A → result B) l ys :
  omap_list f l = Ok ys → Forall2 (λ x y, f x = Ok y) l ys.
Proof.
  revert ys. induction l as [|x l IH]; intros ys H; cbn [omap_list] in H.
  - injection H as <-. constructor.
  - destruct (f x) as [y| | |] eqn:E; try done. cbn [obind] in H.
    destruct (omap_list f l) as [ys'| | |]; try done. injection H as <-. constructor; [done|by apply IH].
Qed.

Lemma omap_list_outcome {A B} (f : A → result B) l :
  (∀ x, x ∈ l → f x ≠ Panic ∧ f x ≠ NoFuel) → omap_list f l ≠ Panic ∧ omap_list f l ≠ NoFuel.
Proof.
  induction l as [|x l IH]; intros H; [done|]. cbn [omap_list].
  destruct (H x) as [Hp Hf]; [by left|]. destruct (f x); try done. cbn [obind].
  destruct IH as [IHp IHf]; [intros y Hy; apply H; by right|]. by destruct (omap_list f l).
Qed.

Lemma dict_get_int_wf v k i : bencode_wf v → dict_get_int v k = Some i → in_i64 i.
Proof.
  intros Hwf H. unfold dict_get_int in H. destruct (dict_get v k) as [w|] eqn:E; [|done].
  apply dict_get_wf in E; [|done]. destruct w; try done. injection H as <-. by inversion E.
Qed.

Lemma parse_file_valid item f : bencode_wf item → parse_file item = Ok f → file_valid f.
Proof.
  intros Hwf H. unfold parse_file in H. inv_outcome. subst. unfold file_valid.
  apply Z.ltb_ge in G. cbn [file_length file_path]. split_and!; [|done|].
  - by eapply dict_get_int_wf.
  - by destruct x1.
Qed.

Lemma parse_files_valid w files :
  bencode_wf w → parse_files_list w = Ok files → Forall file_valid files.
Proof.
  intros Hwf H. unfold parse_files_list in H. destruct w as [| |items|]; try done.
  inversion Hwf as [| |? HF|]; subst. apply omap_list_inv in H.
  induction H as [|x f l fs Hx _ IH]; constructor.
  - eapply parse_file_valid; [|exact Hx]. by apply Forall_inv in HF.
  - apply Forall_cons in HF as [_ HF]. apply IH; [by constructor|done].
Qed.

Lemma parse_info_valid v raw i :
  bencode_wf v → parse_info v raw = Ok i → info_valid i ∧ raw_info i = RawBytes raw.
Proof.
  intros Hwf H. unfold parse_info in H. inv_outcome. subst. split; [|done].
  apply Z.leb_gt in G. apply negb_false_iff, Nat.eqb_eq in G0.
  unfold info_valid. cbn [piece_length pieces mode]. split_and!; [done| | |].
  - apply dict_get_int_wf in O; [|done]. apply O.
  - apply chunks_exact_inv. lia.
  - unfold parse_mode in E0. destruct (dict_get_int v (bs "length")) as [len|] eqn:Hlen.
    + inv_outcome. subst. apply Z.ltb_ge in G1. apply dict_get_int_wf in Hlen; [|done].
      cbn. unfold in_i64 in Hlen. lia.
    + destruct (dict_get v (bs "files")) as [w|] eqn:Hw; [|done]. inv_outcome. subst. cbn.
      apply dict_get_wf in Hw; [|done]. by eapply parse_files_valid.
Qed.

(** * Totality *)

Lemma string_from_bencode_total v :
  string_from_bencode v ≠ Panic ∧ string_from_bencode v ≠ NoFuel.
Proof.
  destruct v; try done. cbn. unfold string_from_bencode_bytes. by destruct (from_utf8 b).
Qed.

Lemma parse_file_total item : parse_file item ≠ Panic ∧ parse_file item ≠ NoFuel.
Proof.
  unfold parse_file. destruct (dict_get_int item (bs "length")); [|done]. cbn [ok_or obind].
  destruct (_ <? 0); [done|]. cbn [guard_err obind].
  destruct (dict_get item (bs "path")) as [[| |parts|]|]; try done. cbn [obind].
  destruct (omap_list_outcome string_from_bencode parts) as [Hp Hf].
  { intros x _. apply string_from_bencode_total. }
  destruct (omap_list string_from_bencode parts) as [path| | |]; try done. cbn [obind].
  by destruct path.
Qed.

Lemma parse_info_total v raw : parse_info v raw ≠ Panic ∧ parse_info v raw ≠ NoFuel.
Proof.
  unfold parse_info. destruct (dict_get_int v (bs "piece length")); [|done]. cbn [ok_or obind].
  destruct (_ <=? 0); [done|]. cbn [guard_err obind].
  destruct (dict_get_bytes v (bs "pieces")); [|done]. cbn [ok_or obind].
  destruct (negb _); [done|]. cbn [guard_err obind].
  unfold get_required_string. destruct (dict_get_bytes v (bs "name")); [|done]. cbn [ok_or obind].
  unfold string_from_bencode_bytes. destruct (from_utf8 _); [|done]. cbn [ok_or obind].
  unfold parse_mode. destruct (dict_get_int v (bs "length")).
  { by destruct (_ <? 0). }
  destruct (dict_get v (bs "files")) as [[| |items|]|]; try done. cbn [parse_files_list].
  destruct (omap_list_outcome parse_file items) as [Hp Hf].
  { intros x _. apply parse_file_total. }
  by destruct (omap_list parse_file items).
Qed.

Lemma find_raw_loop_total n d :
  (length d < n)%nat → find_raw_loop n d ≠ NoFuel ∧ (find_raw_loop n d = Panic → panics_at d).
Proof.
  revert d. induction n as [|n IH]; intros d Hn; [lia|]. rewrite find_raw_loop_S.
  destruct d as [|c d']; [done|]. remember (c :: d') as d eqn:Hd. clear Hd.
  destruct (decode d) as [[key d1]| | |] eqn:E; try done.
  2: { split; [done|]. intros _. by apply (proj1 (parsers_panic _)) in E. }
  2: { exfalso. revert E. by apply parsers_fuel_enough. }
  pose proof (decode_consumes _ _ _ E) as Hc.
  destruct (decode d1) as [[val d2]| | |] eqn:E1; cbn [obind]; try done.
  2: { split; [done|]. intros _. apply (proj1 (parsers_panic _)) in E1.
       by eapply panics_at_consumed. }
  2: { exfalso. revert E1. by apply parsers_fuel_enough. }
  pose proof (decode_consumes _ _ _ E1) as Hc1.
  pose proof (consumed_trans _ _ _ Hc Hc1) as Hc2.
  destruct (IH d2) as [IHf IHp]; [apply consumed_length in Hc2; lia|].
  assert (∀ m : result bytes, m = find_raw_loop n d2 → m ≠ NoFuel ∧ (m = Panic → panics_at d)) as Hgo.
  { intros m ->. split; [done|]. intros Hp. eapply panics_at_consumed; [exact Hc2|by apply IHp]. }
  destruct key; try by apply Hgo. case_bool_decide; [done|by apply Hgo].
Qed.

(** How a torrent was parsed: its [info] value, and the bytes of that value in the file. *)
Lemma metainfo_from_bytes_inv d m :
  metainfo_from_bytes d = Ok m →
  ∃ entries r iv p raw s,
    decode d = Ok (BDict entries, r) ∧ dict_get (BDict entries) info_key = Some iv ∧
    d = p ++ raw ++ s ∧ (∀ y, decode (raw ++ y) = Ok (iv, y)) ∧ parse_info iv raw = Ok (info m).
Proof.
  intros H. unfold metainfo_from_bytes in H.
  destruct (decode d) as [[val r]| | |] eqn:E; try done. cbn [obind] in H.
  destruct val as [| | |entries]; try done. cbn [obind] in H.
  destruct (dict_get (BDict entries) info_key) as [iv|] eqn:Hiv; [|done]. cbn [ok_or obind] in H.
  destruct (find_raw_info_bytes d) as [raw0| | |] eqn:Hraw; try done. cbn [obind] in H.
  destruct (parse_info iv raw0) as [i| | |] eqn:Hi; try done. cbn [obind] in H. injection H as <-.
  cbn [info]. unfold find_raw_info_bytes in Hraw. destruct d as [|c d']; [done|].
  destruct (Z.eqb_spec c c_d) as [->|]; [|done]. pose proof E as E0.
  rewrite decode_cons in E0. change (is_ascii_digit c_d) with false in E0. cbn [Z.eqb Pos.eqb] in E0.
  pose proof (find_raw_loop_spec (length (c_d :: d')) d' [] _ r ltac:(cbn; lia)
    ltac:(constructor) ltac:(apply not_elem_of_nil) E0) as Hf.
  rewrite Hiv in Hf. destruct Hf as (p & raw & s & -> & Hf & Hr). rewrite Hf in Hraw.
  injection Hraw as <-. exists entries, r, iv, (c_d :: p), raw, s. by split_and!.
Qed.

(** * Properties *)

(** C29: a parsed torrent is identified by the bytes of its own [info] value. The hashed bytes are a
    contiguous part of the file, they are exactly the encoding the file has for the value under
    [info], and that value, not a re-encoding of it, is what the fields were read from. The piece
    length is positive, every piece hash has 20 bytes, no length is negative and no path is
    empty. *)
Theorem metainfo_hashes_its_info : ∀ (sha1 : bytes → bytes) d m,
  short d → metainfo_from_bytes d = Ok m →
  ∃ val r iv p raw s,
    decode d = Ok (val, r) ∧ dict_get val info_key = Some iv ∧
    d = p ++ raw ++ s ∧ (∀ y, decode (raw ++ y) = Ok (iv, y)) ∧
    parse_info iv raw = Ok (info m) ∧ info_hash sha1 m = sha1 raw ∧ info_valid (info m).
Proof.
  intros sha1 d m Hs H.
  destruct (metainfo_from_bytes_inv d m H) as (entries & r & iv & p & raw & s & E & Hiv & Ed & Hr & Hi).
  pose proof (decode_canonical d _ r Hs E) as [Hwf _]. apply dict_get_wf in Hiv as Hwfi; [|done].
  destruct (parse_info_valid iv raw (info m) Hwfi Hi) as [Hv Hri].
  exists (BDict entries), r, iv, p, raw, s. split_and!; try done.
  unfold info_hash. by rewrite Hri.
Qed.

(** A small single-file torrent whose [info] keys are out of order, as some tools write them. *)
Definition sample_torrent : bytes :=
  bs "d8:announce8:http://t4:infod4:name1:f6:pieces20:aaaaaaaaaaaaaaaaaaaa6:lengthi5e12:piece lengthi16384eee".

Lemma metainfo_hashes_its_info_witness :
  ∃ m, metainfo_from_bytes sample_torrent = Ok m ∧
  ∃ val r iv p raw s,
    decode sample_torrent = Ok (val, r) ∧ dict_get val info_key = Some iv ∧
    sample_torrent = p ++ raw ++ s ∧ (∀ y, decode (raw ++ y) = Ok (iv, y)) ∧
    parse_info iv raw = Ok (info m) ∧ info_hash (λ b, b) m = (λ b, b) raw ∧ info_valid (info m).
Proof.
  eexists. split; [vm_compute; reflexivity|].
  apply (metainfo_hashes_its_info (λ b, b) sample_torrent).
  - short_lit.
  - vm_compute. reflexivity.
Defined.

(** Parsing a torrent file terminates with a value or an error on every input; the only panic is
    the one of the bencode decoder, at a byte-string length that overflows the address space. *)
Theorem metainfo_parse_total : ∀ d,
  metainfo_from_bytes d ≠ NoFuel ∧ (metainfo_from_bytes d = Panic → panics_at d).
Proof.
  intros d. unfold metainfo_from_bytes.
  destruct (decode d) as [[val r]| | |] eqn:E; cbn [obind]; try done.
  2: { split; [done|]. intros _. by apply (proj1 (parsers_panic _)) in E. }
  2: { exfalso. revert E. by apply parsers_fuel_enough. }
  destruct val as [| | |entries]; try done. cbn [obind].
  destruct (dict_get _ info_key) as [iv|]; [|done]. cbn [ok_or obind].
  assert (find_raw_info_bytes d ≠ NoFuel ∧ (find_raw_info_bytes d = Panic → panics_at d)) as [Hf Hp].
  { unfold find_raw_info_bytes. destruct d as [|c d]; [done|]. destruct (c =? c_d); [|done].
    destruct (find_raw_loop_total (length (c :: d)) d) as [Hf Hp]; [cbn; lia|].
    split; [done|]. intros H. apply (panics_at_app [c]). by apply Hp. }
  destruct (find_raw_info_bytes d) as [raw| | |]; cbn [obind]; try done.
  2: { split; [done|]. intros _. by apply Hp. }
  destruct (parse_info_total iv raw) as [Hpi Hfi].
  by destruct (parse_info iv raw).
Qed.

(** * Serialization *)

(** A dictionary whose entries are listed as key, bytes of the value, and value. *)
Definition raw_entry : Type := bytes * bytes * Bencode.

Definition raw_ok (e : raw_entry) : Prop :=
  let '(k, raw, v) := e in short k ∧ ∀ y, decode (raw ++ y) = Ok (v, y).

Lemma parse_dict_raw l acc rest :
  Forall raw_ok l → NoDup (map fst acc ++ map (λ e, e.1.1) l) →
  parse_dict (concat (map (λ e : raw_entry, encode (BBytes e.1.1) ++ e.1.2) l) ++ c_e :: rest) acc =
    Ok (BDict (sort_entries (acc ++ map (λ e, (e.1.1, e.2)) l)), rest).
Proof.
  intros HF. revert acc. induction HF as [|[[k raw] v] l [Hk Hr] _ IH]; intros acc Hnd; cbn [map concat].
  - rewrite parse_dict_eq. cbn [app]. change (c_e =? c_e) with true. cbn match. by rewrite app_nil_r.
  - cbn [fst snd map] in *. rewrite parse_dict_eq.
    destruct (encode_bytes_head k Hk) as (c & t & Ec & Hc).
    rewrite <- !app_assoc. change (encode (BBytes k)) with (encode_bytes k).
    rewrite Ec at 1. cbn [app]. destruct (Z.eqb_spec c c_e) as [->|_]; [done|].
    rewrite decode_encode_bytes by done. cbn [obind].
    destruct raw as [|x raw]; [by specialize (Hr [])|]. cbn [app].
    rewrite app_comm_cons, Hr. cbn [obind].
    assert (k ∉ map fst acc) as Hka.
    { apply NoDup_app in Hnd as (_ & Hdis & _). intros Hin. apply (Hdis _ Hin). by left. }
    rewrite (proj2 (has_key_spec k acc) Hka). cbn [guard_err obind].
    rewrite IH; [by rewrite <- app_assoc|]. rewrite map_app. cbn [map fst].
    by rewrite <- app_assoc.
Qed.

Lemma find_raw_loop_raw n l raw v rest :
  (length l < n)%nat → Forall raw_ok l → info_key ∉ map (λ e, e.1.1) l → raw_ok (info_key, raw, v) →
  find_raw_loop n (concat (map (λ e : raw_entry, encode (BBytes e.1.1) ++ e.1.2) l)
                   ++ encode (BBytes info_key) ++ raw ++ rest) = Ok raw.
Proof.
  intros Hn HF Hni [Hki Hri]. revert n Hn. induction HF as [|[[k raw'] v'] l [Hk Hr] _ IH]; intros n Hn;
    (destruct n as [|n]; [cbn in Hn; lia|]); cbn [map concat app fst snd] in *.
  - rewrite find_raw_loop_S. change (encode (BBytes info_key)) with (encode_bytes info_key).
    rewrite decode_encode_bytes by done. rewrite Hri. cbn [obind].
    rewrite bool_decide_eq_true_2 by done. rewrite length_app.
    replace (_ - _)%nat with (length raw) by lia. rewrite take_app_length. done.
  - apply not_elem_of_cons in Hni as [Hne Hni].
    rewrite find_raw_loop_S, <- !app_assoc. change (encode (BBytes k)) with (encode_bytes k).
    destruct (encode_bytes_head k Hk) as (c & t & Ec & _).
    rewrite decode_encode_bytes by done. rewrite Hr. cbn [obind].
    rewrite bool_decide_eq_false_2 by congruence.
    rewrite Ec at 1. cbn [app]. rewrite IH by (done || (cbn in Hn; lia)). done.
Qed.

(** Text and integers that the file format can hold. *)
Definition text_ok (s : bytes) : Prop := short s ∧ utf8_valid s = true.

Definition metainfo_ok (m : Metainfo) : Prop :=
  text_ok (announce m) ∧ Forall (λ tier, tier ≠ [] ∧ Forall text_ok tier) (announce_list m) ∧
  (∀ z, creation_date m = Some z → in_i64 z) ∧ (∀ s, comment m = Some s → text_ok s) ∧
  (∀ s, created_by m = Some s → text_ok s) ∧ (∀ s, encoding m = Some s → text_ok s).

Lemma string_from_bytes s : text_ok s → string_from_bencode (BBytes s) = Ok s.
Proof. intros [_ Hu]. cbn. unfold string_from_bencode_bytes. by rewrite from_utf8_valid. Qed.

Lemma strings_of_bytes l : Forall text_ok l → strings_of (map BBytes l) = l.
Proof.
  induction 1 as [|s l Hs _ IH]; [done|]. unfold strings_of in *. cbn [map omap list_omap].
  rewrite string_from_bytes by done. cbn [outcome_ok]. by rewrite IH.
Qed.

Definition metainfo_keys : list bytes :=
  [bs "announce"; bs "announce-list"; bs "creation date"; bs "comment"; bs "created by"; bs "encoding"].

Lemma metainfo_entries_keys m : map fst (metainfo_entries m) `sublist_of` metainfo_keys.
Proof.
  unfold metainfo_entries. rewrite !map_app. change metainfo_keys
    with ([bs "announce"] ++ [bs "announce-list"] ++ [bs "creation date"] ++ [bs "comment"]
          ++ [bs "created by"] ++ [bs "encoding"]).
  repeat apply sublist_app; try apply opt_entry_keys. done.
Qed.

Lemma url_tiers_wf l :
  Forall (λ tier, tier ≠ [] ∧ Forall text_ok tier) l → bencode_wf (url_tiers l).
Proof.
  intros H. constructor. apply Forall_map. eapply Forall_impl; [exact H|]. intros tier [_ Ht].
  constructor. apply Forall_map. eapply Forall_impl; [exact Ht|]. intros s [Hs _]. by constructor.
Qed.

Lemma metainfo_entries_wf m : metainfo_ok m → bencode_wf (BDict (metainfo_entries m)).
Proof.
  intros (Ha & Hl & Hd & Hc & Hb & He).
  apply (wf_entries _ metainfo_keys); [apply metainfo_entries_keys|nodup_keys|].
  unfold metainfo_entries. rewrite !Forall_app.
  split_and!; try (apply wf_opt_entry; [short_lit|]; intros v Hv).
  - constructor; [|done]. split; [short_lit|]. constructor. apply Ha.
  - destruct (announce_list m) eqn:E; [done|]. injection Hv as <-. by apply url_tiers_wf.
  - apply fmap_Some in Hv as (z & Hz & ->). constructor. by apply Hd.
  - apply fmap_Some in Hv as (z & Hz & ->). constructor. by apply Hc.
  - apply fmap_Some in Hv as (z & Hz & ->). constructor. by apply Hb.
  - apply fmap_Some in Hv as (z & Hz & ->). constructor. by apply He.
Qed.

(** The entries of a serialized torrent with the bytes they take, [info] last. *)
Definition written (m : Metainfo) : list raw_entry :=
  map (λ '(k, v), (k, encode v, normalize v)) (sort_entries (metainfo_entries m)).

Lemma written_ok m : metainfo_ok m → Forall raw_ok (written m).
Proof.
  intros Hm. pose proof (wf_dict_sorted _ (metainfo_entries_wf m Hm)) as Hwf.
  inversion Hwf as [| | |? _ HF]; subst. apply Forall_map. eapply Forall_impl; [exact HF|].
  intros [k v] [Hk Hv]. split; [done|]. intros y. by apply decode_encode.
Qed.

Lemma written_keys m : map (λ e : raw_entry, e.1.1) (written m) = map fst (sort_entries (metainfo_entries m)).
Proof. unfold written. rewrite map_map. apply map_ext. by intros []. Qed.

Lemma written_values m :
  map (λ e : raw_entry, (e.1.1, e.2)) (written m) =
  map (λ '(k, v), (k, normalize v)) (sort_entries (metainfo_entries m)).
Proof. unfold written. rewrite map_map. apply map_ext. by intros []. Qed.

Lemma info_not_written m : info_key ∉ map fst (metainfo_entries m).
Proof.
  intros Hin. pose proof (metainfo_entries_keys m) as Hs.
  assert (info_key ∈ metainfo_keys) as H by by eapply elem_of_sublist.
  revert H. apply (bool_decide_unpack _). vm_compute. exact I.
Qed.

Lemma entries_NoDup m : NoDup (map fst (metainfo_entries m)).
Proof. eapply (sublist_NoDup _ metainfo_keys); [nodup_keys|]. apply metainfo_entries_keys. Qed.

(** The dictionary a parser sees. *)
Definition written_value (m : Metainfo) (iv : Bencode) : Bencode :=
  BDict (sort_entries
    (map (λ '(k, v), (k, normalize v)) (sort_entries (metainfo_entries m)) ++ [(info_key, iv)])).

Lemma written_NoDup m iv :
  NoDup (map fst (map (λ '(k, v), (k, normalize v)) (sort_entries (metainfo_entries m))
                  ++ [(info_key, iv)])).
Proof.
  rewrite map_app, map_map. rewrite (map_ext _ fst) by by intros [].
  rewrite sort_entries_perm. apply NoDup_app. split_and!; [apply entries_NoDup| |apply NoDup_singleton].
  intros k Hk Hin. cbn [map fst] in Hin. apply list_elem_of_singleton in Hin as ->.
  by apply (info_not_written m).
Qed.

Lemma dict_get_written m iv key :
  dict_get (written_value m iv) key =
    match normalize <$> dict_get (BDict (metainfo_entries m)) key with
    | Some v => Some v
    | None => if bool_decide (info_key = key) then Some iv else None
    end.
Proof.
  unfold written_value. rewrite dict_get_sort by apply written_NoDup.
  rewrite dict_get_app, dict_get_map, dict_get_sort by apply entries_NoDup.
  by rewrite dict_get_cons, dict_get_nil.
Qed.

Lemma to_bytes_written m raw :
  raw_info (info m) = RawBytes raw →
  metainfo_to_bytes m =
    Some (c_d :: (concat (map (λ e : raw_entry, encode (BBytes e.1.1) ++ e.1.2) (written m))
                  ++ encode (BBytes info_key) ++ raw ++ [c_e])).
Proof.
  intros Hraw. unfold metainfo_to_bytes. rewrite Hraw. do 2 f_equal. unfold written.
  rewrite map_map. f_equal. f_equal. apply map_ext. by intros [].
Qed.

Lemma decode_written m raw iv :
  metainfo_ok m → (∀ y, decode (raw ++ y) = Ok (iv, y)) →
  decode (c_d :: (concat (map (λ e : raw_entry, encode (BBytes e.1.1) ++ e.1.2) (written m))
                  ++ encode (BBytes info_key) ++ raw ++ [c_e])) = Ok (written_value m iv, []).
Proof.
  intros Hm Hr. rewrite decode_cons. change (is_ascii_digit c_d) with false. cbn [Z.eqb Pos.eqb].
  pose proof (parse_dict_raw (written m ++ [(info_key, raw, iv)]) [] []) as H.
  rewrite !map_app, concat_app in H. cbn [map concat fst snd] in H.
  rewrite app_nil_r, <- !app_assoc in H. cbn [app] in H. rewrite H.
  - unfold written_value. by rewrite written_values.
  - apply Forall_app. split; [by apply written_ok|]. constructor; [|done]. split; [short_lit|done].
  - rewrite written_keys. pose proof (written_NoDup m iv) as Hnd.
    rewrite map_app, map_map, (map_ext _ fst) in Hnd by by intros []. exact Hnd.
Qed.

Lemma find_raw_written m raw iv :
  metainfo_ok m → (∀ y, decode (raw ++ y) = Ok (iv, y)) →
  find_raw_info_bytes
    (c_d :: (concat (map (λ e : raw_entry, encode (BBytes e.1.1) ++ e.1.2) (written m))
             ++ encode (BBytes info_key) ++ raw ++ [c_e])) = Ok raw.
Proof.
  intros Hm Hr. unfold find_raw_info_bytes. rewrite Z.eqb_refl.
  apply (find_raw_loop_raw _ (written m) raw iv [c_e]).
  - pose proof (written_ok m Hm) as HF. cbn [length]. rewrite length_app.
    assert (length (written m) ≤
      length (concat (map (λ e : raw_entry, encode (BBytes e.1.1) ++ e.1.2) (written m))))%nat; [|lia].
    induction HF as [|[[k r] v] l [Hk _] _ IH]; cbn [map concat length]; [lia|].
    rewrite !length_app. cbn [fst]. destruct (encode_bytes_head k Hk) as (c & t & Ec & _).
    change (encode (BBytes k)) with (encode_bytes k). rewrite Ec. cbn [length]. lia.
  - by apply written_ok.
  - rewrite written_keys, sort_entries_perm. apply info_not_written.
  - split; [short_lit|done].
Qed.

Lemma parse_announce_list_written m iv :
  metainfo_ok m → parse_announce_list (written_value m iv) = announce_list m.
Proof.
  intros (_ & Hl & _). unfold parse_announce_list. rewrite dict_get_written.
  unfold metainfo_entries. dict_lookup. cbn [opt_entry].
  destruct (announce_list m) as [|t l]; [done|]. cbn [fmap option_fmap option_map].
  assert (∀ l : list (list bytes), normalize (url_tiers l) = url_tiers l) as ->.
  { intros ts. unfold url_tiers. cbn [normalize]. f_equal. rewrite map_map. apply map_ext.
    intros tier. cbn [normalize]. by rewrite map_map. }
  unfold url_tiers. induction Hl as [|tier ts [Hne Ht] _ IH]; [done|]. cbn [map omap list_omap].
  rewrite strings_of_bytes by done. destruct tier; [done|]. by rewrite IH.
Qed.

Lemma optional_string_some v key s :
  dict_get v key = Some (BBytes s) → text_ok s → optional_string v key = Some s.
Proof. intros H Hs. unfold optional_string. rewrite H. by rewrite string_from_bytes. Qed.

Lemma optional_string_opt v key o :
  dict_get v key = BBytes <$> o → (∀ s, o = Some s → text_ok s) → optional_string v key = o.
Proof.
  intros H Hs. destruct o as [s|]; [by apply optional_string_some; auto|].
  unfold optional_string. by rewrite H.
Qed.

(** What the file format keeps of a torrent. *)
Definition without_seeds (m : Metainfo) : Metainfo :=
  {| announce := announce m; announce_list := announce_list m; info := info m; url_list := [];
     httpseeds := []; creation_date := creation_date m; comment := comment m;
     created_by := created_by m; encoding := encoding m |}.

Lemma written_from_bytes m raw iv :
  metainfo_ok m → raw_info (info m) = RawBytes raw → (∀ y, decode (raw ++ y) = Ok (iv, y)) →
  parse_info iv raw = Ok (info m) →
  ∃ d, metainfo_to_bytes m = Some d ∧ metainfo_from_bytes d = Ok (without_seeds m).
Proof.
  intros Hm Hraw Hr Hi. rewrite (to_bytes_written m raw Hraw). eexists. split; [done|].
  unfold metainfo_from_bytes. rewrite (decode_written m raw iv Hm Hr). cbn [obind].
  rewrite (find_raw_written m raw iv Hm Hr).
  assert (∀ k, dict_get (written_value m iv) k =
    match normalize <$> dict_get (BDict (metainfo_entries m)) k with
    | Some v => Some v | None => if bool_decide (info_key = k) then Some iv else None end) as Hget
    by apply dict_get_written.
  pose proof (parse_announce_list_written m iv Hm) as Hal.
  destruct Hm as (Ha & Hl & Hd & Hc & Hb & He).
  assert (dict_get (written_value m iv) info_key = Some iv) as ->.
  { rewrite Hget. rewrite dict_get_none by apply info_not_written. by rewrite bool_decide_eq_true_2. }
  cbn [obind ok_or]. unfold written_value at 1. cbn match. rewrite Hi. cbn [obind]. f_equal.
  unfold without_seeds. f_equal.
  - rewrite (optional_string_some _ _ (announce m)); [done| |done]. rewrite Hget.
    unfold metainfo_entries. by dict_lookup.
  - done.
  - unfold parse_url_list. rewrite Hget. unfold metainfo_entries. by dict_lookup.
  - unfold parse_httpseeds. rewrite Hget. unfold metainfo_entries. by dict_lookup.
  - unfold dict_get_int. rewrite Hget. unfold metainfo_entries. dict_lookup.
    by destruct (creation_date m).
  - apply optional_string_opt; [|done]. rewrite Hget. unfold metainfo_entries. dict_lookup.
    by destruct (comment m).
  - apply optional_string_opt; [|done]. rewrite Hget. unfold metainfo_entries. dict_lookup.
    by destruct (created_by m).
  - apply optional_string_opt; [|done]. rewrite Hget. unfold metainfo_entries. dict_lookup.
    by destruct (encoding m).
Qed.

(** ** Parsed torrents can be written back *)

Lemma text_ok_nil : text_ok [].
Proof. split; [short_lit|done]. Qed.

Lemma string_from_bencode_ok v s : bencode_wf v → string_from_bencode v = Ok s → text_ok s.
Proof.
  intros Hwf H. destruct v as [b| | |]; try done. cbn in H. unfold string_from_bencode_bytes in H.
  destruct (from_utf8 b) as [s'|] eqn:E; [|done]. injection H as <-.
  apply from_utf8_Some in E as [-> Hu]. split; [by inversion Hwf|done].
Qed.

Lemma optional_string_ok v key s : bencode_wf v → optional_string v key = Some s → text_ok s.
Proof.
  intros Hwf H. unfold optional_string in H. destruct (dict_get v key) as [w|] eqn:E; [|done].
  apply dict_get_wf in E; [|done]. destruct (string_from_bencode w) eqn:Hs; try done.
  injection H as <-. by eapply string_from_bencode_ok.
Qed.

Lemma strings_of_ok l : Forall bencode_wf l → Forall text_ok (strings_of l).
Proof.
  induction 1 as [|v l Hv _ IH]; [constructor|]. unfold strings_of in *. cbn [omap list_omap].
  destruct (string_from_bencode v) as [s| | |] eqn:E; cbn [outcome_ok]; try done.
  constructor; [by eapply string_from_bencode_ok|done].
Qed.

Lemma parse_announce_list_ok v :
  bencode_wf v → Forall (λ tier, tier ≠ [] ∧ Forall text_ok tier) (parse_announce_list v).
Proof.
  intros Hwf. unfold parse_announce_list.
  destruct (dict_get v (bs "announce-list")) as [[| |tiers|]|] eqn:E; try constructor.
  apply dict_get_wf in E; [|done]. inversion E as [| |? HF|]; subst.
  induction HF as [|t tiers Ht HF IH]; [constructor|]. cbn [omap list_omap].
  specialize (IH (wf_list _ HF)). destruct t as [| |urls|]; try done.
  pose proof (strings_of_ok urls) as Hs. destruct (strings_of urls) as [|s ss]; [done|].
  constructor; [|done]. split; [done|]. apply Hs. by inversion Ht.
Qed.

Lemma parsed_metainfo_ok d m :
  short d → metainfo_from_bytes d = Ok m → metainfo_ok m.
Proof.
  intros Hs H. unfold metainfo_from_bytes in H.
  destruct (decode d) as [[val r]| | |] eqn:E; try done. cbn [obind] in H.
  pose proof (decode_canonical d _ r Hs E) as [Hwf _].
  destruct val as [| | |entries]; try done. cbn [obind] in H. inv_outcome. subst.
  unfold metainfo_ok.
  cbn [announce announce_list creation_date comment created_by encoding]. split_and!.
  - destruct (optional_string _ (bs "announce")) as [s|] eqn:Ea; [|apply text_ok_nil].
    by eapply optional_string_ok.
  - by apply parse_announce_list_ok.
  - intros z Hz. by eapply dict_get_int_wf.
  - intros s Hz. by eapply optional_string_ok.
  - intros s Hz. by eapply optional_string_ok.
  - intros s Hz. by eapply optional_string_ok.
Qed.

(** Every torrent that parses can be written back, and reading what was written gives the same
    torrent with the same info hash, except for its web seeds: [url-list] and [httpseeds] are read
    but never written. *)
Theorem metainfo_rewrites : ∀ (sha1 : bytes → bytes) d m,
  short d → metainfo_from_bytes d = Ok m →
  ∃ d' m', metainfo_to_bytes m = Some d' ∧ metainfo_from_bytes d' = Ok m' ∧
    m' = without_seeds m ∧ info_hash sha1 m' = info_hash sha1 m.
Proof.
  intros sha1 d m Hs H. pose proof (parsed_metainfo_ok d m Hs H) as Hok.
  destruct (metainfo_from_bytes_inv d m H) as (entries & r & iv & p & raw & s & _ & _ & _ & Hr & Hi).
  assert (raw_info (info m) = RawBytes raw) as Hraw.
  { pose proof Hi as Hi'. unfold parse_info in Hi'. inv_outcome.
    by match goal with E : _ = info m |- _ => rewrite <- E end. }
  destruct (written_from_bytes m raw iv Hok Hraw Hr Hi) as (d' & Hd' & Hm').
  exists d', (without_seeds m). by split_and!.
Qed.

Lemma metainfo_rewrites_witness :
  ∃ m, metainfo_from_bytes sample_torrent = Ok m ∧
  ∃ d' m', metainfo_to_bytes m = Some d' ∧ metainfo_from_bytes d' = Ok m' ∧
    m' = without_seeds m ∧ info_hash (λ b, b) m' = info_hash (λ b, b) m.
Proof.
  eexists. split; [vm_compute; reflexivity|].
  apply (metainfo_rewrites (λ b, b) sample_torrent); [short_lit|vm_compute; reflexivity].
Defined.

(** The web seeds of a torrent are lost when it is written. *)
Example web_seeds_are_not_written :
  match metainfo_from_bytes (bs "d4:infod6:lengthi0e4:name1:f12:piece lengthi1e6:pieces0:e8:url-list8:http://we") with
  | Ok m => url_list m = [bs "http://w"] ∧
            match metainfo_to_bytes m with
            | Some d' => match metainfo_from_bytes d' with Ok m' => url_list m' = [] | _ => False end
            | None => False
            end
  | _ => False
  end.
Proof. vm_compute. split; reflexivity. Qed.
