(* ===== verification/MetainfoBuilder.v ===== *)
(** Creating torrent files: [crates/torrent-core/src/metainfo/builder.rs]. *)

From stdpp Require Import base numbers list strings sorting.
From Stdlib Require Import ZArith Lia.
From S2P Require Import Prelude Facts Error Bencode BencodeFacts Codec Compact Extension Metainfo MetainfoFacts.

(** [struct MetainfoBuilder]; the field names carry a prefix. *)
Record MetainfoBuilder : Type := mk_builder {
  b_piece_length : Z;
  b_buf : bytes;
  b_pieces : list bytes;
  b_total_length : Z;
}.

Section builder.
Context (sha1 : bytes → bytes).

(** The [debug_assert!] panics on a piece length of zero. *)
Definition builder_new (piece_length : Z) : result MetainfoBuilder :=
  if 0 <? piece_length
  then Ok {| b_piece_length := piece_length; b_buf := []; b_pieces := []; b_total_length := 0 |}
  else Panic.

(** The loop of [add_data]: one full piece is drained and hashed per round. *)
Fixpoint hash_full_pieces (fuel piece_len : nat) (buf : bytes) (pieces : list bytes)
    : result (bytes * list bytes) :=
  match fuel with
  | O => NoFuel
  | S f =>
      if (piece_len <=? length buf)%nat
      then hash_full_pieces f piece_len (drop piece_len buf) (pieces ++ [sha1 (take piece_len buf)])
      else Ok (buf, pieces)
  end.

(** A positive piece length makes every round shorten the buffer. *)
Definition add_data (b : MetainfoBuilder) (data : bytes) : result MetainfoBuilder :=
  let! total := checked_add_panic u64_max (b_total_length b) (zlen data) in
  let buf := b_buf b ++ data in
  let! (buf', pieces') :=
    hash_full_pieces (S (length buf)) (Z.to_nat (b_piece_length b)) buf (b_pieces b) in
  Ok {| b_piece_length := b_piece_length b; b_buf := buf'; b_pieces := pieces';
        b_total_length := total |}.

Definition file_entry (f : FileInfo) : Bencode :=
  BDict [(bs "length", BInteger (as_i64 (file_length f)));
         (bs "path", BList (map BBytes (file_path f)))].

(** [build_info_dict]. *)
Definition mode_entries (md : Mode) : list (bytes * Bencode) :=
  match md with
  | Single name length => [(bs "length", BInteger (as_i64 length)); (bs "name", BBytes name)]
  | Multiple name files => [(bs "files", BList (map file_entry files)); (bs "name", BBytes name)]
  end.

Definition build_info_dict (piece_length : Z) (pieces_bytes : bytes) (md : Mode) : Bencode :=
  BDict (mode_entries md ++ [(bs "piece length", BInteger (as_i64 piece_length));
                             (bs "pieces", BBytes pieces_bytes)]).

Definition finish (b : MetainfoBuilder) (announce : bytes) (md : Mode)
    (url_list httpseeds : list bytes) : Metainfo :=
  let pieces := b_pieces b ++ match b_buf b with [] => [] | buf => [sha1 buf] end in
  let info_dict := build_info_dict (b_piece_length b) (concat pieces) md in
  {| announce := announce; announce_list := [];
     info := {| piece_length := b_piece_length b; pieces := pieces; mode := md;
                raw_info := RawBytes (encode info_dict) |};
     url_list := url_list; httpseeds := httpseeds; creation_date := None; comment := None;
     created_by := None; encoding := None |}.

Definition num_completed_pieces (b : MetainfoBuilder) : nat := length (b_pieces b).

(** * Hashing *)

(** The specification: the data cut at multiples of the piece length. *)
Definition split_pieces (piece_len : nat) (data : bytes) : list bytes :=
  chunks_exact piece_len data ++
  match chunks_remainder piece_len data with [] => [] | r => [r] end.

(** The state after some data: the hashes of its full pieces, and what is left. *)
Definition builder_inv (data : bytes) (b : MetainfoBuilder) : Prop :=
  0 < b_piece_length b ∧ b_total_length b = zlen data ∧
  ∃ full, data = concat full ++ b_buf b ∧ b_pieces b = map sha1 full ∧
    Forall (λ c, length c = Z.to_nat (b_piece_length b)) full ∧
    (length (b_buf b) < Z.to_nat (b_piece_length b))%nat.

Lemma hash_full_pieces_spec f w buf ps :
  (0 < w)%nat → (length buf < f)%nat →
  ∃ full buf', hash_full_pieces f w buf ps = Ok (buf', ps ++ map sha1 full) ∧
    buf = concat full ++ buf' ∧ Forall (λ c, length c = w) full ∧ (length buf' < w)%nat.
Proof.
  intros Hw. revert buf ps. induction f as [|f IH]; intros buf ps Hf; [lia|].
  cbn [hash_full_pieces]. destruct (Nat.leb_spec w (length buf)) as [Hle|Hlt].
  - destruct (IH (drop w buf) (ps ++ [sha1 (take w buf)])) as (full & buf' & -> & E & HF & Hl).
    { rewrite length_drop. lia. }
    exists (take w buf :: full), buf'. split_and!.
    + by rewrite <- app_assoc.
    + cbn [concat]. rewrite <- app_assoc, <- E. by rewrite take_drop.
    + constructor; [|done]. rewrite length_take. lia.
    + done.
  - exists [], buf. cbn [map concat app]. by rewrite app_nil_r.
Qed.

Lemma add_data_inv data b d :
  builder_inv data b → zlen (data ++ d) ≤ u64_max →
  ∃ b', add_data b d = Ok b' ∧ builder_inv (data ++ d) b' ∧ b_piece_length b' = b_piece_length b.
Proof.
  intros (Hpl & Ht & full & Hd & Hp & HF & Hb) Hlen. unfold add_data, checked_add_panic.
  rewrite zlen_app in Hlen. rewrite Ht, (proj2 (Z.leb_le _ _)) by done. cbn [obind].
  destruct (hash_full_pieces_spec (S (length (b_buf b ++ d))) (Z.to_nat (b_piece_length b))
              (b_buf b ++ d) (b_pieces b)) as (full' & buf' & -> & E & HF' & Hl); [lia|lia|].
  cbn [obind]. eexists. split; [done|]. split; [|done]. unfold builder_inv.
  cbn [b_piece_length b_total_length b_buf b_pieces]. split_and!; [done|by rewrite zlen_app|].
  exists (full ++ full'). split_and!; [|by rewrite map_app, Hp|by apply Forall_app|done].
  by rewrite concat_app, Hd, <- !app_assoc, E.
Qed.

(** Feeding a list of buffers, one [add_data] each. *)
Fixpoint add_all (b : MetainfoBuilder) (ds : list bytes) : result MetainfoBuilder :=
  match ds with
  | [] => Ok b
  | d :: ds' => let! b' := add_data b d in add_all b' ds'
  end.

Lemma add_all_inv ds data b :
  builder_inv data b → zlen (data ++ concat ds) ≤ u64_max →
  ∃ b', add_all b ds = Ok b' ∧ builder_inv (data ++ concat ds) b' ∧
    b_piece_length b' = b_piece_length b.
Proof.
  revert data b. induction ds as [|d ds IH]; intros data b Hi Hlen; cbn [add_all concat] in *.
  - exists b. by rewrite app_nil_r.
  - rewrite app_assoc in Hlen.
    destruct (add_data_inv data b d Hi) as (b1 & -> & Hi1 & Hp1).
    { rewrite zlen_app in Hlen. pose proof (zlen_nonneg (concat ds)). lia. }
    cbn [obind]. destruct (IH (data ++ d) b1 Hi1 Hlen) as (b2 & -> & Hi2 & Hp2).
    exists b2. rewrite app_assoc. split_and!; [done|done|congruence].
Qed.

Lemma builder_pieces data b :
  builder_inv data b →
  b_pieces b ++ match b_buf b with [] => [] | buf => [sha1 buf] end =
    map sha1 (split_pieces (Z.to_nat (b_piece_length b)) data).
Proof.
  intros (Hpl & _ & full & -> & -> & HF & Hb). unfold split_pieces.
  rewrite chunks_exact_concat by (done || lia). rewrite map_app. f_equal.
  destruct (chunks_exact_inv (Z.to_nat (b_piece_length b)) (concat full ++ b_buf b)) as (E & _ & _);
    [lia|].
  rewrite chunks_exact_concat in E by (done || lia). apply app_inv_head in E. rewrite <- E.
  by destruct (b_buf b).
Qed.

(** * The round trip of a created torrent *)

Definition file_text_ok (f : FileInfo) : Prop :=
  0 ≤ file_length f ≤ i64_max ∧ file_path f ≠ [] ∧ Forall text_ok (file_path f).

Definition mode_text_ok (md : Mode) : Prop :=
  match md with
  | Single name length => text_ok name ∧ 0 ≤ length ≤ i64_max
  | Multiple name files => text_ok name ∧ Forall file_text_ok files
  end.

Lemma as_i64_small z : 0 ≤ z ≤ i64_max → as_i64 z = z.
Proof. intros Hz. unfold as_i64. rewrite Z.mod_small by lia. lia. Qed.

Lemma text_list_wf l : Forall text_ok l → bencode_wf (BList (map BBytes l)).
Proof.
  intros H. constructor. apply Forall_map. eapply Forall_impl; [exact H|].
  intros s [Hs _]. by constructor.
Qed.

Lemma file_entry_wf f : file_text_ok f → bencode_wf (file_entry f).
Proof.
  intros (Hl & _ & Hp). apply (wf_entries _ [bs "length"; bs "path"]); [done|nodup_keys|].
  wf_fields; [apply wf_integer, as_i64_range|by apply text_list_wf].
Qed.

Lemma omap_strings l : Forall text_ok l → omap_list string_from_bencode (map BBytes l) = Ok l.
Proof.
  induction 1 as [|s l Hs _ IH]; [done|]. cbn [map omap_list]. rewrite string_from_bytes by done.
  cbn [obind]. by rewrite IH.
Qed.

Lemma parse_file_entry f : file_text_ok f → parse_file (normalize (file_entry f)) = Ok f.
Proof.
  intros Hf. pose proof (file_entry_wf f Hf) as Hwf. destruct Hf as (Hl & Hne & Hp).
  unfold parse_file. rewrite dict_get_int_normalize, dict_get_normalize by done.
  unfold dict_get_int, file_entry. dict_lookup. cbn [ok_or obind fmap option_fmap option_map].
  rewrite as_i64_small by done. rewrite (proj2 (Z.ltb_ge _ _)) by lia.
  cbn [guard_err obind normalize]. rewrite map_map.
  rewrite (map_ext _ BBytes) by done. rewrite omap_strings by done. cbn [obind].
  destruct (file_path f) eqn:E; [done|]. cbn [guard_err obind]. rewrite <- E. by destruct f.
Qed.

Lemma parse_file_entries files :
  Forall file_text_ok files →
  omap_list parse_file (map normalize (map file_entry files)) = Ok files.
Proof.
  induction 1 as [|f l Hf _ IH]; [done|]. cbn [map omap_list]. rewrite parse_file_entry by done.
  cbn [obind]. by rewrite IH.
Qed.

Lemma info_dict_wf pl ps md :
  mode_text_ok md → short ps → bencode_wf (build_info_dict pl ps md).
Proof.
  intros Hmd Hps. unfold build_info_dict.
  assert (Forall (λ e, short e.1 ∧ bencode_wf e.2)
    [(bs "piece length", BInteger (as_i64 pl)); (bs "pieces", BBytes ps)]) as Hlast.
  { wf_fields; [apply wf_integer, as_i64_range|by apply wf_bytes]. }
  destruct md as [name len|name files]; destruct Hmd as [[Hn _] Hm]; cbn [mode_entries].
  - apply (wf_entries _ [bs "length"; bs "name"; bs "piece length"; bs "pieces"]);
      [done|nodup_keys|]. apply Forall_app. split; [|done].
    wf_fields; [apply wf_integer, as_i64_range|by apply wf_bytes].
  - apply (wf_entries _ [bs "files"; bs "name"; bs "piece length"; bs "pieces"]);
      [done|nodup_keys|]. apply Forall_app. split; [|done].
    wf_fields; [|by apply wf_bytes]. apply wf_list, Forall_map.
    eapply Forall_impl; [exact Hm|]. apply file_entry_wf.
Qed.

Lemma parse_built_mode pl ps md :
  mode_text_ok md → short ps →
  let v := normalize (build_info_dict pl ps md) in
  (let! name := get_required_string v (bs "name") in parse_mode v name) = Ok md.
Proof.
  intros Hmd Hps v. pose proof (info_dict_wf pl ps md Hmd Hps) as Hwf. unfold v, get_required_string.
  rewrite dict_get_bytes_normalize by done. unfold parse_mode.
  rewrite dict_get_int_normalize, dict_get_normalize by done.
  unfold dict_get_bytes, dict_get_int, build_info_dict.
  destruct md as [name len|name files]; destruct Hmd as [[_ Hu] Hm]; cbn [mode_entries]; dict_lookup;
    cbn [ok_or obind]; unfold string_from_bencode_bytes; rewrite from_utf8_valid by done;
    cbn [ok_or obind].
  - rewrite as_i64_small by done. by rewrite (proj2 (Z.ltb_ge _ _)) by lia.
  - cbn [fmap option_fmap option_map normalize parse_files_list].
    by rewrite parse_file_entries.
Qed.

Lemma parse_built_info pl ps md raw :
  0 < pl ≤ u32_max → mode_text_ok md → Forall (λ h, length h = 20%nat) ps → short (concat ps) →
  parse_info (normalize (build_info_dict pl (concat ps) md)) raw =
    Ok {| piece_length := pl; pieces := ps; mode := md; raw_info := RawBytes raw |}.
Proof.
  intros Hpl Hmd Hps Hs. pose proof (info_dict_wf pl (concat ps) md Hmd Hs) as Hwf.
  pose proof (parse_built_mode pl (concat ps) md Hmd Hs) as Hmode. cbn zeta in Hmode.
  unfold parse_info. rewrite dict_get_int_normalize, dict_get_bytes_normalize by done.
  assert (dict_get_int (build_info_dict pl (concat ps) md) (bs "piece length") = Some pl) as ->.
  { unfold dict_get_int, build_info_dict. destruct md; cbn [mode_entries]; dict_lookup;
      by rewrite as_i64_small by lia. }
  assert (dict_get_bytes (build_info_dict pl (concat ps) md) (bs "pieces") = Some (concat ps)) as ->.
  { unfold dict_get_bytes, build_info_dict. by destruct md; cbn [mode_entries]; dict_lookup. }
  cbn [ok_or obind]. rewrite (proj2 (Z.leb_gt _ _)) by lia. cbn [guard_err obind].
  rewrite (length_concat_fixed 20) by done. rewrite Nat.mul_comm, Nat.Div0.mod_mul.
  cbn [Nat.eqb negb guard_err obind].
  assert (chunks_exact 20 (concat ps) = ps) as ->.
  { rewrite <- (app_nil_r (concat ps)). apply chunks_exact_concat; [lia|done|cbn; lia]. }
  destruct (get_required_string _ _) as [name| | |]; try done. cbn [obind] in *.
  by rewrite Hmode.
Qed.
End builder.

(** * Properties *)

(** The text and size limits under which a created torrent is a well-formed file. *)
Definition finish_ok (announce : bytes) (md : Mode) (data : bytes) (pl : Z) : Prop :=
  text_ok announce ∧ mode_text_ok md ∧ 0 < pl ≤ u32_max ∧ zlen data ≤ u64_max ∧
  20 * (zlen data + 1) ≤ i64_max.

Lemma length_split_pieces w data :
  (0 < w)%nat → (length (split_pieces w data) ≤ length data + 1)%nat.
Proof.
  intros Hw. unfold split_pieces. rewrite length_app.
  destruct (chunks_exact_inv w data Hw) as (E & _ & HF).
  assert (length data = w * length (chunks_exact w data) + length (chunks_remainder w data))%nat as Hl.
  { rewrite E at 1. by rewrite length_app, (length_concat_fixed w). }
  destruct (chunks_remainder w data); cbn [length] in *; nia.
Qed.

(** Creating a torrent. Whatever buffers the data arrives in, the builder hashes the pieces of
    the concatenated data, each of the piece length but the last, and never loops or panics. The
    torrent it makes can be written, reads back as the same torrent without its web seeds, and its
    info hash is the hash of the encoded [info] dictionary, before and after. *)
Theorem builder_makes_torrent : ∀ sha1 pl ds announce md url_list httpseeds,
  (∀ b, length (sha1 b) = 20%nat) → finish_ok announce md (concat ds) pl →
  ∃ b0 b, builder_new pl = Ok b0 ∧ add_all sha1 b0 ds = Ok b ∧
    b_total_length b = zlen (concat ds) ∧
    let m := finish sha1 b announce md url_list httpseeds in
    pieces (info m) = map sha1 (split_pieces (Z.to_nat pl) (concat ds)) ∧
    (∃ d, metainfo_to_bytes m = Some d ∧ metainfo_from_bytes d = Ok (without_seeds m)) ∧
    info_hash sha1 m = sha1 (encode (build_info_dict pl (concat (pieces (info m))) md)).
Proof.
  intros sha1 pl ds announce md urls seeds Hsha (Ha & Hmd & Hpl & Hlen & Hbound).
  unfold builder_new. rewrite (proj2 (Z.ltb_lt _ _)) by lia.
  set (b0 := {| b_piece_length := pl; b_buf := []; b_pieces := []; b_total_length := 0 |}).
  destruct (add_all_inv sha1 ds [] b0) as (b & Eb & Hi & Hp); [|done|].
  { split_and!; [cbn; lia|done|]. exists []. split_and!; [done|done|constructor|cbn; lia]. }
  cbn [app] in Hi. exists b0, b. split; [done|]. split; [done|]. set (m := finish sha1 b announce md urls seeds). split; [apply Hi|]. cbn zeta. fold m.
  pose proof (builder_pieces sha1 (concat ds) b Hi) as Hps. rewrite Hp in Hps.
  cbn [b_piece_length b0] in Hps.
  assert (pieces (info m) = map sha1 (split_pieces (Z.to_nat pl) (concat ds))) as Hpieces by done.
  split; [done|]. split; [|unfold info_hash; cbn [info raw_info m finish]; by rewrite Hp].
  assert (Forall (λ h, length h = 20%nat) (pieces (info m))) as H20.
  { rewrite Hpieces. apply Forall_map, Forall_forall. intros x _. apply Hsha. }
  assert (short (concat (pieces (info m)))) as Hshort.
  { unfold short, zlen. rewrite (length_concat_fixed 20) by done.
    rewrite Hpieces, length_map. unfold zlen in Hbound.
    pose proof (length_split_pieces (Z.to_nat pl) (concat ds) ltac:(lia)). lia. }
  eapply (written_from_bytes m).
  - split_and!; [done|constructor|done..].
  - reflexivity.
  - intros y. apply decode_encode. by apply info_dict_wf.
  - cbn [info m finish]. rewrite Hp. cbn [b_piece_length b0]. by apply parse_built_info.
Qed.

Lemma builder_makes_torrent_witness :
  let sha1 b := take 20 (b ++ replicate 20 0) in
  let ds := [bs "hello "; []; bs "world"] in
  (∀ b, length (sha1 b) = 20%nat) ∧
  finish_ok (bs "http://t") (Single (bs "f") 11) (concat ds) 4 ∧
  ∃ b0 b, builder_new 4 = Ok b0 ∧ add_all sha1 b0 ds = Ok b ∧
    pieces (info (finish sha1 b (bs "http://t") (Single (bs "f") 11) [] [])) =
      map sha1 [bs "hell"; bs "o wo"; bs "rld"].
Proof.
  intros sha1 ds.
  assert (∀ b, length (sha1 b) = 20%nat) as Hsha.
  { intros b. unfold sha1. rewrite length_take, length_app, length_replicate. lia. }
  assert (finish_ok (bs "http://t") (Single (bs "f") 11) (concat ds) 4) as Hok.
  { unfold finish_ok, mode_text_ok, text_ok. split_and!; done || lia || (vm_compute; discriminate). }
  split; [exact Hsha|]. split; [exact Hok|].
  destruct (builder_makes_torrent sha1 4 ds (bs "http://t") (Single (bs "f") 11) [] [] Hsha Hok)
    as (b0 & b & H0 & Hb & _ & Hp & _).
  exists b0, b. split; [exact H0|]. split; [exact Hb|]. exact Hp.
Defined.
