(* ===== verification/MetainfoFiles.v ===== *)
(** The file layout of a torrent: what [Info::file_offsets], [Info::total_size] and
    [Info::file_status] of [crates/torrent-core/src/metainfo/mod.rs] compute. *)

From stdpp Require Import base numbers list strings.
From Stdlib Require Import ZArith Lia.
From S2P Require Import Prelude Facts Error Bencode Metainfo.

(** * Layout *)

(** The files of a torrent and their lengths, as one list for both modes. *)
Definition layout (i : Info) : list FileInfo :=
  match mode i with
  | Single name length => [{| file_length := length; file_path := [name] |}]
  | Multiple _ files => files
  end.

Definition sizes_sum (files : list FileInfo) : Z := foldr (λ f acc, file_length f + acc) 0 files.

(** The files laid end to end from [o] on. *)
Fixpoint laid_out (o : Z) (files : list FileInfo) : list FileOffset :=
  match files with
  | [] => []
  | f :: files' =>
      {| fo_offset := o; fo_length := file_length f; fo_path := file_path f |}
      :: laid_out (o + file_length f) files'
  end.

Definition lengths_ok (files : list FileInfo) : Prop :=
  Forall (λ f, 0 ≤ file_length f) files ∧ sizes_sum files ≤ u64_max.

Lemma sizes_sum_cons f l : sizes_sum (f :: l) = file_length f + sizes_sum l.
Proof. done. Qed.

Lemma sizes_sum_nonneg files : Forall (λ f, 0 ≤ file_length f) files → 0 ≤ sizes_sum files.
Proof. induction 1 as [|f l Hf _ IH]; [done|]. rewrite sizes_sum_cons. lia. Qed.

Lemma checked_add_ok {E} a b : a + b ≤ u64_max → checked_add_panic (E:=E) u64_max a b = Ok (a + b).
Proof. intros H. unfold checked_add_panic. by rewrite (proj2 (Z.leb_le _ _)). Qed.

Lemma sum_lengths_ok acc files :
  Forall (λ f, 0 ≤ file_length f) files → acc + sizes_sum files ≤ u64_max →
  sum_lengths acc files = Ok (acc + sizes_sum files).
Proof.
  intros HF. revert acc. induction HF as [|f l Hf HF IH]; intros acc Hs; cbn [sum_lengths].
  - cbn. by rewrite Z.add_0_r.
  - pose proof (sizes_sum_nonneg l HF). rewrite sizes_sum_cons in *.
    rewrite checked_add_ok by lia. cbn [obind]. rewrite IH by lia. f_equal. lia.
Qed.

Lemma offsets_from_ok o files :
  Forall (λ f, 0 ≤ file_length f) files → o + sizes_sum files ≤ u64_max →
  offsets_from o files = Ok (laid_out o files).
Proof.
  intros HF. revert o. induction HF as [|f l Hf HF IH]; intros o Hs; [done|].
  cbn [offsets_from laid_out]. rewrite sizes_sum_cons in Hs.
  pose proof (sizes_sum_nonneg l HF). rewrite checked_add_ok by lia. cbn [obind].
  by rewrite IH by lia.
Qed.

Lemma total_size_ok i :
  lengths_ok (layout i) → total_size i = Ok (sizes_sum (layout i)).
Proof.
  intros [HF Hs]. unfold total_size, layout in *. destruct (mode i) as [name len|name files].
  - cbn. f_equal. lia.
  - by rewrite sum_lengths_ok.
Qed.

Lemma file_offsets_ok i :
  lengths_ok (layout i) → file_offsets i = Ok (laid_out 0 (layout i)).
Proof.
  intros [HF Hs]. unfold file_offsets, layout in *. destruct (mode i) as [name len|name files]; [done|].
  by apply offsets_from_ok.
Qed.

(** * Overlaps *)

Definition fo_end (fo : FileOffset) : Z := fo_offset fo + fo_length fo.

(** The bytes of [fo] in the range from [a] up to [b]. *)
Definition overlap (a b : Z) (fo : FileOffset) : Z :=
  Z.max 0 (Z.min b (fo_end fo) - Z.max a (fo_offset fo)).

Lemma overlap_split a b c fo : a ≤ b ≤ c → overlap a b fo + overlap b c fo = overlap a c fo.
Proof. unfold overlap. lia. Qed.

Lemma overlap_le a b fo : 0 ≤ fo_length fo → 0 ≤ overlap a b fo ≤ fo_length fo.
Proof. unfold overlap, fo_end. lia. Qed.

Lemma overlap_empty a b fo : b ≤ a → overlap a b fo = 0.
Proof. unfold overlap. lia. Qed.

(** Every file of the layout lies between its ends. *)
Lemma laid_out_bounds o files :
  Forall (λ f, 0 ≤ file_length f) files →
  Forall (λ fo, o ≤ fo_offset fo ∧ 0 ≤ fo_length fo ∧ fo_end fo ≤ o + sizes_sum files) (laid_out o files).
Proof.
  intros HF. revert o. induction HF as [|f l Hf HF IH]; intros o; constructor.
  - rewrite sizes_sum_cons. cbn [fo_offset fo_length].
    pose proof (sizes_sum_nonneg l HF). unfold fo_end. cbn [fo_offset fo_length]. lia.
  - eapply Forall_impl; [apply IH|]. intros fo Hfo. cbn beta in Hfo. rewrite sizes_sum_cons. lia.
Qed.

Lemma laid_out_after o files a b :
  Forall (λ f, 0 ≤ file_length f) files → b ≤ o → Forall (λ fo, overlap a b fo = 0) (laid_out o files).
Proof.
  intros HF Hb. eapply Forall_impl; [by apply laid_out_bounds|]. intros fo Hfo. cbn beta in Hfo.
  unfold overlap. lia.
Qed.

Lemma length_laid_out o files : length (laid_out o files) = length files.
Proof. revert o. induction files as [|f l IH]; intros o; [done|]. cbn. by rewrite IH. Qed.

Lemma zip_with_unchanged (g : FileOffset → Z) offs ds :
  Forall (λ fo, g fo = 0) offs → length ds = length offs → zip_with (λ fo d, d + g fo) offs ds = ds.
Proof.
  intros HF. revert ds. induction HF as [|fo offs Hg _ IH]; intros [|d ds] Hl; try done.
  cbn. rewrite Hg, Z.add_0_r. f_equal. apply IH. by injection Hl.
Qed.

(** One piece adds its overlap to every file; the early exit loses nothing. *)
Lemma add_piece_ok ps pe o files ds :
  ps < pe → Forall (λ f, 0 ≤ file_length f) files → o + sizes_sum files ≤ u64_max →
  Forall2 (λ fo d, d + overlap ps pe fo ≤ u64_max) (laid_out o files) ds →
  add_piece ps pe (laid_out o files) ds = Ok (zip_with (λ fo d, d + overlap ps pe fo) (laid_out o files) ds).
Proof.
  intros Hp HF. revert o ds. induction HF as [|f l Hf HF IH]; intros o ds Hs H2;
    cbn [laid_out] in *; inversion H2 as [|fo d offs ds' Hd H2' E1 E2]; subst; [done|].
  rewrite sizes_sum_cons in Hs. pose proof (sizes_sum_nonneg l HF).
  cbn [add_piece fo_offset fo_length]. rewrite checked_add_ok by lia. cbn [obind].
  unfold overlap, fo_end in Hd. cbn [fo_offset fo_length] in Hd.
  set (oe := Z.min pe (o + file_length f)) in *. set (os := Z.max ps o) in *.
  assert ((if os <? oe then checked_add_panic u64_max d (oe - os) else Ok d) =
          (Ok (d + Z.max 0 (oe - os)) : result Z)) as ->.
  { destruct (Z.ltb_spec os oe); [rewrite checked_add_ok by lia|]; f_equal; lia. }
  cbn [obind zip_with].
  set (fo := {| fo_offset := o; fo_length := file_length f; fo_path := file_path f |}) in *.
  change (overlap ps pe fo) with (Z.max 0 (oe - os)).
  destruct (Z.leb_spec pe (o + file_length f)) as [Hle|Hgt].
  - do 2 f_equal. symmetry. apply zip_with_unchanged.
    + by apply laid_out_after.
    + symmetry. by eapply Forall2_length.
  - rewrite IH by (done || lia). done.
Qed.

(** * All pieces *)

(** The bytes of [fo] in the completed pieces, from piece [i] on. *)
Fixpoint fetched (total pl : Z) (i : Z) (bf : list bool) (fo : FileOffset) : Z :=
  match bf with
  | [] => 0
  | b :: bf' =>
      (if b then overlap (i * pl) (Z.min total (i * pl + pl)) fo else 0) + fetched total pl (i + 1) bf' fo
  end.

Definition upto (total pl i : Z) : Z := Z.min total (i * pl).

Lemma fetched_bounds total pl i bf fo :
  0 ≤ i → 0 < pl → 0 ≤ total →
  0 ≤ fetched total pl i bf fo ≤ overlap (upto total pl i) (upto total pl (i + Z.of_nat (length bf))) fo.
Proof.
  intros Hi Hpl Ht. revert i Hi. induction bf as [|b bf IH]; intros i Hi; cbn [fetched length].
  - rewrite Z.add_0_r. split; [lia|]. unfold overlap. lia.
  - specialize (IH (i + 1) ltac:(lia)).
    replace (i + Z.of_nat (S (length bf))) with (i + 1 + Z.of_nat (length bf)) by lia.
    rewrite <- (overlap_split (upto total pl i) (upto total pl (i + 1)))
      by (unfold upto; nia).
    assert (overlap (i * pl) (Z.min total (i * pl + pl)) fo =
            overlap (upto total pl i) (upto total pl (i + 1)) fo ) as E.
    { unfold upto. replace ((i + 1) * pl) with (i * pl + pl) by lia.
      unfold overlap. lia. }
    assert (0 ≤ overlap (upto total pl i) (upto total pl (i + 1)) fo) by (unfold overlap; lia).
    destruct b; lia.
Qed.

Lemma fetched_all total pl i bf fo :
  0 ≤ i → 0 < pl → 0 ≤ total → forallb id bf = true →
  fetched total pl i bf fo =
    overlap (upto total pl i) (upto total pl (i + Z.of_nat (length bf))) fo.
Proof.
  intros Hi Hpl Ht. revert i Hi. induction bf as [|b bf IH]; intros i Hi Hall; cbn [fetched length].
  - rewrite Z.add_0_r. unfold overlap. lia.
  - cbn [forallb] in Hall. apply andb_true_iff in Hall as [Hb Hall]. unfold id in Hb. subst b.
    rewrite IH by (done || lia).
    replace (i + Z.of_nat (S (length bf))) with (i + 1 + Z.of_nat (length bf)) by lia.
    rewrite <- (overlap_split (upto total pl i) (upto total pl (i + 1))) by (unfold upto; nia).
    f_equal. unfold upto. replace ((i + 1) * pl) with (i * pl + pl) by lia. unfold overlap. lia.
Qed.

Lemma fetched_past total pl i bf fo :
  0 < pl → total ≤ i * pl → fetched total pl i bf fo = 0.
Proof.
  intros Hpl. revert i. induction bf as [|b bf IH]; intros i Hi; [done|]. cbn [fetched].
  rewrite IH by lia. rewrite overlap_empty by lia. by destruct b.
Qed.

Lemma zip_with_add_add (g h : FileOffset → Z) offs ds :
  length ds = length offs →
  zip_with (λ fo d, d + h fo) offs (zip_with (λ fo d, d + g fo) offs ds) =
  zip_with (λ fo d, d + (g fo + h fo)) offs ds.
Proof.
  revert ds. induction offs as [|fo offs IH]; intros [|d ds] Hl; try done. cbn. f_equal; [lia|].
  apply IH. by injection Hl.
Qed.

(** The loop over the pieces: what was downloaded before, plus what the other pieces add. *)
Lemma add_pieces_ok total pl i bf files ds :
  0 ≤ i → 0 < pl → total = sizes_sum files → lengths_ok files →
  (i + Z.of_nat (length bf)) * pl ≤ u64_max →
  Forall2 (λ fo d, 0 ≤ d ≤ overlap 0 (upto total pl i) fo) (laid_out 0 files) ds →
  add_pieces total pl (laid_out 0 files) i bf ds =
    Ok (zip_with (λ fo d, d + fetched total pl i bf fo) (laid_out 0 files) ds).
Proof.
  intros Hi Hpl Htot [HF Hs]. pose proof (sizes_sum_nonneg files HF) as Hnn. rewrite <- Htot in *.
  pose proof (laid_out_bounds 0 files HF) as Hb. rewrite <- Htot in Hb.
  revert i ds Hi. induction bf as [|b bf IH]; intros i ds Hi Hu H2; cbn [add_pieces].
  - f_equal. symmetry. apply zip_with_unchanged; [by apply Forall_true|]. by eapply eq_sym, Forall2_length.
  - cbn [length] in Hu.
    assert (i + 1 + Z.of_nat (length bf) = i + Z.of_nat (S (length bf))) as Elen by lia.
    assert (i * pl + pl ≤ u64_max) as Hstop by nia.
    assert (upto total pl (i + 1) = Z.min total (i * pl + pl)) as Eup by (unfold upto; f_equal; lia).
    destruct b; cbn [negb fetched].
    2: { rewrite IH; [|lia|by rewrite Elen|].
         - done.
         - eapply Forall2_impl; [exact H2|]. intros fo d Hd. cbn beta in *.
           unfold upto, overlap in *. nia. }
    unfold checked_mul_panic. rewrite (proj2 (Z.leb_le _ _)) by nia. cbn [obind].
    rewrite checked_add_ok by done. cbn [obind]. rewrite <- Eup.
    destruct (Z.leb_spec (upto total pl (i + 1)) (i * pl)) as [Hle|Hgt].
    + f_equal. symmetry. apply zip_with_unchanged; [|by eapply eq_sym, Forall2_length].
      apply Forall_true. intros fo. rewrite overlap_empty by lia.
      apply fetched_past; [done|]. unfold upto in Hle. nia.
    + assert (upto total pl i = i * pl) as Eup' by (unfold upto in *; nia).
      assert (∀ fo, 0 ≤ fo_offset fo → overlap 0 (i * pl) fo + overlap (i * pl) (upto total pl (i + 1)) fo =
                      overlap 0 (upto total pl (i + 1)) fo) as Hsplit
        by (intros fo _; apply overlap_split; nia).
      rewrite Eup' in H2.
      assert (Forall2 (λ fo d, (0 ≤ fo_offset fo ∧ 0 ≤ fo_length fo ∧ fo_end fo ≤ total) ∧
                0 ≤ d ≤ overlap 0 (i * pl) fo) (laid_out 0 files) ds) as H2'.
      { clear -H2 Hb. induction H2 as [|fo d offs ds Hd _ IH]; [constructor|].
        apply Forall_cons in Hb as [Hfo Hb]. constructor; [by split|by apply IH]. }
      rewrite add_piece_ok; [|done|done|by rewrite <- Htot|].
      2: { eapply Forall2_impl; [exact H2'|]. intros fo d [(Ho & Hl & He) Hd]. cbn beta in *.
           specialize (Hsplit fo Ho). pose proof (overlap_le 0 (upto total pl (i + 1)) fo Hl).
           unfold fo_end in He. lia. }
      cbn [obind]. rewrite IH; [|lia|by rewrite Elen|].
      * f_equal. rewrite zip_with_add_add by by eapply eq_sym, Forall2_length. done.
      * clear -H2' Hsplit Hpl Hgt. induction H2' as [|fo d offs ds [(Ho & _) Hd] _ IH]; constructor; [|done].
        rewrite <- (Hsplit fo Ho). unfold overlap in *. lia.
Qed.

(** The status is computed for every bitfield of the right length. *)
Lemma file_status_eq i bf :
  lengths_ok (layout i) → 0 < piece_length i → length bf = num_pieces i →
  Z.of_nat (num_pieces i) * piece_length i ≤ u64_max →
  let offs := laid_out 0 (layout i) in
  file_status i bf = Ok (zip_with status_of offs
    (zip_with (λ fo d, d + fetched (sizes_sum (layout i)) (piece_length i) 0 bf fo) offs
       (replicate (length offs) 0))).
Proof.
  intros Hok Hpl Hlen Hu offs. unfold file_status.
  rewrite Hlen, Nat.eqb_refl, (file_offsets_ok i Hok), (total_size_ok i Hok). cbn [obind].
  fold offs. unfold offs. rewrite add_pieces_ok; [done|lia|done|done|done|by rewrite Hlen|].
  apply Forall2_replicate_r; [done|]. eapply Forall_impl; [apply laid_out_bounds, Hok|].
  intros fo _. unfold flip, overlap. lia.
Qed.

(** * Property *)

(** The status of the files is exact. The files lie end to end from offset 0, the total size is
    the sum of their lengths, and no arithmetic overflows; what is reported as downloaded of a file
    is the number of its bytes inside the completed pieces, never more than its length, and its
    whole length once every piece is complete and the pieces cover the data. *)
Theorem file_status_exact : ∀ i bf,
  lengths_ok (layout i) → 0 < piece_length i → length bf = num_pieces i →
  Z.of_nat (num_pieces i) * piece_length i ≤ u64_max →
  let total := sizes_sum (layout i) in
  let offs := laid_out 0 (layout i) in
  total_size i = Ok total ∧ file_offsets i = Ok offs ∧
  ∃ st, file_status i bf = Ok st ∧
    Forall2 (λ fo s,
      fs_path s = fo_path fo ∧ fs_length s = fo_length fo ∧
      fs_downloaded s = fetched total (piece_length i) 0 bf fo ∧
      0 ≤ fs_downloaded s ≤ fs_length s ∧
      (forallb id bf = true → total ≤ Z.of_nat (num_pieces i) * piece_length i →
       fs_downloaded s = fs_length s)) offs st.
Proof.
  intros i bf Hok Hpl Hlen Hu total offs.
  pose proof (total_size_ok i Hok) as Ht. pose proof (file_offsets_ok i Hok) as Ho.
  split; [done|]. split; [done|]. rewrite file_status_eq by done. fold total offs.
  eexists. split; [done|].
  pose proof (laid_out_bounds 0 (layout i) (proj1 Hok)) as Hb. fold offs total in Hb.
  pose proof (sizes_sum_nonneg _ (proj1 Hok)) as Hnn. fold total in Hnn. clearbody offs.
  induction Hb as [|fo offs (H0 & Hl & He) _ IH]; [constructor|]. cbn [length replicate zip_with].
  constructor; [|exact IH]. unfold status_of. cbn [fs_path fs_length fs_downloaded].
  rewrite Z.add_0_l. pose proof (fetched_bounds total (piece_length i) 0 bf fo) as Hf.
  pose proof (overlap_le (upto total (piece_length i) 0)
    (upto total (piece_length i) (0 + Z.of_nat (length bf))) fo Hl) as Hov.
  split_and!; [done|done|done|lia|lia|]. intros Hall Hcover. rewrite fetched_all by (done || lia).
  rewrite Hlen. unfold upto, overlap, fo_end in *. lia.
Qed.

Definition sample_info : Info :=
  {| piece_length := 4; pieces := replicate 3 (replicate 20 0);
     mode := Multiple (bs "d") [mk_file 5 [bs "a"]; mk_file 0 [bs "b"]; mk_file 6 [bs "c"]];
     raw_info := RawHash [] |}.

Lemma file_status_exact_witness :
  total_size sample_info = Ok 11 ∧
  ∃ st, file_status sample_info [true; false; true] = Ok st ∧ map fs_downloaded st = [4; 0; 3].
Proof.
  destruct (file_status_exact sample_info [true; false; true]) as (Ht & _ & st & Hst & _).
  - split; [repeat (apply Forall_cons; split; [cbn; lia|]); constructor|vm_compute; discriminate].
  - done.
  - done.
  - vm_compute. discriminate.
  - split; [exact Ht|]. exists st. split; [exact Hst|]. vm_compute in Hst. by injection Hst as <-.
Defined.
