(* ===== verification/Magnet.v ===== *)
(** Magnet links: [crates/torrent-core/src/magnet/mod.rs]. *)

From stdpp Require Import base numbers list list_numbers strings.
From Stdlib Require Import ZArith Lia.
From S2P Require Import Prelude Facts Error Text Metainfo.

(** * Data *)

(** [struct InfoHash]. *)
Record InfoHash : Type := mk_info_hash { ih_bytes : bytes; ih_raw : bytes }.

(** [struct MagnetUri]. *)
Record MagnetUri : Type := mk_magnet {
  info_hashes : list InfoHash;
  display_name : option bytes;
  trackers : list bytes;
  web_seeds : list bytes;
  exact_source : option bytes;
  acceptable_source : option bytes;
  keyword_topic : option bytes;
  manifest_topic : option bytes;
  exact_length : option Z;
  peers : list bytes;
}.

(** * Info hashes *)

Definition hex_encode (b : bytes) : bytes := concat (map (hex_byte false) b).

(** The loop of [hex_decode], over chunks of two characters; [chunk[1]] panics on a chunk of one. *)
Definition hex_pair (chunk : bytes) : result Z :=
  let! c0 := index chunk 0 in
  let! hi := hex_val c0 in
  let! c1 := index chunk 1 in
  let! lo := hex_val c1 in
  Ok (Z.lor (as_u8 (Z.shiftl hi 4)) lo).

Definition hex_decode (s : bytes) : result bytes :=
  let! _ := guard_err (negb (zlen s =? 40)) InvalidInput in
  omap_list hex_pair (chunks 2 s).

Definition base32_val (c : Z) : result Z :=
  if in_range 65 90 c then Ok (c - 65)
  else if in_range 97 122 c then Ok (c - 97)
  else if in_range 50 55 c then Ok (c - 50 + 26)
  else Err InvalidInput.

(** [buf = (buf << 5) | val], over the characters of a group. *)
Fixpoint base32_group (buf : Z) (l : bytes) : result Z :=
  match l with
  | [] => Ok buf
  | c :: l' => let! v := base32_val c in base32_group (Z.lor (as_u64 (Z.shiftl buf 5)) v) l'
  end.

Definition five_bytes (buf : Z) : bytes :=
  [as_u8 (Z.land (Z.shiftr buf 32) 255); as_u8 (Z.land (Z.shiftr buf 24) 255);
   as_u8 (Z.land (Z.shiftr buf 16) 255); as_u8 (Z.land (Z.shiftr buf 8) 255); as_u8 (Z.land buf 255)].

Definition base32_decode (s : bytes) : result bytes :=
  let! _ := guard_err (negb (zlen s =? 32)) InvalidInput in
  let! groups := omap_list (λ g, base32_group 0 (take 8 (drop (g * 8) s))) (seq 0 4) in
  Ok (concat (map five_bytes groups)).

Definition parse_xt (value : bytes) : option InfoHash :=
  match strip_prefix (bs "urn:btih:") value with
  | None => None
  | Some hash_str =>
      let decoded :=
        if zlen hash_str =? 40 then outcome_ok (hex_decode hash_str)
        else if zlen hash_str =? 32 then outcome_ok (base32_decode hash_str)
        else None in
      match decoded with
      | Some b => Some {| ih_bytes := b; ih_raw := hash_str |}
      | None => None
      end
  end.

(** * Percent-encoding *)

(** The loop of [url_decode] on the bytes. *)
Fixpoint percent_decode (l : bytes) : bytes :=
  match l with
  | [] => []
  | b :: l' =>
      if b =? c_percent then
        match l' with
        | h :: o :: rest =>
            match hex_val h, hex_val o with
            | Ok hi, Ok lo => Z.lor (as_u8 (Z.shiftl hi 4)) lo :: percent_decode rest
            | _, _ => b :: percent_decode l'
            end
        | _ => b :: percent_decode l'
        end
      else b :: percent_decode l'
  end.

Definition url_decode (s : bytes) : bytes := utf8_lossy (percent_decode s).

Definition unreserved (b : Z) : bool :=
  in_range 65 90 b || in_range 97 122 b || in_range 48 57 b
  || (b =? 45) || (b =? 46) || (b =? 95) || (b =? 126).

Definition url_encode (s : bytes) : bytes :=
  concat (map (λ b, if unreserved b then [b] else c_percent :: hex_byte true b) s).

(** * Parsing *)

Definition magnet_empty : MagnetUri :=
  {| info_hashes := []; display_name := None; trackers := []; web_seeds := []; exact_source := None;
     acceptable_source := None; keyword_topic := None; manifest_topic := None; exact_length := None;
     peers := [] |}.

(** The assignments to the local variables of [from_str]. *)
Definition add_hash (x : InfoHash) (m : MagnetUri) : MagnetUri :=
  {| info_hashes := info_hashes m ++ [x]; display_name := display_name m; trackers :=
     trackers m; web_seeds := web_seeds m; exact_source := exact_source m; acceptable_source
     := acceptable_source m; keyword_topic := keyword_topic m; manifest_topic :=
     manifest_topic m; exact_length := exact_length m; peers := peers m |}.

Definition set_name (x : bytes) (m : MagnetUri) : MagnetUri :=
  {| info_hashes := info_hashes m; display_name := Some x; trackers := trackers m; web_seeds
     := web_seeds m; exact_source := exact_source m; acceptable_source := acceptable_source
     m; keyword_topic := keyword_topic m; manifest_topic := manifest_topic m; exact_length
     := exact_length m; peers := peers m |}.

Definition add_tracker (x : bytes) (m : MagnetUri) : MagnetUri :=
  {| info_hashes := info_hashes m; display_name := display_name m; trackers := trackers m ++
     [x]; web_seeds := web_seeds m; exact_source := exact_source m; acceptable_source :=
     acceptable_source m; keyword_topic := keyword_topic m; manifest_topic := manifest_topic
     m; exact_length := exact_length m; peers := peers m |}.

Definition add_web_seed (x : bytes) (m : MagnetUri) : MagnetUri :=
  {| info_hashes := info_hashes m; display_name := display_name m; trackers := trackers m;
     web_seeds := web_seeds m ++ [x]; exact_source := exact_source m; acceptable_source :=
     acceptable_source m; keyword_topic := keyword_topic m; manifest_topic := manifest_topic
     m; exact_length := exact_length m; peers := peers m |}.

Definition set_exact_source (x : bytes) (m : MagnetUri) : MagnetUri :=
  {| info_hashes := info_hashes m; display_name := display_name m; trackers := trackers m;
     web_seeds := web_seeds m; exact_source := Some x; acceptable_source :=
     acceptable_source m; keyword_topic := keyword_topic m; manifest_topic := manifest_topic
     m; exact_length := exact_length m; peers := peers m |}.

Definition set_acceptable_source (x : bytes) (m : MagnetUri) : MagnetUri :=
  {| info_hashes := info_hashes m; display_name := display_name m; trackers := trackers m;
     web_seeds := web_seeds m; exact_source := exact_source m; acceptable_source := Some x;
     keyword_topic := keyword_topic m; manifest_topic := manifest_topic m; exact_length :=
     exact_length m; peers := peers m |}.

Definition set_keyword_topic (x : bytes) (m : MagnetUri) : MagnetUri :=
  {| info_hashes := info_hashes m; display_name := display_name m; trackers := trackers m;
     web_seeds := web_seeds m; exact_source := exact_source m; acceptable_source :=
     acceptable_source m; keyword_topic := Some x; manifest_topic := manifest_topic m;
     exact_length := exact_length m; peers := peers m |}.

Definition set_manifest_topic (x : bytes) (m : MagnetUri) : MagnetUri :=
  {| info_hashes := info_hashes m; display_name := display_name m; trackers := trackers m;
     web_seeds := web_seeds m; exact_source := exact_source m; acceptable_source :=
     acceptable_source m; keyword_topic := keyword_topic m; manifest_topic := Some x;
     exact_length := exact_length m; peers := peers m |}.

Definition set_exact_length (x : option Z) (m : MagnetUri) : MagnetUri :=
  {| info_hashes := info_hashes m; display_name := display_name m; trackers := trackers m;
     web_seeds := web_seeds m; exact_source := exact_source m; acceptable_source :=
     acceptable_source m; keyword_topic := keyword_topic m; manifest_topic := manifest_topic
     m; exact_length := x; peers := peers m |}.

Definition add_peer (x : bytes) (m : MagnetUri) : MagnetUri :=
  {| info_hashes := info_hashes m; display_name := display_name m; trackers := trackers m;
     web_seeds := web_seeds m; exact_source := exact_source m; acceptable_source :=
     acceptable_source m; keyword_topic := keyword_topic m; manifest_topic := manifest_topic
     m; exact_length := exact_length m; peers := peers m ++ [x] |}.

(** [match key { ... }]. *)
Definition assign (key value : bytes) (m : MagnetUri) : MagnetUri :=
  if decide (key = bs "xt") then
    match parse_xt value with Some hash => add_hash hash m | None => m end
  else if decide (key = bs "dn") then set_name (url_decode value) m
  else if decide (key = bs "tr") then add_tracker (url_decode value) m
  else if decide (key = bs "ws") then add_web_seed (url_decode value) m
  else if decide (key = bs "xs") then set_exact_source (url_decode value) m
  else if decide (key = bs "as") then set_acceptable_source (url_decode value) m
  else if decide (key = bs "kt") then set_keyword_topic (url_decode value) m
  else if decide (key = bs "mt") then set_manifest_topic (url_decode value) m
  else if decide (key = bs "x.pe") then add_peer (url_decode value) m
  else if decide (key = bs "xl") then set_exact_length (parse_unsigned u64_max value) m
  else m.

(** One turn of the loop over the parameters. *)
Definition apply_param (m : MagnetUri) (param : bytes) : MagnetUri :=
  match param with
  | [] => m
  | _ =>
      match split_once 61 param with
      | None => m
      | Some (key, value) => assign key value m
      end
  end.

(** The scheme, in any case; [s[..7]] panics when byte 7 is inside a character. *)
Definition strip_scheme (s : bytes) : result bytes :=
  match strip_prefix (bs "magnet:") s with
  | Some body => Ok body
  | None =>
      if (7 <? length s)%nat then
        if is_char_boundary s 7 then
          if eq_ignore_ascii_case (take 7 s) (bs "magnet:") then Ok (drop 7 s) else Err InvalidInput
        else Panic
      else Err InvalidInput
  end.

(** [MagnetUri::from_str]. *)
Definition magnet_from_str (text : bytes) : result MagnetUri :=
  let! body := strip_scheme (trim text) in
  let! body := ok_or (strip_prefix (bs "?") body) InvalidInput in
  let m := foldl apply_param magnet_empty (split_on 38 body) in
  let! _ := guard_err (match info_hashes m with [] => true | _ => false end) InvalidInput in
  Ok m.

(** * Printing *)

(** [if !first { write!(f, "&")?; }], then the parameter: the output and the new [first]. *)
Definition write_param (key value : bytes) (st : bytes * bool) : bytes * bool :=
  (st.1 ++ (if st.2 then [] else bs "&") ++ key ++ value, false).

Definition write_all {A} (write : A → bytes * bool → bytes * bool) (l : list A) (st : bytes * bool)
    : bytes * bool := foldl (λ st x, write x st) st l.

Definition write_opt (key : bytes) (o : option bytes) (out : bytes) : bytes :=
  match o with Some v => out ++ key ++ url_encode v | None => out end.

(** [Display for MagnetUri]. *)
Definition magnet_to_string (m : MagnetUri) : bytes :=
  let st := (bs "magnet:?", true) in
  let st := write_all (λ xt, write_param (bs "xt=urn:btih:") (ih_raw xt)) (info_hashes m) st in
  let st := match display_name m with
            | Some dn => write_param (bs "dn=") (url_encode dn) st
            | None => st
            end in
  let st := write_all (λ tr, write_param (bs "tr=") (url_encode tr)) (trackers m) st in
  let out := foldl (λ out ws, out ++ bs "&ws=" ++ url_encode ws) st.1 (web_seeds m) in
  let out := write_opt (bs "&xs=") (exact_source m) out in
  let out := write_opt (bs "&as=") (acceptable_source m) out in
  let out := write_opt (bs "&kt=") (keyword_topic m) out in
  let out := write_opt (bs "&mt=") (manifest_topic m) out in
  let out := foldl (λ out p, out ++ bs "&x.pe=" ++ url_encode p) out (peers m) in
  match exact_length m with
  | Some xl => out ++ bs "&xl=" ++ u64_to_string xl
  | None => out
  end.

(** [MagnetUri::primary_info_hash]: [self.info_hashes[0]]. *)
Definition primary_info_hash (m : MagnetUri) : result bytes :=
  let! h := index (info_hashes m) 0 in Ok (ih_bytes h).

(** [From<&Metainfo> for MagnetUri]. *)
Definition magnet_of_metainfo (sha1 : bytes → bytes) (meta : Metainfo) : result MagnetUri :=
  let ih := info_hash sha1 meta in
  let! total := total_size (info meta) in
  Ok {|
    info_hashes := [{| ih_bytes := ih; ih_raw := hex_encode ih |}];
    display_name := Some (match mode (info meta) with Single name _ => name | Multiple name _ => name end);
    trackers := announce meta :: concat (announce_list meta);
    web_seeds := [];
    exact_source := None;
    acceptable_source := None;
    keyword_topic := None;
    manifest_topic := None;
    exact_length := Some total;
    peers := [] |}.
