(* ===== verification/MagnetFacts.v ===== *)
(** Magnet links through text: what is printed is read back, and the info hashes denote numbers. *)

From stdpp Require Import base numbers list list_numbers strings.
From Stdlib Require Import ZArith Lia.
From S2P Require Import Prelude Facts Error Text Bencode BencodeFacts Metainfo MetainfoFacts Magnet.

(** * Percent-encoding *)

Lemma unreserved_graphic b : unreserved b = true → graphic b ∧ b ≠ 37 ∧ b ≠ 38 ∧ b ≠ 61.
Proof. unfold unreserved, in_range, graphic. rewrite !orb_true_iff, !andb_true_iff, !Z.leb_le, !Z.eqb_eq. lia. Qed.

Lemma percent_decode_encode s : bytes_ok s → percent_decode (url_encode s) = s.
Proof.
  unfold url_encode. induction 1 as [|b s Hb _ IH]; [done|]. cbn [map concat].
  destruct (unreserved b) eqn:Hu; cbn [app percent_decode hex_byte].
  - apply unreserved_graphic in Hu as (_ & Hp & _). rewrite (proj2 (Z.eqb_neq _ _)) by done. by rewrite IH.
  - rewrite Z.eqb_refl. destruct (nibbles b Hb) as (H1 & H2 & H3).
    rewrite !hex_val_digit by done. by rewrite H3, IH.
Qed.

Lemma url_decode_encode s : utf8_valid s = true → url_decode (url_encode s) = s.
Proof.
  intros Hs. unfold url_decode. rewrite percent_decode_encode by (by apply utf8_valid_bytes).
  by apply utf8_lossy_valid.
Qed.

(** Characters that a parameter may hold: visible, and no separator. *)
Definition plain (b : Z) : Prop := graphic b ∧ b ≠ 38.

Lemma hex_byte_plain u b : in_u8 b → Forall plain (hex_byte u b).
Proof.
  intros Hb. destruct (nibbles b Hb) as (H1 & H2 & _). unfold plain, graphic.
  pose proof (hex_digit_graphic u _ H1). pose proof (hex_digit_graphic u _ H2).
  unfold hex_byte. repeat (apply Forall_cons; split); [lia..|]. constructor.
Qed.

Lemma url_encode_plain s : bytes_ok s → Forall plain (url_encode s).
Proof.
  unfold url_encode. induction 1 as [|b s Hb _ IH]; [constructor|]. cbn [map concat].
  apply Forall_app. split; [|done]. destruct (unreserved b) eqn:Hu.
  - apply unreserved_graphic in Hu as (Hg & _ & Hn & _). by apply Forall_singleton.
  - apply Forall_cons. split; [split; [unfold graphic|]; lia|]. by apply hex_byte_plain.
Qed.

(** * Printing as a list of parameters *)

Definition joined (ps : list bytes) : bytes := concat (map (cons 38) ps).

Lemma join_joined p ps : join 38 (p :: ps) = p ++ joined ps.
Proof.
  revert p. induction ps as [|q ps IH]; intros p; [by rewrite app_nil_r|].
  change (join 38 (p :: q :: ps)) with (p ++ 38 :: join 38 (q :: ps)). by rewrite IH.
Qed.

Lemma joined_app a b : joined (a ++ b) = joined a ++ joined b.
Proof. unfold joined. by rewrite map_app, concat_app. Qed.

Definition opt_param (key : bytes) (o : option bytes) : list bytes :=
  match o with Some v => [key ++ url_encode v] | None => [] end.

Definition texts (key : bytes) (l : list bytes) : list bytes := map (λ v, key ++ url_encode v) l.

Definition length_param (o : option Z) : list bytes :=
  match o with Some xl => [bs "xl=" ++ u64_to_string xl] | None => [] end.

Definition other_params (m : MagnetUri) : list bytes :=
  opt_param (bs "dn=") (display_name m) ++ texts (bs "tr=") (trackers m) ++
  texts (bs "ws=") (web_seeds m) ++ opt_param (bs "xs=") (exact_source m) ++
  opt_param (bs "as=") (acceptable_source m) ++ opt_param (bs "kt=") (keyword_topic m) ++
  opt_param (bs "mt=") (manifest_topic m) ++ texts (bs "x.pe=") (peers m) ++
  length_param (exact_length m).

Definition xt_param (h : InfoHash) : bytes := bs "xt=urn:btih:" ++ ih_raw h.

Lemma write_all_joined {A} key (g : A → bytes) l out :
  write_all (λ x, write_param key (g x)) l (out, false) = (out ++ joined (map (λ x, key ++ g x) l), false).
Proof.
  unfold write_all. revert out. induction l as [|x l IH]; intros out; cbn [foldl map].
  - by rewrite app_nil_r.
  - unfold write_param at 2. cbn [fst snd]. rewrite IH. unfold joined. cbn [map concat].
    by rewrite <- app_assoc.
Qed.

Lemma foldl_joined {A} (g : A → bytes) (l : list A) out :
  foldl (λ out x, out ++ 38 :: g x) out l = out ++ joined (map g l).
Proof.
  revert out. induction l as [|x l IH]; intros out; cbn [foldl map]; [by rewrite app_nil_r|].
  rewrite IH. unfold joined. cbn [map concat app]. by rewrite <- app_assoc.
Qed.

Lemma write_opt_joined key o out : write_opt (38 :: key) o out = out ++ joined (opt_param key o).
Proof. destruct o; unfold joined; cbn; [|by rewrite app_nil_r]. by rewrite app_nil_r. Qed.

Lemma write_length o (out : bytes) :
  match o with Some xl => out ++ bs "&xl=" ++ u64_to_string xl | None => out end = out ++ joined (length_param o).
Proof. destruct o; unfold joined; cbn; by rewrite app_nil_r. Qed.

Lemma magnet_to_string_params m h hs :
  info_hashes m = h :: hs →
  magnet_to_string m = bs "magnet:?" ++ join 38 (xt_param h :: map xt_param hs ++ other_params m).
Proof.
  intros Hh. unfold magnet_to_string. rewrite Hh, join_joined.
  change (write_all ?w (h :: hs) (?o, true)) with (write_all w hs (o ++ [] ++ xt_param h, false)).
  rewrite (write_all_joined (bs "xt=urn:btih:") ih_raw).
  set (st := match display_name m with Some _ => _ | None => _ end).
  assert (st = (bs "magnet:?" ++ xt_param h ++ joined (map xt_param hs ++ opt_param (bs "dn=") (display_name m)), false)) as ->.
  { subst st. rewrite joined_app. destruct (display_name m) as [dn|]; cbn [opt_param].
    - unfold write_param, joined at 4. cbn [fst snd map concat app]. rewrite app_nil_r.
      unfold xt_param at 2. by rewrite <- !app_assoc.
    - unfold joined at 3. cbn. by rewrite app_nil_r. }
  rewrite write_all_joined. cbn [fst].
  rewrite (foldl_joined (λ ws, bs "ws=" ++ url_encode ws)).
  rewrite (write_opt_joined (bs "xs=")), (write_opt_joined (bs "as=")), (write_opt_joined (bs "kt=")), (write_opt_joined (bs "mt=")).
  rewrite (foldl_joined (λ p, bs "x.pe=" ++ url_encode p)).
  rewrite write_length. unfold other_params, texts. by rewrite !joined_app, <- !app_assoc.
Qed.

(** * Reading the parameters back *)

Lemma apply_param_kv m key value :
  61 ∉ key → apply_param m (key ++ 61 :: value) = assign key value m.
Proof.
  intros Hk. unfold apply_param. rewrite split_once_app by done. by destruct key.
Qed.

(** A key of the grammar, and what [assign] does with its decoded value. *)
Definition text_key (k : string) (f : bytes → MagnetUri → MagnetUri) : Prop :=
  (61 ∉ bs k) ∧ ∀ value m, assign (bs k) value m = f (url_decode value) m.

Ltac solve_key := split; [apply (bool_decide_unpack _); vm_compute; exact I|intros; reflexivity].

Section text_keys.
Context (k : string) (f : bytes → MagnetUri → MagnetUri) (Hk : text_key k f).

Lemma apply_text v m : utf8_valid v = true → apply_param m ((bs k ++ [61]) ++ url_encode v) = f v m.
Proof.
  intros Hv. destruct Hk as [Hin Hf]. rewrite <- app_assoc. cbn [app].
  by rewrite apply_param_kv, Hf, url_decode_encode.
Qed.

Lemma apply_texts l m :
  Forall (λ v, utf8_valid v = true) l →
  foldl apply_param m (texts (bs k ++ [61]) l) = foldl (λ m v, f v m) m l.
Proof.
  intros Hl. revert m. induction Hl as [|v l Hv _ IH]; intros m; [done|].
  cbn [texts map foldl]. by rewrite apply_text, IH.
Qed.

Lemma apply_opt o m :
  (∀ v, o = Some v → utf8_valid v = true) →
  foldl apply_param m (opt_param (bs k ++ [61]) o) = match o with Some v => f v m | None => m end.
Proof. destruct o as [v|]; intros Ho; [|done]. cbn [opt_param foldl]. by rewrite apply_text by auto. Qed.
End text_keys.

Lemma key_dn : text_key "dn" set_name.
Proof. solve_key. Qed.

Lemma key_tr : text_key "tr" add_tracker.
Proof. solve_key. Qed.

Lemma key_ws : text_key "ws" add_web_seed.
Proof. solve_key. Qed.

Lemma key_xs : text_key "xs" set_exact_source.
Proof. solve_key. Qed.

Lemma key_as : text_key "as" set_acceptable_source.
Proof. solve_key. Qed.

Lemma key_kt : text_key "kt" set_keyword_topic.
Proof. solve_key. Qed.

Lemma key_mt : text_key "mt" set_manifest_topic.
Proof. solve_key. Qed.

Lemma key_x_pe : text_key "x.pe" add_peer.
Proof. solve_key. Qed.

Definition hash_ok (h : InfoHash) : Prop := parse_xt (bs "urn:btih:" ++ ih_raw h) = Some h.

Definition opt_text (o : option bytes) : Prop := ∀ v, o = Some v → utf8_valid v = true.

(** What every parsed link satisfies, and every link needs to be printed. *)
Record parts_ok (m : MagnetUri) : Prop := {
  mo_hashes : Forall hash_ok (info_hashes m);
  mo_name : opt_text (display_name m);
  mo_trackers : Forall (λ v, utf8_valid v = true) (trackers m);
  mo_seeds : Forall (λ v, utf8_valid v = true) (web_seeds m);
  mo_xs : opt_text (exact_source m);
  mo_as : opt_text (acceptable_source m);
  mo_kt : opt_text (keyword_topic m);
  mo_mt : opt_text (manifest_topic m);
  mo_length : ∀ xl, exact_length m = Some xl → 0 ≤ xl ≤ u64_max;
  mo_peers : Forall (λ v, utf8_valid v = true) (peers m);
}.

Definition magnet_ok (m : MagnetUri) : Prop := info_hashes m ≠ [] ∧ parts_ok m.

Lemma apply_hashes l m :
  Forall hash_ok l → foldl apply_param m (map xt_param l) = foldl (λ m h, add_hash h m) m l.
Proof.
  intros Hl. revert m. induction Hl as [|h l Hh _ IH]; intros m; [done|].
  cbn [map foldl]. rewrite <- IH. f_equal.
  change (xt_param h) with (bs "xt" ++ 61 :: bs "urn:btih:" ++ ih_raw h).
  rewrite apply_param_kv by (apply (bool_decide_unpack _); vm_compute; exact I).
  change (assign (bs "xt") ?v m) with (match parse_xt v with Some hash => add_hash hash m | None => m end).
  by rewrite Hh.
Qed.

Lemma apply_length o m :
  (∀ xl, o = Some xl → 0 ≤ xl ≤ u64_max) →
  foldl apply_param m (length_param o) = match o with Some _ => set_exact_length o m | None => m end.
Proof.
  destruct o as [xl|]; intros Ho; [|done]. cbn [length_param foldl].
  change (bs "xl=" ++ u64_to_string xl) with (bs "xl" ++ 61 :: u64_to_string xl).
  rewrite apply_param_kv by (apply (bool_decide_unpack _); vm_compute; exact I).
  change (assign (bs "xl") ?v m) with (set_exact_length (parse_unsigned u64_max v) m).
  destruct (Ho xl eq_refl). rewrite parse_unsigned_to_string by lia. done.
Qed.

(** Folding the list-valued fields. *)
Lemma fold_hashes m l :
  foldl (λ m x, add_hash x m) m l
  = mk_magnet (info_hashes m ++ l) (display_name m) (trackers m) (web_seeds m) (exact_source m)
      (acceptable_source m) (keyword_topic m) (manifest_topic m) (exact_length m) (peers m).
Proof.
  revert m. induction l as [|x l IH]; intros m; [destruct m; cbn; by rewrite app_nil_r|].
  cbn [foldl]. rewrite IH. cbn. by rewrite <- app_assoc.
Qed.

Lemma fold_trackers m l :
  foldl (λ m x, add_tracker x m) m l
  = mk_magnet (info_hashes m) (display_name m) (trackers m ++ l) (web_seeds m) (exact_source m)
      (acceptable_source m) (keyword_topic m) (manifest_topic m) (exact_length m) (peers m).
Proof.
  revert m. induction l as [|x l IH]; intros m; [destruct m; cbn; by rewrite app_nil_r|].
  cbn [foldl]. rewrite IH. cbn. by rewrite <- app_assoc.
Qed.

Lemma fold_seeds m l :
  foldl (λ m x, add_web_seed x m) m l
  = mk_magnet (info_hashes m) (display_name m) (trackers m) (web_seeds m ++ l) (exact_source m)
      (acceptable_source m) (keyword_topic m) (manifest_topic m) (exact_length m) (peers m).
Proof.
  revert m. induction l as [|x l IH]; intros m; [destruct m; cbn; by rewrite app_nil_r|].
  cbn [foldl]. rewrite IH. cbn. by rewrite <- app_assoc.
Qed.

Lemma fold_peers m l :
  foldl (λ m x, add_peer x m) m l
  = mk_magnet (info_hashes m) (display_name m) (trackers m) (web_seeds m) (exact_source m)
      (acceptable_source m) (keyword_topic m) (manifest_topic m) (exact_length m) (peers m ++ l).
Proof.
  revert m. induction l as [|x l IH]; intros m; [destruct m; cbn; by rewrite app_nil_r|].
  cbn [foldl]. rewrite IH. cbn. by rewrite <- app_assoc.
Qed.

(** The optional fields. *)
Lemma opt_name o m :
  display_name m = None → match o with Some v => set_name v m | None => m end =
  mk_magnet (info_hashes m) o (trackers m) (web_seeds m) (exact_source m) (acceptable_source m)
      (keyword_topic m) (manifest_topic m) (exact_length m) (peers m).
Proof. intros H. destruct o, m; [done|]. cbn in *. by rewrite H. Qed.

Lemma opt_xs o m :
  exact_source m = None → match o with Some v => set_exact_source v m | None => m end =
  mk_magnet (info_hashes m) (display_name m) (trackers m) (web_seeds m) o (acceptable_source m)
      (keyword_topic m) (manifest_topic m) (exact_length m) (peers m).
Proof. intros H. destruct o, m; [done|]. cbn in *. by rewrite H. Qed.

Lemma opt_as o m :
  acceptable_source m = None → match o with Some v => set_acceptable_source v m | None => m end =
  mk_magnet (info_hashes m) (display_name m) (trackers m) (web_seeds m) (exact_source m) o
      (keyword_topic m) (manifest_topic m) (exact_length m) (peers m).
Proof. intros H. destruct o, m; [done|]. cbn in *. by rewrite H. Qed.

Lemma opt_kt o m :
  keyword_topic m = None → match o with Some v => set_keyword_topic v m | None => m end =
  mk_magnet (info_hashes m) (display_name m) (trackers m) (web_seeds m) (exact_source m)
      (acceptable_source m) o (manifest_topic m) (exact_length m) (peers m).
Proof. intros H. destruct o, m; [done|]. cbn in *. by rewrite H. Qed.

Lemma opt_mt o m :
  manifest_topic m = None → match o with Some v => set_manifest_topic v m | None => m end =
  mk_magnet (info_hashes m) (display_name m) (trackers m) (web_seeds m) (exact_source m)
      (acceptable_source m) (keyword_topic m) o (exact_length m) (peers m).
Proof. intros H. destruct o, m; [done|]. cbn in *. by rewrite H. Qed.

Ltac fields := cbn [info_hashes display_name trackers web_seeds exact_source acceptable_source
  keyword_topic manifest_topic exact_length peers magnet_empty app].

Lemma apply_params m :
  magnet_ok m → foldl apply_param magnet_empty (map xt_param (info_hashes m) ++ other_params m) = m.
Proof.
  intros [_ [Hh Hdn Htr Hws Hxs Has Hkt Hmt Hxl Hpe]]. unfold other_params.
  rewrite !foldl_app, apply_hashes, fold_hashes by done. fields.
  rewrite (apply_opt _ _ key_dn), opt_name by done. fields.
  rewrite (apply_texts _ _ key_tr), fold_trackers by done. fields.
  rewrite (apply_texts _ _ key_ws), fold_seeds by done. fields.
  rewrite (apply_opt _ _ key_xs), opt_xs by done. fields.
  rewrite (apply_opt _ _ key_as), opt_as by done. fields.
  rewrite (apply_opt _ _ key_kt), opt_kt by done. fields.
  rewrite (apply_opt _ _ key_mt), opt_mt by done. fields.
  rewrite (apply_texts _ _ key_x_pe), fold_peers by done. fields.
  rewrite apply_length by done. destruct m as [hs dn tr ws xs a kt mt [xl|] pe]; done.
Qed.

(** * From text to text *)

Lemma plain_not_in s : Forall plain s → 38 ∉ s.
Proof. intros HF Hin. eapply Forall_forall in HF; [|exact Hin]. by destruct HF. Qed.

(** * Info hashes as numbers *)

Lemma hex_val_inv c v : hex_val c = Ok v → 0 ≤ v < 16 ∧ plain c.
Proof.
  unfold hex_val, in_range, plain, graphic. intros H.
  repeat (case_bool; cbn [andb] in H; try discriminate H); injection H as <-; lia.
Qed.

Lemma base32_val_inv c v : base32_val c = Ok v → 0 ≤ v < 32 ∧ plain c.
Proof.
  unfold base32_val, in_range, plain, graphic. intros H.
  repeat (case_bool; cbn [andb] in H; try discriminate H); injection H as <-; lia.
Qed.

(** [ds] are the digits that the characters of [s] denote. *)
Definition digits_of (val : Z → result Z) (s : bytes) (ds : list Z) : Prop :=
  Forall2 (λ c d, val c = Ok d) s ds.

Lemma digits_bound val radix s ds :
  (∀ c v, val c = Ok v → 0 ≤ v < radix ∧ plain c) → digits_of val s ds →
  Forall (λ d, 0 ≤ d < radix) ds ∧ Forall plain s.
Proof.
  intros Hv. induction 1 as [|c d s ds Hc _ [IH1 IH2]]; [done|]. destruct (Hv c d Hc).
  split; by apply Forall_cons.
Qed.

Lemma lor_shift w k hi lo : 0 ≤ k → 0 ≤ lo < 2 ^ k → 0 ≤ hi → hi * 2 ^ k < 2 ^ w → 0 ≤ w →
  Z.lor (Z.shiftl hi k mod 2 ^ w) lo = hi * 2 ^ k + lo.
Proof.
  intros Hk Hlo Hhi Hw Hw0. rewrite Z.shiftl_mul_pow2 by done. rewrite Z.mod_small by nia.
  assert (Z.land (hi * 2 ^ k) lo = 0) as Hl.
  { apply Z.bits_inj'. intros n Hn. rewrite Z.land_spec, Z.bits_0. destruct (Z.ltb_spec n k).
    - by rewrite Z.mul_pow2_bits_low by lia.
    - rewrite <- (Z.mod_small lo (2 ^ k)) by done. rewrite Z.mod_pow2_bits_high by lia. apply andb_false_r. }
  rewrite (Z.add_nocarry_lxor _ _ Hl). apply Z.bits_inj'. intros n Hn.
  rewrite Z.lor_spec, Z.lxor_spec.
  assert (Z.testbit (Z.land (hi * 2 ^ k) lo) n = false) as Hb by (rewrite Hl; apply Z.bits_0).
  rewrite Z.land_spec in Hb. by destruct (Z.testbit (hi * 2 ^ k) n), (Z.testbit lo n).
Qed.

Lemma hex_pairs n s b :
  length s = (2 * n)%nat → omap_list hex_pair (chunks 2 s) = Ok b →
  ∃ ds, digits_of hex_val s ds ∧ b = be_bytes n (number 16 ds).
Proof.
  revert s b. induction n as [|n IH]; intros s b Hs Hb.
  - destruct s; [|cbn in Hs; lia]. injection Hb as <-. exists []. by split; [constructor|].
  - destruct s as [|c0 [|c1 s]]; [cbn in Hs; lia..|]. rewrite chunks_cons in Hb by (done || lia).
    cbn [take drop omap_list hex_pair index lookup list_lookup] in Hb.
    rewrite drop_0 in Hb. unfold hex_pair, index in Hb. cbn in Hb. inv_outcome. subst.
    destruct (IH s x0) as (ds & Hds & ->); [cbn [length] in Hs; lia|done|].
    exists (x1 :: x2 :: ds). split; [by repeat constructor|].
    pose proof (Forall2_length _ _ _ Hds) as Hl. cbn [length] in Hs.
    destruct (hex_val_inv c0 x1 E1) as [H1 _], (hex_val_inv c1 x2 E2) as [H2 _].
    unfold as_u8. rewrite (lor_shift 8 4) by lia.
    change (x1 :: x2 :: ds) with ([x1; x2] ++ ds). rewrite number_app.
    assert (16 ^ Z.of_nat (length ds) = 256 ^ Z.of_nat n) as ->.
    { change 256 with (16 ^ 2). rewrite <- Z.pow_mul_r by lia. f_equal. lia. }
    rewrite (be_bytes_app 1 n); [|destruct (digits_bound _ 16 _ _ hex_val_inv Hds) as [Hb _]].
    + unfold be_bytes at 2. cbn [app]. f_equal. cbn. rewrite Z.div_1_r, Z.mod_small; lia.
    + assert (16 ^ Z.of_nat (length ds) = 256 ^ Z.of_nat n) as <-; [|apply number_bound; [lia|done]].
      change 256 with (16 ^ 2). rewrite <- Z.pow_mul_r by lia. f_equal. lia.
Qed.

Lemma base32_group_spec s buf k v :
  0 ≤ buf < 32 ^ Z.of_nat k → (k + length s ≤ 12)%nat → base32_group buf s = Ok v →
  ∃ ds, digits_of base32_val s ds ∧ v = buf * 32 ^ Z.of_nat (length s) + number 32 ds.
Proof.
  revert buf k. induction s as [|c s IH]; intros buf k Hbuf Hk Hv; cbn [base32_group length] in *.
  - injection Hv as <-. exists []. split; [constructor|]. cbn. lia.
  - inv_outcome. destruct (base32_val_inv _ _ E) as [Hx _].
    assert (32 ^ Z.of_nat (S k) ≤ 2 ^ 64) as H64.
    { change 32 with (2 ^ 5). rewrite <- Z.pow_mul_r by lia. apply Z.pow_le_mono_r; lia. }
    rewrite Nat2Z.inj_succ, Z.pow_succ_r in H64 by lia.
    unfold as_u64 in Hv. rewrite (lor_shift 64 5) in Hv by lia.
    apply (IH _ (S k)) in Hv as (ds & Hds & ->); [|rewrite Nat2Z.inj_succ, Z.pow_succ_r by lia; lia|lia].
    exists (x :: ds). split; [by constructor|]. pose proof (Forall2_length _ _ _ Hds) as Hl.
    change (x :: ds) with ([x] ++ ds). rewrite number_app, Hl, Nat2Z.inj_succ, Z.pow_succ_r by lia.
    change (number 32 [x]) with x. change (2 ^ 5) with 32. ring.
Qed.

Lemma five_bytes_spec buf : five_bytes buf = be_bytes 5 buf.
Proof.
  unfold five_bytes, be_bytes, as_u8. change 255 with (Z.ones 8). change (2 ^ 8) with 256.
  rewrite !Z.land_ones, !Z.shiftr_div_pow2 by lia. change (2 ^ 8) with 256.
  rewrite !Z.mod_mod by lia. cbn. by rewrite Z.div_1_r.
Qed.

Lemma base32_groups gs bufs :
  Forall (λ g, length g = 8%nat) gs → omap_list (base32_group 0) gs = Ok bufs →
  ∃ ds, digits_of base32_val (concat gs) ds ∧
        concat (map five_bytes bufs) = be_bytes (5 * length gs) (number 32 ds).
Proof.
  intros HF. revert bufs. induction HF as [|g gs Hg HF IH]; intros bufs Hb; cbn [omap_list] in Hb.
  - injection Hb as <-. exists []. by split; [constructor|].
  - inv_outcome. subst. destruct (IH _ eq_refl) as (ds & Hds & Hc). cbn [concat map length].
    apply (base32_group_spec _ 0 0) in E as (d8 & Hd8 & ->); [|cbn; lia|lia].
    exists (d8 ++ ds). split; [by apply Forall2_app|]. rewrite Hc, five_bytes_spec, number_app.
    pose proof (Forall2_length _ _ _ Hds) as Hl.
    assert (length (concat gs) = 8 * length gs)%nat as Hlg.
    { clear -HF. induction HF as [|g gs Hg _ IH]; [done|]. cbn [concat length]. rewrite length_app. lia. }
    assert (32 ^ Z.of_nat (length ds) = 256 ^ Z.of_nat (5 * length gs)) as Hpow.
    { change 32 with (2 ^ 5). change 256 with (2 ^ 8). rewrite <- !Z.pow_mul_r by lia. f_equal. lia. }
    replace (5 * S (length gs))%nat with (5 + 5 * length gs)%nat by lia. rewrite Hpow, be_bytes_app.
    + done.
    + rewrite <- Hpow. destruct (digits_bound _ 32 _ _ base32_val_inv Hds) as [Hdb _].
      by apply number_bound.
Qed.

(** A decoded hash is the 160-bit number that its 40 hexadecimal or 32 base32 digits denote. *)
Lemma hex_decode_number s b :
  hex_decode s = Ok b → ∃ ds, digits_of hex_val s ds ∧ b = be_bytes 20 (number 16 ds).
Proof.
  unfold hex_decode. intros H. inv_outcome. apply hex_pairs; [|done].
  apply negb_false_iff, Z.eqb_eq in G. unfold zlen in G. lia.
Qed.

Lemma base32_decode_number s b :
  base32_decode s = Ok b → ∃ ds, digits_of base32_val s ds ∧ b = be_bytes 20 (number 32 ds).
Proof.
  unfold base32_decode. intros H. inv_outcome. subst.
  assert (length s = 32%nat) as Hs by (apply negb_false_iff, Z.eqb_eq in G; unfold zlen in G; lia).
  set (gs := map (λ g, take 8 (drop (g * 8) s)) (seq 0 4)).
  assert (concat gs = s) as Hc.
  { change gs with (map (λ a, take 8 (drop a s)) [0; 8; 16; 24]%nat). cbn [map concat].
    assert (∀ a, drop a s = take 8 (drop a s) ++ drop (a + 8) s) as Hstep.
    { intros a. by rewrite <- drop_drop, take_drop. }
    symmetry. etransitivity; [exact (Hstep 0%nat)|f_equal]. do 2 (etransitivity; [apply Hstep|f_equal]). rewrite app_nil_r. symmetry. apply take_ge.
    rewrite length_drop. lia. }
  destruct (base32_groups gs x) as (ds & Hds & ->).
  - unfold gs. cbn [seq map]. repeat (apply Forall_cons; split; [rewrite length_take, length_drop; lia|]).
    constructor.
  - exact E.
  - exists ds. by rewrite Hc in Hds.
Qed.

Lemma hex_pair_byte u x : in_u8 x → hex_pair (hex_byte u x) = Ok x.
Proof.
  intros Hx. destruct (nibbles x Hx) as (H1 & H2 & H3). unfold hex_pair, hex_byte, index.
  cbn [lookup list_lookup obind]. rewrite !hex_val_digit by done. cbn [obind]. by rewrite H3.
Qed.

Lemma chunks_hex_byte u x l : chunks 2 (hex_byte u x ++ l) = hex_byte u x :: chunks 2 l.
Proof. rewrite chunks_cons by (done || lia). unfold hex_byte. cbn [app take drop]. by rewrite drop_0. Qed.

Lemma hex_decode_encode b : bytes_ok b → length b = 20%nat → hex_decode (hex_encode b) = Ok b.
Proof.
  intros Hb Hl.
  assert (length (hex_encode b) = 2 * length b)%nat as Hlen.
  { unfold hex_encode. clear. induction b as [|x b IH]; [done|]. cbn [map concat hex_byte app length]. lia. }
  unfold hex_decode. rewrite (proj2 (Z.eqb_eq _ _)) by (unfold zlen; lia). cbn [negb guard_err obind].
  clear Hl Hlen. unfold hex_encode. induction Hb as [|x b Hx _ IH]; [done|].
  cbn [map concat]. rewrite chunks_hex_byte. cbn [omap_list]. rewrite hex_pair_byte by done. cbn [obind].
  by rewrite IH.
Qed.

Lemma hash_of_hex b :
  bytes_ok b → length b = 20%nat → parse_xt (bs "urn:btih:" ++ hex_encode b) = Some (mk_info_hash b (hex_encode b)).
Proof.
  intros Hb Hl. unfold parse_xt. rewrite strip_prefix_app.
  pose proof (hex_decode_encode b Hb Hl) as E. unfold hex_decode in E.
  destruct (Z.eqb_spec (zlen (hex_encode b)) 40) as [E40|]; [|done].
  by rewrite hex_decode_encode.
Qed.

#[global] Instance plain_dec b : Decision (plain b).
Proof. unfold plain, graphic. apply _. Defined.

Ltac plain_lit := apply (bool_decide_unpack _); vm_compute; exact I.

Lemma hash_ok_plain h : hash_ok h → Forall plain (ih_raw h).
Proof.
  unfold hash_ok, parse_xt. rewrite strip_prefix_app.
  destruct (zlen (ih_raw h) =? 40).
  - destruct (hex_decode (ih_raw h)) as [b| | |] eqn:E; [|done..]. intros _.
    destruct (hex_decode_number _ _ E) as (ds & Hds & _).
    by apply (digits_bound _ 16 _ _ hex_val_inv Hds).
  - destruct (zlen (ih_raw h) =? 32); [|done].
    destruct (base32_decode (ih_raw h)) as [b| | |] eqn:E; [|done..]. intros _.
    destruct (base32_decode_number _ _ E) as (ds & Hds & _).
    by apply (digits_bound _ 32 _ _ base32_val_inv Hds).
Qed.

Lemma u64_to_string_plain n : 0 ≤ n ≤ u64_max → Forall plain (u64_to_string n).
Proof.
  intros Hn. destruct (u64_to_string_spec n) as (d & ds & E & Hd & _); [lia|]. rewrite E.
  apply Forall_forall. intros c Hc. rewrite forallb_forall in Hd. apply list_elem_of_In, Hd in Hc.
  apply is_ascii_digit_spec in Hc. unfold plain, graphic. lia.
Qed.

(** * The round trip *)

Lemma plain_graphic l : Forall plain l → Forall graphic l.
Proof. intros H. eapply Forall_impl; [exact H|]. by intros b [Hb _]. Qed.

Lemma trim_visible l : Forall graphic l → trim l = l.
Proof.
  destruct l as [|a l _] using rev_ind; [done|]. intros [Hl Ha%Forall_inv]%List.Forall_app.
  destruct l as [|b l]; [|apply Forall_inv in Hl; by apply (trim_graphic b l a)].
  destruct whitespace_not_graphic as [H1 H2]. unfold trim, trim_start. cbn [app].
  rewrite strip_all_graphic by done. unfold trim_end. cbn [rev app]. by rewrite strip_all_graphic.
Qed.

Lemma texts_plain key l :
  Forall plain key → Forall (λ v, utf8_valid v = true) l → Forall (Forall plain) (texts key l).
Proof.
  intros Hk Hl. unfold texts. apply List.Forall_map. eapply Forall_impl; [exact Hl|]. intros v Hv. cbn.
  apply List.Forall_app. split; [done|]. by apply url_encode_plain, utf8_valid_bytes.
Qed.

Lemma opt_param_plain key o :
  Forall plain key → opt_text o → Forall (Forall plain) (opt_param key o).
Proof.
  intros Hk Ho. destruct o as [v|]; [|constructor]. apply (texts_plain key [v]); [done|].
  apply List.Forall_cons; [by apply Ho|constructor].
Qed.

Lemma params_plain m :
  magnet_ok m → Forall (Forall plain) (map xt_param (info_hashes m) ++ other_params m).
Proof.
  intros [_ [Hh Hdn Htr Hws Hxs Has Hkt Hmt Hxl Hpe]]. unfold other_params. rewrite !List.Forall_app. split_and!.
  - apply List.Forall_map. eapply Forall_impl; [exact Hh|]. intros h Hok. unfold xt_param.
    apply List.Forall_app. split; [plain_lit|by apply hash_ok_plain].
  - apply opt_param_plain; [plain_lit|done].
  - apply texts_plain; [plain_lit|done].
  - apply texts_plain; [plain_lit|done].
  - apply opt_param_plain; [plain_lit|done].
  - apply opt_param_plain; [plain_lit|done].
  - apply opt_param_plain; [plain_lit|done].
  - apply opt_param_plain; [plain_lit|done].
  - apply texts_plain; [plain_lit|done].
  - destruct (exact_length m) as [xl|] eqn:E; [|constructor]. apply List.Forall_cons; [|constructor].
    apply List.Forall_app. split; [plain_lit|]. by apply u64_to_string_plain, Hxl.
Qed.

Lemma join_graphic ps : Forall (Forall plain) ps → Forall graphic (join 38 ps).
Proof.
  induction 1 as [|p ps Hp HF IH]; [constructor|]. apply plain_graphic in Hp.
  destruct ps as [|q ps]; [done|]. change (join 38 (p :: q :: ps)) with (p ++ 38 :: join 38 (q :: ps)).
  apply List.Forall_app. split; [done|]. apply List.Forall_cons; [unfold graphic; lia|done].
Qed.

Lemma magnet_reads_back m : magnet_ok m → magnet_from_str (magnet_to_string m) = Ok m.
Proof.
  intros Hok. pose proof (params_plain m Hok) as HP. pose proof (apply_params m Hok) as Happ.
  destruct Hok as [Hne _]. destruct (info_hashes m) as [|h hs] eqn:Hh; [done|].
  rewrite (magnet_to_string_params m h hs Hh). cbn [map app] in HP, Happ.
  unfold magnet_from_str. rewrite trim_visible.
  2:{ apply List.Forall_app. split; [|by apply join_graphic]. apply plain_graphic. plain_lit. }
  unfold strip_scheme. change (bs "magnet:?") with (bs "magnet:" ++ bs "?").
  rewrite <- app_assoc, strip_prefix_app. cbn [obind]. rewrite strip_prefix_app. cbn [ok_or obind].
  rewrite split_on_join.
  2:{ eapply Forall_impl; [exact HP|]. intros p. apply plain_not_in. }
  rewrite Happ. by rewrite Hh.
Qed.

(** Every parsed link is well-formed. *)
Lemma parse_unsigned_range hi l v : parse_unsigned hi l = Some v → 0 ≤ v ≤ hi.
Proof.
  unfold parse_unsigned, unsigned_value, parse_digits. intros H.
  assert (∀ l v, (if forallb is_ascii_digit l then Some (digits_val l) else None) = Some v → 0 ≤ v) as Hd.
  { clear. intros l v. destruct (forallb is_ascii_digit l) eqn:E; [|done]. intros [= <-].
    by apply digits_val_bound. }
  destruct l as [|c l]; [done|]. destruct (c =? c_plus).
  - destruct l as [|c' l]; [done|]. specialize (Hd (c' :: l)).
    destruct (if forallb is_ascii_digit (c' :: l) then _ else _) as [z|]; [|done].
    specialize (Hd z eq_refl). case_bool; [|done]. injection H as <-. lia.
  - specialize (Hd (c :: l)).
    destruct (if forallb is_ascii_digit (c :: l) then _ else _) as [z|]; [|done].
    specialize (Hd z eq_refl). case_bool; [|done]. injection H as <-. lia.
Qed.

Lemma parse_xt_ok v h : parse_xt v = Some h → hash_ok h.
Proof.
  unfold hash_ok, parse_xt. rewrite strip_prefix_app. intros H.
  destruct (strip_prefix (bs "urn:btih:") v) as [s|]; [|done].
  set (d := if zlen s =? 40 then _ else _) in H. destruct d as [b|] eqn:Ed; [|done].
  injection H as <-. cbn [ih_raw]. fold d. by rewrite Ed.
Qed.

Lemma url_decode_valid v : utf8_valid (url_decode v) = true.
Proof. apply utf8_lossy_ok. Qed.

Lemma assign_ok key value m : parts_ok m → parts_ok (assign key value m).
Proof.
  intros [Hh Hdn Htr Hws Hxs Has Hkt Hmt Hxl Hpe]. unfold assign.
  assert (∀ l, Forall (λ v, utf8_valid v = true) l → Forall (λ v, utf8_valid v = true) (l ++ [url_decode value]))
    as Happ.
  { intros l Hl. apply List.Forall_app. split; [done|]. apply List.Forall_cons; [|constructor].
    apply url_decode_valid. }
  assert (opt_text (Some (url_decode value))) as Hopt by (intros v [= <-]; apply url_decode_valid).
  repeat case_decide; try (split; cbn; by auto).
  destruct (parse_xt value) as [h|] eqn:E; [|done]. split; cbn; try done.
  apply List.Forall_app. split; [done|]. apply List.Forall_cons; [|constructor]. by eapply parse_xt_ok.
  - split; cbn; try done. intros xl. apply parse_unsigned_range.
Qed.

Lemma apply_params_ok ps m : parts_ok m → parts_ok (foldl apply_param m ps).
Proof.
  revert m. induction ps as [|p ps IH]; intros m Hm; [done|]. cbn [foldl]. apply IH.
  unfold apply_param. destruct p as [|b p]; [done|].
  destruct (split_once 61 (b :: p)) as [[key value]|]; [by apply assign_ok|done].
Qed.

Lemma magnet_from_str_ok s m : magnet_from_str s = Ok m → magnet_ok m.
Proof.
  unfold magnet_from_str. intros H. inv_outcome. subst. split.
  - by destruct (info_hashes _).
  - apply apply_params_ok. by split; try constructor.
Qed.

Lemma strip_scheme_outcome s :
  match strip_scheme s with
  | Ok _ => True
  | Err e => e = InvalidInput
  | Panic => (7 < length s)%nat ∧ is_char_boundary s 7 = false
  | NoFuel => False
  end.
Proof.
  unfold strip_scheme. destruct (strip_prefix _ s); [done|]. destruct (Nat.ltb_spec 7 (length s)); [|done].
  destruct (is_char_boundary s 7); [|done]. by destruct (eq_ignore_ascii_case _ _).
Qed.

(** * The link of a torrent file *)

Definition name_of (i : Info) : bytes := match mode i with Single name _ => name | Multiple name _ => name end.

Lemma parse_mode_name val name md :
  parse_mode val name = Ok md → match md with Single n _ => n | Multiple n _ => n end = name.
Proof. unfold parse_mode. intros H. by repeat case_match; inv_outcome; subst; simplify_eq. Qed.

Lemma parse_info_name iv raw i : parse_info iv raw = Ok i → utf8_valid (name_of i) = true.
Proof.
  unfold parse_info, get_required_string, string_from_bencode_bytes. intros H. inv_outcome. subst.
  match goal with E : parse_mode _ _ = Ok _ |- _ => apply parse_mode_name in E end.
  match goal with E : from_utf8 _ = Some _ |- _ => apply from_utf8_Some in E as [-> Hu] end.
  unfold name_of. cbn [mode]. by destruct x3; subst.
Qed.

Lemma sum_lengths_range acc files n :
  0 ≤ acc ≤ u64_max → Forall file_valid files → sum_lengths acc files = Ok n → 0 ≤ n ≤ u64_max.
Proof.
  intros Ha HF. revert acc Ha. induction HF as [|f files Hf _ IH]; intros acc Ha H; cbn [sum_lengths] in H.
  - injection H as <-. done.
  - unfold checked_add_panic in H. case_bool; [|done]. cbn [obind] in H. eapply IH; [|exact H].
    destruct Hf as (_ & ? & _). lia.
Qed.

Lemma total_size_range i n : info_valid i → total_size i = Ok n → 0 ≤ n ≤ u64_max.
Proof.
  intros (_ & _ & Hm) H. unfold total_size, mode_valid in *. destruct (mode i) as [name len|name files].
  - injection H as <-. lia.
  - eapply sum_lengths_range; [|exact Hm|exact H]. lia.
Qed.

Lemma magnet_of_torrent_ok sha1 d meta m :
  short d → metainfo_from_bytes d = Ok meta → magnet_of_metainfo sha1 meta = Ok m →
  (∀ b, bytes_ok (sha1 b) ∧ length (sha1 b) = 20%nat) →
  magnet_ok m ∧ primary_info_hash m = Ok (info_hash sha1 meta).
Proof.
  intros Hs Hd Hm Hsha. destruct (parsed_metainfo_ok d meta Hs Hd) as (Ha & Hl & _).
  destruct (metainfo_from_bytes_inv d meta Hd) as (entries & r & iv & p & raw & s & E & Hiv & _ & _ & Hi).
  pose proof (decode_canonical d _ r Hs E) as [Hwf _]. apply dict_get_wf in Hiv as Hwfi; [|done].
  destruct (parse_info_valid iv raw (info meta) Hwfi Hi) as [Hv Hri].
  apply parse_info_name in Hi. unfold magnet_of_metainfo in Hm. inv_outcome. subst m.
  assert (info_hash sha1 meta = sha1 raw) as Hih by (unfold info_hash; by rewrite Hri).
  rewrite Hih. destruct (Hsha raw) as [Hb H20]. split; [|done]. split; [done|]. split; cbn; try done.
  - apply List.Forall_cons; [|constructor]. by apply hash_of_hex.
  - by intros v [= <-].
  - apply List.Forall_cons; [apply Ha|]. clear -Hl. induction Hl as [|tier l [_ Ht] _ IH]; [constructor|].
    cbn [concat]. apply List.Forall_app. split; [|done]. eapply Forall_impl; [exact Ht|]. by intros s [_ ?].
  - intros xl [= <-]. by eapply total_size_range.
Qed.

Lemma hash_ok_number h :
  hash_ok h → ∃ radix val ds, digits_of val (ih_raw h) ds ∧ ih_bytes h = be_bytes 20 (number radix ds) ∧
    ((radix = 16 ∧ val = hex_val) ∨ (radix = 32 ∧ val = base32_val)).
Proof.
  unfold hash_ok, parse_xt. rewrite strip_prefix_app. destruct (zlen (ih_raw h) =? 40).
  - destruct (hex_decode (ih_raw h)) as [b| | |] eqn:E; [|done..]. intros [= <-]. cbn [ih_raw ih_bytes] in *.
    destruct (hex_decode_number _ _ E) as (ds & Hds & ->). exists 16, hex_val, ds. split_and!; auto.
  - destruct (zlen (ih_raw h) =? 32); [|done].
    destruct (base32_decode (ih_raw h)) as [b| | |] eqn:E; [|done..]. intros [= <-]. cbn [ih_raw ih_bytes] in *.
    destruct (base32_decode_number _ _ E) as (ds & Hds & ->). exists 32, base32_val, ds. split_and!; auto.
Qed.

(** C38: magnet links survive text. Every link that parses is well-formed, and a well-formed link is read
    back from what it prints, so that printing a parsed link and parsing again gives the same link;
    a failed parse is an [InvalidInput] error, or a panic when the eighth byte of the text is inside a
    character; each hash of a parsed link is the number that its hexadecimal or base32 digits denote;
    and the link made from a torrent file leads back to the info hash of that file. *)
Theorem magnet_roundtrip :
  (∀ m, magnet_ok m → magnet_from_str (magnet_to_string m) = Ok m) ∧
  (∀ s, match magnet_from_str s with
        | Ok m => magnet_ok m
        | Err e => e = InvalidInput
        | Panic => (7 < length (trim s))%nat ∧ is_char_boundary (trim s) 7 = false
        | NoFuel => False
        end) ∧
  (∀ s m h, magnet_from_str s = Ok m → h ∈ info_hashes m →
     ∃ radix val ds, digits_of val (ih_raw h) ds ∧ ih_bytes h = be_bytes 20 (number radix ds) ∧
       ((radix = 16 ∧ val = hex_val) ∨ (radix = 32 ∧ val = base32_val))) ∧
  (∀ sha1 d meta m, short d → metainfo_from_bytes d = Ok meta → magnet_of_metainfo sha1 meta = Ok m →
     (∀ b, bytes_ok (sha1 b) ∧ length (sha1 b) = 20%nat) →
     magnet_from_str (magnet_to_string m) = Ok m ∧ primary_info_hash m = Ok (info_hash sha1 meta)).
Proof.
  split; [apply magnet_reads_back|]. split; [|split].
  - intros s. destruct (magnet_from_str s) as [m|e| |] eqn:E; [by apply magnet_from_str_ok in E|..];
      unfold magnet_from_str in E; pose proof (strip_scheme_outcome (trim s)) as Hs;
      destruct (strip_scheme (trim s)) as [body|e'| |]; cbn [obind] in E; try done; try congruence;
      destruct (strip_prefix (bs "?") body) as [q|]; cbn [ok_or obind] in E; try congruence;
      destruct (info_hashes _); cbn [guard_err obind] in E; congruence.
  - intros s m h E Hin. apply hash_ok_number. destruct (magnet_from_str_ok s m E) as [_ [Hh _ _ _ _ _ _ _ _ _]].
    by eapply Forall_forall in Hh.
  - intros sha1 d meta m Hs Hd Hm Hsha. destruct (magnet_of_torrent_ok sha1 d meta m Hs Hd Hm Hsha).
    split; [by apply magnet_reads_back|done].
Qed.

Example magnet_example :
  match magnet_from_str (bs " Magnet:?xt=urn:btih:0123456789ABCDEF0123456789abcdef01234567&dn=a%20b&xl=5&zz ") with
  | Ok m => magnet_to_string m =
            bs "magnet:?xt=urn:btih:0123456789ABCDEF0123456789abcdef01234567&dn=a%20b&xl=5"
  | _ => False
  end.
Proof. vm_compute. reflexivity. Qed.

(** Slicing the scheme off panics when the slice ends inside a character. *)
Example magnet_text_panics : magnet_from_str (bs "magnet" ++ [195; 169]) = Panic.
Proof. vm_compute. reflexivity. Qed.
