(* ===== verification/Lsd.v ===== *)
(** Local service discovery messages (BEP 14): [crates/torrent-core/src/peer/lsd.rs]. *)

From stdpp Require Import base numbers list list_numbers strings.
From Stdlib Require Import ZArith Lia.
From S2P Require Import Prelude Facts Error Text Magnet MagnetFacts.

(** [enum LsdHost]. *)
Inductive LsdHost : Type := HostV4 | HostV6.

#[global] Instance LsdHost_eq_dec : EqDecision LsdHost.
Proof. solve_decision. Defined.

(** [LsdHost::multicast_addr] and [LsdHost::from_host_header]. *)
Definition multicast_addr (h : LsdHost) : bytes :=
  match h with
  | HostV4 => bs "239.192.152.143:6771"
  | HostV6 => bs "[ff15::efc0:988f]:6771"
  end.

Definition from_host_header (s : bytes) : option LsdHost :=
  if decide (s = bs "239.192.152.143:6771") then Some HostV4
  else if decide (s = bs "[ff15::efc0:988f]:6771") then Some HostV6
  else None.

(** [struct LsdAnnounce]. *)
Record LsdAnnounce : Type := mk_announce {
  a_host : LsdHost;
  a_port : Z;
  a_info_hashes : list bytes;
  a_cookie : option bytes;
}.

Definition MAX_ANNOUNCE_SIZE : nat := 1400.

Definition crlf : bytes := [13; 10].

(** * Writing *)

Definition infohash_line (ih : bytes) : bytes := bs "Infohash: " ++ concat (map (hex_byte false) ih) ++ crlf.

(** The loop over the info hashes: the lines that fit, and how many they are. *)
Fixpoint add_hashes (body : bytes) (hashes : list bytes) (added : nat) : bytes * nat :=
  match hashes with
  | [] => (body, added)
  | ih :: hashes' =>
      let line := infohash_line ih in
      if (MAX_ANNOUNCE_SIZE <? length body + length line + 2)%nat then (body, added)
      else add_hashes (body ++ line) hashes' (S added)
  end.

(** [LsdAnnounce::to_bytes]. *)
Definition lsd_to_bytes (a : LsdAnnounce) : option bytes :=
  match a_info_hashes a with
  | [] => None
  | _ =>
      let host_line := bs "Host: " ++ multicast_addr (a_host a) ++ crlf in
      let port_line := bs "Port: " ++ u64_to_string (a_port a) ++ crlf in
      let cookie_line := match a_cookie a with Some c => bs "cookie: " ++ c ++ crlf | None => [] end in
      let body := (bs "BT-SEARCH * HTTP/1.1" ++ crlf) ++ host_line ++ port_line ++ cookie_line in
      let '(body, added) := add_hashes body (a_info_hashes a) 0 in
      let body := body ++ crlf in
      if (added =? 0)%nat then None else Some body
  end.

(** * Reading *)

(** [u8::from_str_radix(chunk, 16)] on two bytes: a plus sign and one digit are accepted. *)
Definition radix16_pair (chunk : bytes) : option Z :=
  match chunk with
  | [a; b] =>
      if a =? c_plus then outcome_ok (hex_val b)
      else match hex_val a, hex_val b with
           | Ok hi, Ok lo => Some (hi * 16 + lo)
           | _, _ => None
           end
  | _ => None
  end.

Fixpoint opt_all_list {A B} (f : A → option B) (l : list A) : option (list B) :=
  match l with
  | [] => Some []
  | x :: l' =>
      match f x, opt_all_list f l' with
      | Some y, Some ys => Some (y :: ys)
      | _, _ => None
      end
  end.

Definition hex_to_info_hash (s : bytes) : option bytes :=
  if zlen s =? 40 then opt_all_list radix16_pair (chunks 2 s) else None.

(** [key.to_lowercase()], as far as it decides which header it is: of the characters outside ASCII
    only the Kelvin sign has an ASCII lower case. *)
Fixpoint to_lowercase (l : bytes) : bytes :=
  match l with
  | 226 :: 132 :: 170 :: l' => 107 :: to_lowercase l'
  | b :: l' => ascii_lower b :: to_lowercase l'
  | [] => []
  end.

(** The local variables of [from_bytes]. *)
Record Headers : Type := mk_headers {
  h_host : option LsdHost; h_port : option Z; h_hashes : list bytes; h_cookie : option bytes }.

(** [match key.to_lowercase().as_str() { ... }]. *)
Definition assign_header (key value : bytes) (h : Headers) : Headers :=
  if decide (key = bs "host") then
    mk_headers (from_host_header value) (h_port h) (h_hashes h) (h_cookie h)
  else if decide (key = bs "port") then
    mk_headers (h_host h) (parse_unsigned u16_max value) (h_hashes h) (h_cookie h)
  else if decide (key = bs "infohash") then
    match hex_to_info_hash value with
    | Some ih => mk_headers (h_host h) (h_port h) (h_hashes h ++ [ih]) (h_cookie h)
    | None => h
    end
  else if decide (key = bs "cookie") then
    mk_headers (h_host h) (h_port h) (h_hashes h) (Some value)
  else h.

(** One header. *)
Definition header_line (h : Headers) (line : bytes) : Headers :=
  match split_once_str (bs ": ") line with
  | None => h
  | Some (key, value) => assign_header (to_lowercase key) value h
  end.

(** The loop over the lines, up to an empty one. *)
Fixpoint header_lines (h : Headers) (ls : list bytes) : Headers :=
  match ls with
  | [] => h
  | line :: ls' => match line with [] => h | _ => header_lines (header_line h line) ls' end
  end.

(** [LsdAnnounce::from_bytes]. *)
Definition lsd_from_bytes (data : bytes) : result LsdAnnounce :=
  let! text := ok_or (from_utf8 data) PeerInvalidLsdAnnounce in
  match lines text with
  | [] => Err PeerInvalidLsdAnnounce
  | first_line :: rest =>
      let! _ := guard_err (negb (bool_decide (first_line = bs "BT-SEARCH * HTTP/1.1"))) PeerInvalidLsdAnnounce in
      let h := header_lines (mk_headers None None [] None) rest in
      let! host := ok_or (h_host h) PeerInvalidLsdAnnounce in
      let! port := ok_or (h_port h) PeerInvalidLsdAnnounce in
      let! _ := guard_err (match h_hashes h with [] => true | _ => false end) PeerInvalidLsdAnnounce in
      Ok {| a_host := host; a_port := port; a_info_hashes := h_hashes h; a_cookie := h_cookie h |}
  end.

(** * Announces through the wire *)

Definition lsd_ok (a : LsdAnnounce) : Prop :=
  0 ≤ a_port a ≤ u16_max ∧ Forall (λ ih, bytes_ok ih ∧ length ih = 20%nat) (a_info_hashes a) ∧
  ∀ c, a_cookie a = Some c → utf8_valid c = true ∧ (10 ∉ c).

Definition hex_text (ih : bytes) : bytes := concat (map (hex_byte false) ih).

Definition cookie_lines (a : LsdAnnounce) : list bytes :=
  match a_cookie a with Some c => [bs "cookie: " ++ c] | None => [] end.

(** The lines before the info hashes. *)
Definition head_lines (a : LsdAnnounce) : list bytes :=
  bs "BT-SEARCH * HTTP/1.1" :: (bs "Host: " ++ multicast_addr (a_host a)) ::
  (bs "Port: " ++ u64_to_string (a_port a)) :: cookie_lines a.

Definition unlines (ls : list bytes) : bytes := concat (map (λ l, l ++ [13; 10]) ls).

Definition head_length (a : LsdAnnounce) : nat := length (unlines (head_lines a)).

(** How many info hashes fit. *)
Definition room (len : nat) : nat := ((1398 - len) / 52)%nat.

Lemma length_hex_text ih : length (hex_text ih) = (2 * length ih)%nat.
Proof. induction ih as [|b ih IH]; [done|]. unfold hex_text in *. cbn [map concat hex_byte app length]. lia. Qed.

Lemma room_step len : (len + 54 ≤ 1400)%nat → room len = S (room (len + 52)).
Proof.
  intros H. unfold room. replace (1398 - len)%nat with (1398 - (len + 52) + 1 * 52)%nat by lia.
  rewrite Nat.div_add by lia. lia.
Qed.

Lemma add_hashes_spec hs body n :
  Forall (λ ih, bytes_ok ih ∧ length ih = 20%nat) hs →
  let k := Nat.min (length hs) (room (length body)) in
  add_hashes body hs n = (body ++ unlines (map (λ ih, bs "Infohash: " ++ hex_text ih) (take k hs)), (n + k)%nat).
Proof.
  intros HF. revert body n. induction HF as [|ih hs [_ Hih] _ IH]; intros body n.
  { cbn. by rewrite app_nil_r, Nat.add_0_r. }
  assert (length (infohash_line ih) = 52%nat) as Hl.
  { unfold infohash_line. fold (hex_text ih). rewrite !length_app, length_hex_text, Hih. done. }
  cbn [add_hashes]. rewrite Hl. unfold MAX_ANNOUNCE_SIZE. cbn [length].
  destruct (Nat.ltb_spec 1400 (length body + 52 + 2)) as [Hgt|Hle].
  - assert (room (length body) = O) as -> by (unfold room; apply Nat.div_small; lia).
    rewrite Nat.min_0_r. cbn. by rewrite app_nil_r, Nat.add_0_r.
  - rewrite IH, (room_step (length body)), length_app, Hl by lia. cbn [Nat.min take map]. unfold unlines. cbn [map concat].
    f_equal; [|lia]. rewrite <- app_assoc. by f_equal.
Qed.

Lemma lsd_to_bytes_lines a :
  lsd_ok a →
  let k := Nat.min (length (a_info_hashes a)) (room (head_length a)) in
  lsd_to_bytes a =
  if (k =? 0)%nat then None
  else Some (unlines (head_lines a ++ map (λ ih, bs "Infohash: " ++ hex_text ih) (take k (a_info_hashes a)) ++ [[]])).
Proof.
  intros (_ & Hh & _) k. unfold lsd_to_bytes.
  set (body := (bs "BT-SEARCH * HTTP/1.1" ++ crlf) ++ _).
  assert (body = unlines (head_lines a)) as Hbody.
  { subst body. unfold unlines, head_lines, cookie_lines, crlf.
    destruct (a_cookie a) as [c|]; cbn [map concat]; rewrite ?app_nil_r, <- ?app_assoc; done. }
  pose proof (add_hashes_spec (a_info_hashes a) body 0 Hh) as E. cbn zeta in E.
  rewrite Hbody in E |- *. fold (head_length a) in E. fold k in E. rewrite E. cbn [Nat.add].
  destruct (a_info_hashes a) as [|ih hs] eqn:Eh; [done|].
  destruct (k =? 0)%nat; [done|]. f_equal. unfold unlines. rewrite !map_app, !concat_app. cbn.
  by rewrite <- app_assoc.
Qed.

Lemma hex_to_info_hash_text ih :
  bytes_ok ih → length ih = 20%nat → hex_to_info_hash (hex_text ih) = Some ih.
Proof.
  intros Hb Hl. unfold hex_to_info_hash.
  rewrite (proj2 (Z.eqb_eq _ _)) by (unfold zlen; rewrite length_hex_text; lia). clear Hl.
  unfold hex_text. induction Hb as [|b ih Hb _ IH]; [done|]. cbn [map concat].
  rewrite chunks_hex_byte. cbn [opt_all_list]. rewrite IH. unfold hex_byte, radix16_pair.
  destruct (nibbles b Hb) as (H1 & H2 & _).
  rewrite !hex_val_digit by done. rewrite (proj2 (Z.eqb_neq _ _)).
  - do 2 f_equal. pose proof (Z.div_mod b 16). lia.
  - pose proof (hex_digit_graphic false _ H1). lia.
Qed.

Lemma header_line_kv h key value :
  58 ∉ key → header_line h (key ++ bs ": " ++ value) = assign_header (to_lowercase key) value h.
Proof. intros Hk. unfold header_line. change (bs ": ") with (58 :: [32]). by rewrite split_once_str_app. Qed.

Ltac key_free := apply (bool_decide_unpack _); vm_compute; exact I.

(** The headers that the writer writes. *)
Lemma header_host h hd :
  header_line h (bs "Host: " ++ multicast_addr hd) = mk_headers (Some hd) (h_port h) (h_hashes h) (h_cookie h).
Proof. destruct hd; change (bs "Host: " ++ ?v) with (bs "Host" ++ bs ": " ++ v); rewrite (header_line_kv h (bs "Host")) by key_free; reflexivity. Qed.

Lemma header_port h p :
  0 ≤ p ≤ u16_max →
  header_line h (bs "Port: " ++ u64_to_string p) = mk_headers (h_host h) (Some p) (h_hashes h) (h_cookie h).
Proof.
  intros Hp. change (bs "Port: " ++ ?v) with (bs "Port" ++ bs ": " ++ v); rewrite (header_line_kv h (bs "Port")) by key_free.
  change (assign_header (to_lowercase (bs "Port")) ?v h)
    with (mk_headers (h_host h) (parse_unsigned u16_max v) (h_hashes h) (h_cookie h)).
  by rewrite parse_unsigned_to_string by lia.
Qed.

Lemma header_hash h ih :
  bytes_ok ih → length ih = 20%nat →
  header_line h (bs "Infohash: " ++ hex_text ih) = mk_headers (h_host h) (h_port h) (h_hashes h ++ [ih]) (h_cookie h).
Proof.
  intros Hb Hl. change (bs "Infohash: " ++ ?v) with (bs "Infohash" ++ bs ": " ++ v); rewrite (header_line_kv h (bs "Infohash")) by key_free.
  change (assign_header (to_lowercase (bs "Infohash")) ?v h)
    with (match hex_to_info_hash v with
          | Some ih => mk_headers (h_host h) (h_port h) (h_hashes h ++ [ih]) (h_cookie h)
          | None => h
          end).
  by rewrite hex_to_info_hash_text.
Qed.

Lemma header_cookie h c :
  header_line h (bs "cookie: " ++ c) = mk_headers (h_host h) (h_port h) (h_hashes h) (Some c).
Proof. change (bs "cookie: " ++ ?v) with (bs "cookie" ++ bs ": " ++ v); rewrite (header_line_kv h (bs "cookie")) by key_free. reflexivity. Qed.

Lemma header_hashes hs h rest :
  Forall (λ ih, bytes_ok ih ∧ length ih = 20%nat) hs →
  header_lines h (map (λ ih, bs "Infohash: " ++ hex_text ih) hs ++ rest) =
  header_lines (mk_headers (h_host h) (h_port h) (h_hashes h ++ hs) (h_cookie h)) rest.
Proof.
  intros HF. revert h. induction HF as [|ih hs [Hb Hl] _ IH]; intros h.
  { destruct h. cbn [map app h_host h_port h_hashes h_cookie]. by rewrite app_nil_r. }
  cbn [map app]. change (header_lines h ((bs "Infohash: " ++ hex_text ih) :: ?r))
    with (header_lines (header_line h (bs "Infohash: " ++ hex_text ih)) r).
  rewrite header_hash, IH by done. cbn [h_host h_port h_hashes h_cookie]. by rewrite <- app_assoc.
Qed.

(** No line of an announce holds a line feed, and all of it is UTF-8. *)
Lemma lines_clean a hs :
  lsd_ok a → Forall (λ ih, bytes_ok ih ∧ length ih = 20%nat) hs →
  let ls := head_lines a ++ map (λ ih, bs "Infohash: " ++ hex_text ih) hs ++ [[]] in
  Forall (λ l, 10 ∉ l) ls ∧ utf8_valid (unlines ls) = true.
Proof.
  intros (Hp & _ & Hc) Hh ls.
  assert (∀ l, Forall plain l → (10 ∉ l) ∧ utf8_valid l = true) as Hplain.
  { intros l Hl. split.
    - intros Hin. eapply Forall_forall in Hl; [|exact Hin]. destruct Hl as [Hl _]. unfold graphic in Hl. lia.
    - apply utf8_valid_ascii. eapply Forall_impl; [exact Hl|]. intros b [Hb _]. unfold graphic in Hb. lia. }
  assert (∀ key l, 10 ∉ bs key → utf8_valid (bs key) = true → (10 ∉ l) ∧ utf8_valid l = true →
    (10 ∉ (bs key ++ l)) ∧ utf8_valid (bs key ++ l) = true) as Hkey.
  { intros key l Hk Hk' [H1 H2]. rewrite not_elem_of_app. split; [done|]. by apply utf8_valid_app. }
  assert (Forall (λ l, (10 ∉ l) ∧ utf8_valid l = true) ls) as Hall.
  { unfold ls, head_lines, cookie_lines. cbn [app]. apply List.Forall_cons; [split; [key_free|done]|].
    apply List.Forall_cons; [apply Hkey; [key_free|done|destruct (a_host a); split; [key_free|done|key_free|done]]|].
    apply List.Forall_cons; [apply Hkey; [key_free|done|apply Hplain, u64_to_string_plain; lia]|].
    apply List.Forall_app. split; [|apply List.Forall_app; split].
    - destruct (a_cookie a) as [c|]; [|constructor]. apply List.Forall_cons; [|constructor].
      apply Hkey; [key_free|done|]. destruct (Hc c eq_refl). done.
    - apply List.Forall_map. eapply Forall_impl; [exact Hh|]. intros ih [Hb _].
      apply Hkey; [key_free|done|]. apply Hplain. unfold hex_text. clear -Hb.
      induction Hb as [|b ih Hb _ IH]; [constructor|]. cbn [map concat]. apply List.Forall_app.
      split; [by apply hex_byte_plain|done].
    - apply List.Forall_cons; [split; [key_free|done]|constructor]. }
  split; [eapply Forall_impl; [exact Hall|]; by intros l [? _]|].
  clear -Hall. unfold unlines. induction Hall as [|l ls [_ Hl] _ IH]; [done|]. cbn [map concat].
  apply utf8_valid_app; [by apply utf8_valid_app|done].
Qed.

Lemma unlines_app a b : unlines (a ++ b) = unlines a ++ unlines b.
Proof. unfold unlines. by rewrite map_app, concat_app. Qed.

Lemma length_hash_lines hs :
  Forall (λ ih, bytes_ok ih ∧ length ih = 20%nat) hs →
  length (unlines (map (λ ih, bs "Infohash: " ++ hex_text ih) hs)) = (52 * length hs)%nat.
Proof.
  unfold unlines. induction 1 as [|ih l [_ Hl] _ IH]; [done|]. cbn [map concat length].
  rewrite !length_app, IH, length_hex_text, Hl. cbn. lia.
Qed.

(** Local discovery announces through the wire. An announce that is written has at most 1400 bytes
    and is read back with the same host, port and cookie and with the longest prefix of its info
    hashes that fits, at least one; nothing is written exactly when there are no info hashes or when
    not one fits. *)
Theorem lsd_roundtrip : ∀ a, lsd_ok a →
  let k := Nat.min (length (a_info_hashes a)) ((1398 - head_length a) / 52) in
  match lsd_to_bytes a with
  | Some b =>
      (0 < k)%nat ∧ (length b ≤ 1400)%nat ∧
      lsd_from_bytes b = Ok {| a_host := a_host a; a_port := a_port a;
                               a_info_hashes := take k (a_info_hashes a); a_cookie := a_cookie a |}
  | None => k = O
  end.
Proof.
  intros a Hok k. pose proof (lsd_to_bytes_lines a Hok) as E. cbn zeta in E. fold (room (head_length a)) in k.
  fold k in E. rewrite E. destruct (Nat.eqb_spec k 0) as [Hk|Hk]; [done|]. split; [lia|].
  pose proof Hok as (Hp & Hh & Hc).
  assert (Forall (λ ih, bytes_ok ih ∧ length ih = 20%nat) (take k (a_info_hashes a))) as Hhk by (by apply Forall_take).
  destruct (lines_clean a _ Hok Hhk) as [Hno Hutf]. split.
  - rewrite !unlines_app, !length_app, length_hash_lines by done. fold (head_length a).
    change (length (unlines [[]])) with 2%nat.
    rewrite length_take. unfold room in k.
    assert (52 * ((1398 - head_length a) / 52) ≤ 1398 - head_length a)%nat by (apply Nat.Div0.mul_div_le).
    lia.
  - unfold lsd_from_bytes. rewrite from_utf8_valid by done. cbn [ok_or obind]. unfold unlines. rewrite lines_crlf by done.
    unfold head_lines, cookie_lines. cbn [app]. rewrite bool_decide_eq_true_2 by done. cbn [negb guard_err obind].
    assert (∀ h l r, l ≠ [] → header_lines h (l :: r) = header_lines (header_line h l) r) as Hstep.
    { intros h l r Hl. by destruct l. }
    rewrite !Hstep, header_host, header_port by done.
    destruct (a_cookie a) as [c|] eqn:Ec; cbn [app]; [rewrite Hstep, header_cookie by done|];
      rewrite header_hashes by done; cbn [header_lines h_host h_port h_hashes h_cookie ok_or obind app];
      (destruct (take k (a_info_hashes a)) as [|ih hs] eqn:Et; [|by rewrite Ec || done]);
      exfalso; apply (f_equal length) in Et; rewrite length_take in Et; cbn in Et; lia.
Qed.

Definition sample_announce : LsdAnnounce :=
  {| a_host := HostV6; a_port := 6881; a_info_hashes := replicate 30 (seqZ 100 20);
     a_cookie := Some (bs "a: b") |}.

Lemma lsd_roundtrip_witness :
  ∃ b, lsd_to_bytes sample_announce = Some b ∧
       lsd_from_bytes b = Ok {| a_host := HostV6; a_port := 6881; a_info_hashes := replicate 25 (seqZ 100 20);
                                a_cookie := Some (bs "a: b") |}.
Proof.
  pose proof (lsd_roundtrip sample_announce) as H.
  destruct (lsd_to_bytes sample_announce) as [b|] eqn:E; [|vm_compute in E; discriminate E].
  exists b. split; [reflexivity|].
  assert (lsd_ok sample_announce) as Hok; [|destruct (H Hok) as (_ & _ & Hb); exact Hb]. split; [cbn; lia|]. split.
  - apply Forall_replicate. split; [|done]. apply Forall_forall. intros x. rewrite elem_of_seqZ. unfold in_u8. lia.
  - intros c [= <-]. split; [done|]. key_free.
Defined.
