(* ===== verification/Download.v ===== *)
(** Per-peer and per-piece download state: [crates/torrent/src/session/swarm/types.rs].

    Times ([Instant]) are integers. A [HashMap] is a [gmap]. *)

From stdpp Require Import base numbers list gmap.
From Stdlib Require Import ZArith Lia.
From S2P Require Import Prelude Facts Error Net PeerMessage.

Definition PIPELINE_SIZE : nat := 5.
Definition BLOCK_SIZE : Z := 16 * 1024.

(** [enum PeerEvent]. *)
Inductive PeerEvent : Type :=
| Message (msg : PeerMessage)
| Disconnected.

(** A pipeline slot: piece index, offset, and the time the request was sent. *)
Abbreviation slot := (option (Z * Z * Z)).

(** [struct PeerInfo]. *)
Record PeerInfo : Type := mk_peer_info {
  p_bitfield : list bool;
  pipeline : list slot;
  am_choked : bool;
  am_interested : bool;
  peer_interested : bool;
  uploaded_bytes : Z;
  uploaded_this_round : Z;
  downloaded_bytes : Z;
  downloaded_this_round : Z;
  corrupt_blocks : Z;
  last_data_received : option Z;
  remote_extension_ids : gmap bytes Z;
  our_extension_ids : gmap bytes Z;
  last_pex_sent : option Z;
  last_pex_received : option Z;
  max_requests : nat;
  client_version : option bytes;
  peer_metadata_size : option Z;
  our_allowed_fast : list Z;
  peer_allowed_fast : list Z;
}.

Definition peer_info_new : PeerInfo :=
  {| p_bitfield := []; pipeline := replicate PIPELINE_SIZE None; am_choked := true;
     am_interested := false; peer_interested := false; uploaded_bytes := 0;
     uploaded_this_round := 0; downloaded_bytes := 0; downloaded_this_round := 0;
     corrupt_blocks := 0; last_data_received := None; remote_extension_ids := ∅;
     our_extension_ids := ∅; last_pex_sent := None; last_pex_received := None;
     max_requests := PIPELINE_SIZE; client_version := None; peer_metadata_size := None;
     our_allowed_fast := []; peer_allowed_fast := [] |}.

(** Assignments to one field. *)
Definition set_pipeline (x : list slot) (p : PeerInfo) : PeerInfo :=
  let 'mk_peer_info a _ c d e f g h i j k l m n o q r s t u := p in
  mk_peer_info a x c d e f g h i j k l m n o q r s t u.

Definition set_bitfield (x : list bool) (p : PeerInfo) : PeerInfo :=
  let 'mk_peer_info _ b c d e f g h i j k l m n o q r s t u := p in
  mk_peer_info x b c d e f g h i j k l m n o q r s t u.

Definition set_am_choked (x : bool) (p : PeerInfo) : PeerInfo :=
  let 'mk_peer_info a b _ d e f g h i j k l m n o q r s t u := p in
  mk_peer_info a b x d e f g h i j k l m n o q r s t u.

Definition set_peer_interested (x : bool) (p : PeerInfo) : PeerInfo :=
  let 'mk_peer_info a b c d _ f g h i j k l m n o q r s t u := p in
  mk_peer_info a b c d x f g h i j k l m n o q r s t u.

Definition set_peer_allowed_fast (x : list Z) (p : PeerInfo) : PeerInfo :=
  let 'mk_peer_info a b c d e f g h i j k l m n o q r s t _ := p in
  mk_peer_info a b c d e f g h i j k l m n o q r s t x.

(** The counters are [u64], the strikes [u32]. *)
Definition add_uploaded (n : Z) (p : PeerInfo) : result PeerInfo :=
  let 'mk_peer_info a b c d e f g h i j k l m n' o q r s t u := p in
  let! f' := checked_add_panic u64_max f n in
  let! g' := checked_add_panic u64_max g n in
  Ok (mk_peer_info a b c d e f' g' h i j k l m n' o q r s t u).

Definition add_downloaded (n now : Z) (p : PeerInfo) : result PeerInfo :=
  let 'mk_peer_info a b c d e f g h i j _ l m n' o q r s t u := p in
  let! h' := checked_add_panic u64_max h n in
  let! i' := checked_add_panic u64_max i n in
  Ok (mk_peer_info a b c d e f g h' i' j (Some now) l m n' o q r s t u).

Definition add_strike (p : PeerInfo) : result PeerInfo :=
  let 'mk_peer_info a b c d e f g h i j k l m n o q r s t u := p in
  let! j' := checked_add_panic u32_max j 1 in
  Ok (mk_peer_info a b c d e f g h i j' k l m n o q r s t u).

Definition reset_round (p : PeerInfo) : PeerInfo :=
  let 'mk_peer_info a b c d e f _ h _ j k l m n o q r s t u := p in
  mk_peer_info a b c d e f 0 h 0 j k l m n o q r s t u.

Lemma checked_add_cases {E} hi a b :
  checked_add_panic (E:=E) hi a b = Ok (a + b) ∨ checked_add_panic (E:=E) hi a b = Panic.
Proof. unfold checked_add_panic. case_bool; [by left|by right]. Qed.

Lemma add_uploaded_cases n p : (∃ p', add_uploaded n p = Ok p') ∨ add_uploaded n p = Panic.
Proof.
  destruct p. unfold add_uploaded.
  destruct (checked_add_cases (E:=ErrorKind) u64_max uploaded_bytes0 n) as [-> | ->]; [|by right].
  cbn [obind].
  destruct (checked_add_cases (E:=ErrorKind) u64_max uploaded_this_round0 n) as [-> | ->]; [|by right].
  left. by eexists.
Qed.

Definition can_request (p : PeerInfo) : bool :=
  if am_choked p then false
  else (length (filter is_Some (pipeline p)) <? max_requests p)%nat.

(** [iter_mut().find(|s| s.is_none())], then fill the slot. *)
Fixpoint fill_slot (s : Z * Z * Z) (slots : list slot) : list slot :=
  match slots with
  | [] => []
  | None :: slots' => Some s :: slots'
  | Some x :: slots' => Some x :: fill_slot s slots'
  end.

Definition push_request (index begin now : Z) (p : PeerInfo) : PeerInfo :=
  set_pipeline (fill_slot (index, begin, now) (pipeline p)) p.

(** The first slot of the request is freed. *)
Fixpoint free_slot (index begin : Z) (slots : list slot) : list slot :=
  match slots with
  | [] => []
  | Some (i, b, t) :: slots' =>
      if (i =? index) && (b =? begin) then None :: slots'
      else Some (i, b, t) :: free_slot index begin slots'
  | None :: slots' => None :: free_slot index begin slots'
  end.

Definition remove_request (index begin : Z) (p : PeerInfo) : PeerInfo :=
  set_pipeline (free_slot index begin (pipeline p)) p.

(** [struct ActiveDownload]. *)
Record ActiveDownload : Type := mk_download {
  dl_index : Z;
  dl_data : bytes;
  requested : list (option SocketAddr);
  received : list bool;
  block_size : Z;
  num_blocks : nat;
}.

Definition download_new (index piece_len bsize : Z) : ActiveDownload :=
  let n := Z.to_nat ((piece_len + bsize - 1) / bsize) in
  {| dl_index := index; dl_data := replicate (Z.to_nat piece_len) 0; requested := replicate n None;
     received := replicate n false; block_size := bsize; num_blocks := n |}.

Fixpoint first_none {A} (l : list (option A)) : option nat :=
  match l with
  | [] => None
  | None :: _ => Some O
  | Some _ :: l' => S <$> first_none l'
  end.

(** [i as u32 * self.block_size] overflows beyond 4 GiB. *)
Definition next_unrequested (d : ActiveDownload) : result (option Z) :=
  match first_none (requested d) with
  | None => Ok None
  | Some i =>
      let off := as_u32 (Z.of_nat i) * block_size d in
      if off <=? u32_max then Ok (Some off) else Panic
  end.

Definition block_len (begin : Z) (d : ActiveDownload) : Z :=
  as_u32 (Z.min (saturating_sub (zlen (dl_data d)) begin) (block_size d)).

(** [requested[block_idx] = x] when the block is in range. *)
Definition assign_block (begin : Z) (x : option SocketAddr) (d : ActiveDownload) : ActiveDownload :=
  let block_idx := Z.to_nat (begin / block_size d) in
  if (block_idx <? length (requested d))%nat then
    {| dl_index := dl_index d; dl_data := dl_data d; requested := <[block_idx:=x]> (requested d);
       received := received d; block_size := block_size d; num_blocks := num_blocks d |}
  else d.

Definition mark_requested (begin : Z) (addr : SocketAddr) (d : ActiveDownload) : ActiveDownload :=
  assign_block begin (Some addr) d.

(** [self.data[start..start + data.len()].copy_from_slice(data)] in range. *)
Definition copy_at (l : bytes) (start : nat) (data : bytes) : bytes :=
  take start l ++ data ++ drop (start + length data) l.

(** The [bool] says whether the piece is complete. *)
Definition mark_received (begin : Z) (data : bytes) (d : ActiveDownload) : ActiveDownload * bool :=
  let block_idx := Z.to_nat (begin / block_size d) in
  let d' :=
    match received d !! block_idx with
    | Some false =>
        let start := Z.to_nat begin in
        let data' :=
          if (start + length data <=? length (dl_data d))%nat
          then copy_at (dl_data d) start data else dl_data d in
        {| dl_index := dl_index d; dl_data := data'; requested := requested d;
           received := <[block_idx:=true]> (received d); block_size := block_size d;
           num_blocks := num_blocks d |}
    | _ => d
    end in
  (d', forallb id (received d')).

(** * Facts *)

Definition download_ok (d : ActiveDownload) : Prop :=
  0 < block_size d ∧ length (requested d) = num_blocks d ∧ length (received d) = num_blocks d ∧
  num_blocks d = Z.to_nat ((zlen (dl_data d) + block_size d - 1) / block_size d).

Lemma download_new_ok index len bs : 0 ≤ len → 0 < bs → download_ok (download_new index len bs).
Proof.
  intros Hl Hb. unfold download_new, download_ok, zlen.
  cbn [block_size requested received num_blocks dl_data]. rewrite !length_replicate.
  rewrite Z2Nat.id by done. done.
Qed.

Lemma assign_block_ok begin x d : download_ok d → download_ok (assign_block begin x d).
Proof.
  intros (H1 & H2 & H3 & H4). unfold assign_block. destruct (_ <? _)%nat; [|done].
  split_and!; cbn [block_size requested received num_blocks dl_data]; [done|by rewrite length_insert|done..].
Qed.

Lemma length_copy_at l start d :
  (start + length d ≤ length l)%nat → length (copy_at l start d) = length l.
Proof. intros H. unfold copy_at. rewrite !length_app, length_take, length_drop. lia. Qed.

Lemma copy_at_lookup l start d j :
  (start + length d ≤ length l)%nat →
  copy_at l start d !! j =
    if (start <=? j)%nat && (j <? start + length d)%nat then d !! (j - start)%nat else l !! j.
Proof.
  intros H. unfold copy_at. destruct (Nat.leb_spec start j); cbn [andb].
  - rewrite lookup_app_r by (rewrite length_take; lia). rewrite length_take, Nat.min_l by lia.
    destruct (Nat.ltb_spec j (start + length d)).
    + by rewrite lookup_app_l by lia.
    + rewrite lookup_app_r by lia. rewrite lookup_drop. f_equal. lia.
  - rewrite lookup_app_l by (rewrite length_take; lia). by rewrite lookup_take_lt by lia.
Qed.

Lemma mark_received_ok begin data d :
  download_ok d → download_ok (mark_received begin data d).1 ∧
    zlen (dl_data (mark_received begin data d).1) = zlen (dl_data d) ∧
    block_size (mark_received begin data d).1 = block_size d.
Proof.
  intros Hd. pose proof Hd as (H1 & H2 & H3 & H4). unfold mark_received. cbn [fst].
  destruct (received d !! _) as [[]|]; try done.
  assert (length (if (Z.to_nat begin + length data <=? length (dl_data d))%nat
                  then copy_at (dl_data d) (Z.to_nat begin) data else dl_data d) =
          length (dl_data d)) as E
    by (case_bool; [by apply length_copy_at|done]).
  split; [|split; [|done]]; cbn [dl_data]; [|unfold zlen; by rewrite E].
  split_and!; cbn [block_size requested received num_blocks dl_data]; [done|done|by rewrite length_insert|].
  unfold zlen. by rewrite E.
Qed.

(** * Assembling a piece *)

Section assemble.
Context (piece : bytes) (bsize : nat) (Hb : (0 < bsize)%nat).

(** The blocks of the piece, and how many there are. *)
Definition block_bytes (k : nat) : bytes := take bsize (drop (k * bsize) piece).
Definition block_count : nat := ((length piece + bsize - 1) / bsize)%nat.

Definition deliver (d : ActiveDownload) (k : nat) : ActiveDownload :=
  (mark_received (Z.of_nat (k * bsize)) (block_bytes k) d).1.

Definition assembled (ks : list nat) (d : ActiveDownload) : Prop :=
  block_size d = Z.of_nat bsize ∧ length (dl_data d) = length piece ∧
  length (received d) = block_count ∧
  (∀ k, (k < block_count)%nat → received d !! k = Some (bool_decide (k ∈ ks))) ∧
  (∀ j, (j / bsize)%nat ∈ ks → dl_data d !! j = piece !! j).

Lemma block_count_Z :
  Z.to_nat ((Z.of_nat (length piece) + Z.of_nat bsize - 1) / Z.of_nat bsize) = block_count.
Proof.
  unfold block_count. replace (Z.of_nat (length piece) + Z.of_nat bsize - 1)
    with (Z.of_nat (length piece + bsize - 1)) by lia.
  by rewrite <- Nat2Z.inj_div, Nat2Z.id.
Qed.

Lemma new_assembled i :
  assembled [] (download_new i (zlen piece) (Z.of_nat bsize)).
Proof.
  unfold assembled, download_new, zlen. cbn [block_size dl_data received].
  rewrite !length_replicate, block_count_Z, Nat2Z.id. split_and!; try done.
  - intros k Hk. rewrite lookup_replicate_2 by done. done.
  - intros j Hj. by apply elem_of_nil in Hj.
Qed.

Lemma block_in_range k : (k < block_count)%nat → (k * bsize < length piece)%nat.
Proof.
  unfold block_count. intros Hk. pose proof (Nat.div_mod_eq (length piece + bsize - 1) bsize).
  pose proof (Nat.mod_upper_bound (length piece + bsize - 1) bsize ltac:(lia)). nia.
Qed.

Lemma length_block_bytes k :
  length (block_bytes k) = Nat.min bsize (length piece - k * bsize).
Proof. unfold block_bytes. by rewrite length_take, length_drop. Qed.

Lemma deliver_assembled ks d k :
  (k < block_count)%nat → assembled ks d → assembled (ks ++ [k]) (deliver d k).
Proof.
  intros Hk (Hbs & Hlen & Hlr & Hr & Hd). unfold deliver, mark_received. cbn [fst].
  rewrite Hbs, Nat2Z.inj_mul, Z.div_mul, Nat2Z.id by lia.
  rewrite (Hr k Hk). pose proof (block_in_range k Hk) as Hin. pose proof (length_block_bytes k) as Hlb.
  case_bool_decide as Hks.
  - split_and!; try done.
    + intros k' Hk'. rewrite Hr by done. f_equal. apply bool_decide_ext.
      rewrite elem_of_app, list_elem_of_singleton. split; [by left|by intros [?| ->]].
    + intros j [Hj|Hj%list_elem_of_singleton]%elem_of_app; apply Hd; [done|by rewrite Hj].
  - rewrite <- Nat2Z.inj_mul, Nat2Z.id.
    rewrite (proj2 (Nat.leb_le _ _)) by lia. split_and!; cbn [block_size dl_data received].
    + done.
    + rewrite length_copy_at by lia. done.
    + by rewrite length_insert.
    + intros k' Hk'. destruct (decide (k = k')) as [->|Hne].
      * rewrite list_lookup_insert_eq by lia. f_equal. symmetry. apply bool_decide_eq_true.
        apply elem_of_app. right. by apply list_elem_of_singleton.
      * rewrite list_lookup_insert_ne by done. rewrite Hr by done. f_equal. apply bool_decide_ext.
        rewrite elem_of_app, list_elem_of_singleton. split; [by left|by intros [?| ->]].
    + intros j Hj. rewrite copy_at_lookup by lia.
      pose proof (Nat.div_mod_eq j bsize). pose proof (Nat.mod_upper_bound j bsize ltac:(lia)).
      destruct (Nat.leb_spec (k * bsize) j); cbn [andb].
      * destruct (Nat.ltb_spec j (k * bsize + length (block_bytes k))).
        -- unfold block_bytes. rewrite lookup_take_lt, lookup_drop by lia. f_equal. lia.
        -- apply elem_of_app in Hj as [Hj|Hj%list_elem_of_singleton]; [by apply Hd|].
           rewrite Hj in *. rewrite !(proj2 (lookup_ge_None _ _)) by lia. done.
      * apply elem_of_app in Hj as [Hj|Hj%list_elem_of_singleton]; [by apply Hd|].
        rewrite Hj in *. nia.
Qed.

Lemma deliver_all_assembled ks d0 ks0 :
  assembled ks0 d0 → Forall (λ k, k < block_count)%nat ks →
  assembled (ks0 ++ ks) (foldl deliver d0 ks).
Proof.
  intros Ha HF. revert d0 ks0 Ha. induction HF as [|k ks Hk _ IH]; intros d0 ks0 Ha; cbn [foldl].
  - by rewrite app_nil_r.
  - replace (ks0 ++ k :: ks) with ((ks0 ++ [k]) ++ ks) by by rewrite <- app_assoc.
    by apply IH, deliver_assembled.
Qed.

Lemma assembled_complete ks d :
  assembled ks d → forallb id (received d) = true ↔ ∀ k, (k < block_count)%nat → k ∈ ks.
Proof.
  intros (_ & _ & Hl & Hr & _). rewrite forallb_forall. split.
  - intros Hall k Hk. specialize (Hr k Hk). apply list_elem_of_lookup_2, list_elem_of_In, Hall in Hr.
    by apply bool_decide_eq_true in Hr.
  - intros Hall b [k Hk]%list_elem_of_In%list_elem_of_lookup_1.
    pose proof (lookup_lt_Some _ _ _ Hk) as Hlt. rewrite Hl in Hlt.
    rewrite Hr in Hk by done. injection Hk as <-. unfold id. by apply bool_decide_eq_true, Hall.
Qed.

(** Once every block arrived the buffer is the piece. *)
Lemma assembled_data ks d :
  assembled ks d → forallb id (received d) = true → dl_data d = piece.
Proof.
  intros Ha Hc. pose proof (proj1 (assembled_complete ks d Ha) Hc) as Hall.
  destruct Ha as (_ & Hl & _ & _ & Hd). apply list_eq. intros j.
  destruct (Nat.lt_ge_cases j (length piece)) as [Hj|Hj].
  - apply Hd, Hall. unfold block_count. apply Nat.Div0.div_lt_upper_bound.
    pose proof (Nat.div_mod_eq (length piece + bsize - 1) bsize).
    pose proof (Nat.mod_upper_bound (length piece + bsize - 1) bsize ltac:(lia)). lia.
  - rewrite !(proj2 (lookup_ge_None _ _)) by lia. done.
Qed.
End assemble.

(** A piece is assembled from its blocks in any order, with any repetition. The download is
    complete exactly when every block has arrived, and then its buffer is the piece; the lengths
    requested for the blocks are the lengths of the blocks. *)
Theorem download_assembles : ∀ piece bsize index ks,
  (0 < bsize)%nat → Z.of_nat bsize ≤ u32_max →
  Forall (λ k, k < block_count piece bsize)%nat ks →
  let d := foldl (deliver piece bsize) (download_new index (zlen piece) (Z.of_nat bsize)) ks in
  (forallb id (received d) = true ↔ ∀ k, (k < block_count piece bsize)%nat → k ∈ ks) ∧
  (forallb id (received d) = true → dl_data d = piece) ∧
  (∀ k, (k < block_count piece bsize)%nat →
     block_len (Z.of_nat (k * bsize)) d = zlen (block_bytes piece bsize k)).
Proof.
  intros piece bsize index ks Hb Hu HF d.
  pose proof (deliver_all_assembled piece bsize Hb ks _ [] (new_assembled piece bsize Hb index) HF) as Ha.
  cbn [app] in Ha. fold d in Ha. split_and!.
  - by apply (assembled_complete piece bsize).
  - by apply (assembled_data piece bsize Hb ks).
  - intros k Hk. destruct Ha as (Hbs & Hl & _). unfold block_len, zlen. rewrite Hbs, Hl, length_block_bytes.
    pose proof (block_in_range piece bsize Hb k Hk). unfold saturating_sub, as_u32.
    rewrite Z.mod_small; lia.
Qed.

Lemma download_assembles_witness :
  let d := foldl (deliver [1; 2; 3; 4; 5] 2) (download_new 0 5 2) [2; 0; 2; 1]%nat in
  forallb id (received d) = true ∧ dl_data d = [1; 2; 3; 4; 5].
Proof.
  intros d. assert (forallb id (received d) = true) as Hc by (vm_compute; reflexivity).
  split; [exact Hc|].
  refine (proj1 (proj2 (download_assembles [1; 2; 3; 4; 5] 2 0 [2; 0; 2; 1]%nat _ _ _)) Hc).
  - lia.
  - lia.
  - repeat (apply Forall_cons; split; [vm_compute; lia|]). apply Forall_nil_2.
Defined.

(** A block that does not fit is marked as received although nothing was copied: the piece then
    fails its hash check. *)
Example oversized_block_is_received :
  let d := (mark_received 0 [9; 9; 9] (download_new 0 2 2)).1 in
  (received d, dl_data d) = ([true], [0; 0]).
Proof. vm_compute. reflexivity. Qed.
