(* ===== verification/Step.v ===== *)
(** State-passing steps: a call of a method on [&mut self] takes the state and returns the new state
    with what the call returned; a call that fails keeps the changes it made before it failed. *)

From stdpp Require Import base list.
From Stdlib Require Import ZArith.
From S2P Require Import Prelude Error.

Definition step (S A : Type) : Type := S → S * result A.

Section step.
Context {S : Type}.

Definition sret {A} (a : A) : step S A := λ s, (s, Ok a).
Definition lift {A} (r : result A) : step S A := λ s, (s, r).
Definition modify (f : S → S) : step S unit := λ s, (f s, Ok tt).
Definition read {A} (f : S → A) : step S A := λ s, (s, Ok (f s)).

Definition sbind {A B} (m : step S A) (k : A → step S B) : step S B := λ s,
  match m s with
  | (s', Ok a) => k a s'
  | (s', Err e) => (s', Err e)
  | (s', Panic) => (s', Panic)
  | (s', NoFuel) => (s', NoFuel)
  end.

(** [let _ = ...]: an error is dropped, a panic is not. *)
Definition ignore_err {A} (m : step S A) : step S unit := λ s,
  match m s with
  | (s', Ok _) => (s', Ok tt)
  | (s', Err _) => (s', Ok tt)
  | (s', Panic) => (s', Panic)
  | (s', NoFuel) => (s', NoFuel)
  end.

(** [match call { Ok(a) => ..., Err(e) => ... }]: an error becomes a value. *)
Definition attempt {A} (m : step S A) : step S (A + ErrorKind) := λ s,
  match m s with
  | (s', Ok a) => (s', Ok (inl a))
  | (s', Err e) => (s', Ok (inr e))
  | (s', Panic) => (s', Panic)
  | (s', NoFuel) => (s', NoFuel)
  end.

End step.

Declare Scope step_scope.
Delimit Scope step_scope with step.
Notation "'do!' p ':=' m 'in' k" := (sbind m (fun p => k))
  (at level 10, p pattern, m at level 100, k at level 200,
   format "'[v' 'do!'  p  ':='  m  'in' '/' k ']'") : step_scope.
#[global] Open Scope step_scope.

Fixpoint for_each {S A} (l : list A) (f : A → step S unit) : step S unit :=
  match l with
  | [] => sret tt
  | x :: l' => do! _ := f x in for_each l' f
  end.

(** * Reasoning

    A weakest precondition with a postcondition for values and one for errors. A step that panics
    satisfies neither. *)

Definition swp {S A} (E : S → Prop) (m : step S A) (Q : A → S → Prop) (s : S)
  : Prop :=
  match m s with
  | (s', Ok a) => Q a s'
  | (s', Err _) => E s'
  | _ => False
  end.

Section rules.
Context {S : Type} {E : S → Prop}.

Lemma swp_ret {A} (a : A) Q s : Q a s → swp E (sret a) Q s.
Proof. done. Qed.

Lemma swp_bind {A B} (m : step S A) (k : A → step S B) Q s :
  swp E m (λ a, swp E (k a) Q) s → swp E (sbind m k) Q s.
Proof. unfold swp, sbind. by destruct (m s) as [s' [a|e| |]]. Qed.

Lemma swp_read {A B} (f : S → A) (k : A → step S B) Q s :
  swp E (k (f s)) Q s → swp E (sbind (read f) k) Q s.
Proof. intros H. by apply swp_bind. Qed.

Lemma swp_modify {B} f (k : unit → step S B) Q s : swp E (k tt) Q (f s) → swp E (sbind (modify f) k) Q s.
Proof. intros H. by apply swp_bind. Qed.

Lemma swp_lift {A B} (a : A) (r : result A) (k : A → step S B) Q s :
  r = Ok a → swp E (k a) Q s → swp E (sbind (lift r) k) Q s.
Proof. intros -> H. by apply swp_bind. Qed.

Lemma swp_mono {A} (m : step S A) (Q Q' : A → S → Prop) s :
  swp E m Q s → (∀ a s', Q a s' → Q' a s') → swp E m Q' s.
Proof. unfold swp. destruct (m s) as [s' [a|e| |]]; auto. Qed.

(** The invariant of a loop depends on the elements that are left. *)
Lemma swp_for_each {A} (l : list A) (f : A → step S unit) (P : list A → S → Prop) s :
  (∀ a l' s', P (a :: l') s' → swp E (f a) (λ _, P l') s') → P l s → swp E (for_each l f) (λ _, P []) s.
Proof.
  intros Hf. revert s. induction l as [|a l IH]; intros s Hs; [done|]. cbn [for_each].
  apply swp_bind. eapply swp_mono; [by apply Hf|]. intros u s'. apply IH.
Qed.

(** An error that becomes a value must satisfy what the value satisfies. *)
Lemma swp_attempt {A} (m : step S A) (Q : A + ErrorKind → S → Prop) s :
  swp (λ s', ∀ e, Q (inr e) s') m (λ a, Q (inl a)) s → swp E (attempt m) Q s.
Proof. unfold swp, attempt. destruct (m s) as [s' [a|e| |]]; auto. Qed.

(** An error that is ignored must satisfy what a normal end satisfies. *)
Lemma swp_ignore {A} (m : step S A) (Q : unit → S → Prop) s :
  swp (Q tt) m (λ _, Q tt) s → swp E (ignore_err m) Q s.
Proof. unfold swp, ignore_err. by destruct (m s) as [s' [a|e| |]]. Qed.

End rules.

(** The same for invariants of what does not panic: a step that panics satisfies everything. *)
Definition pwp {S A} (E : S → Prop) (m : step S A) (Q : A → S → Prop) (s : S) : Prop :=
  match m s with
  | (s', Ok a) => Q a s'
  | (s', Err _) => E s'
  | _ => True
  end.

Section partial_rules.
Context {S : Type} {E : S → Prop}.

Lemma pwp_bind {A B} (m : step S A) (k : A → step S B) Q s :
  pwp E m (λ a, pwp E (k a) Q) s → pwp E (sbind m k) Q s.
Proof. unfold pwp, sbind. by destruct (m s) as [s' [a|e| |]]. Qed.

Lemma pwp_read {A B} (f : S → A) (k : A → step S B) Q s :
  pwp E (k (f s)) Q s → pwp E (sbind (read f) k) Q s.
Proof. intros H. by apply pwp_bind. Qed.

Lemma pwp_modify {B} f (k : unit → step S B) Q s : pwp E (k tt) Q (f s) → pwp E (sbind (modify f) k) Q s.
Proof. intros H. by apply pwp_bind. Qed.

Lemma pwp_lift {A B} (r : result A) (k : A → step S B) Q s :
  E s → (∀ a, r = Ok a → pwp E (k a) Q s) → pwp E (sbind (lift r) k) Q s.
Proof. intros HE H. apply pwp_bind. unfold pwp, lift. destruct r; try done. by apply H. Qed.

Lemma pwp_mono {A} (m : step S A) (E' : S → Prop) (Q Q' : A → S → Prop) s :
  pwp E' m Q s → (∀ s', E' s' → E s') → (∀ a s', Q a s' → Q' a s') → pwp E m Q' s.
Proof. unfold pwp. destruct (m s) as [s' [a|e| |]]; auto. Qed.

Lemma pwp_attempt {A} (m : step S A) (Q : A + ErrorKind → S → Prop) s :
  pwp (λ s', ∀ e, Q (inr e) s') m (λ a, Q (inl a)) s → pwp E (attempt m) Q s.
Proof. unfold pwp, attempt. destruct (m s) as [s' [a|e| |]]; auto. Qed.

Lemma pwp_ignore {A} (m : step S A) (Q : unit → S → Prop) s :
  pwp (Q tt) m (λ _, Q tt) s → pwp E (ignore_err m) Q s.
Proof. unfold pwp, ignore_err. by destruct (m s) as [s' [a|e| |]]. Qed.

(** A step whose final state satisfies [P], however it ends. *)
Lemma pwp_state {A} (m : step S A) (P : S → Prop) s :
  P (m s).1 → (∀ s', P s' → E s') → pwp E m (λ _, P) s.
Proof. unfold pwp. destruct (m s) as [s' [a|e| |]]; cbn; auto. Qed.

End partial_rules.

(** * Steps that leave a view of the state alone *)

Section keeps.
Context {S V : Type} (view : S → V).

Definition keeps {A} (m : step S A) : Prop := ∀ s, view (m s).1 = view s.

Lemma keeps_ret {A} (a : A) : keeps (sret a).
Proof. done. Qed.

Lemma keeps_lift {A} (r : result A) : keeps (lift r).
Proof. done. Qed.

Lemma keeps_read {A} (f : S → A) : keeps (read f).
Proof. done. Qed.

Lemma keeps_bind {A B} (m : step S A) (k : A → step S B) : keeps m → (∀ a, keeps (k a)) → keeps (sbind m k).
Proof.
  intros Hm Hk s. specialize (Hm s). unfold sbind. destruct (m s) as [s' [a|e| |]]; cbn [fst] in *; try done.
  by rewrite Hk.
Qed.

Lemma keeps_ignore {A} (m : step S A) : keeps m → keeps (ignore_err m).
Proof. intros Hm s. specialize (Hm s). unfold ignore_err. by destruct (m s) as [s' [a|e| |]]. Qed.

Lemma keeps_for_each {A} (l : list A) f : (∀ a, keeps (f a)) → keeps (for_each l f).
Proof.
  intros Hf. induction l as [|a l IH]; [apply keeps_ret|]. cbn [for_each]. apply keeps_bind; [done|]. by intros _.
Qed.

Lemma keeps_modify f : (∀ s, view (f s) = view s) → keeps (modify f).
Proof. intros Hf s. apply Hf. Qed.
End keeps.

#[export] Hint Resolve keeps_ret keeps_lift keeps_read : torrent.

(** * Steps that preserve an invariant, however they end *)

Section preserves.
Context {S : Type} (P : S → Prop).

Definition preserves {A} (m : step S A) : Prop := ∀ s, P s → P (m s).1.

Lemma preserves_ret {A} (a : A) : preserves (sret a).
Proof. by intros s. Qed.

Lemma preserves_lift {A} (r : result A) : preserves (lift r).
Proof. by intros s. Qed.

Lemma preserves_read {A} (f : S → A) : preserves (read f).
Proof. by intros s. Qed.

Lemma preserves_modify f : (∀ s, P s → P (f s)) → preserves (modify f).
Proof. intros Hf s. apply Hf. Qed.

Lemma preserves_bind {A B} (m : step S A) (k : A → step S B) :
  preserves m → (∀ a, preserves (k a)) → preserves (sbind m k).
Proof.
  intros Hm Hk s Hs. specialize (Hm s Hs). unfold sbind. destruct (m s) as [s' [a|e| |]]; cbn [fst] in *; try done.
  by apply Hk.
Qed.

(** What is read is a function of a state that satisfies the invariant. *)
Lemma preserves_read_bind {A B} (f : S → A) (k : A → step S B) :
  (∀ s, P s → P (k (f s) s).1) → preserves (sbind (read f) k).
Proof. intros Hk s. apply Hk. Qed.

Lemma preserves_lift_bind {A B} (r : result A) (k : A → step S B) :
  (∀ a, r = Ok a → preserves (k a)) → preserves (sbind (lift r) k).
Proof. intros Hk s Hs. unfold sbind, lift. destruct r; try done. by apply Hk. Qed.

Lemma preserves_for_each {A} (l : list A) f : (∀ a, preserves (f a)) → preserves (for_each l f).
Proof.
  intros Hf. induction l as [|a l IH]; [apply preserves_ret|]. cbn [for_each]. apply preserves_bind; [done|]. by intros _.
Qed.
End preserves.

#[export] Hint Resolve preserves_ret preserves_lift preserves_read : torrent.
