(* ===== verification/PeerManager.v ===== *)
(** The peer manager of one torrent: [crates/torrent/src/session/peer_mgr.rs].

    A [PeerConnection] is a socket; all that the session reads from it are the reserved bytes of
    the remote handshake, so a connection is represented by those. [send_to] is in [Swarm.v], since
    its effect is on the network. Instants and durations are integers. *)

From stdpp Require Import base numbers list gmap.
From Stdlib Require Import ZArith Lia.
From S2P Require Import Prelude Facts Error Net.

(** * [PeerManager], the duplicate-free queue of [crates/torrent/src/session/uni_deque.rs], and its
    refinement of an ordinary queue that ignores a push of an element it already holds. *)

Section uni_deque.
Context {T : Type} `{Countable T}.

Record UniDeque : Type := mk_deque { queue : list T; members : gset T }.

Definition deque_new : UniDeque := {| queue := []; members := ∅ |}.

(** [push_unique]: the set decides, and both structures change together. *)
Definition push_unique (value : T) (d : UniDeque) : UniDeque * bool :=
  if decide (value ∈ members d) then (d, false)
  else ({| queue := queue d ++ [value]; members := {[value]} ∪ members d |}, true).

Definition deque_len (d : UniDeque) : nat := length (queue d).

(** [drain_first_n]: every drained item is also removed from the set. *)
Definition drain_first_n (n : nat) (d : UniDeque) : UniDeque * list T :=
  let n := Nat.min n (deque_len d) in
  ({| queue := drop n (queue d);
      members := foldl (λ s item, s ∖ {[item]}) (members d) (take n (queue d)) |},
   take n (queue d)).

Definition deque_contains (value : T) (d : UniDeque) : bool := bool_decide (value ∈ members d).

(** * The abstract queue *)

(** The set is the set of the queue's elements, and the queue has no duplicates. *)
Definition deque_ok (d : UniDeque) : Prop :=
  NoDup (queue d) ∧ ∀ x, x ∈ members d ↔ x ∈ queue d.

Inductive deque_op : Type :=
| OPush (value : T)
| ODrain (n : nat)
| OContains (value : T)
| OLen.

Inductive deque_reply : Type :=
| RBool (b : bool)
| RItems (l : list T)
| RNat (n : nat).

Definition run_op (d : UniDeque) (o : deque_op) : UniDeque * deque_reply :=
  match o with
  | OPush v => let '(d', b) := push_unique v d in (d', RBool b)
  | ODrain n => let '(d', l) := drain_first_n n d in (d', RItems l)
  | OContains v => (d, RBool (deque_contains v d))
  | OLen => (d, RNat (deque_len d))
  end.

(** The specification works on the list alone. *)
Definition spec_op (q : list T) (o : deque_op) : list T * deque_reply :=
  match o with
  | OPush v =>
      if decide (v ∈ q) then (q, RBool false) else (q ++ [v], RBool true)
  | ODrain n => (drop n q, RItems (take n q))
  | OContains v => (q, RBool (bool_decide (v ∈ q)))
  | OLen => (q, RNat (length q))
  end.

Fixpoint run_ops {S : Type} (step : S → deque_op → S * deque_reply) (s : S) (os : list deque_op)
  : S * list deque_reply :=
  match os with
  | [] => (s, [])
  | o :: os' =>
      let '(s', r) := step s o in
      let '(s'', rs) := run_ops step s' os' in (s'', r :: rs)
  end.

(** * Lemmas *)

Lemma deque_new_ok : deque_ok deque_new.
Proof. split; [constructor|]. intros x. cbn [members queue deque_new]. rewrite elem_of_empty, elem_of_nil. done. Qed.

Lemma push_unique_ok v d : deque_ok d → deque_ok (push_unique v d).1.
Proof.
  intros [Hn Hm]. unfold push_unique. destruct (decide (v ∈ members d)) as [Hv|Hv]; [done|].
  split; cbn [fst queue members].
  - apply NoDup_app. split; [done|]. split; [|apply NoDup_singleton].
    intros x Hx ->%list_elem_of_singleton. by apply Hv, Hm.
  - intros x. rewrite elem_of_union, elem_of_singleton, elem_of_app, list_elem_of_singleton, Hm. tauto.
Qed.

Lemma push_unique_reply v d :
  deque_ok d → (push_unique v d).2 = bool_decide (v ∉ queue d) ∧
  queue (push_unique v d).1 = if decide (v ∈ queue d) then queue d else queue d ++ [v].
Proof.
  intros [_ Hm]. unfold push_unique.
  destruct (decide (v ∈ members d)) as [Hv|Hv]; destruct (decide (v ∈ queue d)) as [Hq|Hq];
    rewrite Hm in Hv; try done; cbn [fst snd queue]; split; try done; symmetry.
  - by apply bool_decide_eq_false; intros [].
  - by apply bool_decide_eq_true.
Qed.

Lemma elem_of_foldl_difference (l : list T) (s : gset T) x :
  x ∈ foldl (λ s item, s ∖ {[item]}) s l ↔ x ∈ s ∧ x ∉ l.
Proof.
  revert s. induction l as [|y l IH]; intros s; cbn [foldl].
  - rewrite elem_of_nil. tauto.
  - rewrite IH, elem_of_difference, elem_of_singleton, elem_of_cons. tauto.
Qed.

Lemma drain_first_n_ok n d : deque_ok d → deque_ok (drain_first_n n d).1.
Proof.
  intros [Hn Hm]. unfold drain_first_n. cbn [fst]. set (k := Nat.min n (deque_len d)).
  rewrite <- (take_drop k (queue d)) in Hn. apply NoDup_app in Hn as (Ht & Hd & Hr).
  split; cbn [queue members]; [done|].
  intros x. rewrite elem_of_foldl_difference, Hm.
  rewrite <- (take_drop k (queue d)) at 1. rewrite elem_of_app. split.
  - intros [[?|?] ?]; done.
  - intros Hx. split; [by right|]. intros Hx'. by apply (Hd x).
Qed.

Lemma drain_first_n_reply n d :
  (drain_first_n n d).2 = take n (queue d) ∧ queue (drain_first_n n d).1 = drop n (queue d).
Proof.
  unfold drain_first_n, deque_len. cbn [fst snd queue].
  destruct (Nat.le_ge_cases n (length (queue d))) as [Hn|Hn].
  - by rewrite Nat.min_l.
  - rewrite Nat.min_r by done. rewrite !drop_ge, !take_ge by done. done.
Qed.

Lemma run_op_refines d o :
  deque_ok d → deque_ok (run_op d o).1 ∧
  (queue (run_op d o).1, (run_op d o).2) = spec_op (queue d) o.
Proof.
  intros Hd. destruct o as [v|n|v|]; cbn [run_op spec_op].
  - pose proof (push_unique_ok v d Hd). destruct (push_unique_reply v d Hd) as [Hr Hq].
    destruct (push_unique v d) as [d' b]. cbn [fst snd] in *. split; [done|]. rewrite Hr, Hq.
    destruct (decide (v ∈ queue d)); [|by rewrite bool_decide_eq_true_2].
    by rewrite bool_decide_eq_false_2 by (by intros []).
  - pose proof (drain_first_n_ok n d Hd). destruct (drain_first_n_reply n d) as [Hr Hq].
    destruct (drain_first_n n d) as [d' l]. cbn [fst snd] in *. by rewrite Hr, Hq.
  - split; [done|]. cbn [fst snd]. unfold deque_contains. do 2 f_equal. apply bool_decide_ext, Hd.
  - done.
Qed.
End uni_deque.

Arguments UniDeque T {_ _}.
Arguments deque_op T : clear implicits.
Arguments deque_reply T : clear implicits.

(** [PeerManager] refines a queue that ignores the push of an element it holds: any sequence of
    pushes, drains and queries gives the same replies in the same order and ends with the same
    queue, which has no duplicates and exactly the elements of the set. *)
Theorem uni_deque_refines_queue : ∀ (T : Type) `{Countable T} (os : list (deque_op T)),
  let '(d, rs) := run_ops run_op deque_new os in
  deque_ok d ∧ run_ops spec_op [] os = (queue d, rs).
Proof.
  intros T ?? os.
  cut (∀ d : UniDeque T, deque_ok d →
    let '(d', rs) := run_ops run_op d os in deque_ok d' ∧ run_ops spec_op (queue d) os = (queue d', rs)).
  { intros Hc. apply (Hc deque_new), deque_new_ok. }
  induction os as [|o os IH]; intros d Hd; cbn [run_ops]; [done|].
  destruct (run_op_refines d o Hd) as [Hd' Hs]. rewrite <- Hs.
  destruct (run_op d o) as [d' r]. cbn [fst snd] in *. specialize (IH d' Hd').
  destruct (run_ops run_op d' os) as [d'' rs]. destruct IH as [Hok ->]. done.
Qed.
Record BackoffState : Type := mk_backoff { attempts : Z; cooldown_until : Z }.

Definition backoff_new (now cooldown : Z) : BackoffState :=
  {| attempts := 0; cooldown_until := now + cooldown |}.

(** [attempts += 1] on a [u32]. *)
Definition backoff_increment (now cooldown : Z) (s : BackoffState) : result BackoffState :=
  let! a := checked_add_panic u32_max (attempts s) 1 in
  Ok {| attempts := a; cooldown_until := now + cooldown |}.

(** A connection, by the reserved bytes of its handshake. *)
Definition Conn : Type := bytes.

(** [PeerConnection::remote_has_extension]. *)
Definition remote_has_extension (c : Conn) (bit : nat) : bool :=
  if (64 <=? bit)%nat then false else msb_bit c bit.

Record PeerManager : Type := mk_manager {
  pm_peer_id : bytes;
  pm_info_hash : bytes;
  connections : gmap SocketAddr Conn;
  pending : UniDeque SocketAddr;
  max_connections : Z;
  backoff : gmap SocketAddr BackoffState;
  connect_timeout : Z;
  max_retries : Z;
  cooldown : Z;
}.

Definition peer_manager_new (info_hash peer_id : bytes) (max_conns timeout retries cool : Z)
  : PeerManager :=
  {| pm_peer_id := peer_id; pm_info_hash := info_hash; connections := ∅; pending := deque_new;
     max_connections := max_conns; backoff := ∅; connect_timeout := timeout;
     max_retries := retries; cooldown := cool |}.

(** The fields that the operations change. *)
Definition with_state (cs : gmap SocketAddr Conn) (q : UniDeque SocketAddr)
    (b : gmap SocketAddr BackoffState) (pm : PeerManager) : PeerManager :=
  {| pm_peer_id := pm_peer_id pm; pm_info_hash := pm_info_hash pm; connections := cs; pending := q;
     max_connections := max_connections pm; backoff := b; connect_timeout := connect_timeout pm;
     max_retries := max_retries pm; cooldown := cooldown pm |}.

Definition set_pending (q : UniDeque SocketAddr) (pm : PeerManager) : PeerManager :=
  with_state (connections pm) q (backoff pm) pm.

Definition add_peer (pm : PeerManager) (addr : SocketAddr) : PeerManager :=
  match connections pm !! addr with
  | Some _ => pm
  | None => set_pending (push_unique addr (pending pm)).1 pm
  end.

Definition add_peers (addrs : list SocketAddr) (pm : PeerManager) : PeerManager :=
  foldl add_peer pm addrs.

Definition remove_peer (addr : SocketAddr) (pm : PeerManager) : PeerManager :=
  with_state (delete addr (connections pm)) (pending pm) (delete addr (backoff pm)) pm.

Definition num_connections (pm : PeerManager) : nat := size (connections pm).

Definition in_cooldown (now : Z) (pm : PeerManager) (addr : SocketAddr) : bool :=
  match backoff pm !! addr with
  | Some state => now <? cooldown_until state
  | None => false
  end.

(** The loop of [drain_pending_batch] over the raw batch. *)
Fixpoint take_ready (now : Z) (raw : list SocketAddr) (pm : PeerManager)
  : result (PeerManager * list SocketAddr) :=
  match raw with
  | [] => Ok (pm, [])
  | addr :: raw' =>
      if in_cooldown now pm addr then
        let '(q, re_enqueued) := push_unique addr (pending pm) in
        if re_enqueued then take_ready now raw' (set_pending q pm) else Panic
      else
        let! (pm', batch) := take_ready now raw' pm in Ok (pm', addr :: batch)
  end.

Definition drain_pending_batch (now : Z) (pm : PeerManager)
  : result (PeerManager * list SocketAddr) :=
  let batch_size := (Z.to_nat (max_connections pm) - num_connections pm)%nat in
  let '(q, raw_batch) := drain_first_n batch_size (pending pm) in
  take_ready now raw_batch (set_pending q pm).

(** One outcome of [apply_connect_results]. *)
Definition apply_outcome (now : Z) (addr : SocketAddr) (r : option Conn) (pm : PeerManager)
  : result PeerManager :=
  match r with
  | Some conn =>
      Ok (with_state (<[addr:=conn]> (connections pm)) (pending pm) (delete addr (backoff pm)) pm)
  | None =>
      let state := default (backoff_new now (cooldown pm)) (backoff pm !! addr) in
      if attempts state <? max_retries pm then
        let! state' := backoff_increment now (cooldown pm) state in
        let '(q, re_enqueued) := push_unique addr (pending pm) in
        if re_enqueued then Ok (with_state (connections pm) q (<[addr:=state']> (backoff pm)) pm)
        else Panic
      else Ok (with_state (connections pm) (pending pm) (delete addr (backoff pm)) pm)
  end.

Fixpoint apply_outcomes (now : Z) (outcomes : list (SocketAddr * option Conn)) (pm : PeerManager)
  : result (PeerManager * list SocketAddr) :=
  match outcomes with
  | [] => Ok (pm, [])
  | (addr, r) :: outcomes' =>
      let! pm' := apply_outcome now addr r pm in
      let! (pm'', connected) := apply_outcomes now outcomes' pm' in
      Ok (pm'', match r with Some _ => addr :: connected | None => connected end)
  end.

(** [apply_connect_results]; a result is [None] for an error. *)
Definition apply_connect_results (now : Z) (outcomes : list (SocketAddr * option Conn))
    (batch : list SocketAddr) (pm : PeerManager) : result (PeerManager * list SocketAddr) :=
  let! (pm', connected) := apply_outcomes now outcomes pm in
  let retry := filter (λ addr, addr ∉ map fst outcomes) batch in
  Ok (set_pending (foldl (λ q addr, (push_unique addr q).1) (pending pm') retry) pm', connected).

Definition connection (pm : PeerManager) (addr : SocketAddr) : option Conn := connections pm !! addr.

(** * Invariant *)

Definition manager_ok (pm : PeerManager) : Prop :=
  deque_ok (pending pm) ∧ in_u32 (max_retries pm) ∧
  ∀ a s, backoff pm !! a = Some s → 0 ≤ attempts s ≤ max_retries pm.

(** The failed attempts that count against a peer. *)
Definition tries (pm : PeerManager) (a : SocketAddr) : Z :=
  match backoff pm !! a with Some s => attempts s | None => 0 end.

Abbreviation waiting pm := (queue (pending pm)).

Lemma manager_new_ok ih pid mc t r c : in_u32 r → manager_ok (peer_manager_new ih pid mc t r c).
Proof.
  intros Hr. split; [apply deque_new_ok|]. split; [done|].
  intros a s Ha. cbn [backoff peer_manager_new] in Ha. by rewrite lookup_empty in Ha.
Qed.

Lemma set_pending_ok q pm : deque_ok q → manager_ok pm → manager_ok (set_pending q pm).
Proof. by intros Hq (_ & Hr & Hb). Qed.

Lemma add_peer_ok a pm : manager_ok pm → manager_ok (add_peer pm a).
Proof.
  intros Hm. unfold add_peer. destruct (connections pm !! a); [done|].
  apply set_pending_ok; [apply push_unique_ok, Hm|done].
Qed.

Lemma remove_peer_ok a pm : manager_ok pm → manager_ok (remove_peer a pm).
Proof.
  intros (Hq & Hr & Hb). split; [done|]. split; [done|]. cbn [backoff remove_peer with_state].
  intros b s [_ Hs]%lookup_delete_Some. by apply (Hb b).
Qed.

Lemma add_peers_ok l pm : manager_ok pm → manager_ok (add_peers l pm).
Proof.
  unfold add_peers. revert pm. induction l as [|a l IH]; intros pm Hm; cbn [foldl]; [done|].
  by apply IH, add_peer_ok.
Qed.

(** * Draining *)

Lemma push_unique_fresh (a : SocketAddr) q :
  deque_ok q → a ∉ queue q → ∃ q', push_unique a q = (q', true) ∧ deque_ok q' ∧ queue q' = queue q ++ [a].
Proof.
  intros Hq Ha. pose proof (push_unique_ok a q Hq) as Hok. destruct (push_unique_reply a q Hq) as [Hr Hl].
  destruct (push_unique a q) as [q' b]. cbn [fst snd] in *. rewrite decide_False in Hl by done.
  exists q'. rewrite Hr, bool_decide_eq_true_2; done.
Qed.

Lemma take_ready_spec now raw pm :
  manager_ok pm → NoDup raw → (∀ a, a ∈ raw → a ∉ waiting pm) →
  ∃ q, take_ready now raw pm = Ok (set_pending q pm, filter (λ a, in_cooldown now pm a = false) raw) ∧
    deque_ok q ∧ queue q = waiting pm ++ filter (λ a, in_cooldown now pm a = true) raw.
Proof.
  intros Hm Hn. revert pm Hm. induction Hn as [|a raw Ha Hn IH]; intros pm Hm Hd; cbn [take_ready].
  - exists (pending pm). rewrite app_nil_r. split; [|split; [apply Hm|done]]. by destruct pm.
  - rewrite !filter_cons. destruct (in_cooldown now pm a) eqn:Hc.
    + destruct (push_unique_fresh a (pending pm)) as (q & -> & Hq & Hl); [apply Hm|apply Hd; left|].
      destruct (IH (set_pending q pm)) as (q' & E & Hq' & Hl').
      * by apply set_pending_ok.
      * intros b Hb. cbn [pending set_pending with_state]. rewrite Hl.
        intros [Hb'| ->%list_elem_of_singleton]%elem_of_app; [|done].
        revert Hb'. apply Hd. by right.
      * exists q'. rewrite decide_False, decide_True by done. split; [exact E|]. split; [done|].
        rewrite Hl'. cbn [pending set_pending with_state]. rewrite Hl, <- app_assoc. done.
    + destruct (IH pm) as (q' & E & Hq' & Hl'); [done|intros b Hb; apply Hd; by right|].
      exists q'. rewrite E, decide_True, decide_False by done. done.
Qed.

Lemma drain_pending_batch_spec now pm :
  manager_ok pm →
  let raw := take (Z.to_nat (max_connections pm) - num_connections pm) (waiting pm) in
  ∃ q, drain_pending_batch now pm =
         Ok (set_pending q pm, filter (λ a, in_cooldown now pm a = false) raw) ∧
    deque_ok q ∧
    queue q = drop (Z.to_nat (max_connections pm) - num_connections pm) (waiting pm)
              ++ filter (λ a, in_cooldown now pm a = true) raw.
Proof.
  intros Hm raw. unfold drain_pending_batch. set (n := (_ - _)%nat) in *.
  pose proof (drain_first_n_ok n (pending pm) (proj1 Hm)) as Hok.
  destruct (drain_first_n_reply n (pending pm)) as [Hr Hl].
  destruct (drain_first_n n (pending pm)) as [q l]. cbn [fst snd] in *. subst l.
  pose proof (proj1 (proj1 Hm)) as Hn. rewrite <- (take_drop n (waiting pm)) in Hn.
  apply NoDup_app in Hn as (Ht & Hx & _).
  destruct (take_ready_spec now raw (set_pending q pm)) as (q' & E & Hq' & Hl').
  - by apply set_pending_ok.
  - done.
  - intros a Ha. cbn [pending set_pending with_state]. rewrite Hl. by apply Hx.
  - exists q'. fold raw. rewrite E. cbn [pending set_pending with_state] in Hl'. rewrite Hl' , Hl. done.
Qed.

(** * Applying the results *)

(** Nothing the manager keeps about [b] changed. *)
Definition same_at (b : SocketAddr) (pm pm' : PeerManager) : Prop :=
  connections pm' !! b = connections pm !! b ∧ backoff pm' !! b = backoff pm !! b ∧
  (b ∈ waiting pm' ↔ b ∈ waiting pm).

(** What becomes of a peer after a connection attempt with result [r]. *)
Definition settled (now : Z) (pm : PeerManager) (a : SocketAddr) (r : option Conn)
    (pm' : PeerManager) : Prop :=
  match r with
  | Some c => connections pm' !! a = Some c ∧ backoff pm' !! a = None ∧ a ∉ waiting pm'
  | None =>
      connections pm' !! a = connections pm !! a ∧
      if decide (tries pm a < max_retries pm) then
        backoff pm' !! a = Some (mk_backoff (tries pm a + 1) (now + cooldown pm)) ∧ a ∈ waiting pm'
      else backoff pm' !! a = None ∧ a ∉ waiting pm'
  end.

Definition same_config (pm pm' : PeerManager) : Prop :=
  max_retries pm' = max_retries pm ∧ cooldown pm' = cooldown pm ∧
  max_connections pm' = max_connections pm.

Lemma same_at_trans b p1 p2 p3 : same_at b p1 p2 → same_at b p2 p3 → same_at b p1 p3.
Proof. unfold same_at. intros (-> & -> & ->) (-> & -> & ->). done. Qed.

Lemma settled_same now pm pm' a r p1 p2 :
  same_config pm pm' → same_at a pm pm' → same_at a p1 p2 →
  settled now pm a r p1 → settled now pm' a r p2.
Proof.
  intros (Hm & Hc & _) (H1 & H2 & _) (H4 & H5 & H6). unfold settled, tries.
  rewrite Hm, Hc, H1, H2, H4, H5.
  destruct r; [by rewrite H6|]. destruct (decide _); by rewrite H6.
Qed.

Lemma settled_after now pm a r p1 p2 :
  same_at a p1 p2 → settled now pm a r p1 → settled now pm a r p2.
Proof. apply settled_same; by repeat split. Qed.

Lemma tries_nonneg pm a : manager_ok pm → 0 ≤ tries pm a ≤ max_retries pm.
Proof.
  intros (_ & [Hr _] & Hb). unfold tries. destruct (backoff pm !! a) eqn:E; [by eapply Hb|lia].
Qed.

Lemma apply_outcome_spec now a r pm :
  manager_ok pm → a ∉ waiting pm →
  ∃ pm', apply_outcome now a r pm = Ok pm' ∧ manager_ok pm' ∧ same_config pm pm' ∧
    settled now pm a r pm' ∧ ∀ b, b ≠ a → same_at b pm pm'.
Proof.
  intros Hm Ha. pose proof (tries_nonneg pm a Hm) as Ht. destruct Hm as (Hq & Hr & Hb).
  assert (∀ b s, delete a (backoff pm) !! b = Some s → 0 ≤ attempts s ≤ max_retries pm) as Hdel
    by (intros b s [_ Hs]%lookup_delete_Some; by eapply Hb).
  assert (∀ b, b ≠ a → delete a (backoff pm) !! b = backoff pm !! b) as Hoth
    by (intros; by rewrite lookup_delete_ne).
  unfold apply_outcome. destruct r as [c|].
  - eexists. split; [done|]. split; [by split; [|split]|]. split; [done|]. split.
    + unfold settled. cbn [connections with_state backoff pending].
      by rewrite lookup_insert_eq, lookup_delete_eq.
    + intros b Hne. split; [by apply lookup_insert_ne|]. by split; [apply Hoth|].
  - assert (attempts (default (backoff_new now (cooldown pm)) (backoff pm !! a)) = tries pm a) as Et
      by (unfold tries; by destruct (backoff pm !! a)).
    rewrite Et. destruct (Z.ltb_spec (tries pm a) (max_retries pm)) as [Hlt|Hge].
    + unfold backoff_increment, checked_add_panic. rewrite Et, (proj2 (Z.leb_le _ _)) by (unfold in_u32 in Hr; lia).
      cbn [obind]. destruct (push_unique_fresh a (pending pm) Hq Ha) as (q & -> & Hq' & Hl).
      eexists. split; [done|]. split; [split; [done|]; split; [done|]|].
      { intros b s. cbn [backoff with_state max_retries]. intros [[-> <-]|[_ Hs]]%lookup_insert_Some.
        - cbn [attempts]. lia.
        - by eapply Hb. }
      split; [done|]. split.
      * unfold settled. rewrite decide_True by done. cbn [connections with_state backoff pending].
        rewrite lookup_insert_eq, Hl. split; [done|]. split; [done|].
        apply elem_of_app. right. by apply list_elem_of_singleton.
      * intros b Hne. split; [done|]. split; [by apply lookup_insert_ne|].
        cbn [pending with_state]. rewrite Hl, elem_of_app, list_elem_of_singleton. tauto.
    + eexists. split; [done|]. split; [by split; [|split]|]. split; [done|]. split.
      * unfold settled. rewrite decide_False by lia. cbn [connections with_state backoff pending].
        by rewrite lookup_delete_eq.
      * intros b Hne. split; [done|]. by split; [apply Hoth|].
Qed.

Lemma apply_outcomes_spec now outcomes pm :
  manager_ok pm → NoDup (map fst outcomes) → (∀ a, a ∈ map fst outcomes → a ∉ waiting pm) →
  ∃ pm' connected, apply_outcomes now outcomes pm = Ok (pm', connected) ∧
    manager_ok pm' ∧ same_config pm pm' ∧
    connected = omap (λ p : SocketAddr * option Conn, (λ _, p.1) <$> p.2) outcomes ∧
    (∀ a r, (a, r) ∈ outcomes → settled now pm a r pm') ∧
    ∀ b, b ∉ map fst outcomes → same_at b pm pm'.
Proof.
  revert pm. induction outcomes as [|[a r] os IH]; intros pm Hm Hn Hd; cbn [apply_outcomes].
  - exists pm, []. split_and!; try done. by intros ?? ?%elem_of_nil.
  - cbn [map fst] in Hn, Hd. apply NoDup_cons in Hn as [Ha Hn].
    destruct (apply_outcome_spec now a r pm Hm) as (p1 & -> & Hm1 & Hc1 & Hs1 & Ho1); [apply Hd; left|].
    cbn [obind].
    destruct (IH p1 Hm1 Hn) as (p2 & con & -> & Hm2 & Hc2 & -> & Hs2 & Ho2).
    { intros b Hb. assert (b ≠ a) as Hne by (intros ->; done).
      destruct (Ho1 b Hne) as (_ & _ & ->). apply Hd. by right. }
    eexists p2, _. split; [reflexivity|]. split; [done|]. split.
    { destruct Hc1 as (? & ? & ?), Hc2 as (? & ? & ?). repeat split; congruence. }
    split; [cbn [omap list_omap]; by destruct r|]. split.
    + intros b r' [[= -> ->]|Hin]%elem_of_cons.
      * eapply settled_after; [by apply Ho2|done].
      * assert (b ∈ map fst os) as Hb by (apply list_elem_of_fmap; by exists (b, r')).
        assert (b ≠ a) as Hne by (intros ->; done).
        eapply (settled_same _ p1 pm); [| |by repeat split|by apply Hs2].
        -- destruct Hc1 as (? & ? & ?). repeat split; congruence.
        -- destruct (Ho1 b Hne) as (? & ? & ?). repeat split; try congruence; tauto.
    + intros b Hb. cbn [map fst] in Hb. apply not_elem_of_cons in Hb as [Hne Hb].
      eapply same_at_trans; [by apply Ho1|by apply Ho2].
Qed.

Lemma push_all_spec (l : list SocketAddr) q :
  deque_ok q → let q' := foldl (λ q addr, (push_unique addr q).1) q l in
  deque_ok q' ∧ ∀ b, b ∈ queue q' ↔ b ∈ queue q ∨ b ∈ l.
Proof.
  revert q. induction l as [|a l IH]; intros q Hq; cbn [foldl].
  - split; [done|]. intros b. rewrite elem_of_nil. tauto.
  - destruct (IH (push_unique a q).1) as [H1 H2]; [by apply push_unique_ok|]. split; [done|].
    intros b. rewrite H2, elem_of_cons. destruct (push_unique_reply a q Hq) as [_ ->].
    destruct (decide (a ∈ queue q)); [|rewrite elem_of_app, list_elem_of_singleton]; [|tauto].
    split; [tauto|]. intros [?|[->|?]]; tauto.
Qed.

(** One round of connection attempts. Draining never panics, gives at most as many distinct
    pending peers as there are free connections, and none that is cooling down. When the results
    are applied to that state, every peer is accounted for: a connected one is connected with its
    backoff cleared; a failed one waits again with one more attempt and a cooldown, or is forgotten
    once its retries are used up; one without a result waits again; and nothing changes for any
    other peer. *)
Theorem connection_round : ∀ now now' pm,
  manager_ok pm →
  ∃ pm1 batch, drain_pending_batch now pm = Ok (pm1, batch) ∧ manager_ok pm1 ∧
    (length batch ≤ Z.to_nat (max_connections pm) - num_connections pm)%nat ∧ NoDup batch ∧
    (∀ a, a ∈ batch → a ∈ waiting pm ∧ in_cooldown now pm a = false) ∧
    ∀ outcomes, NoDup (map fst outcomes) → (∀ a, a ∈ map fst outcomes → a ∈ batch) →
      ∃ pm2 connected, apply_connect_results now' outcomes batch pm1 = Ok (pm2, connected) ∧
        manager_ok pm2 ∧
        connected = omap (λ p : SocketAddr * option Conn, (λ _, p.1) <$> p.2) outcomes ∧
        (∀ a r, (a, r) ∈ outcomes → settled now' pm a r pm2) ∧
        (∀ a, a ∈ batch → a ∉ map fst outcomes → a ∈ waiting pm2) ∧
        (∀ a, a ∉ batch → same_at a pm pm2).
Proof.
  intros now now' pm Hm. destruct (drain_pending_batch_spec now pm Hm) as (q & E & Hq & Hl).
  set (n := (Z.to_nat _ - _)%nat) in *. set (raw := take n (waiting pm)) in *.
  set (batch := filter _ raw) in *. exists (set_pending q pm), batch. split; [done|].
  pose proof (proj1 (proj1 Hm)) as Hn. rewrite <- (take_drop n (waiting pm)) in Hn.
  fold raw in Hn. apply NoDup_app in Hn as (Hr & Hx & _).
  assert (∀ a, a ∈ batch → a ∈ raw ∧ in_cooldown now pm a = false) as Hb
    by (intros a; unfold batch; rewrite list_elem_of_filter; tauto).
  assert (∀ a, a ∈ queue q ↔ a ∈ waiting pm ∧ a ∉ batch) as Hw.
  { intros a. rewrite Hl. unfold batch. rewrite <- (take_drop n (waiting pm)) at 2. fold raw.
    rewrite !elem_of_app, !list_elem_of_filter. destruct (in_cooldown now pm a).
    - split; [intros [?|[_ ?]]|intros [[?|?] ?]]; [split; [by right|by intros [? _]]| |by right|by left].
      split; [by left|by intros [? _]].
    - split; [intros [Hd|[? _]]; [|done]|intros [[?|?] ?]]; [|tauto|by left].
      split; [by right|]. intros [_ Ht]. by apply (Hx a). }
  assert (manager_ok (set_pending q pm)) as Hm1 by by apply set_pending_ok.
  split; [done|]. split; [|split; [|split]].
  - transitivity (length raw); [apply length_filter|]. unfold raw. rewrite length_take. lia.
  - by apply NoDup_filter.
  - intros a Ha. apply Hb in Ha as [Ha ?]. split; [|done]. by eapply elem_of_take in Ha as (? & ? & _); eapply list_elem_of_lookup_2.
  - intros os Hno Hsub. unfold apply_connect_results.
    destruct (apply_outcomes_spec now' os (set_pending q pm) Hm1 Hno) as (p2 & con & -> & Hm2 & _ & -> & Hs & Ho).
    { intros a Ha%Hsub Hin. by apply Hw in Hin as []. }
    cbn [obind]. set (retry := filter _ batch).
    destruct (push_all_spec retry (pending p2) (proj1 Hm2)) as [Hq' Hl']. cbn zeta in Hq', Hl'.
    set (q' := foldl _ _ retry) in *. eexists _, _. split; [reflexivity|].
    split; [by apply set_pending_ok|]. split; [done|].
    assert (∀ a, a ∉ retry → same_at a p2 (set_pending q' p2)) as Hsame.
    { intros a Ha. split; [done|]. split; [done|]. cbn [pending set_pending with_state].
      rewrite Hl'. tauto. }
    split; [|split].
    + intros a r Hin. assert (a ∈ map fst os) as Ha by (apply list_elem_of_fmap; by exists (a, r)).
      eapply settled_after; [|by apply Hs].
      apply Hsame. unfold retry. rewrite list_elem_of_filter. by intros [? _].
    + intros a Ha Hna. cbn [pending set_pending with_state]. rewrite Hl'. right.
      unfold retry. by apply list_elem_of_filter.
    + intros a Ha. eapply same_at_trans; [|eapply same_at_trans; [apply Ho|apply Hsame]].
      * split; [done|]. split; [done|]. cbn [pending set_pending with_state]. rewrite Hw. tauto.
      * intros Hin. by apply Ha, Hsub.
      * unfold retry. rewrite list_elem_of_filter. by intros [_ ?].
Qed.

Definition peer_at (p : Z) : SocketAddr := mk_addr (V4 [10; 0; 0; 1]) p.

Definition sample_peers : PeerManager :=
  add_peers [peer_at 1; peer_at 2; peer_at 1; peer_at 3] (peer_manager_new [] [] 2 10 3 60).

Lemma connection_round_witness :
  ∃ pm1 pm2, drain_pending_batch 100 sample_peers = Ok (pm1, [peer_at 1; peer_at 2]) ∧
    apply_connect_results 105 [(peer_at 2, None); (peer_at 1, Some [])] [peer_at 1; peer_at 2] pm1
    = Ok (pm2, [peer_at 1]) ∧
    backoff pm2 !! peer_at 2 = Some (mk_backoff 1 165).
Proof.
  assert (manager_ok sample_peers) as Hm
    by (apply add_peers_ok, manager_new_ok; unfold in_u32; lia).
  destruct (connection_round 100 105 sample_peers Hm) as (pm1 & batch & E & _ & _ & _ & _ & H).
  assert (batch = [peer_at 1; peer_at 2]) as ->.
  { apply (f_equal (λ o, snd <$> outcome_ok o)) in E. cbn [outcome_ok fmap option_fmap option_map snd] in E.
    vm_compute in E. by injection E. }
  destruct (H [(peer_at 2, None); (peer_at 1, Some [])]) as (pm2 & con & E2 & _ & -> & Hs & _).
  - apply (bool_decide_unpack _). vm_compute. exact I.
  - intros a Ha. vm_compute in Ha. apply elem_of_cons in Ha as [->|Ha]; [right; left|].
    apply list_elem_of_singleton in Ha as ->. left.
  - exists pm1, pm2. split; [done|]. split; [done|].
    pose proof (Hs (peer_at 2) None (list_elem_of_here _ _)) as [_ Hs2].
    destruct (decide _) as [_|n] in Hs2; [apply Hs2|]. exfalso. apply n. vm_compute. reflexivity.
Defined.

(** A peer that is announced again while it is being dialled is pending when its failure is
    applied, and the assertion of [apply_connect_results] fails. *)
Example readded_peer_panics :
  (let! (pm, batch) := drain_pending_batch 100 sample_peers in
   apply_connect_results 105 [(peer_at 2, None)] batch (add_peers [peer_at 2] pm)) = Panic.
Proof. vm_compute. reflexivity. Qed.
