(* ===== verification/Upload.v ===== *)
(** The upload slots: [crates/torrent/src/session/upload_mgr.rs]. *)

From stdpp Require Import base numbers list gmap.
From Stdlib Require Import ZArith Lia.
From S2P Require Import Prelude Net.

Record UploadManager : Type := mk_upload { max_uploads : Z; unchoked : gset SocketAddr }.

Definition upload_new (max : Z) : UploadManager := {| max_uploads := max; unchoked := ∅ |}.

Definition is_unchoked (addr : SocketAddr) (u : UploadManager) : bool :=
  bool_decide (addr ∈ unchoked u).

Definition choke (addr : SocketAddr) (u : UploadManager) : UploadManager :=
  {| max_uploads := max_uploads u; unchoked := unchoked u ∖ {[addr]} |}.

(** A full manager ignores the call. *)
Definition unchoke (addr : SocketAddr) (u : UploadManager) : UploadManager :=
  if (size (unchoked u) <? Z.to_nat (max_uploads u))%nat then
    {| max_uploads := max_uploads u; unchoked := {[addr]} ∪ unchoked u |}
  else u.

Definition num_unchoked (u : UploadManager) : nat := size (unchoked u).

(** * The slots are never oversubscribed *)

Definition upload_ok (u : UploadManager) : Prop := (num_unchoked u ≤ Z.to_nat (max_uploads u))%nat.

Lemma upload_new_ok max : upload_ok (upload_new max).
Proof. unfold upload_ok, num_unchoked. cbn [unchoked upload_new]. rewrite size_empty. lia. Qed.

Lemma choke_ok a u : upload_ok u → upload_ok (choke a u).
Proof.
  unfold upload_ok, num_unchoked. cbn [unchoked choke max_uploads]. intros Hu.
  etransitivity; [|exact Hu]. apply subseteq_size. intros x. rewrite elem_of_difference. by intros [].
Qed.

Lemma unchoke_ok a u : upload_ok u → upload_ok (unchoke a u).
Proof.
  unfold upload_ok, num_unchoked, unchoke. intros Hu. case_bool; [|done].
  cbn [unchoked max_uploads]. rewrite size_union_alt, size_singleton.
  assert (size (unchoked u ∖ {[a]}) ≤ size (unchoked u))%nat as Hs; [|unfold num_unchoked in *; lia].
  apply subseteq_size. intros x. rewrite elem_of_difference. by intros [].
Qed.

Lemma elem_of_choke a b u : b ∈ unchoked (choke a u) ↔ b ∈ unchoked u ∧ b ≠ a.
Proof. cbn [unchoked choke]. by rewrite elem_of_difference, elem_of_singleton. Qed.

Lemma elem_of_unchoke a b u : b ∈ unchoked u → b ∈ unchoked (unchoke a u).
Proof. unfold unchoke. case_bool; [|done]. cbn [unchoked]. rewrite elem_of_union. by right. Qed.

Lemma max_uploads_unchoke a u : max_uploads (unchoke a u) = max_uploads u.
Proof. unfold unchoke. by case_bool. Qed.

#[export] Hint Resolve upload_new_ok choke_ok unchoke_ok : torrent.
