(* ===== verification/Swarm.v ===== *)
(** The state of the swarm loop of one torrent and its handling of peer events:
    [crates/torrent/src/session/swarm/peer.rs] and [pieces.rs].

    The loop owns all its state and handles one event at a time, so a handler is a function from
    state to state. [?] returns early with the changes made so far: a step returns the new state
    next to its [result].

    What is outside the program is in a [World]: the clock, the replies of the sockets and of the
    storage, and the iteration order of the hash maps. [s_sent] and [s_written] record the messages
    and pieces that were handed over successfully. *)

From stdpp Require Import base numbers list gmap.
From Stdlib Require Import ZArith Lia Floats.SpecFloat.
From S2P Require Import Prelude Facts F64 Error Step Net PeerMessage Piece Metainfo Download PeerManager Upload.

(** [enum TorrentState]. *)
Inductive TorrentState : Type :=
| Registered
| Downloading
| Seeding
| Paused
| Checking
| Error.

(** [enum TorrentEvent]. *)
Inductive TorrentEvent : Type :=
| StateChanged (from to : TorrentState)
| PieceCompleted (index : Z)
| PieceFailed (index : Z)
| TorrentFinished
| PeerConnected (addr : SocketAddr) (client_name : option bytes)
| PeerDisconnected (addr : SocketAddr)
| TrackerAnnounced (peers_found : nat)
| TrackerError (message : bytes)
| FileCompleted (path : list bytes).

(** The piece selectors the pipeline uses. *)
Inductive Selector : Type :=
| RarestFirst
| EndGame.

(** The fields of [SwarmLoop] and [PiecePipeline] that never change. *)
Record SwarmConfig : Type := mk_config {
  c_info_hash : bytes;
  c_info : Info;
  piece_cache_size : nat;
  corrupt_ban_threshold : Z;
  max_concurrent_pieces : nat;
  endgame_threshold : nat;
  request_timeout : Z;
  snub_timeout : Z;
}.

(** The fields that change, and the record of the outside effects. *)
Record SwarmState : Type := mk_swarm {
  s_piece_mgr : PieceManager;
  s_peer_mgr : PeerManager.PeerManager;
  s_peers : gmap SocketAddr PeerInfo;
  s_active : gmap Z ActiveDownload;
  s_selector : Selector;
  s_upload : UploadManager;
  s_uploaded : Z;
  s_wasted : Z;
  s_cache : list (Z * bytes);
  s_blocked : gset (Z * SocketAddr);
  s_files : gset (list bytes);
  s_events : list TorrentEvent;
  s_sent : list (SocketAddr * PeerMessage);
  s_written : list (Z * bytes);
}.

(** The world that a step meets. A send or a write gives the error it fails with, if it fails. *)
Record World : Type := mk_world {
  w_now : Z;
  w_send : list (SocketAddr * PeerMessage) → SocketAddr → PeerMessage → option ErrorKind;
  w_write : list (Z * bytes) → Z → bytes → option ErrorKind;
  w_read : list (Z * bytes) → Z → Z → nat → ErrorKind + bytes;
  w_conn_order : gmap SocketAddr Conn → list SocketAddr;
  w_set_order : gset SocketAddr → list SocketAddr;
}.

(** * Assignments *)

Definition set_piece_mgr (x : PieceManager) (s : SwarmState) : SwarmState :=
  {| s_piece_mgr := x; s_peer_mgr := s_peer_mgr s; s_peers := s_peers s; s_active := s_active s;
     s_selector := s_selector s; s_upload := s_upload s; s_uploaded := s_uploaded s;
     s_wasted := s_wasted s; s_cache := s_cache s; s_blocked := s_blocked s;
     s_files := s_files s; s_events := s_events s; s_sent := s_sent s; s_written := s_written s |}.
Definition set_peer_mgr (x : PeerManager.PeerManager) (s : SwarmState) : SwarmState :=
  {| s_piece_mgr := s_piece_mgr s; s_peer_mgr := x; s_peers := s_peers s;
     s_active := s_active s; s_selector := s_selector s; s_upload := s_upload s;
     s_uploaded := s_uploaded s; s_wasted := s_wasted s; s_cache := s_cache s;
     s_blocked := s_blocked s; s_files := s_files s; s_events := s_events s; s_sent := s_sent s;
     s_written := s_written s |}.
Definition set_peers (x : gmap SocketAddr PeerInfo) (s : SwarmState) : SwarmState :=
  {| s_piece_mgr := s_piece_mgr s; s_peer_mgr := s_peer_mgr s; s_peers := x;
     s_active := s_active s; s_selector := s_selector s; s_upload := s_upload s;
     s_uploaded := s_uploaded s; s_wasted := s_wasted s; s_cache := s_cache s;
     s_blocked := s_blocked s; s_files := s_files s; s_events := s_events s; s_sent := s_sent s;
     s_written := s_written s |}.
Definition set_active (x : gmap Z ActiveDownload) (s : SwarmState) : SwarmState :=
  {| s_piece_mgr := s_piece_mgr s; s_peer_mgr := s_peer_mgr s; s_peers := s_peers s;
     s_active := x; s_selector := s_selector s; s_upload := s_upload s;
     s_uploaded := s_uploaded s; s_wasted := s_wasted s; s_cache := s_cache s;
     s_blocked := s_blocked s; s_files := s_files s; s_events := s_events s; s_sent := s_sent s;
     s_written := s_written s |}.
Definition set_selector (x : Selector) (s : SwarmState) : SwarmState :=
  {| s_piece_mgr := s_piece_mgr s; s_peer_mgr := s_peer_mgr s; s_peers := s_peers s;
     s_active := s_active s; s_selector := x; s_upload := s_upload s;
     s_uploaded := s_uploaded s; s_wasted := s_wasted s; s_cache := s_cache s;
     s_blocked := s_blocked s; s_files := s_files s; s_events := s_events s; s_sent := s_sent s;
     s_written := s_written s |}.
Definition set_upload (x : UploadManager) (s : SwarmState) : SwarmState :=
  {| s_piece_mgr := s_piece_mgr s; s_peer_mgr := s_peer_mgr s; s_peers := s_peers s;
     s_active := s_active s; s_selector := s_selector s; s_upload := x;
     s_uploaded := s_uploaded s; s_wasted := s_wasted s; s_cache := s_cache s;
     s_blocked := s_blocked s; s_files := s_files s; s_events := s_events s; s_sent := s_sent s;
     s_written := s_written s |}.
Definition set_uploaded (x : Z) (s : SwarmState) : SwarmState :=
  {| s_piece_mgr := s_piece_mgr s; s_peer_mgr := s_peer_mgr s; s_peers := s_peers s;
     s_active := s_active s; s_selector := s_selector s; s_upload := s_upload s;
     s_uploaded := x; s_wasted := s_wasted s; s_cache := s_cache s; s_blocked := s_blocked s;
     s_files := s_files s; s_events := s_events s; s_sent := s_sent s; s_written := s_written s |}.
Definition set_wasted (x : Z) (s : SwarmState) : SwarmState :=
  {| s_piece_mgr := s_piece_mgr s; s_peer_mgr := s_peer_mgr s; s_peers := s_peers s;
     s_active := s_active s; s_selector := s_selector s; s_upload := s_upload s;
     s_uploaded := s_uploaded s; s_wasted := x; s_cache := s_cache s; s_blocked := s_blocked s;
     s_files := s_files s; s_events := s_events s; s_sent := s_sent s; s_written := s_written s |}.
Definition set_cache (x : list (Z * bytes)) (s : SwarmState) : SwarmState :=
  {| s_piece_mgr := s_piece_mgr s; s_peer_mgr := s_peer_mgr s; s_peers := s_peers s;
     s_active := s_active s; s_selector := s_selector s; s_upload := s_upload s;
     s_uploaded := s_uploaded s; s_wasted := s_wasted s; s_cache := x; s_blocked := s_blocked s;
     s_files := s_files s; s_events := s_events s; s_sent := s_sent s; s_written := s_written s |}.
Definition set_blocked (x : gset (Z * SocketAddr)) (s : SwarmState) : SwarmState :=
  {| s_piece_mgr := s_piece_mgr s; s_peer_mgr := s_peer_mgr s; s_peers := s_peers s;
     s_active := s_active s; s_selector := s_selector s; s_upload := s_upload s;
     s_uploaded := s_uploaded s; s_wasted := s_wasted s; s_cache := s_cache s; s_blocked := x;
     s_files := s_files s; s_events := s_events s; s_sent := s_sent s; s_written := s_written s |}.
Definition set_files (x : gset (list bytes)) (s : SwarmState) : SwarmState :=
  {| s_piece_mgr := s_piece_mgr s; s_peer_mgr := s_peer_mgr s; s_peers := s_peers s;
     s_active := s_active s; s_selector := s_selector s; s_upload := s_upload s;
     s_uploaded := s_uploaded s; s_wasted := s_wasted s; s_cache := s_cache s;
     s_blocked := s_blocked s; s_files := x; s_events := s_events s; s_sent := s_sent s;
     s_written := s_written s |}.
Definition add_event (x : TorrentEvent) (s : SwarmState) : SwarmState :=
  {| s_piece_mgr := s_piece_mgr s; s_peer_mgr := s_peer_mgr s; s_peers := s_peers s;
     s_active := s_active s; s_selector := s_selector s; s_upload := s_upload s;
     s_uploaded := s_uploaded s; s_wasted := s_wasted s; s_cache := s_cache s;
     s_blocked := s_blocked s; s_files := s_files s; s_events := s_events s ++ [x];
     s_sent := s_sent s; s_written := s_written s |}.
Definition add_sent (addr : SocketAddr) (msg : PeerMessage) (s : SwarmState) : SwarmState :=
  {| s_piece_mgr := s_piece_mgr s; s_peer_mgr := s_peer_mgr s; s_peers := s_peers s;
     s_active := s_active s; s_selector := s_selector s; s_upload := s_upload s;
     s_uploaded := s_uploaded s; s_wasted := s_wasted s; s_cache := s_cache s;
     s_blocked := s_blocked s; s_files := s_files s; s_events := s_events s;
     s_sent := s_sent s ++ [(addr, msg)]; s_written := s_written s |}.
Definition add_written (index : Z) (data : bytes) (s : SwarmState) : SwarmState :=
  {| s_piece_mgr := s_piece_mgr s; s_peer_mgr := s_peer_mgr s; s_peers := s_peers s;
     s_active := s_active s; s_selector := s_selector s; s_upload := s_upload s;
     s_uploaded := s_uploaded s; s_wasted := s_wasted s; s_cache := s_cache s;
     s_blocked := s_blocked s; s_files := s_files s; s_events := s_events s; s_sent := s_sent s;
     s_written := s_written s ++ [(index, data)] |}.

(** Reads a field after assignments. *)
Ltac swarm_simpl := cbn [s_piece_mgr s_peer_mgr s_peers s_active s_selector s_upload s_uploaded s_wasted s_cache
    s_blocked s_files s_events s_sent s_written set_piece_mgr set_peer_mgr set_peers
    set_active set_selector set_upload set_uploaded set_wasted set_cache set_blocked set_files
    add_event add_sent add_written] in *.

(** * Steps *)

Abbreviation step := (Step.step SwarmState).

(** * Messages and blocks *)

(** [PeerManager::send_to]: nothing happens for a peer without a connection. *)
Definition send_to (w : World) (addr : SocketAddr) (msg : PeerMessage) : step unit := λ s,
  match connections (s_peer_mgr s) !! addr with
  | None => (s, Ok tt)
  | Some _ =>
      match w_send w (s_sent s) addr msg with
      | Some e => (s, Err e)
      | None => (add_sent addr msg s, Ok tt)
      end
  end.

(** [if let Some(p) = self.peers.get_mut(&addr)]. *)
Definition with_peer (addr : SocketAddr) (f : PeerInfo → result PeerInfo) : step unit := λ s,
  match s_peers s !! addr with
  | None => (s, Ok tt)
  | Some p =>
      match f p with
      | Ok p' => (set_peers (<[addr:=p']> (s_peers s)) s, Ok tt)
      | Err e => (s, Err e)
      | Panic => (s, Panic)
      | NoFuel => (s, NoFuel)
      end
  end.

(** The block is unrequested again, if its piece is being downloaded. *)
Definition release_block (index begin : Z) (active : gmap Z ActiveDownload) : gmap Z ActiveDownload :=
  alter (assign_block begin None) index active.

Definition release_slots (slots : list slot) (active : gmap Z ActiveDownload) : gmap Z ActiveDownload :=
  foldl (λ act s, match s with Some (index, begin, _) => release_block index begin act | None => act end)
    active slots.

Definition disconnect (addr : SocketAddr) : step unit :=
  do! p := read (λ s, s_peers s !! addr) in
  do! _ := modify (λ s, match p with
                         | Some peer => set_active (release_slots (pipeline peer) (s_active s)) s
                         | None => s
                         end) in
  do! _ := modify (λ s, set_peers (delete addr (s_peers s)) s) in
  do! _ := modify (add_event (PeerDisconnected addr)) in
  modify (λ s, set_peer_mgr (remove_peer addr (s_peer_mgr s)) s).

(** * Completing a piece *)

Definition piece_len_for_index (i : Info) (index : Z) : result Z :=
  let n := Z.of_nat (Metainfo.num_pieces i) in
  if n <=? index then Ok 0
  else
    let! start := checked_mul_panic index (piece_length i) in
    if index =? n - 1 then
      let! total := total_size i in
      if start <=? total then Ok (total - start) else Panic
    else Ok (piece_length i).

Definition verify_piece_hash (sha1 : bytes → bytes) (data expected : bytes) : bool :=
  bool_decide (sha1 data = expected).

(** The files that [file_status] reports as complete for the first time. *)
Definition report_files (fs : list FileStatus) : step unit :=
  for_each fs (λ f,
    do! files := read s_files in
    if SFleb f64_one (fs_progress f) && (0 <? fs_length f)
       && negb (bool_decide (fs_path f ∈ files)) then
      do! _ := modify (λ s, set_files ({[fs_path f]} ∪ s_files s) s) in
      modify (add_event (FileCompleted (fs_path f)))
    else sret tt).

Definition check_files (c : SwarmConfig) : step unit :=
  do! offsets := lift (file_offsets (c_info c)) in
  do! files := read s_files in
  if (size files <? length offsets)%nat then
    do! pm := read s_piece_mgr in
    do! fs := lift (file_status (c_info c) (bitfield pm)) in
    report_files fs
  else sret tt.

(** The oldest piece is evicted with [Vec::remove(0)], which panics on an empty vector. *)
Definition cache_piece (c : SwarmConfig) (index : Z) (data : bytes) : step unit :=
  do! cache := read s_cache in
  do! kept := lift (if (piece_cache_size c <=? length cache)%nat then
                      match cache with [] => Panic | _ :: cache' => Ok cache' end
                    else Ok cache) in
  modify (set_cache (kept ++ [(index, data)])).

Definition write_piece (w : World) (index : Z) (data : bytes) : step unit := λ s,
  match w_write w (s_written s) index data with
  | Some e => (s, Err e)
  | None => (add_written index data s, Ok tt)
  end.

Definition complete_piece (c : SwarmConfig) (w : World) (index : Z) (data : bytes) : step unit :=
  do! _ := write_piece w index data in
  do! _ := modify (λ s, set_piece_mgr (set_piece (s_piece_mgr s) index) s) in
  do! _ := modify (add_event (PieceCompleted index)) in
  do! _ := check_files c in
  do! _ := cache_piece c index data in
  modify (λ s, set_active (delete index (s_active s)) s).

(** The distinct peers that blocks of the download are assigned to, in order of their first block. *)
Definition contributors (d : ActiveDownload) : list SocketAddr :=
  foldl (λ seen o, match o with
                   | Some a => if decide (a ∈ seen) then seen else seen ++ [a]
                   | None => seen
                   end) [] (requested d).

Definition ban_peer (addr : SocketAddr) : step unit :=
  do! _ := modify (λ s, set_peers (delete addr (s_peers s)) s) in
  modify (λ s, set_peer_mgr (remove_peer addr (s_peer_mgr s)) s).

(** The peers to ban; removing one does not depend on the others, so their order is not kept. *)
Definition to_ban (c : SwarmConfig) (s : SwarmState) : list SocketAddr :=
  map fst (filter (λ p : SocketAddr * PeerInfo, corrupt_ban_threshold c <= corrupt_blocks p.2)
             (map_to_list (s_peers s))).

Definition reject_piece (c : SwarmConfig) (index : Z) (d : ActiveDownload) : step unit :=
  do! len := lift (piece_len_for_index (c_info c) index) in
  do! wasted := read s_wasted in
  do! wasted' := lift (checked_add_panic u64_max wasted len) in
  do! _ := modify (set_wasted wasted') in
  do! _ := for_each (contributors d) (λ a, with_peer a add_strike) in
  do! ban := read (to_ban c) in
  do! _ := for_each ban ban_peer in
  do! _ := modify (λ s, set_active (delete index (s_active s)) s) in
  modify (add_event (PieceFailed index)).

Definition verify_and_complete_piece (sha1 : bytes → bytes) (c : SwarmConfig) (w : World) (index : Z)
  : step bool :=
  do! len := lift (piece_len_for_index (c_info c) index) in
  match pieces (c_info c) !! Z.to_nat index with
  | None => sret false
  | Some expected =>
      do! active := read s_active in
      match active !! index with
      | None => sret false
      | Some d =>
          do! data := lift (slice (dl_data d) 0 (Z.to_nat len)) in
          if verify_piece_hash sha1 data expected then
            do! _ := complete_piece c w index data in sret true
          else
            do! _ := reject_piece c index d in sret false
      end
  end.

(** A failed send is not an error here. *)
Definition broadcast_have (w : World) (index : Z) : step unit :=
  do! pm := read s_peer_mgr in
  for_each (w_conn_order w (connections pm)) (λ addr, ignore_err (send_to w addr (Have index))).

(** * Peer messages *)

(** [Choke]: the requests for pieces that are not allowed fast are given up. *)
Definition choked_slot (fast : list Z) (s : slot) : slot :=
  match s with
  | Some (index, begin, t) => if decide (index ∈ fast) then s else None
  | None => None
  end.

Definition given_up (fast : list Z) (s : slot) : slot :=
  match s with
  | Some (index, begin, t) => if decide (index ∈ fast) then None else s
  | None => None
  end.

Definition on_choke (addr : SocketAddr) (peer : PeerInfo) : step unit :=
  do! _ := modify (λ s, set_active
             (release_slots (map (given_up (peer_allowed_fast peer)) (pipeline peer)) (s_active s)) s) in
  with_peer addr (λ p, Ok (set_am_choked true
    (set_pipeline (map (choked_slot (peer_allowed_fast p)) (pipeline p)) p))).

Definition on_piece (sha1 : bytes → bytes) (c : SwarmConfig) (w : World) (addr : SocketAddr)
    (index begin : Z) (data : bytes) : step unit :=
  do! _ := with_peer addr (add_downloaded (zlen data) (w_now w)) in
  do! _ := with_peer addr (λ p, Ok (remove_request index begin p)) in
  do! active := read s_active in
  let '(active', piece_complete) :=
    match active !! index with
    | Some d => let '(d', done) := mark_received begin data d in (<[index:=d']> active, done)
    | None => (active, false)
    end in
  do! _ := modify (set_active active') in
  if piece_complete then
    do! completed := verify_and_complete_piece sha1 c w index in
    if completed : bool then broadcast_have w index else sret tt
  else sret tt.

(** The cached piece is sliced with [start..end], which panics when [start] is past the end. *)
Definition block_to_send (w : World) (index begin len : Z) : step bytes :=
  do! cache := read s_cache in
  match List.find (λ e, e.1 =? index) cache with
  | Some (_, cached) =>
      lift (slice cached (Z.to_nat begin) (Nat.min (Z.to_nat (begin + len)) (length cached)))
  | None =>
      do! written := read s_written in
      match w_read w written index begin (Z.to_nat len) with
      | inl e => lift (Err e)
      | inr block => sret block
      end
  end.

Definition on_request (w : World) (addr : SocketAddr) (peer : PeerInfo) (index begin len : Z)
  : step unit :=
  do! unchoked := read (λ s, is_unchoked addr (s_upload s)) in
  let allowed_fast := bool_decide (index ∈ our_allowed_fast peer) in
  if negb unchoked && negb allowed_fast then sret tt
  else
    do! blocked := read s_blocked in
    if bool_decide ((index, addr) ∈ blocked) then sret tt
    else
      do! block_data := block_to_send w index begin len in
      match block_data with
      | [] => sret tt
      | _ =>
          let uploaded := zlen block_data in
          do! _ := send_to w addr (PeerMessage.Piece index begin block_data) in
          do! total := read s_uploaded in
          do! total' := lift (checked_add_panic u64_max total uploaded) in
          do! _ := modify (set_uploaded total') in
          with_peer addr (add_uploaded uploaded)
      end.

(** [Cancel] and [Reject]. *)
Definition forget_request (addr : SocketAddr) (index begin : Z) : step unit :=
  do! _ := with_peer addr (λ p, Ok (remove_request index begin p)) in
  modify (λ s, set_active (release_block index begin (s_active s)) s).

Definition handle_peer_message (sha1 : bytes → bytes) (c : SwarmConfig) (w : World)
    (addr : SocketAddr) (msg : PeerMessage) : step unit :=
  do! peer := read (λ s, s_peers s !! addr) in
  match peer with
  | None => sret tt
  | Some peer =>
      let n := Metainfo.num_pieces (c_info c) in
      match msg with
      | KeepAlive => sret tt
      | Choke => on_choke addr peer
      | Unchoke => with_peer addr (λ p, Ok (set_am_choked false p))
      | Interested => with_peer addr (λ p, Ok (set_peer_interested true p))
      | NotInterested => with_peer addr (λ p, Ok (set_peer_interested false p))
      | Have index => with_peer addr (λ p, Ok (set_bitfield (<[Z.to_nat index:=true]> (p_bitfield p)) p))
      | Bitfield bytes => with_peer addr (λ p, Ok (set_bitfield (parse_bitfield bytes n) p))
      | PeerMessage.Piece index begin data => on_piece sha1 c w addr index begin data
      | Request index begin len => on_request w addr peer index begin len
      | Cancel index begin _ => forget_request addr index begin
      | Port _ => sret tt
      | Extended _ _ => sret tt
      | Suggest _ => sret tt
      | HaveAll => with_peer addr (λ p, Ok (set_bitfield (replicate n true) p))
      | HaveNone => with_peer addr (λ p, Ok (set_bitfield (replicate n false) p))
      | Reject index begin _ => forget_request addr index begin
      | AllowedFast index =>
          with_peer addr (λ p, Ok (if decide (index ∈ peer_allowed_fast p) then p
            else set_peer_allowed_fast (peer_allowed_fast p ++ [index]) p))
      | Unknown _ _ => sret tt
      end
  end.

(** [handle_peer_event]: any error disconnects the peer. *)
Definition or_disconnect (addr : SocketAddr) (m : step unit) : step unit := λ s,
  match m s with
  | (s', Err _) => disconnect addr s'
  | r => r
  end.

Definition handle_peer_event (sha1 : bytes → bytes) (c : SwarmConfig) (w : World)
    (addr : SocketAddr) (event : PeerEvent) : step unit :=
  match event with
  | Disconnected => disconnect addr
  | Message msg => or_disconnect addr (handle_peer_message sha1 c w addr msg)
  end.
