(* ===== verification/Pipeline.v ===== *)
(** The request pipeline: [crates/torrent/src/session/swarm/piece_pipeline.rs]. *)

From stdpp Require Import base numbers list gmap.
From Stdlib Require Import ZArith Lia.
From S2P Require Import Prelude Facts Error Net PeerMessage Piece Metainfo Download PeerManager Step Swarm.

(** * Filling the pipelines *)

Fixpoint add_bits (avail : list nat) (bits : list bool) : list nat :=
  match avail, bits with
  | a :: avail', b :: bits' => (if b : bool then S a else a) :: add_bits avail' bits'
  | _, _ => avail
  end.

Definition add_availability (avail : list nat) (peer : PeerInfo) : list nat :=
  if am_choked peer then avail else add_bits avail (p_bitfield peer).

(** How many peers that unchoke us have each piece; the order of the peers does not matter. *)
Definition availability_of (n : nat) (peers : gmap SocketAddr PeerInfo) : list nat :=
  foldl add_availability (replicate n 0%nat) (map snd (map_to_list peers)).

Definition select (sel : Selector) (our_bf : list bool) (avail : list nat) : option Z :=
  match sel with
  | RarestFirst => rarest_first our_bf avail
  | EndGame => end_game our_bf avail
  end.

(** The first piece, from [i] on, that the peer has and that has an unrequested block. *)
Fixpoint find_block_from (active : gmap Z ActiveDownload) (only_fast : bool) (fast_set : list Z)
    (i : Z) (bits : list bool) : result (option (Z * Z)) :=
  match bits with
  | [] => Ok None
  | h :: bits' =>
      let continue := find_block_from active only_fast fast_set (i + 1) bits' in
      if negb h then continue
      else if only_fast && negb (bool_decide (as_u32 i ∈ fast_set)) then continue
      else
        match active !! as_u32 i with
        | None => continue
        | Some d =>
            let! next := next_unrequested d in
            match next with
            | Some begin => Ok (Some (as_u32 i, begin))
            | None => continue
            end
        end
  end.

Definition find_block_for_peer (peers : gmap SocketAddr PeerInfo) (active : gmap Z ActiveDownload)
    (addr : SocketAddr) (only_fast : bool) : result (option (Z * Z)) :=
  match peers !! addr with
  | None => Ok None
  | Some peer => find_block_from active only_fast (peer_allowed_fast peer) 0 (p_bitfield peer)
  end.

(** The start of a new piece. [None] stands for [continue]; the [unwrap] of an unrequested block
    panics when there is none. *)
Definition start_piece (c : SwarmConfig) (our_bf : list bool) (avail : list nat) (addr : SocketAddr)
  : step (option (Z * Z)) :=
  do! s := read id in
  if (length (from_option p_bitfield [] (s_peers s !! addr)) =? 0)%nat then sret None
  else
    match select (s_selector s) our_bf avail with
    | None => sret None
    | Some idx =>
        match s_active s !! idx with
        | Some _ => sret None
        | None =>
            do! len := lift (piece_len_for_index (c_info c) idx) in
            if len =? 0 then sret None
            else
              let dl := download_new idx len BLOCK_SIZE in
              do! next := lift (next_unrequested dl) in
              do! begin := lift (match next with Some b => Ok b | None => Panic end) in
              do! _ := modify (λ s, set_active (<[idx:=dl]> (s_active s)) s) in
              sret (Some (idx, begin))
        end
    end.

Definition choose_block (c : SwarmConfig) (our_bf : list bool) (avail : list nat)
    (addr : SocketAddr) (only_fast : bool) : step (option (Z * Z)) :=
  do! s := read id in
  do! block := lift (find_block_for_peer (s_peers s) (s_active s) addr only_fast) in
  match block with
  | Some blk => sret (Some blk)
  | None =>
      if (size (s_active s) <? max_concurrent_pieces c)%nat then start_piece c our_bf avail addr
      else sret None
  end.

(** The request is sent before it is recorded. *)
Definition request_block (w : World) (addr : SocketAddr) (index begin : Z) : step unit :=
  do! active := read s_active in
  match active !! index with
  | None => sret tt
  | Some d =>
      let len := block_len begin d in
      if len =? 0 then sret tt
      else
        do! _ := send_to w addr (Request index begin len) in
        do! _ := with_peer addr (λ p, Ok (push_request index begin (w_now w) p)) in
        modify (λ s, set_active (alter (mark_requested begin addr) index (s_active s)) s)
  end.

Definition can_request_fast (p : PeerInfo) : bool :=
  am_choked p && negb (bool_decide (peer_allowed_fast p = [])).

Definition fill_peer (c : SwarmConfig) (w : World) (our_bf : list bool) (avail : list nat)
    (addr : SocketAddr) : step unit :=
  do! peer := read (λ s, s_peers s !! addr) in
  let can_req_normal := from_option can_request false peer in
  let can_req_fast := from_option can_request_fast false peer in
  if negb can_req_normal && negb can_req_fast then sret tt
  else
    do! block := choose_block c our_bf avail addr (negb can_req_normal && can_req_fast) in
    match block with
    | None => sret tt
    | Some (index, begin) => request_block w addr index begin
    end.

(** [fill]; [order] is the order in which the keys of [peers] are visited. *)
Definition fill (c : SwarmConfig) (w : World) (order : list SocketAddr) : step unit :=
  do! s := read id in
  let avail := availability_of (Metainfo.num_pieces (c_info c)) (s_peers s) in
  let our_bf := bitfield (s_piece_mgr s) in
  let missing_count := length (filter (λ b, b = false) our_bf) in
  do! _ := if (0 <? missing_count)%nat && (missing_count <? endgame_threshold c)%nat
           then modify (set_selector EndGame) else sret tt in
  for_each order (fill_peer c w our_bf avail).

(** * Expiring requests *)

(** [now.duration_since(sent_at) > timeout]; the difference saturates at zero. *)
Definition slot_expired (now timeout : Z) (s : slot) : bool :=
  match s with
  | Some (_, _, sent_at) => timeout <? Z.max 0 (now - sent_at)
  | None => false
  end.

Definition has_requests (p : PeerInfo) : bool := existsb (λ s, bool_decide (is_Some s)) (pipeline p).

Definition keep_fresh (now timeout : Z) (p : PeerInfo) : PeerInfo :=
  set_pipeline (map (λ s, if slot_expired now timeout s then None else s) (pipeline p)) p.

Definition expired_slots (now timeout : Z) (p : PeerInfo) : list slot :=
  filter (λ s, slot_expired now timeout s = true) (pipeline p).

(** A peer is dead when it had requests and all of them expired. *)
Definition is_dead (now timeout : Z) (p : PeerInfo) : bool :=
  has_requests p && negb (has_requests (keep_fresh now timeout p)).

(** Every block assigned to the peer is unassigned. *)
Definition unassign (addr : SocketAddr) (d : ActiveDownload) : ActiveDownload :=
  {| dl_index := dl_index d; dl_data := dl_data d;
     requested := map (λ o, if decide (o = Some addr) then None else o) (requested d);
     received := received d; block_size := block_size d; num_blocks := num_blocks d |}.

Definition drop_dead (addr : SocketAddr) : step unit :=
  do! _ := modify (λ s, set_active (fmap (unassign addr) (s_active s)) s) in
  ban_peer addr.

(** [expire_stale]: peers are independent of each other, so the order of the map is not kept. *)
Definition expire_stale (c : SwarmConfig) (now : Z) : step unit :=
  do! peers := read s_peers in
  let timeout := request_timeout c in
  do! _ := modify (λ s, set_active
             (foldl (λ act p, release_slots (expired_slots now timeout p) act) (s_active s)
                (map snd (map_to_list peers))) s) in
  do! _ := modify (λ s, set_peers (keep_fresh now timeout <$> s_peers s) s) in
  for_each (map fst (filter (λ e : SocketAddr * PeerInfo, is_dead now timeout e.2 = true)
                       (map_to_list peers))) drop_dead.
