(* ===== verification/Choke.v ===== *)
(** The choke rounds: [crates/torrent/src/session/swarm/choke.rs].

    The random choice of the optimistic unchoke is a parameter [pick], which is given the number of
    candidates. *)

From stdpp Require Import base numbers list gmap.
From Stdlib Require Import ZArith Lia.
From S2P Require Import Prelude Facts Error Net PeerMessage Piece Metainfo Download PeerManager Upload Step Swarm.

(** * Choosing the peers *)

Definition rate (seeding : bool) (p : PeerInfo) : Z :=
  if seeding then uploaded_this_round p else downloaded_this_round p.

(** [peer_stats], for the peers in the order in which the map gives them, sorted by rate. *)
Definition peer_stats (seeding : bool) (peers : gmap SocketAddr PeerInfo) (order : list SocketAddr)
  : list (SocketAddr * Z) :=
  stable_sort (λ a b, b.2 <=? a.2)
    (omap (λ addr, match peers !! addr with
                   | Some p => if negb seeding || peer_interested p then Some (addr, rate seeding p)
                               else None
                   | None => None
                   end) order).

(** What the [retain] and the top-up loop ask of a peer: interest when seeding, recent data when
    downloading. *)
Definition snub_ok (now timeout : Z) (p : PeerInfo) : bool :=
  match last_data_received p with
  | Some t => Z.max 0 (now - t) <? timeout
  | None => false
  end.

Definition eligible (seeding : bool) (now timeout : Z) (peers : gmap SocketAddr PeerInfo)
    (addr : SocketAddr) : bool :=
  match peers !! addr with
  | Some p => if seeding then peer_interested p else snub_ok now timeout p
  | None => negb seeding
  end.

(** The top-up loop stops as soon as the slots are used. *)
Fixpoint top_up (ok : SocketAddr → bool) (max : nat) (stats : list SocketAddr) (set : gset SocketAddr)
  : gset SocketAddr :=
  match stats with
  | [] => set
  | addr :: stats' =>
      if (max <=? size set)%nat then set
      else top_up ok max stats' (if ok addr then {[addr]} ∪ set else set)
  end.

Definition choose_unchoked (seeding : bool) (now timeout : Z) (max : nat) (pick : nat → nat)
    (peers : gmap SocketAddr PeerInfo) (order : list SocketAddr) : gset SocketAddr :=
  let stats := map fst (peer_stats seeding peers order) in
  let top_count := Nat.min (max - 1) (length stats) in
  let top : gset SocketAddr := list_to_set (take top_count stats) in
  let candidates := drop top_count stats in
  let chosen :=
    match candidates !! pick (length candidates) with
    | Some addr => {[addr]} ∪ top
    | None => top
    end in
  let ok := eligible seeding now timeout peers in
  top_up ok max stats (filter (λ a, ok a = true) chosen).

(** * Applying the choice *)

Definition unchoke_peer (w : World) (addr : SocketAddr) : step unit :=
  do! u := read s_upload in
  if is_unchoked addr u then sret tt
  else
    do! _ := modify (set_upload (unchoke addr u)) in
    ignore_err (send_to w addr Unchoke).

Definition cancel_request (w : World) (addr : SocketAddr) (fast : list Z) (s : slot) : step unit :=
  match s with
  | Some (index, begin, _) =>
      if decide (index ∈ fast) then sret tt
      else
        do! active := read s_active in
        let cancel_len := from_option (block_len begin) BLOCK_SIZE (active !! index) in
        ignore_err (send_to w addr (Cancel index begin cancel_len))
  | None => sret tt
  end.

Definition choke_peer (w : World) (addr : SocketAddr) : step unit :=
  do! peer := read (λ s, s_peers s !! addr) in
  do! _ := match peer with
           | Some p => for_each (pipeline p) (cancel_request w addr (our_allowed_fast p))
           | None => sret tt
           end in
  do! _ := match peer with
           | Some p => modify (λ s, set_active
               (release_slots (map (given_up (our_allowed_fast p)) (pipeline p)) (s_active s)) s)
           | None => sret tt
           end in
  do! _ := with_peer addr (λ p, Ok (set_pipeline
             (map (choked_slot (our_allowed_fast p)) (pipeline p)) p)) in
  do! _ := modify (λ s, set_upload (choke addr (s_upload s)) s) in
  ignore_err (send_to w addr Choke).

Definition run_round (c : SwarmConfig) (w : World) (pick : nat → nat) (order : list SocketAddr)
  : step unit :=
  do! s := read id in
  let max := Z.to_nat (max_uploads (s_upload s)) in
  if (max =? 0)%nat then sret tt
  else
    let seeding := bool_decide (missing_pieces (s_piece_mgr s) = []) in
    let to_unchoke :=
      choose_unchoked seeding (w_now w) (snub_timeout c) max pick (s_peers s) order in
    do! _ := for_each (w_set_order w to_unchoke) (unchoke_peer w) in
    do! u := read s_upload in
    do! _ := for_each (w_set_order w (unchoked u))
               (λ addr, if decide (addr ∈ to_unchoke) then sret tt else choke_peer w addr) in
    modify (λ s, set_peers (reset_round <$> s_peers s) s).
