(* ===== verification/Registration.v ===== *)
(** Connecting and registering peers: [connect_pending] and [register_new_peer] of
    [crates/torrent/src/session/swarm/mod.rs], and [send_bitfield] of [swarm/peer.rs].

    What the registered extensions contribute is a parameter: the extension identifiers they
    advertise and how they mask the bitfield. *)

From stdpp Require Import base numbers list gmap.
From Stdlib Require Import ZArith Lia.
From S2P Require Import Prelude Facts Error Bencode Net PeerMessage Extension Piece Metainfo Download PeerManager.
From S2P Require Import Upload Step Swarm.

Record Extensions : Type := mk_extensions {
  ltep_extensions : gmap bytes Z;
  mask_bitfield : bytes → bytes;
  client_version_string : bytes;
}.

Definition any_bit (bf : bytes) : bool := existsb (λ b, negb (b =? 0)) bf.

Definition send_bitfield (x : Extensions) (w : World) (addr : SocketAddr) : step unit :=
  do! pm := read s_piece_mgr in
  let bf_bytes := mask_bitfield x (to_bitfield pm) in
  let have_all := bool_decide (missing_pieces pm = []) in
  do! conn := read (λ s, connection (s_peer_mgr s) addr) in
  let fast_enabled := from_option (λ c, remote_has_extension c 44) false conn in
  do! _ :=
    if fast_enabled then
      if have_all then send_to w addr HaveAll
      else if negb (any_bit bf_bytes) then send_to w addr HaveNone
      else send_to w addr (Bitfield bf_bytes)
    else if any_bit bf_bytes then send_to w addr (Bitfield bf_bytes) else sret tt in
  if have_all then sret tt else send_to w addr Interested.

(** [send_extended_handshake]; a failure is only logged. *)
Definition send_extended_handshake (x : Extensions) (w : World) (addr : SocketAddr)
    (our_ids : gmap bytes Z) : step unit :=
  do! neg := lift (foldl (λ acc e, let! n := acc in add_extension n e.1 e.2)
                     (Ok negotiation_new) (map_to_list our_ids)) in
  let neg := {| m := m neg; v := Some (client_version_string x); yourip := yourip neg;
                metadata_size := metadata_size neg; reqq := reqq neg |} in
  ignore_err (send_to w addr (Extended 0 (Bencode.encode (negotiation_to_bencode neg)))).

(** [conn.remote_reserved()[5] & 0x10 != 0 || conn.remote_has_extension(63)]. *)
Definition remote_ltep (conn : Conn) : bool :=
  negb (Z.land (nth 5 conn 0) 16 =? 0) || remote_has_extension conn 63.

Definition set_new_fields (ids : gmap bytes Z) (fast : list Z) (p : PeerInfo) : PeerInfo :=
  let 'mk_peer_info a b c d e f g h i j k l _ n o q r s _ u := p in
  mk_peer_info a b c d e f g h i j k l ids n o q r s fast u.

(** The part of [register_new_peer] after its checks. *)
Definition register_fresh (sha1 : bytes → bytes) (c : SwarmConfig) (x : Extensions) (w : World)
    (addr : SocketAddr) (conn : Conn) : step unit :=
  let ids := ltep_extensions x in
  do! _ := if negb (size ids =? 0)%nat && remote_ltep conn
           then send_extended_handshake x w addr ids else sret tt in
  do! fast_set :=
    if remote_has_extension conn 44 then
      do! fast := lift (compute_allowed_fast_set sha1 (c_info_hash c) addr
                          (as_u32 (Z.of_nat (Metainfo.num_pieces (c_info c)))) 10) in
      do! _ := for_each fast (λ i, ignore_err (send_to w addr (AllowedFast i))) in
      sret fast
    else sret [] in
  let pi := set_new_fields ids fast_set peer_info_new in
  do! _ := modify (λ s, set_peers (<[addr:=pi]> (s_peers s)) s) in
  do! _ := modify (add_event (PeerConnected addr (client_version pi))) in
  send_bitfield x w addr.

Definition register_new_peer (sha1 : bytes → bytes) (c : SwarmConfig) (x : Extensions) (w : World)
    (addr : SocketAddr) (conn : Conn) : step unit := λ s,
  let pm := s_peer_mgr s in
  match connection pm addr with
  | Some _ => sret tt s
  | None =>
      if (Z.to_nat (max_connections pm) <=? num_connections pm)%nat then sret tt s
      else register_fresh sha1 c x w addr conn s
  end.

(** The peers that a step registers from the results of its connection attempts. *)
Definition register_connected (sha1 : bytes → bytes) (c : SwarmConfig) (x : Extensions) (w : World)
    (connected : list SocketAddr) : step unit :=
  for_each connected (λ addr,
    do! conn := read (λ s, connection (s_peer_mgr s) addr) in
    match conn with
    | Some conn => register_new_peer sha1 c x w addr conn
    | None => sret tt
    end).

(** [connect_pending]. [outcomes] are the results of the attempts, and [announced] the peers that
    other tasks add while the lock on the peer manager is released. *)
Definition connect_pending (sha1 : bytes → bytes) (c : SwarmConfig) (x : Extensions) (w : World)
    (announced : list SocketAddr) (outcomes : list (SocketAddr * option Conn)) : step unit :=
  do! pm := read s_peer_mgr in
  do! drained := lift (drain_pending_batch (w_now w) pm) in
  let '(pm1, batch) := drained in
  do! _ := modify (set_peer_mgr pm1) in
  match batch with
  | [] => sret tt
  | _ =>
      do! _ := modify (λ s, set_peer_mgr (add_peers announced (s_peer_mgr s)) s) in
      do! pm2 := read s_peer_mgr in
      do! applied := lift (apply_connect_results (w_now w) outcomes batch pm2) in
      let '(pm3, connected) := applied in
      do! _ := modify (set_peer_mgr pm3) in
      register_connected sha1 c x w connected
  end.

(** * What a registration achieves *)

Lemma send_to_disconnected w addr msg s :
  connections (s_peer_mgr s) !! addr = None → send_to w addr msg s = (s, Ok tt).
Proof. unfold send_to. by intros ->. Qed.

Lemma apply_outcomes_connected now outcomes pm pm' connected :
  apply_outcomes now outcomes pm = Ok (pm', connected) →
  (∀ a, is_Some (connections pm !! a) → is_Some (connections pm' !! a)) ∧
  ∀ a, a ∈ connected → is_Some (connections pm' !! a).
Proof.
  revert pm connected. induction outcomes as [|[a r] os IH]; intros pm con; cbn [apply_outcomes].
  - intros [= <- <-]. split; [done|]. by intros ? ?%elem_of_nil.
  - intros H. inv_outcome. subst.
    destruct (IH _ _ E0) as [Hk Hc].
    assert (∀ b, is_Some (connections pm !! b) → is_Some (connections x !! b)) as Hx.
    { intros b Hb. unfold apply_outcome in E. destruct r as [c|].
      - injection E as <-. cbn [connections with_state]. rewrite lookup_insert. by case_decide.
      - destruct (_ <? _); [|by injection E as <-]. inv_outcome.
        destruct (push_unique a (pending pm)) as [q []]; [|done]. by injection E as <-. }
    split; [by auto|]. destruct r as [c|]; [|done].
    intros b [->|Hb]%elem_of_cons; [|by auto]. apply Hk. unfold apply_outcome in E.
    injection E as <-. cbn [connections with_state]. rewrite lookup_insert_eq. done.
Qed.

Lemma register_connected_noop sha1 c x w l s :
  (∀ a, a ∈ l → is_Some (connections (s_peer_mgr s) !! a)) →
  register_connected sha1 c x w l s = (s, Ok tt).
Proof.
  induction l as [|a l IH]; intros Hl; [done|].
  unfold register_connected in *. cbn [for_each]. unfold sbind at 1 2, read at 1. unfold connection at 1.
  destruct (Hl a (list_elem_of_here _ _)) as [conn Hc]. rewrite Hc.
  unfold register_new_peer, sbind at 1, connection. rewrite Hc. cbn [sret].
  apply IH. intros b Hb. apply Hl. by right.
Qed.

(** A step that leaves the state [s] as it is. *)
Definition stays {A} (m : step A) (s : SwarmState) : Prop := (m s).1 = s.

Lemma stays_bind {A B} (m : step A) (k : A → step B) s :
  stays m s → (∀ a, stays (k a) s) → stays (sbind m k) s.
Proof.
  unfold stays, sbind. destruct (m s) as [s' [a|e| |]]; cbn [fst]; intros ->; done.
Qed.

Lemma stays_for_each {A} (l : list A) f s : (∀ a, stays (f a) s) → stays (for_each l f) s.
Proof. intros Hf. induction l as [|a l IH]; [done|]. cbn [for_each]. by apply stays_bind. Qed.

Lemma stays_ignore {A} (m : step A) s : stays m s → stays (ignore_err m) s.
Proof. unfold stays, ignore_err. by destruct (m s) as [s' [a|e| |]]. Qed.

Lemma stays_send w addr msg s :
  connections (s_peer_mgr s) !! addr = None → stays (send_to w addr msg) s.
Proof. intros H. unfold stays. by rewrite send_to_disconnected. Qed.

Lemma stays_send_bitfield x w addr s :
  connections (s_peer_mgr s) !! addr = None → stays (send_bitfield x w addr) s.
Proof.
  intros H. unfold send_bitfield. apply stays_bind; [done|]. intros pm.
  apply stays_bind; [done|]. intros conn. cbn zeta. apply stays_bind.
  - repeat (case_match; try by apply stays_send). done.
  - intros _. case_match; [done|by apply stays_send].
Qed.

(** A step that sends nothing and keeps the connections. *)
Definition quiet {A} (m : step A) (s : SwarmState) : Prop :=
  s_sent (m s).1 = s_sent s ∧ s_peer_mgr (m s).1 = s_peer_mgr s.

Lemma stays_quiet {A B} (m : step A) (k : A → step B) s :
  stays m s → (∀ a, quiet (k a) s) → quiet (sbind m k) s.
Proof.
  unfold stays, quiet, sbind. destruct (m s) as [s' [a|e| |]]; cbn [fst]; intros -> Hk; done.
Qed.

Lemma quiet_modify {B} f (k : unit → step B) s :
  s_sent (f s) = s_sent s → s_peer_mgr (f s) = s_peer_mgr s → quiet (k tt) (f s) →
  quiet (sbind (modify f) k) s.
Proof. unfold quiet, sbind, modify. cbn. intros <- <-. done. Qed.

Lemma stays_is_quiet {A} (m : step A) s : stays m s → quiet m s.
Proof. unfold stays, quiet. by intros ->. Qed.

Lemma register_inbound sha1 c x w addr conn s :
  connections (s_peer_mgr s) !! addr = None → quiet (register_new_peer sha1 c x w addr conn) s.
Proof.
  intros Hn. assert (∀ msg, stays (send_to w addr msg) s) as Hsend by (intros; by apply stays_send).
  unfold quiet, register_new_peer, connection. rewrite Hn. destruct (_ <=? _)%nat; [done|].
  change (quiet (register_fresh sha1 c x w addr conn) s). unfold register_fresh. cbn zeta.
  apply stays_quiet.
  { destruct (_ && _); [|done]. apply stays_bind; [done|]. intros neg. by apply stays_ignore. }
  intros _. apply stays_quiet.
  { destruct (remote_has_extension conn 44); [|done]. apply stays_bind; [done|]. intros fast.
    apply stays_bind; [|done]. apply stays_for_each. intros i. by apply stays_ignore. }
  intros fast. cbn zeta. apply quiet_modify; [by destruct s..|].
  apply quiet_modify; [by destruct s..|]. apply stays_is_quiet, stays_send_bitfield. by destruct s.
Qed.

Lemma connect_pending_peers sha1 c x w announced outcomes s :
  s_peers (connect_pending sha1 c x w announced outcomes s).1 = s_peers s.
Proof.
  unfold connect_pending, sbind at 1, read at 1. unfold sbind at 1, lift at 1.
  destruct (drain_pending_batch _ _) as [[pm1 batch]|e| |]; try done.
  unfold sbind at 1, modify at 1. destruct batch as [|b batch]; [by destruct s|].
  unfold sbind at 1, modify at 1. unfold sbind at 1, read at 1. unfold sbind at 1, lift at 1.
  destruct (apply_connect_results _ _ _ _) as [[pm3 connected]|e| |] eqn:E; try by destruct s.
  unfold sbind at 1, modify at 1. rewrite register_connected_noop; [by destruct s|].
  intros a Ha. unfold apply_connect_results in E. inv_outcome. subst.
  apply apply_outcomes_connected in E0 as [_ Hc].
  destruct s. by apply Hc.
Qed.

(** What registering a peer achieves in the code as it is. A peer that we dial is never
    registered: its connection is stored first, and [register_new_peer] then takes it for a
    duplicate, so a round of connection attempts leaves the registered peers as they were. A peer
    that dials us is registered without its connection being stored, so that nothing is sent to
    it, neither while it is registered nor later. *)
Theorem registration_outcome : ∀ sha1 c x w s,
  (∀ announced outcomes, s_peers (connect_pending sha1 c x w announced outcomes s).1 = s_peers s) ∧
  (∀ addr conn,
     let s' := (register_new_peer sha1 c x w addr conn s).1 in
     s' = s ∨
     connections (s_peer_mgr s') !! addr = None ∧ s_sent s' = s_sent s ∧
     ∀ w' msg, send_to w' addr msg s' = (s', Ok tt)).
Proof.
  intros sha1 c x w s. split; [intros; apply connect_pending_peers|]. intros addr conn s'.
  destruct (connections (s_peer_mgr s) !! addr) as [c0|] eqn:Hc.
  - left. unfold s', register_new_peer, connection. by rewrite Hc.
  - right. destruct (register_inbound sha1 c x w addr conn s Hc) as [Hs Hp]. fold s' in Hs, Hp.
    rewrite Hp. split; [done|]. split; [done|]. intros w' msg. apply send_to_disconnected. by rewrite Hp.
Qed.
