(* ===== verification/PeerStream.v ===== *)
(** A connection to a peer over a byte stream: [crates/torrent/src/peer/stream.rs].

    A stream, TCP or uTP, is the bytes that still arrive on it before it ends or a read of it times
    out, and the bytes that were written to it. The buffers between are transparent. *)

From stdpp Require Import base numbers list strings.
From Stdlib Require Import ZArith Lia.
From S2P Require Import Handshake Prelude Facts Error Text Net PeerMessage Magnet Download Step PeerManager Registration.

(** * Peer identifiers: [crates/torrent-core/src/peer/mod.rs]. *)

Definition CHARSET : bytes := bs "0123456789ABCDEFGHIJKLMNOPQRSTUVWXYZabcdefghijklmnopqrstuvwxyz".

(** [PeerId::random]: the draws are the indices into the character set, one for each byte. *)
Definition peer_id_random (draws : list nat) : option bytes :=
  tail_bytes ← mapM (λ idx, CHARSET !! idx) (take 12 draws);
  Some (bs "-TR1000-" ++ tail_bytes).

(** [Display for PeerId]. *)
Definition peer_id_display (id : bytes) : bytes := hex_encode id.

(** Draws in range give an identifier of twenty bytes, all of them letters, digits or dashes. *)
Lemma peer_id_random_ok draws :
  (12 ≤ length draws)%nat → Forall (λ idx, (idx < 62)%nat) draws →
  ∃ id, peer_id_random draws = Some id ∧ length id = 20%nat ∧ bytes_ok id ∧ take 8 id = bs "-TR1000-".
Proof.
  intros Hl Hd. unfold peer_id_random.
  assert (∀ l, Forall (λ idx, (idx < 62)%nat) l →
    ∃ t, mapM (λ idx, CHARSET !! idx) l = Some t ∧ length t = length l ∧ bytes_ok t) as Hmap.
  { induction 1 as [|idx l Hi _ (t & E & Hlt & Ht)]; [exists []; split_and!; [done..|constructor]|].
    destruct (lookup_lt_is_Some_2 CHARSET idx Hi) as [b Hb]. exists (b :: t).
    split; [apply mapM_Some_2; constructor; [exact Hb|by apply mapM_Some_1]|]. split; [cbn [length]; lia|]. apply List.Forall_cons; [|done].
    assert (bytes_ok CHARSET) as Hc by (apply (bool_decide_unpack _); vm_compute; exact I).
    by apply (Forall_lookup_1 _ _ _ _ Hc Hb). }
  destruct (Hmap (take 12 draws)) as (t & E & Hlt & Ht); [by apply Forall_take|]. rewrite E. eexists. split; [reflexivity|].
  rewrite length_take in Hlt. split; [rewrite length_app; cbn [length]; change (length (bs "-TR1000-")) with 8%nat; lia|].
  split; [|done]. apply bytes_ok_app. split; [|done]. apply (bool_decide_unpack _). vm_compute. exact I.
Qed.

Example peer_id_example : peer_id_random (replicate 12 10%nat) = Some (bs "-TR1000-AAAAAAAAAAAA").
Proof. reflexivity. Qed.
(** What becomes of a write: it is taken, it fails, or it is not finished in time. *)
Inductive WriteEnd : Type := Taken | Failed | Stalled.

#[global] Instance WriteEnd_eq_dec : EqDecision WriteEnd.
Proof. solve_decision. Defined.

Record Io : Type := mk_io { incoming : bytes; outgoing : bytes; write_end : WriteEnd }.

Abbreviation io_step := (Step.step Io).

(** * Reading and writing *)

(** [read_exact] under a timeout; what it read before the stream ended is lost. *)
Definition read_with_timeout (n : nat) : io_step bytes := λ io,
  if (n <=? length (incoming io))%nat
  then (mk_io (drop n (incoming io)) (outgoing io) (write_end io), Ok (take n (incoming io)))
  else (mk_io [] (outgoing io) (write_end io), Err PeerConnectionClosed).

(** [write_all] and [flush] under timeouts. *)
Definition write_with_timeout (data : bytes) : io_step unit := λ io,
  match write_end io with
  | Taken => (mk_io (incoming io) (outgoing io ++ data) Taken, Ok tt)
  | _ => (io, Err PeerConnectionClosed)
  end.

(** * The handshake *)

(** [Handshake::with_extensions] with bits for BEP 10 and BEP 6. *)
Definition our_handshake (info_hash our_peer_id : bytes) : result Handshake.Handshake :=
  let h := Handshake.with_extensions info_hash our_peer_id [63%nat] in
  let! r := index (Handshake.reserved h) 5 in
  let! h := Handshake.set_reserved_byte h 5 (Z.lor r 16) in
  let! r := index (Handshake.reserved h) 5 in
  Handshake.set_reserved_byte h 5 (Z.lor r 8).

Definition write_handshake (info_hash our_peer_id : bytes) : io_step unit :=
  do! h := lift (our_handshake info_hash our_peer_id) in
  write_with_timeout (Handshake.to_bytes h).

(** The writes of [perform_handshake]: only a timeout is an error, a failure is not looked at. *)
Definition write_unless_stalled (data : bytes) : io_step unit := λ io,
  match write_end io with
  | Stalled => (io, Err PeerConnectionClosed)
  | _ => ((write_with_timeout data io).1, Ok tt)
  end.

Definition perform_handshake (info_hash our_peer_id : bytes) : io_step (bytes * bytes) :=
  do! h := lift (our_handshake info_hash our_peer_id) in
  do! _ := write_unless_stalled (Handshake.to_bytes h) in
  do! buf := read_with_timeout 68 in
  do! remote := lift (Handshake.from_bytes buf) in
  do! _ := lift (guard_err (negb (bool_decide (Handshake.info_hash remote = info_hash))) PeerInvalidHandshake) in
  sret (Handshake.peer_id remote, Handshake.reserved remote).

(** * Connections *)

(** [enum PeerState]. *)
Inductive PeerState : Type := InHandshake | Init | Unchoked | Choked | Closed.

(** [struct PeerConnection], without its stream. *)
Record PeerConnection : Type := mk_connection {
  cn_state : PeerState;
  remote_peer_id : option bytes;
  remote_reserved : Conn;
}.

Definition set_cn_state (st : PeerState) (c : PeerConnection) : PeerConnection :=
  mk_connection st (remote_peer_id c) (remote_reserved c).

(** [connect] and [connect_utp], once the stream is open. *)
Definition connect (info_hash our_peer_id : bytes) : io_step PeerConnection :=
  do! (pid, res) := perform_handshake info_hash our_peer_id in
  sret (mk_connection Init (Some pid) res).

(** [connect_utp]: what connecting the uTP socket gave comes first; the stream is its stream. *)
Definition connect_utp {A} (opened : result A) (info_hash our_peer_id : bytes) : io_step PeerConnection :=
  do! _ := lift (match opened with Ok a => Ok a | Err _ => Err PeerUtpConnectionFailed | Panic => Panic | NoFuel => NoFuel end) in
  do! (pid, res) := perform_handshake info_hash our_peer_id in
  sret (mk_connection Init (Some pid) res).

(** [inbound]: the handshake of the remote has been read. [nodelay] says whether [set_nodelay] succeeds
    on the accepted stream. *)
Definition inbound (nodelay : bool) (pid res info_hash our_peer_id : bytes) : io_step PeerConnection :=
  do! _ := lift (guard_err (negb nodelay) PeerConnectionClosed) in
  do! _ := write_handshake info_hash our_peer_id in
  sret (mk_connection Init (Some pid) res).

(** [inbound_utp]. *)
Definition inbound_utp (pid res info_hash our_peer_id : bytes) : io_step PeerConnection :=
  do! _ := write_handshake info_hash our_peer_id in
  sret (mk_connection Init (Some pid) res).

(** * Messages *)

Definition MAX_MESSAGE_SIZE : Z := 2 * 1024 * 1024.

Definition send (msg : PeerMessage) : io_step unit :=
  do! data := lift (encode msg) in write_with_timeout data.

Definition recv : io_step PeerMessage :=
  do! len_buf := read_with_timeout 4 in
  do! len := lift (get_be 4 0 len_buf) in
  if len =? 0 then sret KeepAlive
  else
    do! _ := lift (guard_err (MAX_MESSAGE_SIZE <? len) PeerConnectionClosed) in
    do! msg_buf := read_with_timeout (Z.to_nat len) in
    lift (decode (u32_be len ++ msg_buf)).

(** Messages sent, and received, one after the other; receiving ends with the first error. *)
Fixpoint send_all (msgs : list PeerMessage) : io_step unit :=
  match msgs with
  | [] => sret tt
  | msg :: msgs' => do! _ := send msg in send_all msgs'
  end.

Fixpoint recv_all (n : nat) : Io → list PeerMessage * Io * option ErrorKind := λ io,
  match n with
  | O => ([], io, None)
  | S n' =>
      match recv io with
      | (io', Ok msg) => let '(l, io'', e) := recv_all n' io' in (msg :: l, io'', e)
      | (io', Err e) => ([], io', Some e)
      | (io', _) => ([], io', None)
      end
  end.

(** The task of [spawn_peer_reader]: what it sends to the loop of the torrent. The loop takes the [k]-th
    event if it still runs; every message takes four bytes or more off the stream. *)
Fixpoint peer_reader (fuel : nat) (loop_runs : nat → bool) (k : nat) (addr : SocketAddr) (io : Io)
  : outcome unit (list (SocketAddr * PeerEvent)) :=
  match fuel with
  | O => NoFuel
  | S fuel' =>
      match recv io with
      | (io', Ok msg) =>
          if loop_runs k then
            let! l := peer_reader fuel' loop_runs (S k) addr io' in Ok ((addr, Message msg) :: l)
          else Ok []
      | (_, Err _) => Ok (if loop_runs k then [(addr, Disconnected)] else [])
      | (_, Panic) => Panic
      | (_, NoFuel) => NoFuel
      end
  end.

Example our_handshake_example :
  match our_handshake (replicate 20 1) (replicate 20 2) with
  | Ok h => Handshake.reserved h = [0; 0; 0; 0; 0; 24; 0; 1]
  | _ => False
  end.
Proof. reflexivity. Qed.

Example recv_example :
  recv_all 4 (mk_io [0; 0; 0; 0; 0; 0; 0; 5; 4; 0; 0; 1; 0; 0; 0; 0; 1] [] Taken)
    = ([KeepAlive; Have 256], mk_io [] [] Taken, Some PeerConnectionClosed).
Proof. vm_compute. reflexivity. Qed.

(** * Messages and handshakes over a byte stream arrive as they were sent: about [PeerStream]. *)

(** * Reading *)

Lemma read_exact_app n a b out we :
  length a = n → read_with_timeout n (mk_io (a ++ b) out we) = (mk_io b out we, Ok a).
Proof.
  intros <-. unfold read_with_timeout. cbn [incoming outgoing write_end].
  rewrite (proj2 (Nat.leb_le _ _)) by (rewrite length_app; lia).
  by rewrite drop_app_length, take_app_length.
Qed.

Lemma read_exact_short n a out we :
  (length a < n)%nat → read_with_timeout n (mk_io a out we) = (mk_io [] out we, Err PeerConnectionClosed).
Proof. intros H. unfold read_with_timeout. cbn [incoming outgoing write_end]. by rewrite (proj2 (Nat.leb_gt _ _)) by done. Qed.

(** * One message *)

(** A message that the receiving side takes. *)
Definition transmissible (msg : PeerMessage) : Prop :=
  message_ok msg ∧ 1 + zlen (message_payload msg) ≤ MAX_MESSAGE_SIZE.

(** Reading the length prefix of [recv]. *)
Lemma recv_prefix len rest out we :
  in_u32 len →
  recv (mk_io (u32_be len ++ rest) out we) =
    if len =? 0 then (mk_io rest out we, Ok KeepAlive)
    else if MAX_MESSAGE_SIZE <? len then (mk_io rest out we, Err PeerConnectionClosed)
    else match read_with_timeout (Z.to_nat len) (mk_io rest out we) with
         | (io, Ok buf) => (io, decode (u32_be len ++ buf))
         | (io, Err e) => (io, Err e) | (io, Panic) => (io, Panic) | (io, NoFuel) => (io, NoFuel)
         end.
Proof.
  intros Hlen. unfold recv, sbind, lift, sret, guard_err. rewrite read_exact_app by apply length_u32_be.
  rewrite <- (app_nil_r (u32_be len)) at 1. rewrite get_u32_head by done.
  destruct (len =? 0); [done|]. by destruct (MAX_MESSAGE_SIZE <? len).
Qed.

(** A message that was encoded is received whole, and nothing of what follows it is read. *)
Lemma recv_encoded msg :
  transmissible msg →
  ∃ e, encode msg = Ok e ∧ (4 ≤ length e)%nat ∧
    (∀ rest out we, recv (mk_io (e ++ rest) out we) = (mk_io rest out we, Ok msg)) ∧
    (∀ k out we, (k < length e)%nat → recv (mk_io (take k e) out we) = (mk_io [] out we, Err PeerConnectionClosed)).
Proof.
  intros [Hok Hmax]. destruct (decide (msg = KeepAlive)) as [->|Hk].
  { exists (u32_be 0). split; [done|]. rewrite length_u32_be. split; [done|]. split.
    - intros rest out we. by rewrite recv_prefix.
    - intros k out we Hkl. unfold recv, sbind. by rewrite read_exact_short by (rewrite length_take; lia). }
  exists (frame (message_id msg) (message_payload msg)). split; [by apply encode_frame|].
  pose proof (payload_fits_u32 _ Hok) as [Hu _]. set (p := message_payload msg) in *. set (id := message_id msg).
  assert (length (u32_be (1 + zlen p)) = 4%nat) as H4 by apply length_u32_be.
  assert ((1 + zlen p =? 0) = false ∧ (MAX_MESSAGE_SIZE <? 1 + zlen p) = false) as [Hz Hm].
  { split; [apply Z.eqb_neq; lia|apply Z.ltb_ge; lia]. }
  assert (Z.to_nat (1 + zlen p) = length ([id] ++ p)) as Hl by (rewrite length_app; unfold zlen; cbn [length]; lia).
  unfold frame. split; [rewrite length_app; lia|]. split.
  - intros rest out we. rewrite <- app_assoc, recv_prefix by (unfold in_u32; lia). rewrite Hz, Hm.
    rewrite read_exact_app by done. f_equal. pose proof (decode_frame id p [] ltac:(lia)) as E.
    unfold frame in E. rewrite app_nil_r in E. rewrite E. by apply decode_payload_ok.
  - intros k out we Hkl. destruct (decide (k < 4)%nat) as [H|H].
    { unfold recv, sbind. by rewrite read_exact_short by (rewrite length_take; lia). }
    rewrite take_app_ge by lia. rewrite recv_prefix by (unfold in_u32; lia). rewrite Hz, Hm.
    rewrite length_app in Hkl. by rewrite read_exact_short by (rewrite length_take; lia).
Qed.

(** * Any bytes *)

Lemma decode_whole len buf :
  1 ≤ len → zlen buf = len → in_u32 len → ∃ r, decode (u32_be len ++ buf) = r ∧ r ≠ Panic ∧ r ≠ NoFuel.
Proof.
  intros Hl Hb Hu. destruct buf as [|id p]; [unfold zlen in Hb; cbn in Hb; lia|].
  assert (len = 1 + zlen p) as -> by (unfold zlen in *; cbn [length] in Hb; lia).
  pose proof (decode_frame id p [] ltac:(unfold in_u32 in Hu; lia)) as E. unfold frame in E. rewrite app_nil_r in E.
  cbn [app] in E. exists (decode_payload id (1 + zlen p) p). split; [exact E|].
  destruct (decode_payload_safe id (1 + zlen p) p) as [[m E']|E']; by rewrite E'.
Qed.

Lemma recv_total i out we :
  bytes_ok i → ∃ i' r, recv (mk_io i out we) = (mk_io i' out we, r) ∧ r ≠ Panic ∧ r ≠ NoFuel ∧
    (∀ msg, r = Ok msg → (length i' + 4 ≤ length i)%nat).
Proof.
  intros Hi. destruct (decide (length i < 4)%nat) as [H|H].
  { exists [], (Err PeerConnectionClosed). split; [|done]. unfold recv, sbind. by rewrite read_exact_short. }
  assert (i = u32_be (be_val (take 4 i)) ++ drop 4 i) as Ei.
  { unfold u32_be. rewrite <- (take_drop 4 i) at 1. f_equal. symmetry.
    rewrite <- (be_bytes_be_val (take 4 i)) at 2 by (by apply Forall_take).
    f_equal. rewrite length_take. lia. }
  set (len := be_val (take 4 i)) in *.
  assert (in_u32 len) as Hu.
  { pose proof (be_val_bound (take 4 i)) as Hb. rewrite length_take in Hb.
    replace (4 `min` length i)%nat with 4%nat in Hb by lia. specialize (Hb ltac:(by apply Forall_take)).
    unfold in_u32. change (256 ^ Z.of_nat 4) with 4294967296 in Hb. fold len in Hb. lia. }
  assert (length i = (4 + length (drop 4 i))%nat) as Hlen by (rewrite length_drop; lia).
  assert (recv (mk_io i out we) = recv (mk_io (u32_be len ++ drop 4 i) out we)) as -> by (by rewrite <- Ei).
  rewrite recv_prefix by done. destruct (Z.eqb_spec len 0) as [Hz|Hz].
  { eexists _, _. split; [done|]. split; [done|]. split; [done|]. intros; lia. }
  destruct (MAX_MESSAGE_SIZE <? len); [by eexists _, _|].
  unfold read_with_timeout. cbn [incoming outgoing write_end].
  destruct (Nat.leb_spec (Z.to_nat len) (length (drop 4 i))) as [Hle|Hgt]; [|by eexists _, _].
  destruct (decode_whole len (take (Z.to_nat len) (drop 4 i))) as (r & E & Hp & Hn).
  - unfold in_u32 in Hu. lia.
  - unfold zlen, in_u32 in *. rewrite length_take. lia.
  - done.
  - rewrite E. eexists _, r. split; [done|]. split; [done|]. split; [done|]. intros msg _. rewrite !length_drop in *. lia.
Qed.

(** What is left on the stream is bytes. *)
Lemma read_rest n io : bytes_ok (incoming io) → bytes_ok (incoming (read_with_timeout n io).1).
Proof. intros H. unfold read_with_timeout. destruct (_ <=? _)%nat; cbn [fst incoming]; [by apply Forall_drop|constructor]. Qed.

Lemma recv_rest i out we : bytes_ok i → bytes_ok (incoming (recv (mk_io i out we)).1).
Proof.
  intros Hi. assert (preserves (λ io, bytes_ok (incoming io)) recv) as H; [|by apply H].
  unfold recv. apply preserves_bind; [intros io; apply read_rest|intros len_buf].
  apply preserves_bind; [apply preserves_lift|intros len]. destruct (_ =? _); [apply preserves_ret|].
  apply preserves_bind; [apply preserves_lift|intros _].
  apply preserves_bind; [intros io; apply read_rest|intros msg_buf]. apply preserves_lift.
Qed.

(** * A sequence of messages *)

Lemma recv_all_encoded msgs :
  Forall transmissible msgs →
  ∃ w, (∀ i out, send_all msgs (mk_io i out Taken) = (mk_io i (out ++ w) Taken, Ok tt)) ∧
    (∀ rest out we, recv_all (length msgs) (mk_io (w ++ rest) out we) = (msgs, mk_io rest out we, None)) ∧
    (∀ k out we, (k < length w)%nat → ∃ j, (j < length msgs)%nat ∧
       recv_all (length msgs) (mk_io (take k w) out we) = (take j msgs, mk_io [] out we, Some PeerConnectionClosed)).
Proof.
  induction 1 as [|msg msgs Hm _ (w & Hs & Hr & Hp)].
  { exists []. split; [intros; by rewrite app_nil_r|]. split; [done|]. cbn [length]. lia. }
  destruct (recv_encoded msg Hm) as (e & Ee & H4 & He & Hcut). exists (e ++ w). split; [|split].
  - intros i out. cbn [send_all]. unfold send, sbind, lift. rewrite Ee. cbn. rewrite Hs. by rewrite <- app_assoc.
  - intros rest out we. cbn [length recv_all]. rewrite <- app_assoc, He, Hr. done.
  - intros k out we Hk. cbn [length recv_all]. destruct (decide (k < length e)%nat) as [Hlt|Hge].
    + exists O. split; [lia|]. rewrite take_app_le by lia. by rewrite Hcut.
    + rewrite take_app_ge by lia. rewrite length_app in Hk. destruct (Hp (k - length e)%nat out we) as (j & Hj & E); [lia|].
      exists (S j). split; [lia|]. by rewrite He, E.
Qed.

(** The reader of a connection turns the messages into events, the end of the stream into the last one. *)
Lemma peer_reader_encoded msgs :
  Forall transmissible msgs →
  ∃ w, (∀ i out, send_all msgs (mk_io i out Taken) = (mk_io i (out ++ w) Taken, Ok tt)) ∧
    ∀ fuel k addr out we, (length w < fuel)%nat →
      peer_reader fuel (λ _, true) k addr (mk_io w out we) =
        Ok (map (λ m, (addr, Message m)) msgs ++ [(addr, Disconnected)]).
Proof.
  induction 1 as [|msg msgs Hm _ (w & Hs & Hr)].
  { exists []. split; [intros; by rewrite app_nil_r|]. intros [|fuel] k addr out we Hf; [lia|]. cbn [peer_reader].
    unfold recv, sbind. by rewrite read_exact_short by (cbn; lia). }
  destruct (recv_encoded msg Hm) as (e & Ee & H4 & He & _). exists (e ++ w). split.
  - intros i out. cbn [send_all]. unfold send, sbind, lift. rewrite Ee. cbn. rewrite Hs. by rewrite <- app_assoc.
  - intros [|fuel] k addr out we Hf; [lia|]. rewrite length_app in Hf. cbn [peer_reader]. rewrite He, Hr by lia. done.
Qed.

(** On any bytes the reader ends, without a panic, and tells the loop once, at the end. *)
Lemma peer_reader_total fuel k addr i out we :
  bytes_ok i → (length i < fuel)%nat →
  ∃ msgs, peer_reader fuel (λ _, true) k addr (mk_io i out we) =
    Ok (map (λ m, (addr, Message m)) msgs ++ [(addr, Disconnected)]).
Proof.
  revert k i. induction fuel as [|fuel IH]; intros k i Hi Hf; [lia|]. cbn [peer_reader].
  destruct (recv_total i out we Hi) as (i' & r & E & Hp & Hn & Hm). pose proof (recv_rest i out we Hi) as Hi'. rewrite E in *.
  destruct r as [msg|e| |]; try done; [|by exists []].
  specialize (Hm msg eq_refl). destruct (IH (S k) i') as (msgs & E'); [done|lia|]. exists (msg :: msgs). by rewrite E'.
Qed.

(** C18: a connection carries messages. Any sequence of well-formed messages of at most 2 MiB that is
    sent on a stream is received as the same messages in the same order, whatever follows them, and
    without reading any of it; the task that reads a connection hands them to the loop of the torrent,
    in order, and then the end of the stream, once. When the stream ends inside of them, the messages
    that arrived whole are received, in order, and then an error. On any other bytes receiving is a
    message or an error, never a panic, and a message takes at least its length prefix off the stream;
    a length above 2 MiB is refused without reading on. *)
Theorem connection_carries_messages : ∀ msgs, Forall transmissible msgs →
  ∃ w, (∀ i out, send_all msgs (mk_io i out Taken) = (mk_io i (out ++ w) Taken, Ok tt)) ∧
    (∀ rest out we, recv_all (length msgs) (mk_io (w ++ rest) out we) = (msgs, mk_io rest out we, None)) ∧
    (∀ fuel k addr out we, (length w < fuel)%nat →
       peer_reader fuel (λ _, true) k addr (mk_io w out we) =
         Ok (map (λ m, (addr, Message m)) msgs ++ [(addr, Disconnected)])) ∧
    (∀ k out we, (k < length w)%nat → ∃ j, (j < length msgs)%nat ∧
       recv_all (length msgs) (mk_io (take k w) out we) = (take j msgs, mk_io [] out we, Some PeerConnectionClosed)) ∧
    (∀ i out we, bytes_ok i → ∃ i' r, recv (mk_io i out we) = (mk_io i' out we, r) ∧ r ≠ Panic ∧ r ≠ NoFuel ∧
       (∀ msg, r = Ok msg → (length i' + 4 ≤ length i)%nat)) ∧
    (∀ len rest out we, MAX_MESSAGE_SIZE < len ≤ u32_max →
       recv (mk_io (u32_be len ++ rest) out we) = (mk_io rest out we, Err PeerConnectionClosed)).
Proof.
  intros msgs Hm. destruct (recv_all_encoded msgs Hm) as (w & Hs & Hr & Hp).
  destruct (peer_reader_encoded msgs Hm) as (w' & Hs' & Hreader).
  assert (w' = w) as ->.
  { specialize (Hs [] []). specialize (Hs' [] []). rewrite Hs in Hs'. cbn [app] in Hs'. by injection Hs'. }
  exists w. split; [exact Hs|]. split; [exact Hr|]. split; [exact Hreader|]. split; [exact Hp|].
  split; [intros; by apply recv_total|].
  intros len rest out we Hl. rewrite recv_prefix by (unfold in_u32, MAX_MESSAGE_SIZE in *; lia).
  rewrite (proj2 (Z.eqb_neq _ _)), (proj2 (Z.ltb_lt _ _)) by (unfold MAX_MESSAGE_SIZE in *; lia). done.
Qed.

Definition sample_messages : list PeerMessage :=
  [Bitfield [255; 128]; Interested; KeepAlive; Request 1 16384 16384; Extended 0 (bs "de")].

Lemma connection_carries_messages_witness :
  ∃ w, send_all sample_messages (mk_io [] [] Taken) = (mk_io [] w Taken, Ok tt) ∧
    recv_all 5 (mk_io (w ++ [7]) [] Taken) = (sample_messages, mk_io [7] [] Taken, None).
Proof.
  destruct (connection_carries_messages sample_messages) as (w & Hs & Hr & _).
  - repeat (apply List.Forall_cons; [split; [cbn [message_ok]|vm_compute; congruence]|]); [..|constructor];
      try exact I; unfold payload_fits, in_u32, in_u8; repeat split;
      try (vm_compute; congruence); apply (bool_decide_unpack _); vm_compute; exact I.
  - exists w. split; [exact (Hs [] [])|exact (Hr [7] [] Taken)].
Defined.
