(* ===== verification/SwarmFacts.v ===== *)
(** The pieces that a swarm stores: every piece that is marked as completed, announced, or kept for
    uploading was written to the storage with data that has its length and its hash. *)

From stdpp Require Import base numbers list gmap.
From Stdlib Require Import ZArith Lia.
From S2P Require Import Prelude Facts Error Net PeerMessage Piece Metainfo Download PeerManager Upload Step Swarm.
From S2P Require Import Pipeline Choke Registration.

(** * Sending *)

(** What a [send_to] may change. *)
Lemma swp_send {E} w addr msg (Q : unit → SwarmState → Prop) s :
  Q tt s → Q tt (add_sent addr msg s) → E s → swp E (send_to w addr msg) Q s.
Proof.
  intros H1 H2 H3. unfold swp, send_to. destruct (_ !! addr); [|done]. by destruct (w_send _ _ _ _).
Qed.
(** * Steps that neither store nor upload pieces *)

(** The events about completed pieces and the completed torrent. *)
Definition is_completed (e : TorrentEvent) : bool :=
  match e with PieceCompleted _ | TorrentFinished => true | _ => false end.

Definition is_upload (e : SocketAddr * PeerMessage) : bool :=
  match e.2 with PeerMessage.Piece _ _ _ => true | _ => false end.

(** What the invariant of the store is about. *)
Definition store_view (s : SwarmState)
  : PieceManager * list (Z * bytes) * list (Z * bytes) * list TorrentEvent :=
  (s_piece_mgr s, s_cache s, s_written s, filter (λ e, is_completed e = true) (s_events s)).

(** The store and the uploads. *)
Definition quiet_view (s : SwarmState) :=
  (store_view s, s_uploaded s, filter (λ e, is_upload e = true) (s_sent s)).

Abbreviation frame := (keeps quiet_view).

Lemma frame_send w addr msg : is_upload (addr, msg) = false → frame (send_to w addr msg).
Proof.
  intros Hm s. unfold send_to. repeat case_match; try done. cbn [fst]. unfold quiet_view.
  destruct s. cbn in *. by rewrite filter_app, filter_cons, Hm, decide_False, filter_nil, app_nil_r.
Qed.

Lemma frame_with_peer addr f : frame (with_peer addr f).
Proof. intros s. unfold with_peer. repeat case_match; by destruct s. Qed.

Lemma view_event e s : is_completed e = false → quiet_view (add_event e s) = quiet_view s.
Proof.
  intros He. destruct s. unfold quiet_view, store_view. cbn. rewrite filter_app, filter_cons, He.
  rewrite decide_False, filter_nil, app_nil_r by done. done.
Qed.

#[export] Hint Resolve frame_send frame_with_peer : torrent.

(** Proves a [frame] goal structurally. *)
Ltac solve_frame :=
  repeat first
    [ progress intros
    | progress cbn zeta
    | apply keeps_bind
    | apply keeps_for_each
    | apply keeps_ignore
    | by auto with torrent
    | apply keeps_modify; let s := fresh in intros s; first [by destruct s | by apply view_event
                          | case_match; by destruct s]
    | lazymatch goal with
      | |- keeps _ (let '(_, _) := ?x in _) => destruct x
      | |- keeps _ (if ?b then _ else _) => destruct b
      | |- keeps _ (match ?x with _ => _ end) => destruct x
      end ].

Lemma frame_disconnect addr : frame (disconnect addr).
Proof. unfold disconnect. solve_frame. Qed.

Lemma frame_ban addr : frame (ban_peer addr).
Proof. unfold ban_peer. solve_frame. Qed.

#[export] Hint Resolve frame_disconnect frame_ban : torrent.

Lemma frame_report fs : frame (report_files fs).
Proof. unfold report_files. solve_frame. Qed.

#[export] Hint Resolve frame_report : torrent.

Lemma frame_check_files c : frame (check_files c).
Proof. unfold check_files. solve_frame. Qed.

Lemma frame_reject c index d : frame (reject_piece c index d).
Proof. unfold reject_piece. solve_frame. Qed.

Lemma frame_have w index : frame (broadcast_have w index).
Proof. unfold broadcast_have. solve_frame. Qed.

Lemma frame_on_choke addr p : frame (on_choke addr p).
Proof. unfold on_choke. solve_frame. Qed.

Lemma frame_forget addr index begin : frame (forget_request addr index begin).
Proof. unfold forget_request. solve_frame. Qed.

Lemma frame_block w index begin len : frame (block_to_send w index begin len).
Proof. unfold block_to_send. solve_frame. Qed.

#[export] Hint Resolve frame_check_files frame_reject frame_have frame_on_choke frame_forget
  frame_block : torrent.

Lemma frame_start c bf av addr : frame (start_piece c bf av addr).
Proof. unfold start_piece. solve_frame. Qed.

#[export] Hint Resolve frame_start : torrent.

Lemma frame_choose c bf av addr fast : frame (choose_block c bf av addr fast).
Proof. unfold choose_block. solve_frame. Qed.

Lemma frame_request w addr index begin : frame (request_block w addr index begin).
Proof. unfold request_block. solve_frame. Qed.

#[export] Hint Resolve frame_choose frame_request : torrent.

Lemma frame_fill_peer c w bf av addr : frame (fill_peer c w bf av addr).
Proof. unfold fill_peer. solve_frame. Qed.

#[export] Hint Resolve frame_fill_peer : torrent.

Lemma frame_fill c w order : frame (fill c w order).
Proof. unfold fill. solve_frame. Qed.

Lemma frame_drop_dead addr : frame (drop_dead addr).
Proof. unfold drop_dead. solve_frame. Qed.

#[export] Hint Resolve frame_drop_dead : torrent.

Lemma frame_expire c now : frame (expire_stale c now).
Proof. unfold expire_stale. solve_frame. Qed.

Lemma frame_unchoke_peer w addr : frame (unchoke_peer w addr).
Proof. unfold unchoke_peer. solve_frame. Qed.

Lemma frame_cancel w addr fast s : frame (cancel_request w addr fast s).
Proof. unfold cancel_request. solve_frame. Qed.

#[export] Hint Resolve frame_unchoke_peer frame_cancel : torrent.

Lemma frame_choke_peer w addr : frame (choke_peer w addr).
Proof. unfold choke_peer. solve_frame. Qed.

#[export] Hint Resolve frame_choke_peer : torrent.

Lemma frame_round c w pick order : frame (run_round c w pick order).
Proof. unfold run_round. solve_frame. Qed.

Lemma frame_send_bitfield x w addr : frame (send_bitfield x w addr).
Proof. unfold send_bitfield. solve_frame. Qed.

Lemma frame_handshake x w addr ids : frame (send_extended_handshake x w addr ids).
Proof. unfold send_extended_handshake. solve_frame. Qed.

#[export] Hint Resolve frame_send_bitfield frame_handshake : torrent.

Lemma frame_register_fresh sha1 c x w addr conn : frame (register_fresh sha1 c x w addr conn).
Proof. unfold register_fresh. solve_frame. Qed.

Lemma frame_register sha1 c x w addr conn : frame (register_new_peer sha1 c x w addr conn).
Proof.
  intros s. unfold register_new_peer. cbn zeta. repeat case_match; try done.
  apply frame_register_fresh.
Qed.

#[export] Hint Resolve frame_register : torrent.

Lemma frame_register_connected sha1 c x w l : frame (register_connected sha1 c x w l).
Proof. unfold register_connected. solve_frame. Qed.

#[export] Hint Resolve frame_register_connected : torrent.

Lemma frame_connect sha1 c x w announced outcomes :
  frame (connect_pending sha1 c x w announced outcomes).
Proof.
  unfold connect_pending. solve_frame.
Qed.

(** ** Uploading leaves the store alone *)

Lemma keeps_store {A} (m : step A) : frame m → keeps store_view m.
Proof. intros Hm s. specialize (Hm s). unfold quiet_view in Hm. congruence. Qed.

Lemma store_send w addr msg : keeps store_view (send_to w addr msg).
Proof. intros s. unfold send_to. repeat case_match; by destruct s. Qed.

#[export] Hint Resolve keeps_store store_send : torrent.

Lemma store_on_request w addr p index begin len : keeps store_view (on_request w addr p index begin len).
Proof. unfold on_request. solve_frame. Qed.

#[export] Hint Resolve store_on_request : torrent.

(** * The invariant of the store *)

Section store.
Context (sha1 : bytes → bytes) (c : SwarmConfig) (base : Z → bool).

(** The bytes have the length and the hash of the piece in the metainfo. *)
Definition verified (index : Z) (data : bytes) : Prop :=
  0 ≤ index ∧ pieces (c_info c) !! Z.to_nat index = Some (sha1 data) ∧
  ∃ len, piece_len_for_index (c_info c) index = Ok len ∧ length data = Z.to_nat len.

(** [base] are the pieces that were on the disk when the swarm started. *)
Definition store_inv (s : SwarmState) : Prop :=
  pm_ok (s_piece_mgr s) ∧
  (∀ i d, (i, d) ∈ s_written s → verified i d) ∧
  (∀ i, 0 ≤ i → has_piece (s_piece_mgr s) i = true → base i = true ∨ ∃ d, (i, d) ∈ s_written s) ∧
  (∀ e, e ∈ s_cache s → e ∈ s_written s) ∧
  (∀ i, PieceCompleted i ∈ s_events s → ∃ d, (i, d) ∈ s_written s).

Definition view_only (P : SwarmState → Prop) : Prop :=
  ∀ s s', store_view s' = store_view s → P s → P s'.

Lemma frame_preserves {A} P (m : step A) : view_only P → keeps store_view m → preserves P m.
Proof. intros HP Hm s Hs. by apply (HP s). Qed.

Lemma view_fields s s' :
  store_view s' = store_view s →
  s_piece_mgr s' = s_piece_mgr s ∧ s_cache s' = s_cache s ∧ s_written s' = s_written s ∧
  ∀ i, PieceCompleted i ∈ s_events s' ↔ PieceCompleted i ∈ s_events s.
Proof.
  intros [= H1 H2 H3 H4]. split; [done|]. split; [done|]. split; [done|].
  intros i. assert (PieceCompleted i ∈ filter (λ e, is_completed e = true) (s_events s') ↔
                    PieceCompleted i ∈ filter (λ e, is_completed e = true) (s_events s)) as H by by rewrite H4.
  rewrite !list_elem_of_filter in H. tauto.
Qed.

Lemma store_inv_view : view_only store_inv.
Proof.
  intros s s' (E1 & E2 & E3 & E4)%view_fields. unfold store_inv. rewrite E1, E2, E3.
  intros (H1 & H2 & H3 & H4 & H5). split_and!; try done. intros i Hi. by apply H5, E4.
Qed.

(** The invariant while piece [index] is being completed with [data]. *)
Definition completing (index : Z) (data : bytes) (s : SwarmState) : Prop :=
  store_inv s ∧ (index, data) ∈ s_written s.

Lemma completing_view index data : view_only (completing index data).
Proof.
  intros s s' Hv [Hi Hw]. split; [by apply (store_inv_view s)|].
  by destruct (view_fields s s' Hv) as (_ & _ & -> & _).
Qed.

Lemma completing_set index data :
  0 ≤ index →
  preserves (completing index data) (modify (λ s, set_piece_mgr (set_piece (s_piece_mgr s) index) s)).
Proof.
  intros Hi s [(H1 & H2 & H3 & H4 & H5) Hw]. destruct s.
  split; [|done]. split; [by apply set_piece_ok|]. split; [done|]. split; [|done].
  cbn. intros j Hj Hp. rewrite has_piece_set in Hp by done.
  destruct (Z.eq_dec j index) as [->|Hne]; [right; by exists data|].
  apply H3; [done|]. cbn. apply orb_true_iff in Hp as [Hp|Hp]; [|done].
  apply bool_decide_eq_true in Hp. lia.
Qed.

Lemma completing_event index data :
  preserves (completing index data) (modify (add_event (PieceCompleted index))).
Proof.
  intros s [(H1 & H2 & H3 & H4 & H5) Hw]. destruct s. split; [|done].
  split_and!; try done. cbn. intros i [Hi|[= ->]%list_elem_of_singleton]%elem_of_app; [by apply H5|].
  by exists data.
Qed.

Lemma completing_cache index data : preserves (completing index data) (cache_piece c index data).
Proof.
  unfold cache_piece. intros s [(H1 & H2 & H3 & H4 & H5) Hw].
  unfold sbind, read, lift, modify. destruct s. cbn in *.
  assert (∀ kept, (∀ e, e ∈ kept → e ∈ s_cache) →
    completing index data (mk_swarm s_piece_mgr s_peer_mgr s_peers s_active s_selector s_upload
      s_uploaded s_wasted (kept ++ [(index, data)]) s_blocked s_files s_events s_sent s_written)) as Hk.
  { intros kept Hsub. split; [|done]. split_and!; try done. cbn.
    intros e [He|He%list_elem_of_singleton]%elem_of_app; [by apply H4, Hsub|by subst]. }
  destruct (_ <=? _)%nat; [|by apply Hk]. destruct s_cache as [|e0 cache']; [done|].
  apply Hk. intros e He. by right.
Qed.

Lemma store_inv_complete w index data :
  verified index data → preserves store_inv (complete_piece c w index data).
Proof.
  intros Hv s Hs. unfold complete_piece, sbind at 1, write_piece.
  destruct (w_write _ _ _ _); [done|].
  assert (completing index data (add_written index data s)) as Hc.
  { destruct Hs as (H1 & H2 & H3 & H4 & H5). destruct s. cbn in *. unfold completing, store_inv. cbn.
    split; [|apply elem_of_app; right; by apply list_elem_of_singleton].
    split; [done|]. split.
    { intros i d [Hi|[= -> ->]%list_elem_of_singleton]%elem_of_app; [by apply H2|done]. }
    split.
    { intros i Hi Hp. destruct (H3 i Hi Hp) as [Hb|[d Hd]]; [by left|]. right. exists d. apply elem_of_app. by left. }
    split.
    { intros e He. apply elem_of_app. left. by apply H4. }
    intros i Hi. destruct (H5 i Hi) as [d Hd]. exists d. apply elem_of_app. by left. }
  refine (proj1 (_ : completing index data _)). revert Hc. generalize (add_written index data s). clear - Hv.
  change (preserves (completing index data)
    (do! _ := modify (λ s, set_piece_mgr (set_piece (s_piece_mgr s) index) s) in
     do! _ := modify (add_event (PieceCompleted index)) in
     do! _ := check_files c in
     do! _ := cache_piece c index data in
     modify (λ s, set_active (delete index (s_active s)) s))).
  apply preserves_bind; [apply completing_set|intros _]. { exact (proj1 Hv). }
  apply preserves_bind; [apply completing_event|intros _].
  apply preserves_bind; [apply frame_preserves; [apply completing_view|auto with torrent]|intros _].
  apply preserves_bind; [apply completing_cache|intros _].
  apply frame_preserves; [apply completing_view|]. apply keeps_store. solve_frame.
Qed.

Lemma frame_store {A} (m : step A) : keeps store_view m → preserves store_inv m.
Proof. apply frame_preserves, store_inv_view. Qed.

#[local] Hint Resolve frame_store : torrent.

Lemma store_inv_verify w index :
  0 ≤ index → preserves store_inv (verify_and_complete_piece sha1 c w index).
Proof.
  intros Hi. unfold verify_and_complete_piece. apply preserves_lift_bind. intros len Hlen.
  destruct (pieces (c_info c) !! Z.to_nat index) as [h|] eqn:Hh; [|auto with torrent].
  apply preserves_bind; [auto with torrent|]. intros active. destruct (active !! index) as [d|]; [|auto with torrent].
  apply preserves_lift_bind. intros data Hd. apply slice_inv in Hd as [Hd Hl].
  unfold verify_piece_hash. destruct (bool_decide (sha1 data = h)) eqn:Hv.
  - apply preserves_bind; [|auto with torrent]. apply store_inv_complete. apply bool_decide_eq_true in Hv.
    split; [done|]. split; [congruence|]. exists len. split; [done|].
    rewrite Hd, length_take, drop_0. lia.
  - apply frame_store, keeps_store. solve_frame.
Qed.

(** The decoder only gives messages in range, see [PeerMessage.peer_message_codec]. *)
Definition event_ok (e : PeerEvent) : Prop :=
  match e with Message msg => message_ok msg | Disconnected => True end.

Lemma store_inv_message w addr msg :
  message_ok msg → preserves store_inv (handle_peer_message sha1 c w addr msg).
Proof.
  intros Hmsg. unfold handle_peer_message. apply preserves_bind; [auto with torrent|]. intros [peer|]; [|auto with torrent].
  destruct msg; try solve [apply frame_store, keeps_store; solve_frame | auto with torrent].
  cbn [message_ok] in Hmsg. unfold on_piece.
  apply preserves_bind; [auto with torrent|intros _].
  apply preserves_bind; [auto with torrent|intros _].
  apply preserves_bind; [auto with torrent|]. intros active.
  destruct (match active !! index with Some d => _ | None => _ end) as [active' complete].
  apply preserves_bind; [apply frame_store, keeps_store; solve_frame|intros _]. destruct complete; [|auto with torrent].
  apply preserves_bind.
  - apply store_inv_verify. apply Hmsg.
  - intros []; auto with torrent.
Qed.

Lemma store_inv_event w addr e : event_ok e → preserves store_inv (handle_peer_event sha1 c w addr e).
Proof.
  intros He. unfold handle_peer_event. destruct e as [msg|]; [|auto with torrent].
  intros s Hs. pose proof (store_inv_message w addr msg He s Hs) as H. unfold or_disconnect.
  destruct (handle_peer_message sha1 c w addr msg s) as [s' [a|e| |]]; try done.
  by apply (frame_store _ (keeps_store _ (frame_disconnect addr))).
Qed.
End store.

#[export] Hint Resolve frame_store : torrent.

(** * Properties that completing a piece cannot break *)

(** [P] depends on the view of the store only, and each change that [complete_piece] makes to it
    keeps [P]. *)
Record core_closed (P : SwarmState → Prop) : Prop := {
  cc_view : view_only P;
  cc_write : ∀ i d s, P s → P (add_written i d s);
  cc_set : ∀ i s, 0 ≤ i → P s → P (set_piece_mgr (set_piece (s_piece_mgr s) i) s);
  cc_event : ∀ i s, P s → P (add_event (PieceCompleted i) s);
  cc_cache : ∀ l s, P s → P (set_cache l s);
}.

Section closed.
Context (sha1 : bytes → bytes) (c : SwarmConfig) (P : SwarmState → Prop) (HP : core_closed P).

Lemma closed_keeps {A} (m : step A) : keeps store_view m → preserves P m.
Proof. apply frame_preserves, HP. Qed.

#[local] Hint Resolve closed_keeps : torrent.

Lemma closed_modify f : (∀ s, P s → P (f s)) → preserves P (modify f).
Proof. intros Hf s Hs. by apply Hf. Qed.

Lemma closed_complete w i d : 0 ≤ i → preserves P (complete_piece c w i d).
Proof.
  intros Hi. unfold complete_piece. apply preserves_bind.
  { intros s Hs. unfold write_piece. destruct (w_write _ _ _ _); [done|]. by apply (cc_write P HP). }
  intros _. apply preserves_bind; [apply closed_modify; intros s Hs; by apply (cc_set P HP)|intros _].
  apply preserves_bind; [apply closed_modify, (cc_event P HP)|intros _].
  apply preserves_bind; [auto with torrent|intros _]. apply preserves_bind.
  - unfold cache_piece. apply preserves_bind; [auto with torrent|intros l].
    apply preserves_bind; [auto with torrent|intros kept]. apply closed_modify, (cc_cache P HP).
  - intros _. apply closed_keeps, keeps_store. solve_frame.
Qed.

Lemma closed_verify w i : 0 ≤ i → preserves P (verify_and_complete_piece sha1 c w i).
Proof.
  intros Hi. unfold verify_and_complete_piece. apply preserves_lift_bind. intros len _.
  destruct (pieces (c_info c) !! Z.to_nat i) as [h|]; [|auto with torrent].
  apply preserves_bind; [auto with torrent|]. intros active. destruct (active !! i) as [d|]; [|auto with torrent].
  apply preserves_lift_bind. intros data _. destruct (verify_piece_hash sha1 data h).
  - apply preserves_bind; [by apply closed_complete|auto with torrent].
  - apply closed_keeps, keeps_store. solve_frame.
Qed.

Lemma closed_message w addr msg : message_ok msg → preserves P (handle_peer_message sha1 c w addr msg).
Proof.
  intros Hmsg. unfold handle_peer_message. apply preserves_bind; [auto with torrent|]. intros [peer|]; [|auto with torrent].
  destruct msg; try solve [apply closed_keeps, keeps_store; solve_frame | auto with torrent].
  cbn [message_ok] in Hmsg. unfold on_piece. do 2 (apply preserves_bind; [auto with torrent|intros _]).
  apply preserves_bind; [auto with torrent|]. intros active.
  destruct (match active !! index with Some d => _ | None => _ end) as [active' complete].
  apply preserves_bind; [apply closed_keeps, keeps_store; solve_frame|intros _]. destruct complete; [|auto with torrent].
  apply preserves_bind; [apply closed_verify; apply Hmsg|]. intros []; auto with torrent.
Qed.

Lemma closed_event w addr e : event_ok e → preserves P (handle_peer_event sha1 c w addr e).
Proof.
  intros He. unfold handle_peer_event. destruct e as [msg|]; [|auto with torrent].
  intros s Hs. pose proof (closed_message w addr msg He s Hs) as H. unfold or_disconnect.
  destruct (handle_peer_message sha1 c w addr msg s) as [s' [a|e| |]]; try done.
  by apply (closed_keeps _ (keeps_store _ (frame_disconnect addr))).
Qed.
End closed.

(** What is stored only grows, and the core does not announce the end of the torrent. *)
Definition store_le (s0 s : SwarmState) : Prop :=
  pm_ok (s_piece_mgr s) ∧
  Piece.num_pieces (s_piece_mgr s) = Piece.num_pieces (s_piece_mgr s0) ∧
  (∀ e, e ∈ s_written s0 → e ∈ s_written s) ∧
  (∀ i, 0 ≤ i → has_piece (s_piece_mgr s0) i = true → has_piece (s_piece_mgr s) i = true) ∧
  (TorrentFinished ∈ s_events s → TorrentFinished ∈ s_events s0).

Lemma store_le_refl s : pm_ok (s_piece_mgr s) → store_le s s.
Proof. intros Hp. by split_and!. Qed.

Lemma store_le_trans s1 s2 s3 : store_le s1 s2 → store_le s2 s3 → store_le s1 s3.
Proof. intros (_ & H2 & H3 & H4 & H5) (K1 & K2 & K3 & K4 & K5). split_and!; auto. congruence. Qed.

Lemma view_finished s s' :
  store_view s' = store_view s → (TorrentFinished ∈ s_events s' ↔ TorrentFinished ∈ s_events s).
Proof.
  intros [= _ _ _ H4].
  assert (TorrentFinished ∈ filter (λ e, is_completed e = true) (s_events s') ↔
          TorrentFinished ∈ filter (λ e, is_completed e = true) (s_events s)) as H by by rewrite H4.
  rewrite !list_elem_of_filter in H. tauto.
Qed.

Lemma store_le_closed s0 : core_closed (store_le s0).
Proof.
  split.
  - intros s s' Hv. destruct (view_fields (λ _, true) s s' Hv) as (E1 & _ & E3 & _). apply view_finished in Hv.
    unfold store_le. rewrite E1, E3, Hv. done.
  - intros i d s (H1 & H2 & H3 & H4 & H5). destruct s. split_and!; try done.
    intros e He. cbn. apply elem_of_app. left. by apply H3.
  - intros i s Hi (H1 & H2 & H3 & H4 & H5). destruct s. unfold store_le. cbn in *. split_and!; try done.
    + by apply set_piece_ok.
    + rewrite <- H2. unfold set_piece. by case_match.
    + intros j Hj Hp. rewrite has_piece_set by done. by rewrite H4, orb_true_r.
  - intros i s (H1 & H2 & H3 & H4 & H5). destruct s. split_and!; try done.
    cbn. intros [|Hi%list_elem_of_singleton]%elem_of_app; [by apply H5|done].
  - intros l s (H1 & H2 & H3 & H4 & H5). by destruct s.
Qed.

Lemma missing_nil pm :
  pm_ok pm → missing_pieces pm = [] ↔ ∀ i, 0 ≤ i < Z.of_nat (Piece.num_pieces pm) → has_piece pm i = true.
Proof.
  intros Hok. unfold missing_pieces, indices_where. split.
  - intros Hf%map_eq_nil i Hi. unfold has_piece. rewrite (proj2 (Nat.ltb_lt _ _)) by lia. cbn [andb].
    destruct (lookup_lt_is_Some_2 (bitfield pm) (Z.to_nat i)) as [b Hb]; [rewrite Hok; lia|].
    rewrite Hb. destruct b; [done|]. exfalso. apply (not_elem_of_nil (Z.to_nat i, false)). rewrite <- Hf.
    apply list_elem_of_filter. split; [done|]. apply list_elem_of_lookup_2 with (Z.to_nat i).
    by rewrite list_lookup_imap, Hb.
  - intros Hall. change (@nil Z) with (map (λ e : nat * bool, as_u32 (Z.of_nat e.1)) []). f_equal. apply elem_of_nil_inv. intros [k b] [Hn Hin]%list_elem_of_filter. cbn in Hn.
    apply list_elem_of_lookup_1 in Hin as [j Hj]. rewrite list_lookup_imap in Hj.
    apply fmap_Some in Hj as (b' & Hb & [= <- <-]). pose proof (lookup_lt_Some _ _ _ Hb) as Hlt.
    rewrite Hok in Hlt. specialize (Hall (Z.of_nat k) ltac:(lia)). unfold has_piece in Hall.
    rewrite Nat2Z.id, Hb in Hall. apply andb_true_iff in Hall as [_ Hall]. cbn in Hall. by subst.
Qed.

Lemma store_le_complete s s' :
  pm_ok (s_piece_mgr s) → store_le s s' → missing_pieces (s_piece_mgr s) = [] → missing_pieces (s_piece_mgr s') = [].
Proof.
  intros Hp (H1 & H2 & _ & H4 & _). rewrite !missing_nil by done. rewrite H2. intros Hm i Hi. apply H4; [lia|]. auto.
Qed.
