(* ===== verification/ExtContext.v ===== *)
(** The interface between the swarm loop and its extensions:
    [crates/torrent/src/session/swarm/extension.rs].

    An extension keeps a state of its own and works on an [ExtContext], the part of the loop that
    [build_context] lends it. The class [SwarmExtension] has the hooks of the trait; the class
    [QuietExtension] states what the loop relies on: a hook leaves what is stored, cached, uploaded
    and announced alone. *)

From stdpp Require Import base numbers list gmap.
From Stdlib Require Import ZArith Lia SpecFloat.
From S2P Require Import Prelude Facts F64 Error Net PeerMessage Piece Metainfo Download Step PeerManager Upload Swarm.
From S2P Require Import SwarmFacts.

(** * What a torrent reports about itself: [TorrentStatus], [TrackerStatus] and [PeerStatus] of
    [crates/torrent/src/session/config.rs]. Durations are integers, [f64]s the model of [F64.v]. *)

Record TorrentStatus : Type := mk_torrent_status {
  ts_info_hash : bytes;
  ts_name : bytes;
  ts_progress : spec_float;
  ts_download_rate : spec_float;
  ts_upload_rate : spec_float;
  ts_num_peers : nat;
  ts_num_seeds : nat;
  ts_state : TorrentState;
  ts_total_size : Z;
  ts_total_downloaded : Z;
  ts_total_uploaded : Z;
  ts_num_pieces : Z;
  ts_pieces_completed : Z;
  ts_bitfield : list bool;
  ts_elapsed : Z;
  ts_error_message : option bytes;
  ts_total_wasted : Z;
  ts_super_seed_active : bool;
  ts_super_seed_remaining : Z;
}.

Record TrackerStatus : Type := mk_tracker_status {
  tr_url : bytes;
  tr_next_announce_in : option Z;
  tr_announce_interval : Z;
  tr_seeds_reported : Z;
  tr_leechers_reported : Z;
  tr_last_error : option bytes;
}.

Record PeerStatus : Type := mk_peer_status {
  ps_addr : SocketAddr;
  ps_client_name : option bytes;
  ps_progress : spec_float;
  ps_download_rate : spec_float;
  ps_upload_rate : spec_float;
  ps_am_choked : bool;
  ps_peer_interested : bool;
}.

#[global] Instance TorrentState_eq_dec : EqDecision TorrentState.
Proof. solve_decision. Defined.

(** Assignments to one or two fields. *)
Definition set_state (x : TorrentState) (t : TorrentStatus) : TorrentStatus :=
  let 'mk_torrent_status a b c d e f g _ i j k l m n o p q r s := t in
  mk_torrent_status a b c d e f g x i j k l m n o p q r s.

Definition set_super_seed (active : bool) (remaining : Z) (t : TorrentStatus) : TorrentStatus :=
  let 'mk_torrent_status a b c d e f g h i j k l m n o p q _ _ := t in
  mk_torrent_status a b c d e f g h i j k l m n o p q active remaining.

Definition set_sizes (total pieces : Z) (t : TorrentStatus) : TorrentStatus :=
  let 'mk_torrent_status a b c d e f g h _ j k _ m n o p q r s := t in
  mk_torrent_status a b c d e f g h total j k pieces m n o p q r s.
(** The mutable part of [SwarmContext]: the piece and peer managers, the peers and the blocked
    requests are fields of the core; the other fields are arguments of the hooks that use them. *)
Record ExtContext : Type := mk_ctx {
  x_core : SwarmState;
  x_status : TorrentStatus;
  x_haves : list Z;
}.

Definition set_core (s : SwarmState) (x : ExtContext) : ExtContext :=
  {| x_core := s; x_status := x_status x; x_haves := x_haves x |}.
Definition set_status (t : TorrentStatus) (x : ExtContext) : ExtContext :=
  {| x_core := x_core x; x_status := t; x_haves := x_haves x |}.
Definition set_haves (l : list Z) (x : ExtContext) : ExtContext :=
  {| x_core := x_core x; x_status := x_status x; x_haves := l |}.

(** A hook is a step on the extension and its context. *)
Abbreviation hook E := (Step.step (E * ExtContext)).

(** A step of the core, as part of a hook. *)
Definition on_core {E A} (m : Swarm.step A) : hook E A := λ '(e, x),
  let '(s, r) := m (x_core x) in ((e, set_core s x), r).

(** A change of the extension itself. *)
Definition update {E} (f : E → E) : hook E unit := modify (λ '(e, x), (f e, x)).

Definition get_self {E A} (f : E → A) : hook E A := read (λ '(e, _), f e).
Definition get_core {E A} (f : SwarmState → A) : hook E A := read (λ '(_, x), f (x_core x)).

(** [trait SwarmExtension]; The metainfo of the context is in the configuration, and the
    storage and the sockets are in the world. *)
Class SwarmExtension (E : Type) : Type := {
  on_start : SwarmConfig → hook E unit;
  on_tick : SwarmConfig → World → hook E unit;
  on_peer_event : SwarmConfig → World → SocketAddr → PeerEvent → hook E unit;
  ext_ltep : E → gmap bytes Z;
  ext_mask : E → bytes → bytes;
}.

(** What every hook leaves alone: the view of [SwarmFacts.quiet_view], the choice of unchoked peers
    and the status, apart from the fields of super seeding. *)
Definition ctx_view (x : ExtContext) := (quiet_view (x_core x), s_upload (x_core x), ts_state (x_status x)).

Definition hook_view {E} (p : E * ExtContext) := ctx_view p.2.

(** A hook that leaves the view alone. *)
Abbreviation quiet_hook := (keeps hook_view).

Class QuietExtension (E : Type) `{SwarmExtension E} : Prop := {
  quiet_start : ∀ c, quiet_hook (on_start c);
  quiet_tick : ∀ c w, quiet_hook (on_tick c w);
  quiet_event : ∀ c w addr e, quiet_hook (on_peer_event c w addr e);
}.

(** * Reasoning about hooks *)

Definition core_view (s : SwarmState) := (quiet_view s, s_upload s).

Lemma quiet_core {E A} (m : Swarm.step A) : keeps core_view m → quiet_hook (on_core (E := E) m).
Proof.
  intros Hm [e x]. specialize (Hm (x_core x)). unfold on_core. destruct (m (x_core x)) as [s r].
  cbn [fst] in *. unfold hook_view, ctx_view, core_view in *. cbn [snd x_core x_status set_core]. congruence.
Qed.

Lemma quiet_update {E} (f : E → E) : quiet_hook (update f).
Proof. intros [e x]. done. Qed.

Lemma quiet_get_self {E A} (f : E → A) : quiet_hook (get_self f).
Proof. by intros [e x]. Qed.

Lemma quiet_get_core {E A} (f : SwarmState → A) : quiet_hook (get_core (E := E) f).
Proof. by intros [e x]. Qed.

Lemma core_send w addr msg : is_upload (addr, msg) = false → keeps core_view (send_to w addr msg).
Proof.
  intros Hm s. pose proof (frame_send w addr msg Hm s) as Hf. unfold core_view. rewrite Hf.
  unfold send_to. repeat case_match; by destruct s.
Qed.

Lemma core_with_peer addr f : keeps core_view (with_peer addr f).
Proof. intros s. unfold with_peer. repeat case_match; by destruct s. Qed.

#[export] Hint Resolve quiet_core quiet_update quiet_get_self quiet_get_core core_send core_with_peer : torrent.
