(* ===== verification/SuperSeed.v ===== *)
(** Super seeding (BEP 16): [crates/torrent/src/session/swarm/super_seed.rs].

    An extension that assigns each piece nobody has to one peer, and that lets only this peer
    request it until the peer confirms it. *)

From stdpp Require Import base numbers list gmap.
From Stdlib Require Import ZArith Lia.
From S2P Require Import Prelude Facts Error Net PeerMessage Piece Metainfo Download PeerManager Upload Step Swarm.
From S2P Require Import Pipeline SwarmFacts ExtContext.

Record SuperSeedExtension : Type := mk_super_seed {
  assignments : gmap Z SocketAddr;
  unrevealed : gset Z;
}.

Definition super_seed_new : SuperSeedExtension := {| assignments := ∅; unrevealed := ∅ |}.

(** How many peers have each piece. *)
Definition ss_availability (n : nat) (peers : gmap SocketAddr PeerInfo) : list nat :=
  foldl (λ avail p, add_bits avail (p_bitfield p)) (replicate n 0%nat) (map snd (map_to_list peers)).

(** The first piece that we have, that no peer has and that is not assigned yet; the search indexes
    the availability, which panics past its end. *)
Fixpoint find_unassigned (e : SuperSeedExtension) (avail : list nat) (i : nat) (ours : list bool)
  : result (option Z) :=
  match ours with
  | [] => Ok None
  | has :: ours' =>
      let idx := as_u32 (Z.of_nat i) in
      if negb has then find_unassigned e avail (S i) ours'
      else
        match avail !! i with
        | None => Panic
        | Some n =>
            if (0 <? n)%nat then find_unassigned e avail (S i) ours'
            else if bool_decide (is_Some (assignments e !! idx)) || bool_decide (idx ∈ unrevealed e)
            then find_unassigned e avail (S i) ours'
            else Ok (Some idx)
        end
  end.

(** An interested peer that does not choke us and that has no assignment. *)
Definition is_target (e : SuperSeedExtension) (peers : gmap SocketAddr PeerInfo) (addr : SocketAddr)
  : bool :=
  match peers !! addr with
  | Some p =>
      peer_interested p && negb (am_choked p)
      && negb (bool_decide (addr ∈ map snd (map_to_list (assignments e))))
  | None => false
  end.

Definition assign_piece (idx : Z) (addr : SocketAddr) (e : SuperSeedExtension) : SuperSeedExtension :=
  {| assignments := <[idx:=addr]> (assignments e); unrevealed := {[idx]} ∪ unrevealed e |}.

Definition release_piece (idx : Z) (e : SuperSeedExtension) : SuperSeedExtension :=
  {| assignments := delete idx (assignments e); unrevealed := unrevealed e ∖ {[idx]} |}.

(** The order in which the peers are tried is the iteration order of the map. *)
Definition select_piece (c : SwarmConfig) (w : World) : hook SuperSeedExtension unit :=
  do! e := get_self id in
  do! peers := get_core s_peers in
  do! our_bf := get_core (λ s, bitfield (s_piece_mgr s)) in
  do! piece := lift (find_unassigned e (ss_availability (Metainfo.num_pieces (c_info c)) peers) 0 our_bf) in
  match piece with
  | None => sret tt
  | Some idx =>
      match List.find (is_target e peers) (w_set_order w (dom peers)) with
      | Some addr => update (assign_piece idx addr)
      | None => sret tt
      end
  end.

Definition ss_on_tick (c : SwarmConfig) (w : World) : hook SuperSeedExtension unit :=
  do! pm := get_core s_piece_mgr in
  do! _ := if bool_decide (missing_pieces pm = []) then select_piece c w else sret tt in
  modify (λ '(e, x),
    (e, set_status (set_super_seed true (as_u32 (Z.of_nat (size (unrevealed e)))) (x_status x)) x)).

(** The pieces assigned to a peer. *)
Definition assigned_to (addr : SocketAddr) (e : SuperSeedExtension) : list Z :=
  map fst (filter (λ p : Z * SocketAddr, p.2 = addr) (map_to_list (assignments e))).

Definition block_request (index : Z) (addr : SocketAddr) (s : SwarmState) : SwarmState :=
  set_blocked ({[(index, addr)]} ∪ s_blocked s) s.

Definition ss_on_peer_event (addr : SocketAddr) (ev : PeerEvent) : hook SuperSeedExtension unit :=
  match ev with
  | Disconnected => update (λ e, foldl (λ e idx, release_piece idx e) e (assigned_to addr e))
  | Message (Request index _ _) =>
      do! e := get_self id in
      if bool_decide (index ∈ unrevealed e) && negb (bool_decide (assignments e !! index = Some addr))
      then on_core (modify (block_request index addr))
      else sret tt
  | Message (Have index) =>
      do! e := get_self id in
      if bool_decide (assignments e !! index = Some addr) then
        do! _ := update (release_piece index) in
        modify (λ '(e, x), (e, set_haves (x_haves x ++ [index]) x))
      else sret tt
  | Message _ => sret tt
  end.

(** The bits of the unrevealed pieces are cleared. *)
Definition ss_mask_bitfield (e : SuperSeedExtension) (bf : bytes) : bytes :=
  foldl (λ bf idx, if (Z.to_nat idx / 8 <? length bf)%nat then clear_msb_bit bf (Z.to_nat idx) else bf)
    bf (elements (unrevealed e)).

#[export] Instance super_seed_extension : SwarmExtension SuperSeedExtension := {
  on_start _ := sret tt;
  on_tick := ss_on_tick;
  on_peer_event _ _ := ss_on_peer_event;
  ext_ltep _ := ∅;
  ext_mask := ss_mask_bitfield;
}.

(** * The extension is quiet *)

Lemma quiet_select c w : quiet_hook (select_piece c w).
Proof.
  unfold select_piece. do 3 (apply keeps_bind; [auto with torrent|intros ?]).
  apply keeps_bind; [auto with torrent|intros [idx|]]; [|auto with torrent].
  destruct (List.find _ _); auto with torrent.
Qed.

#[export] Instance super_seed_quiet : QuietExtension SuperSeedExtension.
Proof.
  split; cbn.
  - auto with torrent.
  - intros c w. unfold ss_on_tick. apply keeps_bind; [auto with torrent|intros pm].
    apply keeps_bind; [case_match; [apply quiet_select|auto with torrent]|intros _].
    intros [e x]. destruct x as [s t l]. by destruct t.
  - intros c w addr [[]|]; cbn [ss_on_peer_event]; auto with torrent;
      (apply keeps_bind; [auto with torrent|intros e]); (case_match; [|auto with torrent]).
    + apply keeps_bind; [auto with torrent|intros _]. by intros [e' x].
    + apply quiet_core. intros s. by destruct s.
Qed.

(** * Invariant: the unrevealed pieces are those assigned, each to a peer of its own *)

Definition ss_ok (e : SuperSeedExtension) : Prop :=
  dom (assignments e) = unrevealed e ∧
  ∀ i j a, assignments e !! i = Some a → assignments e !! j = Some a → i = j.

Lemma super_seed_new_ok : ss_ok super_seed_new.
Proof. split; [done|]. intros i j a H. cbn in H. by rewrite lookup_empty in H. Qed.

Lemma release_piece_ok i e : ss_ok e → ss_ok (release_piece i e).
Proof.
  intros [Hd Hi]. split; cbn [assignments unrevealed release_piece]; [by rewrite dom_delete_L, Hd|].
  intros j k a [_ Hj]%lookup_delete_Some [_ Hk]%lookup_delete_Some. by apply (Hi j k a).
Qed.

Lemma release_pieces_ok l e : ss_ok e → ss_ok (foldl (λ e idx, release_piece idx e) e l).
Proof. revert e. induction l as [|i l IH]; intros e He; cbn [foldl]; [done|]. by apply IH, release_piece_ok. Qed.

Lemma assign_piece_ok i a e :
  a ∉ map snd (map_to_list (assignments e)) → i ∉ unrevealed e → ss_ok e → ss_ok (assign_piece i a e).
Proof.
  intros Ha Hu [Hd Hi]. split; cbn [assignments unrevealed assign_piece].
  - rewrite dom_insert_L, Hd. set_solver.
  - assert (∀ j, assignments e !! j ≠ Some a) as Hn.
    { intros j Hj. apply Ha, list_elem_of_fmap. exists (j, a). split; [done|]. by apply elem_of_map_to_list. }
    intros j k b. rewrite !lookup_insert. case_decide as E1; case_decide as E2; subst; try done.
    + intros [= ->] Hk. by apply Hn in Hk.
    + intros Hj [= ->]. by apply Hn in Hj.
    + by apply Hi.
Qed.

Lemma find_unassigned_free e avail i ours idx :
  find_unassigned e avail i ours = Ok (Some idx) →
  (idx ∉ unrevealed e) ∧ ∃ k, idx = as_u32 (Z.of_nat k) ∧ avail !! k = Some 0%nat ∧
    (i ≤ k)%nat ∧ ours !! (k - i)%nat = Some true.
Proof.
  revert i. induction ours as [|has ours IH]; intros i; cbn [find_unassigned]; [done|].
  assert (find_unassigned e avail (S i) ours = Ok (Some idx) →
    (idx ∉ unrevealed e) ∧ ∃ k, idx = as_u32 (Z.of_nat k) ∧ avail !! k = Some 0%nat ∧
      (i ≤ k)%nat ∧ (has :: ours) !! (k - i)%nat = Some true) as Hc.
  { intros Hj. destruct (IH (S i) Hj) as (H1 & k & H2 & H3 & H4 & H5). split; [done|].
    exists k. split_and!; try done; [lia|]. by replace (k - i)%nat with (S (k - S i)) by lia. }
  destruct has; cbn [negb]; [|by apply Hc].
  destruct (avail !! i) as [n|] eqn:Hn; [|done]. case_bool; [by apply Hc|].
  destruct (_ || _) eqn:Hb; [by apply Hc|]. apply orb_false_iff in Hb as [_ Hu%bool_decide_eq_false].
  intros [= <-]. split; [done|]. exists i. split; [done|]. rewrite Nat.sub_diag.
  split; [|done]. rewrite Hn. f_equal. lia.
Qed.

(** The hooks preserve the invariant. *)
Definition self_ok (p : SuperSeedExtension * ExtContext) : Prop := ss_ok p.1.

Lemma ss_tick_ok c w p : self_ok p → self_ok (ss_on_tick c w p).1.
Proof.
  destruct p as [e x]. intros He. unfold ss_on_tick, sbind at 1. cbn [get_core read].
  unfold sbind. unfold get_core, read.
  assert (∀ r : (SuperSeedExtension * ExtContext) * result unit, self_ok r.1 →
    self_ok (match r with
             | (s', Ok _) => modify (λ '(e, x), (e, set_status (set_super_seed true
                 (as_u32 (Z.of_nat (size (unrevealed e)))) (x_status x)) x)) s'
             | (s', Err k) => (s', Err k) | (s', Panic) => (s', Panic) | (s', NoFuel) => (s', NoFuel)
             end).1) as Hr.
  { intros [[e' x'] [[]|k| |]]; done. }
  apply Hr. case_bool_decide; [|done]. unfold select_piece, sbind, get_self, get_core, read, lift, id.
  destruct (find_unassigned _ _ _ _) as [[idx|]|k| |] eqn:Hf; try done.
  destruct (List.find _ _) as [addr|] eqn:Hfd; [|done]. apply find_some in Hfd as [_ Ht].
  unfold self_ok, update, modify. cbn [fst]. apply assign_piece_ok; [| |done].
  - unfold is_target in Ht. destruct (s_peers (x_core x) !! addr); [|done].
    apply andb_true_iff in Ht as [_ Ht]. by apply negb_true_iff, bool_decide_eq_false in Ht.
  - by apply find_unassigned_free in Hf as [? _].
Qed.

Lemma ss_event_ok addr ev p : self_ok p → self_ok (ss_on_peer_event addr ev p).1.
Proof.
  destruct p as [e x]. intros He. destruct ev as [[]|]; try done; cbn [ss_on_peer_event].
  - unfold sbind, get_self, read, id. case_bool_decide; [|done]. by apply release_piece_ok.
  - unfold sbind, get_self, read, id. by case_match.
  - by apply release_pieces_ok.
Qed.

(** After the hook, a request for an unrevealed piece by another peer is blocked. *)
Lemma ss_request_blocked addr index begin len e x :
  let p := (ss_on_peer_event addr (Message (Request index begin len)) (e, x)).1 in
  p.1 = e ∧
  (index ∈ unrevealed e → assignments e !! index ≠ Some addr → (index, addr) ∈ s_blocked (x_core p.2)) ∧
  s_blocked (x_core x) ⊆ s_blocked (x_core p.2).
Proof.
  cbn. unfold sbind, get_self, read, id. case_match eqn:E.
  - unfold on_core, modify. destruct x as [s t l]. cbn. destruct s. cbn. split; [done|]. split; set_solver.
  - cbn. split; [done|]. split; [|done]. intros Hi Ha.
    apply andb_false_iff in E as [E|E]; [by apply bool_decide_eq_false in E|].
    apply negb_false_iff, bool_decide_eq_true in E. done.
Qed.

(** A bitfield is masked exactly at the unrevealed pieces. *)
Lemma ss_mask_spec e bf j :
  (∀ i, i ∈ unrevealed e → 0 ≤ i) →
  msb_bit (ss_mask_bitfield e bf) j = msb_bit bf j && negb (bool_decide (Z.of_nat j ∈ unrevealed e)).
Proof.
  intros Hpos. unfold ss_mask_bitfield.
  assert (∀ l, (∀ i, i ∈ l → 0 ≤ i) → ∀ bf, msb_bit (foldl (λ bf idx,
      if (Z.to_nat idx / 8 <? length bf)%nat then clear_msb_bit bf (Z.to_nat idx) else bf) bf l) j =
    msb_bit bf j && negb (bool_decide (Z.of_nat j ∈ l))) as Hl.
  { clear. induction l as [|i l IH]; intros Hp bf; cbn [foldl].
    - rewrite bool_decide_false by apply not_elem_of_nil. by rewrite andb_true_r.
    - rewrite IH by (intros k Hk; apply Hp; by right).
      assert (msb_bit (if (Z.to_nat i / 8 <? length bf)%nat then clear_msb_bit bf (Z.to_nat i) else bf) j =
        negb (bool_decide (Z.to_nat i = j)) && msb_bit bf j) as ->.
      { case_bool; [apply msb_bit_clear|]. destruct (bool_decide_reflect (Z.to_nat i = j)) as [E|]; [subst|done].
        cbn. by rewrite msb_bit_out by lia. }
      assert (0 ≤ i) by (apply Hp; left). rewrite (bool_decide_ext (Z.of_nat j ∈ i :: l) (Z.to_nat i = j ∨ Z.of_nat j ∈ l)).
      2: { rewrite elem_of_cons. intuition lia. }
      rewrite bool_decide_or. by destruct (bool_decide (Z.to_nat i = j)), (msb_bit bf j), (bool_decide _). }
  rewrite Hl.
  - f_equal. f_equal. apply bool_decide_ext, elem_of_elements.
  - intros i Hi. by apply Hpos, elem_of_elements.
Qed.
