(* ===== verification/PexExt.v ===== *)
(** Peer exchange in the swarm loop (BEP 11): [crates/torrent/src/session/swarm/pex.rs].

    The extension tells the peers that understand [ut_pex] which other peers are connected and which
    were dropped, and queues the peers it is told about. *)

From stdpp Require Import base numbers list gmap strings.
From Stdlib Require Import ZArith Lia.
From S2P Require Import Prelude Facts Error Bencode Net PeerMessage Compact BencodeFacts Codec Extension Pex Piece.
From S2P Require Import Metainfo Download PeerManager Upload Step Swarm SwarmFacts ExtContext.

Definition UT_PEX : bytes := bs "ut_pex".
Definition UT_PEX_ID : Z := 1.

Record PexExtension : Type := mk_pex_ext {
  pex_interval : Z;
  recently_dropped : list SocketAddr;
}.

Definition pex_ext_new (interval : Z) : PexExtension :=
  {| pex_interval := interval; recently_dropped := [] |}.

Definition set_dropped (l : list SocketAddr) (e : PexExtension) : PexExtension :=
  {| pex_interval := pex_interval e; recently_dropped := l |}.

(** Assignments to the fields of a peer. *)
Definition set_last_pex_sent (now : Z) (p : PeerInfo) : PeerInfo :=
  let 'mk_peer_info a b c d e f g h i j k l m _ o q r s t u := p in
  mk_peer_info a b c d e f g h i j k l m (Some now) o q r s t u.

Definition set_last_pex_received (now : Z) (p : PeerInfo) : PeerInfo :=
  let 'mk_peer_info a b c d e f g h i j k l m n _ q r s t u := p in
  mk_peer_info a b c d e f g h i j k l m n (Some now) q r s t u.

(** The request limit of the remote, capped at the size of the pipeline; a negative limit counts as
    none. *)
Definition reqq_limit (limit : Z) : nat :=
  if limit <? 0 then PIPELINE_SIZE else Nat.min (Z.to_nat limit) PIPELINE_SIZE.

Definition set_negotiated (neg : ExtensionNegotiation) (p : PeerInfo) : PeerInfo :=
  let 'mk_peer_info a b c d e f g h i j k _ m n o q _ _ t u := p in
  mk_peer_info a b c d e f g h i j k (Extension.m neg) m n o
    (match reqq neg with Some limit => reqq_limit limit | None => q end)
    (Extension.v neg) (Extension.metadata_size neg) t u.

(** [last_pex_sent.is_some_and(|t| t.elapsed() < self.interval)]. *)
Definition pex_too_soon (interval now : Z) (p : PeerInfo) : bool :=
  match last_pex_sent p with
  | Some t => now - t <? interval
  | None => false
  end.

(** The message that tells [addr] about the connections and the dropped peers. *)
Definition pex_message (connected dropped : list SocketAddr) (addr : SocketAddr) : PexMessage :=
  let others := filter (λ a, a ≠ addr) connected in
  {| added := take 50 (filter (λ a, is_v4 a = true) others);
     dropped := filter (λ a, is_v4 a = true) dropped;
     added6 := take 50 (filter (λ a, is_v4 a = false) others);
     dropped6 := filter (λ a, is_v4 a = false) dropped |}.

Definition send_one (w : World) (addr : SocketAddr) (dropped : list SocketAddr)
  : hook PexExtension unit :=
  do! e := get_self id in
  do! peer := get_core (λ s, s_peers s !! addr) in
  match peer with
  | None => sret tt
  | Some peer =>
      match remote_extension_ids peer !! UT_PEX with
      | None => sret tt
      | Some pex_id =>
          if pex_too_soon (pex_interval e) (w_now w) peer then sret tt
          else
            do! connected := get_core (λ s, w_conn_order w (connections (s_peer_mgr s))) in
            let payload := Bencode.encode (pex_to_bencode (pex_message connected dropped addr)) in
            do! _ := on_core (send_to w addr (Extended pex_id payload)) in
            on_core (with_peer addr (λ p, Ok (set_last_pex_sent (w_now w) p)))
      end
  end.

(** The peers that understand [ut_pex], in the iteration order of the map. *)
Definition pex_capable (w : World) (s : SwarmState) : list SocketAddr :=
  filter (λ a, match s_peers s !! a with
               | Some p => bool_decide (is_Some (remote_extension_ids p !! UT_PEX))
               | None => false
               end = true) (w_set_order w (dom (s_peers s))).

Definition broadcast (w : World) : hook PexExtension unit :=
  do! dropped_snapshot := get_self recently_dropped in
  do! _ := update (set_dropped []) in
  do! addresses := get_core (pex_capable w) in
  for_each addresses (λ addr,
    ignore_err (send_one w addr (filter (λ a, a ≠ addr) dropped_snapshot))).

(** [decode(data).map_err(|_| ...)]. *)
Definition decode_or (k : ErrorKind) (data : bytes) : result Bencode :=
  match Bencode.decode data with
  | Ok (val, _) => Ok val
  | Err _ => Err k
  | Panic => Panic
  | NoFuel => NoFuel
  end.

Definition negotiation_or (k : ErrorKind) (val : Bencode) : result ExtensionNegotiation :=
  match negotiation_from_bencode val with
  | Err _ => Err k
  | r => r
  end.

Definition handle_ltep_handshake (w : World) (addr : SocketAddr) (data : bytes)
  : hook PexExtension unit :=
  do! val := lift (decode_or PeerInvalidExtendedMessage data) in
  do! neg := lift (negotiation_or PeerInvalidExtendedMessage val) in
  do! peer := get_core (λ s, s_peers s !! addr) in
  match peer with
  | None => sret tt
  | Some _ =>
      do! _ := on_core (with_peer addr (λ p, Ok (set_negotiated neg p))) in
      send_one w addr []
  end.

Definition handle_incoming_pex (w : World) (addr : SocketAddr) (data : bytes)
  : hook PexExtension unit :=
  do! val := lift (decode_or PeerInvalidPexMessage data) in
  do! pex_msg := lift (pex_from_bencode val) in
  do! _ := on_core (modify (λ s, set_peer_mgr (add_peers (added pex_msg) (s_peer_mgr s)) s)) in
  do! _ := on_core (modify (λ s, set_peer_mgr (add_peers (added6 pex_msg) (s_peer_mgr s)) s)) in
  on_core (with_peer addr (λ p, Ok (set_last_pex_received (w_now w) p))).

(** The identifier that we gave [ut_pex] in our handshake with the peer. *)
Definition our_pex_id (s : SwarmState) (addr : SocketAddr) : option Z :=
  match s_peers s !! addr with
  | Some p => our_extension_ids p !! UT_PEX
  | None => None
  end.

Definition pex_on_peer_event (w : World) (addr : SocketAddr) (ev : PeerEvent)
  : hook PexExtension unit :=
  match ev with
  | Disconnected => update (λ e, set_dropped (recently_dropped e ++ [addr]) e)
  | Message (Extended ext_id data) =>
      if ext_id =? 0 then ignore_err (handle_ltep_handshake w addr data)
      else
        do! ours := get_core (λ s, our_pex_id s addr) in
        if bool_decide (ours = Some ext_id) then ignore_err (handle_incoming_pex w addr data)
        else sret tt
  | Message _ => sret tt
  end.

#[export] Instance pex_extension : SwarmExtension PexExtension := {
  on_start _ := sret tt;
  on_tick _ := broadcast;
  on_peer_event _ := pex_on_peer_event;
  ext_ltep _ := {[UT_PEX := UT_PEX_ID]};
  ext_mask _ := id;
}.

(** * The extension is quiet *)

Lemma quiet_send_one w addr dropped : quiet_hook (send_one w addr dropped).
Proof.
  unfold send_one. do 2 (apply keeps_bind; [auto with torrent|intros ?]).
  repeat (case_match; [..|auto with torrent]); try by auto with torrent.
  apply keeps_bind; [auto with torrent|intros connected]. apply keeps_bind; [|auto with torrent].
  by apply quiet_core, core_send.
Qed.

#[export] Hint Resolve quiet_send_one : torrent.

Lemma core_add_peers l : keeps core_view (modify (λ s, set_peer_mgr (add_peers l (s_peer_mgr s)) s)).
Proof. intros s. by destruct s. Qed.

#[export] Hint Resolve core_add_peers : torrent.

#[export] Instance pex_quiet : QuietExtension PexExtension.
Proof.
  split; cbn.
  - auto with torrent.
  - intros _ w. unfold broadcast. do 3 (apply keeps_bind; [auto with torrent|intros ?]).
    apply keeps_for_each. intros addr. apply keeps_ignore. auto with torrent.
  - intros _ w addr [[]|]; cbn [pex_on_peer_event]; auto with torrent.
    case_match; [apply keeps_ignore|apply keeps_bind; [auto with torrent|intros ?]; case_match; [|auto with torrent];
      apply keeps_ignore].
    + unfold handle_ltep_handshake. do 3 (apply keeps_bind; [auto with torrent|intros ?]).
      case_match; [|auto with torrent]. apply keeps_bind; auto with torrent.
    + unfold handle_incoming_pex. do 4 (apply keeps_bind; [auto with torrent|intros ?]). auto with torrent.
Qed.

(** * What peers learn from each other *)

Lemma add_peers_spec l pm :
  manager_ok pm →
  connections (add_peers l pm) = connections pm ∧
  ∀ a, a ∈ waiting (add_peers l pm) ↔ a ∈ waiting pm ∨ (a ∈ l ∧ connections pm !! a = None).
Proof.
  unfold add_peers. revert pm. induction l as [|b l IH]; intros pm Hm; cbn [foldl].
  - split; [done|]. intros a. split; [by left|]. by intros [?|[?%not_elem_of_nil _]].
  - destruct (IH (add_peer pm b) (add_peer_ok b pm Hm)) as [Hc Hw].
    assert (connections (add_peer pm b) = connections pm) as Hc1 by (unfold add_peer; by case_match).
    assert (∀ a, a ∈ waiting (add_peer pm b) ↔ a ∈ waiting pm ∨ (a = b ∧ connections pm !! a = None)) as Hw1.
    { intros a. unfold add_peer. destruct (connections pm !! b) as [c|] eqn:Hb.
      - split; [by left|]. intros [?|[-> ?]]; [done|congruence].
      - destruct (push_unique_reply b (pending pm) (proj1 Hm)) as [_ Hq].
        change (waiting (set_pending (push_unique b (pending pm)).1 pm))
          with (queue (push_unique b (pending pm)).1). rewrite Hq. case_decide as Hin.
        + split; [by left|]. intros [?|[-> _]]; done.
        + rewrite elem_of_app, list_elem_of_singleton. split; (intros [H|H]; [by left|right]); [by rewrite H|by destruct H]. }
    rewrite Hc, Hc1 in *. split; [done|]. intros a. rewrite Hw, Hw1, elem_of_cons. tauto.
Qed.

Lemma Forall_filtered {A} (P Q : A → Prop) `{∀ a, Decision (Q a)} l : Forall P l → Forall P (filter Q l).
Proof. rewrite !Forall_forall. intros Hl a [_ Ha]%list_elem_of_filter. by apply Hl. Qed.

Lemma pex_message_ok connected dropped addr :
  Forall addr_ok connected → addrs_ok dropped → pex_ok (pex_message connected dropped addr).
Proof.
  intros Hc [Hd Hn]. unfold pex_ok, addrs_ok, pex_message, zlen in *. cbn [added Pex.dropped added6 dropped6].
  assert (∀ v4 : bool, Forall addr_ok (take 50 (filter (λ a, is_v4 a = v4) (filter (λ a, a ≠ addr) connected)))) as H1
    by (intros v4; by apply Forall_take, Forall_filtered, Forall_filtered).
  assert (∀ v4 : bool, Forall addr_ok (filter (λ a, is_v4 a = v4) dropped)) as H2
    by (intros v4; by apply Forall_filtered).
  assert (∀ v4 : bool, (length (filter (λ a, is_v4 a = v4) dropped) ≤ length dropped)%nat) as H3
    by (intros v4; apply length_filter).
  pose proof (H3 true). pose proof (H3 false).
  split_and!; auto; rewrite ?length_take; lia.
Qed.

Lemma pex_message_canon connected dropped addr :
  pex_canon (pex_message connected dropped addr) = pex_message connected dropped addr.
Proof.
  assert (∀ l (v6 : bool), Forall (λ a, is_v6 a = v6) l → keep_addrs v6 l = l) as Hk.
  { intros l v6. induction 1 as [|a l Ha _ IH]; [done|]. unfold keep_addrs in *.
    by rewrite filter_cons, decide_True, IH. }
  assert (∀ l (b : bool), Forall (λ a, is_v6 a = negb b) (filter (λ a, is_v4 a = b) l)) as Hf.
  { intros l b. apply Forall_forall. intros a [Ha _]%list_elem_of_filter. unfold is_v6. by rewrite Ha. }
  unfold pex_canon, pex_message. cbn [added Pex.dropped added6 dropped6].
  f_equal; apply Hk; try apply Forall_take; first [apply (Hf _ true)|apply (Hf _ false)].
Qed.

(** The receiving side, for the message of another swarm. *)
Lemma incoming_pex_spec w addr m e x :
  pex_ok m → pex_canon m = m →
  handle_incoming_pex w addr (Bencode.encode (pex_to_bencode m)) (e, x) =
  ((e, set_core ((with_peer addr (λ p, Ok (set_last_pex_received (w_now w) p)))
        (set_peer_mgr (add_peers (added6 m) (add_peers (added m) (s_peer_mgr (x_core x)))) (x_core x))).1 x),
   Ok tt).
Proof.
  intros Hm Hcanon.
  assert (decode_or PeerInvalidPexMessage (Bencode.encode (pex_to_bencode m)) =
    Ok (normalize (pex_to_bencode m))) as Hd.
  { unfold decode_or. rewrite <- (app_nil_r (Bencode.encode _)), decode_encode; [done|].
    by apply wf_dict_sorted, pex_entries_wf. }
  unfold handle_incoming_pex, sbind, lift. rewrite Hd, pex_from_to by done. rewrite Hcanon.
  unfold on_core, modify, with_peer. destruct x as [s t l]. cbn [x_core set_core]. destruct s; cbn.
  by destruct (s_peers !! addr).
Qed.

Definition knows (pm : PeerManager.PeerManager) (a : SocketAddr) : Prop :=
  a ∈ waiting pm ∨ is_Some (connections pm !! a).

(** The peers of one family that a message to [addr] mentions. *)
Definition mentioned (connected : list SocketAddr) (addr : SocketAddr) (v4 : bool) : list SocketAddr :=
  take 50 (filter (λ a, is_v4 a = v4) (filter (λ a, a ≠ addr) connected)).

(** The outcome of [send_one] for a peer that understands [ut_pex] and is connected. *)
Lemma send_one_spec w addr dropped e x p c i :
  s_peers (x_core x) !! addr = Some p → remote_extension_ids p !! UT_PEX = Some i →
  connections (s_peer_mgr (x_core x)) !! addr = Some c →
  pex_too_soon (pex_interval e) (w_now w) p = false →
  (∀ sent msg, w_send w sent addr msg = None) →
  ∃ s', (send_one w addr dropped (e, x) = ((e, set_core s' x), Ok tt)) ∧
    s_sent s' = s_sent (x_core x) ++ [(addr, Extended i (Bencode.encode (pex_to_bencode
      (pex_message (w_conn_order w (connections (s_peer_mgr (x_core x)))) dropped addr))))] ∧
    s_peers s' = <[addr:=set_last_pex_sent (w_now w) p]> (s_peers (x_core x)).
Proof.
  intros Hp Hid Hc Ht Hs. unfold send_one, sbind at 1, get_self, read, id. unfold sbind at 1, get_core, read.
  rewrite Hp, Hid, Ht. unfold sbind, on_core, send_to. rewrite Hc, Hs. unfold with_peer.
  destruct x as [s t l]. destruct s. cbn in *. rewrite Hp. eexists. split; [reflexivity|]. done.
Qed.

(** Peer exchange between two of these swarms. What [send_one] tells a peer that understands
    [ut_pex] is one message, and nothing if the last one is younger than the interval. When the
    other swarm receives this message, it knows (has queued or is connected to) the first fifty
    connections of each family other than itself, forgets nobody and connects to nobody new; and
    right after a message the next one is not sent before the interval is over. *)
Theorem pex_exchange : ∀ w e x addr dropped p c i w' e' x' from p',
  s_peers (x_core x) !! addr = Some p → remote_extension_ids p !! UT_PEX = Some i →
  connections (s_peer_mgr (x_core x)) !! addr = Some c →
  (∀ sent msg, w_send w sent addr msg = None) →
  let connected := w_conn_order w (connections (s_peer_mgr (x_core x))) in
  Forall addr_ok connected → addrs_ok dropped →
  s_peers (x_core x') !! from = Some p' → our_extension_ids p' !! UT_PEX = Some i → i ≠ 0 →
  manager_ok (s_peer_mgr (x_core x')) →
  let '((_, y), r) := send_one w addr dropped (e, x) in
  r = Ok tt ∧
  if pex_too_soon (pex_interval e) (w_now w) p then y = x
  else
    (∃ data, s_sent (x_core y) = s_sent (x_core x) ++ [(addr, Extended i data)] ∧
       let '((_, y'), r') := pex_on_peer_event w' from (Message (Extended i data)) (e', x') in
       r' = Ok tt ∧
       connections (s_peer_mgr (x_core y')) = connections (s_peer_mgr (x_core x')) ∧
       ∀ a, knows (s_peer_mgr (x_core y')) a ↔
            knows (s_peer_mgr (x_core x')) a ∨
            a ∈ mentioned connected addr true ++ mentioned connected addr false) ∧
    ∀ now, now < w_now w + pex_interval e → ∃ q, s_peers (x_core y) !! addr = Some q ∧
      pex_too_soon (pex_interval e) now q = true.
Proof.
  intros w e x addr dropped p c i w' e' x' from p' Hp Hid Hc Hs connected Hok Hd Hp' Hid' Hne Hm.
  destruct (pex_too_soon _ _ p) eqn:Ht.
  - unfold send_one, sbind, get_self, get_core, read, id. rewrite Hp, Hid, Ht. done.
  - destruct (send_one_spec w addr dropped e x p c i Hp Hid Hc Ht Hs) as (s' & -> & Hsent & Hpeers).
    fold connected in Hsent. split; [done|]. split.
    + eexists. split; [exact Hsent|]. cbn [pex_on_peer_event].
      rewrite (proj2 (Z.eqb_neq _ _)) by done. unfold sbind, get_core, read, our_pex_id. rewrite Hp', Hid'.
      rewrite bool_decide_true by done. unfold ignore_err.
      rewrite incoming_pex_spec by (apply pex_message_canon || by apply pex_message_ok).
      split; [done|].
      destruct (add_peers_spec (mentioned connected addr true) (s_peer_mgr (x_core x')) Hm) as [Hc1 Hw1].
      destruct (add_peers_spec (mentioned connected addr false)
        (add_peers (mentioned connected addr true) (s_peer_mgr (x_core x')))
        (add_peers_ok _ _ Hm)) as [Hc2 Hw2].
      assert (∀ f l, s_peer_mgr (x_core (set_core (with_peer from f l).1 x')) = s_peer_mgr l) as Hmgr.
      { intros f l. unfold with_peer. destruct (s_peers l !! from) as [q|]; [destruct (f q)|]; by destruct l. }
      rewrite Hmgr.
      change (s_peer_mgr (set_peer_mgr ?m (x_core x'))) with m.
      change (added6 (pex_message connected dropped addr)) with (mentioned connected addr false).
      change (added (pex_message connected dropped addr)) with (mentioned connected addr true).
      split; [by rewrite Hc2|]. intros a. unfold knows. rewrite Hw2, Hw1, Hc2, Hc1, elem_of_app.
      rewrite <- not_eq_None_Some.
      clear. destruct (connections (s_peer_mgr (x_core x')) !! a) as [c'|]; [|intuition done].
      split; intros _; [left|]; by right.
    + intros now Hnow. change (x_core (set_core s' x)) with s'. rewrite Hpeers, lookup_insert_eq. eexists. split; [done|].
      destruct p. cbn. apply Z.ltb_lt. lia.
Qed.

(** Two swarms with one common peer: the second one learns about it. *)
Definition pex_world : World :=
  {| w_now := 100; w_send := λ _ _ _, None; w_write := λ _ _ _, None;
     w_read := λ _ _ _ len, inr (replicate len 0);
     w_conn_order := λ m, map fst (map_to_list m); w_set_order := elements |}.

(** A peer that gave us the identifiers [ids] and got [ours] from us. *)
Definition pex_peer (ids ours : gmap bytes Z) : PeerInfo :=
  set_negotiated {| Extension.m := ids; v := None; yourip := None; metadata_size := None; reqq := None |}
    (let 'mk_peer_info a b c d e f g h i j k l _ n o q r s t u := peer_info_new in
     mk_peer_info a b c d e f g h i j k l ours n o q r s t u).

Definition pex_context (ids ours : gmap bytes Z) (addr : SocketAddr) (conns : list SocketAddr) : ExtContext :=
  {| x_core :=
       {| s_piece_mgr := pm_new 0;
          s_peer_mgr := with_state (list_to_map (map (λ a, (a, replicate 8 0)) conns)) deque_new ∅
                          (peer_manager_new [] [] 5 10 3 60);
          s_peers := {[addr := pex_peer ids ours]};
          s_active := ∅; s_selector := RarestFirst; s_upload := upload_new 4; s_uploaded := 0;
          s_wasted := 0; s_cache := []; s_blocked := ∅; s_files := ∅; s_events := []; s_sent := [];
          s_written := [] |};
     x_status :=
       {| ts_info_hash := []; ts_name := []; ts_progress := F64.f64_one; ts_download_rate := F64.f64_one;
          ts_upload_rate := F64.f64_one; ts_num_peers := 0; ts_num_seeds := 0; ts_state := Downloading;
          ts_total_size := 0; ts_total_downloaded := 0; ts_total_uploaded := 0; ts_num_pieces := 0;
          ts_pieces_completed := 0; ts_bitfield := []; ts_elapsed := 0; ts_error_message := None;
          ts_total_wasted := 0; ts_super_seed_active := false; ts_super_seed_remaining := 0 |};
     x_haves := [] |}.

Definition pex_ids : gmap bytes Z := {[UT_PEX := 1]}.

Definition pex_there : ExtContext := pex_context pex_ids ∅ (peer_at 2) [peer_at 2; peer_at 3].
Definition pex_here : ExtContext := pex_context ∅ pex_ids (peer_at 1) [].

Lemma pex_exchange_witness :
  ∃ y data, send_one pex_world (peer_at 2) [] (pex_ext_new 60, pex_there) = ((pex_ext_new 60, y), Ok tt) ∧
    s_sent (x_core y) = [(peer_at 2, Extended 1 data)] ∧
    knows (s_peer_mgr (x_core
      (pex_on_peer_event pex_world (peer_at 1) (Message (Extended 1 data)) (pex_ext_new 60, pex_here)).1.2))
      (peer_at 3).
Proof.
  pose proof (pex_exchange pex_world (pex_ext_new 60) pex_there (peer_at 2) []
    (pex_peer pex_ids ∅) (replicate 8 0) 1 pex_world (pex_ext_new 60) pex_here (peer_at 1)
    (pex_peer ∅ pex_ids) ltac:(vm_compute; reflexivity) ltac:(vm_compute; reflexivity)
    ltac:(vm_compute; reflexivity) (λ _ _, eq_refl)) as H.
  cbn zeta in H. specialize (H ltac:(apply (bool_decide_unpack _); vm_compute; exact I)).
  specialize (H ltac:(split; [by apply Forall_nil|by vm_compute])).
  specialize (H ltac:(vm_compute; reflexivity) ltac:(vm_compute; reflexivity) ltac:(done)).
  specialize (H ltac:(split; [apply deque_new_ok|split; [by vm_compute|intros a st; cbn; by rewrite lookup_empty]])).
  destruct (send_one pex_world (peer_at 2) [] (pex_ext_new 60, pex_there)) as [[e y] r] eqn:E.
  assert (e = pex_ext_new 60) as -> by (apply (f_equal (λ q, q.1.1)) in E; vm_compute in E; exact (eq_sym E)).
  destruct H as (-> & (data & Hs & Hr) & _).
  exists y, data. split; [done|]. split; [exact Hs|].
  destruct (pex_on_peer_event _ _ _ _) as [[e' y'] r']. destruct Hr as (_ & _ & Hk).
  apply Hk. right. vm_compute. left.
Defined.

(** A tick forgets the dropped peers even when it tells nobody about them: the loop ticks once a
    second, the interval is a minute, and so most departures are never announced. *)
Lemma tick_forgets_drops w e x :
  (∀ a p, s_peers (x_core x) !! a = Some p → pex_too_soon (pex_interval e) (w_now w) p = true) →
  broadcast w (e, x) = ((set_dropped [] e, x), Ok tt).
Proof.
  intros Ht. unfold broadcast, sbind at 1, get_self, read. unfold sbind at 1, update, modify.
  unfold sbind, get_core, read. generalize (pex_capable w (x_core x)). intros l.
  induction l as [|a l IH]; [done|]. cbn [for_each]. unfold sbind at 1, ignore_err.
  unfold send_one, sbind, get_self, get_core, read, id.
  destruct (s_peers (x_core x) !! a) as [p|] eqn:Hp; [|exact IH].
  destruct (remote_extension_ids p !! UT_PEX); [|exact IH]. cbn [pex_interval set_dropped].
  rewrite (Ht a p Hp). exact IH.
Qed.
