(* ===== verification/WebSeed.v ===== *)
(** Web seeds (BEP 19): [types.rs], [service.rs] and [extension.rs] of
    [crates/torrent/src/session/webseed/].

    The extension spawns a task for each download. A task runs beside the swarm loop and shares the
    piece manager, the storage and the health of the URLs with it, so it is a state machine whose
    states are the points where it waits; the loop and the other tasks may run between two of its
    steps. Durations are in nanoseconds. The [url] and [http] crates, the network and the natural
    logarithm of the platform are parameters. *)

From stdpp Require Import base numbers list gmap strings.
From Stdlib Require Import ZArith Lia SpecFloat.
From S2P Require Import Prelude Facts F64 Error Text Net PeerMessage Piece Metainfo Download Step PeerManager Upload.
From S2P Require Import Swarm SwarmFacts ExtContext.

(** * Gaps of missing pieces: [crates/torrent/src/session/webseed/gap.rs]. *)

(** A gap: its first piece and its length. *)
Abbreviation gap := (Z * Z)%type.

(** The scan keeps the best gap and the gap it is in. *)
Record scan : Type := mk_scan { best_start : option Z; best_size : Z; gap_start : option Z; gap_size : Z }.

Definition scan_new : scan := {| best_start := None; best_size := 0; gap_start := None; gap_size := 0 |}.

(** The end of the current gap. *)
Definition close_gap (start : Z) (g : scan) : scan :=
  if best_size g <? gap_size g then
    {| best_start := Some start; best_size := gap_size g; gap_start := None; gap_size := 0 |}
  else {| best_start := best_start g; best_size := best_size g; gap_start := None; gap_size := 0 |}.

Definition scan_bit (i : Z) (has : bool) (g : scan) : scan :=
  if negb has then
    {| best_start := best_start g; best_size := best_size g;
       gap_start := match gap_start g with None => Some (as_u32 i) | Some s => Some s end;
       gap_size := gap_size g + 1 |}
  else
    match gap_start g with
    | Some start => close_gap start g
    | None => g
    end.

Fixpoint scan_bits (i : Z) (bitfield : list bool) (g : scan) : scan :=
  match bitfield with
  | [] => g
  | has :: bitfield' => scan_bits (i + 1) bitfield' (scan_bit i has g)
  end.

Definition find_largest_gap (bitfield : list bool) : option gap :=
  let g := scan_bits 0 bitfield scan_new in
  let g := match gap_start g with Some start => close_gap start g | None => g end in
  match best_start g with
  | Some s => Some (s, best_size g)
  | None => None
  end.

(** The scan of one file: a gap counts if it is longer than the best one and long enough. *)
Definition better (best : option gap) (min_gap size : Z) : bool :=
  (from_option snd 0 best <? size) && (min_gap <=? size).

Fixpoint scan_file (bitfield : list bool) (min_gap : Z) (idx : Z) (n : nat) (start : option Z) (size : Z)
    (best : option gap) : result (option gap) :=
  match n with
  | O =>
      Ok match start with
         | Some s => if better best min_gap size then Some (s, size) else best
         | None => best
         end
  | S n' =>
      let! has := index bitfield (Z.to_nat idx) in
      if negb has then
        scan_file bitfield min_gap (idx + 1) n' (match start with None => Some idx | Some s => Some s end)
          (size + 1) best
      else
        match start with
        | Some s =>
            scan_file bitfield min_gap (idx + 1) n' None 0
              (if better best min_gap size then Some (s, size) else best)
        | None => scan_file bitfield min_gap (idx + 1) n' None size best
        end
  end.

(** [a / b], which panics for [b = 0]. *)
Definition checked_div_panic (a b : Z) : result Z := if b =? 0 then Panic else Ok (a / b).

Fixpoint scan_files (bitfield : list bool) (piece_length min_gap : Z) (offsets : list FileOffset)
    (best : option gap) : result (option gap) :=
  match offsets with
  | [] => Ok best
  | fo :: offsets' =>
      let! first := checked_div_panic (fo_offset fo) piece_length in
      let! stop := checked_add_panic u64_max (fo_offset fo) (fo_length fo) in
      let! last := checked_div_panic (saturating_sub stop 1) piece_length in
      let first_piece := as_u32 first in
      let last_piece := Z.min (as_u32 last) (as_u32 (saturating_sub (zlen bitfield) 1)) in
      let! best' :=
        scan_file bitfield min_gap first_piece (Z.to_nat (last_piece - first_piece + 1)) None 0 best in
      scan_files bitfield piece_length min_gap offsets' best'
  end.

Definition gap_within_file (bitfield : list bool) (i : Info) (piece_length min_gap : Z)
  : result (option gap) :=
  let! offsets := file_offsets i in
  scan_files bitfield piece_length min_gap offsets None.

(** * The largest gap *)

(** [s, s + n) are missing pieces. *)
Definition missing_run (bits : list bool) (s n : Z) : Prop :=
  0 ≤ s ∧ s + n ≤ zlen bits ∧ ∀ k, s ≤ k < s + n → bits !! Z.to_nat k = Some false.

(** The run is at least as good a gap as [best]: longer, or as long and not after it. *)
Definition beaten (best_start : option Z) (best_size s n : Z) : Prop :=
  n < best_size ∨ n = best_size ∧ ∃ b, best_start = Some b ∧ b ≤ s.

(** The state of the scan after the first [i] bits: the best gap is the first largest one before the
    current gap, which is bounded by a piece we have. *)
Definition scan_ok (bits : list bool) (i : Z) (g : scan) : Prop :=
  0 ≤ best_size g ∧ 0 ≤ gap_size g ≤ i ∧
  match best_start g with
  | Some s => 0 < best_size g ∧ s + best_size g ≤ i - gap_size g ∧ missing_run bits s (best_size g)
  | None => best_size g = 0
  end ∧
  match gap_start g with
  | Some s => 0 < gap_size g ∧ s = i - gap_size g ∧ missing_run bits s (gap_size g)
  | None => gap_size g = 0
  end ∧
  (i = gap_size g ∨ bits !! Z.to_nat (i - gap_size g - 1) = Some true) ∧
  ∀ s n, 0 < n → missing_run bits s n → s + n ≤ i - gap_size g → beaten (best_start g) (best_size g) s n.

(** A run that ends by [i] is before the current gap or inside it. *)
Lemma run_before_or_in bits i g s n :
  scan_ok bits i g → 0 < n → missing_run bits s n → s + n ≤ i →
  s + n ≤ i - gap_size g ∨ i - gap_size g ≤ s.
Proof.
  intros (_ & Hsz & _ & _ & Hb & _) Hn (Hs & _ & Hr) Hle.
  destruct (Z.le_gt_cases (s + n) (i - gap_size g)); [by left|]. right.
  destruct (Z.le_gt_cases (i - gap_size g) s); [done|]. exfalso.
  destruct Hb as [|Hb]; [lia|]. rewrite Hr in Hb by lia. done.
Qed.

Lemma close_gap_ok bits i s g :
  scan_ok bits i g → gap_start g = Some s →
  let g' := close_gap s g in
  gap_start g' = None ∧ gap_size g' = 0 ∧ 0 < best_size g' ∧
  (∃ b, best_start g' = Some b ∧ missing_run bits b (best_size g')) ∧
  ∀ t n, 0 < n → missing_run bits t n → t + n ≤ i → beaten (best_start g') (best_size g') t n.
Proof.
  intros Hg Hs. pose proof (run_before_or_in bits i g) as Hin. specialize (λ t n, Hin t n Hg).
  destruct Hg as (H1 & H2 & H3 & H4 & H5 & H6). rewrite Hs in H4. destruct H4 as (H7 & -> & H8).
  unfold close_gap. destruct (Z.ltb_spec (best_size g) (gap_size g)); cbn [gap_start gap_size best_start best_size].
  - split_and!; try done; [by eexists|]. intros t n Hn Hr Hle.
    destruct (Hin t n Hn Hr Hle) as [Hb|Hb]; [left; destruct (H6 t n Hn Hr Hb) as [|[]]; lia|].
    unfold beaten. destruct (Z.eq_dec n (gap_size g)); [right|left; lia]. split; [done|]. by eexists.
  - destruct (best_start g) as [b|]; [|lia]. destruct H3 as (H3 & H3' & H3'').
    split_and!; try done; [by eexists|]. intros t n Hn Hr Hle.
    destruct (Hin t n Hn Hr Hle) as [Hb|Hb]; [by apply H6|]. unfold beaten.
    destruct (Z.eq_dec n (best_size g)); [right|left; lia]. split; [done|]. exists b. split; [done|]. lia.
Qed.

Lemma scan_bit_ok bits i has g :
  0 ≤ i ≤ u32_max → bits !! Z.to_nat i = Some has → scan_ok bits i g → scan_ok bits (i + 1) (scan_bit i has g).
Proof.
  intros Hi Hb Hg. assert (i < zlen bits) as Hlt by (apply lookup_lt_Some in Hb; unfold zlen; lia).
  pose proof (run_before_or_in bits i g) as Hin. specialize (λ t n, Hin t n Hg).
  unfold scan_bit. destruct has; cbn [negb].
  - assert (∀ s n, 0 < n → missing_run bits s n → s + n ≤ i + 1 → s + n ≤ i) as Hsplit.
    { intros s n Hn (Hs0 & Hs & Hr) Hle. destruct (Z.eq_dec (s + n) (i + 1)); [|lia].
      rewrite Hr in Hb by lia. done. }
    assert (∀ j, j = i + 1 → j - 0 - 1 = i) as Hj by lia.
    destruct (gap_start g) as [s|] eqn:Hs.
    + destruct (close_gap_ok bits i s g Hg Hs) as (E1 & E2 & E3 & (b & E4 & E4') & E5).
      unfold scan_ok. rewrite E1, E2, E4, (Hj _ eq_refl). destruct E4' as (? & ? & ?).
      destruct Hg as (_ & Hsz & Hbest & Hcur & _). rewrite Hs in Hcur.
      split_and!; try done; try lia.
      * unfold close_gap in *. destruct (best_size g <? gap_size g); cbn [best_start best_size] in *.
        -- injection E4 as <-. lia.
        -- rewrite E4 in Hbest. lia.
      * by right.
      * intros t n Hn Hr Hle. rewrite <- E4. apply E5; [done..|]. apply (Hsplit t n); [done..|lia].
    + destruct Hg as (H1 & H2 & H3 & H4 & H5 & H6). rewrite Hs in H4. unfold scan_ok. rewrite Hs, H4 in *.
      rewrite (Hj _ eq_refl). split_and!; try done; try lia.
      * destruct (best_start g); [|done]. destruct H3 as (?&?&?). split_and!; [done|lia|done].
      * by right.
      * intros t n Hn Hr Hle. apply H6; [done..|]. rewrite Z.sub_0_r in *. by apply Hsplit.
  - destruct Hg as (H1 & H2 & H3 & H4 & H5 & H6). unfold scan_ok. cbn [best_start best_size gap_start gap_size].
    replace (i + 1 - (gap_size g + 1)) with (i - gap_size g) by lia. split_and!; try done; try lia.
    + destruct (gap_start g) as [s|].
      * destruct H4 as (? & -> & Hr0 & Hr1 & Hr2). split_and!; [lia|lia|]. split_and!; [lia|lia|].
        intros k Hk. destruct (Z.eq_dec k i) as [->|]; [done|]. apply Hr2. lia.
      * assert (as_u32 i = i) as -> by (unfold as_u32; apply Z.mod_small; lia).
        split_and!; [lia|lia|]. split_and!; [lia|lia|]. intros k Hk. by replace k with i by lia.
    + destruct H5 as [H5|H5]; [left; lia|by right].
Qed.

Lemma scan_bits_ok bits rest i g :
  drop (Z.to_nat i) bits = rest → 0 ≤ i → zlen bits ≤ u32_max + 1 → i ≤ zlen bits →
  scan_ok bits i g → scan_ok bits (zlen bits) (scan_bits i rest g).
Proof.
  revert i g. induction rest as [|has rest IH]; intros i g Hd Hi Hn Hle Hg; cbn [scan_bits].
  - replace (zlen bits) with i; [done|]. apply (f_equal length) in Hd. rewrite length_drop in Hd.
    unfold zlen in *. cbn in Hd. lia.
  - assert (bits !! Z.to_nat i = Some has) as Hb by (rewrite <- (Nat.add_0_r (Z.to_nat i)), <- lookup_drop; by rewrite Hd).
    assert (i < zlen bits) by (apply lookup_lt_Some in Hb; unfold zlen; lia).
    apply IH; [|lia|done|lia|apply scan_bit_ok; [lia|done..]].
    rewrite Z2Nat.inj_add by lia. change (Z.to_nat 1) with 1%nat. rewrite <- drop_drop, Hd. done.
Qed.

Lemma scan_new_ok bits : scan_ok bits 0 scan_new.
Proof.
  unfold scan_ok. cbn. split_and!; try lia. intros s n Hn (Hs & _) Hle. lia.
Qed.

(** [find_largest_gap] finds the first of the largest runs of missing pieces, and nothing exactly
    when no piece is missing. *)
Lemma find_largest_gap_spec bits :
  zlen bits ≤ u32_max + 1 →
  match find_largest_gap bits with
  | Some (s, n) => 0 < n ∧ missing_run bits s n ∧
      ∀ t k, missing_run bits t k → k < n ∨ k = n ∧ s ≤ t
  | None => Forall (λ b, b = true) bits
  end.
Proof.
  intros Hn. assert (0 ≤ zlen bits) by (unfold zlen; lia).
  pose proof (scan_bits_ok bits bits 0 scan_new eq_refl ltac:(lia) Hn ltac:(lia) (scan_new_ok bits)) as Hg.
  unfold find_largest_gap. set (g := scan_bits 0 bits scan_new) in *. clearbody g.
  assert (∀ g', match best_start g' with
                | Some b => 0 < best_size g' ∧ missing_run bits b (best_size g')
                | None => best_size g' = 0
                end → (∀ t n, 0 < n → missing_run bits t n → beaten (best_start g') (best_size g') t n) →
    match (match best_start g' with Some s => Some (s, best_size g') | None => None end) with
    | Some (s, n) => 0 < n ∧ missing_run bits s n ∧ ∀ t k, missing_run bits t k → k < n ∨ k = n ∧ s ≤ t
    | None => Forall (λ b, b = true) bits
    end) as Hend.
  { intros g' Hb Hr. destruct (best_start g') as [b|].
    - destruct Hb as [Hb1 Hb2]. split; [done|]. split; [done|]. intros t k Hk.
      destruct (Z.le_gt_cases k 0); [left; lia|].
      destruct (Hr t k ltac:(lia) Hk) as [|(-> & b' & [= <-] & ?)]; [by left|by right].
    - apply Forall_lookup. intros k [] Hk; [done|]. exfalso. destruct (Hr (Z.of_nat k) 1) as [?|(? & b & ? & _)].
      + lia.
      + apply lookup_lt_Some in Hk as Hlt. split_and!; [lia|unfold zlen; lia|].
        intros j Hj. by replace (Z.to_nat j) with k by lia.
      + lia.
      + done. }
  destruct (gap_start g) as [s|] eqn:Hs.
  - destruct (close_gap_ok bits _ s g Hg Hs) as (_ & _ & E3 & (b & E4 & E4') & E5).
    apply Hend; [rewrite E4; done|]. intros t n Hn0 Hr. apply E5; [done..|]. by destruct Hr as (_ & ? & _).
  - destruct Hg as (H1 & H2 & H3 & H4 & H5 & H6). rewrite Hs in H4. apply Hend.
    + destruct (best_start g); [|done]. by destruct H3 as (? & _ & ?).
    + intros t n Hn0 Hr. apply H6; [done..|]. rewrite H4, Z.sub_0_r. by destruct Hr as (_ & ? & _).
Qed.

(** ** The second search finds nothing when the first one does *)

Lemma scan_file_present bits min_gap idx n best b :
  Forall (λ b, b = true) bits → scan_file bits min_gap idx n None 0 best = Ok b → b = best.
Proof.
  intros Hall. revert idx. induction n as [|n IH]; intros idx; cbn [scan_file]; [by intros [= <-]|].
  unfold index. destruct (bits !! Z.to_nat idx) as [has|] eqn:Hb; [|done]. cbn [obind].
  rewrite Forall_lookup in Hall. rewrite (Hall _ _ Hb). cbn [negb]. apply IH.
Qed.

Lemma scan_files_present bits pl min_gap offsets best b :
  Forall (λ b, b = true) bits → scan_files bits pl min_gap offsets best = Ok b → b = best.
Proof.
  intros Hall. revert best. induction offsets as [|fo offsets IH]; intros best; cbn [scan_files]; [by intros [= <-]|].
  intros H. inv_outcome. subst. apply scan_file_present in E2; [|done]. subst. by apply IH in H.
Qed.

(** Whether a gap is long enough is only asked when no piece is missing at all. *)
Lemma min_gap_is_never_used bits i pl min_gap b :
  zlen bits ≤ u32_max + 1 → find_largest_gap bits = None → gap_within_file bits i pl min_gap = Ok b → b = None.
Proof.
  intros Hn Hf H. pose proof (find_largest_gap_spec bits Hn) as Hs. rewrite Hf in Hs.
  unfold gap_within_file in H. inv_outcome. by eapply scan_files_present.
Qed.
(** What the program uses of the crates [url] and [http]: parsing, the path, joining a relative
    reference, and whether a URL is accepted as the target of a request. *)
Class UrlCrate (Url : Type) : Type := {
  #[global] url_eq_dec :: EqDecision Url;
  url_parse : bytes → option Url;
  url_path : Url → bytes;
  url_join : Url → bytes → option Url;
  request_target : Url → bool;
}.

(** * [types.rs] *)

Record WebSeedConfig : Type := mk_web_config {
  min_gap_pieces : Z;
  max_range_bytes : Z;
  park_threshold : Z;
  park_retry_interval : Z;
}.

Definition web_config_default : WebSeedConfig :=
  {| min_gap_pieces := 4; max_range_bytes := 5 * 1024 * 1024; park_threshold := 5;
     park_retry_interval := 60 * 10 ^ 9 |}.

Record UrlHealth : Type := mk_health {
  ema_throughput : spec_float;
  consecutive_failures : Z;
  download_attempts : Z;
  last_attempt : option Z;
}.

Definition health_default : UrlHealth :=
  {| ema_throughput := f64_of_Z 0; consecutive_failures := 0; download_attempts := 0;
     last_attempt := None |}.

(** [Duration::as_secs_f64]. *)
Definition as_secs_f64 (d : Z) : spec_float :=
  f64_add (f64_of_Z (d / 10 ^ 9)) (f64_div (f64_of_Z (d mod 10 ^ 9)) (f64_of_Z (10 ^ 9))).

(** The literal [0.3]. *)
Definition ALPHA : spec_float := f64_div (f64_of_Z 3) (f64_of_Z 10).

Definition record_success (bytes elapsed now : Z) (h : UrlHealth) : result UrlHealth :=
  let throughput :=
    f64_div (f64_of_Z bytes)
      (f64_max (as_secs_f64 elapsed) (f64_div (f64_of_Z 1) (f64_of_Z 1000))) in
  let ema :=
    if download_attempts h =? 0 then throughput
    else f64_add (f64_mul ALPHA throughput) (f64_mul (f64_sub f64_one ALPHA) (ema_throughput h)) in
  let! attempts := checked_add_panic u64_max (download_attempts h) 1 in
  Ok {| ema_throughput := ema; consecutive_failures := 0; download_attempts := attempts;
        last_attempt := Some now |}.

Definition record_failure (now : Z) (h : UrlHealth) : result UrlHealth :=
  let! failures := checked_add_panic u32_max (consecutive_failures h) 1 in
  let! attempts := checked_add_panic u64_max (download_attempts h) 1 in
  Ok {| ema_throughput := ema_throughput h; consecutive_failures := failures;
        download_attempts := attempts; last_attempt := Some now |}.

Definition should_park (threshold : Z) (h : UrlHealth) : bool := threshold <=? consecutive_failures h.

Definition ready_for_retry_elapsed (now : Z) (h : UrlHealth) : spec_float :=
  match last_attempt h with
  | Some t => as_secs_f64 (now - t)
  | None => f64_of_Z 0
  end.

Definition ready_for_retry (interval now : Z) (h : UrlHealth) : bool :=
  SFleb (as_secs_f64 interval) (ready_for_retry_elapsed now h).

Definition ucb_score (ln : spec_float → spec_float) (total_attempts : Z) (c : spec_float) (h : UrlHealth)
  : spec_float :=
  let n := f64_of_Z (download_attempts h + 1) in
  let bonus :=
    f64_div (f64_mul c (f64_sqrt (ln (f64_of_Z (Z.max total_attempts 1 + 1))))) (f64_sqrt n) in
  f64_add (ema_throughput h) bonus.

(** The bytes from [start_byte] to [end_byte], both included. *)
Record PieceRange : Type := mk_range { start_byte : Z; end_byte : Z }.

Inductive UrlActivity : Type := Active | Parked.

#[global] Instance UrlActivity_eq_dec : EqDecision UrlActivity.
Proof. solve_decision. Defined.

Inductive UrlKind : Type := Directory | Script.

Section web_seed.
Context {Url : Type} `{URL : UrlCrate Url}.

(** [ends_with('/')]. *)
Definition classify (url : Url) : UrlKind :=
  match last (url_path url) with
  | Some b => if b =? 47 then Directory else Script
  | None => Script
  end.

Record UrlState : Type := mk_url_state { url : Url; health : UrlHealth; activity : UrlActivity }.

(** * [service.rs] *)

Definition UCB_EXPLORATION_FACTOR : spec_float := f64_of_Z 100000.

(** [WebSeedService::new]: strings that are not URLs are left out. *)
Definition service_urls (url_strings : list bytes) : list UrlState :=
  omap (λ s, match url_parse s with
             | Some u => Some {| url := u; health := health_default; activity := Active |}
             | None => None
             end) url_strings.

Definition is_candidate (cfg : WebSeedConfig) (now : Z) (s : UrlState) : bool :=
  match activity s with
  | Active => true
  | Parked => ready_for_retry (park_retry_interval cfg) now (health s)
  end.

(** [Iterator::max_by]: of equal elements the last one. *)
Definition max_by {A} (cmp : A → A → comparison) (l : list A) : option A :=
  match l with
  | [] => None
  | x :: l' => Some (foldl (λ x y, match cmp x y with Gt => x | _ => y end) x l')
  end.

(** [partial_cmp(..).unwrap_or(Equal)]. *)
Definition cmp_score (ln : spec_float → spec_float) (total : Z) (a b : UrlState) : comparison :=
  default Eq (SFcompare (ucb_score ln total UCB_EXPLORATION_FACTOR (health a))
                        (ucb_score ln total UCB_EXPLORATION_FACTOR (health b))).

Definition select_best_url (ln : spec_float → spec_float) (cfg : WebSeedConfig) (now : Z)
    (urls : list UrlState) : option Url :=
  let total_attempts := foldl (λ n s, n + download_attempts (health s)) 0 urls in
  let candidates := filter (λ s, is_candidate cfg now s = true) urls in
  url <$> max_by (cmp_score ln total_attempts) candidates.

Definition web_piece_len (i : Info) (index : Z) : result Z :=
  let! total := total_size i in
  let! start := checked_mul_panic index (piece_length i) in
  let! stop := checked_add_panic u64_max start (piece_length i) in
  if total <? stop then checked_sub_panic total start else Ok (piece_length i).

(** For a directory, the URL of the file that the range starts in. *)
Definition build_request_url (u : Url) (i : Info) (kind : UrlKind) (start : Z) : result Url :=
  match kind with
  | Directory =>
      let! offsets := file_offsets i in
      let! file := ok_or (List.find (λ fo, (fo_offset fo <=? start) && (start <? fo_offset fo + fo_length fo))
                            offsets) InvalidInput in
      ok_or (url_join u (join 47 (fo_path file))) InvalidInput
  | Script => Ok u
  end.

(** ** A task *)

(** The locals of [download_and_verify] while it works through the body. *)
Record Transfer : Type := mk_transfer {
  tf_url : Url;
  tf_started : Z;
  tf_start : Z;
  tf_body : bytes;
  tf_offset : Z;
  tf_completed : list Z;
}.

Definition advance (offset : Z) (done : list Z) (t : Transfer) : Transfer :=
  {| tf_url := tf_url t; tf_started := tf_started t; tf_start := tf_start t; tf_body := tf_body t;
     tf_offset := offset; tf_completed := tf_completed t ++ done |}.

(** Where a task waits: to be run, for the answer of the server (with the URL of the request), for
    the lock to look a piece up, for the storage, for the lock to mark the piece, and for the lock
    on the URLs. A task that is over has its result; a panic is one. *)
Inductive WebTask : Type :=
| Spawned (range : PieceRange)
| Requesting (u request_url : Url) (started : Z) (range : PieceRange)
| Scanning (t : Transfer)
| Writing (t : Transfer) (index chunk_end : Z) (chunk : bytes)
| Marking (t : Transfer) (index chunk_end : Z) (chunk : bytes)
| Ending (u : Url) (started : Z) (r : result (list Z))
| Done (r : result (list Z)).

(** [call] up to the request. *)
Definition start_request (ln : spec_float → spec_float) (cfg : WebSeedConfig) (i : Info) (now : Z)
    (urls : list UrlState) (range : PieceRange) : WebTask :=
  match select_best_url ln cfg now urls with
  | None => Done (Err TrackerRequestFailed)
  | Some u =>
      match build_request_url u i (classify u) (start_byte range) with
      | Ok target =>
          if end_byte range <? start_byte range then Done Panic
          else if request_target target then Requesting u target now range
          else Ending u now (Err InvalidInput)
      | Err e => Ending u now (Err e)
      | Panic => Done Panic
      | NoFuel => Done NoFuel
      end
  end.

(** One round of the loop of [download_and_verify], up to the write. *)
Definition next_chunk (sha1 : bytes → bytes) (i : Info) (pm : PieceManager) (t : Transfer)
  : result WebTask :=
  let finish r := Ok (Ending (tf_url t) (tf_started t) r) in
  if zlen (tf_body t) <=? tf_offset t then finish (Ok (tf_completed t))
  else
    let! first := checked_div_panic (tf_start t) (piece_length i) in
    let! rel := checked_div_panic (tf_offset t) (piece_length i) in
    let! piece_index := checked_add_panic u32_max (as_u32 first) (as_u32 rel) in
    let! here := checked_add_panic u64_max (tf_start t) (tf_offset t) in
    let piece_offset := here mod piece_length i in
    let! plen := web_piece_len i piece_index in
    let! stop := checked_add_panic u64_max (tf_offset t) plen in
    let! stop := checked_sub_panic stop piece_offset in
    let chunk_end := Z.min stop (zlen (tf_body t)) in
    let! chunk := slice (tf_body t) (Z.to_nat (tf_offset t)) (Z.to_nat chunk_end) in
    if zlen chunk =? plen then
      if has_piece pm piece_index then Ok (Scanning (advance chunk_end [] t))
      else
        match pieces i !! Z.to_nat piece_index with
        | None => finish (Ok (tf_completed t))
        | Some expected =>
            if bool_decide (sha1 chunk = expected) then Ok (Writing t piece_index chunk_end chunk)
            else finish (Err WebSeedHashMismatch)
        end
    else finish (Ok (tf_completed t)).

(** [iter().map(piece_len).sum()]. *)
Fixpoint sum_lens (i : Info) (acc : Z) (indices : list Z) : result Z :=
  match indices with
  | [] => Ok acc
  | idx :: indices' =>
      let! len := web_piece_len i idx in
      let! acc' := checked_add_panic u64_max acc len in
      sum_lens i acc' indices'
  end.

(** The first URL that is [u] is updated. *)
Fixpoint update_url (u : Url) (f : UrlState → result UrlState) (urls : list UrlState)
  : result (list UrlState) :=
  match urls with
  | [] => Ok []
  | s :: urls' =>
      if decide (url s = u) then let! s' := f s in Ok (s' :: urls')
      else let! urls'' := update_url u f urls' in Ok (s :: urls'')
  end.

Definition update_health (cfg : WebSeedConfig) (bytes elapsed now : Z) (ok : bool) (s : UrlState)
  : result UrlState :=
  if ok then
    let! h := record_success bytes elapsed now (health s) in
    Ok {| url := url s; health := h; activity := Active |}
  else
    let! h := record_failure now (health s) in
    Ok {| url := url s; health := h;
          activity := if should_park (park_threshold cfg) h then Parked else Active |}.

(** The end of [call]. *)
Definition finish_call (cfg : WebSeedConfig) (i : Info) (now : Z) (u : Url) (started : Z)
    (r : result (list Z)) (urls : list UrlState) : result (list UrlState) :=
  let! bytes := match r with Ok indices => sum_lens i 0 indices | _ => Ok 0 end in
  update_url u (update_health cfg bytes (now - started) now (match r with Ok _ => true | _ => false end)) urls.

(** A task that panics is over; the loop goes on. *)
Definition or_panic (r : result WebTask) : WebTask :=
  match r with
  | Ok t => t
  | Err e => Done (Err e)
  | Panic => Done Panic
  | NoFuel => Done NoFuel
  end.

(** One step of a task, with the answer of the server where it waits for one. *)
Definition task_step (sha1 : bytes → bytes) (ln : spec_float → spec_float) (cfg : WebSeedConfig)
    (c : SwarmConfig) (w : World) (reply : result bytes) (urls : list UrlState) (t : WebTask)
    (s : SwarmState) : SwarmState * list UrlState * WebTask :=
  let i := c_info c in
  match t with
  | Spawned range => (s, urls, start_request ln cfg i (w_now w) urls range)
  | Requesting u _ started range =>
      match reply with
      | Ok body =>
          (s, urls, Scanning {| tf_url := u; tf_started := started; tf_start := start_byte range;
                                tf_body := body; tf_offset := 0; tf_completed := [] |})
      | r => (s, urls, Ending u started (match r with Err e => Err e | _ => Panic end))
      end
  | Scanning t => (s, urls, or_panic (next_chunk sha1 i (s_piece_mgr s) t))
  | Writing t index chunk_end chunk =>
      match write_piece w index chunk s with
      | (s', Ok _) => (s', urls, Marking t index chunk_end chunk)
      | (s', Err e) => (s', urls, Ending (tf_url t) (tf_started t) (Err e))
      | (s', _) => (s', urls, Done Panic)
      end
  | Marking t index chunk_end chunk =>
      (set_piece_mgr (set_piece (s_piece_mgr s) index) s, urls, Scanning (advance chunk_end [index] t))
  | Ending u started r =>
      match finish_call cfg i (w_now w) u started r urls with
      | Ok urls' => (s, urls', Done r)
      | _ => (s, urls, Done Panic)
      end
  | Done r => (s, urls, Done r)
  end.

(** * [extension.rs] *)

Record WebSeedExtension : Type := mk_web_seed {
  web_url_strings : list bytes;
  web_config : WebSeedConfig;
  concurrency : nat;
  service : option (list UrlState);
  tasks : list WebTask;
}.

Definition web_seed_new (urls : list bytes) (cfg : WebSeedConfig) (n : nat) : WebSeedExtension :=
  {| web_url_strings := urls; web_config := cfg; concurrency := n; service := None; tasks := [] |}.

Definition set_service (x : option (list UrlState)) (e : WebSeedExtension) : WebSeedExtension :=
  {| web_url_strings := web_url_strings e; web_config := web_config e; concurrency := concurrency e;
     service := x; tasks := tasks e |}.

Definition set_tasks (x : list WebTask) (e : WebSeedExtension) : WebSeedExtension :=
  {| web_url_strings := web_url_strings e; web_config := web_config e; concurrency := concurrency e;
     service := service e; tasks := x |}.

Definition web_on_start : hook WebSeedExtension unit :=
  update (λ e, if bool_decide (web_url_strings e = []) then e
               else set_service (Some (service_urls (web_url_strings e))) e).

Definition is_over (t : WebTask) : bool := match t with Done _ => true | _ => false end.

(** The range of the gap that a new task asks for; [None] when nothing is missing. *)
Definition next_range (cfg : WebSeedConfig) (i : Info) (bitfield : list bool) : result (option PieceRange) :=
  let! gap :=
    match find_largest_gap bitfield with
    | Some g => Ok (Some g)
    | None => gap_within_file bitfield i (piece_length i) (min_gap_pieces cfg)
    end in
  match gap with
  | None => Ok None
  | Some (gap_start, _) =>
      let! start := checked_mul_panic gap_start (piece_length i) in
      let! stop := checked_add_panic u64_max start (max_range_bytes cfg) in
      let! total := total_size i in
      Ok (Some {| start_byte := start; end_byte := saturating_sub (Z.min stop total) 1 |})
  end.

(** [while self.tasks.len() < self.concurrency]: [n] rounds are left. *)
Fixpoint spawn_tasks (n : nat) (c : SwarmConfig) : hook WebSeedExtension unit :=
  match n with
  | O => sret tt
  | S n' =>
      do! e := get_self id in
      match service e with
      | None => sret tt
      | Some _ =>
          do! bf := get_core (λ s, bitfield (s_piece_mgr s)) in
          do! range := lift (next_range (web_config e) (c_info c) bf) in
          match range with
          | None => sret tt
          | Some r =>
              do! _ := update (λ e, set_tasks (tasks e ++ [Spawned r]) e) in
              spawn_tasks n' c
          end
      end
  end.

(** [on_tick]: the tasks that are over are dropped first. *)
Definition web_on_tick (c : SwarmConfig) : hook WebSeedExtension unit :=
  do! _ := update (λ e, set_tasks (filter (λ t, is_over t = false) (tasks e)) e) in
  do! e := get_self id in
  spawn_tasks (concurrency e - length (tasks e)) c.

#[export] Instance web_seed_extension : SwarmExtension WebSeedExtension := {
  on_start _ := web_on_start;
  on_tick c _ := web_on_tick c;
  on_peer_event _ _ _ _ := sret tt;
  ext_ltep _ := ∅;
  ext_mask _ := id;
}.
End web_seed.

Arguments UrlState : clear implicits.
Arguments Transfer : clear implicits.
Arguments WebTask : clear implicits.
Arguments WebSeedExtension : clear implicits.
