(* ===== verification/Uploads.v ===== *)
(** What a swarm uploads: only blocks that were requested, by peers that may request them, and with
    the bytes of the cache or of the storage. *)

From stdpp Require Import base numbers list gmap strings.
From Stdlib Require Import ZArith Lia.
From S2P Require Import Prelude Facts Error Net PeerMessage Piece Metainfo Download PeerManager Upload Step Swarm.
From S2P Require Import SwarmFacts.

(** The blocks that were sent. *)
Definition uploads (s : SwarmState) : list (SocketAddr * PeerMessage) :=
  filter (λ e, is_upload e = true) (s_sent s).

Definition upload_view (s : SwarmState) : list (SocketAddr * PeerMessage) * Z := (uploads s, s_uploaded s).

Lemma keeps_upload {A} (m : step A) : frame m → keeps upload_view m.
Proof. intros Hm s. specialize (Hm s). unfold quiet_view in Hm. unfold upload_view, uploads. congruence. Qed.

#[export] Hint Resolve keeps_upload : torrent.

Lemma upload_write w index data : keeps upload_view (write_piece w index data).
Proof. intros s. unfold write_piece. case_match; by destruct s. Qed.

#[export] Hint Resolve upload_write : torrent.

Lemma upload_cache c index data : keeps upload_view (cache_piece c index data).
Proof. unfold cache_piece. solve_frame. Qed.

Lemma upload_event e : keeps upload_view (modify (add_event e)).
Proof. intros s. by destruct s. Qed.

#[export] Hint Resolve upload_cache upload_event : torrent.

Lemma upload_complete c w index data : keeps upload_view (complete_piece c w index data).
Proof. unfold complete_piece. solve_frame. Qed.

#[export] Hint Resolve upload_complete : torrent.

Lemma upload_verify sha1 c w index : keeps upload_view (verify_and_complete_piece sha1 c w index).
Proof. unfold verify_and_complete_piece. solve_frame. Qed.

#[export] Hint Resolve upload_verify : torrent.

Lemma upload_on_piece sha1 c w addr index begin data :
  keeps upload_view (on_piece sha1 c w addr index begin data).
Proof. unfold on_piece. solve_frame. Qed.

#[export] Hint Resolve upload_on_piece : torrent.

(** The bytes of block [begin, begin + len) of a piece, as the program finds them: in the cache, or
    else in the storage. *)
Definition served (w : World) (s : SwarmState) (index begin len : Z) (data : bytes) : Prop :=
  (∃ cached, (index, cached) ∈ s_cache s ∧ begin ≤ zlen cached ∧
     data = take (Z.to_nat len) (drop (Z.to_nat begin) cached)) ∨
  (∀ cached, (index, cached) ∉ s_cache s) ∧
  w_read w (s_written s) index begin (Z.to_nat len) = inr data.

Lemma block_to_send_spec w index begin len s :
  0 ≤ begin → 0 ≤ len →
  ∃ r, block_to_send w index begin len s = (s, r) ∧ ∀ data, r = Ok data → served w s index begin len data.
Proof.
  intros Hb Hl. unfold block_to_send, sbind, read, lift, sret.
  destruct (List.find _ (s_cache s)) as [[i cached]|] eqn:E.
  - apply find_some in E as [Hin Hi]. cbn in Hi. apply Z.eqb_eq in Hi as ->. apply list_elem_of_In in Hin.
    eexists. split; [reflexivity|]. intros data Hd. apply slice_inv in Hd as [-> Hr]. left. exists cached.
    split; [done|]. split; [unfold zlen; lia|].
    destruct (Nat.le_ge_cases (Z.to_nat (begin + len)) (length cached)) as [Hle|Hge].
    + rewrite Nat.min_l by done. f_equal. lia.
    + rewrite Nat.min_r by done. rewrite !take_ge; [done|rewrite length_drop; lia..].
  - destruct (w_read _ _ _ _ _) as [e|block] eqn:Er; (eexists; split; [reflexivity|]); [done|].
    intros data [= <-]. right. split; [|done]. intros cached Hin.
    apply list_elem_of_In in Hin. eapply find_none in E; [|exact Hin]. cbn in E. lia.
Qed.

Lemma or_disconnect_upload addr m s :
  upload_view (m s).1 = upload_view s → upload_view (or_disconnect addr m s).1 = upload_view s.
Proof.
  unfold or_disconnect. destruct (m s) as [s1 [a|k| |]]; cbn [fst]; intros Hm; try done.
  rewrite <- Hm. apply (keeps_upload _ (frame_disconnect addr)).
Qed.

(** The upload of a block of piece [index] to [addr], from the state [s] to the state [s']. *)
Definition uploaded_block (w : World) (addr : SocketAddr) (index begin len : Z) (s s' : SwarmState)
  : Prop :=
  ∃ peer data, s_peers s !! addr = Some peer ∧
    (addr ∈ unchoked (s_upload s) ∨ index ∈ our_allowed_fast peer) ∧
    (¬ (index, addr) ∈ s_blocked s) ∧ data ≠ [] ∧ served w s index begin len data ∧
    s_uploaded s' = s_uploaded s + zlen data ∧
    uploads s' = uploads s ++ match connections (s_peer_mgr s) !! addr with
                              | Some _ => [(addr, PeerMessage.Piece index begin data)]
                              | None => []
                              end.

Lemma send_block w addr msg s :
  is_upload (addr, msg) = true →
  ∃ s', (send_to w addr msg s = (s', Ok tt) ∧ s_uploaded s' = s_uploaded s ∧ s_peers s' = s_peers s ∧
         uploads s' = uploads s ++ match connections (s_peer_mgr s) !! addr with
                                   | Some _ => [(addr, msg)] | None => [] end) ∨
        ∃ e, send_to w addr msg s = (s, Err e).
Proof.
  intros Hm. unfold send_to. destruct (connections (s_peer_mgr s) !! addr) as [c0|].
  - destruct (w_send w (s_sent s) addr msg) as [e|]; [exists s; right; by exists e|].
    eexists. left. split; [reflexivity|]. destruct s. unfold uploads. cbn.
    by rewrite filter_app, filter_cons, Hm, decide_True, filter_nil.
  - exists s. left. by rewrite app_nil_r.
Qed.

Lemma on_request_uploads w addr peer index begin len s :
  s_peers s !! addr = Some peer → 0 ≤ begin → 0 ≤ len →
  ∃ s' r, on_request w addr peer index begin len s = (s', r) ∧
    (upload_view s' = upload_view s ∨ r = Panic ∨
     r = Ok tt ∧ uploaded_block w addr index begin len s s').
Proof.
  intros Hpeer Hb Hl. unfold on_request. unfold sbind at 1, read at 1, is_unchoked.
  destruct (negb (bool_decide (addr ∈ unchoked (s_upload s))) && _) eqn:Hg; [by do 2 eexists; split; [|left]|].
  unfold sbind at 1, read at 1. destruct (bool_decide ((index, addr) ∈ s_blocked s)) eqn:Hbl;
    [by do 2 eexists; split; [|left]|].
  apply bool_decide_eq_false in Hbl. unfold sbind at 1.
  destruct (block_to_send_spec w index begin len s Hb Hl) as (r & -> & Hserved).
  destruct r as [data|e| |]; try by (do 2 eexists; split; [|left]).
  specialize (Hserved data eq_refl). destruct data as [|b0 data0]; [by do 2 eexists; split; [|left]|].
  set (data := b0 :: data0) in *. unfold sbind at 1.
  destruct (send_block w addr (PeerMessage.Piece index begin data) s eq_refl) as
    (s1 & [(-> & Hu & Hp & Hups)|[e ->]]); [|by do 2 eexists; split; [|left]].
  unfold sbind at 1, read at 1. unfold sbind at 1, lift at 1, checked_add_panic.
  rewrite Hu. destruct (_ <=? _); [|by do 2 eexists; split; [|right; left]].
  unfold sbind at 1, modify at 1, with_peer.
  assert (s_peers (set_uploaded (s_uploaded s + zlen data) s1) !! addr = Some peer) as ->
    by (destruct s1; cbn in *; by rewrite Hp).
  assert (∀ s2, uploads s2 = uploads s1 → s_uploaded s2 = s_uploaded s + zlen data →
    uploaded_block w addr index begin len s s2) as Hdone.
  { intros s2 E1 E2. exists peer, data. split; [done|]. split.
    - apply andb_false_iff in Hg as [Hg|Hg]; apply negb_false_iff, bool_decide_eq_true in Hg; [by left|by right].
    - split; [done|]. split; [done|]. split; [done|]. split; [done|]. by rewrite E1. }
  destruct (add_uploaded_cases (zlen data) peer) as [[p' ->]| ->].
  - do 2 eexists. split; [reflexivity|]. right. right. split; [done|]. apply Hdone; by destruct s1.
  - do 2 eexists. split; [reflexivity|]. right. by left.
Qed.

(** What one event uploads. *)
Lemma event_uploads : ∀ sha1 c w addr e s,
  event_ok e → ((handle_peer_event sha1 c w addr e s).2 ≠ Panic) →
  let s' := (handle_peer_event sha1 c w addr e s).1 in
  (upload_view s' = upload_view s) ∨
  ∃ index begin len, e = Message (Request index begin len) ∧ uploaded_block w addr index begin len s s'.
Proof.
  intros sha1 c w addr e s He Hp s'. unfold s' in *. clear s'.
  destruct e as [msg|]; [|left; apply keeps_upload, frame_disconnect].
  cbn [event_ok handle_peer_event] in *.
  destruct (s_peers s !! addr) as [peer|] eqn:Hpeer.
  2: { left. apply or_disconnect_upload. unfold handle_peer_message, sbind, read. by rewrite Hpeer. }
  assert (∀ k, handle_peer_message sha1 c w addr msg s = k s → keeps upload_view k →
    upload_view (or_disconnect addr (handle_peer_message sha1 c w addr msg) s).1 = upload_view s) as Hk
    by (intros k Ek Hk; apply or_disconnect_upload; rewrite Ek; apply Hk).
  destruct msg as [| | | | | | |index begin len|index begin data| | | | | | | | |];
    try (left; eapply Hk; [unfold handle_peer_message, sbind at 1, read; by rewrite Hpeer|];
         solve [apply keeps_upload; solve_frame | auto with torrent]).
  destruct He as (Hi & Hb & Hl). revert Hp. unfold or_disconnect.
  assert (handle_peer_message sha1 c w addr (Request index begin len) s =
          on_request w addr peer index begin len s) as ->
    by (unfold handle_peer_message, sbind at 1, read; by rewrite Hpeer).
  destruct (on_request_uploads w addr peer index begin len s Hpeer (proj1 Hb) (proj1 Hl)) as
    (s1 & r & -> & [H|[-> |[-> H]]]).
  - intros _. left. destruct r; try done. rewrite (keeps_upload _ (frame_disconnect addr)). done.
  - by intros [].
  - intros _. right. by exists index, begin, len.
Qed.

(** C7: uploads are gated. Whatever a peer sends, an event that does not panic makes the swarm upload
    nothing, unless it is a request of a registered peer that is unchoked or may request the piece by the fast
    extension, and that no extension blocks; then exactly the requested block is sent (if the peer
    is connected), with the bytes of the cached piece or of the storage, and the upload counter
    grows by its length. *)
Theorem uploads_are_gated : ∀ sha1 c w addr e s,
  event_ok e → ((handle_peer_event sha1 c w addr e s).2 ≠ Panic) →
  let s' := (handle_peer_event sha1 c w addr e s).1 in
  (upload_view s' = upload_view s) ∨
  ∃ index begin len, e = Message (Request index begin len) ∧ uploaded_block w addr index begin len s s'.
Proof. exact event_uploads. Qed.

(** A torrent of two four-byte pieces, with one connected and unchoked peer. *)
Definition toy_hash (b : bytes) : bytes := take 20 (b ++ replicate 20 0).

Definition sample_info : Info :=
  {| piece_length := 4; pieces := [toy_hash [1; 2; 3; 4]; toy_hash [5; 6; 7; 8]];
     mode := Single (bs "file") 8; raw_info := RawBytes [] |}.

Definition sample_config : SwarmConfig :=
  {| c_info_hash := toy_hash []; c_info := sample_info; piece_cache_size := 2;
     corrupt_ban_threshold := 10; max_concurrent_pieces := 4; endgame_threshold := 1;
     request_timeout := 30; snub_timeout := 60 |}.

(** Everything that is sent or written succeeds. *)
Definition sample_world : World :=
  {| w_now := 100; w_send := λ _ _ _, None; w_write := λ _ _ _, None;
     w_read := λ _ _ _ len, inr (replicate len 0);
     w_conn_order := λ m, map fst (map_to_list m); w_set_order := elements |}.

Definition sample_peer : SocketAddr := peer_at 6881.

Definition sample_manager_with_peer : PeerManager.PeerManager :=
  with_state {[sample_peer := replicate 8 0]} (PeerManager.deque_new) ∅ (peer_manager_new [] [] 5 10 3 60).

Definition swarm_state (pm : PieceManager) (active : gmap Z ActiveDownload) (u : UploadManager)
    (cache : list (Z * bytes)) (p : PeerInfo) : SwarmState :=
  {| s_piece_mgr := pm; s_peer_mgr := sample_manager_with_peer; s_peers := {[sample_peer := p]};
     s_active := active; s_selector := RarestFirst; s_upload := u; s_uploaded := 0; s_wasted := 0;
     s_cache := cache; s_blocked := ∅; s_files := ∅; s_events := []; s_sent := []; s_written := [] |}.

Definition sample_seed : SwarmState :=
  swarm_state (set_piece (pm_new 2) 0) ∅ (unchoke sample_peer (upload_new 4)) [(0, [1; 2; 3; 4])]
    peer_info_new.

Lemma uploads_are_gated_witness :
  uploaded_block sample_world sample_peer 0 1 2 sample_seed
    (handle_peer_event toy_hash sample_config sample_world sample_peer (Message (Request 0 1 2)) sample_seed).1.
Proof.
  destruct (uploads_are_gated toy_hash sample_config sample_world sample_peer (Message (Request 0 1 2))
              sample_seed) as [H|(i & b & l & [= <- <- <-] & H)].
  - cbn. unfold in_u32. lia.
  - vm_compute. discriminate.
  - exfalso. vm_compute in H. discriminate H.
  - exact H.
Defined.

(** A request that starts past the end of a cached piece stops the swarm loop: the slice of the
    cached bytes panics. Any unchoked peer can send it. *)
Example request_past_cached_piece_panics :
  (handle_peer_event toy_hash sample_config sample_world sample_peer (Message (Request 0 5 1)) sample_seed).2
  = Panic.
Proof. vm_compute. reflexivity. Qed.
