(* ===== verification/SwarmLoop.v ===== *)
(** The run loop of a torrent as a transition system: [SwarmLoop::run] of
    [crates/torrent/src/session/swarm/mod.rs].

    Each branch of the [select!] is a step. The extensions run before the core in the branch of
    peer events; what they hand over (blocked requests, pieces whose [Have] is confirmed) is a
    parameter of the step. Web seeds, which share the piece manager, are not part of this system. *)

From stdpp Require Import base numbers list gmap strings relations.
From Stdlib Require Import ZArith Lia.
From S2P Require Import Prelude Facts Error Net PeerMessage Piece Metainfo Download PeerManager Upload Step Swarm.
From S2P Require Import Pipeline Choke Registration SwarmFacts Uploads.

Section swarm_loop.
Context (sha1 : bytes → bytes) (c : SwarmConfig) (x : Extensions).

(** [Some((addr, event)) = self.peer_msg_rx.recv()]. *)
Definition on_event (w : World) (blocked : gset (Z * SocketAddr)) (confirmed_haves : list Z)
    (order : list SocketAddr) (addr : SocketAddr) (event : PeerEvent) : step unit :=
  do! _ := modify (set_blocked blocked) in
  do! _ := for_each confirmed_haves (λ index, ignore_err (broadcast_have w index)) in
  do! _ := handle_peer_event sha1 c w addr event in
  do! pm := read s_piece_mgr in
  if bool_decide (missing_pieces pm = []) then sret tt
  else ignore_err (fill c w order).

(** A step that does not panic leads from [s] to [s']. *)
Inductive swarm_step (s : SwarmState) : SwarmState → Prop :=
| Step_event w blocked haves order addr event s' :
    event_ok event → on_event w blocked haves order addr event s = (s', Ok tt) → swarm_step s s'
| Step_connect w announced outcomes s' :
    ignore_err (connect_pending sha1 c x w announced outcomes) s = (s', Ok tt) → swarm_step s s'
| Step_inbound w addr conn s' :
    ignore_err (register_new_peer sha1 c x w addr conn) s = (s', Ok tt) → swarm_step s s'
| Step_choke w pick order s' :
    ignore_err (run_round c w pick order) s = (s', Ok tt) → swarm_step s s'
| Step_stale now s' :
    expire_stale c now s = (s', Ok tt) → swarm_step s s'
| Step_announced addrs :
    swarm_step s (set_peer_mgr (add_peers addrs (s_peer_mgr s)) s).

(** A new swarm: what [activate] and [activate_seed] build. *)
Definition swarm_new (pm : PieceManager) (peer_mgr : PeerManager.PeerManager) (max_uploads : Z)
  : SwarmState :=
  {| s_piece_mgr := pm; s_peer_mgr := peer_mgr; s_peers := ∅; s_active := ∅;
     s_selector := RarestFirst; s_upload := upload_new max_uploads; s_uploaded := 0; s_wasted := 0;
     s_cache := []; s_blocked := ∅; s_files := ∅; s_events := []; s_sent := []; s_written := [] |}.

Lemma store_inv_new pm mgr max : pm_ok pm → store_inv sha1 c (has_piece pm) (swarm_new pm mgr max).
Proof.
  intros Hp. split; [done|]. cbn. split; [by intros ?? ?%elem_of_nil|]. split; [by left|].
  split; by intros ? ?%elem_of_nil.
Qed.

Lemma store_inv_on_event base w blocked haves order addr event :
  event_ok event → preserves (store_inv sha1 c base) (on_event w blocked haves order addr event).
Proof.
  intros He. unfold on_event.
  apply preserves_bind; [apply frame_store, keeps_store; solve_frame|intros _].
  apply preserves_bind; [apply frame_store, keeps_store; solve_frame|intros _].
  apply preserves_bind; [by apply store_inv_event|intros _].
  apply preserves_bind; [auto with torrent|intros pm].
  destruct (bool_decide _); [auto with torrent|]. apply frame_store, keeps_store, keeps_ignore, frame_fill.
Qed.

Lemma store_inv_step base s s' :
  swarm_step s s' → store_inv sha1 c base s → store_inv sha1 c base s'.
Proof.
  intros Hstep Hi.
  assert (∀ m, frame m → ∀ s1 (r : result unit), m s = (s1, r) → store_inv sha1 c base s1) as Hf.
  { intros m Hm s1 r E. pose proof (frame_store sha1 c base m (keeps_store m Hm) s Hi) as H. by rewrite E in H. }
  destruct Hstep as [w b h o a e s' He E|w an os s' E|w a cn s' E|w p o s' E|now s' E|addrs].
  - pose proof (store_inv_on_event base w b h o a e He s Hi) as H. by rewrite E in H.
  - eapply Hf, E. apply keeps_ignore, frame_connect.
  - eapply Hf, E. apply keeps_ignore, frame_register.
  - eapply Hf, E. apply keeps_ignore, frame_round.
  - eapply Hf, E. apply frame_expire.
  - by apply (store_inv_view sha1 c base s); [destruct s|].
Qed.

Lemma store_inv_reachable pm mgr max s :
  pm_ok pm → rtc swarm_step (swarm_new pm mgr max) s → store_inv sha1 c (has_piece pm) s.
Proof.
  intros Hp Hr. pose proof (store_inv_new pm mgr max Hp) as Hi. revert Hi.
  induction Hr as [|s1 s2 s3 Hs _ IH]; [done|]. intros Hi. by apply IH, (store_inv_step _ s1).
Qed.
End swarm_loop.

(** C2: a swarm only claims pieces that it has. In every state that the run loop reaches, whatever
    the peers send, a piece that is marked as completed was on the disk at the start or was written
    to the storage; every piece written has the length and the hash that the metainfo gives for it;
    the pieces kept for uploading are among those written; and completion was announced only for
    pieces that were written. *)
Theorem swarm_stores_verified_pieces : ∀ sha1 c x pm mgr max s,
  pm_ok pm → rtc (swarm_step sha1 c x) (swarm_new pm mgr max) s →
  (∀ i, 0 ≤ i → has_piece (s_piece_mgr s) i = true →
     has_piece pm i = true ∨ ∃ d, (i, d) ∈ s_written s) ∧
  (∀ i d, (i, d) ∈ s_written s →
     pieces (c_info c) !! Z.to_nat i = Some (sha1 d) ∧
     ∃ len, piece_len_for_index (c_info c) i = Ok len ∧ length d = Z.to_nat len) ∧
  (∀ i d, (i, d) ∈ s_cache s → (i, d) ∈ s_written s) ∧
  (∀ i, PieceCompleted i ∈ s_events s → ∃ d, (i, d) ∈ s_written s).
Proof.
  intros sha1 c x pm mgr max s Hp Hr.
  pose proof (store_inv_reachable sha1 c x pm mgr max s Hp Hr) as (_ & Hw & Hb & Hc & He).
  split; [done|]. split; [|split; [|done]].
  - intros i d Hin. destruct (Hw i d Hin) as (_ & ? & ?). done.
  - intros i d. apply Hc.
Qed.

Definition no_extensions : Extensions :=
  {| ltep_extensions := ∅; mask_bitfield := id; client_version_string := [] |}.

Definition sample_start : SwarmState := swarm_new (pm_new 2) (peer_manager_new [] [] 5 10 3 60) 4.

(** A peer dials us, sends its bitfield, unchokes us, and sends the first piece. *)
Definition sample_events : list PeerMessage :=
  [Bitfield [192]; Unchoke; PeerMessage.Piece 0 0 [1; 2; 3; 4]].

Definition deliver_message (s : SwarmState) (msg : PeerMessage) : SwarmState :=
  (on_event toy_hash sample_config sample_world ∅ [] [sample_peer] sample_peer (Message msg) s).1.

Definition sample_registered : SwarmState :=
  (ignore_err (register_new_peer toy_hash sample_config no_extensions sample_world sample_peer
                 (replicate 8 0)) sample_start).1.

Definition sample_end : SwarmState := foldl deliver_message sample_registered sample_events.

Fixpoint delivered_ok (s : SwarmState) (msgs : list PeerMessage) : bool :=
  match msgs with
  | [] => true
  | msg :: msgs' =>
      is_ok (on_event toy_hash sample_config sample_world ∅ [] [sample_peer] sample_peer (Message msg) s).2
      && delivered_ok (deliver_message s msg) msgs'
  end.

Lemma deliver_steps msgs s :
  Forall message_ok msgs → delivered_ok s msgs = true →
  rtc (swarm_step toy_hash sample_config no_extensions) s (foldl deliver_message s msgs).
Proof.
  intros HF. revert s. induction HF as [|msg msgs Hm _ IH]; intros s; cbn [delivered_ok foldl].
  - intros _. apply rtc_refl.
  - intros [Ho Hr]%andb_true_iff. eapply rtc_l; [|by apply IH].
    apply (Step_event _ _ _ s sample_world ∅ [] [sample_peer] sample_peer (Message msg) _ Hm).
    unfold deliver_message. destruct (on_event _ _ _ _ _ _ _ _ s) as [s' [[]|e| |]]; done.
Qed.

Lemma sample_run : rtc (swarm_step toy_hash sample_config no_extensions) sample_start sample_end.
Proof.
  eapply rtc_l.
  { apply (Step_inbound _ _ _ sample_start sample_world sample_peer (replicate 8 0) sample_registered).
    vm_compute. reflexivity. }
  apply deliver_steps; [|vm_compute; reflexivity].
  unfold sample_events. repeat constructor; cbn; unfold in_u32, zlen; cbn; try lia.
Qed.

Lemma swarm_stores_verified_pieces_witness :
  has_piece (s_piece_mgr sample_end) 0 = true ∧ ∃ d, (0, d) ∈ s_written sample_end.
Proof.
  assert (has_piece (s_piece_mgr sample_end) 0 = true) as Hh by (vm_compute; reflexivity).
  split; [exact Hh|].
  destruct (swarm_stores_verified_pieces toy_hash sample_config no_extensions (pm_new 2)
    (peer_manager_new [] [] 5 10 3 60) 4 sample_end (pm_new_ok 2) sample_run) as [H _].
  destruct (H 0 ltac:(lia) Hh) as [Hb|Hd]; [|exact Hd].
  exfalso. vm_compute in Hb. discriminate Hb.
Defined.
