(* ===== verification/WebSeedFacts.v ===== *)
(** Web seeds store what the metainfo asks for: the tasks of [WebSeed.v] keep the invariant of the
    store, whatever the servers send, and a server that sends the right bytes completes every piece
    that lies inside the range it was asked for. *)

From stdpp Require Import base numbers list gmap strings.
From Stdlib Require Import ZArith Lia SpecFloat.
From S2P Require Import Prelude Facts F64 Error Net PeerMessage Piece Metainfo Download PeerManager Upload Step Swarm.
From S2P Require Import SwarmFacts Uploads ExtContext WebSeed.

Section facts.
Context {Url : Type} `{URL : UrlCrate Url}.

Lemma quiet_spawn n c : quiet_hook (spawn_tasks (Url := Url) n c).
Proof.
  induction n as [|n IH]; cbn [spawn_tasks]; [auto with torrent|].
  apply keeps_bind; [auto with torrent|intros e]. destruct (service e); [|auto with torrent].
  apply keeps_bind; [auto with torrent|intros bf]. apply keeps_bind; [auto with torrent|intros [r|]];
    [|auto with torrent]. apply keeps_bind; [auto with torrent|]. by intros _.
Qed.

#[export] Instance web_seed_quiet : QuietExtension (WebSeedExtension Url).
Proof.
  split; cbn.
  - intros c. apply quiet_update.
  - intros c w. unfold web_on_tick. apply keeps_bind; [auto with torrent|intros _].
    apply keeps_bind; [auto with torrent|intros e]. apply quiet_spawn.
  - auto with torrent.
Qed.

(** * Safety *)

(** The pieces tile the content. *)
Definition geometry_ok (i : Info) : Prop :=
  ∃ total, total_size i = Ok total ∧ 0 < piece_length i ∧
    (Z.of_nat (Metainfo.num_pieces i) - 1) * piece_length i < total
      ≤ Z.of_nat (Metainfo.num_pieces i) * piece_length i.

Lemma web_piece_len_agrees i idx len :
  geometry_ok i → 0 ≤ idx < Z.of_nat (Metainfo.num_pieces i) → web_piece_len i idx = Ok len →
  piece_len_for_index i idx = Ok len.
Proof.
  intros (total & Ht & Hpl & Hlo & Hhi) Hidx Hlen. unfold web_piece_len in Hlen.
  unfold piece_len_for_index. rewrite (proj2 (Z.leb_gt _ _)) by lia.
  rewrite Ht in *. cbn [obind] in *. destruct (checked_mul_panic _ _) as [start|e| |] eqn:Hm; [|done..].
  cbn [obind] in *. unfold checked_mul_panic in Hm. destruct (_ <=? u64_max); [|done]. injection Hm as <-.
  destruct (checked_add_panic _ _ _) as [stop|e| |] eqn:Ha; [|done..]. cbn [obind] in Hlen.
  unfold checked_add_panic in Ha. destruct (_ <=? u64_max); [|done]. injection Ha as <-.
  unfold checked_sub_panic in Hlen.
  destruct (Z.ltb_spec total (idx * piece_length i + piece_length i)) as [Hlt|Hge].
  - destruct (Z.leb_spec (idx * piece_length i) total); [|done].
    rewrite (proj2 (Z.eqb_eq _ _)) by nia. done.
  - destruct (Z.eqb_spec idx (Z.of_nat (Metainfo.num_pieces i) - 1)); [|done].
    rewrite (proj2 (Z.leb_le _ _)) by lia. injection Hlen as <-. f_equal. nia.
Qed.

Context (sha1 : bytes → bytes) (ln : spec_float → spec_float) (cfg : WebSeedConfig) (c : SwarmConfig).

Definition all_written (s : SwarmState) (l : list Z) : Prop := ∀ i, i ∈ l → ∃ d, (i, d) ∈ s_written s.

(** What holds of a task between two of its steps. *)
Definition task_ok (s : SwarmState) (t : WebTask Url) : Prop :=
  match t with
  | Scanning t => all_written s (tf_completed t)
  | Writing t i _ chunk => all_written s (tf_completed t) ∧ verified sha1 c i chunk
  | Marking t i _ chunk => all_written s (tf_completed t) ∧ 0 ≤ i ∧ (i, chunk) ∈ s_written s
  | Ending _ _ (Ok l) | Done (Ok l) => all_written s l
  | _ => True
  end.

Lemma task_ok_grows s s' t :
  (∀ e, e ∈ s_written s → e ∈ s_written s') → task_ok s t → task_ok s' t.
Proof.
  intros Hsub. assert (∀ l, all_written s l → all_written s' l) as Ha.
  { intros l Hl i Hi. destruct (Hl i Hi) as [d Hd]. exists d. by apply Hsub. }
  destruct t as [| |t|t i e ch|t i e ch|u st [r| | |]|[r| | |]]; cbn; try done; try apply Ha.
  - intros [? ?]. auto.
  - intros (? & ? & ?). auto.
Qed.

Lemma next_chunk_ok s t r :
  geometry_ok (c_info c) → all_written s (tf_completed t) →
  next_chunk sha1 (c_info c) (s_piece_mgr s) t = Ok r → task_ok s r.
Proof.
  intros Hg Ha. unfold next_chunk. case_bool; [by intros [= <-]|]. intros Hr. inv_outcome. subst.
  rename x0 into rel, x into first, x1 into idx, x2 into here, x3 into plen, x4 into stop0, x5 into stop, x6 into chunk.
  assert (0 ≤ idx) as Hidx.
  { unfold checked_add_panic in E1. case_bool; [|done]. injection E1 as <-. unfold as_u32.
    pose proof (Z.mod_pos_bound first (2 ^ 32)). pose proof (Z.mod_pos_bound rel (2 ^ 32)). lia. }
  destruct (zlen chunk =? plen) eqn:Hlen; [|by injection Hr as <-]. apply Z.eqb_eq in Hlen.
  destruct (has_piece _ _).
  { injection Hr as <-. cbn. by rewrite app_nil_r. }
  destruct (pieces (c_info c) !! Z.to_nat idx) as [h|] eqn:Hh; [|by injection Hr as <-].
  case_bool_decide as Hsha; injection Hr as <-; [|done]. split; [done|]. split; [done|].
  split; [congruence|]. exists plen. split.
  - apply web_piece_len_agrees; [done| |done]. apply lookup_lt_Some in Hh. unfold Metainfo.num_pieces. lia.
  - rewrite <- Hlen. unfold zlen. lia.
Qed.

(** One step of a task keeps the invariants of the store and of the task, and only adds to what is
    written; the events, the cache and the uploads are not touched. *)
Lemma task_step_ok base w reply urls t s s' urls' t' :
  geometry_ok (c_info c) → store_inv sha1 c base s → task_ok s t →
  task_step sha1 ln cfg c w reply urls t s = (s', urls', t') →
  store_inv sha1 c base s' ∧ task_ok s' t' ∧ (∀ e, e ∈ s_written s → e ∈ s_written s') ∧
  s_upload s' = s_upload s ∧ s_uploaded s' = s_uploaded s ∧ s_sent s' = s_sent s ∧
  s_events s' = s_events s ∧ s_peers s' = s_peers s ∧
  ∀ i, 0 ≤ i → has_piece (s_piece_mgr s) i = true → has_piece (s_piece_mgr s') i = true.
Proof.
  intros Hg Hs Ht. destruct t as [range|u tgt st range|t|t i e ch|t i e ch|u st r|r]; cbn [task_step].
  - intros [= <- <- <-]. split_and!; try done. unfold start_request. repeat case_match; done.
  - intros E. assert (s' = s) as -> by (by destruct reply; injection E).
    split_and!; try done. destruct reply; injection E as <- <-; try done. by intros i ?%not_elem_of_nil.
  - intros [= <- <- <-]. split_and!; try done.
    destruct (next_chunk _ _ _ t) as [r|k| |] eqn:E; [by eapply next_chunk_ok|done..].
  - cbn in Ht. destruct Ht as [Ha Hv]. unfold write_piece. destruct (w_write w (s_written s) i ch) as [k|].
    { intros [= <- <- <-]. by split_and!. }
    intros [= <- <- <-]. destruct s. cbn.
    split; [|split_and!; try done].
    + destruct Hs as (H1 & H2 & H3 & H4 & H5). unfold store_inv. cbn in *. split_and!; try done.
      * intros j d [Hj|[= -> ->]%list_elem_of_singleton]%elem_of_app; [by apply H2|done].
      * intros j Hj Hp. destruct (H3 j Hj Hp) as [|[d Hd]]; [by left|right]. exists d. apply elem_of_app. by left.
      * intros x Hx. apply elem_of_app. left. by apply H4.
      * intros j Hj. destruct (H5 j Hj) as [d Hd]. exists d. apply elem_of_app. by left.
    + intros j Hj. destruct (Ha j Hj) as [d Hd]. exists d. apply elem_of_app. by left.
    + apply Hv.
    + apply elem_of_app. right. by apply list_elem_of_singleton.
    + intros x Hx. apply elem_of_app. by left.
  - cbn in Ht. destruct Ht as (Ha & Hi & Hw). intros [= <- <- <-]. destruct s. cbn.
    split; [|split_and!; try done].
    + by apply (completing_set sha1 c base i ch Hi (mk_swarm _ _ _ _ _ _ _ _ _ _ _ _ _ _) (conj Hs Hw)).
    + intros j [Hj|Hj]%elem_of_app; [by apply Ha|]. apply list_elem_of_singleton in Hj as ->. by exists ch.
    + intros j Hj Hp. rewrite has_piece_set by (done || apply Hs). by rewrite Hp, orb_true_r.
  - destruct (finish_call _ _ _ _ _ _ _) as [u'|k| |]; intros [= <- <- <-]; by split_and!.
  - intros [= <- <- <-]. by split_and!.
Qed.

Lemma task_step_num w reply urls t s s' urls' t' :
  task_step sha1 ln cfg c w reply urls t s = (s', urls', t') →
  Piece.num_pieces (s_piece_mgr s') = Piece.num_pieces (s_piece_mgr s).
Proof.
  destruct t; cbn [task_step]; try (by intros [= <- <- <-]).
  - by destruct reply; intros [= <- <- <-].
  - unfold write_piece. destruct (w_write _ _ _ _); intros [= <- <- <-]; by destruct s.
  - intros [= <- <- <-]. destruct s. cbn. unfold set_piece. by case_match.
  - destruct (finish_call _ _ _ _ _ _ _); by intros [= <- <- <-].
Qed.

(** * A server that sends the right bytes *)

(** [n] steps of one task, undisturbed. *)
Fixpoint run_task (n : nat) (w : World) (reply : result bytes) (urls : list (UrlState Url))
    (p : SwarmState * WebTask Url) : SwarmState * WebTask Url :=
  match n with
  | O => p
  | S n' =>
      let '(s', _, t') := task_step sha1 ln cfg c w reply urls p.2 p.1 in
      run_task n' w reply urls (s', t')
  end.

Lemma run_task_add n m w reply urls p :
  run_task (n + m) w reply urls p = run_task m w reply urls (run_task n w reply urls p).
Proof.
  revert p. induction n as [|n IH]; intros p; cbn [Nat.add run_task]; [done|].
  destruct (task_step _ _ _ _ _ _ _ _ _) as [[s' u'] t']. apply IH.
Qed.

(** A content of the right size and hashes, and the piece [i] of it. *)
Definition content_ok (content : bytes) : Prop :=
  total_size (c_info c) = Ok (zlen content) ∧ 0 < piece_length (c_info c) ∧
  zlen content + piece_length (c_info c) ≤ u64_max ∧
  let n := Z.of_nat (Metainfo.num_pieces (c_info c)) in
  n ≤ u32_max ∧
  (n - 1) * piece_length (c_info c) < zlen content ≤ n * piece_length (c_info c) ∧
  ∀ i, 0 ≤ i < n → pieces (c_info c) !! Z.to_nat i =
    Some (sha1 (take (Z.to_nat (piece_length (c_info c)))
                  (drop (Z.to_nat (i * piece_length (c_info c))) content))).

Definition piece_at (content : bytes) (i : Z) : bytes :=
  take (Z.to_nat (piece_length (c_info c))) (drop (Z.to_nat (i * piece_length (c_info c))) content).

(** The pieces that lie inside the bytes received, from piece [g] on. *)
Definition covered (g : Z) (content body : bytes) (i : Z) : bool :=
  let pl := piece_length (c_info c) in
  (g <=? i) && (i <? Z.of_nat (Metainfo.num_pieces (c_info c)))
  && (Z.min ((i + 1) * pl) (zlen content) <=? g * pl + zlen body).

Lemma take_same {A} (a b : nat) (l : list A) :
  Nat.min a (length l) = Nat.min b (length l) → take a l = take b l.
Proof.
  intros E. destruct (Nat.le_ge_cases (length l) a), (Nat.le_ge_cases (length l) b).
  - by rewrite !take_ge.
  - replace b with (length l) by lia. by rewrite !take_ge.
  - replace a with (length l) by lia. by rewrite !take_ge.
  - by replace a with b by lia.
Qed.

Lemma chunk_count (pl P Pg : Z) (len L : nat) :
  0 < pl → 0 ≤ Pg ≤ P → P < Z.of_nat len →
  Z.min (P + pl) (Z.of_nat len) ≤ Pg + Z.of_nat (Nat.min L (len - Z.to_nat Pg)) →
  Nat.min (Nat.min (Z.to_nat (Z.min (P + pl) (Z.of_nat len) - Pg) - Z.to_nat (P - Pg)) (L - Z.to_nat (P - Pg)))
    (len - Z.to_nat P) = Nat.min (Z.to_nat pl) (len - Z.to_nat P).
Proof. intros. lia. Qed.

Lemma next_chunk_of_content content g (u : Url) st L idx done pm :
  content_ok content → 0 ≤ g ≤ idx → g < Z.of_nat (Metainfo.num_pieces (c_info c)) →
  let pl := piece_length (c_info c) in
  let body := take L (drop (Z.to_nat (g * pl)) content) in
  let t := {| tf_url := u; tf_started := st; tf_start := g * pl; tf_body := body;
              tf_offset := Z.min (idx * pl) (zlen content) - g * pl; tf_completed := done |} in
  let next := Z.min ((idx + 1) * pl) (zlen content) - g * pl in
  idx ≤ Z.of_nat (Metainfo.num_pieces (c_info c)) →
  next_chunk sha1 (c_info c) pm t =
  Ok (if covered g content body idx then
        if has_piece pm idx then Scanning (advance next [] t)
        else Writing t idx next (piece_at content idx)
      else Ending u st (Ok done)).
Proof.
  intros (Htot & Hpl & Hmax & Hn & Hfit & Hhash) Hg Hgn pl body t next Hidx.
  set (n := Z.of_nat (Metainfo.num_pieces (c_info c))) in *. unfold next_chunk.
  cbn [tf_body tf_offset tf_url tf_started tf_start tf_completed t].
  assert (g * pl ≤ idx * pl) as Hmono by nia.
  assert (0 ≤ g * pl < zlen content) as Hg0 by nia.
  assert (zlen body ≤ Z.max 0 (zlen content - g * pl)) as Hbody.
  { unfold body, zlen. rewrite length_take, length_drop. lia. }
  destruct (Z.leb_spec (zlen body) (Z.min (idx * pl) (zlen content) - g * pl)) as [Hend|Hlt].
  - unfold covered. fold pl. fold n. destruct (Z.leb_spec (Z.min ((idx + 1) * pl) (zlen content)) (g * pl + zlen body)) as [Hc|];
      [|by rewrite !andb_false_r].
    rewrite (proj2 (Z.ltb_ge idx n)); [by rewrite andb_false_r|].
    destruct (Z.le_gt_cases n idx) as [|Hin]; [done|]. exfalso. assert (idx * pl < zlen content) by nia. lia.
  - assert (idx * pl < zlen content) as Hstart by lia. assert (idx < n) as Hin by nia.
    rewrite Z.min_l in * by lia.
    assert (∀ a, 0 ≤ a < n → as_u32 a = a) as Hu by (intros a Ha; unfold as_u32; apply Z.mod_small; lia).
    unfold checked_div_panic. fold pl. rewrite (proj2 (Z.eqb_neq pl 0)) by lia. cbn [obind].
    rewrite Z.div_mul by lia. replace (idx * pl - g * pl) with ((idx - g) * pl) by ring.
    rewrite Z.div_mul, !Hu by lia. cbn [obind]. unfold checked_add_panic.
    rewrite (proj2 (Z.leb_le (g + (idx - g)) _)) by lia. cbn [obind].
    replace (g + (idx - g)) with idx by ring. replace (g * pl + (idx - g) * pl) with (idx * pl) by ring.
    rewrite (proj2 (Z.leb_le (idx * pl) u64_max)) by lia. cbn [obind]. rewrite Z.mod_mul by lia.
    assert (web_piece_len (c_info c) idx = Ok (Z.min ((idx + 1) * pl) (zlen content) - idx * pl)) as Hlen.
    { unfold web_piece_len. rewrite Htot. cbn [obind]. unfold checked_mul_panic, checked_add_panic, checked_sub_panic.
      fold pl. rewrite (proj2 (Z.leb_le (idx * pl) u64_max)) by lia. cbn [obind].
      rewrite (proj2 (Z.leb_le (idx * pl + pl) u64_max)) by lia. cbn [obind].
      rewrite (proj2 (Z.leb_le (idx * pl) (zlen content))) by lia.
      destruct (Z.ltb_spec (zlen content) (idx * pl + pl)); do 2 f_equal; lia. }
    rewrite Hlen. cbn [obind].
    rewrite (proj2 (Z.leb_le _ u64_max)) by lia. cbn [obind]. unfold checked_sub_panic.
    rewrite (proj2 (Z.leb_le 0 _)) by lia. cbn [obind].
    replace ((idx - g) * pl + (Z.min ((idx + 1) * pl) (zlen content) - idx * pl) - 0) with next by (unfold next; lia).
    assert (0 ≤ (idx - g) * pl < zlen body) as Hoff by lia.
    assert ((idx - g) * pl < next) as Hnext by (unfold next; lia).
    unfold slice. rewrite (proj2 (Nat.leb_le _ _)) by lia.
    rewrite (proj2 (Nat.leb_le _ (length body))) by (unfold zlen in *; lia). cbn [andb obind].
    set (chunk := take _ (drop _ body)).
    assert (zlen chunk = Z.min next (zlen body) - (idx - g) * pl) as Hcl.
    { unfold chunk, zlen in *. rewrite length_take, length_drop. lia. }
    rewrite Hcl. unfold covered. fold pl. fold n.
    rewrite (proj2 (Z.leb_le g idx)), (proj2 (Z.ltb_lt idx n)) by lia. cbn [andb].
    destruct (Z.leb_spec (Z.min ((idx + 1) * pl) (zlen content)) (g * pl + zlen body)) as [Hc|Hc].
    + rewrite (proj2 (Z.eqb_eq _ _)) by (unfold next in *; lia). rewrite Z.min_l by (unfold next; lia).
      destruct (has_piece pm idx); [done|]. rewrite Hhash by lia.
      assert (chunk = piece_at content idx) as ->.
      { unfold chunk, piece_at. rewrite (Z.min_l next) by (unfold next; lia). unfold body. fold pl. rewrite skipn_firstn_comm, take_take, drop_drop.
        replace (Z.to_nat (g * pl) + Z.to_nat ((idx - g) * pl))%nat with (Z.to_nat (idx * pl)) by lia.
        apply take_same. rewrite length_drop. unfold next, zlen.
        replace ((idx + 1) * pl) with (idx * pl + pl) by ring. replace ((idx - g) * pl) with (idx * pl - g * pl) by ring.
        apply chunk_count; [done|lia|done|].
        revert Hc. unfold body, zlen. rewrite length_take, length_drop.
        replace ((idx + 1) * pl) with (idx * pl + pl) by ring. done. }
      by rewrite bool_decide_true.
    + rewrite (proj2 (Z.eqb_neq _ _)) by (unfold next in *; lia). done.
Qed.

(** What a run from [s] to [s'] completes: the pieces of [l], with their content. *)
Definition completes (content : bytes) (l : list Z) (s s' : SwarmState) : Prop :=
  (∀ i, 0 ≤ i → has_piece (s_piece_mgr s') i = has_piece (s_piece_mgr s) i || bool_decide (i ∈ l)) ∧
  (∀ i, i ∈ l → (i, piece_at content i) ∈ s_written s') ∧
  (∀ e, e ∈ s_written s → e ∈ s_written s') ∧
  pm_ok (s_piece_mgr s') ∧ Piece.num_pieces (s_piece_mgr s') = Piece.num_pieces (s_piece_mgr s).

Lemma completes_refl content s : pm_ok (s_piece_mgr s) → completes content [] s s.
Proof.
  intros Hp. split_and!; try done; [|by intros i ?%not_elem_of_nil].
  intros i _. rewrite bool_decide_false by apply not_elem_of_nil. by rewrite orb_false_r.
Qed.

Lemma completes_cons content i l s s1 s' :
  completes content [i] s s1 → completes content l s1 s' → completes content (i :: l) s s'.
Proof.
  intros (H1 & H2 & H3 & H4 & H5) (K1 & K2 & K3 & K4 & K5). split_and!; try done; [| |by auto|congruence].
  - intros j Hj. rewrite K1, H1 by done. rewrite <- orb_assoc. f_equal.
    rewrite <- bool_decide_or. apply bool_decide_ext. rewrite list_elem_of_singleton, elem_of_cons. done.
  - intros j [->|Hj]%elem_of_cons; [|by auto]. apply K3, H2, list_elem_of_singleton. done.
Qed.

Lemma write_and_mark content i s :
  pm_ok (s_piece_mgr s) → 0 ≤ i < Z.of_nat (Piece.num_pieces (s_piece_mgr s)) →
  let s1 := add_written i (piece_at content i) s in
  completes content [i] s (set_piece_mgr (set_piece (s_piece_mgr s1) i) s1).
Proof.
  intros Hp Hi s1. subst s1. destruct s. cbn in *. split_and!; try done.
  - intros j Hj. cbn. rewrite has_piece_set by (done || lia). rewrite orb_comm. f_equal.
    apply bool_decide_ext. rewrite list_elem_of_singleton. intuition lia.
  - intros j ->%list_elem_of_singleton. cbn. apply elem_of_app. right. by apply list_elem_of_singleton.
  - intros e He. cbn. apply elem_of_app. by left.
  - by apply set_piece_ok.
  - cbn. unfold set_piece. by case_match.
Qed.

Lemma run_scan content (w : World) reply urls (u : Url) st g L m :
  content_ok content → 0 ≤ g → g < Z.of_nat (Metainfo.num_pieces (c_info c)) →
  (∀ l i d, w_write w l i d = None) →
  let pl := piece_length (c_info c) in
  let body := take L (drop (Z.to_nat (g * pl)) content) in
  ∀ idx done s,
  Z.of_nat (Metainfo.num_pieces (c_info c)) - idx = Z.of_nat m → g ≤ idx →
  pm_ok (s_piece_mgr s) → Piece.num_pieces (s_piece_mgr s) = Metainfo.num_pieces (c_info c) →
  ∃ k s' l,
    run_task k w reply urls (s, Scanning {| tf_url := u; tf_started := st; tf_start := g * pl; tf_body := body;
      tf_offset := Z.min (idx * pl) (zlen content) - g * pl; tf_completed := done |}) =
      (s', Ending u st (Ok (done ++ l))) ∧
    completes content l s s' ∧
    ∀ i, i ∈ l ↔ idx ≤ i ∧ covered g content body i = true ∧ has_piece (s_piece_mgr s) i = false.
Proof.
  intros Hc Hg Hgn Hw pl body. induction m as [|m IH]; intros idx done s Hm Hle Hp Hnum.
  all: pose proof (next_chunk_of_content content g u st L idx done (s_piece_mgr s) Hc ltac:(lia) Hgn ltac:(lia)) as Hnext;
    fold pl in Hnext; cbn zeta in Hnext; fold body in Hnext.
  all: assert (∀ i, covered g content body i = true → i < Z.of_nat (Metainfo.num_pieces (c_info c))) as Hcov
    by (intros i Hi; unfold covered in Hi; apply andb_true_iff in Hi as [[_ Hi]%andb_true_iff _]; by apply Z.ltb_lt).
  all: assert (covered g content body idx = false → ∀ i, covered g content body i = true → i < idx) as Hlast by
    (intros Hf i Hi; destruct (Z.lt_ge_cases i idx) as [|Hge]; [done|exfalso]; pose proof (Hcov i Hi);
     destruct Hc as (_ & Hpl & _); unfold covered in *; fold pl in Hf, Hi, Hpl;
     rewrite (proj2 (Z.leb_le g idx)), (proj2 (Z.ltb_lt idx _)) in Hf by lia; cbn [andb] in Hf;
     apply andb_true_iff in Hi as [_ Hi]; apply Z.leb_le in Hi; apply Z.leb_gt in Hf;
     assert ((idx + 1) * pl ≤ (i + 1) * pl) by nia; lia).
  - assert (covered g content body idx = false) as Hf.
    { destruct (covered g content body idx) eqn:E; [|done]. apply Hcov in E. lia. }
    rewrite Hf in Hnext. exists 1%nat, s, []. cbn [run_task task_step fst snd]. rewrite Hnext, app_nil_r.
    split; [done|]. split; [by apply completes_refl|]. intros i. split; [by intros ?%not_elem_of_nil|].
    intros (Hi & Hci & _). pose proof (Hlast Hf i Hci). lia.
  - destruct (covered g content body idx) eqn:Hcv.
    + destruct (has_piece (s_piece_mgr s) idx) eqn:Hhas.
      * destruct (IH (idx + 1) done s ltac:(lia) ltac:(lia) Hp Hnum) as (k & s' & l & Hrun & Hcomp & Hl).
        exists (S k), s', l. cbn [run_task task_step fst snd]. rewrite Hnext. cbn [or_panic].
        unfold advance. cbn [tf_url tf_started tf_start tf_body tf_offset tf_completed]. rewrite app_nil_r, Hrun.
        split; [done|]. split; [done|]. intros i. rewrite Hl. split; [intuition lia|].
        intros (Hi & Hci & Hn). split; [|done]. destruct (Z.eq_dec i idx) as [->|]; [congruence|lia].
      * set (s1 := add_written idx (piece_at content idx) s).
        set (s2 := set_piece_mgr (set_piece (s_piece_mgr s1) idx) s1).
        pose proof (write_and_mark content idx s Hp ltac:(lia)) as Hone. cbn zeta in Hone. fold s1 s2 in Hone.
        destruct Hone as (H1 & H2 & H3 & H4 & H5).
        destruct (IH (idx + 1) (done ++ [idx]) s2 ltac:(lia) ltac:(lia) H4 ltac:(congruence))
          as (k & s' & l & Hrun & Hcomp & Hl).
        exists (3 + k)%nat, s', (idx :: l). cbn [run_task task_step fst snd Nat.add]. rewrite Hnext. cbn [or_panic task_step fst snd].
        unfold write_piece. rewrite Hw. fold s1. cbn [run_task task_step fst snd]. fold s2. unfold advance.
        cbn [tf_url tf_started tf_start tf_body tf_offset tf_completed]. rewrite Hrun, <- app_assoc.
        split; [done|]. split; [by eapply completes_cons|].
        intros i. rewrite elem_of_cons, Hl. split.
        -- intros [->|(Hi & Hci & Hn)]; [split_and!; [lia|done|done]|]. split; [lia|]. split; [done|].
           rewrite H1 in Hn by lia. by apply orb_false_iff in Hn as [? _].
        -- intros (Hi & Hci & Hn). destruct (Z.eq_dec i idx) as [->|]; [by left|right].
           split; [lia|]. split; [done|]. rewrite H1, Hn by lia. cbn. apply bool_decide_false.
           by rewrite list_elem_of_singleton.
    + exists 1%nat, s, []. cbn [run_task task_step fst snd]. rewrite Hnext, app_nil_r.
      split; [done|]. split; [by apply completes_refl|]. intros i. split; [by intros ?%not_elem_of_nil|].
      intros (Hi & Hci & _). pose proof (Hlast eq_refl i Hci). lia.
Qed.
End facts.

(** A range shorter than a piece completes nothing but a short last piece: with
    [max_range_bytes] below the piece length, web seeds ask for the same bytes for ever. *)
Lemma small_range_completes_nothing c g content body i :
  (Z.of_nat (Metainfo.num_pieces (c_info c)) - 1) * piece_length (c_info c) < zlen content →
  zlen body < piece_length (c_info c) → covered c g content body i = true →
  i = g ∧ zlen content < (i + 1) * piece_length (c_info c).
Proof.
  unfold covered. intros Hfit Hb Hc. apply andb_true_iff in Hc as [[Hg Hn]%andb_true_iff Hc].
  apply Z.leb_le in Hg, Hc. apply Z.ltb_lt in Hn. assert (0 ≤ zlen body) by (unfold zlen; lia).
  assert (i * piece_length (c_info c) < zlen content) as Hi by nia.
  destruct (Z.le_gt_cases ((i + 1) * piece_length (c_info c)) (zlen content)); [nia|].
  split; [|done]. nia.
Qed.

(** The URL that is selected is one that is not parked or has waited long enough, and there is one
    unless all URLs are parked. *)
Lemma foldl_max_in {A} (cmp : A → A → comparison) l x :
  foldl (λ x y, match cmp x y with Gt => x | _ => y end) x l ∈ x :: l.
Proof.
  revert x. induction l as [|y l IH]; intros x; cbn [foldl]; [by left|].
  pose proof (IH (match cmp x y with Gt => x | _ => y end)) as [Hx|Hx]%elem_of_cons.
  - rewrite Hx. case_match; [right; left|right; left|left].
  - right. by right.
Qed.

Lemma select_best_url_spec {Url} `{UrlCrate Url} ln cfg now (urls : list (UrlState Url)) :
  match select_best_url ln cfg now urls with
  | Some u => ∃ s, s ∈ urls ∧ url s = u ∧ is_candidate cfg now s = true
  | None => Forall (λ s, is_candidate cfg now s = false) urls
  end.
Proof.
  unfold select_best_url. set (l := filter _ urls).
  assert (∀ s, s ∈ l ↔ is_candidate cfg now s = true ∧ s ∈ urls) as Hl by (intros s; unfold l; by rewrite list_elem_of_filter).
  destruct l as [|x l]; cbn [max_by fmap option_fmap option_map].
  - apply Forall_forall. intros s Hs. destruct (is_candidate cfg now s) eqn:E; [|done].
    by assert (s ∈ []) as ?%not_elem_of_nil by by apply Hl.
  - eexists. split; [|split; [reflexivity|]]; by apply Hl, foldl_max_in.
Qed.

(** C10: a web seed that sends the right bytes is used. A task that asked for the bytes from piece [g]
    on, and that receives the content of the torrent there ([content_ok]: it has the size and the piece
    hashes of the metainfo), with a storage that accepts writes, comes to an end with every missing
    piece that lies inside the bytes it received, and no other: it wrote each of them with its
    content, marked it, and reports it. *)
Theorem web_seed_completes_range : ∀ (Url : Type) `(UrlCrate Url) sha1 ln cfg c w urls (u target : Url)
    started g stop L content s,
  content_ok sha1 c content → 0 ≤ g < Z.of_nat (Metainfo.num_pieces (c_info c)) →
  (∀ written i d, w_write w written i d = None) →
  pm_ok (s_piece_mgr s) → Piece.num_pieces (s_piece_mgr s) = Metainfo.num_pieces (c_info c) →
  let pl := piece_length (c_info c) in
  let body := take L (drop (Z.to_nat (g * pl)) content) in
  ∃ k s' l,
    run_task sha1 ln cfg c k w (Ok body) urls
      (s, Requesting u target started {| start_byte := g * pl; end_byte := stop |}) =
      (s', Ending u started (Ok l)) ∧
    (∀ i, i ∈ l ↔ g ≤ i < Z.of_nat (Metainfo.num_pieces (c_info c)) ∧
       Z.min ((i + 1) * pl) (zlen content) ≤ g * pl + zlen body ∧ has_piece (s_piece_mgr s) i = false) ∧
    (∀ i, 0 ≤ i → has_piece (s_piece_mgr s') i = has_piece (s_piece_mgr s) i || bool_decide (i ∈ l)) ∧
    (∀ i, i ∈ l → (i, piece_at c content i) ∈ s_written s').
Proof.
  intros Url HU sha1 ln cfg c w urls u target started g stop L content s Hc Hg Hw Hp Hn pl body.
  destruct (run_scan sha1 ln cfg c content w (Ok body) urls u started g L
    (Z.to_nat (Z.of_nat (Metainfo.num_pieces (c_info c)) - g)) Hc ltac:(lia) ltac:(lia) Hw g [] s
    ltac:(lia) ltac:(lia) Hp Hn) as (k & s' & l & Hrun & (H1 & H2 & _) & Hl).
  exists (S k), s', l. split.
  - cbn [run_task task_step fst snd start_byte]. change (Ok l) with (Ok (E := ErrorKind) ([] ++ l)). rewrite <- Hrun. do 4 f_equal. fold pl.
    destruct Hc as (_ & Hpl & _ & _ & Hfit & _). fold pl in Hpl, Hfit. nia.
  - split; [|done]. intros i. rewrite Hl. unfold covered. fold pl.
    rewrite !andb_true_iff, !Z.leb_le, Z.ltb_lt. fold body. intuition lia.
Qed.

(** A crate in which every string is a URL, and is its own path. *)
#[local] Instance plain_urls : UrlCrate bytes :=
  {| url_eq_dec := _; url_parse := Some; url_path := id; url_join u r := Some (u ++ r); request_target _ := true |}.

Lemma web_seed_completes_range_witness :
  ∃ k s' l,
    run_task toy_hash (λ x, x) web_config_default sample_config k sample_world (Ok [5; 6; 7; 8]) []
      (sample_seed, Requesting [] [] 0 {| start_byte := 4; end_byte := 7 |}) =
      (s', Ending [] 0 (Ok l)) ∧ 1 ∈ l.
Proof.
  destruct (web_seed_completes_range bytes plain_urls toy_hash (λ x, x) web_config_default sample_config
    sample_world [] [] [] 0 1 7 5 [1; 2; 3; 4; 5; 6; 7; 8] sample_seed) as (k & s' & l & Hrun & Hl & _).
  - unfold content_ok. cbn zeta. split; [reflexivity|]. do 4 (split; [by vm_compute|]). intros i Hi. change (0 ≤ i < 2) in Hi.
    assert (i = 0 ∨ i = 1) as [-> | ->] by lia; reflexivity.
  - by vm_compute.
  - done.
  - reflexivity.
  - reflexivity.
  - exists k, s', l. split; [exact Hrun|]. apply Hl. by vm_compute.
Defined.
