(* ===== verification/FullLoop.v ===== *)
(** The whole loop of a torrent: [SwarmLoop::run] and [update_status] of
    [crates/torrent/src/session/swarm/mod.rs], [announce.rs], and the registered extensions.

    [SwarmLoop.v] has the core of the loop, with whatever extensions may contribute as arguments.
    Here the extensions are those that [SwarmBuilder] registers, the loop reports its status,
    announces itself to its tracker and takes commands, and the tasks of the web seeds run between
    the rounds of the loop. What the tracker answers is an argument. Durations are in nanoseconds. *)

From stdpp Require Import base numbers list gmap strings relations.
From Stdlib Require Import ZArith Lia SpecFloat.
From S2P Require Import Prelude Facts F64 Error Net PeerMessage Piece Metainfo Tracker Download PeerManager Upload.
From S2P Require Import Step Swarm Pipeline Choke Registration SwarmFacts ExtContext SuperSeed PexExt WebSeed Uploads.
From S2P Require Import SwarmLoop WebSeedFacts.

Section full_loop.
Context {Url : Type} `{URL : UrlCrate Url}.
Context (sha1 : bytes → bytes) (ln : spec_float → spec_float).

(** * Extensions *)

(** [Box<dyn SwarmExtension>], for the extensions there are. *)
Inductive DynExtension : Type :=
| DynPex (e : PexExtension)
| DynSuperSeed (e : SuperSeedExtension)
| DynWebSeed (e : WebSeedExtension Url).

(** A hook of the extension inside. *)
Definition within {E} (K : E → DynExtension) (m : hook E unit) (e : E) (x : ExtContext)
  : (DynExtension * ExtContext) * result unit :=
  let '((e', x'), r) := m (e, x) in ((K e', x'), r).

#[export] Instance dyn_extension : SwarmExtension DynExtension := {
  on_start c := λ '(d, x), match d with
    | DynPex e => within DynPex (on_start c) e x
    | DynSuperSeed e => within DynSuperSeed (on_start c) e x
    | DynWebSeed e => within DynWebSeed (on_start c) e x
    end;
  on_tick c w := λ '(d, x), match d with
    | DynPex e => within DynPex (on_tick c w) e x
    | DynSuperSeed e => within DynSuperSeed (on_tick c w) e x
    | DynWebSeed e => within DynWebSeed (on_tick c w) e x
    end;
  on_peer_event c w addr ev := λ '(d, x), match d with
    | DynPex e => within DynPex (on_peer_event c w addr ev) e x
    | DynSuperSeed e => within DynSuperSeed (on_peer_event c w addr ev) e x
    | DynWebSeed e => within DynWebSeed (on_peer_event c w addr ev) e x
    end;
  ext_ltep d := match d with
    | DynPex e => ext_ltep e | DynSuperSeed e => ext_ltep e | DynWebSeed e => ext_ltep e
    end;
  ext_mask d := match d with
    | DynPex e => ext_mask e | DynSuperSeed e => ext_mask e | DynWebSeed e => ext_mask e
    end;
}.

(** [SwarmBuilder], as [spawn_swarm_loop] uses it. *)
Definition maybe_pex (enabled : bool) (interval : Z) (exts : list DynExtension) : list DynExtension :=
  if enabled then exts ++ [DynPex (pex_ext_new interval)] else exts.

Definition maybe_super_seed (enabled : bool) (exts : list DynExtension) : list DynExtension :=
  if enabled then exts ++ [DynSuperSeed super_seed_new] else exts.

Definition maybe_webseed (enabled : bool) (urls : list bytes) (cfg : WebSeedConfig) (n : nat)
    (exts : list DynExtension) : list DynExtension :=
  if enabled && negb (bool_decide (urls = [])) then exts ++ [DynWebSeed (web_seed_new urls cfg n)] else exts.

(** A hook of every extension in turn; an error is only logged. *)
Fixpoint dispatch (h : hook DynExtension unit) (exts : list DynExtension) (x : ExtContext)
  : ExtContext * list DynExtension * result unit :=
  match exts with
  | [] => (x, [], Ok tt)
  | e :: exts' =>
      match ignore_err h (e, x) with
      | ((e', x'), Ok _) => let '(x'', es, r) := dispatch h exts' x' in (x'', e' :: es, r)
      | ((e', x'), r) => (x', e' :: exts', r)
      end
  end.

(** What the extensions contribute to a registration. *)
Definition registered (version : bytes) (exts : list DynExtension) : Extensions :=
  {| Registration.ltep_extensions := foldl (λ ids e, ext_ltep e ∪ ids) ∅ exts;
     Registration.mask_bitfield := λ bf, foldl (λ bf e, ext_mask e bf) bf exts;
     client_version_string := version |}.

(** * The state of the loop *)

Record LoopConfig : Type := mk_loop_config {
  lc_swarm : SwarmConfig;
  lc_peer_id : bytes;
  lc_listen_port : Z;
  lc_announce_ip : option bytes;
  lc_announce_ipv6 : option bytes;
  lc_has_tracker : bool;
  lc_fallback_interval : Z;
  lc_started_at : Z;
  lc_version : bytes;
}.

Record LoopState : Type := mk_loop {
  l_ctx : ExtContext;
  l_exts : list DynExtension;
  l_next_announce : option Z;
  l_has_announced : bool;
  l_announced_completed : bool;
  l_total_downloaded : Z;
  l_last_downloaded : Z;
  l_last_uploaded : Z;
  l_tracker_status : TrackerStatus;
  l_peer_statuses : list PeerStatus;
  l_announces : list AnnounceRequest;
  l_running : bool;
}.

Abbreviation l_core l := (x_core (l_ctx l)).

Definition set_ctx (x : ExtContext) (l : LoopState) : LoopState :=
  let 'mk_loop _ b c d e f g h i j k m := l in mk_loop x b c d e f g h i j k m.
Definition set_exts (x : list DynExtension) (l : LoopState) : LoopState :=
  let 'mk_loop a _ c d e f g h i j k m := l in mk_loop a x c d e f g h i j k m.
Definition set_next_announce (x : option Z) (l : LoopState) : LoopState :=
  let 'mk_loop a b _ d e f g h i j k m := l in mk_loop a b x d e f g h i j k m.
Definition set_has_announced (l : LoopState) : LoopState :=
  let 'mk_loop a b c _ e f g h i j k m := l in mk_loop a b c true e f g h i j k m.
Definition set_announced_completed (l : LoopState) : LoopState :=
  let 'mk_loop a b c d _ f g h i j k m := l in mk_loop a b c d true f g h i j k m.
Definition set_rates (downloaded uploaded : Z) (l : LoopState) : LoopState :=
  let 'mk_loop a b c d e _ _ _ i j k m := l in mk_loop a b c d e downloaded downloaded uploaded i j k m.
Definition set_tracker_status (x : TrackerStatus) (l : LoopState) : LoopState :=
  let 'mk_loop a b c d e f g h _ j k m := l in mk_loop a b c d e f g h x j k m.
Definition set_peer_statuses (x : list PeerStatus) (l : LoopState) : LoopState :=
  let 'mk_loop a b c d e f g h i _ k m := l in mk_loop a b c d e f g h i x k m.
Definition add_announce (x : AnnounceRequest) (l : LoopState) : LoopState :=
  let 'mk_loop a b c d e f g h i j k m := l in mk_loop a b c d e f g h i j (k ++ [x]) m.
Definition set_stopped (l : LoopState) : LoopState :=
  let 'mk_loop a b c d e f g h i j k _ := l in mk_loop a b c d e f g h i j k false.

Abbreviation loop_step_of := (Step.step LoopState).

(** A step of the core, and a change of the status. *)
Definition core {A} (m : Swarm.step A) : loop_step_of A := λ l,
  let '(s, r) := m (l_core l) in (set_ctx (set_core s (l_ctx l)) l, r).

Definition change_status (f : TorrentStatus → TorrentStatus) : loop_step_of unit :=
  modify (λ l, set_ctx (set_status (f (x_status (l_ctx l))) (l_ctx l)) l).

Definition run_hooks (h : hook DynExtension unit) : loop_step_of unit := λ l,
  let '(x, es, r) := dispatch h (l_exts l) (l_ctx l) in (set_exts es (set_ctx x l), r).

(** * Announcing: [announce.rs] *)

(** The answer of the tracker, or the message of its error. *)
Abbreviation answer := (AnnounceResponse + bytes)%type.

(** The bytes that are left, from the progress in [f64]. *)
Definition bytes_left (pm : PieceManager) (total : Z) : Z :=
  saturating_sub total (f64_as 0 u64_max (f64_mul (progress pm) (f64_of_Z total))).

Definition on_answer (c : LoopConfig) (now : Z) (a : answer) : loop_step_of unit :=
  match a with
  | inl resp =>
      let interval := default (interval resp) (min_interval resp) in
      do! _ := modify (set_next_announce (Some (now + interval * 10 ^ 9))) in
      do! _ := modify (λ l, set_tracker_status
        {| tr_url := tr_url (l_tracker_status l); tr_next_announce_in := Some (interval * 10 ^ 9);
           tr_announce_interval := interval * 10 ^ 9; tr_seeds_reported := complete resp;
           tr_leechers_reported := incomplete resp; tr_last_error := None |} l) in
      do! _ := core (modify (add_event (TrackerAnnounced (length (Tracker.peers resp))))) in
      core (modify (λ s, set_peer_mgr (add_peers (Tracker.peers resp) (s_peer_mgr s)) s))
  | inr message =>
      do! _ := modify (set_next_announce (Some (now + lc_fallback_interval c))) in
      do! _ := modify (λ l, set_tracker_status
        {| tr_url := tr_url (l_tracker_status l); tr_next_announce_in := Some (lc_fallback_interval c);
           tr_announce_interval := tr_announce_interval (l_tracker_status l);
           tr_seeds_reported := tr_seeds_reported (l_tracker_status l);
           tr_leechers_reported := tr_leechers_reported (l_tracker_status l);
           tr_last_error := Some message |} l) in
      do! _ := core (modify (add_event (TrackerError message))) in
      lift (Err TrackerRequestFailed)
  end.

Definition announce_to_tracker (c : LoopConfig) (now : Z) (ev : AnnounceEvent) (a : answer)
  : loop_step_of unit :=
  if negb (lc_has_tracker c) then sret tt
  else
    do! total := lift (total_size (c_info (lc_swarm c))) in
    do! l := read id in
    let req := request_new (c_info_hash (lc_swarm c)) (lc_peer_id c) (lc_listen_port c) in
    let req :=
      {| req_info_hash := req_info_hash req; req_peer_id := req_peer_id req; req_port := req_port req;
         uploaded := s_uploaded (l_core l); downloaded := l_total_downloaded l;
         left_bytes := bytes_left (s_piece_mgr (l_core l)) total; event := ev; compact := compact req;
         numwant := numwant req; key := key req; trackerid := trackerid req;
         req_ip := lc_announce_ip c; req_ipv6 := lc_announce_ipv6 c |} in
    do! _ := modify (add_announce req) in
    on_answer c now a.

Definition announce_if_needed (c : LoopConfig) (now : Z) (a : answer) : loop_step_of unit :=
  if negb (lc_has_tracker c) then sret tt
  else
    do! next := read l_next_announce in
    let should_announce := match next with None => true | Some t => t <=? now end in
    if negb should_announce then sret tt
    else
      do! has := read l_has_announced in
      do! r := attempt (announce_to_tracker c now (if has then NoEvent else Started) a) in
      match r with
      | inl _ => modify set_has_announced
      | inr _ => sret tt
      end.

(** * Status *)

(** A peer with a full bitfield. *)
Definition is_seed (n : nat) (p : PeerInfo) : bool :=
  negb (length (p_bitfield p) =? 0)%nat && (n <=? length (p_bitfield p))%nat && forallb id (p_bitfield p).

Definition peer_progress (n : nat) (p : PeerInfo) : spec_float :=
  if (n <=? length (p_bitfield p))%nat && (0 <? n)%nat then
    f64_div (f64_of_nat (length (filter (λ b, b = true) (p_bitfield p)))) (f64_of_nat n)
  else f64_of_Z 0.

Definition peer_status (n : nat) (addr : SocketAddr) (p : PeerInfo) : PeerStatus :=
  {| ps_addr := addr; ps_client_name := client_version p; ps_progress := peer_progress n p;
     ps_download_rate := f64_of_Z (downloaded_this_round p);
     ps_upload_rate := f64_of_Z (uploaded_this_round p);
     ps_am_choked := am_choked p; ps_peer_interested := peer_interested p |}.

Definition peer_statuses (w : World) (n : nat) (peers : gmap SocketAddr PeerInfo) : list PeerStatus :=
  omap (λ a, peer_status n a <$> peers !! a) (w_set_order w (dom peers)).

(** The status after a tick; a complete torrent is seeding. *)
Definition ticked_status (c : LoopConfig) (now : Z) (s : SwarmState) (downloaded rate_down rate_up : Z)
    (t : TorrentStatus) : TorrentStatus :=
  let pm := s_piece_mgr s in
  let n := Metainfo.num_pieces (c_info (lc_swarm c)) in
  {| ts_info_hash := ts_info_hash t; ts_name := ts_name t; ts_progress := progress pm;
     ts_download_rate := f64_of_Z rate_down; ts_upload_rate := f64_of_Z rate_up;
     ts_num_peers := num_connections (s_peer_mgr s);
     ts_num_seeds := length (filter (λ p, is_seed n p.2 = true) (map_to_list (s_peers s)));
     ts_state := if bool_decide (missing_pieces pm = []) then Seeding else ts_state t;
     ts_total_size := ts_total_size t; ts_total_downloaded := downloaded;
     ts_total_uploaded := s_uploaded s; ts_num_pieces := as_u32 (Z.of_nat (Piece.num_pieces pm));
     ts_pieces_completed := as_u32 (zlen (completed_pieces pm)); ts_bitfield := bitfield pm;
     ts_elapsed := now - lc_started_at c; ts_error_message := ts_error_message t;
     ts_total_wasted := s_wasted s; ts_super_seed_active := ts_super_seed_active t;
     ts_super_seed_remaining := ts_super_seed_remaining t |}.

(** The events of a change of the state. *)
Definition report_state (old new : TorrentState) : loop_step_of unit :=
  if bool_decide (new = old) then sret tt
  else
    do! _ := core (modify (add_event (StateChanged old new))) in
    if bool_decide (new = Seeding) then core (modify (add_event TorrentFinished)) else sret tt.

Definition update_status (c : LoopConfig) (w : World) (a : answer) : loop_step_of unit :=
  do! s := read (λ l, l_core l) in
  let pm := s_piece_mgr s in
  let pieces_completed := as_u32 (zlen (completed_pieces pm)) in
  do! total_size := lift (total_size (c_info (lc_swarm c))) in
  do! all := lift (checked_mul_panic pieces_completed (piece_length (c_info (lc_swarm c)))) in
  let total_downloaded := Z.min all total_size in
  do! l := read id in
  do! down := lift (checked_sub_panic total_downloaded (l_last_downloaded l)) in
  do! up := lift (checked_sub_panic (s_uploaded s) (l_last_uploaded l)) in
  do! _ := modify (set_rates total_downloaded (s_uploaded s)) in
  let old := ts_state (x_status (l_ctx l)) in
  do! _ := change_status (ticked_status c (w_now w) s total_downloaded down up) in
  do! new := read (λ l, ts_state (x_status (l_ctx l))) in
  do! _ := report_state old new in
  do! _ := modify (set_peer_statuses
             (peer_statuses w (Metainfo.num_pieces (c_info (lc_swarm c))) (s_peers s))) in
  do! announced := read l_announced_completed in
  if bool_decide (missing_pieces pm = []) && negb announced then
    do! _ := ignore_err (announce_to_tracker c (w_now w) Completed a) in
    modify set_announced_completed
  else sret tt.

(** * The branches of the loop *)

(** [Some((addr, event)) = self.peer_msg_rx.recv()]. *)
Definition event_branch (c : LoopConfig) (w : World) (order : list SocketAddr) (addr : SocketAddr)
    (ev : PeerEvent) : loop_step_of unit :=
  do! _ := core (modify (set_blocked ∅)) in
  do! _ := modify (λ l, set_ctx (set_haves [] (l_ctx l)) l) in
  do! _ := run_hooks (on_peer_event (lc_swarm c) w addr ev) in
  do! haves := read (λ l, x_haves (l_ctx l)) in
  do! _ := modify (λ l, set_ctx (set_haves [] (l_ctx l)) l) in
  do! blocked := read (λ l, s_blocked (l_core l)) in
  core (on_event sha1 (lc_swarm c) w blocked haves order addr ev).

(** [status_tick.tick()]. The answers are those to the announces of [update_status] and of
    [announce_if_needed]. *)
Definition tick_branch (c : LoopConfig) (w : World) (a1 a2 : answer) (announced : list SocketAddr)
    (outcomes : list (SocketAddr * option Conn)) : loop_step_of unit :=
  do! _ := update_status c w a1 in
  do! _ := announce_if_needed c (w_now w) a2 in
  do! x := read (λ l, registered (lc_version c) (l_exts l)) in
  do! _ := core (ignore_err (connect_pending sha1 (lc_swarm c) x w announced outcomes)) in
  run_hooks (on_tick (lc_swarm c) w).

(** [enum TorrentCommand]. *)
Inductive TorrentCommand : Type :=
| Pause
| Resume
| Cancel
| InboundPeer (addr : SocketAddr) (conn : Conn).

(** [cmd = self.control_rx.recv()]; a closed channel cancels. *)
Definition control_branch (c : LoopConfig) (w : World) (a : answer) (cmd : option TorrentCommand)
  : loop_step_of unit :=
  match cmd with
  | Some Pause => change_status (set_state Paused)
  | Some Resume => change_status (set_state Downloading)
  | Some (InboundPeer addr conn) =>
      do! x := read (λ l, registered (lc_version c) (l_exts l)) in
      core (ignore_err (register_new_peer sha1 (lc_swarm c) x w addr conn))
  | Some Cancel | None =>
      do! _ := ignore_err (announce_to_tracker c (w_now w) Stopped a) in
      modify set_stopped
  end.

(** The start of [run]. *)
Definition run_start (c : LoopConfig) : loop_step_of unit :=
  do! _ := change_status (set_state Downloading) in
  run_hooks (on_start (lc_swarm c)).

(** A task of the web seed extension number [j] takes a step. *)
Definition web_step (c : LoopConfig) (w : World) (reply : result bytes) (j k : nat) (l : LoopState)
  : option LoopState :=
  match l_exts l !! j with
  | Some (DynWebSeed e) =>
      match service e, tasks e !! k with
      | Some urls, Some t =>
          let '(s', urls', t') :=
            task_step sha1 ln (web_config e) (lc_swarm c) w reply urls t (l_core l) in
          let e' := set_tasks (<[k:=t']> (tasks e)) (set_service (Some urls') e) in
          Some (set_exts (<[j:=DynWebSeed e']> (l_exts l)) (set_ctx (set_core s' (l_ctx l)) l))
      | _, _ => None
      end
  | _ => None
  end.

(** A round of the loop that does not panic, or a step of a task beside it. *)
Inductive loop_step (c : LoopConfig) (l : LoopState) : LoopState → Prop :=
| Loop_event w order addr ev l' :
    l_running l = true → event_ok ev → event_branch c w order addr ev l = (l', Ok tt) → loop_step c l l'
| Loop_tick w a1 a2 announced outcomes l' :
    l_running l = true → tick_branch c w a1 a2 announced outcomes l = (l', Ok tt) → loop_step c l l'
| Loop_control w a cmd l' :
    l_running l = true → control_branch c w a cmd l = (l', Ok tt) → loop_step c l l'
| Loop_choke w pick order l' :
    l_running l = true → core (ignore_err (run_round (lc_swarm c) w pick order)) l = (l', Ok tt) → loop_step c l l'
| Loop_stale now l' :
    l_running l = true → core (expire_stale (lc_swarm c) now) l = (l', Ok tt) → loop_step c l l'
| Loop_web w reply j k l' : l_running l = true → web_step c w reply j k l = Some l' → loop_step c l l'
| Loop_announced addrs l' :
    core (modify (λ s, set_peer_mgr (add_peers addrs (s_peer_mgr s)) s)) l = (l', Ok tt) → loop_step c l l'.

(** The loop that [spawn_swarm_loop] builds. *)
Definition loop_new (pm : PieceManager) (peer_mgr : PeerManager.PeerManager) (max_uploads : Z)
    (status : TorrentStatus) (tracker : TrackerStatus) (exts : list DynExtension) : LoopState :=
  {| l_ctx := {| x_core := swarm_new pm peer_mgr max_uploads; x_status := status; x_haves := [] |};
     l_exts := exts; l_next_announce := None; l_has_announced := false; l_announced_completed := false;
     l_total_downloaded := 0; l_last_downloaded := 0; l_last_uploaded := 0; l_tracker_status := tracker;
     l_peer_statuses := []; l_announces := []; l_running := true |}.

(** A state of the loop after its start. *)
Definition reachable (c : LoopConfig) (l0 l : LoopState) : Prop :=
  ∃ l1, run_start c l0 = (l1, Ok tt) ∧ rtc (loop_step c) l1 l.
End full_loop.

Arguments DynExtension : clear implicits.
Arguments LoopState : clear implicits.

Abbreviation l_core l := (x_core (l_ctx l)).
