(* ===== verification/FullLoopFacts.v ===== *)
(** Invariants of the whole loop of a torrent, whatever its peers, its tracker, its web seeds and the
    commands of the session do. *)

From stdpp Require Import base numbers list gmap strings relations.
From Stdlib Require Import ZArith Lia SpecFloat.
From S2P Require Import Prelude Facts F64 Error Net PeerMessage Piece Metainfo Tracker Download PeerManager Upload.
From S2P Require Import Step Swarm Pipeline Choke Registration SwarmFacts ExtContext SuperSeed PexExt WebSeed Uploads.
From S2P Require Import SwarmLoop WebSeedFacts FullLoop.

Section invariants.
Context {Url : Type} `{URL : UrlCrate Url}.
Context (sha1 : bytes → bytes) (ln : spec_float → spec_float) (c : LoopConfig) (base : Z → bool).
Abbreviation cs := (lc_swarm c).

(** * What the loop relies on *)

Definition ext_ok (s : SwarmState) (d : DynExtension Url) : Prop :=
  match d with
  | DynPex _ => True
  | DynSuperSeed e => ss_ok e
  | DynWebSeed e => Forall (task_ok sha1 cs s) (tasks e)
  end.

Lemma ext_ok_grows s s' d : store_le s s' → ext_ok s d → ext_ok s' d.
Proof.
  intros (_ & _ & Hw & _). destruct d as [|e|e]; try done. cbn [ext_ok]. intros Ht.
  eapply Forall_impl; [exact Ht|]. intros t. by apply task_ok_grows.
Qed.

Definition store_part (l : LoopState Url) : Prop :=
  store_inv sha1 cs base (l_core l) ∧ Forall (ext_ok (l_core l)) (l_exts l).

Abbreviation no_missing s := (missing_pieces (s_piece_mgr s) = []).

Definition status_part (l : LoopState Url) : Prop :=
  (ts_state (x_status (l_ctx l)) = Seeding → no_missing (l_core l)) ∧
  (TorrentFinished ∈ s_events (l_core l) → no_missing (l_core l)) ∧
  (l_announced_completed l = true → no_missing (l_core l)).

(** The announces of one event. *)
Definition announces_of (ev : AnnounceEvent) (l : LoopState Url) : nat :=
  length (filter (λ r, event r = ev) (l_announces l)).

Definition announce_part (l : LoopState Url) : Prop :=
  (announces_of Completed l ≤ if l_announced_completed l then 1 else 0)%nat ∧
  (l_running l = true → announces_of Stopped l = 0%nat) ∧
  (announces_of Stopped l = 0%nat ∨
   ∃ rs r, l_announces l = rs ++ [r] ∧ event r = Stopped ∧ Forall (λ r, event r ≠ Stopped) rs).

Definition loop_inv (l : LoopState Url) : Prop := store_part l ∧ status_part l ∧ announce_part l.

(** * Steps that change neither the state of the torrent nor its announces *)

Definition same_life (l l' : LoopState Url) : Prop :=
  ts_state (x_status (l_ctx l')) = ts_state (x_status (l_ctx l)) ∧
  l_announced_completed l' = l_announced_completed l ∧ l_announces l' = l_announces l ∧
  l_running l' = l_running l.

Definition calm (l l' : LoopState Url) : Prop :=
  store_part l' ∧ store_le (l_core l) (l_core l') ∧ same_life l l'.

Lemma store_part_pm l : store_part l → pm_ok (s_piece_mgr (l_core l)).
Proof. intros [(? & _) _]. done. Qed.

Lemma calm_refl l : store_part l → calm l l.
Proof. intros Hl. split; [done|]. split; [|done]. by apply store_le_refl, store_part_pm. Qed.

Lemma calm_trans l1 l2 l3 : calm l1 l2 → calm l2 l3 → calm l1 l3.
Proof.
  intros (_ & H2 & H3 & H4 & H5 & H6) (K1 & K2 & K3 & K4 & K5 & K6). split; [done|].
  split; [by eapply store_le_trans|]. split_and!; congruence.
Qed.

Lemma calm_inv l l' : calm l l' → loop_inv l → loop_inv l'.
Proof.
  intros (H1 & H2 & H3 & H4 & H5 & H6) (Hs & (S1 & S2 & S3) & A1 & A2 & A3).
  assert (no_missing (l_core l) → no_missing (l_core l')) as Hc
    by (by apply store_le_complete, H2; apply store_part_pm).
  split; [done|]. unfold status_part, announce_part, announces_of in *. rewrite H3, H4, H5, H6.
  split_and!; auto. intros Hf. apply Hc, S2. by apply H2.
Qed.

(** A step that keeps calm, whatever its result. *)
Definition calm_step {A} (m : Step.step (LoopState Url) A) : Prop :=
  ∀ l, store_part l → calm l (m l).1.

Lemma calm_bind {A B} (m : Step.step (LoopState Url) A) (k : A → Step.step (LoopState Url) B) :
  calm_step m → (∀ a, calm_step (k a)) → calm_step (sbind m k).
Proof.
  intros Hm Hk l Hl. specialize (Hm l Hl). unfold sbind. destruct (m l) as [l1 [a|e| |]]; try done.
  cbn [fst] in Hm. eapply calm_trans; [exact Hm|]. apply Hk, Hm.
Qed.

Lemma calm_ret {A} (a : A) : calm_step (sret a).
Proof. intros l. apply calm_refl. Qed.

Lemma calm_lift {A} (r : result A) : calm_step (lift r).
Proof. intros l. apply calm_refl. Qed.

Lemma calm_read {A} (f : LoopState Url → A) : calm_step (read f).
Proof. intros l. apply calm_refl. Qed.

Lemma calm_modify f :
  (∀ l, l_core (f l) = l_core l ∧ l_exts (f l) = l_exts l ∧ same_life l (f l)) → calm_step (modify f).
Proof.
  intros Hf l Hl. destruct (Hf l) as (H1 & H2 & H3). cbn. unfold calm, store_part. rewrite H1, H2.
  split; [done|]. split; [|done]. by apply store_le_refl, store_part_pm.
Qed.

(** A step of the core that keeps the invariant of the store. *)
Definition good {A} (m : Swarm.step A) : Prop :=
  ∀ s, store_inv sha1 cs base s → store_inv sha1 cs base (m s).1 ∧ store_le s (m s).1.

Lemma good_keeps {A} (m : Swarm.step A) : keeps store_view m → good m.
Proof.
  intros Hm s Hs. split; [by apply (frame_store sha1 cs base m Hm)|].
  apply (closed_keeps _ (store_le_closed s) m Hm). apply store_le_refl, Hs.
Qed.

Lemma good_event w blocked haves order addr ev :
  event_ok ev → good (on_event sha1 cs w blocked haves order addr ev).
Proof.
  intros He s Hs. split; [by apply store_inv_on_event|].
  assert (preserves (store_le s) (on_event sha1 cs w blocked haves order addr ev)) as Hp; [|by apply Hp, store_le_refl, Hs].
  pose proof (store_le_closed s) as Hc. unfold on_event.
  apply preserves_bind; [apply closed_keeps; [done|]; apply keeps_store; solve_frame|intros _].
  apply preserves_bind; [apply closed_keeps; [done|]; apply keeps_store; solve_frame|intros _].
  apply preserves_bind; [by apply closed_event|intros _].
  apply preserves_bind; [by apply closed_keeps; auto with torrent|intros pm].
  apply closed_keeps; [done|]. case_match; [auto with torrent|]. apply keeps_store, keeps_ignore, frame_fill.
Qed.

Lemma calm_core {A} (m : Swarm.step A) : good m → calm_step (core m).
Proof.
  intros Hm l [Hs He]. specialize (Hm _ Hs). unfold core. destruct (m (l_core l)) as [s r]. cbn [fst] in *.
  destruct Hm as [Hi Hle]. destruct l as [x es ? ? ? ? ? ? ? ? ? ?]. cbn in *.
  split; [|by split]. split; [done|]. eapply Forall_impl; [exact He|]. intros d. by apply ext_ok_grows.
Qed.

(** ** Hooks *)

(** A hook of the extensions: it is quiet and keeps what holds of the extension. *)
Definition good_hook (h : hook (DynExtension Url) unit) : Prop :=
  quiet_hook h ∧ ∀ d x, ext_ok (x_core x) d → let '((d', x'), _) := h (d, x) in ext_ok (x_core x) d'.

Lemma hook_store {E A} (h : hook E A) e x :
  quiet_hook h → let '((_, x'), _) := h (e, x) in
  store_view (x_core x') = store_view (x_core x) ∧ ts_state (x_status x') = ts_state (x_status x).
Proof.
  intros Hq. specialize (Hq (e, x)). destruct (h (e, x)) as [[e' x'] r]. unfold hook_view, ctx_view, quiet_view in Hq.
  cbn [fst snd] in Hq. split; congruence.
Qed.

Lemma view_store_le s s' : pm_ok (s_piece_mgr s) → store_view s' = store_view s → store_le s s'.
Proof.
  intros Hp Hv. apply (cc_view _ (store_le_closed s) s s' Hv). by apply store_le_refl.
Qed.

Lemma dispatch_ok h exts x :
  good_hook h → pm_ok (s_piece_mgr (x_core x)) → Forall (ext_ok (x_core x)) exts →
  let '(x', es, _) := dispatch h exts x in
  store_view (x_core x') = store_view (x_core x) ∧ ts_state (x_status x') = ts_state (x_status x) ∧
  Forall (ext_ok (x_core x')) es.
Proof.
  intros [Hq Hk]. revert x. induction exts as [|d exts IH]; intros x Hp Hall; cbn [dispatch]; [done|].
  apply Forall_cons in Hall as [Hd Hall]. specialize (Hk d x Hd).
  pose proof (hook_store h d x Hq) as Hv. unfold ignore_err. destruct (h (d, x)) as [[d' x1] r].
  destruct Hv as [Hv Ht].
  pose proof (view_store_le (x_core x) (x_core x1) Hp Hv) as Hle.
  assert (ext_ok (x_core x1) d' ∧ Forall (ext_ok (x_core x1)) exts) as [Hd1 Hall1].
  { split; [by apply (ext_ok_grows (x_core x))|]. eapply Forall_impl; [exact Hall|].
    intros e. by apply ext_ok_grows. }
  assert (let '(x'', es, _) := dispatch h exts x1 in
    store_view (x_core x'') = store_view (x_core x) ∧ ts_state (x_status x'') = ts_state (x_status x) ∧
    Forall (ext_ok (x_core x'')) (d' :: es)) as Hrest.
  { specialize (IH x1 (proj1 Hle) Hall1). destruct (dispatch h exts x1) as [[x2 es] r2].
    destruct IH as (H1 & H2 & H3). split; [congruence|]. split; [congruence|].
    apply List.Forall_cons; [|done]. apply (ext_ok_grows (x_core x1)); [|done].
    apply view_store_le; [apply Hle|done]. }
  destruct r as [[]|k| |].
  - by destruct (dispatch h exts x1) as [[x2 es] r2].
  - by destruct (dispatch h exts x1) as [[x2 es] r2].
  - split; [done|]. split; [done|]. by apply List.Forall_cons.
  - split; [done|]. split; [done|]. by apply List.Forall_cons.
Qed.

Lemma calm_hooks h : good_hook h → calm_step (run_hooks h).
Proof.
  intros Hh l [Hs He]. unfold run_hooks. pose proof (dispatch_ok h (l_exts l) (l_ctx l) Hh (proj1 Hs) He) as Hd.
  destruct (dispatch h (l_exts l) (l_ctx l)) as [[x es] r]. destruct Hd as (H1 & H2 & H3).
  assert (store_inv sha1 cs base (x_core x)) as Hx by (by apply (store_inv_view sha1 cs base (l_core l))).
  assert (store_le (l_core l) (x_core x)) as Hle by (apply view_store_le; [apply Hs|done]).
  destruct l. cbn in *. split; [by split|]. split; [done|]. by split_and!.
Qed.

Lemma within_view {E} (K : E → DynExtension Url) (m : hook E unit) e x :
  quiet_hook m → hook_view (within K m e x).1 = hook_view (K e, x).
Proof. intros Hq. specialize (Hq (e, x)). unfold within. by destruct (m (e, x)) as [[e' x'] r]. Qed.

#[export] Instance dyn_quiet : QuietExtension (DynExtension Url).
Proof.
  split.
  - intros cfg [[e|e|e] x]; cbn [on_start dyn_extension]; apply within_view, quiet_start.
  - intros cfg w [[e|e|e] x]; cbn [on_tick dyn_extension]; apply within_view, quiet_tick.
  - intros cfg w addr ev [[e|e|e] x]; cbn [on_peer_event dyn_extension]; apply within_view, quiet_event.
Qed.

Lemma within_ok {E} (K : E → DynExtension Url) (m : hook E unit) e x :
  (ext_ok (x_core x) (K e) → ext_ok (x_core x) (K (m (e, x)).1.1)) →
  ext_ok (x_core x) (K e) → let '((d', x'), _) := within K m e x in ext_ok (x_core x) d'.
Proof. intros Hk He. unfold within. specialize (Hk He). by destruct (m (e, x)) as [[e' x'] r]. Qed.

Lemma spawn_ok n e x :
  Forall (task_ok sha1 cs (x_core x)) (tasks e) →
  Forall (task_ok sha1 cs (x_core x)) (tasks (spawn_tasks (Url := Url) n cs (e, x)).1.1).
Proof.
  revert e. induction n as [|n IH]; intros e He; cbn [spawn_tasks]; [done|].
  unfold sbind at 1, get_self, read, id. destruct (service e) as [urls|]; [|done].
  unfold sbind at 1, get_core, read. unfold sbind at 1, lift.
  destruct (next_range _ _ _) as [[r|]|k| |]; try done. unfold sbind at 1, update, modify.
  apply IH. cbn [tasks set_tasks]. apply List.Forall_app. split; [done|]. by apply List.Forall_cons.
Qed.

Lemma good_start : good_hook (on_start cs).
Proof.
  split; [apply quiet_start|]. intros [e|e|e] x; cbn [on_start dyn_extension]; apply within_ok; try done.
  cbn. unfold web_on_start, update, modify. cbn [fst]. by case_bool_decide.
Qed.

Lemma good_tick w : good_hook (on_tick cs w).
Proof.
  split; [apply quiet_tick|]. intros [e|e|e] x; cbn [on_tick dyn_extension]; apply within_ok; try done.
  - apply (ss_tick_ok cs w (e, x)).
  - cbn [ext_ok on_tick web_seed_extension]. intros He. unfold web_on_tick, sbind at 1, update, modify.
    unfold sbind, get_self, read, id. apply spawn_ok. cbn [tasks set_tasks].
    rewrite Forall_forall in *. intros t [_ Ht]%list_elem_of_filter. by apply He.
Qed.

Lemma good_peer_event w addr ev : good_hook (on_peer_event cs w addr ev).
Proof.
  split; [apply quiet_event|]. intros [e|e|e] x; cbn [on_peer_event dyn_extension]; apply within_ok; try done.
  apply (ss_event_ok addr ev (e, x)).
Qed.

(** ** Rounds *)

Lemma calm_set_haves h : calm_step (modify (λ l : LoopState Url, set_ctx (set_haves h (l_ctx l)) l)).
Proof. apply calm_modify. intros l. by destruct l as [[] ? ? ? ? ? ? ? ? ? ? ?]. Qed.

Lemma calm_frame {A} (m : Swarm.step A) : frame m → calm_step (core m).
Proof. intros Hm. by apply calm_core, good_keeps, keeps_store. Qed.

Lemma calm_event w order addr ev :
  event_ok ev → calm_step (event_branch sha1 c w order addr ev).
Proof.
  intros He. unfold event_branch. apply calm_bind; [apply calm_frame; intros s; by destruct s|intros _].
  apply calm_bind; [apply calm_set_haves|intros _].
  apply calm_bind; [apply calm_hooks, good_peer_event|intros _].
  apply calm_bind; [apply calm_read|intros haves]. apply calm_bind; [apply calm_set_haves|intros _].
  apply calm_bind; [apply calm_read|intros blocked]. by apply calm_core, good_event.
Qed.

Lemma calm_add_peers addrs : calm_step (core (modify (λ s, set_peer_mgr (add_peers addrs (s_peer_mgr s)) s))).
Proof. apply calm_frame. intros s. by destruct s. Qed.

Lemma calm_plain_event e : is_completed e = false → calm_step (core (modify (add_event e))).
Proof. intros He. apply calm_frame. intros s. by apply view_event. Qed.

(** The announce is recorded; the rest is calm. *)
Lemma announce_spec now ev a l :
  store_part l →
  let l' := (announce_to_tracker c now ev a l).1 in
  calm l l' ∨ ∃ r, event r = ev ∧ calm (add_announce r l) l'.
Proof.
  intros Hl l'. subst l'.
  assert (calm_step (on_answer c now a)) as Hans.
  { unfold on_answer.
    assert (∀ x, calm_step (modify (set_next_announce (Url := Url) x))) as H1
      by (intros x; apply calm_modify; by intros []).
    assert (∀ f, calm_step (modify (λ l : LoopState Url, set_tracker_status (f l) l))) as H2
      by (intros f; apply calm_modify; by intros []).
    destruct a as [resp|message];
      (apply calm_bind; [apply H1|intros _]); (apply calm_bind; [apply H2|intros _]);
      (apply calm_bind; [by apply calm_plain_event|intros _]); [apply calm_add_peers|apply calm_lift]. }
  unfold announce_to_tracker. destruct (negb _); [left; by apply calm_refl|].
  unfold sbind at 1, lift. destruct (total_size _) as [total|e| |]; try (left; by apply calm_refl).
  right. unfold sbind, read, id, modify. cbn zeta.
  eexists. split; [|apply Hans; by destruct l]. done.
Qed.

Lemma announces_add ev r l :
  announces_of ev (add_announce r l) = (announces_of ev l + if decide (event r = ev) then 1 else 0)%nat.
Proof.
  destruct l. unfold announces_of. cbn. rewrite filter_app, length_app, filter_cons, filter_nil.
  by destruct (decide (event r = ev)).
Qed.

Lemma calm_announces ev l l' : calm l l' → announces_of ev l' = announces_of ev l.
Proof. intros (_ & _ & _ & _ & H & _). unfold announces_of. by rewrite H. Qed.

(** An announce of an event that is not counted. *)
Lemma announce_inv now ev a l :
  ev ≠ Completed → ev ≠ Stopped → l_running l = true → loop_inv l →
  loop_inv (announce_to_tracker c now ev a l).1 ∧ l_running (announce_to_tracker c now ev a l).1 = true.
Proof.
  intros Hc Hs Hr Hl. destruct (announce_spec now ev a l (proj1 Hl)) as [H|(r & Hev & H)].
  - split; [by apply (calm_inv l)|]. destruct H as (_ & _ & _ & _ & _ & H). congruence.
  - destruct Hl as (H1 & H2 & A1 & A2 & A3).
    assert (loop_inv (add_announce r l)) as Hl'.
    { split; [by destruct l|]. split; [by destruct l|]. unfold announce_part.
      rewrite !announces_add, !decide_False, !Nat.add_0_r by congruence. destruct l. cbn in *. subst.
      split_and!; try done. left. by apply A2. }
    split; [by apply (calm_inv (add_announce r l))|]. destruct H as (_ & _ & _ & _ & _ & H). rewrite H. by destruct l.
Qed.

Lemma finished_inv l :
  no_missing (l_core l) → loop_inv l → loop_inv (core (modify (add_event TorrentFinished)) l).1.
Proof.
  intros Hm ([(P1 & P2 & P3 & P4 & P5) He] & (S1 & S2 & S3) & Ha).
  destruct l as [[s t h] es ? ? ? ? ? ? ? ? ? ?]. destruct s. cbn in *. split; [|split; [|exact Ha]].
  - split.
    + split_and!; try done. cbn. intros i [Hi|Hi%list_elem_of_singleton]%elem_of_app; [by apply P5|done].
    + eapply Forall_impl; [exact He|]. intros d. by destruct d.
  - split_and!; done.
Qed.

(** The part of [update_status] that reports a change of the state. *)
Lemma report_inv old l :
  loop_inv l → (ts_state (x_status (l_ctx l)) = Seeding → no_missing (l_core l)) →
  pwp (λ _, True) (report_state (Url := Url) old (ts_state (x_status (l_ctx l))))
    (λ _ l', loop_inv l' ∧ l_running l' = l_running l ∧ l_announced_completed l' = l_announced_completed l ∧
       (no_missing (l_core l) → no_missing (l_core l'))) l.
Proof.
  intros Hl Hs. unfold report_state. case_bool_decide as Hsame; [by split_and!|].
  apply pwp_bind. eapply pwp_mono; [apply (pwp_state _ (calm l)); [by apply calm_plain_event, Hl|exact (λ _ H, H)]|done|].
  intros [] l1 H1. assert (no_missing (l_core l) → no_missing (l_core l1)) as Hm.
  { apply store_le_complete; [apply store_part_pm, Hl|apply H1]. }
  pose proof (calm_inv l l1 H1 Hl) as Hl1. destruct H1 as (_ & _ & _ & Hc & _ & Hr).
  case_bool_decide as Hseed; [|by split_and!].
  eapply pwp_mono; [apply (pwp_state (E := λ _, True) _ (λ l', loop_inv l' ∧ l_running l' = l_running l1 ∧
    l_announced_completed l' = l_announced_completed l1 ∧ s_piece_mgr (l_core l') = s_piece_mgr (l_core l1)))|done|].
  - split; [by apply finished_inv; [apply Hm, Hs|]|]. destruct l1 as [[s t h] ? ? ? ? ? ? ? ? ? ? ?]. by destruct s.
  - done.
  - intros [] l2 (H2 & H3 & H4 & ->). split_and!; [done|congruence..|done].
Qed.

(** [update_status] may find the torrent complete; only then it reports the end and announces it. *)
Lemma status_inv w a l :
  l_running l = true → loop_inv l →
  pwp (λ _, True) (update_status c w a) (λ _ l', loop_inv l' ∧ l_running l' = true) l.
Proof.
  intros Hr Hl. unfold update_status. apply pwp_read. cbn zeta. apply pwp_lift; [done|intros total _].
  apply pwp_lift; [done|intros all _]. apply pwp_read. apply pwp_lift; [done|intros down _].
  apply pwp_lift; [done|intros up _]. apply pwp_modify. unfold change_status. apply pwp_modify. apply pwp_read.
  set (pm := s_piece_mgr (l_core l)). cbv beta. unfold id.
  match goal with |- context [set_ctx (set_status ?t ?x) ?k] => set (st := t); set (l2 := set_ctx (set_status st x) k) end.
  assert (l_core l2 = l_core l ∧ l_exts l2 = l_exts l ∧ l_announces l2 = l_announces l ∧
    l_announced_completed l2 = l_announced_completed l ∧ l_running l2 = l_running l ∧ x_status (l_ctx l2) = st) as
    (E1 & E2 & E3 & E4 & E5 & E6) by (by subst l2; destruct l as [[] ? ? ? ? ? ? ? ? ? ? ?]).
  assert (ts_state st = if bool_decide (missing_pieces pm = []) then Seeding else ts_state (x_status (l_ctx l))) as Est
    by (by subst st; destruct l as [[] ? ? ? ? ? ? ? ? ? ? ?]).
  clearbody st l2.
  assert (loop_inv l2) as Hl2.
  { destruct Hl as (H1 & (S1 & S2 & S3) & A1 & A2 & A3). unfold loop_inv, store_part, status_part, announce_part, announces_of in *.
    rewrite E1, E2, E3, E4, E5, E6, Est. split_and!; auto. all: try apply H1.
    case_bool_decide; [done|]. apply S1. }
  apply pwp_bind. eapply pwp_mono; [apply report_inv; [exact Hl2|apply Hl2]|done|].
  intros [] l3 (H3 & R3 & C3 & M3). apply pwp_modify. apply pwp_read.
  set (l4 := set_peer_statuses _ l3).
  assert (loop_inv l4 ∧ l_running l4 = true ∧ l_announced_completed l4 = l_announced_completed l ∧
    l_core l4 = l_core l3 ∧ store_part l4) as (H4 & R4 & C4 & M4 & P4).
  { subst l4. destruct l3. cbn in *. split_and!; try done; try congruence. apply H3. }
  clearbody l4. destruct (bool_decide (missing_pieces pm = [])) eqn:Hm; [|done]. apply bool_decide_eq_true in Hm.
  assert (no_missing (l_core l4)) as Hm4. { rewrite M4. apply M3. by rewrite E1. }
  destruct (l_announced_completed l4) eqn:Hc; [done|]. cbn [negb andb].
  apply pwp_bind, pwp_ignore.
  set (Q := λ l', loop_inv (set_announced_completed l') ∧ l_running (set_announced_completed l') = true).
  change (pwp Q (announce_to_tracker c (w_now w) Completed a) (λ _, Q) l4).
  apply (pwp_state _ Q); [|done]. subst Q. cbv beta.
  destruct (announce_spec (w_now w) Completed a l4 P4) as [H|(r & Hev & H)].
  - pose proof (calm_inv l4 _ H H4) as (K1 & (S1 & S2 & S3) & A1 & A2 & A3).
    pose proof (store_le_complete _ _ (store_part_pm _ P4) (proj1 (proj2 H)) Hm4) as Hm5.
    destruct H as (_ & _ & _ & HC & _ & HR). rewrite Hc in HC. rewrite R4 in HR.
    revert K1 S1 S2 S3 A1 A2 A3 Hm5 HC HR. generalize (announce_to_tracker c (w_now w) Completed a l4).1.
    intros l5 K1 S1 S2 S3 A1 A2 A3 Hm5 HC HR. destruct l5. cbn in *. subst. split; [|done].
    split; [done|]. split; [by split_and!|]. split_and!; try done. unfold announces_of in *. cbn in *. lia.
  - assert (no_missing (l_core (add_announce r l4))) as Hma by (by destruct l4).
    assert (store_part (add_announce r l4)) as Hpa by (by destruct l4).
    pose proof (store_le_complete _ _ (store_part_pm _ Hpa) (proj1 (proj2 H)) Hma) as Hm5.
    pose proof (calm_announces Completed _ _ H) as HN. pose proof (calm_announces Stopped _ _ H) as HS.
    rewrite announces_add in HN, HS. rewrite decide_True in HN by done. rewrite decide_False in HS by congruence.
    destruct H4 as (_ & _ & A1 & A2 & _). rewrite Hc in A1. specialize (A2 R4). rewrite A2 in HS.
    destruct H as (K1 & _ & _ & HC & _ & HR).
    assert (l_running (add_announce r l4) = true) as HR4 by (by destruct l4). rewrite HR4 in HR.
    revert K1 Hm5 HN HS HR. generalize (announce_to_tracker c (w_now w) Completed a l4).1.
    intros l5 K1 Hm5 HN HS HR. destruct l5. cbn in *. subst. split; [|done].
    split; [done|]. split; [by split_and!|]. unfold announce_part. unfold announces_of in *. cbn in *.
    split_and!; [lia|done|by left].
Qed.

Abbreviation alive l := (loop_inv l ∧ l_running l = true).

Lemma alive_calm {A} (m : Step.step (LoopState Url) A) l :
  calm_step m → alive l → pwp (λ _, True) m (λ _ l', alive l') l.
Proof.
  intros Hm [Hl Hr]. apply pwp_state; [|done]. specialize (Hm l (proj1 Hl)).
  split; [by apply (calm_inv l)|]. destruct Hm as (_ & _ & _ & _ & _ & ->). done.
Qed.

Lemma if_needed_inv now a l :
  alive l → pwp (λ _, True) (announce_if_needed c now a) (λ _ l', alive l') l.
Proof.
  intros [Hl Hr]. unfold announce_if_needed. destruct (negb _); [by split|]. apply pwp_read. cbn zeta.
  destruct (negb _); [by split|]. apply pwp_read. apply pwp_bind, pwp_attempt.
  assert (∀ ev, ev ≠ Completed → ev ≠ Stopped → alive (announce_to_tracker c now ev a l).1) as Ha
    by (intros ev H1 H2; by apply announce_inv).
  set (Q := λ l', alive l').
  assert (∀ l', Q l' → Q (set_has_announced l')) as Hset by (intros l' [H1 H2]; by destruct l').
  match goal with |- pwp ?E ?m ?R l => assert (pwp Q m (λ _, Q) l) as Hp end.
  { apply pwp_state; [|done]. apply Ha; by destruct (l_has_announced l). }
  eapply pwp_mono; [exact Hp|intros l' H' _; exact H'|intros [] l' H'; by apply Hset].
Qed.

Lemma tick_inv w a1 a2 announced outcomes l :
  alive l → pwp (λ _, True) (tick_branch sha1 c w a1 a2 announced outcomes) (λ _ l', alive l') l.
Proof.
  intros [Hl Hr]. unfold tick_branch. apply pwp_bind. eapply pwp_mono; [by apply status_inv|done|].
  intros [] l1 H1. apply pwp_bind. eapply pwp_mono; [by apply if_needed_inv|done|].
  intros [] l2 H2. apply pwp_read. apply pwp_bind. eapply pwp_mono; [apply alive_calm; [|exact H2]|done|].
  - apply calm_frame, keeps_ignore, frame_connect.
  - intros [] l3 H3. apply alive_calm; [|done]. apply calm_hooks, good_tick.
Qed.

Lemma set_state_inv st l :
  st ≠ Seeding → loop_inv l → loop_inv (set_ctx (set_status (set_state st (x_status (l_ctx l))) (l_ctx l)) l).
Proof.
  intros Hst (H1 & (S1 & S2 & S3) & Ha). destruct l as [[s [] h] ? ? ? ? ? ? ? ? ? ? ?].
  split; [exact H1|]. split; [|exact Ha]. split_and!; try done.
Qed.

Lemma control_inv w a cmd l :
  alive l → pwp (λ _, True) (control_branch sha1 c w a cmd) (λ _ l', loop_inv l') l.
Proof.
  intros [Hl Hr]. destruct cmd as [[| | |addr conn]|]; cbn [control_branch]; cycle -1.
  3: by apply set_state_inv. 2: by apply set_state_inv.
  3: { apply pwp_read. eapply pwp_mono; [apply alive_calm; [|by split]|done|by intros [] l' []].
       apply calm_frame, keeps_ignore, frame_register. }
  all: apply pwp_bind, pwp_ignore; set (Q := λ l', loop_inv (set_stopped l'));
    change (pwp Q (announce_to_tracker c (w_now w) Stopped a) (λ _, Q) l);
    apply pwp_state; [|done]; subst Q; cbv beta;
    destruct (announce_spec (w_now w) Stopped a l (proj1 Hl)) as [H|(r & Hev & H)].
  1, 3: pose proof (calm_inv l _ H Hl) as (K1 & K2 & A1 & A2 & A3);
    destruct (announce_to_tracker c (w_now w) Stopped a l).1; by split_and!.
  all: destruct Hl as (H1 & H2 & A1 & A2 & _); specialize (A2 Hr);
    assert (loop_inv (set_stopped (add_announce r l))) as Hadd;
    [split; [by destruct l|]; split; [by destruct l|]; unfold announce_part;
     pose proof (announces_add Completed r l) as HC; rewrite decide_False in HC by congruence;
     destruct l; unfold announces_of in *; cbn in *; split_and!; [rewrite HC; lia|done|right];
     eexists _, r; split; [reflexivity|]; split; [done|]; apply Forall_forall; intros x Hx Hs;
     apply (not_elem_of_nil x); erewrite <- (nil_length_inv (filter _ _)); [|exact A2];
     by apply list_elem_of_filter
    |apply (calm_inv (set_stopped (add_announce r l))); [|exact Hadd]].
  all: revert H; generalize (announce_to_tracker c (w_now w) Stopped a l).1; clear; intros l' (K1 & K2 & K3);
    destruct l, l'; unfold calm, same_life in *; cbn in *; split_and!; try apply K3; done.
Qed.

Lemma web_inv w reply j k l l' :
  geometry_ok (c_info cs) → alive l → web_step sha1 ln c w reply j k l = Some l' → loop_inv l'.
Proof.
  intros Hg [([Hs He] & Hst & Ha) Hr] Hw. unfold web_step in Hw.
  destruct (l_exts l !! j) as [[|e|e]|] eqn:Hj; try done.
  destruct (service e) as [urls|]; [|done]. destruct (tasks e !! k) as [t|] eqn:Hk; [|done].
  destruct (task_step _ _ _ _ _ _ _ _ _) as [[s' urls'] t'] eqn:Hstep. injection Hw as <-.
  rewrite Forall_forall in He. pose proof (He _ (list_elem_of_lookup_2 _ _ _ Hj)) as Het. cbn [ext_ok] in Het.
  rewrite Forall_forall in Het. pose proof (Het _ (list_elem_of_lookup_2 _ _ _ Hk)) as Ht.
  pose proof (task_step_ok sha1 ln (web_config e) cs base w reply urls t (l_core l) s' urls' t' Hg Hs Ht Hstep)
    as (G1 & G2 & G3 & _ & _ & _ & G7 & _ & G9).
  assert (Piece.num_pieces (s_piece_mgr s') = Piece.num_pieces (s_piece_mgr (l_core l))) as Hnum by
    (by eapply task_step_num).
  assert (store_le (l_core l) s') as Hle by (split_and!; [apply G1|done|done|done|by rewrite G7]).
  assert (no_missing (l_core l) → no_missing s') as Hm by (apply store_le_complete; [apply Hs|done]).
  destruct l as [[s st h] es ? ? ? ? ? ? ? ? ? ?]. cbn in *. split; [split|split]; cbn.
  - done.
  - apply Forall_insert; [|].
    + apply Forall_forall. intros d Hd. apply (ext_ok_grows s); [done|by apply He].
    + cbn [ext_ok tasks set_tasks]. apply Forall_insert; [|done]. apply Forall_forall. intros u Hu.
      apply (task_ok_grows sha1 cs s); [done|by apply Het].
  - destruct Hst as (S1 & S2 & S3). split_and!; cbn in *; auto. rewrite G7. auto.
  - exact Ha.
Qed.
End invariants.

Lemma loop_step_inv {Url} `{UrlCrate Url} sha1 ln c base (l l' : LoopState Url) :
  geometry_ok (c_info (lc_swarm c)) → loop_step sha1 ln c l l' →
  loop_inv sha1 c base l → loop_inv sha1 c base l'.
Proof.
  intros Hg Hstep Hl. destruct Hstep as [w order addr ev l' Hr He E|w a1 a2 ann os l' Hr E|w a cmd l' Hr E|
    w pick order l' Hr E|now l' Hr E|w reply j k l' Hr E|addrs l' E].
  - pose proof (calm_event sha1 c base w order addr ev He l (proj1 Hl)) as Hc. rewrite E in Hc. by apply (calm_inv _ _ _ l).
  - pose proof (tick_inv sha1 c base w a1 a2 ann os l (conj Hl Hr)) as Hc. unfold pwp in Hc. rewrite E in Hc. apply Hc.
  - pose proof (control_inv sha1 c base w a cmd l (conj Hl Hr)) as Hc. unfold pwp in Hc. by rewrite E in Hc.
  - pose proof (calm_frame sha1 c base _ (keeps_ignore _ _ (frame_round (lc_swarm c) w pick order)) l (proj1 Hl)) as Hc.
    rewrite E in Hc. by apply (calm_inv _ _ _ l).
  - pose proof (calm_frame sha1 c base _ (frame_expire (lc_swarm c) now) l (proj1 Hl)) as Hc.
    rewrite E in Hc. by apply (calm_inv _ _ _ l).
  - by apply (web_inv sha1 ln c base w reply j k l).
  - pose proof (calm_add_peers sha1 c base addrs l (proj1 Hl)) as Hc. rewrite E in Hc. by apply (calm_inv _ _ _ l).
Qed.

(** The extensions as they are registered. *)
Definition fresh_ext {Url} (d : DynExtension Url) : Prop :=
  match d with
  | DynPex _ => True
  | DynSuperSeed e => e = super_seed_new
  | DynWebSeed e => service e = None ∧ tasks e = []
  end.

Lemma builder_fresh {Url} pex interval ss web urls cfg n :
  Forall (fresh_ext (Url := Url)) (maybe_webseed web urls cfg n (maybe_super_seed ss (maybe_pex pex interval []))).
Proof.
  unfold maybe_webseed, maybe_super_seed, maybe_pex.
  destruct pex, ss, (web && _); cbn; repeat first [apply List.Forall_cons|apply List.Forall_nil]; done.
Qed.

Lemma loop_inv_reachable {Url} `{UrlCrate Url} sha1 ln c pm mgr max status tracker exts (l : LoopState Url) :
  geometry_ok (c_info (lc_swarm c)) → pm_ok pm → Forall fresh_ext exts →
  reachable sha1 ln c (loop_new pm mgr max status tracker exts) l → loop_inv sha1 c (has_piece pm) l.
Proof.
  intros Hg Hp Hf (l1 & Hs & Hr).
  assert (loop_inv sha1 c (has_piece pm) l1) as Hl1.
  { unfold run_start in Hs. unfold sbind at 1, change_status, modify in Hs.
    set (l0 := set_ctx _ _) in Hs.
    assert (loop_inv sha1 c (has_piece pm) l0) as H0.
    { subst l0. split; [split|split]; cbn.
      - by apply store_inv_new.
      - eapply Forall_impl; [exact Hf|]. intros [e|e|e]; cbn; [done|intros ->; apply super_seed_new_ok|].
        intros [_ ->]. by apply Forall_nil.
      - destruct status. split_and!; cbn; try done. by intros ?%not_elem_of_nil.
      - split_and!; cbn; try done. by left. }
    pose proof (calm_hooks sha1 c (has_piece pm) _ (good_start sha1 c) l0 (proj1 H0)) as Hc.
    rewrite Hs in Hc. by apply (calm_inv _ _ _ l0). }
  clear Hs. induction Hr as [|l1 l2 l3 Hstep _ IH]; [done|]. by apply IH, (loop_step_inv sha1 ln c _ l1).
Qed.
