(* ===== verification/TorrentLife.v ===== *)
(** What the whole loop of a torrent promises to the outside: what it says about itself, and to whom
    a super seed uploads. *)

From stdpp Require Import base numbers list gmap strings relations.
From Stdlib Require Import ZArith Lia SpecFloat.
From S2P Require Import Prelude Facts F64 Error Net PeerMessage Piece Metainfo Tracker Download PeerManager Upload.
From S2P Require Import Step Swarm Pipeline Choke Registration SwarmFacts ExtContext SuperSeed PexExt WebSeed Uploads.
From S2P Require Import SwarmLoop WebSeedFacts FullLoop FullLoopFacts.

(** C4: a torrent says about itself what is true, and in order. For a torrent with as many pieces as its
    size calls for ([geometry_ok]), in every state that its loop reaches, whatever happens around it: it is reported as seeding, its end is reported, and its completion is
    announced to the tracker only when no piece is missing; completion is announced at most once; and
    after [Stopped] is announced nothing more is, and the loop has ended. *)
Theorem torrent_life_cycle : ∀ (Url : Type) `(UrlCrate Url) sha1 ln c pm mgr max status tracker exts
    (l : LoopState Url),
  geometry_ok (c_info (lc_swarm c)) → pm_ok pm → Forall fresh_ext exts →
  reachable sha1 ln c (loop_new pm mgr max status tracker exts) l →
  let complete := missing_pieces (s_piece_mgr (l_core l)) = [] in
  (ts_state (x_status (l_ctx l)) = Seeding → complete) ∧
  (TorrentFinished ∈ s_events (l_core l) → complete) ∧
  (∀ r, r ∈ l_announces l → event r = Completed → complete) ∧
  (announces_of Completed l ≤ 1)%nat ∧
  (∀ rs r rs', l_announces l = rs ++ r :: rs' → event r = Stopped → rs' = [] ∧ l_running l = false).
Proof.
  intros Url HU sha1 ln c pm mgr max status tracker exts l Hg Hp Hf Hr complete.
  destruct (loop_inv_reachable sha1 ln c pm mgr max status tracker exts l Hg Hp Hf Hr)
    as (_ & (S1 & S2 & S3) & A1 & A2 & A3).
  assert (∀ ev r, r ∈ l_announces l → event r = ev → (0 < announces_of ev l)%nat) as Hpos.
  { intros ev r Hin Hev. unfold announces_of. destruct (filter _ _) eqn:E; [|cbn; lia].
    exfalso. apply (not_elem_of_nil r). rewrite <- E. by apply list_elem_of_filter. }
  split; [done|]. split; [done|]. split.
  { intros r Hin Hev. apply S3. pose proof (Hpos Completed r Hin Hev). destruct (l_announced_completed l); [done|lia]. }
  split; [destruct (l_announced_completed l); lia|].
  intros rs r rs' E Hev. assert (r ∈ l_announces l) as Hin by (rewrite E; apply elem_of_app; right; left).
  pose proof (Hpos Stopped r Hin Hev) as Hpos'. split.
  - destruct A3 as [A3|(rs0 & r0 & E0 & _ & Hall)]; [lia|].
    destruct rs' as [|x rs'] using rev_ind; [done|exfalso]. rewrite E0 in E.
    rewrite app_comm_cons, app_assoc in E. apply app_inj_tail in E as [-> _].
    apply (proj1 (Forall_forall _ _) Hall r); [|done]. apply elem_of_app. right. left.
  - destruct (l_running l); [|done]. specialize (A2 eq_refl). lia.
Qed.

(** * Super seeding *)

Lemma ss_blocked_grows addr ev p :
  s_blocked (x_core p.2) ⊆ s_blocked (x_core (ss_on_peer_event addr ev p).1.2).
Proof.
  destruct p as [e x]. destruct ev as [[]|]; try done; cbn [ss_on_peer_event].
  - unfold sbind, get_self, read, id. by case_bool_decide.
  - exact (proj2 (proj2 (ss_request_blocked addr index begin length e x))).
Qed.

Lemma keeps_blocked_send {E} w addr msg : keeps (λ p : E * ExtContext, s_blocked (x_core p.2)) (on_core (send_to w addr msg)).
Proof.
  intros [e x]. unfold on_core, send_to. destruct (_ !! _); [|done]. destruct (w_send _ _ _ _); [done|].
  destruct x as [s t h]. by destruct s.
Qed.

Lemma keeps_blocked_peer {E} addr f : keeps (λ p : E * ExtContext, s_blocked (x_core p.2)) (on_core (with_peer addr f)).
Proof.
  intros [e x]. unfold on_core, with_peer. destruct x as [s t h]. destruct s. cbn.
  destruct (_ !! _); [destruct (f _)|]; done.
Qed.

Lemma pex_keeps_blocked w addr ev : keeps (λ p, s_blocked (x_core p.2)) (pex_on_peer_event w addr ev).
Proof.
  assert (∀ {A} (f : PexExtension → A), keeps (λ p : PexExtension * ExtContext, s_blocked (x_core p.2)) (get_self f)) as H1
    by (intros A f []; done).
  assert (∀ {A} (f : SwarmState → A), keeps (λ p : PexExtension * ExtContext, s_blocked (x_core p.2)) (get_core f)) as H2
    by (intros A f []; done).
  assert (∀ d, keeps (λ p, s_blocked (x_core p.2)) (send_one w addr d)) as H3.
  { intros d. unfold send_one. do 2 (apply keeps_bind; [done|intros ?]). repeat (case_match; try done).
    apply keeps_bind; [done|intros ?]. apply keeps_bind; [apply keeps_blocked_send|intros _]. apply keeps_blocked_peer. }
  assert (∀ l, keeps (λ p : PexExtension * ExtContext, s_blocked (x_core p.2))
    (on_core (modify (λ s, set_peer_mgr (add_peers l (s_peer_mgr s)) s)))) as H4.
  { intros l [e x]. destruct x as [s t h]. by destruct s. }
  destruct ev as [[]|]; try done; cbn [pex_on_peer_event]; [|by intros []].
  case_match; [apply keeps_ignore|apply keeps_bind; [done|intros ?]; case_match; [apply keeps_ignore|done]].
  - unfold handle_ltep_handshake. do 3 (apply keeps_bind; [done|intros ?]). case_match; [|done].
    apply keeps_bind; [apply keeps_blocked_peer|intros _]. apply H3.
  - unfold handle_incoming_pex. do 2 (apply keeps_bind; [done|intros ?]).
    do 2 (apply keeps_bind; [apply H4|intros _]). apply keeps_blocked_peer.
Qed.

Section super_seed.
Context {Url : Type} `{URL : UrlCrate Url}.

(** The request of a peer for a piece that is assigned to another one. *)
Definition gated (e : SuperSeedExtension) (addr : SocketAddr) (ev : PeerEvent) (i : Z) : Prop :=
  i ∈ unrevealed e ∧ assignments e !! i ≠ Some addr ∧ ∃ b n, ev = Message (Request i b n).

Lemma within_blocked {E} (K : E → DynExtension Url) (m : hook E unit) e x :
  s_blocked (x_core (within K m e x).1.2) = s_blocked (x_core (m (e, x)).1.2).
Proof. unfold within. by destruct (m (e, x)) as [[e' x'] r]. Qed.

Lemma event_hook_blocked cfg w addr ev (d : DynExtension Url) x :
  s_blocked (x_core x) ⊆ s_blocked (x_core (on_peer_event cfg w addr ev (d, x)).1.2) ∧
  ∀ e i, d = DynSuperSeed e → gated e addr ev i →
    (i, addr) ∈ s_blocked (x_core (on_peer_event cfg w addr ev (d, x)).1.2).
Proof.
  destruct d as [e|e|e]; cbn [on_peer_event dyn_extension]; rewrite within_blocked; split; try done.
  - change (s_blocked (x_core x) ⊆ s_blocked (x_core (pex_on_peer_event w addr ev (e, x)).1.2)).
    pose proof (pex_keeps_blocked w addr ev (e, x)) as Hk. cbv beta in Hk. by rewrite Hk.
  - apply (ss_blocked_grows addr ev (e, x)).
  - intros e' i [= <-] (Hu & Ha & b & n & ->). by apply (proj1 (proj2 (ss_request_blocked addr i b n e x))).
Qed.

Lemma dispatch_blocked cfg w addr ev exts x :
  s_blocked (x_core x) ⊆ s_blocked (x_core (dispatch (Url := Url) (on_peer_event cfg w addr ev) exts x).1.1) ∧
  ∀ e i, (dispatch (Url := Url) (on_peer_event cfg w addr ev) exts x).2 = Ok tt →
    DynSuperSeed e ∈ exts → gated e addr ev i →
    (i, addr) ∈ s_blocked (x_core (dispatch (Url := Url) (on_peer_event cfg w addr ev) exts x).1.1).
Proof.
  revert x. induction exts as [|d exts IH]; intros x; cbn [dispatch].
  { split; [done|]. by intros e i _ ?%not_elem_of_nil. }
  destruct (event_hook_blocked cfg w addr ev d x) as [Hsub Hg]. unfold ignore_err.
  destruct (on_peer_event cfg w addr ev (d, x)) as [[d' x1] r]. cbn [fst snd] in *.
  destruct (IH x1) as [Hsub1 Hg1].
  assert (s_blocked (x_core x) ⊆ s_blocked (x_core (dispatch (on_peer_event cfg w addr ev) exts x1).1.1) ∧
    ∀ e i, (dispatch (on_peer_event cfg w addr ev) exts x1).2 = Ok tt →
      DynSuperSeed e ∈ d :: exts → gated e addr ev i →
      (i, addr) ∈ s_blocked (x_core (dispatch (on_peer_event cfg w addr ev) exts x1).1.1)) as Hrest.
  { split; [etransitivity; [exact Hsub|exact Hsub1]|]. intros e i Hok [<-|Hin]%elem_of_cons Hgate; [|by apply (Hg1 e)].
    apply Hsub1. by apply (Hg e). }
  destruct r as [[]|k| |]; try (split; [done|]; by intros e i ?);
    by destruct (dispatch _ exts x1) as [[x2 es] r2].
Qed.

Lemma dispatch_quiet (h : hook (DynExtension Url) unit) exts x :
  quiet_hook h → ctx_view (dispatch h exts x).1.1 = ctx_view x.
Proof.
  intros Hq. revert x. induction exts as [|d exts IH]; intros x; cbn [dispatch]; [done|].
  specialize (Hq (d, x)). unfold hook_view, ignore_err in *. destruct (h (d, x)) as [[d' x1] r].
  cbn [fst snd] in Hq. rewrite <- Hq, <- (IH x1). destruct r as [[]|k| |]; [..|by rewrite IH|by rewrite IH];
    by destruct (dispatch h exts x1) as [[x2 es] r2].
Qed.

Lemma broadcast_blocked w i : keeps s_blocked (broadcast_have w i).
Proof.
  unfold broadcast_have. apply keeps_bind; [done|intros pm]. apply keeps_for_each. intros a. apply keeps_ignore.
  intros s. unfold send_to. destruct (_ !! _); [|done]. destruct (w_send _ _ _ _); [done|]. by destruct s.
Qed.

(** What a round of the core uploads. *)
Lemma on_event_uploads sha1 cfg w blocked haves order addr ev s s' :
  event_ok ev → on_event sha1 cfg w blocked haves order addr ev s = (s', Ok tt) →
  (uploads s' = uploads s) ∨
  ∃ i b n d, ev = Message (Request i b n) ∧ (¬ (i, addr) ∈ blocked) ∧
    (uploads s' = uploads s ∨ uploads s' = uploads s ++ [(addr, PeerMessage.Piece i b d)]).
Proof.
  intros He E. unfold on_event in E. unfold sbind at 1, modify in E. set (s0 := set_blocked blocked s) in E.
  assert (uploads s0 = uploads s ∧ s_blocked s0 = blocked) as [U0 B0] by (by destruct s). clearbody s0.
  unfold sbind at 1 in E.
  pose proof (keeps_for_each upload_view haves (λ index, ignore_err (broadcast_have w index))
    (λ index, keeps_ignore _ _ (keeps_upload _ (frame_have w index))) s0) as U1.
  pose proof (keeps_for_each s_blocked haves (λ index, ignore_err (broadcast_have w index))
    (λ index, keeps_ignore _ _ (broadcast_blocked w index)) s0) as B1.
  destruct (for_each haves _ s0) as [s1 [[]|k| |]]; try done. cbn [fst] in *. injection U1 as U1 _.
  unfold sbind at 1 in E.
  pose proof (event_uploads sha1 cfg w addr ev s1 He) as Hev.
  destruct (handle_peer_event sha1 cfg w addr ev s1) as [s2 r] eqn:E2. cbn [fst snd] in Hev.
  destruct r as [[]|k| |]; try done. specialize (Hev ltac:(done)).
  assert (uploads s' = uploads s2) as U3.
  { unfold sbind, read in E. destruct (bool_decide _).
    - by injection E as <-.
    - pose proof (keeps_upload _ (keeps_ignore _ _ (frame_fill cfg w order)) s2) as U. rewrite E in U.
      cbn [fst] in U. by injection U as U _. }
  rewrite U3, <- U0, <- U1. destruct Hev as [Hev|(i & b & n & -> & Hup)].
  - left. by injection Hev as Hev _.
  - right. destruct Hup as (p & d & _ & _ & Hb & _ & _ & _ & Hu). exists i, b, n, d.
    split; [done|]. split; [by rewrite B1, B0 in Hb|]. rewrite Hu. destruct (connections _ !! _); [by right|].
    left. by rewrite app_nil_r.
Qed.
End super_seed.

(** C19: a super seed gives each of its new pieces to one peer at a time. For a torrent with as many
    pieces as its size calls for ([geometry_ok]), in every state that the loop reaches, the pieces that are not revealed yet are those with an assignment, no two of them to the
    same peer; and a round of the loop, whatever message a peer sends, uploads such a piece to no
    other peer than the one it is assigned to. *)
Theorem super_seed_is_exclusive : ∀ (Url : Type) `(UrlCrate Url) sha1 ln c pm mgr max status tracker exts
    (l : LoopState Url) e,
  geometry_ok (c_info (lc_swarm c)) → pm_ok pm → Forall fresh_ext exts →
  reachable sha1 ln c (loop_new pm mgr max status tracker exts) l → DynSuperSeed e ∈ l_exts l →
  (∀ i, i ∈ unrevealed e ↔ is_Some (assignments e !! i)) ∧
  (∀ i j a, assignments e !! i = Some a → assignments e !! j = Some a → i = j) ∧
  ∀ w order addr ev l' i a, event_ok ev → assignments e !! i = Some a →
    event_branch sha1 c w order addr ev l = (l', Ok tt) →
    ∀ dst b d, (dst, PeerMessage.Piece i b d) ∈ s_sent (l_core l') →
      (dst, PeerMessage.Piece i b d) ∈ s_sent (l_core l) ∨ dst = a.
Proof.
  intros Url HU sha1 ln c pm mgr max status tracker exts l e Hg Hp Hf Hr Hin.
  destruct (loop_inv_reachable sha1 ln c pm mgr max status tracker exts l Hg Hp Hf Hr) as ([_ Hext] & _).
  rewrite Forall_forall in Hext. destruct (Hext _ Hin) as [Hdom Hinj]. clear Hext.
  split; [intros i; by rewrite <- Hdom, elem_of_dom|]. split; [exact Hinj|].
  intros w order addr ev l' i a He Ha E dst b d.
  assert (i ∈ unrevealed e) as Hu by (rewrite <- Hdom; by apply elem_of_dom).
  assert (∀ s, (dst, PeerMessage.Piece i b d) ∈ s_sent s ↔ (dst, PeerMessage.Piece i b d) ∈ uploads s) as Hup.
  { intros s. unfold uploads. rewrite list_elem_of_filter. tauto. }
  rewrite !Hup. unfold event_branch in E.
  unfold sbind at 1, core at 1, modify at 1 in E. unfold sbind at 1, modify at 1 in E.
  set (l0 := set_ctx (set_haves [] _) _) in E.
  assert (uploads (l_core l0) = uploads (l_core l) ∧ l_exts l0 = l_exts l) as [U0 X0].
  { subst l0. destruct l as [[s t h] ? ? ? ? ? ? ? ? ? ? ?]. by destruct s. }
  clearbody l0. unfold sbind at 1, run_hooks in E.
  destruct (dispatch_blocked (lc_swarm c) w addr ev (l_exts l0) (l_ctx l0)) as [_ Hb].
  pose proof (dispatch_quiet (on_peer_event (lc_swarm c) w addr ev) (l_exts l0) (l_ctx l0)
    (quiet_event (lc_swarm c) w addr ev)) as Hq.
  destruct (dispatch _ (l_exts l0) (l_ctx l0)) as [[x es] r]. cbn [fst snd] in *.
  destruct r as [[]|k| |]; try done. specialize (Hb e i eq_refl ltac:(by rewrite X0)).
  unfold sbind at 1, read in E. unfold sbind at 1, modify in E. unfold sbind in E.
  set (l1 := set_ctx (set_haves [] _) _) in E.
  assert (x_core (l_ctx l1) = x_core x) as E1 by (subst l1; by destruct l0). clearbody l1.
  unfold core in E. rewrite E1 in E.
  destruct (on_event _ _ _ _ _ _ _ _ _) as [s' r'] eqn:Eon. injection E as <- ->.
  assert (x_core (l_ctx (set_ctx (set_core s' (l_ctx l1)) l1)) = s') as -> by (by destruct l1).
  assert (uploads (x_core x) = uploads (l_core l)) as Ux.
  { rewrite <- U0. unfold ctx_view, quiet_view, uploads in *. congruence. }
  destruct (on_event_uploads _ _ _ _ _ _ _ _ _ _ He Eon) as [->|(j & b' & n & d' & -> & Hnb & Hu')].
  { rewrite Ux. by left. }
  rewrite Ux in Hu'. destruct Hu' as [->| ->]; [by left|]. intros [Hold|Hnew]%elem_of_app; [by left|right].
  apply list_elem_of_singleton in Hnew as [= -> <- <- <-].
  destruct (decide (addr = a)) as [|Hne]; [done|exfalso]. apply Hnb, Hb.
  split; [done|]. split; [congruence|]. by eexists _, _.
Qed.

(** * A sample run: a complete torrent with super seeding, and a tracker *)

#[local] Instance plain_urls : UrlCrate bytes :=
  {| url_eq_dec := _; url_parse := Some; url_path := id; url_join u r := Some (u ++ r); request_target _ := true |}.

Definition sample_loop_config : LoopConfig :=
  {| lc_swarm := sample_config; lc_peer_id := []; lc_listen_port := 6881; lc_announce_ip := None;
     lc_announce_ipv6 := None; lc_has_tracker := true; lc_fallback_interval := 60 * 10 ^ 9;
     lc_started_at := 0; lc_version := [] |}.

Definition sample_complete : PieceManager := set_piece (set_piece (pm_new 2) 0) 1.

Definition sample_tracker_status : TrackerStatus :=
  {| tr_url := []; tr_next_announce_in := None; tr_announce_interval := 0; tr_seeds_reported := 0;
     tr_leechers_reported := 0; tr_last_error := None |}.

Definition sample_exts : list (DynExtension bytes) :=
  maybe_webseed false [] web_config_default 0 (maybe_super_seed true (maybe_pex true 60 [])).

Definition sample_loop : LoopState bytes :=
  loop_new sample_complete (s_peer_mgr sample_seed) 4 (x_status pex_here) sample_tracker_status sample_exts.

Definition sample_answer : AnnounceResponse + bytes :=
  inl {| interval := 1800; complete := 1; incomplete := 0; Tracker.peers := []; warning_message := None;
         tracker_id := None; min_interval := None |}.

Definition sample_started : LoopState bytes := (run_start sample_loop_config sample_loop).1.

Definition sample_ticked : LoopState bytes :=
  (tick_branch toy_hash sample_loop_config sample_world sample_answer sample_answer [] [] sample_started).1.

Definition sample_stopped : LoopState bytes :=
  (control_branch toy_hash sample_loop_config sample_world sample_answer (Some Cancel) sample_ticked).1.

Lemma sample_geometry : geometry_ok (c_info (lc_swarm sample_loop_config)).
Proof. exists 8. split; [reflexivity|]. by vm_compute. Qed.

Lemma sample_fresh : Forall fresh_ext sample_exts.
Proof. apply builder_fresh. Qed.

Lemma sample_stops :
  reachable toy_hash (λ x, x) sample_loop_config sample_loop sample_stopped.
Proof.
  exists sample_started. split; [by vm_compute|].
  eapply rtc_l; [apply (Loop_tick _ _ _ _ sample_world sample_answer sample_answer [] [] sample_ticked); by vm_compute|].
  eapply rtc_l; [apply (Loop_control _ _ _ _ sample_world sample_answer (Some Cancel) sample_stopped); by vm_compute|].
  apply rtc_refl.
Qed.

(** The seed tells the tracker that it is complete before it tells it that it has started. *)
Example completed_before_started :
  map event (l_announces sample_stopped) = [Completed; Stopped].
Proof. by vm_compute. Qed.

Lemma torrent_life_cycle_witness :
  l_running sample_stopped = false ∧ missing_pieces (s_piece_mgr (l_core sample_stopped)) = [].
Proof.
  destruct (torrent_life_cycle bytes plain_urls toy_hash (λ x, x) sample_loop_config sample_complete
    (s_peer_mgr sample_seed) 4 (x_status pex_here) sample_tracker_status sample_exts sample_stopped
    sample_geometry) as (H1 & _ & _ & _ & H5).
  - reflexivity.
  - exact sample_fresh.
  - exact sample_stops.
  - assert (∃ r0 r, l_announces sample_stopped = [r0] ++ r :: [] ∧ event r = Stopped) as (r0 & r & E & Hr)
      by (eexists _, _; split; [vm_compute; reflexivity|reflexivity]).
    split; [exact (proj2 (H5 [r0] r [] E Hr))|]. apply H1. by vm_compute.
Defined.

(** A peer that wants pieces and does not choke us gets piece 0 assigned. *)
Definition super_start : LoopState bytes :=
  (run_start sample_loop_config
    (loop_new sample_complete (peer_manager_new [] [] 5 10 3 60) 4 (x_status pex_here) sample_tracker_status
      sample_exts)).1.

Definition super_branches : list (Step.step (LoopState bytes) unit) :=
  [control_branch toy_hash sample_loop_config sample_world sample_answer
     (Some (InboundPeer sample_peer (replicate 8 0)));
   event_branch toy_hash sample_loop_config sample_world [] sample_peer (Message Interested);
   event_branch toy_hash sample_loop_config sample_world [] sample_peer (Message Unchoke);
   tick_branch toy_hash sample_loop_config sample_world sample_answer sample_answer [] []].

Definition super_assigned : LoopState bytes := foldl (λ l m, (m l).1) super_start super_branches.

Definition super_extension : SuperSeedExtension :=
  {| assignments := {[0 := sample_peer]}; unrevealed := {[0]} |}.

Lemma super_run :
  reachable toy_hash (λ x, x) sample_loop_config
    (loop_new sample_complete (peer_manager_new [] [] 5 10 3 60) 4 (x_status pex_here) sample_tracker_status
      sample_exts) super_assigned.
Proof.
  exists super_start. split; [by vm_compute|]. unfold super_assigned, super_branches. cbn [foldl].
  eapply rtc_l; [apply (Loop_control _ _ _ _ sample_world sample_answer (Some (InboundPeer sample_peer (replicate 8 0))));
    [by vm_compute|by vm_compute]|].
  eapply rtc_l; [apply (Loop_event _ _ _ _ sample_world [] sample_peer (Message Interested));
    [by vm_compute|exact I|by vm_compute]|].
  eapply rtc_l; [apply (Loop_event _ _ _ _ sample_world [] sample_peer (Message Unchoke));
    [by vm_compute|exact I|by vm_compute]|].
  eapply rtc_l; [apply (Loop_tick _ _ _ _ sample_world sample_answer sample_answer [] []); by vm_compute|].
  apply rtc_refl.
Qed.

(** What the assigned peer gets when it asks for the piece. *)
Definition super_served : LoopState bytes * result unit :=
  event_branch toy_hash sample_loop_config sample_world [] sample_peer (Message (Request 0 0 4)) super_assigned.

Lemma super_seed_is_exclusive_witness :
  Forall (λ '(dst, m), match m with PeerMessage.Piece 0 _ _ => dst = sample_peer | _ => True end)
    (s_sent (l_core super_served.1)).
Proof.
  destruct (super_seed_is_exclusive bytes plain_urls toy_hash (λ x, x) sample_loop_config sample_complete
    (peer_manager_new [] [] 5 10 3 60) 4 (x_status pex_here) sample_tracker_status sample_exts super_assigned
    super_extension sample_geometry) as (_ & _ & H).
  - reflexivity.
  - exact sample_fresh.
  - exact super_run.
  - apply (list_elem_of_lookup_2 _ 1). vm_compute. reflexivity.
  - apply Forall_forall. intros [dst [ | | | | | | | | [|p|p] b d | | | | | | | | | ]] Hin; try exact I.
    destruct (H sample_world [] sample_peer (Message (Request 0 0 4)) super_served.1 0 sample_peer ltac:(apply (bool_decide_unpack _); vm_compute; exact I) eq_refl
      ltac:(vm_compute; reflexivity) dst b d Hin) as [Hold|Hdst]; [|exact Hdst].
    exfalso. assert (Forall (λ q : SocketAddr * PeerMessage, match q.2 with PeerMessage.Piece _ _ _ => False | _ => True end)
      (s_sent (l_core super_assigned))) as Hno by (vm_compute; repeat constructor).
    exact (proj1 (Forall_forall _ _) Hno _ Hold).
Defined.

(** A peer that only shows its interest, and does not unchoke us, gets no piece assigned: the target
    must be one that does not choke us, which a peer has no reason to do for a seed. *)
Example interest_is_not_enough :
  let skip := [0; 1; 3]%nat in
  match l_exts (foldl (λ l m, (m l).1) super_start (omap (λ i, super_branches !! i) skip)) !! 1%nat with
  | Some (DynSuperSeed e) => bool_decide (assignments e = ∅)
  | _ => false
  end = true.
Proof. vm_compute. reflexivity. Qed.
