(* ===== verification/PipelineFacts.v ===== *)
(** What the request pipeline asks for: the invariant of the active downloads and of the peers, and
    the requests that one call of [fill] sends. *)

From stdpp Require Import base numbers list gmap strings.
From Stdlib Require Import ZArith Lia.
From S2P Require Import Prelude Facts Error Net PeerMessage Piece Metainfo Download PeerManager Upload Step Swarm.
From S2P Require Import Pipeline Uploads.

(** * Torrents whose piece count fits their size *)

(** The parser does not check this; [piece_len_for_index] panics without it. *)
Definition info_ok (i : Info) : Prop :=
  let n := Z.of_nat (Metainfo.num_pieces i) in
  0 < piece_length i ≤ u32_max ∧ n ≤ u32_max ∧
  ∃ total, total_size i = Ok total ∧ (n = 0 ∨ (n - 1) * piece_length i ≤ total ≤ n * piece_length i).

Lemma piece_len_ok i index :
  info_ok i → 0 ≤ index →
  ∃ len, piece_len_for_index i index = Ok len ∧ 0 ≤ len ≤ piece_length i ∧
    (Z.of_nat (Metainfo.num_pieces i) ≤ index → len = 0).
Proof.
  intros (Hp & Hn & total & Ht & Hr) Hi. unfold piece_len_for_index.
  destruct (Z.leb_spec (Z.of_nat (Metainfo.num_pieces i)) index); [exists 0; split; [done|lia]|].
  unfold checked_mul_panic. rewrite (proj2 (Z.leb_le _ _)) by nia. cbn [obind].
  destruct (Z.eqb_spec index (Z.of_nat (Metainfo.num_pieces i) - 1)) as [->|]; [|exists (piece_length i); split; [done|lia]].
  rewrite Ht. cbn [obind]. rewrite (proj2 (Z.leb_le _ _)) by lia. eexists. split; [done|]. nia.
Qed.

(** * Blocks *)

Lemma first_none_spec {A} (l : list (option A)) :
  match first_none l with
  | Some i => l !! i = Some None
  | None => ∀ i, l !! i ≠ Some None
  end.
Proof.
  induction l as [|[a|] l IH]; cbn [first_none]; [by intros i|..|done].
  destruct (first_none l) as [i|]; cbn [fmap option_fmap option_map]; [done|].
  intros [|i]; cbn; [done|apply IH].
Qed.

(** The downloads that the pipeline makes. *)
Definition block_download (d : ActiveDownload) : Prop :=
  download_ok d ∧ block_size d = BLOCK_SIZE ∧ zlen (dl_data d) ≤ u32_max.

Lemma num_blocks_bound d k :
  block_download d → 0 ≤ k < Z.of_nat (num_blocks d) → k * BLOCK_SIZE < zlen (dl_data d).
Proof.
  intros ((_ & _ & _ & Hn) & Hb & _) Hk. rewrite Hn, Hb in Hk. pose proof (zlen_nonneg (dl_data d)).
  unfold BLOCK_SIZE in *. rewrite Z2Nat.id in Hk by (apply Z.div_pos; lia).
  assert (k < (zlen (dl_data d) + 16 * 1024 - 1) / (16 * 1024)) as H1 by lia.
  pose proof (Z.mul_div_le (zlen (dl_data d) + 16 * 1024 - 1) (16 * 1024)). lia.
Qed.

Lemma next_unrequested_spec d :
  block_download d →
  ∃ o, next_unrequested d = Ok o ∧
    match o with
    | Some b => ∃ k, b = k * BLOCK_SIZE ∧ 0 ≤ k < Z.of_nat (num_blocks d) ∧
                     requested d !! Z.to_nat k = Some None
    | None => ∀ i, requested d !! i ≠ Some None
    end.
Proof.
  intros Hd. pose proof Hd as ((Hb & Hr & _) & Hbs & Hl). unfold next_unrequested.
  pose proof (first_none_spec (requested d)) as Hf. destruct (first_none (requested d)) as [i|]; [|by exists None].
  pose proof (lookup_lt_Some _ _ _ Hf) as Hlt. rewrite Hr in Hlt.
  pose proof (num_blocks_bound d (Z.of_nat i) Hd ltac:(lia)) as Hk. rewrite Hbs.
  assert (as_u32 (Z.of_nat i) = Z.of_nat i) as -> by (apply as_u32_small; unfold BLOCK_SIZE in Hk; lia).
  rewrite (proj2 (Z.leb_le _ _)) by lia. eexists. split; [done|]. exists (Z.of_nat i).
  rewrite Nat2Z.id. split; [done|]. split; [lia|done].
Qed.

Lemma block_len_spec d k :
  block_download d → 0 ≤ k < Z.of_nat (num_blocks d) →
  block_len (k * BLOCK_SIZE) d = Z.min BLOCK_SIZE (zlen (dl_data d) - k * BLOCK_SIZE) ∧
  0 < block_len (k * BLOCK_SIZE) d.
Proof.
  intros Hd Hk. pose proof (num_blocks_bound d k Hd Hk). destruct Hd as (_ & Hb & Hl).
  unfold block_len, saturating_sub, as_u32. rewrite Hb. unfold BLOCK_SIZE in *.
  rewrite Z.mod_small by lia. lia.
Qed.

Lemma assign_block_download begin o d : block_download d → block_download (assign_block begin o d).
Proof.
  intros (H1 & H2 & H3). split; [by apply assign_block_ok|]. unfold assign_block.
  destruct (_ <? _)%nat; done.
Qed.

Lemma assign_block_data begin o d : dl_data (assign_block begin o d) = dl_data d.
Proof. unfold assign_block. destruct (_ <? _)%nat; done. Qed.

(** Assigning block [k] changes the assignment of block [k] only. *)
Lemma assign_block_requested d k o i :
  block_download d → 0 ≤ k < Z.of_nat (num_blocks d) →
  requested (assign_block (k * BLOCK_SIZE) o d) !! i =
    if decide (i = Z.to_nat k) then Some o else requested d !! i.
Proof.
  intros ((_ & Hr & _) & Hb & _) Hk. unfold assign_block. rewrite Hb.
  rewrite Z.div_mul by (unfold BLOCK_SIZE; lia). rewrite Hr, (proj2 (Nat.ltb_lt _ _)) by lia.
  cbn [requested]. destruct (decide (i = Z.to_nat k)) as [->|Hne].
  - apply list_lookup_insert_eq. lia.
  - by apply list_lookup_insert_ne.
Qed.

(** * Finding a block for a peer *)

Lemma find_block_spec active only_fast fast i0 bits :
  (∀ i d, active !! i = Some d → block_download d) →
  0 ≤ i0 → i0 + Z.of_nat (length bits) ≤ u32_max + 1 →
  ∃ o, find_block_from active only_fast fast i0 bits = Ok o ∧
    match o with
    | Some (index, begin) => ∃ j d, bits !! j = Some true ∧ index = i0 + Z.of_nat j ∧
        (only_fast = true → index ∈ fast) ∧ active !! index = Some d ∧
        next_unrequested d = Ok (Some begin)
    | None => True
    end.
Proof.
  intros Ha. revert i0. induction bits as [|h bits IH]; intros i0 Hi Hl; cbn [find_block_from].
  { by exists None. }
  cbn [length] in Hl. destruct (IH (i0 + 1)) as (o & E & Ho); [lia|lia|].
  assert (∃ o, find_block_from active only_fast fast (i0 + 1) bits = Ok o ∧
    match o with
    | Some (index, begin) => ∃ j d, (h :: bits) !! j = Some true ∧ index = i0 + Z.of_nat j ∧
        (only_fast = true → index ∈ fast) ∧ active !! index = Some d ∧
        next_unrequested d = Ok (Some begin)
    | None => True
    end) as Hrest.
  { exists o. split; [done|]. destruct o as [[index begin]|]; [|done].
    destruct Ho as (j & d & H1 & -> & H2). exists (S j), d. split; [done|]. split; [lia|done]. }
  rewrite E in *. assert (as_u32 i0 = i0) as -> by (apply Z.mod_small; lia).
  destruct h; cbn [negb]; [|done].
  destruct (only_fast && negb (bool_decide (i0 ∈ fast))) eqn:Hf; [done|].
  destruct (active !! i0) as [d|] eqn:Hd; [|done].
  destruct (next_unrequested_spec d (Ha _ _ Hd)) as (b & Eb & _). rewrite Eb. cbn [obind].
  destruct b as [b|]; [|done]. eexists. split; [done|]. exists 0%nat, d. split; [done|]. split; [lia|].
  split; [|done]. intros ->. cbn in Hf. apply negb_false_iff, bool_decide_eq_true in Hf. done.
Qed.

(** * Availability *)

Lemma length_add_bits avail bits : length (add_bits avail bits) = length avail.
Proof. revert bits. induction avail as [|a avail IH]; intros [|b bits]; cbn; [done..|]. by rewrite IH. Qed.

Lemma add_bits_lookup avail bits i :
  add_bits avail bits !! i =
    match avail !! i with
    | Some a => Some (if default false (bits !! i) then S a else a)
    | None => None
    end.
Proof.
  revert bits i. induction avail as [|a avail IH]; intros [|b bits] [|i]; cbn; try done;
    first [apply IH | by destruct (avail !! i)].
Qed.

(** A positive count comes from a peer that has the piece and unchokes us; no count exceeds the
    number of peers. *)
Lemma availability_fold l avail i c :
  foldl add_availability avail l !! i = Some c →
  ∃ a, avail !! i = Some a ∧ (a ≤ c ≤ a + length l)%nat ∧
    ((a < c)%nat → ∃ p, p ∈ l ∧ am_choked p = false ∧ p_bitfield p !! i = Some true).
Proof.
  revert avail. induction l as [|p l IH]; intros avail; cbn [foldl length].
  - intros H. exists c. split; [done|]. split; [lia|]. lia.
  - intros (a & Ha & Hle & Hex)%IH. unfold add_availability in Ha.
    destruct (am_choked p) eqn:Hc.
    + exists a. split; [done|]. split; [lia|]. intros (p' & Hp & ?)%Hex. exists p'. split; [by right|done].
    + rewrite add_bits_lookup in Ha. destruct (avail !! i) as [a0|]; [|done]. injection Ha as Ha.
      exists a0. split; [done|]. destruct (p_bitfield p !! i) as [[]|] eqn:Hb; cbn in Ha.
      * split; [lia|]. intros _. exists p. split; [left|done].
      * split; [lia|]. intros Hlt. destruct Hex as (p' & Hp & ?); [lia|]. exists p'. split; [by right|done].
      * split; [lia|]. intros Hlt. destruct Hex as (p' & Hp & ?); [lia|]. exists p'. split; [by right|done].
Qed.

Lemma length_availability n peers : length (availability_of n peers) = n.
Proof.
  unfold availability_of. generalize (map snd (map_to_list peers)). intros l.
  assert (∀ avail, length (foldl add_availability avail l) = length avail) as ->; [|by rewrite length_replicate].
  induction l as [|p l IH]; intros avail; cbn [foldl]; [done|]. rewrite IH. unfold add_availability.
  destruct (am_choked p); [done|apply length_add_bits].
Qed.

Lemma availability_sound n peers i c :
  availability_of n peers !! i = Some c → (0 < c)%nat →
  ∃ a p, peers !! a = Some p ∧ am_choked p = false ∧ p_bitfield p !! i = Some true.
Proof.
  intros (a & Ha & _ & Hex)%availability_fold Hc. apply lookup_replicate in Ha as [-> _].
  destruct (Hex Hc) as (p & Hp & H). apply list_elem_of_fmap in Hp as ([a p'] & -> & Hin).
  exists a, p'. by apply elem_of_map_to_list in Hin.
Qed.

Lemma availability_sizes bf n peers :
  Z.of_nat (length bf) ≤ u32_max → Z.of_nat (size peers) < u64_max → sizes_ok bf (availability_of n peers).
Proof.
  intros Hb Hp. split; [done|]. apply Forall_lookup. intros i c (a & Ha & Hle & _)%availability_fold.
  apply lookup_replicate in Ha as [-> _]. rewrite length_map, length_map_to_list in Hle. lia.
Qed.

#[global] Instance select_selector sel : PieceSelector (select sel).
Proof. destruct sel; [apply rarest_first_selector|apply sequential_selector]. Qed.

(** * The invariant of the swarm's bookkeeping *)

Section pipeline.
Context (c : SwarmConfig).

Definition piece_count : nat := Metainfo.num_pieces (c_info c).

Definition active_ok (pm : PieceManager) (i : Z) (d : ActiveDownload) : Prop :=
  0 ≤ i < Z.of_nat piece_count ∧ block_download d ∧
  piece_len_for_index (c_info c) i = Ok (zlen (dl_data d)) ∧ has_piece pm i = false.

Definition peer_ok (p : PeerInfo) : Prop :=
  length (pipeline p) = PIPELINE_SIZE ∧ (length (p_bitfield p) ≤ piece_count)%nat.

Definition swarm_ok (s : SwarmState) : Prop :=
  pm_ok (s_piece_mgr s) ∧ Piece.num_pieces (s_piece_mgr s) = piece_count ∧
  (∀ i d, s_active s !! i = Some d → active_ok (s_piece_mgr s) i d) ∧
  (∀ a p, s_peers s !! a = Some p → peer_ok p).

(** * One request *)

(** What a request that [fill] sends in the state [s] may ask of [addr]. *)
Definition good_request (s : SwarmState) (addr : SocketAddr) (msg : PeerMessage) : Prop :=
  ∃ p index k plen,
    s_peers s !! addr = Some p ∧
    msg = Request index (k * BLOCK_SIZE) (Z.min BLOCK_SIZE (plen - k * BLOCK_SIZE)) ∧
    0 ≤ index < Z.of_nat piece_count ∧ has_piece (s_piece_mgr s) index = false ∧
    piece_len_for_index (c_info c) index = Ok plen ∧ 0 ≤ k ∧ k * BLOCK_SIZE < plen ∧
    match s_active s !! index with
    | Some d =>
        (* a piece in progress: the block was free, and the peer has the piece *)
        requested d !! Z.to_nat k = Some None ∧ p_bitfield p !! Z.to_nat index = Some true ∧
        (can_request p = true ∨ can_request_fast p = true ∧ index ∈ peer_allowed_fast p)
    | None =>
        (* a piece just started: some peer that unchokes us has it *)
        (can_request p = true ∨ can_request_fast p = true) ∧
        ∃ a p', s_peers s !! a = Some p' ∧ am_choked p' = false ∧
                p_bitfield p' !! Z.to_nat index = Some true
    end.

Lemma length_fill_slot x l : length (fill_slot x l) = length l.
Proof. induction l as [|[y|] l IH]; cbn; [done|by rewrite IH|done]. Qed.

Lemma push_request_ok i b t p : peer_ok p → peer_ok (push_request i b t p).
Proof.
  intros [H1 H2]. destruct p. split; [|done]. cbn. rewrite length_fill_slot. done.
Qed.

Lemma new_download_active pm i len :
  info_ok (c_info c) → 0 ≤ i → (i < Z.of_nat piece_count) →
  piece_len_for_index (c_info c) i = Ok len → 0 < len → has_piece pm i = false →
  active_ok pm i (download_new i len BLOCK_SIZE).
Proof.
  intros Hinfo Hi Hn Hlen Hpos Hh.
  destruct (piece_len_ok (c_info c) i Hinfo Hi) as (len' & E & Hb & _). rewrite Hlen in E. injection E as <-.
  assert (zlen (dl_data (download_new i len BLOCK_SIZE)) = len) as Ez
    by (unfold zlen; cbn [dl_data download_new]; rewrite length_replicate; lia).
  split; [done|]. split; [|by rewrite Ez].
  split; [apply download_new_ok; unfold BLOCK_SIZE; lia|]. split; [done|]. rewrite Ez.
  destruct Hinfo as (? & _). lia.
Qed.

(** [start_piece] either does nothing, or starts a missing piece that is not being downloaded. *)
Lemma start_piece_spec s our_bf avail addr :
  info_ok (c_info c) → swarm_ok s → our_bf = bitfield (s_piece_mgr s) → sizes_ok our_bf avail →
  start_piece c our_bf avail addr s = (s, Ok None) ∨
  ∃ idx d begin cnt, start_piece c our_bf avail addr s =
      (set_active (<[idx:=d]> (s_active s)) s, Ok (Some (idx, begin))) ∧
    s_active s !! idx = None ∧ active_ok (s_piece_mgr s) idx d ∧
    next_unrequested d = Ok (Some begin) ∧ avail !! Z.to_nat idx = Some cnt ∧ (0 < cnt)%nat.
Proof.
  intros Hinfo (Hpm & Hnp & Ha & Hp) -> Hs.
  remember (start_piece c (bitfield (s_piece_mgr s)) avail addr s) as R eqn:HR.
  unfold start_piece, sbind at 1, read at 1, id in HR.
  destruct (_ =? 0)%nat; [by left|].
  destruct (select (s_selector s) (bitfield (s_piece_mgr s)) avail) as [idx|] eqn:Esel; [|by left].
  destruct (select_sound _ _ _ Hs Esel) as (Hi & Hbf & cnt & Hcnt & Hpos).
  destruct (s_active s !! idx) as [d0|] eqn:Hact; [by left|].
  destruct (piece_len_ok (c_info c) idx Hinfo Hi) as (len & Elen & Hlen & _).
  unfold sbind at 1, lift at 1 in HR. rewrite Elen in HR.
  destruct (Z.eqb_spec len 0) as [E0|Hne]; [by left|].
  cbn zeta in HR. set (d := download_new idx len BLOCK_SIZE) in *.
  assert (idx < Z.of_nat piece_count) as Hlt
    by (apply lookup_lt_Some in Hbf; unfold pm_ok in Hpm; lia).
  assert (active_ok (s_piece_mgr s) idx d) as Hok.
  { apply new_download_active; try done; [lia|]. unfold has_piece. rewrite Hbf. cbn. apply andb_false_r. }
  pose proof Hok as (_ & Hbd & _). destruct (next_unrequested_spec d Hbd) as (o & Eo & Ho).
  unfold sbind at 1, lift at 1 in HR. rewrite Eo in HR.
  right. exists idx, d. destruct o as [b|].
  - exists b, cnt. by unfold sbind at 1, lift at 1 in HR.
  - exfalso. apply (Ho 0%nat). unfold d, download_new. cbn [requested]. apply lookup_replicate_2.
    apply Nat2Z.inj_lt. rewrite Z2Nat.id by (apply Z.div_pos; unfold BLOCK_SIZE; lia).
    apply Z.div_str_pos. unfold BLOCK_SIZE. lia.
Qed.

Lemma find_block_for_peer_spec s addr only_fast :
  info_ok (c_info c) → swarm_ok s →
  ∃ o, find_block_for_peer (s_peers s) (s_active s) addr only_fast = Ok o ∧
    match o with
    | Some (index, begin) => ∃ p d, s_peers s !! addr = Some p ∧
        p_bitfield p !! Z.to_nat index = Some true ∧
        (only_fast = true → index ∈ peer_allowed_fast p) ∧ s_active s !! index = Some d ∧
        next_unrequested d = Ok (Some begin)
    | None => True
    end.
Proof.
  intros (_ & Hn & _) (_ & _ & Ha & Hp). unfold find_block_for_peer.
  destruct (s_peers s !! addr) as [p|] eqn:Hpeer; [|by exists None].
  destruct (find_block_spec (s_active s) only_fast (peer_allowed_fast p) 0 (p_bitfield p)) as (o & E & Ho).
  - intros i d Hd. apply (Ha i d Hd).
  - done.
  - destruct (Hp _ _ Hpeer) as [_ Hl]. unfold piece_count in Hl. lia.
  - exists o. split; [done|]. destruct o as [[index begin]|]; [|done].
    destruct Ho as (j & d & Hj & -> & Hf & Hd & En). exists p, d. rewrite Z.add_0_l in *. rewrite Nat2Z.id. done.
Qed.

(** * The loop of [fill] *)

(** The block that a sent request asks for is assigned to somebody. *)
Definition taken (s : SwarmState) (msg : PeerMessage) : Prop :=
  match msg with
  | Request index begin _ => ∃ d a, s_active s !! index = Some d ∧
      requested d !! Z.to_nat (begin / BLOCK_SIZE) = Some (Some a)
  | _ => False
  end.

(** Some peer that unchokes us has the piece. *)
Definition available (s : SwarmState) (index : Z) : Prop :=
  ∃ a p, s_peers s !! a = Some p ∧ am_choked p = false ∧ p_bitfield p !! Z.to_nat index = Some true.

(** [fill] started in [s0], has visited the peers [done] and reached [s]. *)
Record fill_inv (s0 : SwarmState) (done : list SocketAddr) (s : SwarmState) : Prop := {
  fi_ok : swarm_ok s;
  fi_mgr : s_piece_mgr s = s_piece_mgr s0;
  fi_peers : ∀ a, a ∉ done → s_peers s !! a = s_peers s0 !! a;
  fi_free : ∀ i d k, s_active s !! i = Some d → requested d !! k = Some None →
    ∀ d0, s_active s0 !! i = Some d0 → requested d0 !! k = Some None;
  fi_new : ∀ i, s_active s !! i = None → s_active s0 !! i = None;
  fi_started : ∀ i, is_Some (s_active s !! i) → s_active s0 !! i = None → available s0 i;
  fi_sent : ∃ reqs, s_sent s = s_sent s0 ++ reqs ∧ NoDup (map fst reqs) ∧ NoDup (map snd reqs) ∧
    ∀ a m, (a, m) ∈ reqs → a ∈ done ∧ good_request s0 a m ∧ taken s m;
}.

Lemma fill_inv_start s0 sel : swarm_ok s0 → fill_inv s0 [] (set_selector sel s0).
Proof.
  intros Hok. destruct s0. split; cbn; try done.
  - intros i d k Hd Hr d0 Hd0. congruence.
  - intros i [d Hd] Hn. congruence.
  - exists []. rewrite app_nil_r. split_and!; try done; [constructor..|]. by intros ?? ?%elem_of_nil.
Qed.

Lemma fill_inv_more s0 done addr s : fill_inv s0 done s → fill_inv s0 (addr :: done) s.
Proof.
  intros [H1 H2 H3 H4 H5 H6 (reqs & R1 & R2 & R3 & R4)]. split; try done.
  - intros a Ha. apply H3. intros ?. apply Ha. by right.
  - exists reqs. split_and!; try done. intros a m Hin. destruct (R4 a m Hin) as (? & ? & ?).
    split; [by right|done].
Qed.

(** Starting a piece keeps the invariant. *)
Lemma fill_inv_started s0 done s idx d :
  fill_inv s0 done s → s_active s !! idx = None → active_ok (s_piece_mgr s) idx d → available s0 idx →
  fill_inv s0 done (set_active (<[idx:=d]> (s_active s)) s).
Proof.
  intros [(O1 & O2 & O3 & O4) H2 H3 H4 H5 H6 (reqs & R1 & R2 & R3 & R4)] Hn Hd Hav.
  split; swarm_simpl.
  - split; [done|]. split; [done|]. split; [|done]. swarm_simpl. intros i d1 [[-> <-]|[_ Hi]]%lookup_insert_Some; [done|].
    by apply O3.
  - done.
  - done.
  - intros i d1 k [[-> <-]|[_ Hi]]%lookup_insert_Some Hr d0 Hd0; [|by eapply H4].
    rewrite (H5 i Hn) in Hd0. done.
  - intros i [_ Hi]%lookup_insert_None%and_comm. by apply H5.
  - intros i [d1 [[-> <-]|[_ Hi]]%lookup_insert_Some] Hi0; [done|]. apply H6; [by exists d1|done].
  - exists reqs. split_and!; try done. intros a m Hin. destruct (R4 a m Hin) as (? & ? & Ht).
    split; [done|]. split; [done|]. destruct m; try done. destruct Ht as (d1 & a1 & Hd1 & Hr1).
    exists d1, a1. split; [|done]. swarm_simpl. rewrite lookup_insert_ne; [done|]. intros ->. congruence.
Qed.

(** The state after block [k] of piece [index] was requested from [addr]; [s1] is [s] or [s] with the
    request among the sent messages. *)
Definition recorded (addr : SocketAddr) (p : PeerInfo) (index begin now : Z) (s1 : SwarmState) : SwarmState :=
  set_active (alter (mark_requested begin addr) index (s_active s1))
    (set_peers (<[addr:=push_request index begin now p]> (s_peers s1)) s1).

(** What makes a request of piece [index] by way of the peer [p] acceptable. *)
Definition may_ask (s0 : SwarmState) (p : PeerInfo) (index : Z) : Prop :=
  match s_active s0 !! index with
  | Some _ => p_bitfield p !! Z.to_nat index = Some true ∧
      (can_request p = true ∨ can_request_fast p = true ∧ index ∈ peer_allowed_fast p)
  | None => can_request p = true ∨ can_request_fast p = true
  end.

Lemma request_is_good s0 done s addr p index k d :
  fill_inv s0 done s → s_peers s0 !! addr = Some p → s_active s !! index = Some d →
  0 ≤ k < Z.of_nat (num_blocks d) → requested d !! Z.to_nat k = Some None → may_ask s0 p index →
  good_request s0 addr (Request index (k * BLOCK_SIZE) (block_len (k * BLOCK_SIZE) d)).
Proof.
  intros [(_ & _ & Ha & _) Hmgr _ Hfree _ Hst _] Hp Hd Hk Hr Hask.
  destruct (Ha _ _ Hd) as (Hi & Hbd & Hlen & Hh). destruct (block_len_spec d k Hbd Hk) as [-> _].
  exists p, index, k, (zlen (dl_data d)). rewrite <- Hmgr.
  split; [done|]. split; [done|]. split; [done|]. split; [done|]. split; [done|]. split; [lia|].
  split; [by apply num_blocks_bound|]. unfold may_ask in Hask.
  destruct (s_active s0 !! index) as [d0|] eqn:H0.
  - destruct Hask as [Hb Hc]. split; [|done]. by eapply Hfree.
  - split; [done|]. apply (Hst index); [by exists d|done].
Qed.

Lemma fill_inv_recorded s0 done s addr p index k d now (sent : bool) :
  fill_inv s0 done s → addr ∉ done → s_peers s0 !! addr = Some p → s_active s !! index = Some d →
  0 ≤ k < Z.of_nat (num_blocks d) → requested d !! Z.to_nat k = Some None → may_ask s0 p index →
  let msg := Request index (k * BLOCK_SIZE) (block_len (k * BLOCK_SIZE) d) in
  fill_inv s0 (addr :: done)
    (recorded addr p index (k * BLOCK_SIZE) now (if sent then add_sent addr msg s else s)).
Proof.
  intros Hinv Ha Hp Hd Hk Hr Hask msg. pose proof (request_is_good s0 done s addr p index k d Hinv Hp Hd Hk Hr Hask) as Hgood.
  destruct Hinv as [(O1 & O2 & O3 & O4) H2 H3 H4 H5 H6 (reqs & R1 & R2 & R3 & R4)].
  destruct (O3 _ _ Hd) as (Hi & Hbd & Hlen & Hh).
  set (d' := mark_requested (k * BLOCK_SIZE) addr d).
  assert (∀ i, requested d' !! i = if decide (i = Z.to_nat k) then Some (Some addr) else requested d !! i) as Hreq
    by (intros i; by apply assign_block_requested).
  set (s1 := if sent then _ else s).
  assert (s_active s1 = s_active s ∧ s_peers s1 = s_peers s ∧ s_piece_mgr s1 = s_piece_mgr s ∧
          s_sent s1 = s_sent s ++ if sent then [(addr, msg)] else []) as (E1 & E2 & E3 & E4)
    by (unfold s1; destruct sent; rewrite ?app_nil_r; done).
  assert (alter (mark_requested (k * BLOCK_SIZE) addr) index (s_active s) = <[index:=d']> (s_active s)) as Ealt
    by (apply map_eq; intros i; destruct (decide (i = index)) as [->|];
        [by rewrite lookup_alter_eq, lookup_insert_eq, Hd|by rewrite lookup_alter_ne, lookup_insert_ne]).
  unfold recorded. rewrite E1, E2, Ealt. split; swarm_simpl; rewrite ?E3, ?E4.
  - unfold swarm_ok. swarm_simpl. rewrite E3. split; [done|]. split; [done|]. split.
    + intros i d1 [[-> <-]|[_ Hi1]]%lookup_insert_Some; [|by apply O3].
      split; [done|]. split; [by apply assign_block_download|]. unfold d', mark_requested. by rewrite assign_block_data.
    + intros a p1 [[<- <-]|[_ Hp1]]%lookup_insert_Some; [|by eapply O4].
      apply push_request_ok, (O4 addr). by rewrite H3.
  - done.
  - intros a [Hne Hna]%not_elem_of_cons. rewrite lookup_insert_ne by done. by apply H3.
  - intros i d1 j [[-> <-]|[_ Hi1]]%lookup_insert_Some Hj d0 Hd0; [|by eapply H4].
    rewrite Hreq in Hj. destruct (decide _); [done|]. by eapply H4.
  - intros i [_ Hi1]%lookup_insert_None%and_comm. by apply H5.
  - intros i [d1 [[-> <-]|[_ Hi1]]%lookup_insert_Some]; [|apply H6; by exists d1].
    apply H6. by exists d.
  - assert (∀ m, taken s m → taken (recorded addr p index (k * BLOCK_SIZE) now s1) m) as Htaken.
    { intros [] Ht; try done. destruct Ht as (d1 & a1 & Hd1 & Hr1). unfold recorded, taken. rewrite E1, Ealt.
      swarm_simpl. destruct (decide (index0 = index)) as [->|Hne].
      - rewrite Hd in Hd1. injection Hd1 as <-. rewrite lookup_insert_eq. exists d'.
        rewrite Hreq. destruct (decide _); [by exists addr|by exists a1].
      - rewrite lookup_insert_ne by done. by exists d1, a1. }
    unfold recorded in Htaken. rewrite E1, E2, Ealt in Htaken.
    exists (reqs ++ if sent then [(addr, msg)] else []). rewrite R1, <- app_assoc. split; [done|].
    rewrite !map_app. split; [|split].
    + destruct sent; [|by rewrite app_nil_r]. cbn [map fst snd]. apply NoDup_app. split; [done|]. split; [|apply NoDup_singleton].
      intros a Hin ->%list_elem_of_singleton. apply list_elem_of_fmap in Hin as ([a m] & -> & Hin).
      by apply R4 in Hin as [? _].
    + destruct sent; [|by rewrite app_nil_r]. cbn [map fst snd]. apply NoDup_app. split; [done|]. split; [|apply NoDup_singleton].
      intros m Hin ->%list_elem_of_singleton. apply list_elem_of_fmap in Hin as ([a m] & Em & Hin).
      cbn in Em. subst m. apply R4 in Hin as (_ & _ & d1 & a1 & Hd1 & Hr1).
      rewrite Z.div_mul in Hr1 by (unfold BLOCK_SIZE; lia). congruence.
    + intros a m [Hin|Hin]%elem_of_app.
      * destruct (R4 a m Hin) as (? & ? & ?). split; [by right|]. split; [done|]. by apply Htaken.
      * destruct sent; [|by apply elem_of_nil in Hin]. apply list_elem_of_singleton in Hin as [= -> ->].
        split; [left|]. split; [done|]. unfold taken, msg. swarm_simpl. rewrite lookup_insert_eq.
        exists d', addr. split; [done|]. rewrite Z.div_mul by (unfold BLOCK_SIZE; lia). rewrite Hreq.
        by rewrite decide_True.
Qed.

(** Filling the pipelines is filling that of each peer, with one choice of the selector. *)
Lemma fill_eq w order s :
  ∃ sel, fill c w order s = for_each order (fill_peer c w (bitfield (s_piece_mgr s))
    (availability_of (Metainfo.num_pieces (c_info c)) (s_peers s))) (set_selector sel s).
Proof.
  unfold fill, sbind at 1, read, id. cbn zeta. unfold sbind at 1.
  destruct (_ && _); [by exists EndGame|]. exists (s_selector s). by destruct s.
Qed.

(** A step that ends normally or with an error, in a state that satisfies [P]. *)
Definition runs (m : step unit) (s : SwarmState) (P : SwarmState → Prop) : Prop :=
  ∃ s' r, m s = (s', r) ∧ (r = Ok tt ∨ ∃ e, r = Err e) ∧ P s'.

Lemma runs_ret s (P : SwarmState → Prop) : P s → runs (sret tt) s P.
Proof. intros H. exists s, (Ok tt). split; [done|]. split; [by left|done]. Qed.

Lemma request_block_runs w s0 done s addr p index begin d :
  fill_inv s0 done s → addr ∉ done → s_peers s0 !! addr = Some p → s_active s !! index = Some d →
  next_unrequested d = Ok (Some begin) → may_ask s0 p index →
  runs (request_block w addr index begin) s (fill_inv s0 (addr :: done)).
Proof.
  intros Hinv Ha Hp Hd Hn Hask. pose proof (fi_ok _ _ _ Hinv) as (_ & _ & O3 & _).
  destruct (O3 _ _ Hd) as (_ & Hbd & _).
  destruct (next_unrequested_spec d Hbd) as (o & Eo & Ho). rewrite Eo in Hn. injection Hn as ->.
  destruct Ho as (k & -> & Hk & Hr). pose proof (block_len_spec d k Hbd Hk) as [_ Hpos].
  assert (s_peers s !! addr = Some p) as Hps by (rewrite (fi_peers _ _ _ Hinv) by done; done).
  assert (∀ sent : bool, let s1 := if sent then add_sent addr (Request index (k * BLOCK_SIZE)
      (block_len (k * BLOCK_SIZE) d)) s else s in
    fill_inv s0 (addr :: done) (recorded addr p index (k * BLOCK_SIZE) (w_now w) s1)) as Hrec
    by (intros sent; by apply (fill_inv_recorded s0 done s addr p index k d)).
  unfold runs, request_block, sbind at 1, read at 1. rewrite Hd. cbn zeta.
  rewrite (proj2 (Z.eqb_neq _ _)) by lia. unfold sbind at 1, send_to.
  destruct (connections (s_peer_mgr s) !! addr) as [conn|].
  - destruct (w_send w (s_sent s) addr _) as [e|].
    + do 2 eexists. split; [reflexivity|]. split; [right; by exists e|]. by apply fill_inv_more.
    + unfold sbind, with_peer. swarm_simpl. rewrite Hps. do 2 eexists. split; [reflexivity|].
      split; [by left|]. apply (Hrec true).
  - unfold sbind, with_peer. rewrite Hps. do 2 eexists. split; [reflexivity|].
    split; [by left|]. apply (Hrec false).
Qed.

Lemma fill_peer_runs w s0 done s addr :
  info_ok (c_info c) → Z.of_nat (size (s_peers s0)) < u64_max → fill_inv s0 done s → addr ∉ done →
  runs (fill_peer c w (bitfield (s_piece_mgr s0)) (availability_of piece_count (s_peers s0)) addr) s
    (fill_inv s0 (addr :: done)).
Proof.
  intros Hinfo Hsz Hinv Ha. pose proof (fi_peers _ _ _ Hinv addr Ha) as Hpe.
  assert (sizes_ok (bitfield (s_piece_mgr s0)) (availability_of piece_count (s_peers s0))) as Hs.
  { apply availability_sizes; [|done]. rewrite <- (fi_mgr _ _ _ Hinv).
    destruct (fi_ok _ _ _ Hinv) as (Hpm & Hnp & _). unfold pm_ok in Hpm. rewrite Hpm, Hnp.
    by destruct Hinfo as (_ & ? & _). }
  unfold runs, fill_peer, sbind at 1, read at 1. rewrite Hpe. cbn zeta.
  destruct (negb _ && negb _) eqn:Hcan; [apply runs_ret; by apply fill_inv_more|].
  destruct (s_peers s0 !! addr) as [p|] eqn:Hp; [|done]. cbn [from_option] in *.
  unfold sbind at 1, choose_block at 1. unfold sbind at 1, read at 1, id. unfold sbind at 1, lift at 1.
  destruct (find_block_for_peer_spec s addr (negb (can_request p) && can_request_fast p) Hinfo (fi_ok _ _ _ Hinv))
    as (o & -> & Ho).
  assert (can_request p = true ∨ can_request_fast p = true) as Hc
    by (destruct (can_request p), (can_request_fast p); cbn in Hcan; auto).
  destruct o as [[index begin]|].
  - destruct Ho as (p' & d & Hp' & Hb & Hf & Hd & Hn). rewrite Hpe in Hp'. injection Hp' as <-.
    cbn [sret]. apply (request_block_runs w s0 done s addr p index begin d); try done.
    unfold may_ask. destruct (s_active s0 !! index); [|done]. split; [done|].
    destruct (can_request p); [by left|]. right. destruct Hc as [|Hc]; [done|]. split; [done|]. apply Hf. by rewrite Hc.
  - destruct (_ <? _)%nat; [|apply runs_ret; by apply fill_inv_more].
    destruct (start_piece_spec s (bitfield (s_piece_mgr s0)) (availability_of piece_count (s_peers s0)) addr)
      as [-> |(idx & d & begin & cnt & -> & Hnone & Hd & Hn & Hcnt & Hpos)];
      [done|apply Hinv|by rewrite (fi_mgr _ _ _ Hinv)|done|apply runs_ret; by apply fill_inv_more|].
    apply (request_block_runs w s0 done _ addr p idx begin d); [|done|done|..|done|].
    + apply fill_inv_started; try done. by apply (availability_sound piece_count _ _ cnt).
    + swarm_simpl. apply lookup_insert_eq.
    + unfold may_ask. by rewrite (fi_new _ _ _ Hinv idx Hnone).
Qed.
End pipeline.

(** C20: what [fill] requests. For a metainfo with as many hashes as its size calls for ([info_ok],
    which the parser does not check: [short_torrent_stops_fill] panics without it), from a state whose
    bookkeeping is in order, filling the pipelines never panics and keeps the bookkeeping in order. It
    sends at most one request to a peer and no two
    requests for the same block, and every request is for an existing block of a missing piece: of a
    piece in progress, the peer has the piece, the block was not assigned to anybody, and the peer
    may be asked for it; a piece that is started has a source that unchokes us. *)
Theorem fill_requests_are_good : ∀ c w order s,
  info_ok (c_info c) → swarm_ok c s → Z.of_nat (size (s_peers s)) < u64_max → NoDup order →
  ∃ s' r reqs, fill c w order s = (s', r) ∧ (r = Ok tt ∨ ∃ e, r = Err e) ∧ swarm_ok c s' ∧
    s_sent s' = s_sent s ++ reqs ∧ NoDup (map fst reqs) ∧ NoDup (map snd reqs) ∧
    ∀ a m, (a, m) ∈ reqs → a ∈ order ∧ good_request c s a m.
Proof.
  intros c w order s Hinfo Hok Hsz Hnd.
  assert (∀ l done s1, fill_inv c s done s1 → NoDup l → (∀ a, a ∈ l → a ∉ done) →
    runs (for_each l (fill_peer c w (bitfield (s_piece_mgr s))
                        (availability_of (Metainfo.num_pieces (c_info c)) (s_peers s)))) s1
      (λ s', ∃ done', fill_inv c s done' s' ∧ ∀ a, a ∈ done' → a ∈ done ∨ a ∈ l)) as Hloop.
  { induction l as [|a l IH]; intros done s1 Hinv Hn Hd; cbn [for_each].
    - apply runs_ret. exists done. split; [done|]. by left.
    - apply NoDup_cons in Hn as [Ha Hn].
      destruct (fill_peer_runs c w s done s1 a Hinfo Hsz Hinv (Hd a ltac:(left))) as (s2 & r & E & Hr & Hinv2).
      unfold runs, sbind. unfold piece_count in E. rewrite E. destruct Hr as [-> |[e ->]].
      + destruct (IH (a :: done) s2 Hinv2 Hn) as (s3 & r3 & E3 & Hr3 & done' & Hi & Hsub).
        { intros b Hb [->|?]%elem_of_cons; [done|]. by apply (Hd b); [right|]. }
        exists s3, r3. split; [done|]. split; [done|]. exists done'. split; [done|].
        intros b [[->|?]%elem_of_cons|?]%Hsub; [right; left|by left|right; by right].
      + do 2 eexists. split; [reflexivity|]. split; [right; by exists e|]. exists (a :: done). split; [done|].
        intros b [->|?]%elem_of_cons; [right; left|by left]. }
  destruct (fill_eq c w order s) as [sel ->].
  destruct (Hloop order [] (set_selector sel s)) as (s' & r & -> & Hr & done' & Hi & Hsub).
  - by apply fill_inv_start.
  - done.
  - by intros ?? ?%elem_of_nil.
  - destruct Hi as [Hok' _ _ _ _ _ (reqs & R1 & R2 & R3 & R4)]. exists s', r, reqs.
    split_and!; try done. intros a m Hin. destruct (R4 a m Hin) as (Hd & ? & _). split; [|done].
    by destruct (Hsub a Hd) as [?%elem_of_nil|].
Qed.

Definition sample_leecher : SwarmState :=
  swarm_state (pm_new 2) ∅ (upload_new 4) [] (set_am_choked false (set_bitfield [true; true] peer_info_new)).

Lemma sample_info_ok : info_ok sample_info.
Proof.
  split; [cbn; lia|]. split; [vm_compute; discriminate|]. exists 8. split; [reflexivity|]. right. cbn. lia.
Qed.

Lemma sample_leecher_ok : swarm_ok sample_config sample_leecher.
Proof.
  split; [reflexivity|]. split; [reflexivity|]. cbn [s_active s_peers sample_leecher swarm_state].
  split; [by intros i d Hd%lookup_empty_Some|]. intros a p [<- <-]%lookup_singleton_Some. split; [reflexivity|]. apply Nat.leb_le. reflexivity.
Qed.

Lemma fill_requests_are_good_witness :
  good_request sample_config sample_leecher sample_peer (Request 0 0 4).
Proof.
  destruct (fill_requests_are_good sample_config sample_world [sample_peer] sample_leecher sample_info_ok
    sample_leecher_ok) as (s' & r & reqs & E & _ & _ & Hsent & _ & _ & Hgood).
  - vm_compute. reflexivity.
  - apply NoDup_singleton.
  - refine (proj2 (Hgood sample_peer (Request 0 0 4) _)).
    assert (s_sent s' = [(sample_peer, Request 0 0 4)]) as Hs.
    { apply (f_equal (λ x, s_sent x.1)) in E. cbn [fst] in E. rewrite <- E. vm_compute. reflexivity. }
    rewrite Hs in Hsent. cbn [app s_sent sample_leecher swarm_state] in Hsent. rewrite <- Hsent. left.
Defined.

(** A torrent of one byte with three hashes, which the parser accepts. *)
Definition short_torrent : bytes :=
  bs "d4:infod6:lengthi1e4:name1:f12:piece lengthi4e6:pieces60:" ++ replicate 60 0 ++ bs "ee".

(** Without [info_ok] the loop panics as soon as it starts the last piece of such a torrent. *)
Example short_torrent_stops_fill :
  match metainfo_from_bytes short_torrent with
  | Ok m =>
    let c := {| c_info_hash := toy_hash []; c_info := info m; piece_cache_size := 2; corrupt_ban_threshold := 10;
                max_concurrent_pieces := 4; endgame_threshold := 1; request_timeout := 30; snub_timeout := 60 |} in
    let s := swarm_state (pm_new 3) ∅ (upload_new 4) []
               (set_am_choked false (set_bitfield [false; false; true] peer_info_new)) in
    piece_len_for_index (info m) 2 = Panic ∧ (fill c sample_world [sample_peer] s).2 = Panic
  | _ => False
  end.
Proof. vm_compute. split; reflexivity. Qed.
