(* ===== verification/Robust.v ===== *)
(** Peers cannot stop the swarm loop: handling a peer event never panics, apart from two cases.

    The proofs use the weakest precondition of [Step.v], with the invariant as the condition on
    errors. *)

From stdpp Require Import base numbers list gmap.
From Stdlib Require Import ZArith Lia.
From S2P Require Import Prelude Facts Error Net PeerMessage Piece Metainfo MetainfoFiles Download PeerManager Upload.
From S2P Require Import Step Swarm SwarmFacts Uploads Pipeline PipelineFacts.

(** * What is assumed of the torrent and of the world *)

Definition config_ok (c : SwarmConfig) : Prop :=
  info_ok (c_info c) ∧ lengths_ok (layout (c_info c)) ∧ (0 < piece_cache_size c)%nat ∧
  0 < corrupt_ban_threshold c ≤ u32_max.

(** The same, whatever the size of the cache: the metainfo has as many hashes as its size calls for
    (the parser does not check it) and the threshold for a ban is a positive [u32]. *)
Definition torrent_fits (c : SwarmConfig) : Prop :=
  info_ok (c_info c) ∧ lengths_ok (layout (c_info c)) ∧ 0 < corrupt_ban_threshold c ≤ u32_max.

Definition is_block (e : PeerEvent) : Prop :=
  ∃ index begin data, e = Message (PeerMessage.Piece index begin data).

(** The storage fills the buffer it is given. *)
Definition world_ok (w : World) : Prop :=
  ∀ written index begin len block, w_read w written index begin len = inr block → length block = len.

(** Fewer than [2^64 - 2^32] bytes were counted so far. *)
Definition has_room (n : Z) : Prop := 0 ≤ n ∧ n + u32_max ≤ u64_max.

Definition peer_room (p : PeerInfo) : Prop :=
  has_room (uploaded_bytes p) ∧ has_room (uploaded_this_round p) ∧
  has_room (downloaded_bytes p) ∧ has_room (downloaded_this_round p).

Definition counters_room (s : SwarmState) : Prop :=
  has_room (s_uploaded s) ∧ has_room (s_wasted s) ∧ ∀ a p, s_peers s !! a = Some p → peer_room p.

Section robust.
Context (sha1 : bytes → bytes) (c : SwarmConfig) (w : World).
Context (Hc : config_ok c) (Hw : world_ok w).

(** The bookkeeping is in order, and every peer has fewer strikes than get it banned. *)
Definition robust_inv (s : SwarmState) : Prop :=
  swarm_ok c s ∧ ∀ a p, s_peers s !! a = Some p → 0 ≤ corrupt_blocks p < corrupt_ban_threshold c.

(** An error may end a step as long as the invariant holds. *)
Abbreviation wp := (swp robust_inv).

(** * The invariant and the assignments *)

Abbreviation same_books s s' :=
  (s_piece_mgr s' = s_piece_mgr s ∧ s_peers s' = s_peers s ∧ s_active s' = s_active s).

Lemma robust_inv_same s s' : same_books s s' → robust_inv s → robust_inv s'.
Proof. unfold robust_inv, swarm_ok. by intros (-> & -> & ->). Qed.

Lemma robust_inv_peer s a p :
  robust_inv s → peer_ok c p → 0 ≤ corrupt_blocks p < corrupt_ban_threshold c →
  robust_inv (set_peers (<[a:=p]> (s_peers s)) s).
Proof.
  intros [(H1 & H2 & H3 & H4) H5] Hp Hs. split; [split; [done|]; split; [done|]; split; [done|]|]; swarm_simpl.
  - intros b q [[-> <-]|[_ Hq]]%lookup_insert_Some; [done|by apply (H4 b)].
  - intros b q [[-> <-]|[_ Hq]]%lookup_insert_Some; [done|by apply (H5 b)].
Qed.

Lemma robust_inv_drop s a : robust_inv s → robust_inv (set_peers (delete a (s_peers s)) s).
Proof.
  intros [(H1 & H2 & H3 & H4) H5]. split; [split; [done|]; split; [done|]; split; [done|]|]; swarm_simpl.
  - intros b q [_ Hq]%lookup_delete_Some. by apply (H4 b).
  - intros b q [_ Hq]%lookup_delete_Some. by apply (H5 b).
Qed.

Lemma robust_inv_active s act :
  robust_inv s → (∀ i d, act !! i = Some d → active_ok c (s_piece_mgr s) i d) → robust_inv (set_active act s).
Proof. intros [(H1 & H2 & H3 & H4) H5] Ha. by split; [split; [|split; [|split]]|]. Qed.

Lemma active_ok_assign pm i begin o d : active_ok c pm i d → active_ok c pm i (assign_block begin o d).
Proof.
  intros (H1 & H2 & H3 & H4). split; [done|]. split; [by apply assign_block_download|].
  by rewrite assign_block_data.
Qed.

Lemma release_block_active pm i b act :
  (∀ j d, act !! j = Some d → active_ok c pm j d) →
  ∀ j d, release_block i b act !! j = Some d → active_ok c pm j d.
Proof.
  intros Ha j d. unfold release_block. rewrite lookup_alter. case_decide as Hj; [|by apply Ha].
  subst. destruct (act !! j) as [d0|] eqn:E; [|done]. cbn. intros [= <-]. by apply active_ok_assign, Ha.
Qed.

Lemma release_slots_active pm l act :
  (∀ j d, act !! j = Some d → active_ok c pm j d) →
  ∀ j d, release_slots l act !! j = Some d → active_ok c pm j d.
Proof.
  unfold release_slots. revert act. induction l as [|[[[i b] t]|] l IH]; intros act Ha; cbn [foldl]; [done|..];
    apply IH; [by apply release_block_active|done].
Qed.

Lemma robust_inv_release s l : robust_inv s → robust_inv (set_active (release_slots l (s_active s)) s).
Proof. intros H. apply robust_inv_active; [done|]. apply release_slots_active, H. Qed.

Lemma robust_inv_delete s i : robust_inv s → robust_inv (set_active (delete i (s_active s)) s).
Proof.
  intros H. apply robust_inv_active; [done|]. intros j d [_ Hj]%lookup_delete_Some. by apply H.
Qed.

Lemma wp_with_peer addr f (Q : unit → SwarmState → Prop) s :
  (s_peers s !! addr = None → Q tt s) →
  (∀ p, s_peers s !! addr = Some p → ∃ p', f p = Ok p' ∧ Q tt (set_peers (<[addr:=p']> (s_peers s)) s)) →
  wp (with_peer addr f) Q s.
Proof.
  intros Hn Hs. unfold swp, with_peer. destruct (s_peers s !! addr) as [p|]; [|by apply Hn].
  destruct (Hs p eq_refl) as (p' & -> & Hq). done.
Qed.

(** The handlers of most messages change one peer, which stays as it should be. *)
Lemma wp_peer_inv addr f s :
  robust_inv s →
  (∀ p, peer_ok c p → ∃ p', f p = Ok p' ∧ peer_ok c p' ∧ corrupt_blocks p' = corrupt_blocks p) →
  wp (with_peer addr f) (λ _, robust_inv) s.
Proof.
  intros Hi Hf. apply wp_with_peer; [done|]. intros p Hp.
  destruct (Hf p) as (p' & E & Hok & Es); [by apply (proj1 Hi) in Hp|]. exists p'. split; [done|].
  apply robust_inv_peer; [done|done|]. rewrite Es. by apply (proj2 Hi addr).
Qed.

Lemma disconnect_robust addr s : robust_inv s → wp (disconnect addr) (λ _, robust_inv) s.
Proof.
  intros Hi. unfold disconnect. apply swp_read, swp_modify, swp_modify, swp_modify.
  unfold swp, modify. destruct (s_peers s !! addr) as [peer|].
  - apply (robust_inv_same (set_peers (delete addr (s_peers s))
             (set_active (release_slots (pipeline peer) (s_active s)) s))); [done|].
    apply (robust_inv_drop (set_active (release_slots (pipeline peer) (s_active s)) s)).
    by apply robust_inv_release.
  - apply (robust_inv_same (set_peers (delete addr (s_peers s)) s)); [done|]. by apply robust_inv_drop.
Qed.

Lemma choked_slots_length fast l : length (map (choked_slot fast) l) = length l.
Proof. apply length_map. Qed.

Lemma length_free_slot i b l : length (free_slot i b l) = length l.
Proof.
  induction l as [|[[[j k] t]|] l IH]; cbn; [done| |by rewrite IH].
  destruct (_ && _); cbn; [done|by rewrite IH].
Qed.

Lemma remove_request_ok i b p : peer_ok c p → peer_ok c (remove_request i b p).
Proof. intros [H1 H2]. destruct p. split; [|done]. cbn. by rewrite length_free_slot. Qed.

Lemma set_pipeline_ok l p : length l = PIPELINE_SIZE → peer_ok c p → peer_ok c (set_pipeline l p).
Proof. intros Hl [H1 H2]. by destruct p. Qed.

Lemma set_bitfield_ok bf p : (length bf ≤ piece_count c)%nat → peer_ok c p → peer_ok c (set_bitfield bf p).
Proof. intros Hl [H1 H2]. by destruct p. Qed.

Lemma on_choke_robust addr peer s : robust_inv s → wp (on_choke addr peer) (λ _, robust_inv) s.
Proof.
  intros Hi. unfold on_choke. apply swp_modify, wp_peer_inv; [by apply robust_inv_release|].
  intros p Hp. eexists. split; [done|]. split; [|by destruct p].
  assert (peer_ok c (set_pipeline (map (choked_slot (peer_allowed_fast p)) (pipeline p)) p)) as [H1 H2].
  { apply set_pipeline_ok; [|done]. rewrite length_map. apply Hp. }
  by destruct p.
Qed.

Lemma forget_request_robust addr i b s : robust_inv s → wp (forget_request addr i b) (λ _, robust_inv) s.
Proof.
  intros Hi. unfold forget_request. apply swp_bind. eapply swp_mono.
  - apply (wp_peer_inv addr _ s Hi). intros p Hp. eexists. split; [done|].
    split; [by apply remove_request_ok|by destruct p].
  - intros [] s' Hi'. apply (robust_inv_release s' [Some (i, b, 0)] Hi').
Qed.

(** * Rejecting a piece *)

Lemma contributors_nodup d : NoDup (contributors d).
Proof.
  unfold contributors. generalize (requested d) as l. intros l.
  assert (∀ seen, NoDup seen → NoDup (foldl (λ seen o, match o with
      | Some a => if decide (a ∈ seen) then seen else seen ++ [a] | None => seen end) seen l)) as H;
    [|by apply H, NoDup_nil].
  induction l as [|[a|] l IH]; intros seen Hn; cbn [foldl]; [done| |by apply IH].
  apply IH. destruct (decide (a ∈ seen)); [done|]. apply NoDup_app. split; [done|].
  split; [|apply NoDup_singleton]. by intros b Hb ->%list_elem_of_singleton.
Qed.

(** While strikes are given: the peers still to be hit have fewer strikes than the others may have. *)
Definition striking (l : list SocketAddr) (s : SwarmState) : Prop :=
  swarm_ok c s ∧ NoDup l ∧
  ∀ a p, s_peers s !! a = Some p →
    0 ≤ corrupt_blocks p ≤ corrupt_ban_threshold c ∧
    (a ∈ l → corrupt_blocks p < corrupt_ban_threshold c).

(** While peers are banned: those with too many strikes are still to be removed. *)
Definition banning (l : list SocketAddr) (s : SwarmState) : Prop :=
  swarm_ok c s ∧
  ∀ a p, s_peers s !! a = Some p → 0 ≤ corrupt_blocks p ∧ (a ∈ l ∨ corrupt_blocks p < corrupt_ban_threshold c).

Lemma swarm_ok_peer s a p : swarm_ok c s → peer_ok c p → swarm_ok c (set_peers (<[a:=p]> (s_peers s)) s).
Proof.
  intros (H1 & H2 & H3 & H4) Hp. split; [done|]. split; [done|]. split; [done|]. swarm_simpl.
  intros b q [[_ <-]|[_ Hq]]%lookup_insert_Some; [done|by apply (H4 b)].
Qed.

Lemma wp_strike a l s : striking (a :: l) s → wp (with_peer a add_strike) (λ _, striking l) s.
Proof.
  destruct Hc as (_ & _ & _ & Ht). intros (Hok & [Ha Hn]%NoDup_cons & Hp). apply wp_with_peer.
  - intros Hnone. split; [done|]. split; [done|]. intros b p Hb. destruct (Hp b p Hb) as [H1 H2].
    split; [done|]. intros ?. apply H2. by right.
  - intros p Hpa. destruct (Hp a p Hpa) as [H1 H2]. specialize (H2 ltac:(left)).
    assert (∃ p', add_strike p = Ok p' ∧ (peer_ok c p → peer_ok c p') ∧ corrupt_blocks p' = corrupt_blocks p + 1)
      as (p' & E & Hok' & Es).
    { unfold add_strike. destruct p. cbn in *. unfold checked_add_panic. rewrite (proj2 (Z.leb_le _ _)) by lia.
      eexists. split; [reflexivity|]. done. }
    exists p'. split; [done|]. split; [|split; [done|]].
    + apply swarm_ok_peer; [done|]. apply Hok'. by apply Hok in Hpa.
    + swarm_simpl. intros b q [[<- <-]|[Hne Hq]]%lookup_insert_Some; [split; [lia|done]|].
      destruct (Hp b q Hq) as [H3 H4]. split; [done|]. intros ?. apply H4. by right.
Qed.

Lemma wp_ban a l s : banning (a :: l) s → wp (ban_peer a) (λ _, banning l) s.
Proof.
  intros [(H1 & H2 & H3 & H4) Hp]. unfold ban_peer. apply swp_modify. unfold swp, modify.
  split; [split; [done|]; split; [done|]; split; [done|]|]; swarm_simpl.
  - intros b q [_ Hq]%lookup_delete_Some. by apply (H4 b).
  - intros b q [Hne Hq]%lookup_delete_Some. destruct (Hp b q Hq) as [H5 [H6|H6]]; split; try done; [|by right].
    left. by apply elem_of_cons in H6 as [->|].
Qed.

Lemma to_ban_spec s : striking [] s → banning (to_ban c s) s.
Proof.
  intros (Hok & _ & Hp). split; [done|]. intros a p Ha. destruct (Hp a p Ha) as [H1 _]. split; [lia|].
  destruct (Z.lt_ge_cases (corrupt_blocks p) (corrupt_ban_threshold c)) as [?|Hge]; [by right|left].
  unfold to_ban. apply list_elem_of_fmap. exists (a, p). split; [done|]. apply list_elem_of_filter.
  split; [done|]. by apply elem_of_map_to_list.
Qed.

Lemma reject_piece_robust i d s :
  robust_inv s → has_room (s_wasted s) → 0 ≤ i → wp (reject_piece c i d) (λ _, robust_inv) s.
Proof.
  intros Hi Hroom Hidx. destruct Hc as (Hinfo & _). unfold reject_piece.
  destruct (piece_len_ok (c_info c) i Hinfo Hidx) as (len & E & Hlen & _).
  eapply swp_lift; [done|]. apply swp_read. eapply swp_lift.
  { unfold checked_add_panic. rewrite (proj2 (Z.leb_le _ _)); [done|].
    destruct Hroom as [_ Hr], Hinfo as ([_ ?] & _). lia. }
  apply swp_modify, swp_bind. eapply swp_mono.
  { apply (swp_for_each (contributors d) _ striking).
    - intros a l s'. apply wp_strike.
    - destruct Hi as [Hok Hp]. split; [done|]. split; [apply contributors_nodup|].
      intros a p Ha. destruct (Hp a p Ha). split; [lia|done]. }
  intros [] s1 Hs1. apply swp_read, swp_bind. eapply swp_mono.
  { apply (swp_for_each (to_ban c s1) ban_peer banning).
    - intros a l s'. apply wp_ban.
    - by apply to_ban_spec. }
  intros [] s2 [Hok Hp]. apply swp_modify. unfold swp, modify.
  apply (robust_inv_same (set_active (delete i (s_active s2)) s2)); [done|]. apply robust_inv_delete.
  split; [done|]. intros a p Ha. destruct (Hp a p Ha) as [? [?%elem_of_nil|]]; done.
Qed.

(** * Completing a piece *)

(** The fields that the end of [complete_piece] looks at. *)
Definition same_core (s s' : SwarmState) : Prop := same_books s s' ∧ s_cache s' = s_cache s.

Lemma report_files_core {E} fs s0 s : same_core s0 s → swp E (report_files fs) (λ _, same_core s0) s.
Proof.
  intros Hs. unfold report_files. eapply (swp_for_each fs _ (λ _, same_core s0)); [|done].
  intros f l s' Hs'. apply swp_read. destruct (_ && _ && _); [|done]. by apply swp_modify.
Qed.

Lemma check_files_core {E} s0 s :
  length (bitfield (s_piece_mgr s)) = piece_count c → same_core s0 s →
  swp E (check_files c) (λ _, same_core s0) s.
Proof.
  intros Hlen Hs. destruct Hc as (Hinfo & Hl & _). unfold check_files.
  eapply swp_lift; [by apply file_offsets_ok|]. apply swp_read. destruct (_ <? _)%nat; [|done].
  apply swp_read. destruct Hinfo as (Hp & Hn & _).
  eapply swp_lift; [apply file_status_eq; [done|lia|done|nia]|]. by apply report_files_core.
Qed.

Lemma eviction_ok (cache : list (Z * bytes)) :
  ∃ kept, (if (piece_cache_size c <=? length cache)%nat then
             match cache with [] => Panic | _ :: cache' => Ok cache' end
           else Ok cache) = Ok (E:=ErrorKind) kept.
Proof.
  destruct Hc as (_ & _ & Hsize & _).
  destruct (Nat.leb_spec (piece_cache_size c) (length cache)) as [Hle|]; [|by eexists].
  destruct cache; [cbn in Hle; lia|by eexists].
Qed.

Lemma complete_piece_robust i data s :
  robust_inv s → 0 ≤ i → wp (complete_piece c w i data) (λ _, robust_inv) s.
Proof.
  intros Hi Hidx. destruct Hc as (_ & _ & Hsize & _). unfold complete_piece. apply swp_bind.
  unfold swp at 1, write_piece. destruct (w_write _ _ _ _); [done|].
  apply swp_modify, swp_modify, swp_bind. set (s1 := add_event _ _).
  assert (pm_ok (s_piece_mgr s1) ∧ Piece.num_pieces (s_piece_mgr s1) = piece_count c) as [Hpm Hnp].
  { destruct Hi as [(H1 & H2 & _) _]. split; [by apply set_piece_ok|]. unfold s1. swarm_simpl.
    unfold set_piece. by destruct (_ <? _)%nat. }
  eapply swp_mono.
  { apply (check_files_core s1 s1); [|done]. unfold pm_ok in Hpm. by rewrite Hpm. }
  intros [] s2 [(E1 & E2 & E3) E4]. apply swp_bind. unfold cache_piece. apply swp_read.
  destruct (eviction_ok (s_cache s2)) as [kept Ek].
  eapply swp_lift; [exact Ek|]. unfold swp, modify. destruct Hi as [(H1 & H2 & H3 & H4) H5].
  split; [split; [|split; [|split]]|]; swarm_simpl; rewrite ?E1, ?E2, ?E3; [done|done|..|exact H4|exact H5].
  intros j d [Hne Hj]%lookup_delete_Some. destruct (H3 j d Hj) as (Hj0 & Hb & Hlen & Hh).
  split; [done|]. split; [done|]. split; [done|]. unfold s1. swarm_simpl.
  unfold has_piece, set_piece in *. destruct (Nat.ltb_spec (Z.to_nat i) (Piece.num_pieces (s_piece_mgr s))); [|done].
  cbn [Piece.num_pieces bitfield]. by rewrite list_lookup_insert_ne by lia.
Qed.

Lemma verify_robust i s :
  robust_inv s → has_room (s_wasted s) → 0 ≤ i →
  wp (verify_and_complete_piece sha1 c w i) (λ _, robust_inv) s.
Proof.
  intros Hi Hroom Hidx. unfold verify_and_complete_piece.
  destruct (piece_len_ok (c_info c) i (proj1 Hc) Hidx) as (len & E & _).
  eapply swp_lift; [done|]. destruct (pieces (c_info c) !! Z.to_nat i) as [h|]; [|done].
  apply swp_read. destruct (s_active s !! i) as [d|] eqn:Hd; [|done].
  assert (active_ok c (s_piece_mgr s) i d) as (_ & _ & Hlen & _) by by apply Hi in Hd.
  rewrite E in Hlen. injection Hlen as ->.
  eapply swp_lift; [apply slice_ok; unfold zlen; lia|]. destruct (verify_piece_hash _ _ _).
  - apply swp_bind. eapply swp_mono; [by apply complete_piece_robust|]. by intros [].
  - apply swp_bind. eapply swp_mono; [by apply reject_piece_robust|]. by intros [].
Qed.

Lemma broadcast_robust i s : robust_inv s → wp (broadcast_have w i) (λ _, robust_inv) s.
Proof.
  intros Hi. unfold broadcast_have. apply swp_read.
  apply (swp_for_each _ _ (λ _, robust_inv)); [|done]. intros a l s' Hs'. apply swp_ignore.
  unfold swp, send_to. destruct (connections _ !! a); [|done]. by destruct (w_send _ _ _ _).
Qed.

(** * Messages *)

Lemma add_downloaded_ok n now p :
  0 ≤ n ≤ u32_max → peer_room p → peer_ok c p →
  ∃ p', add_downloaded n now p = Ok p' ∧ peer_ok c p' ∧ corrupt_blocks p' = corrupt_blocks p.
Proof.
  intros Hn (_ & _ & [_ H3] & [_ H4]) Hp. destruct p. unfold add_downloaded, checked_add_panic. cbn in H3, H4.
  rewrite (proj2 (Z.leb_le _ _)) by lia. cbn [obind]. rewrite (proj2 (Z.leb_le _ _)) by lia. by eexists.
Qed.

Lemma add_uploaded_ok n p :
  0 ≤ n ≤ u32_max → peer_room p → peer_ok c p →
  ∃ p', add_uploaded n p = Ok p' ∧ peer_ok c p' ∧ corrupt_blocks p' = corrupt_blocks p.
Proof.
  intros Hn ([_ H1] & [_ H2] & _) Hp. destruct p. unfold add_uploaded, checked_add_panic. cbn in H1, H2.
  rewrite (proj2 (Z.leb_le _ _)) by lia. cbn [obind]. rewrite (proj2 (Z.leb_le _ _)) by lia. by eexists.
Qed.

Lemma on_piece_robust addr i b data s :
  robust_inv s → counters_room s → message_ok (PeerMessage.Piece i b data) →
  wp (on_piece sha1 c w addr i b data) (λ _, robust_inv) s.
Proof.
  intros Hi (_ & Hwaste & Hpeers) (Hidx & _ & _ & Hlen). pose proof (zlen_nonneg data). unfold on_piece.
  apply swp_bind. eapply (swp_mono _ (λ _ s', robust_inv s' ∧ has_room (s_wasted s'))).
  { apply wp_with_peer; [done|]. intros p Hp.
    destruct (add_downloaded_ok (zlen data) (w_now w) p) as (p' & E & Hok & Es);
      [lia|by apply (Hpeers addr)|by apply (proj1 Hi) in Hp|].
    exists p'. split; [done|]. split; [|done]. apply robust_inv_peer; [done|done|]. rewrite Es.
    by apply (proj2 Hi addr). }
  intros [] s1 [Hi1 Hw1]. apply swp_bind. eapply (swp_mono _ (λ _ s', robust_inv s' ∧ has_room (s_wasted s'))).
  { apply wp_with_peer; [done|]. intros p Hp. eexists. split; [done|]. split; [|done].
    apply robust_inv_peer; [done| |].
    - apply remove_request_ok. by apply (proj1 Hi1) in Hp.
    - destruct p. by apply (proj2 Hi1 addr) in Hp. }
  intros [] s2 [Hi2 Hw2]. apply swp_read.
  destruct (match s_active s2 !! i with Some d => _ | None => _ end) as [act complete] eqn:E.
  apply swp_modify.
  assert (robust_inv (set_active act s2)) as Hi3.
  { apply robust_inv_active; [done|]. destruct (s_active s2 !! i) as [d|] eqn:Hd; [|injection E as <- <-; by apply Hi2].
    destruct (mark_received b data d) as [d' fin] eqn:Em. injection E as <- <-.
    intros j d1 [[<- <-]|[_ Hj]]%lookup_insert_Some; [|by apply Hi2].
    assert (active_ok c (s_piece_mgr s2) i d) as (H1 & (H2 & H3 & H4) & H5 & H6) by by apply Hi2 in Hd.
    destruct (mark_received_ok b data d H2) as (K1 & K2 & K3). rewrite Em in K1, K2, K3. cbn [fst] in *.
    split; [done|]. split; [|by rewrite K2]. split; [done|]. split; [by rewrite K3|]. by rewrite K2. }
  destruct complete; [|done]. apply swp_bind. eapply swp_mono.
  { apply verify_robust; [done|done|]. apply Hidx. }
  intros [] s3 Hi4; [by apply broadcast_robust|done].
Qed.

(** No cached copy of the piece ends before [begin]. *)
Definition cache_reaches (s : SwarmState) (i b : Z) : Prop :=
  Forall (λ e : Z * bytes, e.1 = i → b ≤ zlen e.2) (s_cache s).

Lemma block_to_send_ok i b len s :
  cache_reaches s i b → 0 ≤ b → 0 ≤ len →
  wp (block_to_send w i b len) (λ data s', s' = s ∧ zlen data ≤ len) s ∨
  ∃ e, block_to_send w i b len s = (s, Err e).
Proof.
  intros Hreach Hb Hl. unfold block_to_send, wp, sbind, read, lift, sret.
  destruct (List.find _ (s_cache s)) as [[j cached]|] eqn:E.
  - left. apply find_some in E as [Hin Hj]. cbn in Hj. apply Z.eqb_eq in Hj as ->.
    apply list_elem_of_In in Hin. unfold cache_reaches in Hreach. rewrite Forall_forall in Hreach.
    specialize (Hreach _ Hin eq_refl). cbn in Hreach. unfold zlen in Hreach.
    rewrite slice_ok by lia. split; [done|]. unfold zlen. rewrite length_take, length_drop. lia.
  - destruct (w_read w (s_written s) i b (Z.to_nat len)) as [e|block] eqn:Er; [right; by exists e|left].
    split; [done|]. apply Hw in Er. unfold zlen. lia.
Qed.

Lemma on_request_robust addr peer i b len s :
  robust_inv s → counters_room s → s_peers s !! addr = Some peer → message_ok (Request i b len) →
  cache_reaches s i b → wp (on_request w addr peer i b len) (λ _, robust_inv) s.
Proof.
  intros Hi (Hup & _ & Hpeers) Hp (Hidx & Hb & Hl) Hreach. unfold on_request. apply swp_read.
  destruct (negb _ && negb _); [done|]. apply swp_read. destruct (bool_decide _); [done|]. apply swp_bind.
  destruct (block_to_send_ok i b len s Hreach (proj1 Hb) (proj1 Hl)) as [H|[e He]].
  2: { unfold swp. rewrite He. done. }
  eapply swp_mono; [exact H|]. intros data s' [-> Hlen]. pose proof (zlen_nonneg data).
  assert (0 ≤ zlen data ≤ u32_max) as Hd by (destruct Hl; lia).
  destruct data as [|x data']; [done|]. set (data := x :: data') in *. apply swp_bind.
  assert (wp (send_to w addr (PeerMessage.Piece i b data))
    (λ _ s1, same_books s s1 ∧ s_uploaded s1 = s_uploaded s) s) as Hsend.
  { unfold swp, send_to. destruct (connections _ !! addr); [|done]. by destruct (w_send _ _ _ _). }
  eapply swp_mono; [exact Hsend|]. intros [] s1 [Hsame Eu]. apply swp_read. eapply swp_lift.
  { unfold checked_add_panic. rewrite (proj2 (Z.leb_le _ _)); [done|]. destruct Hup. lia. }
  apply swp_modify. destruct Hsame as (E1 & E2 & E3). apply wp_with_peer; swarm_simpl.
  - intros _. by apply (robust_inv_same s).
  - intros q Hq. rewrite E2 in Hq. destruct (add_uploaded_ok (zlen data) q) as (q' & E & Hok & Es);
      [done|by apply (Hpeers addr)|by apply (proj1 Hi) in Hq|].
    exists q'. split; [done|]. apply (robust_inv_peer (set_uploaded (s_uploaded s1 + zlen data) s1)).
    + by apply (robust_inv_same s).
    + done.
    + rewrite Es. by apply (proj2 Hi addr).
Qed.

End robust.

(** * Any event

    Only blocks need the metainfo and the cache to be in order. *)

Section events.
Context (sha1 : bytes → bytes) (c : SwarmConfig) (w : World) (Hw : world_ok w).

Abbreviation wp := (swp (robust_inv c)).
Abbreviation robust_inv := (robust_inv c).

Lemma message_robust addr msg s :
  robust_inv s → counters_room s → message_ok msg →
  (∀ i b len, msg = Request i b len → cache_reaches s i b) →
  (∀ i b data, msg = PeerMessage.Piece i b data → config_ok c) →
  wp (handle_peer_message sha1 c w addr msg) (λ _, robust_inv) s.
Proof.
  intros Hi Hroom Hmsg Hreach Hc. unfold handle_peer_message. apply swp_read.
  destruct (s_peers s !! addr) as [peer|] eqn:Hp; [|done].
  assert (∀ f, (∀ p, peer_ok c p → peer_ok c (f p) ∧ corrupt_blocks (f p) = corrupt_blocks p) →
    wp (with_peer addr (λ p, Ok (f p))) (λ _, robust_inv) s) as Hpeer.
  { intros f Hf. apply wp_peer_inv; [done|]. intros p Hok. exists (f p). split; [done|]. by apply Hf. }
  assert (∀ f, (∀ p, (length (f p) ≤ piece_count c)%nat ∨ length (f p) = length (p_bitfield p)) →
    wp (with_peer addr (λ p, Ok (set_bitfield (f p) p))) (λ _, robust_inv) s) as Hbits.
  { intros f Hf. apply Hpeer. intros p Hok. split; [|by destruct p]. apply set_bitfield_ok; [|done].
    destruct (Hf p) as [?| ->]; [done|apply Hok]. }
  destruct msg; try exact Hi.
  - by apply on_choke_robust.
  - apply Hpeer. by intros [] [].
  - apply Hpeer. by intros [] [].
  - apply Hpeer. by intros [] [].
  - apply Hbits. intros p. right. apply length_insert.
  - apply Hbits. intros p. left. unfold parse_bitfield, piece_count. by rewrite length_map, length_seq.
  - apply on_request_robust; try done. by eapply Hreach.
  - apply on_piece_robust; try done. by eapply Hc.
  - by apply forget_request_robust.
  - apply Hbits. intros p. left. by rewrite length_replicate.
  - apply Hbits. intros p. left. by rewrite length_replicate.
  - by apply forget_request_robust.
  - apply Hpeer. intros p Hok. destruct (decide _); [done|]. destruct p. by destruct Hok.
Qed.

Lemma event_robust addr e s :
  robust_inv s → counters_room s → event_ok e →
  (∀ i b len, e = Message (Request i b len) → cache_reaches s i b) →
  (is_block e → config_ok c) →
  ∃ s', handle_peer_event sha1 c w addr e s = (s', Ok tt) ∧ robust_inv s'.
Proof.
  intros Hi Hroom He Hreach Hc.
  assert (∀ s1, robust_inv s1 → ∃ s2, disconnect addr s1 = (s2, Ok tt) ∧ robust_inv s2) as Hdis.
  { intros s1 H1. pose proof (disconnect_robust c addr s1 H1) as H. unfold swp in H.
    unfold disconnect, sbind, read, modify in *. by eexists. }
  destruct e as [msg|]; cbn [handle_peer_event]; [|by apply Hdis].
  assert (wp (handle_peer_message sha1 c w addr msg) (λ _, robust_inv) s) as H.
  { apply message_robust; try done; [intros i b len ->; by eapply Hreach|].
    intros i b data ->. apply Hc. by eexists _, _, _. }
  unfold swp in H. unfold or_disconnect.
  destruct (handle_peer_message sha1 c w addr msg s) as [s1 [[]|k| |]]; try done; [by exists s1|by apply Hdis].
Qed.
End events.

(** C5: peers cannot break the swarm loop, with two exceptions. From a state whose bookkeeping is in
    order, with room left in the byte counters and a storage that keeps its contract, handling any
    event of any peer ends normally and leaves the bookkeeping in order (pipelines of five slots,
    bitfields and downloads of the right sizes, every download for a missing piece, no peer with as
    many strikes as get it banned), unless the event is a request of a cached piece that starts past
    the end of the piece, or a block that arrives when no piece may be cached
    ([piece_cache_size] is 0). For blocks, and only for them, it is assumed that the metainfo has as
    many hashes as its size calls for, which the parser does not check, and that the threshold for a
    ban is a positive [u32] ([torrent_fits]). *)
Theorem peer_events_keep_swarm_running : ∀ sha1 c w addr e s,
  (is_block e → torrent_fits c) → world_ok w → robust_inv c s → counters_room s → event_ok e →
  (∃ s', handle_peer_event sha1 c w addr e s = (s', Ok tt) ∧ robust_inv c s') ∨
  (∃ index begin len cached, e = Message (Request index begin len) ∧
     (index, cached) ∈ s_cache s ∧ zlen cached < begin) ∨
  (is_block e ∧ piece_cache_size c = 0%nat).
Proof.
  intros sha1 c w addr e s Hfits Hw Hi Hroom He.
  assert ((∀ i b len, e = Message (Request i b len) → cache_reaches s i b) → (is_block e → config_ok c) →
    ∃ s', handle_peer_event sha1 c w addr e s = (s', Ok tt) ∧ robust_inv c s') as H
    by (intros; by apply event_robust).
  destruct e as [[| | | | | | |index begin len|index begin data| | | | | | | | |]|];
    try (left; apply H; [by intros|by intros (? & ? & ? & ?)]).
  - destruct (decide (cache_reaches s index begin)) as [Hr|Hr].
    { left. apply H; [by intros ??? [= <- <- <-]|by intros (? & ? & ? & ?)]. }
    right. left. unfold cache_reaches in Hr. apply not_Forall_Exists in Hr; [|apply _].
    apply Exists_exists in Hr as ([i cached] & Hin & Hn). cbn in Hn.
    destruct (decide (i = index)) as [->|Hne]; [|by exfalso; apply Hn].
    exists index, begin, len, cached. split; [done|]. split; [done|].
    destruct (Z.lt_ge_cases (zlen cached) begin) as [?|?]; [done|]. exfalso. apply Hn. by intros _.
  - assert (is_block (Message (PeerMessage.Piece index begin data))) as Hb by by eexists _, _, _.
    destruct (Hfits Hb) as (H1 & H2 & H3).
    destruct (piece_cache_size c) as [|n] eqn:En; [by right; right|]. left. apply H; [done|]. intros _.
    split; [done|]. split; [done|]. split; [lia|done].
Qed.

Lemma sample_config_ok : config_ok sample_config.
Proof.
  split; [apply sample_info_ok|]. split; [|split; [|split]]; [|cbn; lia..].
  split; [repeat constructor; cbn; lia|vm_compute; discriminate].
Qed.

Lemma sample_world_ok : world_ok sample_world.
Proof. intros written index begin len block [= <-]. apply length_replicate. Qed.

(** The first piece is being downloaded when its only block arrives, with the wrong bytes. *)
Definition sample_downloading : SwarmState :=
  swarm_state (pm_new 2) {[0 := download_new 0 4 BLOCK_SIZE]} (upload_new 4) [] peer_info_new.

Lemma sample_downloading_ok : robust_inv sample_config sample_downloading.
Proof.
  split; [split; [done|]; split; [done|]; split|]; cbn [s_active s_peers s_piece_mgr sample_downloading swarm_state].
  - intros i d [<- <-]%lookup_singleton_Some. apply new_download_active; [apply sample_info_ok|done..].
  - intros a p [<- <-]%lookup_singleton_Some. split; [done|]. cbn. lia.
  - intros a p [<- <-]%lookup_singleton_Some. cbn. lia.
Qed.

Lemma peer_events_keep_swarm_running_witness :
  ∃ s', handle_peer_event toy_hash sample_config sample_world sample_peer
          (Message (PeerMessage.Piece 0 0 [9; 9; 9; 9])) sample_downloading = (s', Ok tt) ∧
    s_events s' = [PieceFailed 0].
Proof.
  destruct (peer_events_keep_swarm_running toy_hash sample_config sample_world sample_peer
    (Message (PeerMessage.Piece 0 0 [9; 9; 9; 9])) sample_downloading) as [(s' & E & _)|[(i & b & l & cached & H & _)|[_ H]]].
  - intros _. destruct sample_config_ok as (? & ? & _ & ?). by split_and!.
  - apply sample_world_ok.
  - apply sample_downloading_ok.
  - split; [|split]; [vm_compute; split; discriminate..|].
    cbn [s_peers sample_downloading swarm_state]. intros a p [<- <-]%lookup_singleton_Some. repeat split; vm_compute; discriminate.
  - cbn. unfold in_u32, payload_fits, bytes_ok, in_u8, zlen. cbn. split_and!; try lia. repeat constructor; lia.
  - exists s'. split; [exact E|]. apply (f_equal (λ x, s_events x.1)) in E. cbn [fst] in E. rewrite <- E.
    vm_compute. reflexivity.
  - discriminate H.
  - discriminate H.
Defined.
