(* ===== verification/Exchange.v ===== *)
(** Two swarm loops that exchange blocks, seen from either side: what the one that downloads does with
    each message of the one that has everything, and the other way round. [SwarmExchange.v] joins the
    two sides.

    The downloading side asks for one block at a time: each message that arrives fills the pipeline
    of a peer by one request. So a download that is under way has received its first [k] blocks and
    requested one more. *)

From stdpp Require Import base numbers list gmap.
From Stdlib Require Import ZArith Lia.
From S2P Require Import Prelude Facts Error Net PeerMessage Piece Metainfo MetainfoFiles Download PeerManager Upload.
From S2P Require Import Step Swarm Pipeline Choke Registration SwarmFacts Uploads SwarmLoop PipelineFacts Robust.

(** * One piece, block by block *)

Definition bsz : nat := Z.to_nat BLOCK_SIZE.

Lemma bsz_Z : Z.of_nat bsz = BLOCK_SIZE.
Proof. unfold bsz. by rewrite Z2Nat.id. Qed.

Lemma bsz_pos : (0 < bsz)%nat.
Proof. pose proof bsz_Z. unfold BLOCK_SIZE in *. lia. Qed.

Definition offset_of (k : nat) : Z := Z.of_nat k * BLOCK_SIZE.

Lemma offset_nat k : Z.of_nat (k * bsz) = offset_of k.
Proof. unfold offset_of. rewrite Nat2Z.inj_mul, bsz_Z. done. Qed.

#[global] Opaque bsz.

Abbreviation blocks_of p := (block_count p bsz).

Abbreviation block_at p k := (block_bytes p bsz k).

Lemma first_none_replicate {A} (a : A) r m : first_none (replicate r (Some a) ++ replicate (S m) None) = Some r.
Proof. induction r as [|r IH]; [done|]. cbn in *. by rewrite IH. Qed.

Lemma mark_received_fields begin data d :
  (mark_received begin data d).2 = forallb id (received (mark_received begin data d).1) ∧
  num_blocks (mark_received begin data d).1 = num_blocks d ∧
  requested (mark_received begin data d).1 = requested d.
Proof. unfold mark_received. by destruct (received d !! _) as [[]|]. Qed.

Section piece.
Context (from : SocketAddr) (piece : bytes) (Hpos : 0 < zlen piece) (Hlen : zlen piece ≤ u32_max).

(** The first [k] blocks have arrived and the first [r] have been requested. *)
Definition fetching (r k : nat) (d : ActiveDownload) : Prop :=
  assembled piece bsz (seq 0 k) d ∧ num_blocks d = blocks_of piece ∧ (r ≤ blocks_of piece)%nat ∧
  requested d = replicate r (Some from) ++ replicate (blocks_of piece - r) None.

Lemma blocks_pos : (0 < blocks_of piece)%nat.
Proof.
  unfold block_count. pose proof bsz_pos. apply Nat.div_str_pos. unfold zlen in Hpos. lia.
Qed.

Lemma block_nonempty k : (k < blocks_of piece)%nat → block_at piece k ≠ [] ∧ zlen (block_at piece k) ≤ BLOCK_SIZE.
Proof.
  intros Hk. pose proof (block_in_range piece bsz bsz_pos k Hk). pose proof (length_block_bytes piece bsz k) as Hl.
  pose proof bsz_pos. pose proof bsz_Z. split; [|unfold zlen; lia]. intros E. rewrite E in Hl. cbn in Hl. lia.
Qed.

Lemma fetching_new index : fetching 0 0 (download_new index (zlen piece) BLOCK_SIZE).
Proof.
  rewrite <- bsz_Z. split; [apply new_assembled, bsz_pos|]. unfold download_new, zlen. cbn [num_blocks requested].
  rewrite block_count_Z, Nat.sub_0_r by apply bsz_pos. split; [done|]. split; [lia|done].
Qed.

Lemma fetching_next r k d :
  fetching r k d → (r < blocks_of piece)%nat → next_unrequested d = Ok (Some (offset_of r)).
Proof.
  intros ((Hb & _) & _ & _ & Hr) Hlt. unfold next_unrequested.
  assert (first_none (requested d) = Some r) as ->.
  { rewrite Hr. replace (blocks_of piece - r)%nat with (S (blocks_of piece - S r)) by lia.
    apply first_none_replicate. }
  pose proof (block_in_range piece bsz bsz_pos r Hlt) as Hin. pose proof (offset_nat r) as Ho.
  unfold zlen in Hlen. pose proof bsz_pos. rewrite as_u32_id by nia. rewrite Hb, bsz_Z. fold (offset_of r).
  rewrite (proj2 (Z.leb_le _ _)) by lia. done.
Qed.

Lemma fetching_block_len r k j d :
  fetching r k d → (j < blocks_of piece)%nat → block_len (offset_of j) d = zlen (block_at piece j).
Proof.
  intros ((Hb & Hl & _) & _) Hj. unfold block_len, zlen. rewrite Hb, Hl, length_block_bytes, <- offset_nat.
  pose proof (block_in_range piece bsz bsz_pos j Hj). unfold zlen in Hlen. pose proof bsz_pos.
  unfold saturating_sub. rewrite as_u32_id by lia. lia.
Qed.

Lemma fetching_requested r k d :
  fetching r k d → (r < blocks_of piece)%nat → fetching (S r) k (mark_requested (offset_of r) from d).
Proof.
  intros (Ha & Hn & Hle & Hr) Hlt. unfold mark_requested, assign_block.
  assert (block_size d = BLOCK_SIZE) as Hb by (destruct Ha as [-> _]; apply bsz_Z).
  rewrite Hb. unfold offset_of. rewrite Z.div_mul by (unfold BLOCK_SIZE; lia). rewrite Nat2Z.id, Hr.
  rewrite length_app, !length_replicate, (proj2 (Nat.ltb_lt _ _)) by lia.
  split; [destruct Ha as (_ & Ha); split; [cbn; by rewrite bsz_Z|exact Ha]|].
  split; [exact Hn|]. split; [lia|]. cbn [requested].
  replace (blocks_of piece - r)%nat with (S (blocks_of piece - S r)) by lia.
  rewrite insert_app_r_alt by (rewrite length_replicate; lia). rewrite length_replicate, Nat.sub_diag.
  cbn [replicate insert list_insert]. rewrite replicate_cons_app, <- app_assoc. done.
Qed.

Lemma fetching_received r k d :
  fetching r k d → (k < blocks_of piece)%nat →
  ∃ d', mark_received (offset_of k) (block_at piece k) d = (d', bool_decide (S k = blocks_of piece)) ∧
    fetching r (S k) d'.
Proof.
  intros (Ha & Hn & Hle & Hr) Hk. pose proof (deliver_assembled piece bsz bsz_pos (seq 0 k) d k Hk Ha) as Ha'.
  unfold deliver in Ha'. rewrite offset_nat in Ha'.
  rewrite <- (seq_app k 1 0 : seq 0 (k + 1) = seq 0 k ++ [k]), Nat.add_1_r in Ha'.
  destruct (mark_received_fields (offset_of k) (block_at piece k) d) as (E1 & E2 & E3).
  revert Ha' E1 E2 E3. generalize (mark_received (offset_of k) (block_at piece k) d).
  intros [d' fin]. cbn [fst snd]. intros Ha' E1 E2 E3. exists d'. split.
  - f_equal. rewrite E1. apply eq_bool_prop_intro. rewrite bool_decide_spec, Is_true_true.
    rewrite (assembled_complete piece bsz _ _ Ha'). split.
    + intros Hall. specialize (Hall (blocks_of piece - 1)%nat ltac:(lia)). apply elem_of_seq in Hall. lia.
    + intros <- j Hj. apply elem_of_seq. lia.
  - split; [done|]. by rewrite E2, E3.
Qed.

(** With its last block the piece is there. *)
Lemma fetching_complete r d : fetching r (blocks_of piece) d → dl_data d = piece.
Proof.
  intros (Ha & _). apply (assembled_data piece bsz bsz_pos _ _ Ha).
  apply (assembled_complete piece bsz _ _ Ha). intros j Hj. apply elem_of_seq. lia.
Qed.

Lemma fetching_data r k d : fetching r k d → zlen (dl_data d) = zlen piece.
Proof. intros ((_ & Hl & _) & _). unfold zlen. by rewrite Hl. Qed.
End piece.

(** * The torrent *)

(** The pieces of the torrent, none of them empty, with the lengths and the hashes of the metainfo. *)
Record torrent_of (sha1 : bytes → bytes) (content : list bytes) (c : SwarmConfig) : Prop := {
  to_config : config_ok c;
  to_concurrent : (0 < max_concurrent_pieces c)%nat;
  to_count : Metainfo.num_pieces (c_info c) = length content;
  to_piece : ∀ i d, content !! i = Some d →
    0 < zlen d ∧ pieces (c_info c) !! i = Some (sha1 d) ∧
    piece_len_for_index (c_info c) (Z.of_nat i) = Ok (zlen d);
}.

(** A message that is handled without an error, in the loop without extensions. *)
Lemma on_event_ok sha1 c w order addr msg s s1 :
  handle_peer_message sha1 c w addr msg (set_blocked ∅ s) = (s1, Ok tt) →
  on_event sha1 c w ∅ [] order addr (Message msg) s =
    if bool_decide (missing_pieces (s_piece_mgr s1) = []) then (s1, Ok tt) else ignore_err (fill c w order) s1.
Proof.
  intros E. unfold on_event, sbind at 1, modify at 1. cbn [for_each]. unfold sbind at 1, sret at 1.
  unfold sbind at 1. cbn [handle_peer_event]. unfold or_disconnect. rewrite E.
  unfold sbind at 1, read at 1. by case_bool_decide.
Qed.

(** The state of the only peer changes. *)
Lemma with_only_peer addr f p p' s :
  s_peers s = {[addr := p]} → f p = Ok p' → with_peer addr f s = (set_peers {[addr := p']} s, Ok tt).
Proof. intros Hp Hf. unfold with_peer. by rewrite Hp, lookup_singleton_eq, Hf, insert_singleton_eq. Qed.

Lemma from_only_peer sha1 c w addr msg p s :
  s_peers s = {[addr := p]} →
  handle_peer_message sha1 c w addr msg s =
    match msg with
    | Choke => on_choke addr p
    | Unchoke => with_peer addr (λ p, Ok (set_am_choked false p))
    | Interested => with_peer addr (λ p, Ok (set_peer_interested true p))
    | Have index => with_peer addr (λ p, Ok (set_bitfield (<[Z.to_nat index:=true]> (p_bitfield p)) p))
    | Bitfield bytes => with_peer addr (λ p, Ok (set_bitfield (parse_bitfield bytes (Metainfo.num_pieces (c_info c))) p))
    | PeerMessage.Piece index begin data => on_piece sha1 c w addr index begin data
    | Request index begin len => on_request w addr p index begin len
    | HaveAll => with_peer addr (λ p, Ok (set_bitfield (replicate (Metainfo.num_pieces (c_info c)) true) p))
    | HaveNone => with_peer addr (λ p, Ok (set_bitfield (replicate (Metainfo.num_pieces (c_info c)) false) p))
    | _ => handle_peer_message sha1 c w addr msg
    end s.
Proof.
  intros Hp. destruct msg; try done; unfold handle_peer_message, sbind at 1, read at 1;
    rewrite Hp, lookup_singleton_eq; done.
Qed.

(** * The side that downloads *)

Section leecher.
Context (sha1 : bytes → bytes) (content : list bytes) (c : SwarmConfig) (a : SocketAddr).
Context (Ht : torrent_of sha1 content c).

(** The blocks of the pieces that are missing. *)
Definition piece_blocks (pm : PieceManager) (i : nat) : nat :=
  if has_piece pm (Z.of_nat i) then 0%nat else blocks_of (content !!! i).

Definition blocks_missing (pm : PieceManager) : nat := sum_list_with (piece_blocks pm) (seq 0 (length content)).

(** Room in the counters of what comes from a peer, for that many blocks. *)
Definition download_room (p : PeerInfo) (blocks : nat) : Prop :=
  0 ≤ downloaded_bytes p ∧ 0 ≤ downloaded_this_round p ∧
  downloaded_bytes p + BLOCK_SIZE * Z.of_nat blocks ≤ u64_max ∧
  downloaded_this_round p + BLOCK_SIZE * Z.of_nat blocks ≤ u64_max.

(** The peer at [a] is the only one, is connected, and has not allowed any piece fast. *)
Record leech (s : SwarmState) (p : PeerInfo) : Prop := {
  le_pm : pm_ok (s_piece_mgr s);
  le_count : Piece.num_pieces (s_piece_mgr s) = length content;
  le_peers : s_peers s = {[a := p]};
  le_conn : is_Some (connections (s_peer_mgr s) !! a);
  le_max : max_requests p = PIPELINE_SIZE;
  le_fast : peer_allowed_fast p = [];
}.

(** It has unchoked us, and it has every piece. *)
Definition unchoked_by_seed (p : PeerInfo) : Prop :=
  am_choked p = false ∧ p_bitfield p = replicate (length content) true.

(** What the pieces and the downloads are when block [k] of piece [i] has been requested and has not
    arrived; [r] blocks have been requested. *)
Definition downloading (s : SwarmState) (i r k : nat) : Prop :=
  ∃ piece d, content !! i = Some piece ∧ s_active s = {[Z.of_nat i := d]} ∧
    fetching a piece r k d ∧ (k < blocks_of piece)%nat ∧ has_piece (s_piece_mgr s) (Z.of_nat i) = false.

Record waiting (s : SwarmState) (i k : nat) : Prop := {
  wt_peer : ∃ p t, leech s p ∧ unchoked_by_seed p ∧ download_room p (blocks_missing (s_piece_mgr s) - k) ∧
    pipeline p = Some (Z.of_nat i, offset_of k, t) :: replicate 4 None;
  wt_active : downloading s i (S k) k;
}.

Definition request_of (i k : nat) : PeerMessage :=
  Request (Z.of_nat i) (offset_of k) (zlen (block_at (content !!! i) k)).

Definition piece_msg_of (i k : nat) : PeerMessage :=
  PeerMessage.Piece (Z.of_nat i) (offset_of k) (block_at (content !!! i) k).

Definition leecher_world (w : World) : Prop :=
  (∀ log msg, w_send w log a msg = None) ∧ ∀ log i d, w_write w log i d = None.

(** ** Filling the pipeline *)

Lemma piece_bounds i piece :
  content !! i = Some piece → 0 < zlen piece ≤ u32_max ∧ 0 ≤ Z.of_nat i < u32_max + 1 ∧ content !!! i = piece.
Proof.
  intros Hi. destruct (to_piece _ _ _ Ht i piece Hi) as (Hp & _ & Hl).
  destruct (to_config _ _ _ Ht) as (Hinfo & _). pose proof Hinfo as (Hpl & Hn & _).
  destruct (piece_len_ok (c_info c) (Z.of_nat i) Hinfo ltac:(lia)) as (len & E & Hb & _).
  rewrite Hl in E. injection E as <-. pose proof (lookup_lt_Some _ _ _ Hi).
  rewrite (to_count _ _ _ Ht) in Hn. split; [lia|]. split; [lia|]. by apply list_lookup_total_correct.
Qed.

Lemma find_block_seed d i m i0 begin :
  next_unrequested d = Ok (Some begin) → (i0 ≤ i < i0 + m)%nat → Z.of_nat (i0 + m) ≤ u32_max + 1 →
  find_block_from {[Z.of_nat i := d]} false [] (Z.of_nat i0) (replicate m true) = Ok (Some (Z.of_nat i, begin)).
Proof.
  intros Hd. revert i0. induction m as [|m IH]; intros i0 Hi Hm; [lia|].
  cbn [replicate find_block_from negb andb].
  replace (as_u32 (Z.of_nat i0)) with (Z.of_nat i0) by (rewrite as_u32_id; lia).
  destruct (decide (i = i0)) as [->|Hne].
  - rewrite lookup_singleton_eq, Hd. done.
  - rewrite lookup_singleton_ne by lia. replace (Z.of_nat i0 + 1) with (Z.of_nat (S i0)) by lia. apply IH; lia.
Qed.

Lemma find_block_none only fast i0 bits : find_block_from ∅ only fast i0 bits = Ok None.
Proof.
  revert i0. induction bits as [|b bits IH]; intros i0; [done|]. cbn [find_block_from].
  rewrite IH. destruct b; cbn [negb]; [|done]. by destruct (only && _).
Qed.

Lemma can_request_empty p :
  am_choked p = false → max_requests p = PIPELINE_SIZE → pipeline p = replicate 5 None → can_request p = true.
Proof. intros H1 H2 H3. unfold can_request. by rewrite H1, H2, H3. Qed.

Lemma request_block_eq w s p i begin d :
  leecher_world w → s_peers s !! a = Some p → is_Some (connections (s_peer_mgr s) !! a) →
  s_active s !! i = Some d → block_len begin d ≠ 0 →
  request_block w a i begin s =
    (recorded a p i begin (w_now w) (add_sent a (Request i begin (block_len begin d)) s), Ok tt).
Proof.
  intros [Hs _] Hp [conn Hc] Hd Hl. unfold request_block, sbind at 1, read at 1. rewrite Hd. cbn zeta.
  rewrite (proj2 (Z.eqb_neq _ _)) by done. unfold sbind at 1, send_to. rewrite Hc, Hs.
  unfold sbind, with_peer. swarm_simpl. by rewrite Hp.
Qed.

(** A message to the peer at [a] at the end of what was sent. *)
Definition asks (s s' : SwarmState) (msg : PeerMessage) : Prop :=
  s_piece_mgr s' = s_piece_mgr s ∧ s_written s' = s_written s ∧ s_sent s' = s_sent s ++ [(a, msg)].

Lemma request_waiting w s p i k :
  leecher_world w → leech s p → unchoked_by_seed p → download_room p (blocks_missing (s_piece_mgr s) - k) →
  pipeline p = replicate 5 None → downloading s i k k →
  ∃ s', request_block w a (Z.of_nat i) (offset_of k) s = (s', Ok tt) ∧ waiting s' i k ∧
    asks s s' (request_of i k).
Proof.
  intros Hw Hl Hu Hroom Hpipe (piece & d & Hi & Hact & Hf & Hk & Hh).
  destruct (piece_bounds i piece Hi) as (Hpos & _ & Htot).
  assert (s_peers s !! a = Some p) as Hp by (rewrite (le_peers _ _ Hl); apply lookup_singleton_eq).
  assert (s_active s !! Z.of_nat i = Some d) as Hd by (rewrite Hact; apply lookup_singleton_eq).
  pose proof (fetching_block_len a piece ltac:(lia) k k k d Hf Hk) as Hbl.
  destruct (block_nonempty piece k Hk) as [Hne _].
  assert (zlen (block_at piece k) ≠ 0) as Hnz by (destruct (block_at piece k); [done|unfold zlen; cbn; lia]).
  eexists. split; [apply (request_block_eq w s p); [done|done|apply Hl|done|by rewrite Hbl]|].
  rewrite Hbl. unfold asks, request_of, recorded. swarm_simpl. rewrite Htot. split; [|done].
  split; swarm_simpl.
  - exists (push_request (Z.of_nat i) (offset_of k) (w_now w) p), (w_now w).
    destruct Hl as [L1 L2 L3 L4 L5 L6]. destruct p. cbn in *. subst. split; [|done].
    split; swarm_simpl; [done|done|by rewrite L3, insert_singleton_eq|done|done|done].
  - exists piece, (mark_requested (offset_of k) a d). split; [done|]. split; [|split; [|done]].
    + swarm_simpl. rewrite Hact. apply map_eq. intros j. rewrite lookup_alter, !lookup_singleton.
      repeat case_decide; by subst.
    + by apply fetching_requested.
Qed.

(** With a download under way the next block of it is requested. *)
Lemma fill_continues w s p i k :
  leecher_world w → leech s p → unchoked_by_seed p → download_room p (blocks_missing (s_piece_mgr s) - k) →
  pipeline p = replicate 5 None → downloading s i k k →
  ∃ s', fill c w [a] s = (s', Ok tt) ∧ waiting s' i k ∧ asks s s' (request_of i k).
Proof.
  intros Hw Hl Hu Hroom Hpipe Hdl. destruct (fill_eq c w [a] s) as [sel ->].
  set (s1 := set_selector sel s).
  destruct (request_waiting w s1 p i k Hw) as (s' & E & Hs' & Has); try done.
  { destruct Hl. by split. }
  exists s'. split; [|done]. cbn [for_each]. unfold sbind at 1, fill_peer, sbind at 1, read at 1.
  pose proof Hdl as (piece & d & Hi & Hact & Hf & Hk & _). destruct (piece_bounds i piece Hi) as (Hpos & Hidx & _).
  destruct (to_config _ _ _ Ht) as ((_ & Hn & _) & _). rewrite (to_count _ _ _ Ht) in Hn.
  change (s_peers s1) with (s_peers s). rewrite (le_peers _ _ Hl), lookup_singleton_eq. cbn [from_option].
  rewrite (can_request_empty p (proj1 Hu) (le_max _ _ Hl) Hpipe). cbn [negb andb].
  unfold sbind at 1, choose_block, sbind at 1, read, id, sbind at 1, lift.
  unfold find_block_for_peer. change (s_peers s1) with (s_peers s). rewrite (le_peers _ _ Hl), lookup_singleton_eq.
  rewrite (proj2 Hu), (le_fast _ _ Hl). change (s_active s1) with (s_active s). rewrite Hact.
  assert (find_block_from {[Z.of_nat i := d]} false [] 0 (replicate (length content) true)
          = Ok (Some (Z.of_nat i, offset_of k))) as ->.
  { pose proof (lookup_lt_Some _ _ _ Hi). apply (find_block_seed d i _ 0); [|lia|lia].
    apply (fetching_next a piece ltac:(lia) k k); done. }
  cbn [sret]. by rewrite E.
Qed.

Lemma availability_seed p j :
  unchoked_by_seed p → (j < length content)%nat →
  availability_of (Metainfo.num_pieces (c_info c)) {[a := p]} !! j = Some 1%nat.
Proof.
  intros [Hc Hb] Hj. unfold availability_of. rewrite map_to_list_singleton. cbn [map foldl snd].
  unfold add_availability. rewrite Hc, Hb, add_bits_lookup, (to_count _ _ _ Ht).
  rewrite !lookup_replicate_2 by done. done.
Qed.

(** Without one, and with a piece missing, a download is started. *)
Lemma fill_starts w s p :
  leecher_world w → leech s p → unchoked_by_seed p → download_room p (blocks_missing (s_piece_mgr s)) →
  pipeline p = replicate 5 None → s_active s = ∅ → missing_pieces (s_piece_mgr s) ≠ [] →
  ∃ s' i, fill c w [a] s = (s', Ok tt) ∧ waiting s' i 0 ∧ asks s s' (request_of i 0).
Proof.
  intros Hw Hl Hu Hroom Hpipe Hact Hmiss. destruct (fill_eq c w [a] s) as [sel ->].
  set (s1 := set_selector sel s). set (bf := bitfield (s_piece_mgr s)).
  set (avail := availability_of (Metainfo.num_pieces (c_info c)) {[a := p]}).
  destruct (to_config _ _ _ Ht) as ((_ & Hn & _) & _). rewrite (to_count _ _ _ Ht) in Hn.
  pose proof (le_pm _ _ Hl) as Hpm. pose proof (le_count _ _ Hl) as Hcnt. unfold pm_ok in Hpm.
  assert (sizes_ok bf avail) as Hs.
  { apply availability_sizes; [unfold bf; lia|]. rewrite map_size_singleton. by vm_compute. }
  destruct (select sel bf avail) as [idx|] eqn:Esel.
  2: { exfalso. destruct (missing_pieces (s_piece_mgr s)) as [|j l] eqn:Em; [done|].
       assert (j ∈ missing_pieces (s_piece_mgr s)) as Hj by (rewrite Em; left).
       unfold missing_pieces in Hj. apply indices_where_elem in Hj as [_ ([] & Hb & ?)%fmap_Some]; [done| |lia].
       pose proof (select_complete bf avail Hs Esel (Z.to_nat j) _ Hb
         (availability_seed p (Z.to_nat j) Hu ltac:(apply lookup_lt_Some in Hb; lia))). done. }
  destruct (select_sound _ _ _ Hs Esel) as (Hi0 & Hbf & _).
  assert (∃ i, idx = Z.of_nat i) as [i ->] by (exists (Z.to_nat idx); lia). rewrite Nat2Z.id in Hbf. pose proof (lookup_lt_Some _ _ _ Hbf) as Hlt.
  destruct (lookup_lt_is_Some_2 content i ltac:(unfold bf in Hlt; lia)) as [piece Hi].
  destruct (piece_bounds i piece Hi) as (Hpos & _ & _). destruct (to_piece _ _ _ Ht i piece Hi) as (_ & _ & Hlen).
  set (d := download_new (Z.of_nat i) (zlen piece) BLOCK_SIZE).
  pose proof (fetching_new a piece (Z.of_nat i)) as Hf. fold d in Hf. pose proof (blocks_pos piece ltac:(lia)) as Hb0.
  set (s2 := set_active (<[Z.of_nat i:=d]> (s_active s1)) s1).
  destruct (request_waiting w s2 p i 0 Hw) as (s' & E & Hs' & Has); try done.
  { destruct Hl. by split. }
  { by rewrite Nat.sub_0_r. }
  { exists piece, d. split; [done|]. split; [unfold s2, s1; swarm_simpl; by rewrite Hact|]. split; [done|]. split; [done|].
    unfold s2, s1. swarm_simpl. unfold has_piece. rewrite Nat2Z.id. fold bf. rewrite Hbf. apply andb_false_r. }
  exists s', i. split; [|done]. cbn [for_each]. unfold sbind at 1, fill_peer, sbind at 1, read at 1.
  change (s_peers s1) with (s_peers s). rewrite (le_peers _ _ Hl), lookup_singleton_eq. cbn [from_option].
  rewrite (can_request_empty p (proj1 Hu) (le_max _ _ Hl) Hpipe). cbn [negb andb].
  unfold sbind at 1, choose_block, sbind at 1, read at 1, id, sbind at 1, lift at 1.
  unfold find_block_for_peer. change (s_peers s1) with (s_peers s). rewrite (le_peers _ _ Hl), lookup_singleton_eq.
  change (s_active s1) with (s_active s). rewrite Hact, find_block_none, map_size_empty.
  rewrite (proj2 (Nat.ltb_lt _ _) (to_concurrent _ _ _ Ht)).
  unfold start_piece, sbind at 1, read at 1, id. change (s_peers s1) with (s_peers s).
  rewrite (le_peers _ _ Hl), lookup_singleton_eq. cbn [from_option]. rewrite (proj2 Hu), length_replicate.
  rewrite (proj2 (Nat.eqb_neq _ _)) by (unfold bf in Hlt; lia).
  fold bf avail. change (s_selector s1) with sel. rewrite Esel.
  change (s_active s1) with (s_active s). rewrite Hact, lookup_empty.
  unfold sbind at 1, lift at 1. rewrite Hlen, (proj2 (Z.eqb_neq _ _)) by lia. fold d.
  rewrite (fetching_next a piece ltac:(lia) 0 0 d Hf Hb0). unfold sbind, lift, modify, sret. cbn zeta. 
  fold s2. by rewrite E.
Qed.

(** ** A block arrives *)

(** A step that ends normally in a state that satisfies [Q]. *)
Abbreviation ends m Q s := (swp (λ _, False) m (λ _ s', Q s') s).

Lemma ends_ok {A} (m : step A) (Q : SwarmState → Prop) s :
  swp (λ _, False) m (λ _, Q) s → ∃ s' r, m s = (s', Ok r) ∧ Q s'.
Proof. unfold swp. destruct (m s) as [s' [r|e| |]]; try done. intros H. by exists s', r. Qed.

(** Everything but the report of the files. *)
Definition but_report (s : SwarmState) :=
  (s_piece_mgr s, s_peer_mgr s, s_peers s, s_active s, s_cache s, s_sent s, s_written s).

Lemma check_files_keeps : keeps but_report (check_files c).
Proof. unfold check_files, report_files. solve_frame. Qed.

Lemma broadcast_sends w i s :
  ∃ log, broadcast_have w i s =
      (fold_left (λ s e, add_sent e.1 e.2 s) log s, Ok tt) ∧ Forall (λ e, e.2 = Have i) log.
Proof.
  unfold broadcast_have, sbind at 1, read at 1. generalize (w_conn_order w (connections (s_peer_mgr s))).
  intros l. revert s. induction l as [|b l IH]; intros s; [by exists []|]. cbn [for_each]. unfold sbind at 1.
  assert (∃ log, ignore_err (send_to w b (Have i)) s = (fold_left (λ s e, add_sent e.1 e.2 s) log s, Ok tt) ∧
            Forall (λ e, e.2 = Have i) log) as (l1 & -> & H1).
  { unfold ignore_err, send_to. destruct (_ !! b); [|by exists []].
    destruct (w_send _ _ _ _); [by exists []|]. exists [(b, Have i)]. by repeat constructor. }
  destruct (IH (fold_left (λ s e, add_sent e.1 e.2 s) l1 s)) as (l2 & -> & H2). exists (l1 ++ l2).
  by rewrite fold_left_app, Forall_app.
Qed.

Lemma fold_sent log s :
  but_report (fold_left (λ s e, add_sent e.1 e.2 s) log s) =
    (s_piece_mgr s, s_peer_mgr s, s_peers s, s_active s, s_cache s, s_sent s ++ log, s_written s).
Proof.
  revert s. induction log as [|[b m] log IH]; intros s; cbn [fold_left]; [by rewrite app_nil_r|].
  rewrite IH. swarm_simpl. by rewrite <- app_assoc.
Qed.

(** The last block of a piece has arrived: the piece is written, marked and announced. *)
Lemma verify_completes w s i r piece d :
  leecher_world w → pm_ok (s_piece_mgr s) → Piece.num_pieces (s_piece_mgr s) = length content →
  content !! i = Some piece → s_active s = {[Z.of_nat i := d]} → fetching a piece r (blocks_of piece) d →
  ∃ s', verify_and_complete_piece sha1 c w (Z.of_nat i) s = (s', Ok true) ∧
    s_piece_mgr s' = set_piece (s_piece_mgr s) (Z.of_nat i) ∧ s_peer_mgr s' = s_peer_mgr s ∧
    s_peers s' = s_peers s ∧ s_active s' = ∅ ∧ s_sent s' = s_sent s ∧
    s_written s' = s_written s ++ [(Z.of_nat i, piece)].
Proof.
  intros [_ Hw] Hpm Hcnt Hi Hact Hf. destruct (to_piece _ _ _ Ht i piece Hi) as (Hpos & Hh & Hlen).
  unfold verify_and_complete_piece, sbind at 1, lift at 1. rewrite Hlen, Nat2Z.id, Hh.
  unfold sbind at 1, read at 1. rewrite Hact, lookup_singleton_eq.
  unfold sbind at 1, lift at 1. rewrite slice_ok by (pose proof (fetching_data a piece r _ d Hf); unfold zlen in *; lia).
  rewrite drop_0, Nat.sub_0_r, (fetching_complete a piece r d Hf), take_ge by (unfold zlen; lia).
  unfold verify_piece_hash. rewrite bool_decide_eq_true_2 by done.
  assert (ends (complete_piece c w (Z.of_nat i) piece) (λ s',
    s_piece_mgr s' = set_piece (s_piece_mgr s) (Z.of_nat i) ∧ s_peer_mgr s' = s_peer_mgr s ∧
    s_peers s' = s_peers s ∧ s_active s' = ∅ ∧ s_sent s' = s_sent s ∧
    s_written s' = s_written s ++ [(Z.of_nat i, piece)]) s) as H.
  { unfold complete_piece. apply swp_bind. unfold swp at 1, write_piece. rewrite Hw.
    apply swp_modify, swp_modify, swp_bind. set (s1 := add_event _ _).
    assert (pm_ok (s_piece_mgr s1)) as Hpm1 by (by apply set_piece_ok).
    assert (length (bitfield (s_piece_mgr s1)) = piece_count c) as Hl1.
    { unfold pm_ok in Hpm1. rewrite Hpm1. unfold piece_count. rewrite (to_count _ _ _ Ht), <- Hcnt.
      unfold s1. swarm_simpl. unfold set_piece. by case_match. }
    pose proof (check_files_core c (to_config _ _ _ Ht) (E:=λ _, False) s1 s1 Hl1 ltac:(done)) as Hcf.
    pose proof (check_files_keeps s1) as Hk. unfold swp in Hcf |- * at 1.
    destruct (check_files c s1) as [s2 [[]|e| |]]; try done. cbn [fst] in Hk. unfold but_report in Hk.
    injection Hk as K1 K2 K3 K4 K5 K6 K7. unfold cache_piece. apply swp_bind, swp_read.
    destruct (eviction_ok c (to_config _ _ _ Ht) (s_cache s2)) as [kept Ek].
    eapply swp_lift; [exact Ek|]. unfold swp, modify. swarm_simpl. rewrite K1, K2, K3, K4, K6, K7.
    unfold s1. swarm_simpl. rewrite Hact, delete_singleton_eq. done. }
  apply ends_ok in H as (s' & [] & E & Hs'). exists s'. split; [|done]. unfold sbind. by rewrite E.
Qed.

Lemma blocks_missing_set pm i piece :
  pm_ok pm → Piece.num_pieces pm = length content → content !! i = Some piece →
  has_piece pm (Z.of_nat i) = false →
  (blocks_missing (set_piece pm (Z.of_nat i)) + blocks_of piece)%nat = blocks_missing pm.
Proof.
  intros Hpm Hcnt Hi Hh. pose proof (lookup_lt_Some _ _ _ Hi) as Hlt. unfold blocks_missing.
  replace (length content) with (i + S (length content - S i))%nat by lia. rewrite seq_app, !sum_list_with_app.
  cbn [seq Nat.add]. cbn [sum_list_with].
  assert (∀ j, j ≠ i → piece_blocks (set_piece pm (Z.of_nat i)) j = piece_blocks pm j) as Hj.
  { intros j Hj. unfold piece_blocks. rewrite has_piece_set by (done || lia). by rewrite bool_decide_eq_false_2 by lia. }
  assert (∀ l, i ∉ l → sum_list_with (piece_blocks (set_piece pm (Z.of_nat i))) l = sum_list_with (piece_blocks pm) l) as Hs.
  { induction l as [|j l IH]; intros Hl; [done|]. apply not_elem_of_cons in Hl as [Hn Hl]. cbn [sum_list_with].
    by rewrite IH, Hj. }
  rewrite !Hs by (rewrite elem_of_seq; lia).
  unfold piece_blocks at 2 5. rewrite has_piece_set, Hh, bool_decide_eq_true_2 by (done || lia). cbn [orb].
  rewrite (list_lookup_total_correct _ _ _ Hi). lia.
Qed.

Lemma blocks_missing_piece pm i piece :
  content !! i = Some piece → has_piece pm (Z.of_nat i) = false → (blocks_of piece ≤ blocks_missing pm)%nat.
Proof.
  intros Hi Hh. pose proof (lookup_lt_Some _ _ _ Hi). unfold blocks_missing.
  replace (length content) with (i + S (length content - S i))%nat by lia. rewrite seq_app, sum_list_with_app.
  cbn [seq Nat.add sum_list_with]. unfold piece_blocks at 2. rewrite Hh, (list_lookup_total_correct _ _ _ Hi). lia.
Qed.

Lemma add_downloaded_room n now p m :
  0 ≤ n ≤ BLOCK_SIZE → download_room p (S m) →
  ∃ p', add_downloaded n now p = Ok p' ∧ download_room p' m ∧ am_choked p' = am_choked p ∧
    p_bitfield p' = p_bitfield p ∧ pipeline p' = pipeline p ∧ max_requests p' = max_requests p ∧
    peer_allowed_fast p' = peer_allowed_fast p ∧ downloaded_bytes p' = downloaded_bytes p + n.
Proof.
  intros Hn (H1 & H2 & H3 & H4). unfold BLOCK_SIZE in *. destruct p. unfold add_downloaded, checked_add_panic. cbn in *.
  rewrite !(proj2 (Z.leb_le _ _)) by lia. cbn [obind]. eexists. split; [reflexivity|]. cbn.
  unfold download_room, BLOCK_SIZE. cbn. split_and!; try done; lia.
Qed.

(** The state between the arrival of block [k] and the rest of [on_piece]. *)
Lemma block_stored w s i k :
  waiting s i k →
  ∃ s1 d, (do! _ := with_peer a (add_downloaded (zlen (block_at (content !!! i) k)) (w_now w)) in
           with_peer a (λ p, Ok (remove_request (Z.of_nat i) (offset_of k) p))) s = (s1, Ok tt) ∧
    s_active s1 = {[Z.of_nat i := d]} ∧
    let '(d', fin) := mark_received (offset_of k) (block_at (content !!! i) k) d in
    let s2 := set_active {[Z.of_nat i := d']} s1 in
    (∃ p, leech s2 p ∧ unchoked_by_seed p ∧ pipeline p = replicate 5 None ∧
       download_room p (blocks_missing (s_piece_mgr s) - S k)) ∧
    fin = bool_decide (S k = blocks_of (content !!! i)) ∧ fetching a (content !!! i) (S k) (S k) d' ∧
    s_piece_mgr s2 = s_piece_mgr s ∧ s_written s2 = s_written s ∧ s_sent s2 = s_sent s.
Proof.
  intros [(p & t & Hl & Hu & Hroom & Hpipe) (piece & d & Hi & Hact & Hf & Hk & Hh)].
  destruct (piece_bounds i piece Hi) as (Hpos & _ & Htot). rewrite Htot.
  pose proof (blocks_missing_piece _ i piece Hi Hh) as Hbm.
  destruct (block_nonempty piece k Hk) as [_ Hbl]. pose proof (zlen_nonneg (block_at piece k)).
  replace (blocks_missing (s_piece_mgr s) - k)%nat with (S (blocks_missing (s_piece_mgr s) - S k)) in Hroom by lia.
  destruct (add_downloaded_room (zlen (block_at piece k)) (w_now w) p _ ltac:(lia) Hroom)
    as (p1 & E1 & R1 & F1 & F2 & F3 & F4 & F5 & _).
  destruct (fetching_received a piece (S k) k d Hf Hk) as (d' & Em & Hf').
  exists (set_peers (<[a:=remove_request (Z.of_nat i) (offset_of k) p1]> (<[a:=p1]> (s_peers s)))
            (set_peers (<[a:=p1]> (s_peers s)) s)), d.
  split; [|split; [done|]].
  { unfold sbind, with_peer. rewrite (le_peers _ _ Hl), lookup_singleton_eq, E1. swarm_simpl.
    by rewrite lookup_insert_eq. }
  rewrite Em. cbn zeta. split; [|done].
  exists (remove_request (Z.of_nat i) (offset_of k) p1). rewrite Hpipe in F3. destruct Hl as [L1 L2 L3 L4 L5 L6], Hu as [U1 U2].
  split; [|].
  - split; swarm_simpl; [done|done| |done|by destruct p1; cbn in *; congruence|by destruct p1; cbn in *; congruence].
    by rewrite L3, !insert_singleton_eq.
  - unfold unchoked_by_seed, remove_request. destruct p1. cbn in *. subst.
    cbn [free_slot]. rewrite !Z.eqb_refl. done.
Qed.

(** Only announcements of pieces. *)
Definition only_haves (log : list (SocketAddr * PeerMessage)) : Prop := Forall (λ e, ∃ j, e.2 = Have j) log.

(** What a step did to the pieces: nothing, or piece [i] was written and marked. *)
Definition stores (i : nat) (s s' : SwarmState) : Prop :=
  s_piece_mgr s' = s_piece_mgr s ∧ s_written s' = s_written s ∨
  s_piece_mgr s' = set_piece (s_piece_mgr s) (Z.of_nat i) ∧
  s_written s' = s_written s ++ [(Z.of_nat i, content !!! i)].

(** The blocks that have not arrived. *)
Definition left_at (s : SwarmState) (k : nat) : nat := (blocks_missing (s_piece_mgr s) - k)%nat.

Record done (s : SwarmState) : Prop := {
  dn_leech : ∃ p, leech s p ∧ unchoked_by_seed p;
  dn_all : missing_pieces (s_piece_mgr s) = [];
  dn_active : s_active s = ∅;
}.

(** What the arrival of block [k] of piece [i] leads to. *)
Definition progressed (s : SwarmState) (i k : nat) (s' : SwarmState) : Prop :=
  stores i s s' ∧ ∃ log, only_haves log ∧
    ((∃ i' k', waiting s' i' k' ∧ left_at s k = S (left_at s' k') ∧
        s_sent s' = s_sent s ++ log ++ [(a, request_of i' k')]) ∨
     (done s' ∧ left_at s k = 1%nat ∧ s_sent s' = s_sent s ++ log)).

Lemma blocks_missing_done pm :
  pm_ok pm → Piece.num_pieces pm = length content → missing_pieces pm = [] → blocks_missing pm = 0%nat.
Proof.
  intros Hpm Hcnt Hm. destruct (to_config _ _ _ Ht) as ((_ & Hn & _) & _). rewrite (to_count _ _ _ Ht) in Hn.
  unfold blocks_missing. assert (∀ l, (∀ i, i ∈ l → (i < length content)%nat) → sum_list_with (piece_blocks pm) l = 0%nat) as H.
  { induction l as [|i l IH]; intros Hl; [done|]. cbn [sum_list_with]. rewrite IH by (intros j Hj; apply Hl; by right).
    unfold piece_blocks. destruct (has_piece pm (Z.of_nat i)) eqn:Hh; [done|]. exfalso.
    specialize (Hl i (list_elem_of_here _ _)).
    assert (Z.of_nat i ∈ missing_pieces pm) as Hin by (apply missing_pieces_spec; [done|lia|lia|split; [lia|done]]).
    rewrite Hm in Hin. by apply elem_of_nil in Hin. }
  apply H. intros i. rewrite elem_of_seq. lia.
Qed.

(** The last block of a piece. *)
Lemma last_block_arrives w s2 i p k d r :
  leecher_world w → leech s2 p → unchoked_by_seed p → pipeline p = replicate 5 None →
  download_room p (blocks_missing (s_piece_mgr s2) - S k) → (i < length content)%nat →
  S k = blocks_of (content !!! i) → has_piece (s_piece_mgr s2) (Z.of_nat i) = false →
  s_active s2 = {[Z.of_nat i := d]} → fetching a (content !!! i) r (S k) d →
  ∃ s3, (do! completed := verify_and_complete_piece sha1 c w (Z.of_nat i) in
         if completed : bool then broadcast_have w (Z.of_nat i) else sret tt) s2 = (s3, Ok tt) ∧
    ∃ log, only_haves log ∧ s_sent s3 = s_sent s2 ++ log ∧
      s_piece_mgr s3 = set_piece (s_piece_mgr s2) (Z.of_nat i) ∧
      s_written s3 = s_written s2 ++ [(Z.of_nat i, content !!! i)] ∧
      leech s3 p ∧ s_active s3 = ∅ ∧
      blocks_missing (s_piece_mgr s3) = (blocks_missing (s_piece_mgr s2) - S k)%nat.
Proof.
  intros Hw Hl Hu Hpipe Hroom Hi Hk Hh Hact Hf. rewrite Hk in Hf.
  destruct (lookup_lt_is_Some_2 _ _ Hi) as [piece Hp]. rewrite (list_lookup_total_correct _ _ _ Hp) in *.
  destruct (verify_completes w s2 i r piece d) as (s3 & E & V1 & V2 & V3 & V4 & V5 & V6); try done; [apply Hl..|].
  destruct (broadcast_sends w (Z.of_nat i) s3) as (log & Eb & Hlog). pose proof (fold_sent log s3) as Hfs.
  unfold but_report in Hfs. injection Hfs as K1 K2 K3 K4 K5 K6 K7.
  eexists. split; [unfold sbind; rewrite E; exact Eb|]. exists log.
  rewrite K1, K4, K6, K7, V1, V4, V5, V6.
  split; [eapply Forall_impl; [exact Hlog|]; intros e He; by exists (Z.of_nat i)|].
  split; [done|]. split; [done|]. split; [done|]. split.
  - destruct Hl as [L1 L2 L3 L4 L5 L6]. split; rewrite ?K1, ?K2, ?K3, ?V1, ?V2, ?V3; try done.
    + by apply set_piece_ok.
    + rewrite <- L2. unfold set_piece. by case_match.
  - split; [done|]. pose proof (blocks_missing_set _ i piece (le_pm _ _ Hl) (le_count _ _ Hl) Hp Hh). lia.
Qed.

Lemma fill_ignored w s s' :
  fill c w [a] s = (s', Ok tt) → ignore_err (fill c w [a]) s = (s', Ok tt).
Proof. unfold ignore_err. by intros ->. Qed.

(** The block that was asked for arrives: it is stored, and the next block is asked for, of the same
    piece or of another one, until no piece is missing. *)
Lemma piece_arrives w s i k :
  leecher_world w → waiting s i k →
  ∃ s', on_event sha1 c w ∅ [] [a] a (Message (piece_msg_of i k)) s = (s', Ok tt) ∧ progressed s i k s'.
Proof.
  intros Hw Hwait. assert (waiting (set_blocked ∅ s) i k) as Hwait0 by
    (destruct Hwait as [(p & t & [] & H) Hd]; split; [exists p, t; split; [by split|exact H]|exact Hd]).
  destruct (block_stored w _ i k Hwait0) as (s1 & d & E & Hact & Hrec).
  pose proof Hwait as [(p0 & t0 & Hl0 & Hu0 & _) (piece & d0 & Hi & _ & _ & Hk & Hh)].
  pose proof (lookup_lt_Some _ _ _ Hi) as Hlt. destruct (piece_bounds i piece Hi) as (_ & _ & Htot). subst piece.
  pose proof (blocks_missing_piece _ i _ Hi Hh) as Hbm.
  destruct (mark_received _ _ d) as [d' fin] eqn:Em. cbn zeta in Hrec.
  destruct Hrec as ((p & Hl & Hu & Hpipe & Hroom) & Hfin & Hf & P1 & P2 & P3).
  set (s2 := set_active {[Z.of_nat i := d']} s1) in *.
  change (s_piece_mgr (set_blocked ∅ s)) with (s_piece_mgr s) in *.
  change (s_written (set_blocked ∅ s)) with (s_written s) in *. change (s_sent (set_blocked ∅ s)) with (s_sent s) in *.
  assert (handle_peer_message sha1 c w a (piece_msg_of i k) (set_blocked ∅ s) =
    (if fin then do! completed := verify_and_complete_piece sha1 c w (Z.of_nat i) in
         if completed : bool then broadcast_have w (Z.of_nat i) else sret tt else sret tt) s2) as Eh.
  { rewrite (from_only_peer _ _ _ _ _ p0) by apply Hl0. unfold piece_msg_of, on_piece. unfold sbind in E. unfold sbind at 1.
    destruct (with_peer a (add_downloaded _ _) _) as [sa [[]|e| |]]; try done.
    unfold sbind at 1. rewrite E. unfold sbind at 1, read at 1. rewrite Hact, lookup_singleton_eq, Em.
    unfold sbind at 1, modify at 1. rewrite insert_singleton_eq. by destruct fin. }
  destruct fin; symmetry in Hfin; [apply bool_decide_eq_true in Hfin|apply bool_decide_eq_false in Hfin].
  - destruct (last_block_arrives w s2 i p k d' (S k)) as (s3 & E3 & log & Hlog & Q1 & Q2 & Q3 & Q4 & Q5 & Q6);
      try done; [by rewrite P1|by rewrite P1|]. rewrite E3 in Eh. rewrite (on_event_ok _ _ _ _ _ _ _ _ Eh).
    assert (stores i s s3) as Hst by (right; by rewrite Q2, Q3, P1, P2).
    rewrite P1 in *. rewrite P3 in Q1. unfold progressed, left_at. case_bool_decide as Hm.
    + exists s3. split; [done|]. split; [done|]. exists log. split; [done|]. right.
      split; [split; [by exists p|done|done]|]. split; [|done].
      pose proof (blocks_missing_done _ (le_pm _ _ Q4) (le_count _ _ Q4) Hm). lia.
    + destruct (fill_starts w s3 p) as (s' & i' & Ef & Hw' & A1 & A2 & A3); try done; [by rewrite Q6|].
      exists s'. split; [by apply fill_ignored|]. split.
      { unfold stores in *. by rewrite A1, A2. }
      exists log. split; [done|]. left. exists i', 0%nat. split; [done|]. rewrite A1, A3, Q1, <- app_assoc.
      split; [lia|done].
  - rewrite (on_event_ok _ _ _ _ _ _ _ _ Eh). cbn [sret]. 
    rewrite bool_decide_eq_false_2.
    2: { intros Hm. pose proof (blocks_missing_done _ (le_pm _ _ Hl) (le_count _ _ Hl) Hm) as H0. rewrite P1 in H0. lia. }
    destruct (fill_continues w s2 p i (S k)) as (s' & Ef & Hw' & A1 & A2 & A3); try done.
    { by rewrite P1. }
    { exists (content !!! i), d'. rewrite P1. split_and!; try done. lia. }
    exists s'. split; [by apply fill_ignored|]. split; [left; by rewrite A1, A2|]. exists []. split; [constructor|].
    left. exists i, (S k). split; [done|]. unfold left_at. rewrite A1, A3, P1, P3. split; [lia|done].
Qed.

(** ** Before the first request *)

Record choked_leech (s : SwarmState) (p : PeerInfo) : Prop := {
  ch_leech : leech s p;
  ch_choked : am_choked p = true;
  ch_pipeline : pipeline p = replicate 5 None;
  ch_active : s_active s = ∅;
  ch_missing : missing_pieces (s_piece_mgr s) ≠ [];
  ch_room : download_room p (blocks_missing (s_piece_mgr s));
}.

(** The messages that tell that a peer has everything. *)
Definition tells_all (msg : PeerMessage) : Prop :=
  msg = HaveAll ∨ ∃ bits, msg = Bitfield bits ∧ parse_bitfield bits (length content) = replicate (length content) true.

Lemma tells_all_handled w msg s p :
  s_peers s = {[a := p]} → tells_all msg →
  handle_peer_message sha1 c w a msg s =
    (set_peers {[a := set_bitfield (replicate (length content) true) p]} s, Ok tt).
Proof.
  intros Hp Hm. rewrite (from_only_peer _ _ _ _ _ p) by done. rewrite (to_count _ _ _ Ht).
  destruct Hm as [->|(bits & -> & Eb)]; (erewrite with_only_peer; [|done|reflexivity]); [done|]. by rewrite Eb.
Qed.

(** A choked peer without allowed pieces requests nothing. *)
Lemma fill_choked w s p :
  leech s p → am_choked p = true →
  ∃ sel, fill c w [a] s = (set_selector sel s, Ok tt).
Proof.
  intros Hl Hc. destruct (fill_eq c w [a] s) as [sel ->]. exists sel. cbn [for_each].
  unfold sbind at 1, fill_peer, sbind at 1, read at 1. change (s_peers (set_selector sel s)) with (s_peers s).
  rewrite (le_peers _ _ Hl), lookup_singleton_eq. cbn [from_option]. unfold can_request, can_request_fast.
  by rewrite Hc, (le_fast _ _ Hl).
Qed.

Lemma told_all w msg s p :
  choked_leech s p → tells_all msg →
  ∃ s' p', on_event sha1 c w ∅ [] [a] a (Message msg) s = (s', Ok tt) ∧ choked_leech s' p' ∧
    p_bitfield p' = replicate (length content) true ∧
    s_piece_mgr s' = s_piece_mgr s ∧ s_written s' = s_written s ∧ s_sent s' = s_sent s.
Proof.
  intros [Hl Hc Hp Ha Hm Hr] Hmsg. pose proof (tells_all_handled w msg (set_blocked ∅ s) p (le_peers _ _ Hl) Hmsg) as E.
  rewrite (on_event_ok _ _ _ _ _ _ _ _ E). swarm_simpl. rewrite bool_decide_eq_false_2 by done.
  set (p' := set_bitfield _ p). set (s1 := set_peers _ _).
  assert (leech s1 p') as Hl' by (destruct Hl; destruct p; split; done).
  destruct (fill_choked w s1 p' Hl') as [sel Ef]; [by destruct p|].
  exists (set_selector sel s1), p'. split; [by apply fill_ignored|]. split; [|by destruct p].
  split; [by destruct Hl'; split|by destruct p..|done|done|by destruct p].
Qed.

Lemma unchoked_asks w s p :
  leecher_world w → choked_leech s p → p_bitfield p = replicate (length content) true →
  ∃ s' i, on_event sha1 c w ∅ [] [a] a (Message Unchoke) s = (s', Ok tt) ∧ waiting s' i 0 ∧
    asks s s' (request_of i 0).
Proof.
  intros Hw [Hl Hc Hp Ha Hm Hr] Hb.
  assert (handle_peer_message sha1 c w a Unchoke (set_blocked ∅ s) =
          (set_peers {[a := set_am_choked false p]} (set_blocked ∅ s), Ok tt)) as E.
  { pose proof (le_peers _ _ Hl) as Hpe. rewrite (from_only_peer _ _ _ _ _ p) by done. by apply (with_only_peer _ _ p). }
  rewrite (on_event_ok _ _ _ _ _ _ _ _ E). swarm_simpl. rewrite bool_decide_eq_false_2 by done.
  set (p' := set_am_choked false p). set (s1 := set_peers _ _).
  assert (leech s1 p') as Hl' by (destruct Hl; destruct p; split; done).
  destruct (fill_starts w s1 p') as (s' & i & Ef & Hwt & Has); [done|done|by destruct p..|done|done|].
  exists s', i. split; [by apply fill_ignored|]. done.
Qed.
End leecher.

(** * The side that has everything *)

Section seeder.
Context (sha1 : bytes → bytes) (content : list bytes) (c : SwarmConfig) (b : SocketAddr).
Context (Ht : torrent_of sha1 content c).

(** Room in the counters of what goes to a peer. *)
Definition upload_room (s : SwarmState) (p : PeerInfo) (blocks : nat) : Prop :=
  s_uploaded s + BLOCK_SIZE * Z.of_nat blocks ≤ u64_max ∧
  uploaded_bytes p + BLOCK_SIZE * Z.of_nat blocks ≤ u64_max ∧
  uploaded_this_round p + BLOCK_SIZE * Z.of_nat blocks ≤ u64_max ∧ 0 ≤ uploaded_bytes p.

Record seeds (s : SwarmState) (p : PeerInfo) (blocks : nat) : Prop := {
  sd_peers : s_peers s = {[b := p]};
  sd_conn : is_Some (connections (s_peer_mgr s) !! b);
  sd_all : missing_pieces (s_piece_mgr s) = [];
  sd_cache : s_cache s = [];
  sd_room : upload_room s p blocks;
}.

(** The storage has the content; a set is visited in some order. *)
Definition seeder_world (w : World) : Prop :=
  (∀ log msg, w_send w log b msg = None) ∧
  (∀ log i piece begin len, content !! i = Some piece → (begin + len ≤ length piece)%nat →
     w_read w log (Z.of_nat i) (Z.of_nat begin) len = inr (take len (drop begin piece))) ∧
  ∀ X, w_set_order w X ≡ₚ elements X.

(** What a leecher sends besides requests. *)
Definition polite (msg : PeerMessage) : Prop :=
  msg = Interested ∨ msg = HaveNone ∨ (∃ bits, msg = Bitfield bits) ∨ ∃ i, msg = Have i.

Lemma hears_polite w order msg s p n :
  seeds s p n → polite msg →
  ∃ s' p', on_event sha1 c w ∅ [] order b (Message msg) s = (s', Ok tt) ∧ seeds s' p' n ∧
    s_upload s' = s_upload s ∧ s_sent s' = s_sent s ∧
    (peer_interested p' = true ↔ msg = Interested ∨ peer_interested p = true).
Proof.
  intros [H1 H2 H3 H4 H5] Hm.
  assert (∃ p', handle_peer_message sha1 c w b msg (set_blocked ∅ s) =
            (set_peers {[b := p']} (set_blocked ∅ s), Ok tt) ∧
          uploaded_bytes p' = uploaded_bytes p ∧ uploaded_this_round p' = uploaded_this_round p ∧
          (peer_interested p' = true ↔ msg = Interested ∨ peer_interested p = true)) as (p' & E & E1 & E2 & E3).
  { rewrite (from_only_peer _ _ _ _ _ p) by done.
    destruct Hm as [->|[->|[[bits ->]|[i ->]]]]; eexists;
      (split; [by apply (with_only_peer _ _ p)|destruct p; cbn; split; [done|split; [done|]]; naive_solver]). }
  rewrite (on_event_ok _ _ _ _ _ _ _ _ E). swarm_simpl. rewrite bool_decide_eq_true_2 by done.
  exists (set_peers {[b := p']} (set_blocked ∅ s)), p'. split; [done|]. split; [|done].
  split; [done|done|done|done|]. unfold upload_room. by rewrite E1, E2.
Qed.

Lemma add_uploaded_room s p n m :
  0 ≤ n ≤ BLOCK_SIZE → upload_room s p (S m) →
  s_uploaded s + n ≤ u64_max ∧
  ∃ p', add_uploaded n p = Ok p' ∧ ∀ s', s_uploaded s' = s_uploaded s + n → upload_room s' p' m.
Proof.
  intros Hn (H1 & H2 & H3 & H4). unfold BLOCK_SIZE in *. split; [lia|].
  destruct p. unfold add_uploaded, checked_add_panic. cbn in *. rewrite !(proj2 (Z.leb_le _ _)) by lia. cbn [obind].
  eexists. split; [reflexivity|]. intros s' E. unfold upload_room, BLOCK_SIZE. cbn. lia.
Qed.

(** A block that an unchoked peer asks for is sent. *)
Lemma answers_request w order s p i k n :
  seeder_world w → seeds s p (S n) → b ∈ unchoked (s_upload s) → (i < length content)%nat →
  (k < blocks_of (content !!! i))%nat →
  ∃ s' p', on_event sha1 c w ∅ [] order b (Message (request_of content i k)) s = (s', Ok tt) ∧
    seeds s' p' n ∧ s_upload s' = s_upload s ∧ s_sent s' = s_sent s ++ [(b, piece_msg_of content i k)].
Proof.
  intros (Hs & Hr & _) [H1 [conn H2] H3 H4 H5] Hu Hi Hk. destruct (lookup_lt_is_Some_2 _ _ Hi) as [piece Hp].
  rewrite (list_lookup_total_correct _ _ _ Hp) in Hk.
  destruct (block_nonempty piece k Hk) as [Hne Hbl]. pose proof (zlen_nonneg (block_at piece k)).
  destruct (add_uploaded_room s p (zlen (block_at piece k)) n ltac:(lia) H5) as (Hup & p' & Ea & Hroom).
  set (s0 := set_blocked ∅ s). set (msg := piece_msg_of content i k).
  set (s1 := set_peers {[b := p']} (set_uploaded (s_uploaded s + zlen (block_at piece k)) (add_sent b msg s0))).
  assert (handle_peer_message sha1 c w b (request_of content i k) s0 = (s1, Ok tt)) as E.
  { rewrite (from_only_peer _ _ _ _ _ p) by done. unfold request_of, on_request.
    rewrite (list_lookup_total_correct _ _ _ Hp).
    unfold sbind at 1, read at 1, is_unchoked. change (s_upload s0) with (s_upload s). rewrite bool_decide_eq_true_2 by done.
    cbn [negb andb]. unfold sbind at 1, read at 1. rewrite bool_decide_eq_false_2 by (apply not_elem_of_empty).
    unfold sbind at 1, block_to_send, sbind at 1, read at 1. change (s_cache s0) with (s_cache s). rewrite H4.
    cbn [List.find]. unfold sbind at 1, read at 1. rewrite <- offset_nat. unfold zlen at 1. rewrite Nat2Z.id.
    rewrite (Hr _ i piece); [|done|].
    2: { rewrite length_block_bytes. pose proof (block_in_range piece bsz bsz_pos k Hk). lia. }
    unfold sret at 1. assert (take (length (block_at piece k)) (drop (k * bsz) piece) = block_at piece k) as ->.
    { rewrite length_block_bytes. unfold block_bytes. rewrite <- (take_ge (drop (k * bsz) piece) (length piece - k * bsz)) at 2.
      - by rewrite take_take.
      - rewrite length_drop. lia. }
    destruct (block_at piece k) as [|x l] eqn:Eb; [done|]. rewrite <- Eb in *.
    unfold sbind at 1, send_to. change (s_peer_mgr s0) with (s_peer_mgr s). rewrite H2, Hs.
    unfold sbind at 1, read at 1. unfold sbind at 1, lift at 1, checked_add_panic.
    swarm_simpl. rewrite (proj2 (Z.leb_le _ _)) by done. unfold sbind at 1, modify at 1. swarm_simpl.
    rewrite offset_nat. erewrite with_only_peer; [|done|exact Ea]. unfold s1, msg, piece_msg_of.
    rewrite (list_lookup_total_correct _ _ _ Hp), Eb. done. }
  rewrite (on_event_ok _ _ _ _ _ _ _ _ E). unfold s1 at 1. swarm_simpl. rewrite bool_decide_eq_true_2 by done.
  exists s1, p'. split; [done|]. split; [|done]. split; [done|by exists conn|done|done|by apply Hroom].
Qed.

(** The only peer, interested, is chosen whatever the random draw. *)
Lemma only_peer_chosen now timeout max pick p :
  peer_interested p = true → (0 < max)%nat → choose_unchoked true now timeout max pick {[b := p]} [b] = {[b]}.
Proof.
  intros Hi Hm. unfold choose_unchoked.
  assert (peer_stats true {[b := p]} [b] = [(b, uploaded_this_round p)]) as ->.
  { unfold peer_stats. cbn [omap list_omap]. rewrite lookup_singleton_eq. cbn [negb orb]. by rewrite Hi. }
  cbn [map fst length]. set (ok := eligible true now timeout {[b := p]}).
  assert (ok b = true) as Hok by (unfold ok, eligible; by rewrite lookup_singleton_eq).
  assert (∀ X : gset SocketAddr, X ⊆ {[b]} → top_up ok max [b] (filter (λ a, ok a = true) X) = {[b]}) as Htop.
  { intros X HX. cbn [top_up]. rewrite Hok. destruct (decide (b ∈ X)) as [Hb|Hb].
    - assert (X = {[b]}) as -> by set_solver. assert (filter (λ a, ok a = true) {[b]} = ({[b]} : gset SocketAddr)) as ->.
      { apply set_eq. intros a. rewrite elem_of_filter, elem_of_singleton. split; [tauto|]. by intros ->. }
      destruct (_ <=? _)%nat; set_solver.
    - assert (filter (λ a, ok a = true) X = ∅) as -> by set_solver. rewrite size_empty.
      rewrite (proj2 (Nat.leb_gt _ _)) by done. set_solver. }
  apply Htop. destruct max as [|[|max]]; [lia|..]; cbn [Nat.sub Nat.min take drop list_to_set length].
  - destruct ([b] !! pick 1%nat) as [a|] eqn:E; [|set_solver].
    apply list_elem_of_lookup_2 in E. apply list_elem_of_singleton in E as ->. set_solver.
  - rewrite Nat.min_0_r, drop_nil. set_solver.
Qed.

(** A choke round unchokes the leecher once it is interested. *)
Lemma round_unchokes w pick s p n :
  seeder_world w → seeds s p n → peer_interested p = true → unchoked (s_upload s) = ∅ → 0 < max_uploads (s_upload s) →
  ∃ s' p', run_round c w pick [b] s = (s', Ok tt) ∧ seeds s' p' n ∧ b ∈ unchoked (s_upload s') ∧
    s_sent s' = s_sent s ++ [(b, Unchoke)].
Proof.
  intros (Hs & _ & Ho) [H1 [conn H2] H3 H4 H5] Hi Hu Hm.
  unfold run_round, sbind at 1, read at 1, id. rewrite (proj2 (Nat.eqb_neq _ _)) by lia.
  rewrite H3, bool_decide_eq_true_2, H1, only_peer_chosen by (done || lia).
  assert (w_set_order w {[b]} = [b]) as Ho1
    by (apply Permutation_singleton_r; rewrite <- (elements_singleton (C:=gset SocketAddr) b); apply Ho).
  cbn zeta. unfold sbind at 1. rewrite Ho1. cbn [for_each]. unfold sbind at 1, unchoke_peer at 1, sbind at 1, read at 1.
  unfold is_unchoked. rewrite Hu, bool_decide_eq_false_2 by apply not_elem_of_empty.
  unfold sbind at 1, modify at 1, ignore_err, send_to. swarm_simpl. rewrite H2, Hs. cbn [sret].
  unfold sbind at 1, read at 1. swarm_simpl.
  assert (unchoked (unchoke b (s_upload s)) = {[b]}) as Eu.
  { unfold unchoke. rewrite Hu, size_empty, (proj2 (Nat.ltb_lt _ _)) by lia. cbn [unchoked]. set_solver. }
  rewrite Eu, Ho1. cbn [for_each]. unfold sbind at 1 2. rewrite decide_True by set_solver. cbn [sret].
  unfold modify. do 2 eexists. split; [reflexivity|]. swarm_simpl. rewrite Eu. split; [|split; [set_solver|done]].
  split; swarm_simpl; [by rewrite H1, map_fmap_singleton|by exists conn|done|done|].
  unfold upload_room in *. unfold BLOCK_SIZE in *. destruct p. cbn in *. lia.
Qed.
End seeder.
