(* ===== verification/SwarmExchange.v ===== *)
(** A torrent travels from one swarm loop to another: the loop of a peer that has everything and the
    loop of a peer that misses something, joined by the two directions of a connection, each handling
    its messages one at a time, in any interleaving.

    The peers are joined as [register_fresh] leaves them when the connection is stored as well. The
    session itself never brings two peers into that state, see [Registration.registration_outcome];
    what is shown here is what the handlers of the loops are worth once they are joined. *)

From stdpp Require Import base numbers list gmap relations.
From Stdlib Require Import ZArith Lia.
From S2P Require Import Prelude Facts Error Net PeerMessage Piece Metainfo MetainfoFiles Download PeerManager Upload.
From S2P Require Import Step Swarm Pipeline Choke Registration SwarmFacts Uploads SwarmLoop PipelineFacts Robust Exchange.

(** * The system *)

(** The two loops, and the messages that are on their way. *)
Record joined_loops : Type := mk_exchange {
  leecher : SwarmState;
  seeder : SwarmState;
  to_leecher : list PeerMessage;
  to_seeder : list PeerMessage;
}.

(** What was sent to [addr] between two states. *)
Definition messages_to (addr : SocketAddr) (s s' : SwarmState) : list PeerMessage :=
  map snd (filter (λ e, e.1 = addr) (drop (length (s_sent s)) (s_sent s'))).

(** The keys of the peers, in some order. *)
Definition peer_order (s : SwarmState) (order : list SocketAddr) : Prop := order ≡ₚ elements (dom (s_peers s)).

Section exchange.
Context (sha1 : bytes → bytes) (content : list bytes) (cl cs : SwarmConfig) (al as_ : SocketAddr).

(** The oldest message is handled by the loop it was sent to. *)
Definition leecher_hears (w : World) (x x' : joined_loops) : Prop :=
  ∃ order msg rest s', peer_order (leecher x) order ∧ to_leecher x = msg :: rest ∧
    on_event sha1 cl w ∅ [] order as_ (Message msg) (leecher x) = (s', Ok tt) ∧
    x' = {| leecher := s'; seeder := seeder x; to_leecher := rest;
            to_seeder := to_seeder x ++ messages_to as_ (leecher x) s' |}.

Definition seeder_hears (w : World) (x x' : joined_loops) : Prop :=
  ∃ order msg rest s', peer_order (seeder x) order ∧ to_seeder x = msg :: rest ∧
    on_event sha1 cs w ∅ [] order al (Message msg) (seeder x) = (s', Ok tt) ∧
    x' = {| leecher := leecher x; seeder := s'; to_seeder := rest;
            to_leecher := to_leecher x ++ messages_to al (seeder x) s' |}.

(** A choke round of the seeder while the leecher is interested and waits for a slot. *)
Definition waits_for_slot (x : joined_loops) : Prop :=
  (al ∉ unchoked (s_upload (seeder x))) ∧
  ∃ p, s_peers (seeder x) !! al = Some p ∧ peer_interested p = true.

Definition seeder_rounds (w : World) (pick : nat → nat) (x x' : joined_loops) : Prop :=
  ∃ order s', peer_order (seeder x) order ∧ waits_for_slot x ∧
    run_round cs w pick order (seeder x) = (s', Ok tt) ∧
    x' = {| leecher := leecher x; seeder := s'; to_seeder := to_seeder x;
            to_leecher := to_leecher x ++ messages_to al (seeder x) s' |}.

Inductive exchange_step (x x' : joined_loops) : Prop :=
| Ex_leecher w : leecher_world as_ w → leecher_hears w x x' → exchange_step x x'
| Ex_seeder w : seeder_world content al w → seeder_hears w x x' → exchange_step x x'
| Ex_round w pick : seeder_world content al w → seeder_rounds w pick x x' → exchange_step x x'.

(** The state of a loop that has just registered its only peer. *)
Record meets (addr : SocketAddr) (s : SwarmState) : Prop := {
  mt_peer : ∃ ids fast, s_peers s = {[addr := set_new_fields ids fast peer_info_new]};
  mt_conn : is_Some (connections (s_peer_mgr s) !! addr);
  mt_pm : pm_ok (s_piece_mgr s);
  mt_count : Piece.num_pieces (s_piece_mgr s) = length content;
  mt_active : s_active s = ∅;
  mt_cache : s_cache s = [];
  mt_upload : unchoked (s_upload s) = ∅;
}.

(** Each side tells the other what it has. *)
Record exchange_start (x : joined_loops) : Prop := {
  xs_leecher : ∃ ext w l0, mask_bitfield ext = id ∧ leecher_world as_ w ∧ meets as_ l0 ∧
    missing_pieces (s_piece_mgr l0) ≠ [] ∧
    BLOCK_SIZE * Z.of_nat (blocks_missing content (s_piece_mgr l0)) ≤ u64_max ∧
    send_bitfield ext w as_ l0 = (leecher x, Ok tt) ∧ to_seeder x = messages_to as_ l0 (leecher x);
  xs_seeder : ∃ ext w s0, mask_bitfield ext = id ∧ seeder_world content al w ∧ meets al s0 ∧
    missing_pieces (s_piece_mgr s0) = [] ∧ 0 < max_uploads (s_upload s0) ∧
    0 ≤ s_uploaded s0 ∧
    s_uploaded s0 + BLOCK_SIZE * Z.of_nat (blocks_missing content (s_piece_mgr (leecher x))) ≤ u64_max ∧
    send_bitfield ext w al s0 = (seeder x, Ok tt) ∧ to_leecher x = messages_to al s0 (seeder x);
}.

(** * The stages of the exchange

    [n] counts what is left to do, apart from the messages that only inform the seeder. *)

Inductive stage (x : joined_loops) : nat → Prop :=
| Stage_choked p q full : 
    choked_leech content as_ (leecher x) p →
    seeds al (seeder x) q (blocks_missing content (s_piece_mgr (leecher x))) →
    Forall polite (to_seeder x) → Interested ∈ to_seeder x ∨ peer_interested q = true →
    (if full : bool then p_bitfield p = replicate (length content) true ∧ to_leecher x = []
     else ∃ msg, tells_all content msg ∧ to_leecher x = [msg]) →
    unchoked (s_upload (seeder x)) = ∅ → 0 < max_uploads (s_upload (seeder x)) →
    stage x (2 * blocks_missing content (s_piece_mgr (leecher x)) + 3 + (if full then 0 else 1))
| Stage_unchoked p q full :
    choked_leech content as_ (leecher x) p →
    seeds al (seeder x) q (blocks_missing content (s_piece_mgr (leecher x))) →
    Forall polite (to_seeder x) →
    (if full : bool then p_bitfield p = replicate (length content) true ∧ to_leecher x = [Unchoke]
     else ∃ msg, tells_all content msg ∧ to_leecher x = [msg; Unchoke]) →
    al ∈ unchoked (s_upload (seeder x)) →
    stage x (2 * blocks_missing content (s_piece_mgr (leecher x)) + 2 + (if full then 0 else 1))
| Stage_requested i k q hs :
    waiting content as_ (leecher x) i k → seeds al (seeder x) q (left_at content (leecher x) k) →
    Forall polite hs → to_seeder x = hs ++ [request_of content i k] → to_leecher x = [] →
    al ∈ unchoked (s_upload (seeder x)) → stage x (2 * left_at content (leecher x) k + 1)
| Stage_answered i k q :
    waiting content as_ (leecher x) i k → seeds al (seeder x) q (left_at content (leecher x) k - 1) →
    Forall polite (to_seeder x) → to_leecher x = [piece_msg_of content i k] →
    al ∈ unchoked (s_upload (seeder x)) → stage x (2 * left_at content (leecher x) k)
| Stage_done q :
    done content as_ (leecher x) → seeds al (seeder x) q 0 → Forall polite (to_seeder x) → to_leecher x = [] →
    al ∈ unchoked (s_upload (seeder x)) → stage x 0.

(** * What is sent *)

Lemma messages_to_log addr s s' log :
  s_sent s' = s_sent s ++ log → messages_to addr s s' = map snd (filter (λ e, e.1 = addr) log).
Proof. intros E. unfold messages_to. by rewrite E, drop_app_length. Qed.

Lemma messages_to_one addr s s' msg : s_sent s' = s_sent s ++ [(addr, msg)] → messages_to addr s s' = [msg].
Proof. intros E. rewrite (messages_to_log _ _ _ _ E), filter_cons. cbn [fst]. by rewrite decide_True by done. Qed.

Lemma messages_to_none addr s s' : s_sent s' = s_sent s → messages_to addr s s' = [].
Proof. intros E. by rewrite (messages_to_log _ _ _ []) by by rewrite app_nil_r. Qed.

Lemma haves_polite addr log : only_haves log → Forall polite (map snd (filter (λ e, e.1 = addr) log)).
Proof.
  intros Hl. apply Forall_map, Forall_forall. intros e [_ He]%list_elem_of_filter.
  unfold only_haves in Hl. rewrite Forall_forall in Hl. destruct (Hl e He) as [j ->]. do 3 right. by exists j.
Qed.

Lemma messages_to_haves addr s s' log msgs :
  s_sent s' = s_sent s ++ log ++ map (pair addr) msgs → only_haves log →
  ∃ hs, Forall polite hs ∧ messages_to addr s s' = hs ++ msgs.
Proof.
  intros E Hl. rewrite (messages_to_log _ _ _ _ E), filter_app, map_app. eexists. split; [by apply haves_polite|].
  f_equal. clear. induction msgs as [|m msgs IH]; [done|]. cbn [map]. rewrite filter_cons, decide_True by done.
  cbn [map snd]. by rewrite IH.
Qed.

Lemma seeds_weaken s q n m : (m ≤ n)%nat → seeds al s q n → seeds al s q m.
Proof.
  intros Hm [H1 H2 H3 H4 (R1 & R2 & R3 & R4)]. split; [done..|]. unfold upload_room, BLOCK_SIZE in *. lia.
Qed.

Lemma order_of_one s addr p order : s_peers s = {[addr := p]} → peer_order s order → order = [addr].
Proof.
  intros Hp Ho. unfold peer_order in Ho. rewrite Hp, dom_singleton_L, elements_singleton in Ho.
  by apply Permutation_singleton_r.
Qed.

Context (Hl : torrent_of sha1 content cl) (Hs : torrent_of sha1 content cs).

(** * Each move *)

(** A stage that is closer to the end, or the same one with fewer messages that only inform. *)
Definition closer (x : joined_loops) (n : nat) (x' : joined_loops) : Prop :=
  ∃ n', stage x' n' ∧ (n' < n ∨ n' = n ∧ length (to_seeder x') < length (to_seeder x))%nat.

(** The pieces that are there came from the start or from the seeder. *)
Definition grows (s s' : SwarmState) : Prop :=
  s_piece_mgr s' = s_piece_mgr s ∧ s_written s' = s_written s ∨ ∃ i, stores content i s s'.

Abbreviation after_leecher x rest s' :=
  {| leecher := s'; seeder := seeder x; to_leecher := rest;
     to_seeder := to_seeder x ++ messages_to as_ (leecher x) s' |}.

Abbreviation after_seeder x msgs rest s' :=
  {| leecher := leecher x; seeder := s'; to_leecher := to_leecher x ++ msgs; to_seeder := rest |}.

Lemma stage_leecher x n : stage x n → ∃ p, leech content as_ (leecher x) p.
Proof.
  destruct 1 as [p q f []|p q f []|i k q hs [(p & t & Hp & _) _]|i k q [(p & t & Hp & _) _]|q [(p & Hp & _) _ _]];
    by exists p.
Qed.

Lemma stage_seeder x n : stage x n → ∃ q m, seeds al (seeder x) q m.
Proof. by destruct 1 as [p q f _ Hq|p q f _ Hq|i k q hs _ Hq|i k q _ Hq|q _ Hq]; eexists q, _. Qed.

(** The stage after the arrival of a block. *)
Lemma answered_moves w x i k q :
  leecher_world as_ w → waiting content as_ (leecher x) i k →
  seeds al (seeder x) q (left_at content (leecher x) k - 1) → Forall polite (to_seeder x) →
  al ∈ unchoked (s_upload (seeder x)) →
  ∃ s', on_event sha1 cl w ∅ [] [as_] as_ (Message (piece_msg_of content i k)) (leecher x) = (s', Ok tt) ∧
    closer x (2 * left_at content (leecher x) k) (after_leecher x [] s') ∧ grows (leecher x) s'.
Proof.
  intros Hw Hwt Hq Hpol Hu.
  destruct (piece_arrives sha1 content cl as_ Hl w _ i k Hw Hwt) as (s' & E & Hst & log & Hlog & Hnext).
  exists s'. split; [done|]. split; [|by right; exists i].
  destruct Hnext as [(i' & k' & Hwt' & Hleft & Hsent)|(Hdone & Hleft & Hsent)]; rewrite Hleft in *.
  - destruct (messages_to_haves as_ _ _ log [request_of content i' k'] Hsent Hlog) as (hs & Hhs & Em).
    eexists. split; [eapply (Stage_requested _ i' k' q (to_seeder x ++ hs)); cbn [leecher seeder to_leecher to_seeder]|].
    + done.
    + by replace (S (left_at content s' k') - 1)%nat with (left_at content s' k') in Hq by lia.
    + by apply Forall_app.
    + by rewrite Em, app_assoc.
    + done.
    + done.
    + left. cbn [leecher]. lia.
  - destruct (messages_to_haves as_ (leecher x) s' log []) as (hs & Hhs & Em); [by rewrite app_nil_r|done|].
    exists 0%nat. split; [|left; lia]. apply (Stage_done _ q); cbn [leecher seeder to_leecher to_seeder]; try done.
    rewrite Em, app_nil_r. by apply Forall_app.
Qed.

(** What the leecher makes of the oldest message. *)
Lemma leecher_moves w x n msg rest :
  stage x n → leecher_world as_ w → to_leecher x = msg :: rest →
  ∃ s', on_event sha1 cl w ∅ [] [as_] as_ (Message msg) (leecher x) = (s', Ok tt) ∧
    closer x n (after_leecher x rest s') ∧ grows (leecher x) s'.
Proof.
  intros Hst Hw Et. destruct Hst as [p q f Hc Hq Hpol Hint Hto Hu Hm|p q f Hc Hq Hpol Hto Hu
    |i k q hs Hwt Hq Hpol Hts Hto Hu|i k q Hwt Hq Hpol Hto Hu|q Hd Hq Hpol Hto Hu].
  - destruct f; [by destruct Hto as [_ Hto]; rewrite Hto in Et|]. destruct Hto as (t & Ht & Hto).
    rewrite Hto in Et. injection Et as <- <-.
    destruct (told_all sha1 content cl as_ Hl w t _ p Hc Ht) as (s' & p' & E & Hc' & Hb & E1 & E2 & E3).
    exists s'. split; [done|]. split; [|by left]. eexists. split.
    + eapply (Stage_choked _ p' q true); cbn [leecher seeder to_leecher to_seeder];
        rewrite ?(messages_to_none as_ _ _ E3), ?app_nil_r, ?E1; done.
    + left. cbn [leecher]. rewrite E1. lia.
  - destruct f.
    + destruct Hto as [Hb Hto]. rewrite Hto in Et. injection Et as <- <-.
      destruct (unchoked_asks sha1 content cl as_ Hl w _ p Hw Hc Hb) as (s' & i & E & Hwt & E1 & E2 & E3).
      exists s'. split; [done|]. split; [|by left]. eexists. split.
      * eapply (Stage_requested _ i 0 q (to_seeder x)); cbn [leecher seeder to_leecher to_seeder];
          rewrite ?(messages_to_one as_ _ _ _ E3); try done. unfold left_at. by rewrite E1, Nat.sub_0_r.
      * left. cbn [leecher]. unfold left_at. rewrite E1. lia.
    + destruct Hto as (t & Ht & Hto). rewrite Hto in Et. injection Et as <- <-.
      destruct (told_all sha1 content cl as_ Hl w t _ p Hc Ht) as (s' & p' & E & Hc' & Hb & E1 & E2 & E3).
      exists s'. split; [done|]. split; [|by left]. eexists. split.
      * eapply (Stage_unchoked _ p' q true); cbn [leecher seeder to_leecher to_seeder];
          rewrite ?(messages_to_none as_ _ _ E3), ?app_nil_r, ?E1; done.
      * left. cbn [leecher]. rewrite E1. lia.
  - by rewrite Hto in Et.
  - rewrite Hto in Et. injection Et as <- <-. by apply (answered_moves w x i k q).
  - by rewrite Hto in Et.
Qed.

Lemma waiting_bounds l i k :
  waiting content as_ l i k → (i < length content)%nat ∧ (k < blocks_of (content !!! i))%nat ∧ (0 < left_at content l k)%nat.
Proof.
  intros [_ (piece & d & Hi & _ & _ & Hk & Hh)]. pose proof (blocks_missing_piece content _ i piece Hi Hh).
  rewrite (list_lookup_total_correct _ _ _ Hi). apply lookup_lt_Some in Hi. unfold left_at. lia.
Qed.

(** A message that only informs the seeder leaves the stage as it is. *)
Lemma polite_moves w x n msg rest :
  stage x n → to_seeder x = msg :: rest → polite msg →
  ∃ s', on_event sha1 cs w ∅ [] [al] al (Message msg) (seeder x) = (s', Ok tt) ∧
    stage (after_seeder x (messages_to al (seeder x) s') rest s') n.
Proof.
  intros Hst Et Hp. destruct (stage_seeder x n Hst) as (q0 & m0 & Hq0).
  destruct (hears_polite sha1 cs al w [al] msg _ q0 m0 Hq0 Hp) as (s' & q' & E & Hq' & Eu & Es & Hi).
  exists s'. split; [done|]. rewrite (messages_to_none al _ _ Es), app_nil_r. set (x' := mk_exchange _ _ _ _).
  assert (∀ q m, seeds al (seeder x) q m → q = q0 ∧ seeds al s' q' m) as Hsame.
  { intros q m Hq. destruct (hears_polite sha1 cs al w [al] msg _ q m Hq Hp) as (s1 & q1 & E1 & Hq1 & _).
    rewrite E in E1. injection E1 as <-. pose proof (sd_peers _ _ _ _ Hq) as H1. rewrite (sd_peers _ _ _ _ Hq0) in H1.
    apply map_singleton_inj in H1 as [_ <-]. pose proof (sd_peers _ _ _ _ Hq') as H2. rewrite (sd_peers _ _ _ _ Hq1) in H2.
    apply map_singleton_inj in H2 as [_ ->]. done. }
  destruct Hst as [p q f Hc Hq Hpol Hint Hto Hu Hm|p q f Hc Hq Hpol Hto Hu
    |i k q hs Hwt Hq Hpol Hts Hto Hu|i k q Hwt Hq Hpol Hto Hu|q Hd Hq Hpol Hto Hu];
    destruct (Hsame _ _ Hq) as [-> Hq1].
  - apply (Stage_choked x' p q' f); unfold x'; cbn [leecher seeder to_leecher to_seeder]; rewrite ?Eu; try done.
    + rewrite Et in Hpol. by apply Forall_cons in Hpol as [_ ?].
    + rewrite Hi. rewrite Et in Hint. destruct Hint as [[<-|?]%elem_of_cons|?]; tauto.
  - apply (Stage_unchoked x' p q' f); unfold x'; cbn [leecher seeder to_leecher to_seeder]; rewrite ?Eu; try done.
    rewrite Et in Hpol. by apply Forall_cons in Hpol as [_ ?].
  - destruct hs as [|h hs]; rewrite Hts in Et; cbn [app] in Et; injection Et as <- <-.
    { by destruct Hp as [?|[?|[[? ?]|[? ?]]]]. }
    apply (Stage_requested x' i k q' hs); unfold x'; cbn [leecher seeder to_leecher to_seeder]; rewrite ?Eu; try done.
    by apply Forall_cons in Hpol as [_ ?].
  - apply (Stage_answered x' i k q'); unfold x'; cbn [leecher seeder to_leecher to_seeder]; rewrite ?Eu; try done.
    rewrite Et in Hpol. by apply Forall_cons in Hpol as [_ ?].
  - apply (Stage_done x' q'); unfold x'; cbn [leecher seeder to_leecher to_seeder]; rewrite ?Eu; try done.
    rewrite Et in Hpol. by apply Forall_cons in Hpol as [_ ?].
Qed.

(** What the seeder makes of the oldest message. *)
Lemma seeder_moves w x n msg rest :
  stage x n → seeder_world content al w → to_seeder x = msg :: rest →
  ∃ s', on_event sha1 cs w ∅ [] [al] al (Message msg) (seeder x) = (s', Ok tt) ∧
    closer x n (after_seeder x (messages_to al (seeder x) s') rest s').
Proof.
  intros Hst Hw Et.
  assert (polite msg → ∃ s', on_event sha1 cs w ∅ [] [al] al (Message msg) (seeder x) = (s', Ok tt) ∧
    closer x n (after_seeder x (messages_to al (seeder x) s') rest s')) as Hpolite.
  { intros Hp. destruct (polite_moves w x n msg rest Hst Et Hp) as (s' & E & Hst'). exists s'. split; [done|].
    exists n. split; [done|]. right. rewrite Et. cbn. lia. }
  assert (Forall polite (to_seeder x) → polite msg) as Hfirst
    by (rewrite Et; by intros [? _]%Forall_cons).
  destruct Hst as [p q f Hc Hq Hpol Hint Hto Hu Hm|p q f Hc Hq Hpol Hto Hu
    |i k q hs Hwt Hq Hpol Hts Hto Hu|i k q Hwt Hq Hpol Hto Hu|q Hd Hq Hpol Hto Hu]; try by auto.
  destruct hs as [|h hs]; rewrite Hts in Et; cbn [app] in Et; injection Et as <- <-.
  2: { apply Hpolite. by apply Forall_cons in Hpol as [? _]. }
  destruct (waiting_bounds _ i k Hwt) as (Hi & Hk & Hleft).
  replace (left_at content (leecher x) k) with (S (left_at content (leecher x) k - 1)) in Hq by lia.
  destruct (answers_request sha1 content cs al w [al] _ q i k _ Hw Hq Hu Hi Hk) as (s' & q' & E & Hq' & Eu & Es).
  exists s'. split; [done|]. eexists. split.
  - apply (Stage_answered _ i k q'); cbn [leecher seeder to_leecher to_seeder]; rewrite ?Eu; try done.
    by rewrite Hto, (messages_to_one al _ _ _ Es).
  - left. cbn [leecher]. lia.
Qed.

(** A choke round gives the leecher its slot. *)
Lemma round_moves w pick x n :
  stage x n → seeder_world content al w → waits_for_slot x →
  ∃ s', run_round cs w pick [al] (seeder x) = (s', Ok tt) ∧
    closer x n (after_seeder x (messages_to al (seeder x) s') (to_seeder x) s').
Proof.
  intros Hst Hw (Hn & q0 & Hq0 & Hi).
  destruct Hst as [p q f Hc Hq Hpol Hint Hto Hu Hm|p q f Hc Hq Hpol Hto Hu
    |i k q hs Hwt Hq Hpol Hts Hto Hu|i k q Hwt Hq Hpol Hto Hu|q Hd Hq Hpol Hto Hu]; try done.
  rewrite (sd_peers _ _ _ _ Hq), lookup_singleton_eq in Hq0. injection Hq0 as ->.
  destruct (round_unchokes sha1 content cs al Hs w pick _ q0 _ Hw Hq Hi Hu Hm) as (s' & q' & E & Hq' & Hu' & Es).
  exists s'. split; [done|]. eexists. split.
  - apply (Stage_unchoked _ p q' f); cbn [leecher seeder to_leecher to_seeder]; try done.
    rewrite (messages_to_one al _ _ _ Es). destruct f.
    + destruct Hto as [? ->]. done.
    + destruct Hto as (t & ? & ->). by exists t.
  - left. cbn [leecher]. lia.
Qed.

(** * The start *)

Lemma complete_bitfield pm :
  pm_ok pm → Piece.num_pieces pm = length content → missing_pieces pm = [] → bitfield pm = replicate (length content) true.
Proof.
  intros Hpm Hc Hm. destruct (to_config _ _ _ Hs) as ((_ & Hn & _) & _). rewrite (to_count _ _ _ Hs) in Hn.
  apply list_eq. intros j. destruct (Nat.lt_ge_cases j (length content)) as [Hj|Hj].
  - rewrite lookup_replicate_2 by done. unfold pm_ok in Hpm.
    destruct (lookup_lt_is_Some_2 (bitfield pm) j ltac:(lia)) as [[] Hb]; [done|]. exfalso.
    assert (Z.of_nat j ∈ missing_pieces pm) as Hin.
    { unfold missing_pieces. apply indices_where_elem; [lia|]. rewrite Nat2Z.id, Hb. split; [lia|done]. }
    rewrite Hm in Hin. by apply elem_of_nil in Hin.
  - unfold pm_ok in Hpm. rewrite !(proj2 (lookup_ge_None _ _)); [done|rewrite length_replicate; lia|lia].
Qed.

(** A complete bitfield is told as such. *)
Lemma complete_bitfield_sent pm :
  pm_ok pm → Piece.num_pieces pm = length content → missing_pieces pm = [] → (0 < length content)%nat →
  tells_all content (Bitfield (to_bitfield pm)) ∧ any_bit (to_bitfield pm) = true.
Proof.
  intros Hpm Hc Hm Hpos. pose proof (complete_bitfield pm Hpm Hc Hm) as Hb.
  destruct (bitfield_through_wire pm 0 Hpm ltac:(lia)) as (Hp & _). rewrite Hc, Hb in Hp.
  split; [right; by eexists|]. unfold any_bit. destruct (existsb _ _) eqn:E; [done|]. exfalso.
  pose proof (to_bitfield_spec pm 0 Hpm) as [_ H0]. rewrite Hb, lookup_replicate_2 in H0 by done.
  cbn in H0. unfold msb_bit in H0. destruct (to_bitfield pm) as [|y l]; [done|]. cbn [lookup list_lookup] in H0.
  cbn [existsb] in E. apply orb_false_iff in E as [E _]. apply negb_false_iff, Z.eqb_eq in E as ->. cbn in H0. done.
Qed.

Lemma sends_to w addr msg s :
  (∀ log m, w_send w log addr m = None) → is_Some (connections (s_peer_mgr s) !! addr) →
  send_to w addr msg s = (add_sent addr msg s, Ok tt).
Proof. intros Hw [conn Hc]. unfold send_to. by rewrite Hc, Hw. Qed.

(** What a registration tells: pieces, if any, and interest. *)
Lemma leecher_greets ext w addr s :
  (∀ log m, w_send w log addr m = None) → is_Some (connections (s_peer_mgr s) !! addr) →
  missing_pieces (s_piece_mgr s) ≠ [] →
  send_bitfield ext w addr s = (add_sent addr Interested s, Ok tt) ∨
  ∃ msg, polite msg ∧ send_bitfield ext w addr s = (add_sent addr Interested (add_sent addr msg s), Ok tt).
Proof.
  intros Hw Hc Hm. remember (send_bitfield ext w addr s) as r eqn:Er. unfold send_bitfield, sbind at 1, read at 1 in Er.
  rewrite bool_decide_eq_false_2 in Er by done. unfold sbind at 1, read at 1 in Er. cbn zeta in Er. revert Er. set (bits := mask_bitfield ext _).
  assert (∀ msg, polite msg → (do! _ := send_to w addr msg in send_to w addr Interested) s =
    (add_sent addr Interested (add_sent addr msg s), Ok tt)) as Hsend.
  { intros msg Hp. unfold sbind. by rewrite !sends_to by done. }
  assert (polite (Bitfield bits)) as Hb by (do 2 right; left; by exists bits).
  assert (polite HaveNone) as Hn by (right; by left).
  destruct (from_option _ _ _), (any_bit bits); cbn [negb]; intros ->.
  - right. exists (Bitfield bits). split; [done|]. by apply Hsend.
  - right. exists HaveNone. split; [done|]. by apply Hsend.
  - right. exists (Bitfield bits). split; [done|]. by apply Hsend.
  - left. unfold sbind, sret. by rewrite sends_to.
Qed.

Lemma seeder_greets ext w addr s :
  mask_bitfield ext = id → (∀ log m, w_send w log addr m = None) → meets addr s →
  missing_pieces (s_piece_mgr s) = [] → (0 < length content)%nat →
  ∃ msg, tells_all content msg ∧ send_bitfield ext w addr s = (add_sent addr msg s, Ok tt).
Proof.
  intros Hmask Hw [_ Hc Hpm Hcnt _ _ _] Hm Hpos. destruct (complete_bitfield_sent _ Hpm Hcnt Hm Hpos) as [Ht Ha].
  unfold send_bitfield, sbind at 1, read at 1. rewrite Hm, bool_decide_eq_true_2 by done.
  unfold sbind at 1, read at 1. cbn zeta. rewrite Hmask. unfold id in *. rewrite Ha.
  destruct (from_option _ _ _).
  - exists HaveAll. split; [by left|]. unfold sbind. by rewrite sends_to.
  - exists (Bitfield (to_bitfield (s_piece_mgr s))). split; [done|]. unfold sbind. by rewrite sends_to.
Qed.

Lemma start_stage x : exchange_start x → ∃ n, stage x n.
Proof.
  intros [(el & wl & l0 & Ml & [Hwl _] & Hml & Hmiss & Hroom & El & Ts)
          (es & ws & s0 & Ms & (Hws & _ & _) & Hms & Hall & Hmax & Hup0 & Hup & Es & Tl)].
  assert (0 < length content)%nat as Hpos.
  { destruct (length content) eqn:E0; [|lia]. exfalso. apply Hmiss. unfold missing_pieces.
    pose proof (mt_pm _ _ Hml) as H. unfold pm_ok in H. rewrite (mt_count _ _ Hml), E0 in H.
    apply nil_length_inv in H. by rewrite H. }
  destruct (seeder_greets es ws al s0 Ms Hws Hms Hall Hpos) as (t & Ht & Es'). rewrite Es in Es'. injection Es' as Es'.
  assert (∃ msgs, Forall polite msgs ∧ Interested ∈ msgs ∧ to_seeder x = msgs ∧
    s_piece_mgr (leecher x) = s_piece_mgr l0 ∧ s_peers (leecher x) = s_peers l0 ∧
    s_peer_mgr (leecher x) = s_peer_mgr l0 ∧ s_active (leecher x) = ∅) as (msgs & M1 & M2 & M3 & L1 & L2 & L3 & L4).
  { destruct (leecher_greets el wl as_ l0 Hwl (mt_conn _ _ Hml) Hmiss) as [E|(msg & Hp & E)]; rewrite El in E; injection E as E.
    - exists [Interested]. rewrite Ts, E. split; [apply Forall_singleton; by left|]. split; [left|].
      split; [by apply messages_to_one|]. by destruct Hml.
    - exists [msg; Interested]. rewrite Ts, E. split; [apply Forall_cons; split; [done|apply Forall_singleton; by left]|]. split; [right; left|].
      split; [|by destruct Hml]. rewrite (messages_to_log _ _ _ [(as_, msg); (as_, Interested)]).
      + rewrite !filter_cons. cbn [fst]. by rewrite !decide_True by done.
      + swarm_simpl. by rewrite <- app_assoc. }
  rewrite L1 in Hup. destruct Hml as [(ids & fast & Hp) H2 H3 H4 H5 H6 H7], Hms as [(ids' & fast' & Hp') G2 G3 G4 G5 G6 G7].
  eexists. eapply (Stage_choked x (set_new_fields ids fast peer_info_new) (set_new_fields ids' fast' peer_info_new) false).
  - split; rewrite ?L1, ?L4; [|done..|].
    + by split; rewrite ?L1, ?L2, ?L3.
    + split_and!; cbn; lia.
  - rewrite L1, Es'. split; swarm_simpl; [done..|]. split_and!; cbn; lia.
  - by rewrite M3.
  - left. by rewrite M3.
  - exists t. split; [done|]. rewrite Tl, Es'. by apply messages_to_one.
  - by rewrite Es'.
  - by rewrite Es'.
Qed.

(** * Runs *)

Lemma exchange_closer x n x' :
  stage x n → exchange_step x x' → closer x n x' ∧ grows (leecher x) (leecher x').
Proof.
  intros Hst [w Hw (order & msg & rest & s' & Ho & Et & E & ->)|w Hw (order & msg & rest & s' & Ho & Et & E & ->)
             |w pick Hw (order & s' & Ho & Hwait & E & ->)].
  - destruct (stage_leecher x n Hst) as (p & Hp). apply (order_of_one _ _ _ _ (le_peers _ _ _ _ Hp)) in Ho as ->.
    destruct (leecher_moves w x n msg rest Hst Hw Et) as (s1 & E1 & H). rewrite E in E1. by injection E1 as <-.
  - destruct (stage_seeder x n Hst) as (q & m & Hq). apply (order_of_one _ _ _ _ (sd_peers _ _ _ _ Hq)) in Ho as ->.
    destruct (seeder_moves w x n msg rest Hst Hw Et) as (s1 & E1 & H). rewrite E in E1. injection E1 as <-.
    split; [done|by left].
  - destruct (stage_seeder x n Hst) as (q & m & Hq). apply (order_of_one _ _ _ _ (sd_peers _ _ _ _ Hq)) in Ho as ->.
    destruct (round_moves w pick x n Hst Hw Hwait) as (s1 & E1 & H). rewrite E in E1. injection E1 as <-.
    split; [done|by left].
Qed.

(** Every run ends. *)
Lemma exchange_ends x n : stage x n → sn exchange_step x.
Proof.
  revert x. induction (lt_wf n) as [n _ IHn]. intros x.
  remember (length (to_seeder x)) as m eqn:Em. revert x Em. induction (lt_wf m) as [m _ IHm]. intros x -> Hst.
  constructor. intros x' Hx. destruct (exchange_closer x n x' Hst Hx) as [(n' & Hst' & [Hlt|[-> Hlt]]) _].
  - by apply (IHn n').
  - by apply (IHm (length (to_seeder x'))).
Qed.

(** A piece that is there was there at the start or was written with the bytes of the content. *)
Definition from_content (l0 l : SwarmState) : Prop :=
  ∀ i d, content !! i = Some d → has_piece (s_piece_mgr l) (Z.of_nat i) = true →
    has_piece (s_piece_mgr l0) (Z.of_nat i) = true ∨ (Z.of_nat i, d) ∈ s_written l.

Lemma from_content_grows l0 l l' : pm_ok (s_piece_mgr l) → grows l l' → from_content l0 l → from_content l0 l'.
Proof.
  intros Hpm Hg H i d Hi Hh. destruct Hg as [[E1 E2]|(j & [[E1 E2]|[E1 E2]])].
  - rewrite E1 in Hh. rewrite E2. by apply H.
  - rewrite E1 in Hh. rewrite E2. by apply H.
  - rewrite E1, has_piece_set in Hh by (done || lia). rewrite E2. apply orb_true_iff in Hh as [Hh|Hh].
    + apply bool_decide_eq_true in Hh as [Hij _]. assert (j = i) as -> by lia. right. apply elem_of_app. right.
      rewrite (list_lookup_total_correct _ _ _ Hi). by apply list_elem_of_singleton.
    + destruct (H i d Hi Hh) as [?|?]; [by left|]. right. apply elem_of_app. by left.
Qed.

Lemma exchange_run x0 x n0 :
  stage x0 n0 → rtc exchange_step x0 x → (∃ n, stage x n) ∧ from_content (leecher x0) (leecher x).
Proof.
  intros Hst Hr. assert (from_content (leecher x0) (leecher x0)) as Hfc by (intros i d _ Hh; by left).
  revert n0 Hst Hfc. generalize (leecher x0) at 1 3 as l0. intros l0.
  induction Hr as [x|x x1 x' Hx _ IH]; intros n0 Hst Hfc; [split; [by exists n0|done]|].
  destruct (exchange_closer x n0 x1 Hst Hx) as [(n1 & Hst1 & _) Hg]. apply (IH n1 Hst1).
  destruct (stage_leecher x n0 Hst) as (p & Hp). by apply (from_content_grows l0 (leecher x)); [apply Hp|..].
Qed.

Lemma no_piece_missing s p i d :
  leech content as_ s p → missing_pieces (s_piece_mgr s) = [] → content !! i = Some d →
  has_piece (s_piece_mgr s) (Z.of_nat i) = true.
Proof.
  intros Hp Hm Hi. destruct (to_config _ _ _ Hl) as ((_ & Hn & _) & _). rewrite (to_count _ _ _ Hl) in Hn.
  apply lookup_lt_Some in Hi. destruct (has_piece _ _) eqn:Hh; [done|]. exfalso.
  pose proof (le_count _ _ _ _ Hp) as Hc.
  assert (Z.of_nat i ∈ missing_pieces (s_piece_mgr s)) as Hin
    by (apply missing_pieces_spec; [apply Hp|lia|lia|split; [lia|done]]).
  rewrite Hm in Hin. by apply elem_of_nil in Hin.
Qed.

(** The leecher misses nothing, and what it missed at the start it has written as it is. *)
Definition completed (x0 x : joined_loops) : Prop :=
  missing_pieces (s_piece_mgr (leecher x)) = [] ∧
  ∀ i d, content !! i = Some d → has_piece (s_piece_mgr (leecher x0)) (Z.of_nat i) = false →
    (Z.of_nat i, d) ∈ s_written (leecher x).

Definition may_move (wl ws : World) (pick : nat → nat) (x : joined_loops) : Prop :=
  ∃ x', leecher_hears wl x x' ∨ seeder_hears ws x x' ∨ seeder_rounds ws pick x x'.

(** Nothing gets stuck before the leecher has everything. *)
Lemma exchange_progress wl ws pick x n :
  stage x n → leecher_world as_ wl → seeder_world content al ws →
  may_move wl ws pick x ∨ missing_pieces (s_piece_mgr (leecher x)) = [] ∧ to_leecher x = [] ∧ to_seeder x = [].
Proof.
  intros Hst Hwl Hws. destruct (stage_leecher x n Hst) as (p & Hp). destruct (stage_seeder x n Hst) as (q & m & Hq).
  assert (∀ s addr p, s_peers s = {[addr := p]} → peer_order s [addr]) as Hord
    by (intros s addr p1 E; unfold peer_order; by rewrite E, dom_singleton_L, elements_singleton).
  destruct (to_leecher x) as [|msg rest] eqn:El.
  2: { left. destruct (leecher_moves wl x n msg rest Hst Hwl El) as (s' & E & _).
       eexists. left. exists [as_], msg, rest, s'. split; [by eapply Hord, Hp|]. done. }
  destruct (to_seeder x) as [|msg rest] eqn:Es.
  2: { left. destruct (seeder_moves ws x n msg rest Hst Hws Es) as (s' & E & _).
       eexists. right. left. exists [al], msg, rest, s'. split; [by eapply Hord, Hq|]. done. }
  destruct Hst as [p1 q1 f Hc Hq1 Hpol Hint Hto Hu Hm|p1 q1 f Hc Hq1 Hpol Hto Hu
    |i k q1 hs Hwt Hq1 Hpol Hts Hto Hu|i k q1 Hwt Hq1 Hpol Hto Hu|q1 Hd Hq1 Hpol Hto Hu].
  - left. assert (waits_for_slot x) as Hwait.
    { split; [rewrite Hu; apply not_elem_of_empty|]. exists q1. rewrite (sd_peers _ _ _ _ Hq1), lookup_singleton_eq.
      split; [done|]. rewrite Es in Hint. by destruct Hint as [?%elem_of_nil|]. }
    destruct (round_moves ws pick x _ (Stage_choked x p1 q1 f Hc Hq1 Hpol Hint Hto Hu Hm) Hws Hwait) as (s' & E & _).
    eexists. right. right. exists [al], s'. split; [by eapply Hord, Hq1|]. done.
  - exfalso. rewrite El in Hto. destruct f; [by destruct Hto|]. by destruct Hto as (t & _ & ?).
  - exfalso. rewrite Es in Hts. by destruct hs.
  - by rewrite El in Hto.
  - right. split; [apply Hd|done].
Qed.
End exchange.

(** C3: a torrent gets from one loop to the other. Two loops are joined by a connection; one has every
    piece, the other is told so and misses some. Whatever the order in which messages are handled and
    the seeder's choke rounds come (they come while the leecher waits for a slot: [waits_for_slot]), and
    whatever the clocks and random draws are: every run ends; as
    long as the leecher misses a piece one of the two has something to do, and nothing it does panics
    or fails; at the end no message is on its way, the leecher misses nothing, and it has written every
    piece that it missed with the bytes of the content. *)
Theorem torrent_is_exchanged : ∀ sha1 content cl cs al as_ x0,
  torrent_of sha1 content cl → torrent_of sha1 content cs → exchange_start content al as_ x0 →
  sn (exchange_step sha1 content cl cs al as_) x0 ∧
  ∀ x wl ws pick, rtc (exchange_step sha1 content cl cs al as_) x0 x →
    leecher_world as_ wl → seeder_world content al ws →
    may_move sha1 cl cs al as_ wl ws pick x ∨ completed content x0 x ∧ to_leecher x = [] ∧ to_seeder x = [].
Proof.
  intros sha1 content cl cs al as_ x0 Hl Hs Hstart.
  destruct (start_stage sha1 content cs al as_ Hs x0 Hstart) as (n0 & Hn0).
  split; [by apply (exchange_ends sha1 content cl cs al as_ Hl Hs x0 n0)|]. intros x wl ws pick Hr Hwl Hws.
  destruct (exchange_run sha1 content cl cs al as_ Hl Hs x0 x n0 Hn0 Hr) as ((n & Hn) & Hfc).
  destruct (exchange_progress sha1 content cl cs al as_ Hl Hs wl ws pick x n Hn Hwl Hws) as [?|(Hm & Hq)]; [by left|].
  right. split; [|done]. split; [done|]. intros i d Hi Hh0.
  destruct (stage_leecher content al as_ x n Hn) as (p & Hp).
  destruct (Hfc i d Hi) as [?|?]; [by apply (no_piece_missing sha1 content cl as_ Hl _ p i d)|congruence|done].
Qed.

(** A run of a terminating relation that goes on until [P]. *)
Lemma sn_end {A} (R : A → A → Prop) (P : A → Prop) x :
  sn R x → (∀ y, rtc R x y → (∃ z, R y z) ∨ P y) → ∃ y, rtc R x y ∧ P y.
Proof.
  induction 1 as [x _ IH]. intros H. destruct (H x (rtc_refl _ _)) as [[z Hz]|Hp]; [|by exists x].
  destruct (IH z Hz) as (y & Hy & Hp); [intros y Hy; apply H; by eapply rtc_l|].
  exists y. split; [by eapply rtc_l|done].
Qed.

Definition sample_content : list bytes := [[1; 2; 3; 4]; [5; 6; 7; 8]].

Definition sample_seeder_world : World :=
  {| w_now := 100; w_send := λ _ _ _, None; w_write := λ _ _ _, None;
     w_read := λ _ i begin len, inr (take len (drop (Z.to_nat begin) (sample_content !!! Z.to_nat i)));
     w_conn_order := λ m, map fst (map_to_list m); w_set_order := elements |}.

Definition sample_missing : SwarmState := swarm_state (pm_new 2) ∅ (upload_new 4) [] peer_info_new.

Definition sample_complete : SwarmState :=
  swarm_state (set_piece (set_piece (pm_new 2) 0) 1) ∅ (upload_new 4) [] peer_info_new.

Definition sample_exchange : joined_loops :=
  let l := (send_bitfield no_extensions sample_world sample_peer sample_missing).1 in
  let s := (send_bitfield no_extensions sample_seeder_world sample_peer sample_complete).1 in
  {| leecher := l; seeder := s; to_leecher := messages_to sample_peer sample_complete s;
     to_seeder := messages_to sample_peer sample_missing l |}.

Lemma sample_torrent : torrent_of toy_hash sample_content sample_config.
Proof.
  split; [apply sample_config_ok|cbn; lia|done|].
  intros [|[|i]] d; cbn; [intros [= <-]; by vm_compute|intros [= <-]; by vm_compute|done].
Qed.

Lemma sample_worlds : leecher_world sample_peer sample_world ∧ seeder_world sample_content sample_peer sample_seeder_world.
Proof.
  split; [done|]. split; [done|]. split; [|done]. intros log i piece begin len Hi Hlen. cbn.
  by rewrite !Nat2Z.id, (list_lookup_total_correct _ _ _ Hi).
Qed.

Lemma sample_meets pm : pm_ok pm → Piece.num_pieces pm = 2%nat →
  meets sample_content sample_peer (swarm_state pm ∅ (upload_new 4) [] peer_info_new).
Proof. intros H1 H2. split; [by exists ∅, []|by eexists|done..]. Qed.

Lemma sample_exchange_start : exchange_start sample_content sample_peer sample_peer sample_exchange.
Proof.
  destruct sample_worlds as [Hwl Hws]. split.
  - exists no_extensions, sample_world, sample_missing.
    split; [done|]. split; [done|]. split; [by apply sample_meets|]. split; [by vm_compute|].
    split; [by vm_compute|]. split; [by vm_compute|done].
  - exists no_extensions, sample_seeder_world, sample_complete.
    split; [done|]. split; [done|]. split; [by apply sample_meets|]. split; [by vm_compute|].
    split; [by vm_compute|]. split; [by vm_compute|]. split; [by vm_compute|]. split; [by vm_compute|done].
Qed.

Lemma torrent_is_exchanged_witness :
  ∃ x, rtc (exchange_step toy_hash sample_content sample_config sample_config sample_peer sample_peer)
         sample_exchange x ∧
    (0, [1; 2; 3; 4]) ∈ s_written (leecher x) ∧ (1, [5; 6; 7; 8]) ∈ s_written (leecher x).
Proof.
  destruct sample_worlds as [Hwl Hws].
  destruct (torrent_is_exchanged toy_hash sample_content sample_config sample_config sample_peer sample_peer
    sample_exchange sample_torrent sample_torrent sample_exchange_start) as [Hsn Hrun].
  destruct (sn_end _ (completed sample_content sample_exchange) _ Hsn) as (x & Hx & _ & Hw).
  - intros x Hx. destruct (Hrun x sample_world sample_seeder_world (λ _, 0%nat) Hx Hwl Hws)
      as [(x' & [H|[H|H]])|[Hc _]]; [left; exists x'..|by right].
    + by apply (Ex_leecher _ _ _ _ _ _ _ _ sample_world).
    + by apply (Ex_seeder _ _ _ _ _ _ _ _ sample_seeder_world).
    + by apply (Ex_round _ _ _ _ _ _ _ _ sample_seeder_world (λ _, 0%nat)).
  - exists x. split; [exact Hx|]. split; [apply (Hw 0%nat)|apply (Hw 1%nat)]; reflexivity.
Defined.
