(* ===== verification/ChokeFacts.v ===== *)
(** What a choke round decides and what it does. *)

From stdpp Require Import base numbers list gmap sorting.
From Stdlib Require Import ZArith Lia.
From S2P Require Import Prelude Facts Error Net PeerMessage Piece Metainfo Download PeerManager Upload Step Swarm.
From S2P Require Import Choke SwarmFacts Uploads Pipeline PipelineFacts Robust.

(** * The choice *)

Lemma top_up_spec ok max stats set :
  (size set ≤ max)%nat →
  let r := top_up ok max stats set in
  set ⊆ r ∧ (size r ≤ max)%nat ∧ (∀ a, a ∈ r → a ∈ set ∨ a ∈ stats ∧ ok a = true) ∧
  (size r = max ∨ ∀ a, a ∈ stats → ok a = true → a ∈ r).
Proof.
  revert set. induction stats as [|a stats IH]; intros set Hs; cbn [top_up].
  - split; [done|]. split; [done|]. split; [by left|]. right. by intros ? ?%elem_of_nil.
  - destruct (Nat.leb_spec max (size set)).
    { split; [done|]. split; [done|]. split; [by left|]. left. lia. }
    set (set' := if ok a then {[a]} ∪ set else set).
    assert (size set' ≤ max)%nat as Hs'.
    { unfold set'. destruct (ok a); [|done]. rewrite size_union_alt, size_singleton.
      assert (size (set ∖ {[a]}) ≤ size set)%nat; [|lia].
      apply subseteq_size. intros x. rewrite elem_of_difference. by intros []. }
    destruct (IH set' Hs') as (H1 & H2 & H3 & H4). cbn zeta in *.
    assert (set ⊆ set') as Hsub by (unfold set'; destruct (ok a); [apply union_subseteq_r|done]).
    split; [by transitivity set'|]. split; [done|]. split.
    + intros b Hb. destruct (H3 b Hb) as [Hb'|[? ?]]; [|right; split; [by right|done]].
      unfold set' in Hb'. destruct (ok a) eqn:Ha; [|by left].
      apply elem_of_union in Hb' as [->%elem_of_singleton|?]; [right; split; [left|done]|by left].
    + destruct H4 as [?|H4]; [by left|right]. intros b [->|Hb]%elem_of_cons Hok; [|by apply H4].
      apply H1. unfold set'. rewrite Hok. apply elem_of_union_l. by apply elem_of_singleton.
Qed.

Lemma peer_stats_elem seeding peers order a :
  a ∈ map fst (peer_stats seeding peers order) ↔
    a ∈ order ∧ ∃ p, peers !! a = Some p ∧ (seeding = true → peer_interested p = true).
Proof.
  unfold peer_stats. rewrite list_elem_of_fmap. setoid_rewrite stable_sort_perm.
  setoid_rewrite list_elem_of_omap. split.
  - intros ([b r] & -> & c & Hc & Hb). cbn. destruct (peers !! c) as [p|] eqn:Hp; [|done].
    destruct (negb seeding || peer_interested p) eqn:Hi; [|done]. injection Hb as <- _.
    split; [done|]. exists p. split; [done|]. intros ->. done.
  - intros (Ho & p & Hp & Hi). exists (a, rate seeding p). split; [done|]. exists a. split; [done|].
    rewrite Hp. destruct seeding; cbn; [by rewrite Hi|done].
Qed.

(** In a list that is sorted by descending rate, an element has at most as many before it as have its
    rate or a higher one. *)
Lemma sorted_rank (l : list (SocketAddr * Z)) k (e : SocketAddr * Z) :
  StronglySorted (λ a b, (b.2 <=? a.2) = true) l → l !! k = Some e →
  (k < length (filter (λ x : SocketAddr * Z, (e.2 ≤ x.2)%Z) l))%nat.
Proof.
  intros Hs. revert k. induction Hs as [|x l Hs IH Hx]; intros k Hk; [done|].
  rewrite filter_cons. destruct k as [|k]; cbn in Hk.
  - injection Hk as ->. rewrite decide_True by lia. cbn. lia.
  - rewrite Forall_forall in Hx. specialize (Hx e (list_elem_of_lookup_2 _ _ _ Hk)). cbn in Hx.
    rewrite decide_True by lia. cbn. specialize (IH k Hk). lia.
Qed.

Lemma peer_stats_sorted seeding peers order :
  StronglySorted (λ a b, (b.2 <=? a.2) = true) (peer_stats seeding peers order).
Proof.
  unfold peer_stats. apply (stable_sort_sorted (λ a b : SocketAddr * Z, b.2 <=? a.2)).
  - intros x y. lia.
  - intros x y z. lia.
Qed.

Lemma size_list_to_set_le (l : list SocketAddr) : (size (list_to_set l : gset SocketAddr) ≤ length l)%nat.
Proof.
  induction l as [|a l IH]; cbn [list_to_set length]; [by rewrite size_empty|].
  rewrite size_union_alt, size_singleton.
  assert (size ((list_to_set l : gset SocketAddr) ∖ {[a]}) ≤ size (list_to_set l : gset SocketAddr))%nat; [|lia].
  apply subseteq_size. intros x. rewrite elem_of_difference. by intros [].
Qed.

Lemma choose_unchoked_spec seeding now timeout max pick peers order :
  (0 < max)%nat →
  let chosen := choose_unchoked seeding now timeout max pick peers order in
  let ok := eligible seeding now timeout peers in
  (size chosen ≤ max)%nat ∧ (∀ a, a ∈ chosen → a ∈ order ∧ is_Some (peers !! a) ∧ ok a = true) ∧
  (size chosen = max ∨ ∀ a, a ∈ order → is_Some (peers !! a) → ok a = true → a ∈ chosen) ∧
  (∀ a r, (a, r) ∈ peer_stats seeding peers order → ok a = true →
     (length (filter (λ x : SocketAddr * Z, (r ≤ x.2)%Z) (peer_stats seeding peers order)) < max)%nat → a ∈ chosen).
Proof.
  intros Hmax chosen ok. unfold chosen, choose_unchoked. fold ok.
  set (stats := map fst (peer_stats seeding peers order)). set (n := Nat.min (max - 1) (length stats)).
  set (top := list_to_set (take n stats) : gset SocketAddr). set (all := match _ with Some _ => _ | None => _ end).
  assert (size top ≤ n)%nat as Htop.
  { unfold top. etransitivity; [apply size_list_to_set_le|]. rewrite length_take. lia. }
  assert (∀ a, a ∈ top → a ∈ stats) as Htops.
  { intros a. unfold top. rewrite elem_of_list_to_set. intros (i & Hi & _)%elem_of_take. by eapply list_elem_of_lookup_2. }
  assert ((size all ≤ max)%nat ∧ (∀ a, a ∈ all → a ∈ stats) ∧ top ⊆ all) as (Hall & Halls & Hsub).
  { unfold all. destruct (drop n stats !! pick (length (drop n stats))) as [a|] eqn:E; [|split; [lia|done]].
    rewrite size_union_alt, size_singleton. split; [|split; [|apply union_subseteq_r]].
    - assert (size (top ∖ {[a]}) ≤ size top)%nat; [|lia].
      apply subseteq_size. intros x. rewrite elem_of_difference. by intros [].
    - intros b [->%elem_of_singleton|Hb]%elem_of_union; [|by apply Htops].
      rewrite lookup_drop in E. by eapply list_elem_of_lookup_2. }
  set (kept := filter _ all).
  assert (size kept ≤ max)%nat as Hkept.
  { etransitivity; [|exact Hall]. apply subseteq_size. intros a. unfold kept. rewrite elem_of_filter. by intros []. }
  destruct (top_up_spec ok max stats kept Hkept) as (H1 & H2 & H3 & H4). cbn zeta in *.
  set (r := top_up ok max stats kept) in *.
  assert (∀ a, a ∈ r → a ∈ stats ∧ ok a = true) as Hin.
  { intros a Ha. destruct (H3 a Ha) as [Hk|?]; [|done]. unfold kept in Hk. apply elem_of_filter in Hk as [? Hk].
    split; [by apply Halls|done]. }
  split; [done|]. split; [|split].
  - intros a Ha. destruct (Hin a Ha) as [Hs Hok]. apply peer_stats_elem in Hs as (Ho & p & Hp & _).
    split; [done|]. split; [by exists p|done].
  - destruct H4 as [?|H4]; [by left|right]. intros a Ho [p Hp] Hok. apply H4; [|done].
    apply peer_stats_elem. split; [done|]. exists p. split; [done|]. intros ->. unfold ok, eligible in Hok.
    by rewrite Hp in Hok.
  - intros a rt Ha Hok Hrank. apply H1. unfold kept. apply elem_of_filter. split; [done|]. apply Hsub.
    apply list_elem_of_lookup in Ha as [k Hk].
    pose proof (sorted_rank _ k (a, rt) (peer_stats_sorted seeding peers order) Hk) as Hlt. cbn [snd] in Hlt.
    unfold top. apply elem_of_list_to_set, elem_of_take. exists k. split.
    + unfold stats. by rewrite list_lookup_fmap, Hk.
    + apply lookup_lt_Some in Hk. unfold n, stats. rewrite length_map. lia.
Qed.

(** * The loops *)

Definition unchoke_new (u : UploadManager) (a : SocketAddr) : UploadManager :=
  if is_unchoked a u then u else unchoke a u.

Definition choke_others (chosen : gset SocketAddr) (u : UploadManager) (a : SocketAddr) : UploadManager :=
  if decide (a ∈ chosen) then u else choke a u.

Lemma unchoke_new_cases u a :
  unchoke_new u a = u ∧ (a ∈ unchoked u ∨ (Z.to_nat (max_uploads u) ≤ size (unchoked u))%nat) ∨
  unchoke_new u a = {| max_uploads := max_uploads u; unchoked := {[a]} ∪ unchoked u |} ∧
  (size (unchoked u) < Z.to_nat (max_uploads u))%nat.
Proof.
  unfold unchoke_new, is_unchoked, unchoke. destruct (bool_decide_reflect (a ∈ unchoked u)); [by left; split; [|left]|].
  destruct (Nat.ltb_spec (size (unchoked u)) (Z.to_nat (max_uploads u))); [by right|left]. split; [done|by right].
Qed.

(** Unchoking a list: nobody is lost, only members of the list are added, all of them if there are
    slots for all, and none if there is no free slot. *)
Lemma unchoke_all_spec l u :
  upload_ok u →
  let u' := foldl unchoke_new u l in
  upload_ok u' ∧ max_uploads u' = max_uploads u ∧ unchoked u ⊆ unchoked u' ∧
  (∀ a, a ∈ unchoked u' → a ∈ unchoked u ∨ a ∈ l) ∧
  ((size (unchoked u ∪ list_to_set l) ≤ Z.to_nat (max_uploads u))%nat → ∀ a, a ∈ l → a ∈ unchoked u') ∧
  (size (unchoked u) = Z.to_nat (max_uploads u) → u' = u).
Proof.
  revert u. induction l as [|a l IH]; intros u Hu; cbn [foldl].
  - split_and!; try done; [by left|]. by intros _ ? ?%elem_of_nil.
  - destruct (unchoke_new_cases u a) as [[-> Hc]|[E Hc]].
    + destruct (IH u Hu) as (H1 & H2 & H3 & H4 & H5 & H6). cbn zeta in *. split_and!; try done.
      * intros b Hb. destruct (H4 b Hb); [by left|right; by right].
      * cbn [list_to_set]. intros Hs b Hb.
        assert (a ∈ unchoked u) as Ha.
        { destruct Hc as [?|Hc]; [done|]. destruct (decide (a ∈ unchoked u)) as [|Hn]; [done|exfalso].
          assert (size ({[a]} ∪ unchoked u) ≤ size (unchoked u ∪ ({[a]} ∪ list_to_set l)))%nat as Hle.
          { apply subseteq_size. intros x. rewrite !elem_of_union. tauto. }
          rewrite size_union in Hle by (intros x ->%elem_of_singleton; done).
          rewrite size_singleton in Hle. lia. }
        apply elem_of_cons in Hb as [->|Hb]; [by apply H3|]. apply H5; [|done].
        etransitivity; [|exact Hs]. apply subseteq_size. intros x. rewrite !elem_of_union. tauto.
    + assert (upload_ok (unchoke_new u a)) as Hu'.
      { unfold unchoke_new. destruct (is_unchoked a u); [done|by apply unchoke_ok]. }
      rewrite E in *. destruct (IH _ Hu') as (H1 & H2 & H3 & H4 & H5 & H6). cbn zeta in *.
      cbn [max_uploads unchoked] in *. split_and!; try done.
      * etransitivity; [|exact H3]. apply union_subseteq_r.
      * intros b Hb. destruct (H4 b Hb) as [[->%elem_of_singleton|?]%elem_of_union|?];
          [right; left|by left|right; by right].
      * cbn [list_to_set]. intros Hs b [->|Hb]%elem_of_cons; [apply H3, elem_of_union_l; by apply elem_of_singleton|].
        apply H5; [|done]. etransitivity; [|exact Hs]. apply subseteq_size. intros x. rewrite !elem_of_union. tauto.
      * intros Hs. lia.
Qed.

Lemma choke_all_spec chosen l u a :
  a ∈ unchoked (foldl (choke_others chosen) u l) ↔ a ∈ unchoked u ∧ (a ∈ l → a ∈ chosen).
Proof.
  revert u. induction l as [|b l IH]; intros u; cbn [foldl].
  - rewrite elem_of_nil. tauto.
  - rewrite IH, elem_of_cons. unfold choke_others. destruct (decide (b ∈ chosen)).
    + split; [intros [? Hx]|intros [? Hx]]; (split; [done|]); [intros [->|?]; [done|by apply Hx]|auto].
    + rewrite elem_of_choke. split; [intros [[? ?] Hx]|intros [? Hx]].
      * split; [done|]. intros [->|?]; [done|by apply Hx].
      * split; [split; [done|]|auto]. intros ->. apply n, Hx. by left.
Qed.

Section round.
Context (c : SwarmConfig) (w : World).

Lemma unchoke_loop l s u :
  robust_inv c s → s_upload s = u →
  swp (λ _, False) (for_each l (unchoke_peer w))
    (λ _ s', robust_inv c s' ∧ s_upload s' = foldl unchoke_new u l ∧ s_peers s' = s_peers s) s.
Proof.
  intros Hi Hu. set (fin := foldl unchoke_new u l).
  eapply swp_mono; [apply (swp_for_each l (unchoke_peer w)
    (λ l s', robust_inv c s' ∧ foldl unchoke_new (s_upload s') l = fin ∧ s_peers s' = s_peers s))|by intros []].
  - intros a l' s1 (H1 & H2 & H3). cbn [foldl] in H2. unfold unchoke_peer. apply swp_read.
    unfold unchoke_new at 2 in H2. destruct (is_unchoked a (s_upload s1)); [done|].
    apply swp_modify, swp_ignore, swp_send; (split; [by apply (robust_inv_same c s1)|done]).
  - by rewrite Hu.
Qed.

Lemma choke_peer_spec addr s :
  robust_inv c s →
  swp (λ _, False) (choke_peer w addr) (λ _ s', robust_inv c s' ∧ s_upload s' = choke addr (s_upload s)) s.
Proof.
  intros Hi. unfold choke_peer. apply swp_read, swp_bind.
  eapply (swp_mono _ (λ _ s', robust_inv c s' ∧ s_upload s' = s_upload s)).
  { destruct (s_peers s !! addr) as [p|]; [|done].
    eapply swp_mono; [apply (swp_for_each _ _ (λ _ s', robust_inv c s' ∧ s_upload s' = s_upload s))|by intros []].
    - intros sl l s1 [H1 H2]. unfold cancel_request. destruct sl as [[[i b] t]|]; [|done].
      destruct (decide _); [done|]. apply swp_read, swp_ignore, swp_send;
        (split; [by apply (robust_inv_same c s1)|done]).
    - done. }
  intros [] s1 [H1 E1]. apply swp_bind.
  eapply (swp_mono _ (λ _ s', robust_inv c s' ∧ s_upload s' = s_upload s)).
  { destruct (s_peers s !! addr) as [p|]; [|done]. unfold swp, modify. split; [by apply robust_inv_release|done]. }
  intros [] s2 [H2 E2]. apply swp_bind.
  eapply (swp_mono _ (λ _ s', robust_inv c s' ∧ s_upload s' = s_upload s)).
  { unfold swp, with_peer. destruct (s_peers s2 !! addr) as [p|] eqn:Hp; [|done]. split; [|done].
    apply robust_inv_peer; [done| |].
    - apply set_pipeline_ok; [|by apply (proj1 H2) in Hp]. rewrite length_map. by apply (proj1 H2) in Hp as [].
    - destruct p. by apply (proj2 H2 addr) in Hp. }
  intros [] s3 [H3 E3]. apply swp_modify, swp_ignore, swp_send; swarm_simpl; rewrite ?E3;
    (split; [by apply (robust_inv_same c s3)|done]).
Qed.

Lemma choke_loop chosen l s :
  robust_inv c s →
  swp (λ _, False) (for_each l (λ addr, if decide (addr ∈ chosen) then sret tt else choke_peer w addr))
    (λ _ s', robust_inv c s' ∧ s_upload s' = foldl (choke_others chosen) (s_upload s) l) s.
Proof.
  intros Hi. set (fin := foldl (choke_others chosen) (s_upload s) l).
  eapply swp_mono; [apply (swp_for_each l _
    (λ l s', robust_inv c s' ∧ foldl (choke_others chosen) (s_upload s') l = fin))|by intros []]; [|done].
  intros a l' s1 [H1 H2]. cbn [foldl] in H2. unfold choke_others at 2 in H2. destruct (decide (a ∈ chosen)); [done|].
  eapply swp_mono; [by apply choke_peer_spec|]. intros [] s2 [H3 E3]. by rewrite E3.
Qed.
End round.

Lemma reset_round_ok c s : robust_inv c s → robust_inv c (set_peers (reset_round <$> s_peers s) s).
Proof.
  intros [(H1 & H2 & H3 & H4) H5]. split; [split; [done|]; split; [done|]; split; [done|]|]; swarm_simpl;
    intros a p; rewrite lookup_fmap; destruct (s_peers s !! a) as [q|] eqn:Hq; try done; cbn; intros [= <-].
  - specialize (H4 a q Hq). by destruct q.
  - specialize (H5 a q Hq). by destruct q.
Qed.

(** C21: a choke round. The chosen peers fit the upload slots, are eligible (interested when we seed,
    not snubbing us when we download), use all slots unless there are not enough eligible peers, and
    include every eligible peer whose rate is among the best [max - 1]. The round ends normally, keeps
    the bookkeeping in order and the slots within their number, and leaves unchoked only chosen
    peers, among them all that were unchoked before. All chosen peers are unchoked when the old and
    the new ones fit the slots together; but when the slots were all in use, no peer is added. *)
Theorem choke_round : ∀ c w pick order s,
  robust_inv c s → upload_ok (s_upload s) → (0 < max_uploads (s_upload s)) →
  (∀ (X : gset SocketAddr) a, a ∈ w_set_order w X ↔ a ∈ X) →
  let max := Z.to_nat (max_uploads (s_upload s)) in
  let seeding := bool_decide (missing_pieces (s_piece_mgr s) = []) in
  let ok := eligible seeding (w_now w) (snub_timeout c) (s_peers s) in
  let stats := peer_stats seeding (s_peers s) order in
  let chosen := choose_unchoked seeding (w_now w) (snub_timeout c) max pick (s_peers s) order in
  let old := unchoked (s_upload s) in
  (size chosen ≤ max)%nat ∧ (∀ a, a ∈ chosen → is_Some (s_peers s !! a) ∧ ok a = true) ∧
  (size chosen = max ∨ ∀ a, a ∈ order → is_Some (s_peers s !! a) → ok a = true → a ∈ chosen) ∧
  (∀ a r, (a, r) ∈ stats → ok a = true →
     (length (filter (λ x : SocketAddr * Z, (r ≤ x.2)%Z) stats) < max)%nat → a ∈ chosen) ∧
  ∃ s', run_round c w pick order s = (s', Ok tt) ∧ robust_inv c s' ∧ upload_ok (s_upload s') ∧
    let new := unchoked (s_upload s') in
    (∀ a, a ∈ new → a ∈ chosen) ∧ (∀ a, a ∈ old → a ∈ chosen → a ∈ new) ∧
    ((size (old ∪ chosen) ≤ max)%nat → ∀ a, a ∈ new ↔ a ∈ chosen) ∧
    (size old = max → ∀ a, a ∈ new ↔ a ∈ old ∧ a ∈ chosen).
Proof.
  intros c w pick order s Hi Hu Hpos Hord max seeding ok stats chosen old.
  assert (0 < max)%nat as Hmax by lia.
  destruct (choose_unchoked_spec seeding (w_now w) (snub_timeout c) max pick (s_peers s) order Hmax)
    as (C1 & C2 & C3 & C4). fold chosen ok in C1, C2, C3, C4.
  split; [done|]. split; [intros a Ha; by destruct (C2 a Ha) as (_ & ? & ?)|]. split; [done|]. split; [done|].
  set (l1 := w_set_order w chosen).
  destruct (unchoke_all_spec l1 (s_upload s) Hu) as (U1 & U2 & U3 & U4 & U5 & U6). cbn zeta in *.
  set (u1 := foldl unchoke_new (s_upload s) l1) in *. set (l2 := w_set_order w (unchoked u1)).
  assert (swp (λ _, False) (run_round c w pick order) (λ _ s', robust_inv c s' ∧
    s_upload s' = foldl (choke_others chosen) u1 l2) s) as Hrun.
  { unfold run_round. apply swp_read. unfold id. fold max. destruct (Nat.eqb_spec max 0); [lia|].
    fold seeding chosen l1. apply swp_bind.
    eapply swp_mono; [by apply (unchoke_loop c w l1 s (s_upload s))|]. intros [] s1 (H1 & E1 & _).
    apply swp_read, swp_bind. rewrite E1. fold u1 l2.
    eapply swp_mono; [by apply choke_loop|]. intros [] s2 (H2 & E2). rewrite E1 in E2. fold u1 in E2.
    unfold swp, modify. split; [by apply reset_round_ok|done]. }
  unfold swp in Hrun. destruct (run_round c w pick order s) as [s' [[]|e| |]]; try done.
  destruct Hrun as [H1 E]. exists s'. split; [done|]. split; [done|].
  assert (∀ a, a ∈ unchoked (s_upload s') ↔ a ∈ unchoked u1 ∧ a ∈ chosen) as Hnew.
  { intros a. rewrite E, choke_all_spec. unfold l2. rewrite Hord. tauto. }
  assert (∀ a, a ∈ l1 ↔ a ∈ chosen) as Hl1 by (intros a; apply Hord).
  assert (max_uploads (s_upload s') = max_uploads u1) as Emax.
  { rewrite E. clear. generalize u1 as u. induction l2 as [|a l IH]; intros u; cbn [foldl]; [done|].
    rewrite IH. unfold choke_others. by destruct (decide _). }
  split; [|split_and!].
  - unfold upload_ok, num_unchoked in *. rewrite Emax. etransitivity; [|exact U1]. apply subseteq_size.
    intros a. rewrite Hnew. by intros [].
  - intros a. rewrite Hnew. by intros [].
  - intros a Ho Hc. apply Hnew. split; [by apply U3|done].
  - intros Hs a. rewrite Hnew. split; [by intros []|]. intros Ha. split; [|done]. apply U5; [|by apply Hl1].
    etransitivity; [|exact Hs]. apply subseteq_size. intros x. rewrite !elem_of_union, elem_of_list_to_set, Hl1. done.
  - intros Hs a. rewrite Hnew, (U6 Hs). done.
Qed.

(** One slot, held by a peer that gives us nothing; another peer sends us data and is chosen. *)
Definition peer_a : SocketAddr := peer_at 1.
Definition peer_b : SocketAddr := peer_at 2.

Definition sample_round : SwarmState :=
  let s := swarm_state (pm_new 2) ∅ (unchoke peer_a (upload_new 1)) [] peer_info_new in
  let busy := default peer_info_new (outcome_ok (add_downloaded 100 95 peer_info_new)) in
  set_peers {[peer_a := peer_info_new; peer_b := busy]}
    (set_peer_mgr (with_state {[peer_a := []; peer_b := []]} PeerManager.deque_new ∅ (s_peer_mgr s)) s).

Lemma sample_round_ok : robust_inv sample_config sample_round.
Proof.
  assert (∀ p, s_peers sample_round !! peer_a = Some p ∨ s_peers sample_round !! peer_b = Some p →
    peer_ok sample_config p ∧ corrupt_blocks p = 0) as Hp.
  { intros p [H|H]; vm_compute in H; injection H as <-; (split; [split; [done|cbn; lia]|done]). }
  assert (∀ a p, s_peers sample_round !! a = Some p → peer_ok sample_config p ∧ corrupt_blocks p = 0) as Hall.
  { intros a p Ha. apply Hp. change (s_peers sample_round) with
      ({[peer_a := peer_info_new; peer_b := default peer_info_new (outcome_ok (add_downloaded 100 95 peer_info_new))]}
        : gmap SocketAddr PeerInfo) in *.
    destruct (decide (a = peer_a)) as [->|Hne]; [by left|]. destruct (decide (a = peer_b)) as [->|Hne']; [by right|].
    rewrite lookup_insert_ne, lookup_singleton_ne in Ha by done. done. }
  split; [split; [done|]; split; [done|]; split|].
  - intros i d Hd. change (s_active sample_round) with (∅ : gmap Z ActiveDownload) in Hd. by apply lookup_empty_Some in Hd.
  - intros a p Ha. by destruct (Hall a p Ha).
  - intros a p Ha. destruct (Hall a p Ha) as [_ ->]. cbn. lia.
Qed.

(** The chosen peer is told that it is unchoked but gets no slot, and the slot is then taken from the
    other one. *)
Lemma choke_round_witness :
  ∃ s', run_round sample_config sample_world (λ _, 0%nat) [peer_b; peer_a] sample_round = (s', Ok tt) ∧
    (∀ a, ¬ a ∈ unchoked (s_upload s')) ∧ (peer_b, Unchoke) ∈ s_sent s'.
Proof.
  destruct (choke_round sample_config sample_world (λ _, 0%nat) [peer_b; peer_a] sample_round sample_round_ok)
    as (_ & _ & _ & _ & s' & E & _ & _ & _ & _ & _ & H).
  - vm_compute. lia.
  - reflexivity.
  - intros X a. apply elem_of_elements.
  - exists s'. split; [exact E|]. split.
    + intros a Ha. apply (H ltac:(vm_compute; reflexivity)) in Ha as [Ho Hc].
      assert (unchoked (s_upload sample_round) = {[peer_a]}) as Eo by (vm_compute; reflexivity).
      rewrite Eo in Ho. apply elem_of_singleton in Ho as ->. vm_compute in Hc. discriminate Hc.
    + apply (f_equal (λ x, s_sent x.1)) in E. cbn [fst] in E. rewrite <- E.
      apply (bool_decide_unpack _). vm_compute. exact I.
Defined.
