(* ===== verification/Utp.v ===== *)
(** The packets of the micro transport protocol (BEP 29):
    [crates/torrent-core/src/peer/utp/header.rs] and
    [crates/torrent-core/src/peer/utp/selective_ack.rs]. *)

From stdpp Require Import base numbers list gmap.
From Stdlib Require Import ZArith Lia.
From S2P Require Import Prelude Facts Error.

(** * Header *)

Definition UTP_HEADER_SIZE : nat := 20.
Definition UTP_VERSION : Z := 1.

Inductive UtpType : Type := StData | StFin | StState | StReset | StSyn.

#[global] Instance UtpType_eq_dec : EqDecision UtpType.
Proof. solve_decision. Defined.

(** The discriminants of [#[repr(u8)] enum UtpType], for [self.utp_type as u8]. *)
Definition utp_type_code (t : UtpType) : Z :=
  match t with StData => 0 | StFin => 1 | StState => 2 | StReset => 3 | StSyn => 4 end.

Definition from_u8 (value : Z) : option UtpType :=
  if value =? 0 then Some StData
  else if value =? 1 then Some StFin
  else if value =? 2 then Some StState
  else if value =? 3 then Some StReset
  else if value =? 4 then Some StSyn
  else None.

Definition increments_seq_nr (t : UtpType) : bool :=
  match t with StData | StFin | StSyn => true | StState | StReset => false end.

Record UtpHeader : Type := mk_utp_header {
  utp_type : UtpType;
  version : Z;
  extension : Z;
  connection_id : Z;
  timestamp_microseconds : Z;
  timestamp_difference_microseconds : Z;
  wnd_size : Z;
  seq_nr : Z;
  ack_nr : Z;
}.

Definition header_ok (h : UtpHeader) : Prop :=
  in_u8 (version h) ∧ in_u8 (extension h) ∧ in_u16 (connection_id h) ∧
  in_u32 (timestamp_microseconds h) ∧ in_u32 (timestamp_difference_microseconds h) ∧
  in_u32 (wnd_size h) ∧ in_u16 (seq_nr h) ∧ in_u16 (ack_nr h).

#[global] Instance header_ok_dec h : Decision (header_ok h) := _.

Module Header.

Definition new (t : UtpType) (connection_id seq_nr ack_nr : Z) : UtpHeader :=
  {| utp_type := t; version := UTP_VERSION; extension := 0; connection_id := connection_id;
     timestamp_microseconds := 0; timestamp_difference_microseconds := 0; wnd_size := 0;
     seq_nr := seq_nr; ack_nr := ack_nr |}.

(** A [u8] shifted left loses the bits above the eighth. *)
Definition to_bytes (h : UtpHeader) : bytes :=
  [Z.lor (as_u8 (Z.shiftl (utp_type_code (utp_type h)) 4)) (Z.land (version h) 15)]
  ++ [extension h]
  ++ be_bytes 2 (connection_id h)
  ++ be_bytes 4 (timestamp_microseconds h)
  ++ be_bytes 4 (timestamp_difference_microseconds h)
  ++ be_bytes 4 (wnd_size h)
  ++ be_bytes 2 (seq_nr h)
  ++ be_bytes 2 (ack_nr h).

(** The argument is an array of [UTP_HEADER_SIZE] bytes. *)
Definition from_bytes (data : bytes) : result UtpHeader :=
  let! b0 := index data 0 in
  let type_raw := Z.shiftr b0 4 in
  let version := Z.land b0 15 in
  let! _ := guard_err (negb (version =? UTP_VERSION)) PeerUtpInvalidHeader in
  let! t := ok_or (from_u8 type_raw) PeerUtpInvalidHeader in
  let! extension := index data 1 in
  let! connection_id := get_be 2 2 data in
  let! timestamp := get_be 4 4 data in
  let! difference := get_be 4 8 data in
  let! wnd_size := get_be 4 12 data in
  let! seq_nr := get_be 2 16 data in
  let! ack_nr := get_be 2 18 data in
  Ok {| utp_type := t; version := version; extension := extension;
        connection_id := connection_id; timestamp_microseconds := timestamp;
        timestamp_difference_microseconds := difference; wnd_size := wnd_size;
        seq_nr := seq_nr; ack_nr := ack_nr |}.

End Header.

(** * Extensions *)

(** [parse_extensions]: the loop of the code reads two bytes or more per turn, so one turn more
    than there are bytes is enough. *)
Fixpoint parse_extensions_loop (fuel : nat) (ext_type : Z) (offset : nat) (data : bytes)
  : result (list (Z * bytes)) :=
  if ext_type =? 0 then Ok []
  else
    match fuel with
    | O => NoFuel
    | S fuel' =>
        let! _ := guard_err (length data <? offset + 2)%nat PeerUtpInvalidHeader in
        let! next_ext := index data offset in
        let! len := index data (offset + 1) in
        let offset := (offset + 2)%nat in
        let! _ := guard_err (length data <? offset + Z.to_nat len)%nat PeerUtpInvalidHeader in
        let! ext_data := slice data offset (offset + Z.to_nat len) in
        let! rest := parse_extensions_loop fuel' next_ext (offset + Z.to_nat len) data in
        Ok ((ext_type, ext_data) :: rest)
    end.

Definition parse_extensions (first_extension_type : Z) (data : bytes) : result (list (Z * bytes)) :=
  parse_extensions_loop (S (length data)) first_extension_type 0 data.

(** * Selective acknowledgements *)

Definition SELECTIVE_ACK_MIN_BYTES : nat := 4.

Record SelectiveAck : Type := mk_sack { next_extension : Z; bitmask : bytes }.

(** [u8::count_ones]. *)
Definition count_ones (b : Z) : nat :=
  length (filter (λ i, Z.testbit b (Z.of_nat i) = true) (seq 0 8)).

Definition div_ceil (a b : nat) : nat := ((a + b - 1) / b)%nat.

Module Sack.

Definition new (next_extension : Z) : SelectiveAck :=
  {| next_extension := next_extension; bitmask := replicate SELECTIVE_ACK_MIN_BYTES 0 |}.

Definition from_bytes (next_extension : Z) (bitmask : bytes) : result SelectiveAck :=
  let len := length bitmask in
  let! _ := guard_err ((len <? SELECTIVE_ACK_MIN_BYTES)%nat || negb (len mod 4 =? 0)%nat)
              PeerUtpInvalidHeader in
  Ok {| next_extension := next_extension; bitmask := bitmask |}.

Definition ensure_capacity (min_bytes : nat) (mask : bytes) : bytes :=
  if (length mask <? min_bytes)%nat
  then mask ++ replicate (div_ceil min_bytes 4 * 4 - length mask) 0
  else mask.

(** [self.bitmask[byte_idx] |= 1 << bit_in_byte] is in range after [ensure_capacity], see
    [set_bitmask]. *)
Definition set (offset : nat) (s : SelectiveAck) : SelectiveAck :=
  let byte_idx := (offset / 8)%nat in
  let bit_in_byte := (offset mod 8)%nat in
  let mask := ensure_capacity (byte_idx + 1) (bitmask s) in
  {| next_extension := next_extension s;
     bitmask := alter (λ b, Z.lor b (Z.shiftl 1 (Z.of_nat bit_in_byte))) byte_idx mask |}.

Definition clear (offset : nat) (s : SelectiveAck) : SelectiveAck :=
  let byte_idx := (offset / 8)%nat in
  if (byte_idx <? length (bitmask s))%nat then
    let bit_in_byte := (offset mod 8)%nat in
    {| next_extension := next_extension s;
       bitmask := alter (λ b, Z.ldiff b (Z.shiftl 1 (Z.of_nat bit_in_byte))) byte_idx (bitmask s) |}
  else s.

Definition acknowledges (s : SelectiveAck) (offset : nat) : bool :=
  match bitmask s !! (offset / 8)%nat with
  | None => false
  | Some b => Z.land (Z.shiftr b (Z.of_nat (offset mod 8))) 1 =? 1
  end.

Definition count_acked (s : SelectiveAck) : nat := sum_list (map count_ones (bitmask s)).

(** [max_offset - byte_idx * 8] does not underflow: the byte is one of the first
    [max_offset.div_ceil(8)]. *)
Definition count_acked_in_range (s : SelectiveAck) (max_offset : nat) : nat :=
  let max_byte := div_ceil max_offset 8 in
  let limit := Nat.min max_byte (length (bitmask s)) in
  sum_list (imap (λ byte_idx byte,
    let bits_in_this_byte :=
      if (byte_idx =? limit - 1)%nat then Nat.min (max_offset - byte_idx * 8) 8 else 8%nat in
    let mask :=
      if (bits_in_this_byte =? 8)%nat then 255 else Z.shiftl 1 (Z.of_nat bits_in_this_byte) - 1 in
    count_ones (Z.land byte mask)) (take limit (bitmask s))).

Definition to_extension_bytes (s : SelectiveAck) : bytes :=
  [next_extension s; as_u8 (zlen (bitmask s))] ++ bitmask s.

Definition bit_count (s : SelectiveAck) : nat := (length (bitmask s) * 8)%nat.

Definition iter_acked (s : SelectiveAck) : list nat :=
  concat (imap (λ byte_idx byte,
    omap (λ bit, if Z.land (Z.shiftr byte (Z.of_nat bit)) 1 =? 1
                 then Some (byte_idx * 8 + bit)%nat else None) (seq 0 8)) (bitmask s)).

End Sack.

Definition parse_selective_ack (next_extension : Z) (data : bytes) : result SelectiveAck :=
  Sack.from_bytes next_extension data.
