(* ===== verification/UtpFacts.v ===== *)
(** Properties of the micro transport protocol's packets: the header is a bijection, the extension
    list of a packet is read back exactly, and a selective acknowledgement is a set of packets. *)

From stdpp Require Import base numbers list gmap.
From Stdlib Require Import ZArith Lia.
From S2P Require Import Prelude Facts Error Utp.

(** * Header *)

Lemma from_u8_code t : from_u8 (utp_type_code t) = Some t.
Proof. by destruct t. Qed.

Lemma code_from_u8 v t : from_u8 v = Some t → utp_type_code t = v.
Proof. unfold from_u8. intros H. repeat case_match; simplify_eq/=; by apply eq_sym, Z.eqb_eq. Qed.

Lemma from_u8_None v : from_u8 v = None → 0 ≤ v → 4 < v.
Proof. unfold from_u8. intros H Hv. repeat case_bool; try done. lia. Qed.

(** The two halves of the first byte. *)
Lemma first_byte_split b : in_u8 b → b = Z.lor (as_u8 (Z.shiftl (Z.shiftr b 4) 4)) (Z.land (Z.land b 15) 15).
Proof.
  intros Hb. apply in_u8_bits in Hb as [_ Hb]. unfold as_u8. apply Z.bits_inj'. intros n Hn.
  change 15 with (Z.ones 4).
  rewrite Z.lor_spec, !Z.land_spec.
  destruct (Z.lt_ge_cases n 8) as [H8|H8].
  - rewrite Z.mod_pow2_bits_low by lia. destruct (Z.lt_ge_cases n 4) as [H4|H4].
    + rewrite Z.shiftl_spec_low by lia. rewrite Z.ones_spec_low by lia. by rewrite !andb_true_r.
    + rewrite Z.shiftl_spec_high, Z.shiftr_spec by lia. rewrite Z.ones_spec_high by lia.
      replace (n - 4 + 4) with n by lia. by rewrite !andb_false_r, orb_false_r.
  - rewrite Z.mod_pow2_bits_high by lia. rewrite Z.ones_spec_high by lia.
    by rewrite Hb, !andb_false_r by lia.
Qed.

Lemma first_byte_code t :
  let b := Z.lor (as_u8 (Z.shiftl (utp_type_code t) 4)) (Z.land UTP_VERSION 15) in
  Z.shiftr b 4 = utp_type_code t ∧ Z.land b 15 = UTP_VERSION ∧ in_u8 b.
Proof. destruct t; (split; [by vm_compute|split; [by vm_compute|by apply (bool_decide_unpack _)]]). Qed.

Lemma length_header_bytes h : length (Header.to_bytes h) = UTP_HEADER_SIZE.
Proof. unfold Header.to_bytes. by rewrite !length_app, !length_be_bytes. Qed.

(** A field behind a prefix of known length. *)
Lemma get_field {E} w off (p s : bytes) v :
  off = length p → 0 ≤ v < 256 ^ Z.of_nat w → get_be (E:=E) w off (p ++ be_bytes w v ++ s) = Ok v.
Proof. intros ->. apply get_be_app. Qed.

Ltac field_at :=
  rewrite get_field; cbn [obind]; [|by rewrite ?length_app, ?length_be_bytes|done || lia].

Lemma header_from_to h :
  header_ok h → version h = UTP_VERSION → Header.from_bytes (Header.to_bytes h) = Ok h.
Proof.
  intros (_ & He & Hc & Ht & Hd & Hw & Hs & Ha) Hv. unfold in_u16, in_u32 in *.
  unfold Header.from_bytes, Header.to_bytes.
  destruct (first_byte_code (utp_type h)) as (Hb & Hl & _). rewrite Hv.
  cbn [index lookup list_lookup app obind]. rewrite Hb, Hl, from_u8_code.
  cbn [negb Z.eqb Pos.eqb UTP_VERSION guard_err obind ok_or].
  set (b := Z.lor _ _). rewrite <- (app_nil_r (be_bytes 2 (ack_nr h))).
  rewrite (app_assoc [b] [extension h]
    (be_bytes 2 _ ++ _) : b :: extension h :: _ = ([b] ++ [extension h]) ++ _).
  field_at. rewrite (app_assoc (_ ++ _)). field_at. rewrite (app_assoc (_ ++ _)). field_at.
  rewrite (app_assoc (_ ++ _)). field_at. rewrite (app_assoc (_ ++ _)). field_at.
  rewrite (app_assoc (_ ++ _)). field_at. destruct h; cbn in *. by subst.
Qed.

Lemma be_bytes_get {E} w off l v :
  bytes_ok l → get_be (E:=E) w off l = Ok v →
  be_bytes w v = take w (drop off l) ∧ 0 ≤ v < 256 ^ Z.of_nat w.
Proof.
  intros Hl. unfold get_be. case_bool; [|done]. intros [= <-].
  assert (length (take w (drop off l)) = w) as Hw by (rewrite length_take, length_drop; lia).
  assert (bytes_ok (take w (drop off l))) as Hok by by apply bytes_ok_take, bytes_ok_drop.
  pose proof (be_bytes_be_val _ Hok) as H1. pose proof (be_val_bound _ Hok) as H2.
  rewrite Hw in H1, H2. done.
Qed.

Lemma header_to_from d h :
  length d = UTP_HEADER_SIZE → bytes_ok d → Header.from_bytes d = Ok h →
  Header.to_bytes h = d ∧ header_ok h ∧ version h = UTP_VERSION.
Proof.
  intros Hlen Hok H. unfold Header.from_bytes in H. inv_outcome. subst h.
  apply negb_false_iff, Z.eqb_eq in G.
  repeat match goal with E : get_be _ _ _ = Ok _ |- _ =>
    apply be_bytes_get in E; [destruct E as [? ?]|done] end.
  apply index_inv in E, E0. pose proof (Forall_lookup_u8 _ _ _ Hok E) as Hb.
  pose proof (Forall_lookup_u8 _ _ _ Hok E0) as He. apply code_from_u8 in O.
  split; [|split; [|done]].
  2:{ unfold header_ok, in_u16, in_u32. cbn. rewrite G. split; [done|]. split; [done|]. lia. }
  unfold Header.to_bytes. cbn. rewrite O, <- first_byte_split by done.
  repeat match goal with E : be_bytes _ _ = _ |- _ => rewrite E; clear E end.
  do 20 (destruct d as [|? d]; [done|]). destruct d; [|done]. cbn in E, E0. by simplify_eq.
Qed.

Lemma header_total d :
  length d = UTP_HEADER_SIZE →
  (∃ h, Header.from_bytes d = Ok h) ∨ Header.from_bytes d = Err PeerUtpInvalidHeader.
Proof.
  unfold Header.from_bytes, UTP_HEADER_SIZE. intros Hlen.
  destruct (index_lt (E:=ErrorKind) d 0) as (b0 & _ & ->); [lia|]. cbn [obind].
  unfold guard_err. destruct (negb _); cbn [obind]; [by right|].
  destruct (from_u8 _); cbn [obind ok_or]; [|by right].
  destruct (index_lt (E:=ErrorKind) d 1) as (b1 & _ & ->); [lia|]. cbn [obind].
  repeat (rewrite get_be_ok by lia; cbn [obind]). left. by eexists.
Qed.

(** * Extensions *)

(** The wire form of an extension list: every entry carries the type of the next one. *)
Definition first_type (exts : list (Z * bytes)) : Z :=
  match exts with [] => 0 | (t, _) :: _ => t end.

Fixpoint chain_bytes (exts : list (Z * bytes)) : bytes :=
  match exts with
  | [] => []
  | (_, d) :: exts' => [first_type exts'; zlen d] ++ d ++ chain_bytes exts'
  end.

Definition chain_ok (exts : list (Z * bytes)) : Prop :=
  Forall (λ e, e.1 ≠ 0 ∧ zlen e.2 ≤ u8_max) exts.

Lemma parse_loop_chain f exts p payload :
  chain_ok exts → (length exts < f)%nat →
  parse_extensions_loop f (first_type exts) (length p) (p ++ chain_bytes exts ++ payload) = Ok exts.
Proof.
  intros H. revert f p. induction H as [|[t d] exts [Ht Hd] _ IH]; intros f p Hf.
  { by destruct f. }
  destruct f as [|f]; [cbn in Hf; lia|]. cbn [parse_extensions_loop first_type fst snd] in *.
  rewrite (proj2 (Z.eqb_neq _ _)) by done. cbn [chain_bytes].
  rewrite (proj2 (Nat.ltb_ge _ _)) by (rewrite !length_app; cbn [length]; lia).
  cbn [guard_err obind].
  rewrite (index_ok _ _ (first_type exts)) by (by rewrite lookup_app_r, Nat.sub_diag by lia).
  cbn [obind]. rewrite (index_ok _ _ (zlen d))
    by (rewrite lookup_app_r by lia; by replace (length p + 1 - length p)%nat with 1%nat by lia).
  cbn [obind]. assert (Z.to_nat (zlen d) = length d) as -> by apply Nat2Z.id.
  rewrite (proj2 (Nat.ltb_ge _ _)) by (rewrite !length_app; cbn [length]; lia).
  cbn [guard_err obind]. set (hd := [first_type exts; zlen d]).
  replace (p ++ (hd ++ d ++ chain_bytes exts) ++ payload)
    with ((p ++ hd) ++ d ++ chain_bytes exts ++ payload) by (by rewrite !app_assoc).
  rewrite slice_fields by (rewrite length_app; subst hd; cbn [length]; lia). cbn [obind].
  rewrite (app_assoc (p ++ hd)).
  replace (length p + 2 + length d)%nat with (length ((p ++ hd) ++ d))
    by (rewrite !length_app; subst hd; cbn [length]; lia).
  rewrite IH by (cbn in Hf; lia). done.
Qed.

Lemma length_chain exts : (2 * length exts ≤ length (chain_bytes exts))%nat.
Proof.
  induction exts as [|[t d] exts IH]; cbn [chain_bytes length]; [lia|].
  rewrite !length_app. cbn [length]. lia.
Qed.

Lemma parse_loop_inv f t offset data exts :
  bytes_ok data → (offset ≤ length data)%nat → parse_extensions_loop f t offset data = Ok exts →
  first_type exts = t ∧ chain_ok exts ∧ ∃ payload, drop offset data = chain_bytes exts ++ payload.
Proof.
  intros Hok. revert t offset exts. induction f as [|f IH]; intros t offset exts Ho;
    cbn [parse_extensions_loop]; destruct (Z.eqb_spec t 0) as [->|Ht]; intros H;
    [injection H as <-; by split_and!; [|constructor|exists (drop offset data)]|done
    |injection H as <-; by split_and!; [|constructor|exists (drop offset data)]|].
  inv_outcome. subst exts. apply Nat.ltb_ge in G, G0. apply index_inv in E, E0.
  apply slice_inv in E1 as [-> _].
  assert (Hl := Forall_lookup_u8 _ _ _ Hok E0). unfold in_u8 in Hl.
  destruct (IH x (offset + 2 + Z.to_nat x0)%nat x2) as (Hf & Hc & payload & Hp); [lia|done|]. cbn [first_type].
  replace (offset + 2 + Z.to_nat x0 - (offset + 2))%nat with (Z.to_nat x0) by lia.
  assert (zlen (take (Z.to_nat x0) (drop (offset + 2) data)) = x0) as Hz.
  { unfold zlen. rewrite length_take, length_drop, Nat.min_l by lia. lia. }
  split; [done|]. split; [constructor; [cbn; rewrite Hz; lia|done]|].
  exists payload. cbn [chain_bytes]. rewrite Hz, Hf.
  rewrite (drop_S _ _ _ E). replace (S offset) with (offset + 1)%nat by lia.
  rewrite (drop_S _ _ _ E0). replace (S (offset + 1)) with (offset + 2)%nat by lia.
  cbn [app]. do 2 f_equal. rewrite <- app_assoc, <- Hp.
  rewrite <- (take_drop (Z.to_nat x0) (drop (offset + 2) data)) at 1. by rewrite drop_drop.
Qed.

Lemma parse_loop_total f t offset data :
  bytes_ok data → (offset ≤ length data)%nat → (length data - offset < f)%nat →
  (∃ exts, parse_extensions_loop f t offset data = Ok exts) ∨
  parse_extensions_loop f t offset data = Err PeerUtpInvalidHeader.
Proof.
  intros Hok. revert t offset. induction f as [|f IH]; intros t offset Ho Hf; [lia|].
  cbn [parse_extensions_loop]. destruct (t =? 0); [by left; eexists|]. unfold guard_err at 1.
  case_bool; cbn [obind]; [by right|].
  destruct (index_lt (E:=ErrorKind) data offset) as (b & _ & ->); [lia|].
  destruct (index_lt (E:=ErrorKind) data (offset + 1)) as (len & _ & ->); [lia|]. cbn [obind].
  unfold guard_err at 1. case_bool; cbn [obind]; [by right|].
  rewrite slice_ok by lia. cbn [obind].
  destruct (IH b (offset + 2 + Z.to_nat len)%nat) as [[exts ->]| ->]; [lia..| |]; cbn [obind].
  - left. by eexists.
  - by right.
Qed.

(** * Selective acknowledgements *)

(** Bit [i] of a mask, least significant bit of each byte first. *)
Definition bit_at (l : bytes) (i : nat) : bool :=
  from_option (λ b, Z.testbit b (Z.of_nat (i mod 8))) false (l !! (i / 8)%nat).

Lemma acknowledges_bit s i : Sack.acknowledges s i = bit_at (bitmask s) i.
Proof.
  unfold Sack.acknowledges, bit_at. destruct (bitmask s !! _) as [b|]; [|done].
  cbn [from_option]. by rewrite land_shiftr_1 by lia.
Qed.

Lemma bit_at_out l i : (8 * length l ≤ i)%nat → bit_at l i = false.
Proof.
  intros H. unfold bit_at. rewrite lookup_ge_None_2; [done|].
  apply Nat.div_le_lower_bound; lia.
Qed.

Lemma lsb_pos_inj i j : (i / 8 = j / 8)%nat → Z.of_nat (i mod 8) = Z.of_nat (j mod 8) → i = j.
Proof. intros Hd Hm. rewrite (Nat.div_mod_eq i 8), (Nat.div_mod_eq j 8), Hd. lia. Qed.

Lemma bit_at_zeros l n i : bit_at (l ++ replicate n 0) i = bit_at l i.
Proof.
  unfold bit_at. destruct (Nat.lt_ge_cases (i / 8) (length l)); [by rewrite lookup_app_l|].
  rewrite lookup_app_r, (lookup_ge_None_2 l) by lia. cbn [from_option].
  destruct (replicate n 0 !! _) as [b|] eqn:E; [|done].
  apply lookup_replicate in E as [-> _]. apply Z.bits_0.
Qed.

Lemma bit_at_set l i j :
  (i / 8 < length l)%nat →
  bit_at (alter (λ b, Z.lor b (Z.shiftl 1 (Z.of_nat (i mod 8)))) (i / 8)%nat l) j =
    bool_decide (i = j) || bit_at l j.
Proof.
  intros Hi. unfold bit_at. rewrite list_lookup_alter. case_decide as Hd.
  - rewrite <- Hd. destruct (lookup_lt_is_Some_2 l (i / 8) Hi) as [b ->].
    cbn [fmap option_fmap option_map from_option].
    rewrite Z.lor_spec, testbit_shiftl_1 by lia. rewrite orb_comm. f_equal.
    apply bool_decide_ext. split; [by apply lsb_pos_inj|by intros ->].
  - rewrite (bool_decide_eq_false_2 (i = j)); [done|]. by intros ->.
Qed.

Lemma bit_at_clear l i j :
  bit_at (alter (λ b, Z.ldiff b (Z.shiftl 1 (Z.of_nat (i mod 8)))) (i / 8)%nat l) j =
    negb (bool_decide (i = j)) && bit_at l j.
Proof.
  unfold bit_at. rewrite list_lookup_alter. case_decide as Hd.
  - rewrite <- Hd. destruct (l !! (i / 8)%nat) as [b|];
      cbn [fmap option_fmap option_map from_option]; [|by rewrite andb_false_r].
    rewrite Z.ldiff_spec, testbit_shiftl_1 by lia. rewrite andb_comm. do 2 f_equal.
    apply bool_decide_ext. split; [by apply lsb_pos_inj|by intros ->].
  - rewrite (bool_decide_eq_false_2 (i = j)); [done|]. by intros ->.
Qed.

Lemma as_u8_small z : in_u8 z → as_u8 z = z.
Proof. unfold as_u8, in_u8. intros. apply Z.mod_small. lia. Qed.

(** ** The invariant of a mask *)

Definition mask_ok (l : bytes) : Prop :=
  bytes_ok l ∧ (SELECTIVE_ACK_MIN_BYTES ≤ length l)%nat ∧ (length l mod 4 = 0)%nat.

Lemma ensure_capacity_ok n l :
  mask_ok l → mask_ok (Sack.ensure_capacity n l) ∧ (n ≤ length (Sack.ensure_capacity n l))%nat ∧
    (length (Sack.ensure_capacity n l) ≤ Nat.max (length l) (div_ceil n 4 * 4))%nat.
Proof.
  intros (Hb & Hl & Hm). unfold Sack.ensure_capacity, div_ceil.
  destruct (Nat.ltb_spec (length l) n) as [Hlt|Hge]; [|by split_and!; [split_and!| |lia]].
  pose proof (Nat.div_mod_eq (n + 4 - 1) 4) as E. pose proof (Nat.mod_upper_bound (n + 4 - 1) 4) as Hu.
  set (q := ((n + 4 - 1) / 4)%nat) in *.
  assert (length (l ++ replicate (q * 4 - length l) 0) = (q * 4)%nat) as Hlen
    by (rewrite length_app, length_replicate; lia).
  split_and!; [split_and!|by rewrite Hlen; lia|by rewrite Hlen; lia]; rewrite ?Hlen.
  - apply bytes_ok_app. split; [done|]. apply Forall_replicate. by unfold in_u8.
  - lia.
  - by apply Nat.Div0.mod_mul.
Qed.

Lemma set_bitmask i s :
  mask_ok (bitmask s) →
  mask_ok (bitmask (Sack.set i s)) ∧
  (length (bitmask (Sack.set i s)) ≤ Nat.max (length (bitmask s)) (div_ceil (i / 8 + 1) 4 * 4))%nat ∧
  ∀ j, bit_at (bitmask (Sack.set i s)) j = bool_decide (i = j) || bit_at (bitmask s) j.
Proof.
  intros Hok. destruct (ensure_capacity_ok (i / 8 + 1) (bitmask s) Hok) as (Hok' & Hn & Hl).
  unfold Sack.set. cbn [bitmask]. destruct Hok' as (Hb & H4 & Hm). unfold mask_ok.
  rewrite !length_alter. split_and!; [|done..|].
  - apply Forall_alter; [done|]. intros b _ Hu. apply in_u8_lor; [done|].
    apply in_u8_shiftl_1. pose proof (Nat.mod_upper_bound i 8). lia.
  - intros j. rewrite bit_at_set by lia. f_equal. unfold Sack.ensure_capacity.
    case_match; [apply bit_at_zeros|done].
Qed.

Lemma clear_bitmask i s :
  mask_ok (bitmask s) →
  mask_ok (bitmask (Sack.clear i s)) ∧ length (bitmask (Sack.clear i s)) = length (bitmask s) ∧
  ∀ j, bit_at (bitmask (Sack.clear i s)) j = negb (bool_decide (i = j)) && bit_at (bitmask s) j.
Proof.
  intros Hok. unfold Sack.clear. case_bool.
  - cbn [bitmask]. destruct Hok as (Hb & Hl & Hm). unfold mask_ok. rewrite !length_alter.
    split_and!; [|done..|by apply bit_at_clear].
    apply Forall_alter; [done|]. intros b _ Hu. by apply in_u8_ldiff.
  - split_and!; [done..|]. intros j. case_bool_decide as E; [subst|done]. cbn [negb andb].
    unfold bit_at. by rewrite lookup_ge_None_2.
Qed.

(** ** Counting *)

Definition bits_below (l : bytes) (n : nat) : list nat :=
  filter (λ i, bit_at l i = true) (seq 0 n).

Lemma filter_seq_shift (P : nat → Prop) `{∀ x, Decision (P x)} k n :
  filter P (seq k n) = map (Nat.add k) (filter (λ i, P (k + i)%nat) (seq 0 n)).
Proof.
  rewrite <- (Nat.add_0_r k) at 1. rewrite <- fmap_add_seq.
  induction (seq 0 n) as [|x l IH]; [done|]. cbn [fmap list_fmap].
  rewrite !filter_cons. case_decide; cbn [map]; by rewrite IH.
Qed.

Lemma bits_below_snoc l b n :
  (n ≤ 8)%nat →
  bits_below (l ++ [b]) (8 * length l + n) =
    bits_below l (8 * length l) ++
    map (Nat.add (8 * length l)) (filter (λ i, Z.testbit b (Z.of_nat i) = true) (seq 0 n)).
Proof.
  intros Hn. unfold bits_below. rewrite seq_app, filter_app. f_equal.
  - apply filter_ext_in. intros i Hi%elem_of_seq. unfold bit_at. rewrite lookup_app_l; [done|]. apply Nat.Div0.div_lt_upper_bound. lia.
  - rewrite Nat.add_0_l, filter_seq_shift. f_equal.
    apply filter_ext_in. intros i Hi%elem_of_seq. unfold bit_at.
    rewrite (Nat.mul_comm 8), (Nat.add_comm _ i), Nat.div_add, Nat.Div0.mod_add by done.
    rewrite Nat.div_small, Nat.mod_small by lia.
    by rewrite lookup_app_r, Nat.sub_diag by lia.
Qed.

Lemma bits_below_all l n : (8 * length l ≤ n)%nat → bits_below l n = bits_below l (8 * length l).
Proof.
  intros H. unfold bits_below. replace n with (8 * length l + (n - 8 * length l))%nat by lia.
  rewrite seq_app, filter_app, (filter_none _ (seq (0 + _) _)); [by rewrite app_nil_r|].
  intros i Hi%elem_of_seq. by rewrite bit_at_out by lia.
Qed.

Lemma count_full l : sum_list (map count_ones l) = length (bits_below l (8 * length l)).
Proof.
  induction l as [|b l IH] using rev_ind; [done|].
  rewrite map_app, sum_list_with_app, IH. rewrite length_app. cbn [length map sum_list_with id].
  replace (8 * (length l + 1))%nat with (8 * length l + 8)%nat by lia.
  rewrite bits_below_snoc, length_app, length_map by done. unfold count_ones. lia.
Qed.

(** The bits of [Z.land b (2 ^ n - 1)]. *)
Lemma count_low_bits b n :
  (n ≤ 8)%nat →
  count_ones (Z.land b (Z.ones (Z.of_nat n))) =
    length (filter (λ i, Z.testbit b (Z.of_nat i) = true) (seq 0 n)).
Proof.
  intros Hn. unfold count_ones. replace 8%nat with (n + (8 - n))%nat by lia.
  rewrite seq_app, filter_app, length_app.
  rewrite (filter_none _ (seq (0 + n) _)), Nat.add_0_r.
  - f_equal. apply filter_ext_in. intros i Hi%elem_of_seq.
    by rewrite Z.land_spec, Z.ones_spec_low, andb_true_r by lia.
  - intros i Hi%elem_of_seq. by rewrite Z.land_spec, Z.ones_spec_high, andb_false_r by lia.
Qed.

Lemma range_mask n :
  (n ≤ 8)%nat →
  (if (n =? 8)%nat then 255 else Z.shiftl 1 (Z.of_nat n) - 1) = Z.ones (Z.of_nat n).
Proof.
  intros Hn. destruct (Nat.eqb_spec n 8) as [->|_]; [done|]. rewrite Z.shiftl_1_l, Z.ones_equiv. lia.
Qed.

Lemma count_range s m : Sack.count_acked_in_range s m = length (bits_below (bitmask s) m).
Proof.
  unfold Sack.count_acked_in_range, div_ceil. set (l := bitmask s).
  pose proof (Nat.div_mod_eq (m + 8 - 1) 8) as Ed. pose proof (Nat.mod_upper_bound (m + 8 - 1) 8) as Eu.
  set (q := ((m + 8 - 1) / 8)%nat) in *. set (limit := Nat.min q (length l)).
  assert (length (take limit l) = limit) as Hlen by (rewrite length_take; lia).
  assert (bits_below l m = bits_below (take limit l) m) as ->.
  { unfold bits_below. apply filter_ext_in. intros i Hi%elem_of_seq. unfold bit_at.
    destruct (Nat.lt_ge_cases (i / 8) limit); [by rewrite lookup_take_lt|].
    assert (i / 8 < q)%nat by (apply Nat.Div0.div_lt_upper_bound; lia).
    rewrite !lookup_ge_None_2; [done|lia..]. }
  destruct (take limit l) as [|b k _] eqn:E using rev_ind.
  { cbn [length] in Hlen. assert (q = 0 ∨ length l = 0)%nat as [Hq|Hl] by lia; cbn [imap sum_list_with].
    - assert (m = 0)%nat as -> by lia. done.
    - by rewrite bits_below_all by (cbn; lia). }
  rewrite length_app in Hlen. cbn [length] in Hlen.
  rewrite imap_app, sum_list_with_app. cbn [imap sum_list_with id]. rewrite !Nat.add_0_r.
  rewrite (proj2 (Nat.eqb_eq (length k) (limit - 1))) by lia.
  set (n := Nat.min (m - length k * 8) 8).
  rewrite range_mask, count_low_bits by lia.
  rewrite (imap_ext _ (const count_ones)).
  2:{ intros i x Hx%lookup_lt_Some. rewrite (proj2 (Nat.eqb_neq i (limit - 1))) by lia.
      rewrite range_mask by done. by apply (count_low_bits x 8). }
  rewrite imap_const, count_full.
  assert (bits_below (k ++ [b]) m = bits_below (k ++ [b]) (8 * length k + n)) as ->.
  { destruct (Nat.le_ge_cases m (8 * length k + 8)); [f_equal; lia|].
    rewrite bits_below_all by (rewrite length_app; cbn [length]; lia). f_equal.
    rewrite length_app. cbn [length]. lia. }
  rewrite bits_below_snoc by lia. rewrite length_app, length_map. done.
Qed.

Lemma iter_acked_eq s : Sack.iter_acked s = bits_below (bitmask s) (8 * length (bitmask s)).
Proof.
  unfold Sack.iter_acked. induction (bitmask s) as [|b l IH] using rev_ind; [done|].
  rewrite imap_app, concat_app, IH, length_app. cbn [imap concat length].
  replace (8 * (length l + 1))%nat with (8 * length l + 8)%nat by lia.
  rewrite bits_below_snoc, app_nil_r by done. f_equal. rewrite Nat.add_0_r.
  clear IH. induction (seq 0 8) as [|i k IHk]; [done|]. cbn [omap list_omap]. rewrite filter_cons.
  rewrite land_shiftr_1 by lia. destruct (Z.testbit b (Z.of_nat i)).
  - rewrite decide_True by done. cbn [map]. f_equal; [lia|done].
  - by rewrite decide_False.
Qed.

(** ** The set of acknowledged packets *)

Inductive sack_op : Type := SetBit (offset : nat) | ClearBit (offset : nat).

Definition op_offset (o : sack_op) : nat :=
  match o with SetBit i | ClearBit i => i end.

Definition sack_step (s : SelectiveAck) (o : sack_op) : SelectiveAck :=
  match o with SetBit i => Sack.set i s | ClearBit i => Sack.clear i s end.

Definition sack_run (s : SelectiveAck) (ops : list sack_op) : SelectiveAck := foldl sack_step s ops.

Definition acked_step (acked : gset nat) (o : sack_op) : gset nat :=
  match o with SetBit i => {[i]} ∪ acked | ClearBit i => acked ∖ {[i]} end.

Definition acked_after (acked : gset nat) (ops : list sack_op) : gset nat := foldl acked_step acked ops.

Definition represents (s : SelectiveAck) (acked : gset nat) : Prop :=
  mask_ok (bitmask s) ∧ ∀ i, bit_at (bitmask s) i = bool_decide (i ∈ acked).

Lemma new_represents next : represents (Sack.new next) ∅.
Proof.
  split; [by apply (bool_decide_unpack _); vm_compute|]. intros i.
  rewrite bool_decide_eq_false_2 by set_solver. by apply (bit_at_zeros []).
Qed.

Lemma sack_step_represents s acked o : represents s acked → represents (sack_step s o) (acked_step acked o).
Proof.
  intros [Hok Hs]. destruct o as [i|i]; cbn [sack_step acked_step].
  - destruct (set_bitmask i s Hok) as (Hok' & _ & Hb). split; [done|]. intros j.
    rewrite Hb, Hs, <- bool_decide_or. apply bool_decide_ext.
    rewrite elem_of_union, elem_of_singleton. split; intros [?|?]; auto.
  - destruct (clear_bitmask i s Hok) as (Hok' & _ & Hb). split; [done|]. intros j.
    rewrite Hb, Hs, <- bool_decide_not, <- bool_decide_and. apply bool_decide_ext.
    rewrite elem_of_difference, elem_of_singleton. split; intros [??]; auto.
Qed.

Lemma sack_run_represents s acked ops :
  represents s acked → represents (sack_run s ops) (acked_after acked ops).
Proof.
  revert s acked. induction ops as [|o ops IH]; intros s acked H; [done|].
  by apply IH, sack_step_represents.
Qed.

Lemma next_run_ops s ops : next_extension (sack_run s ops) = next_extension s.
Proof.
  revert s. induction ops as [|o ops IH]; intros s; [done|]. cbn [sack_run foldl].
  etransitivity; [apply IH|]. destruct o as [i|i]; cbn [sack_step]; [done|]. unfold Sack.clear. by case_match.
Qed.

(** Offsets below 2016 fit 252 bytes. *)
Lemma sack_run_short s ops :
  mask_ok (bitmask s) → (length (bitmask s) ≤ 252)%nat → Forall (λ o, op_offset o < 2016)%nat ops →
  (length (bitmask (sack_run s ops)) ≤ 252)%nat.
Proof.
  intros Hok Hl H. revert s Hok Hl. induction H as [|o ops Ho _ IH]; intros s Hok Hl; [done|].
  cbn [sack_run foldl]. destruct o as [i|i]; cbn [sack_step op_offset] in *.
  - destruct (set_bitmask i s Hok) as (Hok' & Hl' & _). apply IH; [done|].
    assert (i / 8 < 252)%nat by (apply Nat.Div0.div_lt_upper_bound; lia).
    assert (div_ceil (i / 8 + 1) 4 ≤ 63)%nat; [|lia].
    unfold div_ceil. apply Nat.lt_succ_r, Nat.Div0.div_lt_upper_bound. lia.
  - destruct (clear_bitmask i s Hok) as (Hok' & Hl' & _). apply IH; [done|]. by rewrite Hl'.
Qed.

Lemma bits_below_set l (acked below : gset nat) n :
  (∀ i, bit_at l i = bool_decide (i ∈ acked)) → (∀ i, i ∈ below ↔ i ∈ acked ∧ i < n)%nat →
  length (bits_below l n) = size below.
Proof.
  intros Hb Hn. rewrite <- (size_list_to_set (C:=gset nat)) by apply NoDup_filter, NoDup_seq.
  f_equal. apply set_eq. intros i. rewrite elem_of_list_to_set, Hn. unfold bits_below.
  rewrite list_elem_of_filter, Hb, bool_decide_eq_true, elem_of_seq. intuition lia.
Qed.

(** * Properties *)

(** A packet header of the protocol's version serializes to 20 bytes that parse back to it, and
    20 bytes that parse are the serialization of what they parsed to, so that every other input is
    an error and never a panic; the extension list behind a header is read back exactly as it was
    written, whatever payload follows it, and every list that is read was written that way. *)
Theorem utp_packet_codec :
  (∀ h, header_ok h → version h = UTP_VERSION →
     length (Header.to_bytes h) = UTP_HEADER_SIZE ∧ Header.from_bytes (Header.to_bytes h) = Ok h) ∧
  (∀ d, length d = UTP_HEADER_SIZE → bytes_ok d →
     (∃ h, Header.from_bytes d = Ok h ∧ d = Header.to_bytes h ∧ header_ok h ∧ version h = UTP_VERSION) ∨
     Header.from_bytes d = Err PeerUtpInvalidHeader) ∧
  (∀ exts payload, chain_ok exts →
     parse_extensions (first_type exts) (chain_bytes exts ++ payload) = Ok exts) ∧
  (∀ t d, bytes_ok d →
     (∃ exts payload, parse_extensions t d = Ok exts ∧ first_type exts = t ∧ chain_ok exts ∧
        d = chain_bytes exts ++ payload) ∨
     parse_extensions t d = Err PeerUtpInvalidHeader).
Proof.
  split_and!.
  - intros h Hok Hv. split; [apply length_header_bytes|by apply header_from_to].
  - intros d Hlen Hok. destruct (header_total d Hlen) as [[h E]|E]; [left|by right].
    destruct (header_to_from d h Hlen Hok E) as (<- & Hh & Hv). by exists h.
  - intros exts payload Hc. apply (parse_loop_chain _ exts []); [done|].
    rewrite length_app. pose proof (length_chain exts). lia.
  - intros t d Hok. destruct (parse_loop_total (S (length d)) t 0 d) as [[exts E]|E]; [done|lia..| |by right].
    left. destruct (parse_loop_inv _ _ _ _ _ Hok (Nat.le_0_l _) E) as (Ht & Hc & payload & Hp).
    by exists exts, payload.
Qed.

(** A selective acknowledgement is a set of packets: after any sequence of [set] and [clear]
    calls, [acknowledges], [count_acked], [count_acked_in_range] and [iter_acked] answer as the set
    of the offsets that were set and not cleared again does, and an acknowledgement of offsets below
    2016 survives its extension bytes. *)
Theorem selective_ack_is_a_set : ∀ ops : list sack_op,
  let s := sack_run (Sack.new 0) ops in
  let acked := acked_after ∅ ops in
  (∀ i, Sack.acknowledges s i = bool_decide (i ∈ acked)) ∧
  Sack.count_acked s = size acked ∧
  (∀ n, Sack.count_acked_in_range s n = size (filter (λ i, i < n)%nat acked)) ∧
  (∀ i, i ∈ Sack.iter_acked s ↔ i ∈ acked) ∧ NoDup (Sack.iter_acked s) ∧
  (Forall (λ o, op_offset o < 2016)%nat ops → ∀ payload,
     parse_extensions 1 (Sack.to_extension_bytes s ++ payload) = Ok [(1, bitmask s)] ∧
     parse_selective_ack 0 (bitmask s) = Ok s).
Proof.
  intros ops s acked.
  destruct (sack_run_represents _ _ ops (new_represents 0)) as [Hok Hb]. fold s acked in Hok, Hb.
  assert (∀ i, i ∈ acked → i < 8 * length (bitmask s))%nat as Hlt.
  { intros i Hi. apply Nat.nle_gt. intros Hle. specialize (Hb i).
    by rewrite bit_at_out, bool_decide_eq_true_2 in Hb. }
  split_and!.
  - intros i. by rewrite acknowledges_bit.
  - unfold Sack.count_acked. rewrite count_full. apply (bits_below_set _ acked); [done|].
    intros i. split; [|tauto]. intros Hi. by split; [|apply Hlt].
  - intros n. rewrite count_range. apply (bits_below_set _ acked); [done|].
    intros i. rewrite elem_of_filter. tauto.
  - intros i. rewrite iter_acked_eq. unfold bits_below.
    rewrite list_elem_of_filter, Hb, bool_decide_eq_true, elem_of_seq.
    split; [tauto|]. intros Hi. specialize (Hlt i Hi). split; [done|lia].
  - rewrite iter_acked_eq. apply NoDup_filter, NoDup_seq.
  - intros Hops payload. destruct Hok as (Hu & H4 & Hm).
    assert (length (bitmask s) ≤ 252)%nat as Hl.
    { apply sack_run_short; [apply (new_represents 0)|by apply (bool_decide_unpack _)|done]. }
    assert (next_extension s = 0) as Hn by apply next_run_ops. split.
    + unfold Sack.to_extension_bytes. rewrite Hn, (as_u8_small (zlen _)) by (unfold in_u8, zlen; lia).
      etransitivity; [|apply (parse_loop_chain (S (length ([0; zlen (bitmask s)] ++ bitmask s ++ payload)))
                                [(1, bitmask s)] [] payload)].
      * cbn [first_type chain_bytes app length]. by rewrite app_nil_r.
      * constructor; [|done]. split; [done|]. cbn. unfold zlen. lia.
      * cbn [length app]. lia.
    + unfold parse_selective_ack, Sack.from_bytes. rewrite (proj2 (Nat.ltb_ge _ _)), Hm by done.
      cbn. f_equal. destruct s as [next mask]. cbn in *. by rewrite Hn.
Qed.

Definition sample_sack_ops : list sack_op := [SetBit 0; SetBit 3; SetBit 40; ClearBit 3].

Lemma selective_ack_sample :
  Sack.iter_acked (sack_run (Sack.new 0) sample_sack_ops) = [0; 40]%nat ∧
  length (bitmask (sack_run (Sack.new 0) sample_sack_ops)) = 8%nat.
Proof. by vm_compute. Qed.

(** The length field is a byte: 256 bytes of bitmask are announced as none. *)
Lemma long_selective_ack_is_truncated :
  parse_extensions 1 (Sack.to_extension_bytes (Sack.set 2047 (Sack.new 0))) = Ok [(1, [])].
Proof. by vm_compute. Qed.
