(* ===== verification/Congestion.v ===== *)
(** Delay-based congestion control (BEP 29):
    [crates/torrent-core/src/peer/utp/congestion.rs].

    An [Instant] is a number of nanoseconds; a [Duration] is the difference of two. *)

From stdpp Require Import base numbers list sorting.
From Stdlib Require Import ZArith Lia SpecFloat.
From S2P Require Import Prelude Facts F64 Error.

Definition CCONTROL_TARGET : Z := 100000.
Definition MAX_CWND_INCREASE_BYTES_PER_RTT : Z := 3000.
Definition BASE_DELAY_WINDOW : Z := 120 * 1000000000.
Definition MIN_TIMEOUT_MS : Z := 500.
Definition INITIAL_TIMEOUT_MS : Z := 1000.
Definition MIN_PACKET_SIZE : Z := 150.

Record DelaySample : Type := mk_sample { sample_time : Z; sample_value : Z }.

Record UtpCongestionControl : Type := mk_cc {
  max_window : Z;
  cur_window : Z;
  base_delay : Z;
  our_delay : Z;
  reply_micro : Z;
  rtt : Z;
  rtt_var : Z;
  timeout : Z;
  packet_size : Z;
  consecutive_timeouts : Z;
  delay_history : list DelaySample;
}.

Definition cc_new : UtpCongestionControl :=
  {| max_window := 0; cur_window := 0; base_delay := u32_max; our_delay := 0; reply_micro := 0;
     rtt := 0; rtt_var := 0; timeout := INITIAL_TIMEOUT_MS; packet_size := MIN_PACKET_SIZE;
     consecutive_timeouts := 0; delay_history := [] |}.

(** ** Setters *)

Definition set_window (w : Z) (cc : UtpCongestionControl) : UtpCongestionControl :=
  mk_cc w (cur_window cc) (base_delay cc) (our_delay cc) (reply_micro cc) (rtt cc) (rtt_var cc)
    (timeout cc) (packet_size cc) (consecutive_timeouts cc) (delay_history cc).

Definition set_cur_window (bytes : Z) (cc : UtpCongestionControl) : UtpCongestionControl :=
  mk_cc (max_window cc) bytes (base_delay cc) (our_delay cc) (reply_micro cc) (rtt cc) (rtt_var cc)
    (timeout cc) (packet_size cc) (consecutive_timeouts cc) (delay_history cc).

Definition set_delays (base ours reply : Z) (history : list DelaySample) (cc : UtpCongestionControl)
  : UtpCongestionControl :=
  mk_cc (max_window cc) (cur_window cc) base ours reply (rtt cc) (rtt_var cc)
    (timeout cc) (packet_size cc) (consecutive_timeouts cc) history.

Definition set_rtt (r v t n : Z) (cc : UtpCongestionControl) : UtpCongestionControl :=
  mk_cc (max_window cc) (cur_window cc) (base_delay cc) (our_delay cc) (reply_micro cc) r v
    t (packet_size cc) n (delay_history cc).

Definition set_packet_size (p : Z) (cc : UtpCongestionControl) : UtpCongestionControl :=
  mk_cc (max_window cc) (cur_window cc) (base_delay cc) (our_delay cc) (reply_micro cc) (rtt cc)
    (rtt_var cc) (timeout cc) p (consecutive_timeouts cc) (delay_history cc).

(** ** Operations *)

Definition add_in_flight (bytes : Z) (cc : UtpCongestionControl) : UtpCongestionControl :=
  set_cur_window (saturating_add u32_max (cur_window cc) bytes) cc.

Definition remove_in_flight (bytes : Z) (cc : UtpCongestionControl) : UtpCongestionControl :=
  set_cur_window (saturating_sub (cur_window cc) bytes) cc.

(** The loop that drops the samples before the cutoff from the front. *)
Fixpoint prune (cutoff : Z) (history : list DelaySample) : list DelaySample :=
  match history with
  | front :: history' => if sample_time front <? cutoff then prune cutoff history' else history
  | [] => []
  end.

(** [iter().map(|s| s.value).min()]. *)
Definition min_value (history : list DelaySample) : option Z :=
  match history with
  | [] => None
  | s :: history' => Some (foldl (λ m x, Z.min m (sample_value x)) (sample_value s) history')
  end.

(** [now - BASE_DELAY_WINDOW] is on integers; on an [Instant] it may panic where the clock starts near zero. *)
Definition update_delay (reply now : Z) (cc : UtpCongestionControl) : UtpCongestionControl :=
  let history := prune (now - BASE_DELAY_WINDOW) (delay_history cc ++ [mk_sample now reply]) in
  let base := match min_value history with Some m => m | None => u32_max end in
  set_delays base (saturating_sub reply base) reply history cc.

(** Integer division of [i64] rounds towards zero. *)
Definition update_rtt (packet_rtt_ms : Z) (cc : UtpCongestionControl) : result UtpCongestionControl :=
  let '(new_rtt, new_var) :=
    if rtt cc =? 0 then (packet_rtt_ms, packet_rtt_ms / 2)
    else
      let delta_abs := Z.abs (rtt cc - packet_rtt_ms) in
      (as_u32 (Z.max 0 (rtt cc + Z.quot (packet_rtt_ms - rtt cc) 8)),
       as_u32 (Z.max 0 (rtt_var cc + Z.quot (delta_abs - rtt_var cc) 4))) in
  let! var4 := (if new_var * 4 <=? u32_max then Ok (new_var * 4) else Panic) in
  let! sum := checked_add_panic u32_max new_rtt var4 in
  Ok (set_rtt new_rtt new_var (Z.max sum MIN_TIMEOUT_MS) 0 cc).

Definition update_packet_size (cc : UtpCongestionControl) : UtpCongestionControl :=
  let scale :=
    f64_clamp (f64_div (f64_of_Z (max_window cc)) (f64_of_Z 1500)) f64_one (f64_of_Z 10) in
  set_packet_size (f64_as 0 u32_max (f64_mul (f64_of_Z MIN_PACKET_SIZE) scale)) cc.

(** The change of the window in bytes, [scaled_gain as i64]. *)
Definition scaled_gain (cc : UtpCongestionControl) : Z :=
  let off_target := CCONTROL_TARGET - our_delay cc in
  let delay_factor := f64_div (f64_of_Z off_target) (f64_of_Z CCONTROL_TARGET) in
  let window_factor :=
    f64_min (f64_div (f64_of_Z (cur_window cc)) (f64_of_Z (Z.max (max_window cc) 1))) f64_one in
  f64_as i64_min i64_max
    (f64_mul (f64_mul (f64_of_Z MAX_CWND_INCREASE_BYTES_PER_RTT) delay_factor) window_factor).

Definition adjust_window (cc : UtpCongestionControl) : UtpCongestionControl :=
  if base_delay cc =? u32_max then set_window (Z.max (max_window cc) (MIN_PACKET_SIZE * 2)) cc
  else
    let sum := Z.max i64_min (Z.min i64_max (max_window cc + scaled_gain cc)) in
    let new_window := as_u32 (Z.max 0 sum) in
    update_packet_size (set_window (Z.max new_window MIN_PACKET_SIZE) cc).

Definition on_packet_loss (cc : UtpCongestionControl) : UtpCongestionControl :=
  update_packet_size (set_window (Z.max (max_window cc / 2) MIN_PACKET_SIZE) cc).

Definition on_timeout (cc : UtpCongestionControl) : result UtpCongestionControl :=
  let cc := set_window MIN_PACKET_SIZE (set_packet_size MIN_PACKET_SIZE cc) in
  let! n := checked_add_panic u32_max (consecutive_timeouts cc) 1 in
  Ok (set_rtt (rtt cc) (rtt_var cc) (Z.min u32_max (timeout cc * 2 ^ Z.min n 6)) n cc).

Definition reset_timeouts (cc : UtpCongestionControl) : UtpCongestionControl :=
  set_rtt (rtt cc) (rtt_var cc) (timeout cc) 0 cc.

Definition can_send (size remote_wnd_size : Z) (cc : UtpCongestionControl) : bool :=
  let effective_window := Z.min (max_window cc) remote_wnd_size in
  saturating_add u32_max (cur_window cc) size <=? effective_window.

(** * Properties of the congestion control: the bounds of the window, the packet size and the timers,
    how the window reacts to delay and loss, and the sliding minimum of the delays. *)

(** * The gain and the packet size *)

Lemma window_factor_in cur d :
  in_u32 cur → 1 ≤ d ≤ u32_max →
  f64_in false 0 1 (f64_min (f64_div (f64_of_Z cur) (f64_of_Z d)) f64_one).
Proof.
  unfold in_u32. intros Hc Hd. apply (f64_min_one _ (Z.max 1 cur)); [lia|].
  assert (f64_in false cur cur (f64_of_Z cur)) as H1 by (apply f64_in_of_Z; lia).
  assert (f64_in false d d (f64_of_Z d)) as H2 by (apply f64_in_of_Z; lia).
  destruct (Z.le_ge_cases cur d); [left|right].
  - eapply (f64_in_div _ _ false false); [exact H1|exact H2|lia..].
  - eapply (f64_in_div _ _ false false); [exact H1|exact H2|lia..|nia].
Qed.

Lemma scaled_gain_sign cc :
  in_u32 (cur_window cc) → in_u32 (max_window cc) → in_u32 (our_delay cc) →
  (our_delay cc ≤ CCONTROL_TARGET → 0 ≤ scaled_gain cc ≤ MAX_CWND_INCREASE_BYTES_PER_RTT) ∧
  (CCONTROL_TARGET ≤ our_delay cc → - 2 ^ 53 ≤ scaled_gain cc ≤ 0).
Proof.
  intros Hc Hm Ho. unfold scaled_gain.
  pose proof (window_factor_in (cur_window cc) (Z.max (max_window cc) 1) Hc) as Hw.
  unfold in_u32, CCONTROL_TARGET, MAX_CWND_INCREASE_BYTES_PER_RTT in *.
  specialize (Hw ltac:(lia)). set (wf := f64_min _ _) in *.
  assert (f64_in false 100000 100000 (f64_of_Z 100000)) as Ht by (by apply f64_in_of_Z).
  assert (f64_in false 3000 3000 (f64_of_Z 3000)) as Hi by (by apply f64_in_of_Z).
  assert (∀ s hi f, f64_in s 0 hi f → 0 ≤ hi ≤ 42950 →
            f64_in s 0 (3000 * hi) (f64_mul (f64_mul (f64_of_Z 3000) f) wf)) as Hmul.
  { intros s hi f Hf Hhi.
    pose proof (f64_in_mul _ _ _ _ _ _ _ _ Hi Hf ltac:(lia) ltac:(lia) ltac:(lia)) as H1.
    pose proof (f64_in_mul _ _ _ _ _ _ _ _ H1 Hw ltac:(lia) ltac:(lia) ltac:(lia)) as H2.
    rewrite xorb_false_r in H2. cbn [xorb] in H2. by rewrite Z.mul_1_r in H2. }
  split; intros Hle.
  - assert (f64_in false 0 1 (f64_div (f64_of_Z (100000 - our_delay cc)) (f64_of_Z 100000))) as Hd.
    { eapply (f64_in_div _ _ false false); [apply f64_in_of_Z; lia|exact Ht|lia..]. }
    pose proof (f64_as_in _ _ _ i64_min i64_max (Hmul _ _ _ Hd ltac:(lia))). lia.
  - destruct (Z.eq_dec (our_delay cc) 100000) as [->|Hne].
    + assert (f64_in false 0 0 (f64_div (f64_of_Z (100000 - 100000)) (f64_of_Z 100000))) as Hd.
      { eapply (f64_in_div _ _ false false); [by apply f64_in_of_Z|exact Ht|lia..]. }
      pose proof (f64_as_in _ _ _ i64_min i64_max (Hmul _ _ _ Hd ltac:(lia))). lia.
    + assert (f64_in true 0 42950 (f64_div (f64_of_Z (100000 - our_delay cc)) (f64_of_Z 100000))) as Hd.
      { replace (100000 - our_delay cc) with (- (our_delay cc - 100000)) by lia.
        eapply (f64_in_div _ _ true false); [apply f64_in_of_neg; lia|exact Ht|lia..]. }
      pose proof (f64_as_neg _ _ i64_min i64_max (Hmul _ _ _ Hd ltac:(lia))). lia.
Qed.

(** Below 1500 bytes the packet size is checked for every window. *)
Lemma small_window_packets w :
  0 ≤ w < 1500 → packet_size (update_packet_size (set_window w cc_new)) = MIN_PACKET_SIZE.
Proof.
  intros Hw. assert (forallb (λ n, packet_size (update_packet_size (set_window (Z.of_nat n) cc_new)) =? MIN_PACKET_SIZE)
    (seq 0 1500) = true) as H by (by vm_compute).
  rewrite forallb_forall in H. specialize (H (Z.to_nat w)). rewrite Z2Nat.id in H by lia.
  apply Z.eqb_eq, H, in_seq. lia.
Qed.

Lemma packet_size_bounds cc :
  in_u32 (max_window cc) →
  MIN_PACKET_SIZE ≤ packet_size (update_packet_size cc) ≤ 10 * MIN_PACKET_SIZE.
Proof.
  unfold in_u32. intros Hw. destruct (Z.lt_ge_cases (max_window cc) 1500) as [Hlt|Hge].
  { pose proof (small_window_packets (max_window cc) ltac:(lia)) as H.
    unfold update_packet_size in *. cbn [packet_size set_packet_size max_window set_window] in *.
    rewrite H. unfold MIN_PACKET_SIZE. lia. }
  unfold update_packet_size, MIN_PACKET_SIZE. cbn [packet_size set_packet_size].
  assert (f64_in false 1500 1500 (f64_of_Z 1500)) as Hd by (by apply f64_in_of_Z).
  assert (f64_in false (max_window cc) (max_window cc) (f64_of_Z (max_window cc))) as Hm by (apply f64_in_of_Z; lia).
  set (x := f64_div _ _).
  assert (f64_in false 1 10 (f64_clamp x f64_one (f64_of_Z 10))) as Hc.
  { apply (f64_clamp_ten _ (max_window cc)); [lia|]. unfold x.
    destruct (Z.le_gt_cases (max_window cc) 15000); [left|right];
      (eapply (f64_in_div _ _ false false); [exact Hm|exact Hd|lia..]). }
  assert (f64_in false 150 150 (f64_of_Z 150)) as H150 by (by apply f64_in_of_Z).
  pose proof (f64_in_mul _ _ _ _ _ _ _ _ H150 Hc ltac:(lia) ltac:(lia) ltac:(lia)) as H.
  pose proof (f64_as_in _ _ _ 0 u32_max H). lia.
Qed.

(** * The invariant *)

(** The calls the connection makes. *)
Inductive cc_op : Type :=
| InFlight (bytes : Z) | Landed (bytes : Z) | SetInFlight (bytes : Z)
| DelaySeen (reply now : Z) | RttSeen (ms : Z)
| Adjust | Loss | TimedOut | ResetTimeouts.

Definition cc_step (cc : UtpCongestionControl) (o : cc_op) : result UtpCongestionControl :=
  match o with
  | InFlight n => Ok (add_in_flight n cc)
  | Landed n => Ok (remove_in_flight n cc)
  | SetInFlight n => Ok (set_cur_window n cc)
  | DelaySeen reply now => Ok (update_delay reply now cc)
  | RttSeen ms => update_rtt ms cc
  | Adjust => Ok (adjust_window cc)
  | Loss => Ok (on_packet_loss cc)
  | TimedOut => on_timeout cc
  | ResetTimeouts => Ok (reset_timeouts cc)
  end.

Fixpoint cc_run (cc : UtpCongestionControl) (ops : list cc_op) : result UtpCongestionControl :=
  match ops with
  | [] => Ok cc
  | o :: ops' => let! cc' := cc_step cc o in cc_run cc' ops'
  end.

(** Six days: a longer round trip overflows the sum of the timeout. *)
Definition MAX_RTT_MS : Z := 536870912.

Definition op_ok (o : cc_op) : Prop :=
  match o with
  | InFlight n | Landed n | SetInFlight n => in_u32 n
  | DelaySeen reply _ => in_u32 reply
  | RttSeen ms => 0 ≤ ms ≤ MAX_RTT_MS
  | _ => True
  end.

Definition cc_ok (n : Z) (cc : UtpCongestionControl) : Prop :=
  in_u32 (max_window cc) ∧ (max_window cc = 0 ∨ MIN_PACKET_SIZE ≤ max_window cc) ∧
  in_u32 (cur_window cc) ∧ in_u32 (our_delay cc) ∧
  MIN_PACKET_SIZE ≤ packet_size cc ≤ 10 * MIN_PACKET_SIZE ∧
  MIN_TIMEOUT_MS ≤ timeout cc ≤ u32_max ∧
  0 ≤ rtt cc ≤ MAX_RTT_MS ∧ 0 ≤ rtt_var cc ≤ MAX_RTT_MS ∧
  0 ≤ consecutive_timeouts cc ≤ n ∧
  Forall (λ s, in_u32 (sample_value s)) (delay_history cc).

Lemma cc_new_ok : cc_ok 0 cc_new.
Proof. unfold cc_ok, cc_new, in_u32, MIN_PACKET_SIZE, MIN_TIMEOUT_MS, MAX_RTT_MS, INITIAL_TIMEOUT_MS. cbn. split_and!; lia || (by left) || constructor. Qed.

Lemma prune_suffix cutoff h : ∃ k, prune cutoff h = drop k h.
Proof.
  induction h as [|s h [k IH]]; [by exists 0%nat|]. cbn [prune]. case_match; [by exists (S k)|by exists 0%nat].
Qed.

Lemma foldl_min_bounds l m :
  0 ≤ m → Forall (λ s, in_u32 (sample_value s)) l →
  0 ≤ foldl (λ m x, Z.min m (sample_value x)) m l ≤ m.
Proof.
  intros Hm Hl. revert m Hm. induction Hl as [|s l Hs _ IH]; intros m Hm; [cbn; lia|]. cbn [foldl].
  unfold in_u32 in Hs. specialize (IH (Z.min m (sample_value s)) ltac:(lia)). lia.
Qed.

Lemma quot_part a d : 0 < d → 0 ≤ a → 0 ≤ Z.quot a d ≤ a.
Proof.
  intros Hd Ha. rewrite Z.quot_div_nonneg by lia.
  split; [by apply Z.div_pos|]. apply Z.div_le_upper_bound; nia.
Qed.

Lemma quot_between a b d : 0 < d → Z.min a b ≤ a + Z.quot (b - a) d ≤ Z.max a b.
Proof.
  intros Hd. destruct (Z.le_ge_cases a b).
  - pose proof (quot_part (b - a) d Hd). lia.
  - replace (b - a) with (- (a - b)) by lia. rewrite Z.quot_opp_l by lia.
    pose proof (quot_part (a - b) d Hd). lia.
Qed.

Lemma as_u32_range z : in_u32 (as_u32 z).
Proof. unfold as_u32, in_u32. pose proof (Z.mod_pos_bound z (2 ^ 32)). lia. Qed.

Lemma update_rtt_ok n ms cc :
  cc_ok n cc → 0 ≤ ms ≤ MAX_RTT_MS → ∃ cc', update_rtt ms cc = Ok cc' ∧ cc_ok n cc'.
Proof.
  unfold cc_ok, in_u32, MAX_RTT_MS. intros (Hmw & Hmin & Hcw & Hod & Hps & Hto & Hr & Hv & Hc & Hh) Hms.
  unfold update_rtt. set (p := if rtt cc =? 0 then _ else _).
  assert (0 ≤ p.1 ≤ 536870912 ∧ 0 ≤ p.2 ≤ 536870912) as [H1 H2].
  { subst p. destruct (rtt cc =? 0); cbn [fst snd]; [split; [lia|]; split; [apply Z.div_pos|apply Z.div_le_upper_bound]; lia|].
    pose proof (quot_between (rtt cc) ms 8 ltac:(lia)).
    pose proof (quot_between (rtt_var cc) (Z.abs (rtt cc - ms)) 4 ltac:(lia)).
    rewrite !as_u32_id by lia. lia. }
  destruct p as [r v]. cbn [fst snd] in *. rewrite (proj2 (Z.leb_le _ _)) by lia. cbn [obind].
  unfold checked_add_panic. rewrite (proj2 (Z.leb_le _ _)) by lia. cbn [obind]. eexists. split; [done|].
  unfold MIN_TIMEOUT_MS in *. cbn. split_and!; try done; lia.
Qed.

Lemma set_window_ok n w cc :
  cc_ok n cc → in_u32 w → w = 0 ∨ MIN_PACKET_SIZE ≤ w → cc_ok n (set_window w cc).
Proof. intros (_ & _ & H) Hw Hmin. split; [exact Hw|]. split; [exact Hmin|exact H]. Qed.

Lemma set_packet_size_ok n p cc :
  cc_ok n cc → MIN_PACKET_SIZE ≤ p ≤ 10 * MIN_PACKET_SIZE → cc_ok n (set_packet_size p cc).
Proof. intros (H1 & H2 & H3 & H4 & _ & H) Hp. do 4 (split; [assumption|]). split; [exact Hp|exact H]. Qed.

Lemma update_packet_size_ok n cc : cc_ok n cc → cc_ok n (update_packet_size cc).
Proof. intros H. apply set_packet_size_ok; [done|]. apply (packet_size_bounds cc). apply H. Qed.

Lemma adjust_window_ok n cc : cc_ok n cc → cc_ok n (adjust_window cc).
Proof.
  intros H. pose proof H as (Hmw & _). unfold in_u32 in Hmw. unfold adjust_window, MIN_PACKET_SIZE. case_match.
  - apply set_window_ok; [done|unfold in_u32; lia|right; unfold MIN_PACKET_SIZE; lia].
  - pose proof (as_u32_range (Z.max 0 (Z.max i64_min (Z.min i64_max (max_window cc + scaled_gain cc))))) as Hr.
    unfold in_u32 in Hr. apply update_packet_size_ok, set_window_ok; [done|unfold in_u32; lia|].
    right. unfold MIN_PACKET_SIZE. lia.
Qed.

Lemma update_delay_ok n reply now cc : cc_ok n cc → in_u32 reply → cc_ok n (update_delay reply now cc).
Proof.
  unfold cc_ok, in_u32. intros (Hmw & Hmin & Hcw & Hod & Hps & Hto & Hr & Hv & Hc & Hh) Hreply.
  unfold update_delay. set (h := prune _ _).
  assert (Forall (λ s, in_u32 (sample_value s)) h) as Hh'.
  { subst h. destruct (prune_suffix (now - BASE_DELAY_WINDOW) (delay_history cc ++ [mk_sample now reply])) as [k ->].
    apply Forall_drop, Forall_app. by split; [|constructor; [|constructor]]. }
  split_and!; cbn; try done; try lia.
  all: unfold saturating_sub, min_value; destruct Hh' as [|s h' Hs Hh']; [lia|].
  all: unfold in_u32 in Hs; pose proof (foldl_min_bounds h' (sample_value s) ltac:(lia) Hh'); lia.
Qed.

Lemma cc_step_ok n cc o :
  cc_ok n cc → op_ok o → 0 ≤ n < u32_max → ∃ cc', cc_step cc o = Ok cc' ∧ cc_ok (n + 1) cc'.
Proof.
  intros Hok Ho Hn.
  assert (cc_ok (n + 1) cc) as Hok1 by (unfold cc_ok in *; intuition lia).
  destruct o as [b|b|b|reply now|ms| | | |]; cbn [cc_step op_ok] in *.
  1-3: eexists; split; [done|]; unfold cc_ok, in_u32, add_in_flight, remove_in_flight, saturating_add, saturating_sub in *;
    cbn; intuition lia.
  - eexists. split; [done|]. by apply update_delay_ok.
  - by apply update_rtt_ok.
  - eexists. split; [done|]. by apply adjust_window_ok.
  - eexists. split; [done|]. apply update_packet_size_ok, set_window_ok; [done|..];
      destruct Hok as (Hmw & _); unfold in_u32 in *; [|right; unfold MIN_PACKET_SIZE; lia].
    assert (0 ≤ max_window cc / 2 ≤ max_window cc) by (split; [apply Z.div_pos|apply Z.div_le_upper_bound]; lia).
    unfold MIN_PACKET_SIZE. lia.
  - unfold on_timeout, checked_add_panic. destruct Hok as (Hmw & Hmin & Hcw & Hod & Hps & Hto & Hr & Hv & Hc & Hh).
    cbn [consecutive_timeouts set_window set_packet_size]. rewrite (proj2 (Z.leb_le _ _)) by lia. cbn [obind].
    eexists. split; [done|]. unfold MIN_TIMEOUT_MS, MIN_PACKET_SIZE in *.
    assert (1 ≤ 2 ^ Z.min (consecutive_timeouts cc + 1) 6).
    { change 1 with (2 ^ 0) at 1. apply Z.pow_le_mono_r; lia. }
    unfold cc_ok, in_u32, MIN_TIMEOUT_MS, MIN_PACKET_SIZE in *. cbn. split_and!; try done; try lia; nia.
  - eexists. split; [done|]. unfold cc_ok in *. cbn. intuition lia.
Qed.

Lemma cc_run_ok n cc ops :
  cc_ok n cc → Forall op_ok ops → 0 ≤ n → n + zlen ops ≤ u32_max →
  ∃ cc', cc_run cc ops = Ok cc' ∧ cc_ok (n + zlen ops) cc'.
Proof.
  intros Hok H. revert n cc Hok. induction H as [|o ops Ho _ IH]; intros n cc Hok Hn Hlen.
  { exists cc. split; [done|]. unfold zlen. cbn. by rewrite Z.add_0_r. }
  unfold zlen in *. cbn [length] in *. destruct (cc_step_ok n cc o Hok Ho ltac:(lia)) as (cc1 & E & H1).
  cbn [cc_run]. rewrite E. cbn [obind]. destruct (IH (n + 1) cc1 H1 ltac:(lia) ltac:(lia)) as (cc2 & E2 & H2).
  exists cc2. split; [done|]. by replace (n + Z.of_nat (S (length ops))) with (n + 1 + Z.of_nat (length ops)) by lia.
Qed.

(** * The sliding minimum *)

Definition earlier (a b : DelaySample) : Prop := sample_time a ≤ sample_time b.

Lemma prune_sorted c h :
  StronglySorted earlier h → prune c h = filter (λ s, c ≤ sample_time s) h.
Proof.
  induction 1 as [|s h _ IH Hall]; [done|]. cbn [prune]. rewrite filter_cons.
  destruct (Z.ltb_spec (sample_time s) c).
  - by rewrite decide_False by lia.
  - rewrite decide_True by lia. f_equal. symmetry. apply filter_every. intros x Hx.
    rewrite Forall_forall in Hall. specialize (Hall x Hx). unfold earlier in Hall. lia.
Qed.

Lemma sorted_filter (P : DelaySample → Prop) `{∀ x, Decision (P x)} l :
  StronglySorted earlier l → StronglySorted earlier (filter P l).
Proof.
  induction 1 as [|s l _ IH Hall]; [constructor|]. rewrite filter_cons. case_decide; [|done].
  constructor; [done|]. apply Forall_forall. intros x [_ Hx]%list_elem_of_filter. revert x Hx. by apply Forall_forall.
Qed.

Definition see (cc : UtpCongestionControl) (s : DelaySample) : UtpCongestionControl :=
  update_delay (sample_value s) (sample_time s) cc.

Definition recent (now : Z) (seen : list DelaySample) : list DelaySample :=
  filter (λ x, now - BASE_DELAY_WINDOW ≤ sample_time x) seen.

Lemma sorted_snoc l s :
  StronglySorted earlier (l ++ [s]) ↔ StronglySorted earlier l ∧ Forall (λ x, earlier x s) l.
Proof.
  induction l as [|x l IH]; cbn [app].
  { split; [intros; split; constructor|]. intros _. repeat constructor. }
  split.
  - intros H. apply StronglySorted_inv in H as [H1 H2]. apply IH in H1 as [H1 H3].
    apply Forall_app in H2 as [H2 H4]. apply Forall_cons in H4 as [H4 _]. split; constructor; done.
  - intros [H1 H2]. apply StronglySorted_inv in H1 as [H1 H3]. apply Forall_cons in H2 as [H2 H4].
    constructor; [by apply IH|]. apply Forall_app. by repeat constructor.
Qed.

Lemma history_is_recent cc seen s :
  delay_history cc = [] → StronglySorted earlier (seen ++ [s]) →
  delay_history (foldl see cc (seen ++ [s])) = recent (sample_time s) (seen ++ [s]).
Proof.
  intros H0. revert s. induction seen as [|x seen IH] using rev_ind; intros s Hs.
  { cbn [foldl app see update_delay delay_history set_delays]. rewrite H0. cbn [app].
    destruct s as [t v]. cbn [sample_time sample_value]. rewrite prune_sorted; [done|].
    repeat constructor. }
  rewrite foldl_app. cbn [foldl]. set (cc' := foldl see cc (seen ++ [x])).
  apply sorted_snoc in Hs as [Hs Hle].
  assert (delay_history cc' = recent (sample_time x) (seen ++ [x])) as Hh by (by apply IH).
  unfold see, update_delay. cbn [delay_history set_delays]. rewrite Hh.
  replace (mk_sample (sample_time s) (sample_value s)) with s by (by destruct s).
  assert (earlier x s) as Hxs by (apply Forall_app in Hle as [_ Hx]; by apply Forall_cons in Hx as [Hx _]).
  rewrite prune_sorted.
  - unfold recent. rewrite !(filter_app _ _ [s]). f_equal. rewrite list_filter_filter.
    apply filter_ext_in. intros y _. unfold earlier in Hxs. lia.
  - apply sorted_snoc. split; [by apply sorted_filter|]. apply Forall_forall.
    intros y [_ Hy]%list_elem_of_filter. revert y Hy. by apply Forall_forall.
Qed.

Lemma foldl_min_spec l m :
  let r := foldl (λ m x, Z.min m (sample_value x)) m l in
  r ≤ m ∧ (∀ x, x ∈ l → r ≤ sample_value x) ∧ (r = m ∨ ∃ x, x ∈ l ∧ r = sample_value x).
Proof.
  revert m. induction l as [|y l IH]; intros m; cbn [foldl].
  { split_and!; [done|by intros x ?%elem_of_nil|by left]. }
  destruct (IH (Z.min m (sample_value y))) as (H1 & H2 & H3). cbn zeta in *. split_and!.
  - lia.
  - intros x [->|Hx]%elem_of_cons; [lia|by apply H2].
  - destruct H3 as [->|(x & Hx & ->)]; [|right; exists x; by split; [right|]].
    destruct (Z.min_spec m (sample_value y)) as [[_ ->]|[_ ->]]; [by left|right; exists y; by split; [left|]].
Qed.

(** * Properties *)

(** C34: for any sequence of calls, with round trips of up to six days, no call panics and the
    controller stays within its bounds: the window is zero or at least one minimal packet, packets
    have 150 to 1500 bytes, the timeout is at least 500 ms. A packet loss halves the window. With a
    delay below the target the window never shrinks and grows by at most 3000 bytes, with a delay
    above the target it never grows. *)
Theorem congestion_window_reacts : ∀ ops,
  Forall op_ok ops → zlen ops ≤ u32_max →
  ∃ cc, cc_run cc_new ops = Ok cc ∧ cc_ok (zlen ops) cc ∧
    max_window (on_packet_loss cc) = Z.max (max_window cc / 2) MIN_PACKET_SIZE ∧
    (base_delay cc ≠ u32_max → our_delay cc ≤ CCONTROL_TARGET →
       max_window cc + MAX_CWND_INCREASE_BYTES_PER_RTT ≤ u32_max →
       max_window cc ≤ max_window (adjust_window cc)
         ≤ Z.max (max_window cc + MAX_CWND_INCREASE_BYTES_PER_RTT) MIN_PACKET_SIZE) ∧
    (base_delay cc ≠ u32_max → CCONTROL_TARGET ≤ our_delay cc →
       max_window (adjust_window cc) ≤ Z.max (max_window cc) MIN_PACKET_SIZE).
Proof.
  intros ops Hops Hlen. destruct (cc_run_ok 0 cc_new ops cc_new_ok Hops ltac:(lia) Hlen) as (cc & E & Hok).
  exists cc. split; [done|]. split; [done|]. split; [done|].
  destruct Hok as (Hmw & Hmin & Hcw & Hod & _).
  destruct (scaled_gain_sign cc Hcw Hmw Hod) as [Hup Hdown]. unfold in_u32 in Hmw.
  split; intros Hb Ho; [intros Hroom|]; unfold adjust_window; rewrite (proj2 (Z.eqb_neq _ _)) by done;
    cbn [max_window update_packet_size set_packet_size set_window];
    unfold MAX_CWND_INCREASE_BYTES_PER_RTT in *.
  - specialize (Hup Ho). rewrite as_u32_id by lia. lia.
  - specialize (Hdown Ho). rewrite as_u32_id by lia. lia.
Qed.

Definition sample_ops : list cc_op :=
  [DelaySeen 20000 1000; InFlight 300; Adjust; RttSeen 80; DelaySeen 150000 2000; Adjust; Loss; TimedOut].

Lemma congestion_window_reacts_witness :
  Forall op_ok sample_ops ∧ zlen sample_ops ≤ u32_max ∧
  ∃ cc, cc_run cc_new sample_ops = Ok cc ∧ cc_ok (zlen sample_ops) cc ∧
    base_delay cc = 20000 ∧ our_delay cc = 130000.
Proof.
  assert (Forall op_ok sample_ops) as Hops by (repeat constructor; unfold MAX_RTT_MS; cbn; lia).
  assert (zlen sample_ops ≤ u32_max) as Hlen by (by vm_compute).
  split; [done|]. split; [done|].
  destruct (congestion_window_reacts sample_ops Hops Hlen) as (cc & E & Hok & _).
  exists cc. split; [done|]. split; [done|]. vm_compute in E. injection E as <-. by split.
Defined.

(** With a clock that does not go back, the base delay after a sample is the minimum of the
    delays of the last two minutes, as if it was computed from the log of all samples, and the
    current delay is the distance of the last sample from it. *)
Theorem base_delay_is_sliding_minimum : ∀ seen s,
  StronglySorted earlier (seen ++ [s]) →
  let cc := foldl see cc_new (seen ++ [s]) in
  (∃ x, x ∈ recent (sample_time s) (seen ++ [s]) ∧ base_delay cc = sample_value x) ∧
  (∀ x, x ∈ recent (sample_time s) (seen ++ [s]) → base_delay cc ≤ sample_value x) ∧
  our_delay cc = sample_value s - base_delay cc.
Proof.
  intros seen s Hs cc. pose proof (history_is_recent cc_new seen s eq_refl Hs) as Hh. fold cc in Hh.
  assert (s ∈ recent (sample_time s) (seen ++ [s])) as Hin.
  { apply list_elem_of_filter. unfold BASE_DELAY_WINDOW. split; [lia|]. apply elem_of_app. right. by left. }
  assert (base_delay cc = match min_value (delay_history cc) with Some m => m | None => u32_max end ∧
          our_delay cc = saturating_sub (sample_value s) (base_delay cc)) as [Eb Eo].
  { unfold cc. rewrite foldl_app. by split. }
  rewrite Eb in *. rewrite Hh in *. destruct (recent _ _) as [|x h]; [by apply elem_of_nil in Hin|].
  cbn [min_value] in *. destruct (foldl_min_spec h (sample_value x)) as (H1 & H2 & H3). cbn zeta in *.
  clearbody cc. set (r := foldl _ _ _) in *.
  assert (∀ y, y ∈ x :: h → r ≤ sample_value y) as Hmin by (intros y [->|Hy]%elem_of_cons; auto).
  split_and!; [|done|].
  - destruct H3 as [->|(y & Hy & ->)]; [exists x|exists y]; (split; [|done]); [by left|by right].
  - rewrite Eo. unfold saturating_sub. specialize (Hmin s Hin). lia.
Qed.

Definition sample_log : list DelaySample :=
  [mk_sample 0 100; mk_sample 60000000000 400; mk_sample 130000000000 300].

Lemma base_delay_is_sliding_minimum_witness :
  let s := mk_sample 150000000000 350 in
  StronglySorted earlier (sample_log ++ [s]) ∧
  our_delay (foldl see cc_new (sample_log ++ [s])) = 350 - base_delay (foldl see cc_new (sample_log ++ [s])) ∧
  base_delay (foldl see cc_new (sample_log ++ [s])) = 300.
Proof.
  assert (StronglySorted earlier (sample_log ++ [mk_sample 150000000000 350])) as Hs
    by (repeat constructor; unfold earlier; cbn; lia).
  split; [done|]. split; [|by vm_compute].
  by apply (base_delay_is_sliding_minimum sample_log (mk_sample 150000000000 350)).
Defined.

(** The backoff of consecutive timeouts compounds: the third one waits 64 times the first timeout. *)
Lemma timeout_backoff_compounds :
  ∃ cc, cc_run cc_new [TimedOut; TimedOut; TimedOut] = Ok cc ∧ timeout cc = 64 * INITIAL_TIMEOUT_MS.
Proof. eexists. split; by vm_compute. Qed.
