(* ===== verification/UtpConnection.v ===== *)
(** One connection of the micro transport protocol:
    [crates/torrent/src/peer/utp/connection.rs].

    The socket is a log of the packets that were handed to it; the environment of a call says what
    the clocks show and which sends fail. Instants are nanoseconds. *)

From stdpp Require Import base numbers list gmap.
From Stdlib Require Import ZArith Lia.
From S2P Require Import Prelude Facts F64 Error Net Step Utp Congestion.

Definition MAX_RETRANSMIT : Z := 10.
Definition MAX_READY_BYTES : nat := Z.to_nat (2 * 1024 * 1024).

Record SentPacket : Type := mk_sent {
  sp_data : bytes;
  sp_seq_nr : Z;
  sp_send_time : Z;
  sp_retransmit_count : Z;
  sp_rtt_measurable : bool;
}.

Inductive ConnState : Type := SynSent | SynRecv | Connected | FinSent | FinRecv | Closed.

#[global] Instance ConnState_eq_dec : EqDecision ConnState.
Proof. solve_decision. Defined.

(** The fields carry a prefix; [u_sent] is the log of the socket. *)
Record UtpConnection : Type := mk_conn {
  u_remote_addr : SocketAddr;
  u_conn_id_send : Z;
  u_conn_id_recv : Z;
  u_state : ConnState;
  u_seq_nr : Z;
  u_ack_nr : Z;
  u_eof_pkt : option Z;
  u_cc : UtpCongestionControl;
  u_send_buffer : gmap Z SentPacket;
  u_recv_buffer : gmap Z bytes;
  u_ready_data : bytes;
  u_last_activity : Z;
  u_sent : list bytes;
}.

(** What a call sees of the outside: the monotonic clock, the wall clock in microseconds, and
    whether a send fails. *)
Record Env : Type := mk_env {
  e_now : Z;
  e_micros : Z;
  e_send_fails : list bytes → bytes → bool;
}.

(** * Setters *)

Definition set_state (x : ConnState) (c : UtpConnection) : UtpConnection :=
  mk_conn (u_remote_addr c) (u_conn_id_send c) (u_conn_id_recv c) x (u_seq_nr c) (u_ack_nr c)
    (u_eof_pkt c) (u_cc c) (u_send_buffer c) (u_recv_buffer c) (u_ready_data c) (u_last_activity c) (u_sent c).
Definition set_seq_nr (x : Z) (c : UtpConnection) : UtpConnection :=
  mk_conn (u_remote_addr c) (u_conn_id_send c) (u_conn_id_recv c) (u_state c) x (u_ack_nr c)
    (u_eof_pkt c) (u_cc c) (u_send_buffer c) (u_recv_buffer c) (u_ready_data c) (u_last_activity c) (u_sent c).
Definition set_ack_nr (x : Z) (c : UtpConnection) : UtpConnection :=
  mk_conn (u_remote_addr c) (u_conn_id_send c) (u_conn_id_recv c) (u_state c) (u_seq_nr c) x
    (u_eof_pkt c) (u_cc c) (u_send_buffer c) (u_recv_buffer c) (u_ready_data c) (u_last_activity c) (u_sent c).
Definition set_eof_pkt (x : option Z) (c : UtpConnection) : UtpConnection :=
  mk_conn (u_remote_addr c) (u_conn_id_send c) (u_conn_id_recv c) (u_state c) (u_seq_nr c) (u_ack_nr c)
    x (u_cc c) (u_send_buffer c) (u_recv_buffer c) (u_ready_data c) (u_last_activity c) (u_sent c).
Definition set_cc (x : UtpCongestionControl) (c : UtpConnection) : UtpConnection :=
  mk_conn (u_remote_addr c) (u_conn_id_send c) (u_conn_id_recv c) (u_state c) (u_seq_nr c) (u_ack_nr c)
    (u_eof_pkt c) x (u_send_buffer c) (u_recv_buffer c) (u_ready_data c) (u_last_activity c) (u_sent c).
Definition set_send_buffer (x : gmap Z SentPacket) (c : UtpConnection) : UtpConnection :=
  mk_conn (u_remote_addr c) (u_conn_id_send c) (u_conn_id_recv c) (u_state c) (u_seq_nr c) (u_ack_nr c)
    (u_eof_pkt c) (u_cc c) x (u_recv_buffer c) (u_ready_data c) (u_last_activity c) (u_sent c).
Definition set_recv_buffer (x : gmap Z bytes) (c : UtpConnection) : UtpConnection :=
  mk_conn (u_remote_addr c) (u_conn_id_send c) (u_conn_id_recv c) (u_state c) (u_seq_nr c) (u_ack_nr c)
    (u_eof_pkt c) (u_cc c) (u_send_buffer c) x (u_ready_data c) (u_last_activity c) (u_sent c).
Definition set_ready_data (x : bytes) (c : UtpConnection) : UtpConnection :=
  mk_conn (u_remote_addr c) (u_conn_id_send c) (u_conn_id_recv c) (u_state c) (u_seq_nr c) (u_ack_nr c)
    (u_eof_pkt c) (u_cc c) (u_send_buffer c) (u_recv_buffer c) x (u_last_activity c) (u_sent c).
Definition set_last_activity (x : Z) (c : UtpConnection) : UtpConnection :=
  mk_conn (u_remote_addr c) (u_conn_id_send c) (u_conn_id_recv c) (u_state c) (u_seq_nr c) (u_ack_nr c)
    (u_eof_pkt c) (u_cc c) (u_send_buffer c) (u_recv_buffer c) (u_ready_data c) x (u_sent c).
Definition add_packet (x : bytes) (c : UtpConnection) : UtpConnection :=
  mk_conn (u_remote_addr c) (u_conn_id_send c) (u_conn_id_recv c) (u_state c) (u_seq_nr c) (u_ack_nr c)
    (u_eof_pkt c) (u_cc c) (u_send_buffer c) (u_recv_buffer c) (u_ready_data c) (u_last_activity c) (u_sent c ++ [x]).

Ltac conn_simpl := cbn [u_remote_addr u_conn_id_send u_conn_id_recv u_state u_seq_nr u_ack_nr u_eof_pkt
    u_cc u_send_buffer u_recv_buffer u_ready_data u_last_activity u_sent set_state set_seq_nr set_ack_nr
    set_eof_pkt set_cc set_send_buffer set_recv_buffer set_ready_data set_last_activity add_packet] in *.

(** * Sending *)

Definition wrapping_add16 (a b : Z) : Z := as_u16 (a + b).
Definition wrapping_sub16 (a b : Z) : Z := as_u16 (a - b).

Abbreviation conn_step := (Step.step UtpConnection).

(** [UdpSocket::send_to] with the error of [map_err]. *)
Definition socket_send (e : Env) (packet : bytes) : conn_step unit := λ c,
  if e_send_fails e (u_sent c) packet then (c, Err PeerUtpConnectionFailed)
  else (add_packet packet c, Ok tt).

(** The header that [send_raw] builds. *)
Definition raw_header (e : Env) (t : UtpType) (seq ack : Z) (c : UtpConnection) : UtpHeader :=
  {| utp_type := t; version := 1; extension := 0; connection_id := u_conn_id_send c;
     timestamp_microseconds := as_u32 (e_micros e);
     timestamp_difference_microseconds := reply_micro (u_cc c);
     wnd_size := 1000000; seq_nr := seq; ack_nr := ack |}.

Definition send_raw (e : Env) (t : UtpType) (seq ack : Z) (payload : bytes) : conn_step unit :=
  do! header := read (raw_header e t seq ack) in
  let packet := Header.to_bytes header ++ payload in
  do! _ := modify (λ c, set_cc (add_in_flight (as_u32 (zlen packet)) (u_cc c)) c) in
  let sent := {| sp_data := packet; sp_seq_nr := seq; sp_send_time := e_now e;
                 sp_retransmit_count := 0;
                 sp_rtt_measurable := negb (bool_decide (t = StSyn)) |} in
  do! _ := modify (λ c, set_send_buffer (<[seq:=sent]> (u_send_buffer c)) c) in
  do! _ := socket_send e packet in
  modify (set_last_activity (e_now e)).

Definition send_packet (e : Env) (t : UtpType) (payload : bytes) : conn_step unit :=
  do! seq := read u_seq_nr in
  do! _ := (if increments_seq_nr t then modify (set_seq_nr (wrapping_add16 seq 1)) else sret tt) in
  do! ack := read u_ack_nr in
  send_raw e t seq ack payload.

(** [connect] with the random receive identifier; an error drops the connection. *)
Definition connect (e : Env) (random : Z) (remote_addr : SocketAddr) : UtpConnection * result unit :=
  let conn_id_recv := random in
  let conn_id_send := wrapping_add16 conn_id_recv 1 in
  send_packet e StSyn []
    {| u_remote_addr := remote_addr; u_conn_id_send := conn_id_send; u_conn_id_recv := conn_id_recv;
       u_state := SynSent; u_seq_nr := 2; u_ack_nr := 0; u_eof_pkt := None; u_cc := cc_new;
       u_send_buffer := ∅; u_recv_buffer := ∅; u_ready_data := []; u_last_activity := e_now e;
       u_sent := [] |}.

Definition accept (e : Env) (random : Z) (syn : UtpHeader) (remote_addr : SocketAddr) : UtpConnection :=
  {| u_remote_addr := remote_addr; u_conn_id_send := wrapping_add16 (connection_id syn) 1;
     u_conn_id_recv := connection_id syn; u_state := SynRecv; u_seq_nr := random;
     u_ack_nr := seq_nr syn; u_eof_pkt := None; u_cc := cc_new; u_send_buffer := ∅;
     u_recv_buffer := ∅; u_ready_data := []; u_last_activity := e_now e; u_sent := [] |}.

Definition send_state_response (e : Env) : conn_step unit :=
  do! ack := read u_ack_nr in
  do! seq := read u_seq_nr in
  send_raw e StState seq ack [].

(** * Receiving *)

(** The entries of a [BTreeMap], in the order of their keys. *)
Definition btree_iter {A} (m : gmap Z A) : list (Z * A) :=
  stable_sort (λ a b, a.1 <=? b.1) (map_to_list m).

Definition elapsed (e : Env) (t : Z) : Z := Z.max 0 (e_now e - t).
Definition as_millis (d : Z) : Z := d / 1000000.

Definition is_acked (remote_ack seq : Z) : bool :=
  (wrapping_sub16 seq remote_ack =? 0) || (32768 <? wrapping_sub16 seq remote_ack).

Definition ack_packet (e : Env) (seq : Z) : conn_step unit :=
  do! buffer := read u_send_buffer in
  match buffer !! seq with
  | None => sret tt
  | Some pkt =>
      do! _ := modify (λ c, set_send_buffer (delete seq (u_send_buffer c)) c) in
      do! cc := read u_cc in
      do! cc' := lift (if sp_rtt_measurable pkt
                       then update_rtt (as_u32 (as_millis (elapsed e (sp_send_time pkt)))) cc
                       else Ok cc) in
      modify (set_cc (remove_in_flight (as_u32 (zlen (sp_data pkt))) cc'))
  end.

(** [handle_selective_ack] does nothing. *)
Definition handle_selective_ack (header : UtpHeader) : conn_step unit := sret tt.

Definition handle_ack (e : Env) (header : UtpHeader) : conn_step unit :=
  do! buffer := read u_send_buffer in
  let acked_seqs := filter (λ seq, is_acked (ack_nr header) seq = true) (map fst (btree_iter buffer)) in
  do! _ := for_each acked_seqs (ack_packet e) in
  do! _ := (if extension header =? 1 then handle_selective_ack header else sret tt) in
  modify (λ c, set_cc (adjust_window (u_cc c)) c).

(** The loop that delivers the buffered packets that follow: every turn removes a packet from the
    buffer, so that the number of packets is enough fuel. *)
Fixpoint drain_loop (fuel : nat) (next : Z) (c : UtpConnection) : result UtpConnection :=
  match u_recv_buffer c !! next with
  | None => Ok c
  | Some data =>
      match fuel with
      | O => NoFuel
      | S fuel' =>
          let c := set_recv_buffer (delete next (u_recv_buffer c)) c in
          if (MAX_READY_BYTES <? length (u_ready_data c) + length data)%nat then Ok c
          else
            let c := set_ready_data (u_ready_data c ++ data) (set_ack_nr next c) in
            drain_loop fuel' (wrapping_add16 next 1) c
      end
  end.

Definition drain_recv_buffer (next : Z) : conn_step unit := λ c,
  match drain_loop (size (u_recv_buffer c)) next c with
  | Ok c' => (c', Ok tt)
  | Err err => (c, Err err)
  | Panic => (c, Panic)
  | NoFuel => (c, NoFuel)
  end.

(** The part of [process_data_packet] after the acknowledgements. *)
Definition accept_data (header : UtpHeader) (payload : bytes) : conn_step unit :=
  let pkt_seq := seq_nr header in
  do! c := read id in
  if pkt_seq <=? u_ack_nr c then sret tt
  else if pkt_seq =? wrapping_add16 (u_ack_nr c) 1 then
    if (MAX_READY_BYTES <? length (u_ready_data c) + length payload)%nat
    then modify (set_state Closed)
    else
      do! _ := modify (set_ack_nr pkt_seq) in
      do! _ := modify (λ c, set_ready_data (u_ready_data c ++ payload) c) in
      drain_recv_buffer (wrapping_add16 pkt_seq 1)
  else if wrapping_add16 (u_ack_nr c) 1 <? pkt_seq then
    modify (λ c, set_recv_buffer (<[pkt_seq:=payload]> (u_recv_buffer c)) c)
  else sret tt.

Definition process_data_packet (e : Env) (header : UtpHeader) (payload : bytes) : conn_step unit :=
  do! _ := handle_ack e header in accept_data header payload.

Definition handle_fin (header : UtpHeader) : conn_step unit :=
  modify (λ c,
    let c := set_eof_pkt (Some (seq_nr header)) c in
    if decide (u_state c = Connected) then set_state FinRecv c else c).

Definition handle_packet (e : Env) (header : UtpHeader) (payload : bytes) : conn_step unit :=
  do! _ := modify (set_last_activity (e_now e)) in
  do! _ := modify (λ c,
    set_cc (update_delay (timestamp_difference_microseconds header) (e_now e) (u_cc c)) c) in
  do! state := read u_state in
  match state with
  | SynSent =>
      match utp_type header with
      | StState =>
          do! _ := modify (set_state Connected) in
          modify (set_ack_nr (seq_nr header))
      | StReset => modify (set_state Closed)
      | _ => sret tt
      end
  | SynRecv =>
      match utp_type header with
      | StData =>
          do! _ := modify (set_state Connected) in
          do! _ := modify (set_ack_nr (seq_nr header)) in
          process_data_packet e header payload
      | StFin => handle_fin header
      | _ => sret tt
      end
  | Connected =>
      match utp_type header with
      | StData => process_data_packet e header payload
      | StState => handle_ack e header
      | StFin =>
          do! _ := process_data_packet e header payload in
          handle_fin header
      | StReset => modify (set_state Closed)
      | StSyn => sret tt
      end
  | FinSent =>
      do! _ := (match utp_type header with StFin => modify (set_state Closed) | _ => sret tt end) in
      handle_ack e header
  | FinRecv =>
      do! _ := handle_ack e header in
      modify (λ c, if decide (u_send_buffer c = ∅) then set_state Closed c else c)
  | Closed => sret tt
  end.

(** * The application's side *)

Definition send_chunk (e : Env) (chunk : bytes) : conn_step unit :=
  do! seq := read u_seq_nr in
  do! _ := modify (set_seq_nr (wrapping_add16 seq 1)) in
  do! ack := read u_ack_nr in
  send_raw e StData seq ack chunk.

Definition send (e : Env) (data : bytes) : conn_step nat :=
  do! c := read id in
  if negb (bool_decide (u_state c = Connected)) then lift (Err PeerUtpProtocolError)
  else
    let size := Z.to_nat (Z.max (packet_size (u_cc c)) 150) in
    let parts := chunks size data in
    do! _ := for_each parts (send_chunk e) in
    sret (sum_list (map length parts)).

Definition close (e : Env) : conn_step unit :=
  do! c := read id in
  if decide (u_state c = Connected) then
    do! _ := modify (set_seq_nr (wrapping_add16 (u_seq_nr c) 1)) in
    do! _ := send_raw e StFin (u_seq_nr c) (u_ack_nr c) [] in
    modify (set_state FinSent)
  else sret tt.

Definition recv : conn_step bytes :=
  do! data := read u_ready_data in
  do! _ := modify (set_ready_data []) in
  sret data.

(** * Retransmission *)

(** A packet that cannot be sent again is not put back. *)
Definition retransmit (e : Env) (seq : Z) : conn_step unit :=
  do! buffer := read u_send_buffer in
  do! _ :=
    match buffer !! seq with
    | None => sret tt
    | Some pkt =>
        if MAX_RETRANSMIT <=? sp_retransmit_count pkt then
          do! _ := modify (set_state Closed) in lift (Err PeerUtpProtocolError)
        else
          let pkt' := {| sp_data := sp_data pkt; sp_seq_nr := sp_seq_nr pkt; sp_send_time := e_now e;
                         sp_retransmit_count := sp_retransmit_count pkt + 1;
                         sp_rtt_measurable := false |} in
          do! _ := modify (λ c, set_send_buffer (delete seq (u_send_buffer c)) c) in
          do! _ := socket_send e (sp_data pkt) in
          modify (λ c, set_send_buffer (<[seq:=pkt']> (u_send_buffer c)) c)
    end in
  do! cc := read u_cc in
  do! cc' := lift (on_timeout cc) in
  modify (set_cc cc').

Definition check_retransmit (e : Env) : conn_step unit :=
  do! c := read id in
  let timeout_ms := timeout (u_cc c) in
  if timeout_ms * 4 <? as_millis (elapsed e (u_last_activity c)) then
    do! _ := modify (set_state Closed) in lift (Err PeerUtpProtocolError)
  else
    let timeout_dur := timeout_ms * 1000000 in
    let timed_out_seqs :=
      map fst (filter (λ p, timeout_dur ≤ elapsed e (sp_send_time p.2)) (btree_iter (u_send_buffer c))) in
    do! _ := for_each timed_out_seqs (retransmit e) in
    do! c := read id in
    if bool_decide (u_state c = SynSent) && bool_decide (u_send_buffer c = ∅)
       && (timeout_dur <? elapsed e (u_last_activity c))
    then send_packet e StSyn []
    else sret tt.
