(* ===== verification/UtpDelivery.v ===== *)
(** Reliable delivery over a connection of the micro transport protocol: whatever packets of the
    remote's stream arrive, in whatever order and however often, the application reads a prefix of
    the stream, and it reads all of it when every packet has arrived. *)

From stdpp Require Import base numbers list gmap.
From Stdlib Require Import ZArith Lia.
From S2P Require Import Prelude Facts F64 Error Net Step Utp Congestion UtpConnection.

(** * Acknowledgements leave the receiving side alone *)

(** Fifty-three bits would do for the clock; six days keep the round trips within bounds. *)
Definition clock_ok (t0 : Z) (e : Env) : Prop := t0 ≤ e_now e ≤ t0 + MAX_RTT_MS * 1000000.

Definition sender_ok (t0 n : Z) (c : UtpConnection) : Prop :=
  cc_ok n (u_cc c) ∧ map_Forall (λ _ p, t0 ≤ sp_send_time p) (u_send_buffer c).

(** The fields of the receiving side. *)
Definition receiver (c : UtpConnection) :=
  (u_state c, u_ack_nr c, u_recv_buffer c, u_ready_data c, u_sent c).

Definition still (t0 n : Z) (c0 c : UtpConnection) : Prop :=
  sender_ok t0 n c ∧ receiver c = receiver c0.

Abbreviation never := (λ _ : UtpConnection, False).

Lemma remove_in_flight_ok n b cc : cc_ok n cc → 0 ≤ b → cc_ok n (remove_in_flight b cc).
Proof.
  unfold cc_ok, remove_in_flight, saturating_sub, in_u32. cbn. intros H Hb. intuition lia.
Qed.

Lemma round_trip_ok t0 e t : clock_ok t0 e → t0 ≤ t → 0 ≤ as_u32 (as_millis (elapsed e t)) ≤ MAX_RTT_MS.
Proof.
  unfold clock_ok, as_millis, elapsed, MAX_RTT_MS. intros Hc Ht.
  assert (0 ≤ Z.max 0 (e_now e - t) / 1000000 ≤ 536870912) as Hd
    by (split; [apply Z.div_pos; lia|apply Z.div_le_upper_bound; lia]).
  by rewrite as_u32_id by lia.
Qed.

Lemma ack_packet_still t0 n e seq c0 c :
  clock_ok t0 e → still t0 n c0 c → swp never (ack_packet e seq) (λ _, still t0 n c0) c.
Proof.
  intros Hclock [[Hcc Hb] Hr]. unfold ack_packet. apply swp_read.
  destruct (u_send_buffer c !! seq) as [pkt|] eqn:Hp; [|by apply swp_ret].
  apply swp_modify, swp_read. conn_simpl. pose proof (Hb seq pkt Hp) as Ht. cbn beta in Ht.
  assert (∃ cc', (if sp_rtt_measurable pkt
                  then update_rtt (as_u32 (as_millis (elapsed e (sp_send_time pkt)))) (u_cc c)
                  else Ok (u_cc c)) = Ok cc' ∧ cc_ok n cc') as (cc' & E & Hcc').
  { destruct (sp_rtt_measurable pkt); [|by exists (u_cc c)]. by apply update_rtt_ok, (round_trip_ok t0). }
  eapply swp_lift; [exact E|]. split; [split|done]; conn_simpl.
  - apply remove_in_flight_ok; [done|]. apply as_u32_range.
  - by apply map_Forall_delete.
Qed.

Lemma handle_ack_still t0 n e h c0 c :
  clock_ok t0 e → still t0 n c0 c → swp never (handle_ack e h) (λ _, still t0 n c0) c.
Proof.
  intros Hclock H. unfold handle_ack. apply swp_read, swp_bind.
  eapply swp_mono; [apply (swp_for_each _ _ (λ _, still t0 n c0)); [|exact H]|].
  { intros seq _ s. by apply ack_packet_still. }
  intros _ c1 [[Hcc Hb] Hr]. apply swp_bind. unfold handle_selective_ack.
  assert (still t0 n c0 (set_cc (adjust_window (u_cc c1)) c1)) as H1
    by (split; [split; [by apply adjust_window_ok|done]|done]).
  by destruct (extension h =? 1).
Qed.

(** * The receiving side *)

Section stream.
Context (t0 n s0 : Z) (stream : list bytes).
Context (Hs0 : 0 ≤ s0) (Hroom : s0 + zlen stream ≤ u16_max).

(** The sequence number of the packet that carries element [i] of the stream. *)
Definition seq_of (i : nat) : Z := s0 + 1 + Z.of_nat i.

(** The whole stream fits the buffer of an application that never reads. *)
Definition fits : Prop := (length (concat stream) ≤ MAX_READY_BYTES)%nat.

(** The first [k] elements were delivered; the buffer holds later ones only, and, if the stream
    fits, all those that arrived. *)
Definition delivered (arrived : nat → Prop) (k : nat) (out : bytes) (c : UtpConnection) : Prop :=
  (k ≤ length stream)%nat ∧ u_state c = Connected ∧ u_ack_nr c = s0 + Z.of_nat k ∧
  out ++ u_ready_data c = concat (take k stream) ∧
  (∀ seq d, u_recv_buffer c !! seq = Some d → ∃ i, (k < i)%nat ∧ seq = seq_of i ∧ stream !! i = Some d) ∧
  (fits → ∀ i, arrived i → (i < k)%nat ∨ is_Some (u_recv_buffer c !! seq_of i)).

Definition closed_early (out : bytes) (c : UtpConnection) : Prop :=
  u_state c = Closed ∧ ¬ fits ∧ ∃ k, out ++ u_ready_data c = concat (take k stream).

Lemma in_stream i d : stream !! i = Some d → seq_of i ≤ u16_max.
Proof using Hroom. intros H%lookup_lt_Some. unfold seq_of, zlen in *. lia. Qed.

Lemma wrapping_next k : (k < length stream)%nat → wrapping_add16 (s0 + Z.of_nat k) 1 = seq_of k.
Proof using Hs0 Hroom.
  intros H. unfold wrapping_add16, as_u16, seq_of, zlen in *. rewrite Z.mod_small by lia. lia.
Qed.

Lemma concat_take_S k d : stream !! k = Some d → concat (take (S k) stream) = concat (take k stream) ++ d.
Proof using. intros H. rewrite (take_S_r _ _ d) by done. rewrite concat_app. cbn. by rewrite app_nil_r. Qed.

Lemma length_take_concat k : (length (concat (take k stream)) ≤ length (concat stream))%nat.
Proof using. rewrite <- (take_drop k stream) at 2. rewrite concat_app, length_app. lia. Qed.

(** An element that follows what is delivered fits if the stream does. *)
Lemma next_fits k d out ready :
  fits → stream !! k = Some d → out ++ ready = concat (take k stream) →
  (length ready + length d ≤ MAX_READY_BYTES)%nat.
Proof using.
  intros Hf Hd Ho. pose proof (length_take_concat (S k)) as H. rewrite (concat_take_S _ _ Hd), <- Ho in H.
  rewrite !length_app in H. unfold fits in Hf. lia.
Qed.

(** While the loop runs, the element that is due may still be in the buffer. *)
Definition draining (arrived : nat → Prop) (k : nat) (out : bytes) (c : UtpConnection) : Prop :=
  (k ≤ length stream)%nat ∧ u_state c = Connected ∧ u_ack_nr c = s0 + Z.of_nat k ∧
  out ++ u_ready_data c = concat (take k stream) ∧
  (∀ seq d, u_recv_buffer c !! seq = Some d → ∃ i, (k ≤ i)%nat ∧ seq = seq_of i ∧ stream !! i = Some d) ∧
  (fits → ∀ i, arrived i → (i < k)%nat ∨ is_Some (u_recv_buffer c !! seq_of i)).

Lemma due_in_buffer arrived k out c d :
  draining arrived k out c → u_recv_buffer c !! wrapping_add16 (s0 + Z.of_nat k) 1 = Some d →
  stream !! k = Some d ∧ wrapping_add16 (s0 + Z.of_nat k) 1 = seq_of k.
Proof using Hs0 Hroom.
  intros (Hk & _ & _ & _ & Hbuf & _) Hd. destruct (Hbuf _ _ Hd) as (i & Hi & E & Hs).
  pose proof (lookup_lt_Some _ _ _ Hs). assert (k < length stream)%nat as Hlt by lia.
  rewrite (wrapping_next k Hlt) in *. assert (i = k) as -> by (unfold seq_of in E; lia). done.
Qed.

Lemma drained arrived k out c :
  draining arrived k out c → u_recv_buffer c !! wrapping_add16 (s0 + Z.of_nat k) 1 = None →
  delivered arrived k out c.
Proof using Hs0 Hroom.
  intros (Hk & Hst & Hack & Hout & Hbuf & Harr) Hn. split_and!; try done.
  intros seq d Hd. destruct (Hbuf _ _ Hd) as (i & Hi & -> & Hs). exists i. split_and!; [|done..].
  destruct (decide (i = k)) as [->|]; [|lia]. apply lookup_lt_Some in Hs.
  rewrite (wrapping_next k) in Hn by done. congruence.
Qed.

Lemma drain_loop_ok fuel arrived k out c :
  draining arrived k out c → (size (u_recv_buffer c) ≤ fuel)%nat →
  ∃ c' k', drain_loop fuel (wrapping_add16 (s0 + Z.of_nat k) 1) c = Ok c' ∧ (k ≤ k')%nat ∧
    delivered arrived k' out c' ∧ u_cc c' = u_cc c ∧ u_send_buffer c' = u_send_buffer c.
Proof using Hs0 Hroom.
  revert k c. induction fuel as [|fuel IH]; intros k c Hc Hsize; cbn [drain_loop];
    destruct (u_recv_buffer c !! wrapping_add16 _ _) as [data|] eqn:Hd.
  - assert (u_recv_buffer c = ∅) as He by (apply map_size_empty_iff; lia).
    rewrite He, lookup_empty in Hd. done.
  - exists c, k. split_and!; try done. by apply drained.
  - destruct (due_in_buffer _ _ _ _ _ Hc Hd) as [Hs E]. rewrite E in *.
    pose proof Hc as (Hk & Hst & Hack & Hout & Hbuf & Harr).
    assert (∀ seq d, delete (seq_of k) (u_recv_buffer c) !! seq = Some d →
              ∃ i, (k < i)%nat ∧ seq = seq_of i ∧ stream !! i = Some d) as Hbuf'.
    { intros seq d [Hne Hl]%lookup_delete_Some. destruct (Hbuf _ _ Hl) as (i & Hi & -> & Hsi).
      exists i. split_and!; try done. destruct (decide (i = k)); [congruence|lia]. }
    destruct (Nat.ltb_spec MAX_READY_BYTES (length (u_ready_data c) + length data)) as [Hover|Hfit].
    + conn_simpl. rewrite (proj2 (Nat.ltb_lt _ _)) by done. eexists _, k. split; [done|].
      unfold delivered. conn_simpl. split_and!; try done. intros Hf. pose proof (next_fits _ _ _ _ Hf Hs Hout). lia.
    + conn_simpl. rewrite (proj2 (Nat.ltb_ge _ _)) by done.
      assert (seq_of k = s0 + Z.of_nat (S k)) as -> by (unfold seq_of; lia).
      destruct (IH (S k) (set_ready_data (u_ready_data c ++ data) (set_ack_nr (s0 + Z.of_nat (S k))
                  (set_recv_buffer (delete (s0 + Z.of_nat (S k)) (u_recv_buffer c)) c))))
        as (c' & k' & E' & Hle & Hdel & Hcc & Hsb).
      * apply lookup_lt_Some in Hs as Hlt. split_and!; conn_simpl; try done.
        -- by rewrite app_assoc, Hout, (concat_take_S _ _ Hs).
        -- intros seq d Hl. assert (s0 + Z.of_nat (S k) = seq_of k) as Ek by (unfold seq_of; lia).
           rewrite Ek in Hl. destruct (Hbuf' _ _ Hl) as (i & Hi & H). exists i. split; [lia|done].
        -- intros Hf i Hi. destruct (Harr Hf i Hi) as [?|Hsome]; [left; lia|].
           destruct (decide (i = k)) as [->|Hne]; [left; lia|right].
           rewrite lookup_delete_ne; [done|]. unfold seq_of. lia.
      * conn_simpl. rewrite map_size_delete_Some; [lia|].
        assert (s0 + Z.of_nat (S k) = seq_of k) as -> by (unfold seq_of; lia). by exists data.
      * exists c', k'. conn_simpl. split_and!; try done. lia.
  - exists c, k. split_and!; try done. by apply drained.
Qed.

(** ** Packets *)

Definition receiving (arrived : nat → Prop) (out : bytes) (c : UtpConnection) : Prop :=
  sender_ok t0 n c ∧ ((∃ k, delivered arrived k out c) ∨ closed_early out c).

Lemma delivered_receiver arrived k out c c' :
  receiver c' = receiver c → delivered arrived k out c → delivered arrived k out c'.
Proof using. unfold receiver, delivered. by intros [= -> -> -> -> _]. Qed.

Lemma closed_receiver out c c' : receiver c' = receiver c → closed_early out c → closed_early out c'.
Proof using. unfold receiver, closed_early. by intros [= -> _ _ -> _]. Qed.

Lemma still_refl c : sender_ok t0 n c → still t0 n c c.
Proof using. by split. Qed.

Lemma accept_data_ok h payload i arrived k out c :
  delivered arrived k out c → stream !! i = Some payload → seq_nr h = seq_of i →
  ∃ c', accept_data h payload c = (c', Ok tt) ∧ u_cc c' = u_cc c ∧ u_send_buffer c' = u_send_buffer c ∧
    ((∃ k', delivered (λ j, j = i ∨ arrived j) k' out c') ∨ closed_early out c').
Proof using Hs0 Hroom.
  intros Hdel Hi Hseq. pose proof Hdel as (Hk & Hst & Hack & Hout & Hbuf & Harr).
  unfold accept_data, sbind, read, modify, sret, id. rewrite Hseq, Hack.
  pose proof (lookup_lt_Some _ _ _ Hi) as Hlt.
  assert (∀ j, j = i ∨ arrived j → j ≠ i → arrived j) as Hother by (intros j [->|?] ?; done).
  destruct (Z.leb_spec (seq_of i) (s0 + Z.of_nat k)) as [Hle|Hgt].
  { exists c. split_and!; try done. left. exists k. split_and!; try done. intros Hf j Hj.
    destruct (decide (j = i)) as [->|Hne]; [left; unfold seq_of in Hle; lia|auto]. }
  assert (k < length stream)%nat as Hklt by (unfold seq_of in Hgt; lia).
  rewrite (wrapping_next k Hklt). destruct (Z.eqb_spec (seq_of i) (seq_of k)) as [Heq|Hne].
  - assert (i = k) as -> by (unfold seq_of in Heq; lia).
    destruct (Nat.ltb_spec MAX_READY_BYTES (length (u_ready_data c) + length payload)) as [Hover|Hfit].
    + eexists. split; [done|]. split_and!; try done. right. split; [done|]. split; [|by exists k].
      intros Hf. pose proof (next_fits _ _ _ _ Hf Hi Hout). lia.
    + unfold drain_recv_buffer. conn_simpl.
      destruct (drain_loop_ok (size (u_recv_buffer c)) (λ j, j = k ∨ arrived j) (S k) out
                  (set_ready_data (u_ready_data c ++ payload) (set_ack_nr (seq_of k) c)))
        as (c' & k' & E & _ & Hdel' & Hcc & Hsb); [| |].
      * unfold draining. conn_simpl. split_and!; [done|done|unfold seq_of; lia| | |].
        -- by rewrite app_assoc, Hout, (concat_take_S _ _ Hi).
        -- intros seq d Hd. destruct (Hbuf _ _ Hd) as (j & Hj & H). exists j. split; [lia|done].
        -- intros Hf j Hj. destruct (decide (j = k)) as [->|Hne]; [left; lia|].
           destruct (Harr Hf j (Hother j Hj Hne)); [left; lia|by right].
      * done.
      * replace (s0 + Z.of_nat (S k)) with (seq_of k) in E by (unfold seq_of; lia). rewrite E.
        conn_simpl. exists c'. split; [done|]. split; [done|]. split; [done|]. left. by exists k'.
  - assert (k < i)%nat as Hki by (unfold seq_of in *; lia).
    rewrite (proj2 (Z.ltb_lt _ _)) by (unfold seq_of; lia).
    eexists. split; [done|]. split_and!; try done. left. exists k. unfold delivered. conn_simpl. split_and!; try done.
    + intros seq d [[<- <-]|[Hns Hd]]%lookup_insert_Some; [by exists i|by apply Hbuf].
    + intros Hf j Hj. destruct (decide (j = i)) as [->|Hnj]; [right; by rewrite lookup_insert_eq|].
      destruct (Harr Hf j (Hother j Hj Hnj)) as [?|Hs]; [by left|right].
      rewrite lookup_insert_ne; [done|]. unfold seq_of. lia.
Qed.

Lemma process_data_packet_ok e h payload i arrived k out c :
  clock_ok t0 e → sender_ok t0 n c → delivered arrived k out c →
  stream !! i = Some payload → seq_nr h = seq_of i →
  swp never (process_data_packet e h payload) (λ _, receiving (λ j, j = i ∨ arrived j) out) c.
Proof using Hs0 Hroom.
  intros Hclock Hsend Hdel Hi Hseq. unfold process_data_packet. apply swp_bind.
  eapply swp_mono; [by apply handle_ack_still, still_refl|]. intros _ c1 [Hsend1 Hr].
  apply (delivered_receiver _ _ _ _ c1) in Hdel; [|done].
  destruct (accept_data_ok h payload i arrived k out c1 Hdel Hi Hseq) as (c2 & E & Hcc & Hsb & H).
  unfold swp. rewrite E. split; [|done]. unfold sender_ok. by rewrite Hcc, Hsb.
Qed.

(** What may arrive: packets of the stream, and acknowledgements of what we sent. *)
Definition packet_ok (h : UtpHeader) (payload : bytes) : Prop :=
  in_u32 (timestamp_difference_microseconds h) ∧
  (utp_type h = StState ∨
   utp_type h = StData ∧ ∃ i, stream !! i = Some payload ∧ seq_nr h = seq_of i).

Definition carries (h : UtpHeader) (i : nat) : Prop := utp_type h = StData ∧ seq_nr h = seq_of i.

Lemma receiving_weaken arrived arrived' out c :
  receiving arrived out c → (∀ i, arrived' i → arrived i) → receiving arrived' out c.
Proof using.
  intros [Hs [(k & Hk & Hst & Hack & Hout & Hbuf & Harr)|Hc]] Hsub; (split; [done|]); [left|by right].
  exists k. split_and!; try done. auto.
Qed.

Lemma handle_packet_ok e h payload arrived out c :
  clock_ok t0 e → packet_ok h payload → receiving arrived out c →
  swp never (handle_packet e h payload) (λ _, receiving (λ i, arrived i ∨ carries h i) out) c.
Proof using Hs0 Hroom.
  intros Hclock [Hts Htype] [[Hcc Hb] Hrecv]. unfold handle_packet. apply swp_modify, swp_modify, swp_read.
  conn_simpl. set (c1 := set_cc _ _).
  assert (sender_ok t0 n c1) as Hsend by (split; [by apply update_delay_ok|done]).
  destruct Hrecv as [[k Hdel]|Hclosed].
  - assert (delivered arrived k out c1) as Hdel1 by done. clearbody c1.
    pose proof Hdel as (_ & -> & _). destruct Htype as [Ht|(Ht & i & Hi & Hseq)]; rewrite Ht.
    + eapply swp_mono; [by apply handle_ack_still, still_refl|]. intros _ c2 [Hs2 Hr].
      apply (receiving_weaken arrived).
      * split; [done|]. left. exists k. by apply (delivered_receiver _ _ _ c1).
      * intros j [?|[? _]]; [done|congruence].
    + eapply swp_mono; [by eapply process_data_packet_ok|]. intros [] c2 H2.
      apply (receiving_weaken _ _ _ _ H2). intros j [?|[_ Hj]]; [by right|left].
      unfold seq_of in *. lia.
  - pose proof Hclosed as (-> & Hnf & Hp). split; [done|]. right. by apply (closed_receiver _ c).
Qed.

(** ** Runs *)

Inductive net_event : Type :=
| Packet (e : Env) (h : UtpHeader) (payload : bytes)
| Read.

(** The bytes the application has read are carried along. *)
Fixpoint run_events (events : list net_event) (out : bytes) : conn_step bytes :=
  match events with
  | [] => sret out
  | Packet e h payload :: events' => do! _ := handle_packet e h payload in run_events events' out
  | Read :: events' => do! data := recv in run_events events' (out ++ data)
  end.

Definition event_ok (ev : net_event) : Prop :=
  match ev with
  | Packet e h payload => clock_ok t0 e ∧ packet_ok h payload
  | Read => True
  end.

Definition event_carries (i : nat) (ev : net_event) : Prop :=
  match ev with Packet _ h _ => carries h i | Read => False end.

Definition arrives (events : list net_event) (i : nat) : Prop := Exists (event_carries i) events.

Lemma recv_ok arrived out c :
  receiving arrived out c → swp never recv (λ d c', receiving arrived (out ++ d) c') c.
Proof using.
  intros [Hs Hr]. unfold recv. apply swp_read, swp_modify, swp_ret. split; [done|].
  destruct Hr as [(k & Hk & Hst & Hack & Hout & Hrest)|(Hst & Hnf & k & Hout)].
  - left. exists k. unfold delivered. conn_simpl. by rewrite app_nil_r.
  - right. unfold closed_early. conn_simpl. rewrite app_nil_r. split_and!; [done..|by exists k].
Qed.

Lemma run_events_ok events arrived out c :
  Forall event_ok events → receiving arrived out c →
  swp never (run_events events out) (λ out', receiving (λ i, arrived i ∨ arrives events i) out') c.
Proof using Hs0 Hroom.
  intros H. revert arrived out c. induction H as [|ev events Hev _ IH]; intros arrived out c Hc; cbn [run_events].
  - apply swp_ret. apply (receiving_weaken _ _ _ _ Hc). intros i [?|Hi]; [done|]. by apply Exists_nil in Hi.
  - destruct ev as [e h payload|].
    + destruct Hev as [Hclock Hp]. apply swp_bind.
      eapply swp_mono; [by eapply handle_packet_ok|]. intros [] c1 H1. eapply swp_mono; [by apply IH|].
      intros out' c2 H2. apply (receiving_weaken _ _ _ _ H2).
      intros i [?|[?|?]%Exists_cons]; [by left; left|by left; right|by right].
    + apply swp_bind. eapply swp_mono; [by apply recv_ok|]. intros d c1 H1. cbn beta in H1. eapply swp_mono; [by apply IH|].
      intros out' c2 H2. apply (receiving_weaken _ _ _ _ H2). intros i [?|[[]|?]%Exists_cons]; [by left|by right].
Qed.
End stream.

(** * Properties *)

(** A connection that has received nothing after sequence number [s0]. *)
Definition fresh_receiver (t0 n s0 : Z) (c : UtpConnection) : Prop :=
  sender_ok t0 n c ∧ u_state c = Connected ∧ u_ack_nr c = s0 ∧ u_recv_buffer c = ∅ ∧ u_ready_data c = [].

Lemma fresh_receiving t0 n s0 stream c :
  fresh_receiver t0 n s0 c → receiving t0 n s0 stream (λ _, False) [] c.
Proof.
  intros (Hs & Hst & Hack & Hbuf & Hready). split; [done|]. left. exists 0%nat.
  unfold delivered. rewrite Hst, Hack, Hbuf, Hready. split_and!; [lia|done|lia|done| |by intros].
  intros seq d. by rewrite lookup_empty.
Qed.

(** reliable, in-order delivery. However the packets of the remote's stream are reordered,
    repeated or lost, and whatever acknowledgements arrive in between, handling them never fails,
    and the bytes the application has read, followed by the bytes that are ready to be read, are the
    concatenation of an initial segment of the stream. *)
Theorem utp_delivers_in_order : ∀ t0 n s0 stream events c,
  fresh_receiver t0 n s0 c → 0 ≤ s0 → s0 + zlen stream ≤ u16_max →
  Forall (event_ok t0 s0 stream) events →
  ∃ c' out k, run_events events [] c = (c', Ok out) ∧ out ++ u_ready_data c' = concat (take k stream).
Proof.
  intros t0 n s0 stream events c Hc Hs0 Hroom Hev.
  pose proof (run_events_ok t0 n s0 stream Hs0 Hroom events _ [] c Hev (fresh_receiving _ _ _ stream _ Hc)) as H.
  unfold swp in H. destruct (run_events events [] c) as [c' [out|e| |]]; [|done..].
  destruct H as [_ [(k & _ & _ & _ & Hout & _)|(_ & _ & k & Hout)]]; by exists c', out, k.
Qed.

(** Nothing is lost for good. When every packet of a stream of at most 2 MiB has arrived at
    least once, in whatever order, the connection is still open and the application has received, or
    can read, the whole stream. *)
Theorem utp_delivers_everything : ∀ t0 n s0 stream events c,
  fresh_receiver t0 n s0 c → 0 ≤ s0 → s0 + zlen stream ≤ u16_max → fits stream →
  Forall (event_ok t0 s0 stream) events → (∀ i, (i < length stream)%nat → arrives s0 events i) →
  ∃ c' out, run_events events [] c = (c', Ok out) ∧ u_state c' = Connected ∧
    u_ack_nr c' = s0 + zlen stream ∧ out ++ u_ready_data c' = concat stream.
Proof.
  intros t0 n s0 stream events c Hc Hs0 Hroom Hfits Hev Hall.
  pose proof (run_events_ok t0 n s0 stream Hs0 Hroom events _ [] c Hev (fresh_receiving _ _ _ stream _ Hc)) as H.
  unfold swp in H. destruct (run_events events [] c) as [c' [out|e| |]]; [|done..].
  destruct H as [_ [(k & Hk & Hst & Hack & Hout & Hbuf & Harr)|(_ & Hnf & _)]]; [|done].
  exists c', out. assert (k = length stream) as ->.
  { destruct (decide (k = length stream)) as [|Hne]; [done|]. exfalso.
    destruct (Harr Hfits k) as [?|[d Hd]]; [right; apply Hall; lia|lia|].
    destruct (Hbuf _ _ Hd) as (i & Hi & E & _). unfold seq_of in E. lia. }
  split_and!; [done..|]. by rewrite Hout, firstn_all.
Qed.

(** A run in which packets arrive out of order and twice. *)
Definition sample_conn : UtpConnection :=
  {| u_remote_addr := mk_addr (V4 [127; 0; 0; 1]) 6881; u_conn_id_send := 8; u_conn_id_recv := 7;
     u_state := Connected; u_seq_nr := 2; u_ack_nr := 100; u_eof_pkt := None; u_cc := cc_new;
     u_send_buffer := ∅; u_recv_buffer := ∅; u_ready_data := []; u_last_activity := 0; u_sent := [] |}.

Definition sample_stream : list bytes := [[1; 2]; [3]; [4; 5; 6]].

Definition sample_packet (i : nat) : net_event :=
  Packet (mk_env (1000 + Z.of_nat i) 5 (λ _ _, false))
    (Header.new StData 7 (seq_of 100 i) 1) (default [] (sample_stream !! i)).

Definition sample_events : list net_event :=
  [sample_packet 2; sample_packet 0; Read; sample_packet 0; sample_packet 2; sample_packet 1].

Lemma sample_conn_fresh : fresh_receiver 0 0 100 sample_conn.
Proof. split; [split; [apply cc_new_ok|apply map_Forall_empty]|done]. Qed.

Lemma sample_packet_ok i : (i < 3)%nat → event_ok 0 100 sample_stream (sample_packet i).
Proof.
  intros Hi. split; [unfold clock_ok, MAX_RTT_MS; cbn; lia|]. split; [by apply (bool_decide_unpack _)|].
  right. split; [done|]. exists i. split; [|done]. destruct i as [|[|[|i]]]; [done..|lia].
Qed.

Lemma sample_events_ok : Forall (event_ok 0 100 sample_stream) sample_events.
Proof.
  unfold sample_events. rewrite !Forall_cons. split_and!; try (apply sample_packet_ok; lia); done.
Qed.

Lemma utp_delivers_in_order_witness :
  fresh_receiver 0 0 100 sample_conn ∧ Forall (event_ok 0 100 sample_stream) (take 4 sample_events) ∧
  ∃ c' out k, run_events (take 4 sample_events) [] sample_conn = (c', Ok out) ∧
    out ++ u_ready_data c' = concat (take k sample_stream) ∧ out = [1; 2].
Proof.
  assert (Forall (event_ok 0 100 sample_stream) (take 4 sample_events)) as Hev by apply Forall_take, sample_events_ok.
  split; [apply sample_conn_fresh|]. split; [done|].
  destruct (utp_delivers_in_order 0 0 100 sample_stream (take 4 sample_events) sample_conn
              sample_conn_fresh ltac:(lia) ltac:(by vm_compute) Hev) as (c' & out & k & E & H).
  exists c', out, k. split; [done|]. split; [done|]. vm_compute in E. by injection E.
Defined.

Lemma sample_all_arrive : ∀ i, (i < length sample_stream)%nat → arrives 100 sample_events i.
Proof.
  intros i Hi. apply Exists_exists.
  exists (sample_packet i). destruct i as [|[|[|i]]]; cbn in Hi; [..|lia]; (split; [|by split]); unfold sample_events;
    repeat (first [by left|right]).
Qed.

Lemma utp_delivers_everything_witness :
  fits sample_stream ∧
  ∃ c' out, run_events sample_events [] sample_conn = (c', Ok out) ∧ u_state c' = Connected ∧
    u_ack_nr c' = 100 + 3 ∧ out ++ u_ready_data c' = [1; 2; 3; 4; 5; 6].
Proof.
  assert (fits sample_stream) as Hf.
  { unfold fits, MAX_READY_BYTES. apply Nat2Z.inj_le. rewrite Z2Nat.id; by vm_compute. }
  split; [done|].
  apply (utp_delivers_everything 0 0 100 sample_stream sample_events sample_conn
           sample_conn_fresh ltac:(lia) ltac:(by vm_compute) Hf sample_events_ok sample_all_arrive).
Defined.

(** * What is not delivered *)

(** The first data packet of an accepted connection only completes the handshake: its payload is
    dropped, and, since its number counts as received, every later copy of it as well. *)
Lemma first_payload_is_dropped t0 n e random syn addr e' h payload :
  clock_ok t0 e' → in_u32 (timestamp_difference_microseconds h) → 0 ≤ n →
  utp_type h = StData →
  ∃ c', handle_packet e' h payload (accept e random syn addr) = (c', Ok tt) ∧
  u_state c' = Connected ∧ u_ack_nr c' = seq_nr h ∧ u_ready_data c' = [] ∧ u_recv_buffer c' = ∅.
Proof.
  intros Hclock Hts Hn Ht.
  assert (sender_ok t0 n (accept e random syn addr)) as [Hcc Hb].
  { split; [|apply map_Forall_empty]. unfold accept. conn_simpl. pose proof cc_new_ok as H0.
    unfold cc_ok in *. intuition lia. }
  assert (swp never (handle_packet e' h payload)
            (λ _ c, u_state c = Connected ∧ u_ack_nr c = seq_nr h ∧ u_ready_data c = [] ∧ u_recv_buffer c = ∅)
            (accept e random syn addr)) as Hwp.
  { unfold handle_packet. apply swp_modify, swp_modify, swp_read. conn_simpl. cbn [u_state accept]. rewrite Ht.
    apply swp_modify, swp_modify. unfold process_data_packet. apply swp_bind. conn_simpl.
    set (c1 := set_ack_nr _ _).
    assert (still t0 n c1 c1) as Hstill by (apply still_refl; split; [by apply update_delay_ok|done]).
    eapply swp_mono; [by eapply (handle_ack_still t0 n)|].
    intros [] c [_ Hr]. apply swp_read. unfold id, receiver in *. conn_simpl. injection Hr as E1 E2 E3 E4 E5.
    rewrite E2, Z.leb_refl. by apply swp_ret. }
  unfold swp in Hwp. destruct (handle_packet _ _ _ _) as [c' [[]|er| |]]; [|done..]. by exists c'.
Qed.
