(* ===== verification/UtpSocket.v ===== *)
(** The socket that connections of the micro transport protocol share, and the stream the
    application reads: [crates/torrent/src/peer/utp/socket.rs] and
    [crates/torrent/src/peer/utp/stream.rs].

    The channels between the tasks are lists; the socket's map of connections is the set of their
    receive identifiers. *)

From stdpp Require Import base numbers list gmap.
From Stdlib Require Import ZArith Lia.
From S2P Require Import Prelude Facts F64 Error Net Step Utp UtpFacts Congestion UtpConnection.

Definition SOCKET_RECV_BUF : nat := 4096.

(** * Dispatching a datagram *)

Inductive SocketAction : Type :=
| NoAction
| Deliver (conn_id : Z) (header : UtpHeader) (payload : bytes)
| AcceptIncoming (syn : UtpHeader)
| SendReset (packet : bytes).

Definition send_reset (header : UtpHeader) : bytes :=
  Header.to_bytes
    {| utp_type := StReset; version := 1; extension := 0; connection_id := connection_id header;
       timestamp_microseconds := 0; timestamp_difference_microseconds := 0; wnd_size := 0;
       seq_nr := ack_nr header; ack_nr := seq_nr header |}.

(** One turn of [recv_loop]. *)
Definition dispatch (connections : gset Z) (datagram : bytes) : result SocketAction :=
  let data := take SOCKET_RECV_BUF datagram in
  if (length data <? 20)%nat then Ok NoAction
  else
    match Header.from_bytes (take 20 data) with
    | Ok header =>
        let conn_id := connection_id header in
        let payload := drop 20 data in
        if bool_decide (conn_id ∈ connections) then Ok (Deliver conn_id header payload)
        else if bool_decide (utp_type header = StSyn) then Ok (AcceptIncoming header)
        else if bool_decide (utp_type header = StReset) then Ok NoAction
        else Ok (SendReset (send_reset header))
    | Err _ => Ok NoAction
    | Panic => Panic
    | NoFuel => NoFuel
    end.

(** [accept_incoming]: the connection and whether its task is started. *)
Definition accept_incoming (e : Env) (random : Z) (syn : UtpHeader) (src : SocketAddr)
    (connections : gset Z) : result (gset Z * option UtpConnection) :=
  let conn := accept e random syn src in
  match send_state_response e conn with
  | (conn', Ok _) => Ok ({[u_conn_id_recv conn]} ∪ connections, Some conn')
  | (_, Err _) => Ok (({[u_conn_id_recv conn]} ∪ connections) ∖ {[u_conn_id_recv conn]}, None)
  | (_, Panic) => Panic
  | (_, NoFuel) => NoFuel
  end.

(** * The task of a connection *)

Inductive TaskEvent : Type :=
| Incoming (header : UtpHeader) (payload : bytes)
| Outgoing (data : bytes)
| Tick.

(** One turn of the loop of [connection_task]: the data that is forwarded to the application, and
    whether the loop goes on. *)
Definition task_turn (e : Env) (ev : TaskEvent) (c : UtpConnection)
  : UtpConnection * result (option bytes * bool) :=
  let turn : conn_step (option bytes) :=
    match ev with
    | Incoming header payload =>
        do! _ := handle_packet e header payload in
        do! app_data := recv in
        sret (match app_data with [] => None | _ => Some app_data end)
    | Outgoing data => do! _ := send e data in sret None
    | Tick => do! _ := check_retransmit e in sret None
    end in
  match turn c with
  | (c', Ok out) => (c', Ok (out, negb (bool_decide (u_state c' = Closed))))
  | (c', Err _) => (c', Ok (None, false))
  | (c', Panic) => (c', Panic)
  | (c', NoFuel) => (c', NoFuel)
  end.

(** * The stream *)

(** [data_rx] holds the data that was forwarded and not yet taken. *)
Record UtpStream : Type := mk_stream { data_rx : list bytes; read_buf : bytes; read_pos : nat }.

(** The internal buffer, refilled when it is exhausted. A closed channel looks like an empty one. *)
Definition refill (s : UtpStream) : option UtpStream :=
  if (length (read_buf s) <=? read_pos s)%nat then
    match data_rx s with
    | data :: rx => Some (mk_stream rx data 0)
    | [] => None
    end
  else Some s.

(** [poll_read] with the room in the caller's buffer; [None] is [Poll::Pending]. *)
Definition poll_read (remaining : nat) (s : UtpStream) : UtpStream * option bytes :=
  match refill s with
  | None => (s, None)
  | Some s =>
      let rest := drop (read_pos s) (read_buf s) in
      let to_copy := Nat.min (length rest) remaining in
      (mk_stream (data_rx s) (read_buf s) (read_pos s + to_copy), Some (take to_copy rest))
  end.

(** What the application has not read yet. *)
Definition unread (s : UtpStream) : bytes := drop (read_pos s) (read_buf s) ++ concat (data_rx s).

(** * Facts *)

Lemma poll_read_unread n s s' out :
  poll_read n s = (s', out) → unread s = default [] out ++ unread s'.
Proof.
  unfold poll_read. intros H.
  assert (∀ s1, refill s = Some s1 → unread s1 = unread s) as Hr.
  { unfold refill. intros s1. destruct (Nat.leb_spec (length (read_buf s)) (read_pos s)); [|by intros [= ->]].
    destruct s as [[|d rx] buf pos]; [done|]. intros [= <-]. unfold unread. cbn [read_pos read_buf data_rx] in *.
    by rewrite (drop_ge buf) by done. }
  destruct (refill s) as [s1|]; injection H as <- <-; [|done]. rewrite <- (Hr s1) by done.
  unfold unread. cbn [read_pos read_buf data_rx default]. rewrite <- drop_drop.
  cbn [from_option id]. rewrite app_assoc. f_equal. symmetry. apply take_drop.
Qed.

(** ** The first exchange *)

Definition no_failures (e : Env) : Prop := ∀ l p, e_send_fails e l p = false.

Lemma as_u16_range z : in_u16 (as_u16 z).
Proof. unfold as_u16, in_u16. pose proof (Z.mod_pos_bound z (2 ^ 16)). lia. Qed.

Lemma wrapping_add16_ne r d : in_u16 r → 0 < d ≤ u16_max → wrapping_add16 r d ≠ r.
Proof.
  unfold in_u16, wrapping_add16, as_u16. intros Hr Hd E.
  destruct (Z.lt_ge_cases (r + d) (2 ^ 16)).
  - rewrite Z.mod_small in E by lia. lia.
  - replace (r + d) with ((r + d - 2 ^ 16) + 1 * 2 ^ 16) in E by lia. rewrite Z.mod_add, Z.mod_small in E by lia. lia.
Qed.

Lemma send_raw_ok e t seq ack payload c :
  no_failures e → ∃ c', send_raw e t seq ack payload c = (c', Ok tt) ∧ u_state c' = u_state c ∧
    u_conn_id_recv c' = u_conn_id_recv c ∧
    u_sent c' = u_sent c ++ [Header.to_bytes (raw_header e t seq ack c) ++ payload].
Proof.
  intros He. unfold send_raw, sbind, read, modify, socket_send. rewrite He. by eexists.
Qed.

Definition identifiers_ok (c : UtpConnection) : Prop := in_u16 (u_conn_id_send c) ∧ in_u32 (reply_micro (u_cc c)).

Lemma raw_header_ok e t seq ack c :
  identifiers_ok c → in_u16 seq → in_u16 ack → header_ok (raw_header e t seq ack c).
Proof.
  intros [Hid Hr] Hs Ha. pose proof (as_u32_range (e_micros e)).
  unfold header_ok, raw_header, in_u8, in_u16, in_u32 in *. cbn. lia.
Qed.

Lemma connect_ok e random dst :
  no_failures e → in_u16 random →
  ∃ c h, connect e random dst = (c, Ok tt) ∧ u_state c = SynSent ∧ u_conn_id_recv c = random ∧
    u_sent c = [Header.to_bytes h] ∧ header_ok h ∧ version h = UTP_VERSION ∧ utp_type h = StSyn ∧
    connection_id h = wrapping_add16 random 1 ∧ seq_nr h = 2.
Proof.
  intros He Hr. unfold connect, send_packet. cbn [increments_seq_nr]. set (c0 := mk_conn _ _ _ _ _ _ _ _ _ _ _ _ _).
  unfold sbind at 1, read at 1, sbind at 1, modify at 1, sbind at 1, read at 1.
  set (c1 := set_seq_nr _ c0).
  destruct (send_raw_ok e StSyn (u_seq_nr c0) (u_ack_nr c1) [] c1 He) as (c & E & Hst & Hid & Hsent).
  rewrite app_nil_r in Hsent. exists c, (raw_header e StSyn (u_seq_nr c0) (u_ack_nr c1) c1).
  split; [done|]. split; [done|]. split; [done|]. split; [exact Hsent|].
  split; [|done]. apply raw_header_ok; [|by apply (bool_decide_unpack _)..].
  split; [apply as_u16_range|by apply (bool_decide_unpack _)].
Qed.

Lemma accept_incoming_ok e random syn src connections :
  no_failures e → in_u16 random → header_ok syn →
  ∃ c h, accept_incoming e random syn src connections = Ok ({[connection_id syn]} ∪ connections, Some c) ∧
    u_state c = SynRecv ∧ u_conn_id_recv c = connection_id syn ∧
    u_sent c = [Header.to_bytes h] ∧ header_ok h ∧ version h = UTP_VERSION ∧ utp_type h = StState ∧
    connection_id h = wrapping_add16 (connection_id syn) 1.
Proof.
  intros He Hr (_ & _ & _ & _ & _ & _ & Hseq & _). unfold accept_incoming, send_state_response.
  unfold sbind at 1, read at 1, sbind at 1, read at 1. set (c0 := accept e random syn src).
  destruct (send_raw_ok e StState (u_seq_nr c0) (u_ack_nr c0) [] c0 He) as (c & E & Hst & Hid & Hsent).
  rewrite app_nil_r in Hsent. rewrite E. exists c, (raw_header e StState (u_seq_nr c0) (u_ack_nr c0) c0).
  split; [done|]. split; [done|]. split; [done|]. split; [exact Hsent|].
  split; [|done]. apply raw_header_ok; [|done..]. split; [apply as_u16_range|by apply (bool_decide_unpack _)].
Qed.

Lemma dispatch_header connections h :
  header_ok h → version h = UTP_VERSION →
  dispatch connections (Header.to_bytes h) =
    Ok (if bool_decide (connection_id h ∈ connections) then Deliver (connection_id h) h []
        else if bool_decide (utp_type h = StSyn) then AcceptIncoming h
        else if bool_decide (utp_type h = StReset) then NoAction
        else SendReset (send_reset h)).
Proof.
  intros Hok Hv. pose proof (length_header_bytes h) as Hl. unfold dispatch, UTP_HEADER_SIZE, SOCKET_RECV_BUF in *.
  rewrite take_ge by lia. rewrite Hl. cbn [Nat.ltb Nat.leb]. rewrite take_ge, drop_ge by lia.
  rewrite header_from_to by done. by repeat case_bool_decide.
Qed.

Lemma reset_header_ok h :
  header_ok h →
  header_ok {| utp_type := StReset; version := 1; extension := 0; connection_id := connection_id h;
    timestamp_microseconds := 0; timestamp_difference_microseconds := 0; wnd_size := 0;
    seq_nr := ack_nr h; ack_nr := seq_nr h |}.
Proof.
  unfold header_ok, in_u8, in_u16, in_u32. cbn. lia.
Qed.

(** Two of these sockets cannot connect to each other. The initiator puts the successor of its
    receive identifier into its SYN, the responder answers with the successor of what it received,
    and the initiator's socket, which knows its own identifier only, answers the responder's STATE
    packet with a reset, which the responder's socket ignores: no packet of the responder ever
    reaches the initiator's connection. *)
Theorem utp_handshake_is_reset : ∀ e e' random random' src dst,
  in_u16 random → in_u16 random' → no_failures e → no_failures e' →
  ∃ initiator responder syn h state reset,
    connect e random dst = (initiator, Ok tt) ∧ u_sent initiator = [syn] ∧
    dispatch ∅ syn = Ok (AcceptIncoming h) ∧
    accept_incoming e' random' h src ∅ = Ok ({[u_conn_id_recv responder]} ∪ ∅, Some responder) ∧
    u_sent responder = [state] ∧
    dispatch {[u_conn_id_recv initiator]} state = Ok (SendReset reset) ∧
    dispatch {[u_conn_id_recv responder]} reset = Ok NoAction ∧
    u_state initiator = SynSent ∧ u_state responder = SynRecv.
Proof.
  intros e e' random random' src dst Hr Hr' He He'.
  destruct (connect_ok e random dst He Hr) as (ci & syn & Ei & Hsti & Hidi & Hui & Hsyn & Hvs & Hts & Hids & _).
  destruct (accept_incoming_ok e' random' syn src ∅ He' Hr' Hsyn)
    as (cr & st & Er & Hstr & Hidr & Hur & Hst & Hvst & Htst & Hidst).
  exists ci, cr, (Header.to_bytes syn), syn, (Header.to_bytes st), (send_reset st).
  assert (in_u16 (connection_id syn)) as Hcid by apply Hsyn.
  assert (connection_id st ≠ random) as Hne.
  { rewrite Hidst, Hids. unfold wrapping_add16, as_u16 in *. rewrite Zplus_mod_idemp_l.
    replace (random + 1 + 1) with (random + 2) by lia. by apply (wrapping_add16_ne random 2). }
  assert (connection_id st ≠ connection_id syn) as Hne' by (rewrite Hidst; by apply wrapping_add16_ne).
  split_and!; [done..| |by rewrite Hidr|done| | |done|done].
  - rewrite dispatch_header by done. rewrite bool_decide_eq_false_2 by set_solver. by rewrite Hts.
  - rewrite dispatch_header by done. rewrite Hidi, bool_decide_eq_false_2 by set_solver. by rewrite Htst.
  - unfold send_reset. rewrite dispatch_header; [|by apply reset_header_ok|done]. rewrite Hidr.
    cbn [connection_id utp_type]. by rewrite bool_decide_eq_false_2 by set_solver.
Qed.

Lemma utp_handshake_is_reset_witness :
  let e := mk_env 0 5 (λ _ _, false) in
  let a := mk_addr (V4 [127; 0; 0; 1]) 6881 in
  no_failures e ∧
  ∃ initiator responder syn h state reset,
    connect e 65535 a = (initiator, Ok tt) ∧ u_sent initiator = [syn] ∧
    dispatch ∅ syn = Ok (AcceptIncoming h) ∧
    accept_incoming e 9 h a ∅ = Ok ({[u_conn_id_recv responder]} ∪ ∅, Some responder) ∧
    u_sent responder = [state] ∧
    dispatch {[u_conn_id_recv initiator]} state = Ok (SendReset reset) ∧
    dispatch {[u_conn_id_recv responder]} reset = Ok NoAction ∧
    u_state initiator = SynSent ∧ u_state responder = SynRecv.
Proof.
  intros e a. assert (no_failures e) as He by done. split; [done|].
  apply utp_handshake_is_reset; [by apply (bool_decide_unpack _)..|done|done].
Defined.
