(* ===== verification/UtpStream.v ===== *)
(** From the packets of a connection to what its reader gets: the task of a connection, the channel to
    the application and the stream that reads from it, of [UtpSocket], as one system. *)

From stdpp Require Import base numbers list gmap.
From Stdlib Require Import ZArith Lia.
From S2P Require Import Prelude Facts F64 Error Net Step Utp Congestion UtpConnection UtpDelivery UtpSocket.

(** * The system *)

Record TaskSystem : Type := mk_task {
  tk_conn : UtpConnection;
  tk_running : bool;
  tk_stream : UtpStream;
}.

(** Sending into the channel that the stream reads. *)
Definition forward (data : option bytes) (s : UtpStream) : UtpStream :=
  match data with
  | Some d => mk_stream (data_rx s ++ [d]) (read_buf s) (read_pos s)
  | None => s
  end.

Inductive StreamEvent : Type :=
| Turn (e : Env) (ev : TaskEvent)
| PollRead (room : nat).

(** The task has a turn, or the application reads. A task that panics ends. *)
Definition stream_step (ev : StreamEvent) (t : TaskSystem) : TaskSystem * bytes :=
  match ev with
  | Turn e ev =>
      if tk_running t then
        match task_turn e ev (tk_conn t) with
        | (c, Ok (data, go_on)) => (mk_task c go_on (forward data (tk_stream t)), [])
        | (c, _) => (mk_task c false (tk_stream t), [])
        end
      else (t, [])
  | PollRead room =>
      let '(s, out) := poll_read room (tk_stream t) in
      (mk_task (tk_conn t) (tk_running t) s, default [] out)
  end.

(** What the application has read in the end. *)
Fixpoint stream_run (events : list StreamEvent) (t : TaskSystem) : TaskSystem * bytes :=
  match events with
  | [] => (t, [])
  | ev :: events' =>
      let '(t1, out1) := stream_step ev t in
      let '(t2, out2) := stream_run events' t1 in
      (t2, out1 ++ out2)
  end.

(** A connection that was just opened, and nothing read. *)
Definition task_new (c : UtpConnection) : TaskSystem := mk_task c true (mk_stream [] [] 0).

(** * What leaves the receiving side alone *)

Definition receiving_side (c : UtpConnection) := (u_state c, u_ack_nr c, u_recv_buffer c, u_ready_data c).

(** The same without the state. *)
Definition received (c : UtpConnection) := (u_ack_nr c, u_recv_buffer c, u_ready_data c).

Section frames.
Context {V : Type} (view : UtpConnection → V).
Context (Hcc : ∀ x c, view (set_cc x c) = view c) (Hsend : ∀ x c, view (set_send_buffer x c) = view c).
Context (Hseq : ∀ x c, view (set_seq_nr x c) = view c) (Hlast : ∀ x c, view (set_last_activity x c) = view c).
Context (Hsent : ∀ x c, view (add_packet x c) = view c).

Lemma keeps_socket_send e p : keeps view (socket_send e p).
Proof using Hsent. intros c. unfold socket_send. by destruct (e_send_fails _ _ _); [|apply Hsent]. Qed.

Ltac frame_steps :=
  repeat first
    [ apply keeps_ret | apply keeps_lift | apply keeps_read | apply keeps_socket_send
    | apply keeps_modify; intros; solve [auto] | apply keeps_for_each; intros ?
    | apply keeps_bind; [|intros ?] | case_match ].

Lemma keeps_send_raw e t seq ack p : keeps view (send_raw e t seq ack p).
Proof using Hcc Hsend Hlast Hsent. unfold send_raw. frame_steps. Qed.

Lemma keeps_handle_ack e h : keeps view (handle_ack e h).
Proof using Hcc Hsend. unfold handle_ack, ack_packet, handle_selective_ack. frame_steps. Qed.

Lemma keeps_send e d : keeps view (send e d).
Proof using Hcc Hsend Hseq Hlast Hsent. unfold send, send_chunk. frame_steps; try apply keeps_send_raw. Qed.

Lemma keeps_send_packet e t p : keeps view (send_packet e t p).
Proof using Hcc Hsend Hseq Hlast Hsent. unfold send_packet. frame_steps; try apply keeps_send_raw. Qed.

Lemma keeps_check_retransmit e : (∀ x c, view (set_state x c) = view c) → keeps view (check_retransmit e).
Proof using Hcc Hsend Hseq Hlast Hsent.
  intros Hst. unfold check_retransmit, retransmit. frame_steps; try apply keeps_send_packet.
Qed.
End frames.

(** Retransmissions only close. *)
Definition closes {A} (m : conn_step A) : Prop := ∀ c, u_state (m c).1 = u_state c ∨ u_state (m c).1 = Closed.

Lemma closes_keeps {A} (m : conn_step A) : keeps u_state m → closes m.
Proof. intros H c. left. apply H. Qed.

Lemma closes_bind {A B} (m : conn_step A) (k : A → conn_step B) : closes m → (∀ a, closes (k a)) → closes (sbind m k).
Proof.
  intros Hm Hk c. specialize (Hm c). unfold sbind. destruct (m c) as [c' [a|e| |]]; cbn [fst] in *; try done.
  destruct (Hk a c') as [->|?]; [done|by right].
Qed.

Lemma closes_for_each {A} (l : list A) f : (∀ a, closes (f a)) → closes (for_each l f).
Proof.
  intros Hf. induction l as [|a l IH]; [by apply closes_keeps|]. cbn [for_each]. by apply closes_bind.
Qed.

Lemma closes_check_retransmit e : closes (check_retransmit e).
Proof.
  assert (closes (modify (set_state Closed))) as Hc by (intros c; by right).
  assert (∀ A (r : result A), closes (lift r)) as Hl by (intros A r; by apply closes_keeps).
  unfold check_retransmit. apply closes_bind; [by apply closes_keeps|]. intros c0. destruct (_ <? _); [by apply closes_bind|].
  apply closes_bind.
  - apply closes_for_each. intros seq. unfold retransmit. apply closes_bind; [by apply closes_keeps|]. intros buffer.
    apply closes_bind.
    + destruct (buffer !! seq) as [pkt|]; [|by apply closes_keeps]. destruct (_ <=? _); [by apply closes_bind|].
      apply closes_keeps, keeps_bind; [done|]. intros _. apply keeps_bind; [by apply keeps_socket_send|done].
    + intros _. apply closes_bind; [by apply closes_keeps|]. intros cc. apply closes_bind; [done|].
      intros cc'. by apply closes_keeps.
  - intros _. apply closes_bind; [by apply closes_keeps|]. intros c1. destruct (_ && _); [|by apply closes_keeps].
    by apply closes_keeps, keeps_send_packet.
Qed.

(** * In order *)

Section stream.
Context (s0 : Z) (stream : list bytes).
Context (Hs0 : 0 ≤ s0) (Hroom : s0 + zlen stream ≤ u16_max).

(** What may arrive: the packets of the stream, the last of which may be a FIN, packets from before it,
    acknowledgements, resets. *)
Definition remote_packet (h : UtpHeader) (payload : bytes) : Prop :=
  (utp_type h = StState ∨ utp_type h = StReset ∨ utp_type h = StSyn) ∨
  ((utp_type h = StData ∨ utp_type h = StFin) ∧
   (seq_nr h ≤ s0 ∨ ∃ i, stream !! i = Some payload ∧ seq_nr h = seq_of s0 i)).

Definition remote_event (ev : StreamEvent) : Prop :=
  match ev with Turn _ (Incoming h payload) => remote_packet h payload | _ => True end.

(** An initial segment of the stream was received, and, while the connection is [Connected], every
    packet that arrived was delivered or waits for earlier ones. A connection that is no longer
    [Connected] receives no more. *)
Definition kept_order (arrived : nat → Prop) (out : bytes) (c : UtpConnection) : Prop :=
  (∃ k, delivered s0 stream arrived k out c) ∨
  ((u_state c = FinRecv ∨ u_state c = Closed) ∧ ∃ k, out ++ u_ready_data c = concat (take k stream)).

Abbreviation in_order := (kept_order (λ _, False)).

Lemma in_order_segment arrived out c : kept_order arrived out c → ∃ k, out ++ u_ready_data c = concat (take k stream).
Proof using. intros [(k & _ & _ & _ & H & _)|[_ H]]; [by exists k|done]. Qed.

Lemma kept_order_weaken (arrived arrived' : nat → Prop) out c :
  (∀ i, arrived' i → arrived i) → kept_order arrived out c → kept_order arrived' out c.
Proof using.
  intros Hsub [(k & Hk & Hs & Ha & Ho & Hb & Hf)|H]; [left|by right]. exists k. split_and!; try done. auto.
Qed.

(** Nothing is added to what arrived. *)
Lemma kept_order_same (arrived more : nat → Prop) out c :
  (∀ i, ¬ more i) → kept_order arrived out c → kept_order (λ i, arrived i ∨ more i) out c.
Proof using. intros Hno. apply kept_order_weaken. intros i [?|Hm]; [done|by destruct (Hno i)]. Qed.

(** A connection that is over keeps nothing. *)
Lemma kept_order_over arrived arrived' out c :
  u_state c ≠ Connected → kept_order arrived out c → kept_order arrived' out c.
Proof using. intros Hs [(k & _ & ? & _)|H]; [done|by right]. Qed.

(** Whatever keeps the receiving side, or closes it. *)
Lemma in_order_received arrived out c c' :
  received c' = received c → u_state c' = u_state c ∨ u_state c' = Closed →
  kept_order arrived out c → kept_order arrived out c'.
Proof using.
  unfold received. intros [= E1 E2 E3] Hst H. destruct Hst as [Hst|Hst].
  - destruct H as [(k & Hk & Hs & Ha & Ho & Hb & Hf)|[Hs [k Hk]]].
    + left. exists k. unfold delivered. rewrite E1, E2, E3, Hst. by split_and!.
    + right. rewrite E3, Hst. split; [done|by exists k].
  - right. split; [by right|]. rewrite E3. by eapply in_order_segment.
Qed.

Lemma in_order_keeps {A} (m : conn_step A) arrived out c :
  keeps receiving_side m → kept_order arrived out c → kept_order arrived out (m c).1.
Proof using.
  intros Hm. specialize (Hm c). unfold receiving_side in Hm. injection Hm as E1 E2 E3 E4.
  apply in_order_received; [unfold received; by rewrite E2, E3, E4|by left].
Qed.

Lemma in_order_close arrived out c : kept_order arrived out c → kept_order arrived out (set_state Closed c).
Proof using. apply in_order_received; [done|by right]. Qed.

(** [P] holds of the state that [m] leaves, and [Q] if it succeeds. *)
Definition leaves {A} (P Q : UtpConnection → Prop) (x : UtpConnection * result A) : Prop :=
  match x with (c, Ok _) => Q c | (c, _) => P c end.

Lemma in_order_data e h payload arrived out c :
  (seq_nr h ≤ s0 ∨ ∃ i, stream !! i = Some payload ∧ seq_nr h = seq_of s0 i) → kept_order arrived out c →
  u_state c = Connected →
  leaves (kept_order arrived out) (kept_order (λ i, arrived i ∨ seq_nr h = seq_of s0 i) out) (process_data_packet e h payload c).
Proof using Hs0 Hroom.
  intros Hi H Hst. pose proof (in_order_keeps (handle_ack e h) arrived out c) as Ha.
  pose proof (keeps_handle_ack receiving_side (λ _ _, eq_refl) (λ _ _, eq_refl) e h) as Hk. specialize (Ha Hk H).
  pose proof (Hk c) as Hv. unfold process_data_packet, sbind. destruct (handle_ack e h c) as [c1 [[]|err| |]]; cbn [fst] in *; try done.
  unfold receiving_side in Hv. injection Hv as E _ _ _. destruct Ha as [[k Hdel]|[[Hs|Hs] _]]; [|congruence..].
  destruct Hi as [Hold|(i & Hi & Hseq)].
  { replace (accept_data h payload c1) with (c1, Ok tt : result unit).
    - cbn [leaves]. apply kept_order_same; [unfold seq_of; lia|by left; exists k].
    - destruct Hdel as (_ & _ & Hack & _). unfold accept_data, sbind, read, id. by rewrite (proj2 (Z.leb_le _ _)) by lia. }
  destruct (accept_data_ok s0 stream Hs0 Hroom h payload i arrived k out c1 Hdel Hi Hseq) as (c2 & -> & _ & _ & [[k' Hd]|(Hc & _ & Hp)]).
  - apply (kept_order_weaken (λ j, j = i ∨ arrived j)); [|by left; exists k'].
    intros j [?|Hj]; [by right|left]. rewrite Hseq in Hj. unfold seq_of in Hj. lia.
  - right. split; [by right|done].
Qed.

Lemma in_order_fin h arrived arrived' out c : kept_order arrived out c → kept_order arrived' out (handle_fin h c).1.
Proof using.
  intros H. unfold handle_fin, modify. cbn [fst]. conn_simpl. destruct (decide (u_state c = Connected)).
  - right. conn_simpl. split; [by left|by eapply in_order_segment].
  - apply (kept_order_over arrived); [done|]. apply (in_order_received arrived out c); [done|by left|done].
Qed.

Lemma in_order_packet e h payload arrived out c :
  remote_packet h payload → kept_order arrived out c →
  leaves (kept_order arrived out) (kept_order (λ i, arrived i ∨ carries s0 h i) out) (handle_packet e h payload c).
Proof using Hs0 Hroom.
  intros Hp H. unfold handle_packet, sbind, modify, read.
  set (c1 := set_cc _ (set_last_activity (e_now e) c)).
  assert (kept_order arrived out c1) as H1 by exact H. assert (u_state c1 = u_state c) as Est by done. clearbody c1. clear H.
  assert (kept_order arrived out (handle_ack e h c1).1 ∧ u_state (handle_ack e h c1).1 = u_state c1) as [Hack Hst].
  { pose proof (keeps_handle_ack receiving_side (λ _ _, eq_refl) (λ _ _, eq_refl) e h) as Hk.
    split; [by apply in_order_keeps|]. specialize (Hk c1). unfold receiving_side in Hk. by injection Hk. }
  assert (utp_type h ≠ StData → ∀ i, ¬ carries s0 h i) as Hno by (intros Hne i [? _]; done).
  destruct (u_state c1) eqn:E; try (destruct H1 as [(k & _ & H1 & _)|[[H1|H1] _]]; congruence).
  - destruct Hp as [Hp|[Ht Hi]].
    + assert (∀ c', kept_order arrived out c' → kept_order (λ i, arrived i ∨ carries s0 h i) out c') as Hsame.
      { intros c'. apply kept_order_same, Hno. destruct Hp as [->|[->| ->]]; done. }
      destruct Hp as [->|[->| ->]].
      * destruct (handle_ack e h c1) as [c2 [[]|err| |]]; cbn [fst] in *; try done. by apply Hsame.
      * by apply Hsame, in_order_close.
      * by apply Hsame.
    + pose proof (in_order_data e h payload arrived out c1 Hi H1 E) as Hd. destruct Ht as [Ht|Ht]; rewrite Ht.
      * destruct (process_data_packet e h payload c1) as [c2 [[]|err| |]]; cbn [leaves] in *; try done.
        eapply kept_order_weaken; [|exact Hd]. intros i [?|[_ ?]]; [by left|by right].
      * destruct (process_data_packet e h payload c1) as [c2 [[]|err| |]]; cbn [leaves] in *; try done.
        by eapply (in_order_fin h).
  - destruct (handle_ack e h c1) as [c2 [[]|err| |]]; cbn [fst] in *; try done. cbn [leaves].
    apply (kept_order_over arrived) with (arrived' := λ i, arrived i ∨ carries s0 h i) in Hack; [|by rewrite Hst].
    destruct (decide (u_send_buffer c2 = ∅)); [by apply in_order_close|done].
  - cbn [leaves]. by apply (kept_order_over arrived); [rewrite E|].
Qed.

(** What was forwarded is what was read and what waits. *)
Definition sys_in_order (out : bytes) (t : TaskSystem) : Prop := in_order (out ++ unread (tk_stream t)) (tk_conn t).

Lemma unread_forward d s : unread (forward d s) = unread s ++ default [] d.
Proof using.
  destruct d as [d|]; [|by rewrite app_nil_r]. unfold unread, forward. cbn [data_rx read_buf read_pos default].
  rewrite concat_app. cbn. by rewrite app_nil_r, app_assoc.
Qed.

Lemma recv_in_order arrived out c d c' :
  recv c = (c', Ok d) → kept_order arrived out c → kept_order arrived (out ++ d) c' ∧ u_ready_data c' = [].
Proof using.
  unfold recv, sbind, read, modify, sret. intros [= <- <-] [(k & Hk & Hst & Ha & Ho & Hb & Hf)|[Hst [k Hk]]]; (split; [|done]).
  - left. exists k. unfold delivered. conn_simpl. rewrite app_nil_r. by split_and!.
  - right. conn_simpl. split; [done|]. exists k. by rewrite app_nil_r.
Qed.

Definition brings (i : nat) (ev : StreamEvent) : Prop :=
  match ev with Turn _ (Incoming h _) => carries s0 h i | _ => False end.

(** One turn of the task: whatever it ends with, what it forwards follows what was forwarded; if the
    task goes on, the packet of the turn has arrived, and nothing waits in the connection. *)
Lemma task_turn_in_order e ev arrived out c :
  remote_event (Turn e ev) → kept_order arrived out c →
  match task_turn e ev c with
  | (c', Ok (data, go_on)) =>
      kept_order arrived (out ++ default [] data) c' ∧
      (go_on = true → kept_order (λ i, arrived i ∨ brings i (Turn e ev)) (out ++ default [] data) c' ∧
         (u_ready_data c = [] → u_ready_data c' = []))
  | (c', _) => kept_order arrived out c'
  end.
Proof using Hs0 Hroom.
  intros Hev H. unfold task_turn. destruct ev as [h payload|data|]; unfold sbind, sret.
  - pose proof (in_order_packet e h payload arrived out c Hev H) as Hp.
    destruct (handle_packet e h payload c) as [c1 [[]|err| |]]; cbn [leaves default from_option] in *; rewrite ?app_nil_r; try done.
    destruct (recv c1) as [c2 r] eqn:E. pose proof E as E'. unfold recv, sbind, read, modify, sret in E'. injection E' as <- <-.
    apply (recv_in_order (λ i, arrived i ∨ carries s0 h i) out) in E as [E Hready]; [|exact Hp].
    assert (default [] (match u_ready_data c1 with [] => None | _ => Some (u_ready_data c1) end) = u_ready_data c1) as ->.
    { by destruct (u_ready_data c1). }
    split; [|done]. eapply kept_order_weaken; [|exact E]. by left.
  - assert (kept_order arrived out (send e data c).1 ∧ u_ready_data (send e data c).1 = u_ready_data c) as [Hp Hready].
    { pose proof (keeps_send receiving_side) as Hk. specialize (Hk (λ _ _, eq_refl) (λ _ _, eq_refl) (λ _ _, eq_refl) (λ _ _, eq_refl) (λ _ _, eq_refl) e data).
      split; [by apply in_order_keeps|]. specialize (Hk c). unfold receiving_side in Hk. by injection Hk. }
    destruct (send e data c) as [c1 [x|err| |]]; cbn [fst default from_option] in *; rewrite ?app_nil_r; try done.
    split; [done|]. intros _. split; [by apply kept_order_same; [intros ? []|]|congruence].
  - assert (kept_order arrived out (check_retransmit e c).1 ∧ u_ready_data (check_retransmit e c).1 = u_ready_data c) as [Hp Hready].
    { pose proof (keeps_check_retransmit received) as Hk.
      specialize (Hk (λ _ _, eq_refl) (λ _ _, eq_refl) (λ _ _, eq_refl) (λ _ _, eq_refl) (λ _ _, eq_refl) e (λ _ _, eq_refl) c).
      split; [by apply (in_order_received arrived out c); [|apply closes_check_retransmit|]|]. unfold received in Hk. by injection Hk. }
    destruct (check_retransmit e c) as [c1 [x|err| |]]; cbn [fst default from_option] in *; rewrite ?app_nil_r; try done.
    split; [done|]. intros _. split; [by apply kept_order_same; [intros ? []|]|congruence].
Qed.

Lemma stream_step_in_order ev t out :
  remote_event ev → sys_in_order out t → sys_in_order (out ++ (stream_step ev t).2) (stream_step ev t).1.
Proof using Hs0 Hroom.
  unfold sys_in_order. intros Hev H. destruct ev as [e ev|room]; cbn [stream_step].
  - destruct (tk_running t); [|by rewrite app_nil_r]. pose proof (task_turn_in_order e ev _ _ _ Hev H) as Ht.
    destruct (task_turn e ev (tk_conn t)) as [c [[data go]|err| |]]; cbn [fst snd tk_conn tk_stream]; rewrite ?app_nil_r; try done.
    rewrite unread_forward, app_assoc. apply Ht.
  - destruct (poll_read room (tk_stream t)) as [s d] eqn:E. cbn [fst snd tk_conn tk_stream].
    by rewrite <- app_assoc, <- (poll_read_unread _ _ _ _ E).
Qed.

Lemma stream_run_in_order events t out :
  Forall remote_event events → sys_in_order out t →
  sys_in_order (out ++ (stream_run events t).2) (stream_run events t).1.
Proof using Hs0 Hroom.
  intros Hev. revert t out. induction Hev as [|ev events Hev _ IH]; intros t out H; cbn [stream_run].
  { by rewrite app_nil_r. }
  pose proof (stream_step_in_order ev t out Hev H) as H1. destruct (stream_step ev t) as [t1 out1]. cbn [fst snd] in H1.
  specialize (IH t1 _ H1). destruct (stream_run events t1) as [t2 out2]. cbn [fst snd] in *. by rewrite app_assoc.
Qed.

(** ** Completely *)

(** While the task runs, nothing waits in the connection, and what arrived is kept. *)
Definition sys_arrived (arrived : nat → Prop) (out : bytes) (t : TaskSystem) : Prop :=
  tk_running t = true → u_ready_data (tk_conn t) = [] ∧ kept_order arrived (out ++ unread (tk_stream t)) (tk_conn t).

Lemma stream_step_arrived arrived ev t out :
  remote_event ev → sys_arrived arrived out t →
  sys_arrived (λ i, arrived i ∨ brings i ev) (out ++ (stream_step ev t).2) (stream_step ev t).1.
Proof using Hs0 Hroom.
  unfold sys_arrived. intros Hev H. destruct ev as [e ev|room]; cbn [stream_step].
  - destruct (tk_running t) eqn:Hrun; [|cbn [fst]; congruence]. destruct (H eq_refl) as [Hready Ho].
    pose proof (task_turn_in_order e ev _ _ _ Hev Ho) as Ht.
    destruct (task_turn e ev (tk_conn t)) as [c [[data go]|err| |]]; cbn [fst snd tk_conn tk_stream tk_running]; try done.
    intros ->. destruct Ht as [_ Ht]. destruct (Ht eq_refl) as [Hk Hr]. split; [by apply Hr|].
    by rewrite app_nil_r, unread_forward, app_assoc.
  - destruct (poll_read room (tk_stream t)) as [s d] eqn:E. cbn [fst snd tk_conn tk_stream tk_running].
    intros Hrun. destruct (H Hrun) as [Hready Ho]. split; [done|].
    rewrite <- app_assoc, <- (poll_read_unread _ _ _ _ E). by apply kept_order_same; [intros ? []|].
Qed.

Lemma stream_run_arrived events arrived t out :
  Forall remote_event events → sys_arrived arrived out t →
  sys_arrived (λ i, arrived i ∨ Exists (brings i) events) (out ++ (stream_run events t).2) (stream_run events t).1.
Proof using Hs0 Hroom.
  intros Hev. revert arrived t out. induction Hev as [|ev events Hev _ IH]; intros arrived t out H; cbn [stream_run].
  { rewrite app_nil_r. intros Hrun. destruct (H Hrun) as [? Ho]. split; [done|].
    apply kept_order_same; [|exact Ho]. by intros i ?%Exists_nil. }
  pose proof (stream_step_arrived arrived ev t out Hev H) as H1. destruct (stream_step ev t) as [t1 out1]. cbn [fst snd] in H1.
  specialize (IH _ t1 _ H1). destruct (stream_run events t1) as [t2 out2]. cbn [fst snd] in *. rewrite app_assoc.
  intros Hrun. destruct (IH Hrun) as [? Ho]. split; [done|]. eapply kept_order_weaken; [|exact Ho].
  intros i [?|[?|?]%Exists_cons]; [by left; left|by left; right|by right].
Qed.

(** All packets arrived: everything was delivered. *)
Lemma all_delivered (arrived : nat → Prop) k out c :
  fits stream → (∀ i, (i < length stream)%nat → arrived i) → delivered s0 stream arrived k out c →
  u_ack_nr c = s0 + zlen stream ∧ out ++ u_ready_data c = concat stream.
Proof using.
  intros Hf Hall (Hk & _ & Hack & Hout & Hbuf & Harr).
  assert (k = length stream) as ->; [|by rewrite firstn_all in Hout].
  destruct (decide (k = length stream)) as [|Hne]; [done|]. exfalso.
  destruct (Harr Hf k) as [?|[d Hd]]; [apply Hall; lia|lia|].
  destruct (Hbuf _ _ Hd) as (i & Hi & E & _). unfold seq_of in E. lia.
Qed.

(** Packets of the remote while the clock runs, and reads. *)
Definition calm_event (t0 : Z) (ev : StreamEvent) : Prop :=
  match ev with
  | Turn e (Incoming h payload) => clock_ok t0 e ∧ packet_ok s0 stream h payload
  | Turn _ _ => False
  | PollRead _ => True
  end.

Definition sys_receiving (t0 n : Z) (arrived : nat → Prop) (out : bytes) (t : TaskSystem) : Prop :=
  tk_running t = true ∧ u_ready_data (tk_conn t) = [] ∧
  receiving t0 n s0 stream arrived (out ++ unread (tk_stream t)) (tk_conn t).

Lemma receiving_open t0 n arrived out c : fits stream → receiving t0 n s0 stream arrived out c → u_state c = Connected.
Proof using. intros Hf [_ [(k & _ & H & _)|(_ & Hn & _)]]; done. Qed.

Lemma stream_step_receiving t0 n arrived ev t out :
  fits stream → calm_event t0 ev → sys_receiving t0 n arrived out t →
  sys_receiving t0 n (λ i, arrived i ∨ brings i ev) (out ++ (stream_step ev t).2) (stream_step ev t).1.
Proof using Hs0 Hroom.
  intros Hf Hev (Hrun & Hready & H). destruct ev as [e [h payload| |]|room]; cbn [stream_step]; try done.
  - destruct Hev as [Hclock Hp]. rewrite Hrun.
    pose proof (handle_packet_ok t0 n s0 stream Hs0 Hroom e h payload arrived _ _ Hclock Hp H) as Hh. unfold swp in Hh.
    unfold task_turn, sbind. destruct (handle_packet e h payload (tk_conn t)) as [c1 [[]|err| |]]; try done.
    pose proof (recv_ok t0 n s0 stream _ _ _ Hh) as Hr. unfold swp in Hr. unfold recv, sbind, read, modify, sret in Hr |- *.
    pose proof (receiving_open _ _ _ _ _ Hf Hr) as Hst. rewrite Hst. rewrite bool_decide_false by done.
    split; [done|]. split; [done|]. cbn [tk_conn tk_stream fst snd]. rewrite app_nil_r, unread_forward, app_assoc.
    cbn [brings]. destruct (u_ready_data c1); exact Hr.
  - destruct (poll_read room (tk_stream t)) as [s d] eqn:E. cbn [fst snd]. split; [done|]. split; [done|].
    cbn [tk_conn tk_stream]. rewrite <- app_assoc, <- (poll_read_unread _ _ _ _ E).
    apply (receiving_weaken _ _ _ _ arrived); [done|]. by intros i [?|[]].
Qed.

Lemma stream_run_receiving t0 n events arrived t out :
  fits stream → Forall (calm_event t0) events → sys_receiving t0 n arrived out t →
  sys_receiving t0 n (λ i, arrived i ∨ Exists (brings i) events) (out ++ (stream_run events t).2) (stream_run events t).1.
Proof using Hs0 Hroom.
  intros Hf Hev. revert arrived t out. induction Hev as [|ev events Hev _ IH]; intros arrived t out H; cbn [stream_run].
  - rewrite app_nil_r. destruct H as (? & ? & H). split; [done|]. split; [done|].
    apply (receiving_weaken _ _ _ _ arrived); [done|]. intros i [?|Hi]; [done|]. by apply Exists_nil in Hi.
  - pose proof (stream_step_receiving t0 n arrived ev t out Hf Hev H) as H1. destruct (stream_step ev t) as [t1 out1]. cbn [fst snd] in H1.
    specialize (IH _ t1 _ H1). destruct (stream_run events t1) as [t2 out2]. cbn [fst snd] in *.
    destruct IH as (? & ? & IH). rewrite app_assoc. split; [done|]. split; [done|].
    apply (receiving_weaken _ _ _ _ _ _ _ _ IH). intros i [?|[?|?]%Exists_cons]; [by left; left|by left; right|by right].
Qed.
End stream.

Abbreviation in_order s0 stream := (kept_order s0 stream (λ _, False)).

(** What was in order stays in order when the remote writes more. *)
Lemma in_order_prefix s0 stream more out c : in_order s0 stream out c → in_order s0 (stream ++ more) out c.
Proof.
  assert (∀ k, (k ≤ length stream)%nat → take k (stream ++ more) = take k stream) as Htake by (intros; by apply take_app_le).
  intros [(k & Hk & Hst & Ha & Ho & Hb & _)|[Hst [k Hk]]].
  - left. exists k. unfold delivered. rewrite length_app, Htake by done. split_and!; [lia|done..| |by intros].
    intros seq d Hd. destruct (Hb seq d Hd) as (i & ? & ? & ?). exists i. split_and!; [done..|]. by apply lookup_app_l_Some.
  - right. split; [done|]. destruct (Nat.le_gt_cases k (length stream)); [exists k; by rewrite Htake|].
    exists (length stream). rewrite Htake, firstn_all by done. by rewrite take_ge in Hk by lia.
Qed.

Lemma opened_in_order s0 stream c :
  u_state c = Connected → u_ack_nr c = s0 → u_recv_buffer c = ∅ → u_ready_data c = [] → in_order s0 stream [] c.
Proof.
  intros Hst Ha Hb Hr. left. exists O. unfold delivered. rewrite Hst, Ha, Hb, Hr.
  split_and!; [lia|done|lia|done| |by intros]. intros seq d. by rewrite lookup_empty.
Qed.

(** * Properties *)

(** C32: the reader of a uTP stream reads what the remote wrote, in order. Whatever happens to a
    connection that was just opened, packets of the remote lost, repeated, reordered and late, a FIN or a
    reset at any time, acknowledgements, writes of the application, timeouts, retransmissions and sends
    that fail, and however the application reads: what it has read, followed by what waits to be read
    and what waits in the connection, is an initial segment of what the remote wrote, as long as the
    sequence numbers of its packets stay below 65536. *)
Theorem utp_stream_in_order : ∀ s0 stream events c,
  u_state c = Connected → u_ack_nr c = s0 → u_recv_buffer c = ∅ → u_ready_data c = [] →
  0 ≤ s0 → s0 + zlen stream ≤ u16_max → Forall (remote_event s0 stream) events →
  let '(t, out) := stream_run events (task_new c) in
  ∃ k, out ++ unread (tk_stream t) ++ u_ready_data (tk_conn t) = concat (take k stream).
Proof.
  intros s0 stream events c Hst Ha Hb Hr Hs0 Hroom Hev.
  assert (sys_in_order s0 stream [] (task_new c)) as H by by apply opened_in_order.
  pose proof (stream_run_in_order s0 stream Hs0 Hroom events _ _ Hev H) as Hx.
  destruct (stream_run events (task_new c)) as [t out]. cbn [fst snd] in Hx.
  destruct (in_order_segment _ _ _ _ _ Hx) as [k Hk]. exists k. by rewrite app_assoc.
Qed.

(** C33: the reader of a uTP stream gets all of it. The stream is at most 2 MiB, and its sequence numbers
    stay below 65536 (past that [stream_stops_at_65535] holds). Whatever else happens to a connection
    that was just opened, as in C32, once every packet of the stream has arrived at least once, in
    whatever order: if the task still runs and the connection is still [Connected], every packet is
    acknowledged, and what the application has read, followed by what it can read without waiting, is
    the whole stream. And the task still runs and is [Connected] if only data packets and
    acknowledgements arrived, within six days, without writes and timeouts. *)
Theorem utp_stream_complete : ∀ s0 stream events c,
  u_state c = Connected → u_ack_nr c = s0 → u_recv_buffer c = ∅ → u_ready_data c = [] →
  0 ≤ s0 → s0 + zlen stream ≤ u16_max → fits stream →
  Forall (remote_event s0 stream) events → (∀ i, (i < length stream)%nat → Exists (brings s0 i) events) →
  let '(t, out) := stream_run events (task_new c) in
  (tk_running t = true → u_state (tk_conn t) = Connected →
     u_ack_nr (tk_conn t) = s0 + zlen stream ∧ out ++ unread (tk_stream t) = concat stream) ∧
  (∀ t0 n, fresh_receiver t0 n s0 c → Forall (calm_event s0 stream t0) events →
     tk_running t = true ∧ u_state (tk_conn t) = Connected).
Proof.
  intros s0 stream events c Hst Ha Hb Hr Hs0 Hroom Hf Hev Hall.
  assert (sys_arrived s0 stream (λ _, False) [] (task_new c)) as H.
  { intros _. split; [done|]. by apply opened_in_order. }
  pose proof (stream_run_arrived s0 stream Hs0 Hroom events _ _ _ Hev H) as Hx.
  assert (∀ t0 n, fresh_receiver t0 n s0 c → Forall (calm_event s0 stream t0) events →
    tk_running (stream_run events (task_new c)).1 = true ∧
    u_state (tk_conn (stream_run events (task_new c)).1) = Connected) as Hcalm.
  { intros t0 n Hc Hce. assert (sys_receiving s0 stream t0 n (λ _, False) [] (task_new c)) as H0.
    { split; [done|]. split; [apply Hc|]. by apply fresh_receiving. }
    pose proof (stream_run_receiving s0 stream Hs0 Hroom t0 n events _ _ _ Hf Hce H0) as (Hrun & _ & Hrec).
    split; [done|]. by eapply receiving_open. }
  destruct (stream_run events (task_new c)) as [t out]. cbn [fst snd] in *. split; [|exact Hcalm].
  intros Hrun Hs. destruct (Hx Hrun) as [Hready [[k Hk]|[[?|?] _]]]; [|congruence..].
  apply all_delivered in Hk as [Hack Hout]; [|done|by right; apply Hall].
  by rewrite Hready, app_nil_r in Hout.
Qed.

Definition sample_turn (t : UtpType) (i : nat) : StreamEvent :=
  Turn (mk_env (1000 + Z.of_nat i) 5 (λ _ _, false))
    (Incoming (Header.new t 7 (seq_of 100 i) 1) (default [] (sample_stream !! i))).

(** Out of order, with a write, a tick of the timer, reads and an early FIN. *)
Definition sample_task : list StreamEvent :=
  [sample_turn StData 1; sample_turn StData 0; PollRead 2; Turn (mk_env 2000 5 (λ _ _, false)) (Outgoing [9; 9]);
   sample_turn StData 0; Turn (mk_env 3000 5 (λ _ _, true)) Tick; PollRead 10; sample_turn StFin 2; sample_turn StData 2].

Lemma utp_stream_in_order_witness :
  let '(t, out) := stream_run sample_task (task_new sample_conn) in
  out = [1; 2; 3] ∧ ∃ k, out ++ unread (tk_stream t) ++ u_ready_data (tk_conn t) = concat (take k sample_stream).
Proof.
  pose proof (utp_stream_in_order 100 sample_stream sample_task sample_conn eq_refl eq_refl eq_refl eq_refl) as H.
  assert (snd (stream_run sample_task (task_new sample_conn)) = [1; 2; 3]) as E by (vm_compute; reflexivity).
  destruct (stream_run sample_task (task_new sample_conn)) as [t out]. cbn [snd] in E. split; [exact E|].
  apply H; [lia|by vm_compute|].
  unfold sample_task. repeat (apply List.Forall_cons; [|]); try exact I; [..|constructor]; cbn [remote_event sample_turn];
    right; (split; [first [by left|by right]|right]).
  - by exists 1%nat. - by exists 0%nat. - by exists 0%nat. - by exists 2%nat. - by exists 2%nat.
Defined.

(** The packets out of order, with a write, a tick of the timer, reads and a repeated packet. *)
Definition sample_busy : list StreamEvent :=
  [sample_turn StData 2; Turn (mk_env 1500 5 (λ _ _, false)) (Outgoing [9; 9]); sample_turn StData 0; PollRead 1;
   Turn (mk_env 2000 5 (λ _ _, true)) Tick; sample_turn StData 0; sample_turn StData 1].

Lemma utp_stream_complete_witness :
  let '(t, out) := stream_run sample_busy (task_new sample_conn) in
  out = [1] ∧ out ++ unread (tk_stream t) = [1; 2; 3; 4; 5; 6].
Proof.
  pose proof (utp_stream_complete 100 sample_stream sample_busy sample_conn eq_refl eq_refl eq_refl eq_refl) as H.
  assert ((stream_run sample_busy (task_new sample_conn)).2 = [1]) as E by (vm_compute; reflexivity).
  assert (tk_running (stream_run sample_busy (task_new sample_conn)).1 = true) as Hrun by (vm_compute; reflexivity).
  assert (u_state (tk_conn (stream_run sample_busy (task_new sample_conn)).1) = Connected) as Hst by (vm_compute; reflexivity).
  destruct (stream_run sample_busy (task_new sample_conn)) as [t out]. cbn [fst snd] in E, Hrun, Hst. split; [exact E|].
  destruct H as [H _]; [lia|by vm_compute| | | |exact (proj2 (H Hrun Hst))].
  - unfold fits, MAX_READY_BYTES. apply Nat2Z.inj_le. rewrite Z2Nat.id; by vm_compute.
  - unfold sample_busy. repeat (apply List.Forall_cons; [|]); try exact I; [..|constructor]; cbn [remote_event sample_turn];
      right; (split; [by left|right]).
    + by exists 2%nat. + by exists 0%nat. + by exists 0%nat. + by exists 1%nat.
  - intros i Hi. apply Exists_exists. exists (sample_turn StData i).
    destruct i as [|[|[|i]]]; cbn in Hi; [..|lia]; (split; [|by split]); unfold sample_busy; repeat (first [by left|right]).
Defined.

(** Sequence numbers are compared as numbers, without wrapping: once number 65535 was received, every
    packet counts as one that was received before, and the stream stands still. *)
Lemma stream_stops_at_65535 e h payload c :
  u_ack_nr c = u16_max → in_u16 (seq_nr h) → receiving_side (process_data_packet e h payload c).1 = receiving_side c.
Proof.
  intros Ha Hs. pose proof (keeps_handle_ack receiving_side (λ _ _, eq_refl) (λ _ _, eq_refl) e h c) as Hk.
  unfold process_data_packet, sbind. destruct (handle_ack e h c) as [c1 [[]|err| |]]; cbn [fst] in *; try done.
  rewrite <- Hk. unfold receiving_side in Hk. injection Hk as _ E _ _.
  unfold accept_data, sbind, read, id. rewrite E, Ha. unfold in_u16 in Hs. by rewrite (proj2 (Z.leb_le _ _)) by lia.
Qed.
