(* ===== verification/UtpSender.v ===== *)
(** The sending side of a connection of the micro transport protocol: every packet that
    [crates/torrent/src/peer/utp/connection.rs] hands to the socket, now or when it sends it again,
    belongs to the stream that was written. *)

From stdpp Require Import base numbers list gmap.
From Stdlib Require Import ZArith Lia.
From S2P Require Import Prelude Facts F64 Error Net Step Utp UtpFacts Congestion UtpConnection UtpDelivery UtpSocket.
From S2P Require Import UtpStream.

(** * What the congestion control says to the packets *)

Definition cc_wire (cc : UtpCongestionControl) : Prop :=
  in_u32 (max_window cc) ∧ packet_size cc ≤ 10 * MIN_PACKET_SIZE ∧ in_u32 (reply_micro cc).

Lemma cc_wire_new : cc_wire cc_new.
Proof. apply (bool_decide_unpack _). vm_compute. exact I. Qed.

Lemma cc_wire_add n cc : cc_wire cc → cc_wire (add_in_flight n cc).
Proof. done. Qed.

Lemma cc_wire_remove n cc : cc_wire cc → cc_wire (remove_in_flight n cc).
Proof. done. Qed.

Lemma cc_wire_delay reply now cc : in_u32 reply → cc_wire cc → cc_wire (update_delay reply now cc).
Proof. intros Hr (? & ? & _). by split_and!. Qed.

Lemma cc_wire_window w cc :
  in_u32 w → cc_wire cc → cc_wire (update_packet_size (set_window w cc)).
Proof.
  intros Hw (_ & _ & Hr). split_and!; [done| |done]. by apply (packet_size_bounds (set_window w cc)).
Qed.

Lemma cc_wire_adjust cc : cc_wire cc → cc_wire (adjust_window cc).
Proof.
  intros H. pose proof H as (Hm & Hp & Hr). unfold adjust_window, MIN_PACKET_SIZE, in_u32 in *.
  destruct (_ =? _).
  - split_and!; [|done..]. unfold in_u32. cbn [max_window set_window]. lia.
  - apply cc_wire_window; [|done]. pose proof (as_u32_range (Z.max 0 (Z.max i64_min (Z.min i64_max (max_window cc + scaled_gain cc))))).
    unfold in_u32 in *. lia.
Qed.

Lemma cc_wire_rtt ms cc cc' : update_rtt ms cc = Ok cc' → cc_wire cc → cc_wire cc'.
Proof.
  unfold update_rtt. intros E H. destruct (rtt cc =? 0);
    (destruct (_ <=? _); [|done]; cbn [obind] in E; destruct (checked_add_panic _ _ _); try done;
     cbn [obind] in E; by injection E as <-).
Qed.

Lemma cc_wire_timeout cc cc' : on_timeout cc = Ok cc' → cc_wire cc → cc_wire cc'.
Proof.
  unfold on_timeout. intros E (Hm & Hp & Hr). destruct (checked_add_panic _ _ _); try done. injection E as <-.
  split_and!; [by apply (bool_decide_unpack _)|by apply (bool_decide_unpack _)|done].
Qed.

(** * The packets of a stream *)

Section sending.
Context (s0 : Z).

(** A packet of a stream whose first element has the number after [s0]: control packets, data from
    before, and the elements. *)
Definition on_wire (stream : list bytes) (packet : bytes) : Prop :=
  ∃ h payload, packet = Header.to_bytes h ++ payload ∧ header_ok h ∧ version h = UTP_VERSION ∧
    ((utp_type h = StState ∨ utp_type h = StReset ∨ utp_type h = StSyn) ∨
     ((utp_type h = StData ∨ utp_type h = StFin) ∧
      (seq_nr h ≤ s0 ∨
       ∃ i, stream !! i = Some payload ∧ seq_nr h = as_u16 (seq_of s0 i) ∧ (length payload ≤ 1500)%nat))).

Lemma on_wire_more stream more packet : on_wire stream packet → on_wire (stream ++ more) packet.
Proof using.
  intros (h & payload & E & Hok & Hv & Ht). exists h, payload. split_and!; [done..|].
  destruct Ht as [?|[? [?|(i & Hi & ?)]]]; [by left|right; split; [done|by left]|].
  right. split; [done|]. right. exists i. split; [by apply lookup_app_l_Some|done].
Qed.

(** The connection has put the elements of [stream] on the wire, and whatever it will send again is on
    it already. *)
Record sending (stream : list bytes) (c : UtpConnection) : Prop := {
  sg_seq : u_seq_nr c = as_u16 (s0 + 1 + zlen stream);
  sg_open : u_state c ≠ SynSent ∧ u_state c ≠ SynRecv;
  sg_sent : Forall (on_wire stream) (u_sent c);
  sg_again : ∀ seq p, u_send_buffer c !! seq = Some p → on_wire stream (sp_data p);
  sg_id : in_u16 (u_conn_id_send c);
  sg_ack : in_u16 (u_ack_nr c);
  sg_cc : cc_wire (u_cc c);
}.

Lemma sending_more stream more c :
  sending stream c →
  sending (stream ++ more) (set_seq_nr (as_u16 (s0 + 1 + zlen (stream ++ more))) c).
Proof using.
  intros [H1 H2 H3 H4 H5 H6 H7]. split; conn_simpl; try done.
  - eapply Forall_impl; [exact H3|]. intros p. apply on_wire_more.
  - intros seq p Hp. by eapply on_wire_more, H4.
Qed.

(** ** The pieces of the operations *)

(** From a state that was read back to the step. *)
Ltac at_state c Hc := match goal with |- ?P (fst (?m c)) => cut (preserves P m); [intros Hstep; exact (Hstep c Hc)|] end.

Lemma preserves_state stream st :
  st ≠ SynSent → st ≠ SynRecv → preserves (sending stream) (modify (set_state st)).
Proof using. intros Hn1 Hn2. apply preserves_modify. intros c H. destruct H. by split. Qed.

Lemma preserves_cc stream f : (∀ cc, cc_wire cc → cc_wire (f cc)) → preserves (sending stream) (modify (λ c, set_cc (f (u_cc c)) c)).
Proof using. intros Hf. apply preserves_modify. intros c H. destruct H. split; conn_simpl; try done. by apply Hf. Qed.

Lemma preserves_forget stream seq : preserves (sending stream) (modify (λ c, set_send_buffer (delete seq (u_send_buffer c)) c)).
Proof using.
  apply preserves_modify. intros c H. destruct H as [? ? ? H4 ? ? ?]. split; conn_simpl; try done. intros s p [_ Hp]%lookup_delete_Some. by eapply H4.
Qed.

Lemma preserves_again stream seq p :
  on_wire stream (sp_data p) → preserves (sending stream) (modify (λ c, set_send_buffer (<[seq:=p]> (u_send_buffer c)) c)).
Proof using.
  intros Hp. apply preserves_modify. intros c H. destruct H as [? ? ? H4 ? ? ?]. split; conn_simpl; try done. intros s q Hq.
  destruct (decide (s = seq)) as [->|]; [|rewrite lookup_insert_ne in Hq by done; by eapply H4].
  rewrite lookup_insert_eq in Hq. by injection Hq as <-.
Qed.

Lemma preserves_socket_send stream e p : on_wire stream p → preserves (sending stream) (socket_send e p).
Proof using.
  intros Hp c H. unfold socket_send. destruct (e_send_fails _ _ _); [done|]. destruct H as [? ? H3 ? ? ? ?].
  split; conn_simpl; try done. apply Forall_app. split; [done|by constructor].
Qed.

Lemma preserves_set_cc stream cc : cc_wire cc → preserves (sending stream) (modify (set_cc cc)).
Proof using. intros Hc. apply preserves_modify. intros c H. destruct H. by split. Qed.

Lemma preserves_set_ack stream a : in_u16 a → preserves (sending stream) (modify (set_ack_nr a)).
Proof using. intros Ha. apply preserves_modify. intros c H. destruct H. by split. Qed.

(** What the sender does not look at. *)
Lemma preserves_frame stream f :
  (∀ c, (u_seq_nr (f c), u_state (f c), u_sent (f c), u_send_buffer (f c), u_conn_id_send (f c), u_ack_nr (f c), u_cc (f c))
        = (u_seq_nr c, u_state c, u_sent c, u_send_buffer c, u_conn_id_send c, u_ack_nr c, u_cc c)) →
  preserves (sending stream) (modify f).
Proof using.
  intros Hf. apply preserves_modify. intros c H. specialize (Hf c). injection Hf as E1 E2 E3 E4 E5 E6 E7.
  destruct H. by split; rewrite ?E1, ?E2, ?E3, ?E4, ?E5, ?E6, ?E7.
Qed.

Lemma preserves_send_raw stream e t seq ack payload :
  (∀ c, sending stream c → on_wire stream (Header.to_bytes (raw_header e t seq ack c) ++ payload)) →
  preserves (sending stream) (send_raw e t seq ack payload).
Proof using.
  intros Hw. unfold send_raw. apply preserves_read_bind. intros c Hc. specialize (Hw c Hc). at_state c Hc.
  apply preserves_bind; [by apply preserves_cc|intros _].
  apply preserves_bind; [by apply preserves_again|intros _].
  apply preserves_bind; [by apply preserves_socket_send|intros _]. by apply preserves_frame.
Qed.

(** ** Receiving *)

Lemma preserves_ack_packet stream e seq : preserves (sending stream) (ack_packet e seq).
Proof using.
  unfold ack_packet. apply preserves_bind; [by apply preserves_read|intros buffer].
  destruct (buffer !! seq) as [pkt|]; [|by apply preserves_ret].
  apply preserves_bind; [by apply preserves_forget|intros _]. apply preserves_read_bind. intros c Hc. at_state c Hc.
  apply preserves_lift_bind. intros cc' E. apply preserves_set_cc, cc_wire_remove. pose proof (sg_cc _ _ Hc) as Hcc.
  destruct (sp_rtt_measurable pkt); [by eapply cc_wire_rtt|by injection E as <-].
Qed.

Lemma preserves_handle_ack stream e h : preserves (sending stream) (handle_ack e h).
Proof using.
  unfold handle_ack. apply preserves_bind; [by apply preserves_read|intros buffer].
  apply preserves_bind; [apply preserves_for_each; intros seq; apply preserves_ack_packet|intros _].
  apply preserves_bind; [by destruct (_ =? _); apply preserves_ret|intros _].
  apply preserves_cc, cc_wire_adjust.
Qed.

Lemma drain_loop_sending stream fuel next c c' :
  in_u16 next → drain_loop fuel next c = Ok c' → sending stream c → sending stream c'.
Proof using.
  revert next c. induction fuel as [|fuel IH]; intros next c Hn; cbn [drain_loop];
    (destruct (u_recv_buffer c !! next) as [d|]; [|by intros [= <-]]); [done|].
  destruct (_ <? _)%nat; [intros [= <-] []; by split|].
  intros H Hs. eapply IH; [|exact H|]; [apply as_u16_range|]. destruct Hs. by split.
Qed.

Lemma preserves_accept_data stream h payload : preserves (sending stream) (accept_data h payload).
Proof using.
  unfold accept_data. apply preserves_read_bind. intros c Hc. unfold id.
  destruct (_ <=? _); [done|]. destruct (Z.eqb_spec (seq_nr h) (wrapping_add16 (u_ack_nr c) 1)) as [E|_].
  - destruct (_ <? _)%nat; [by apply preserves_state|]. at_state c Hc.
    apply preserves_bind; [apply preserves_set_ack; rewrite E; apply as_u16_range|intros _].
    apply preserves_bind; [by apply preserves_frame|intros _]. clear c E Hc. intros c Hc. unfold drain_recv_buffer.
    destruct (drain_loop _ _ c) as [c'|err| |] eqn:E; [|done..]. eapply drain_loop_sending; [|exact E|exact Hc]. apply as_u16_range.
  - destruct (_ <? _); [|done]. apply (preserves_frame stream (λ c, set_recv_buffer (<[seq_nr h:=payload]> (u_recv_buffer c)) c)); [|done]. done.
Qed.

Lemma preserves_process_data stream e h payload : preserves (sending stream) (process_data_packet e h payload).
Proof using. apply preserves_bind; [apply preserves_handle_ack|intros _; apply preserves_accept_data]. Qed.

Lemma preserves_handle_fin stream h : preserves (sending stream) (handle_fin h).
Proof using.
  apply preserves_modify. intros c H. destruct H. cbn zeta. conn_simpl. destruct (decide (u_state c = Connected)); by split.
Qed.

Lemma preserves_handle_packet stream e h payload :
  header_ok h → preserves (sending stream) (handle_packet e h payload).
Proof using.
  intros (_ & _ & _ & _ & Hd & _ & _ & _). unfold handle_packet.
  apply preserves_bind; [by apply preserves_frame|intros _].
  apply preserves_bind; [apply preserves_cc; intros cc; by apply cc_wire_delay|intros _].
  apply preserves_read_bind. intros c Hc. pose proof (sg_open _ _ Hc) as [H1 H2].
  destruct (u_state c); try done; clear H1 H2; revert c Hc.
  - destruct (utp_type h); [apply preserves_process_data| |apply preserves_handle_ack|by apply preserves_state|by apply preserves_ret].
    apply preserves_bind; [apply preserves_process_data|intros _; apply preserves_handle_fin].
  - apply preserves_bind; [|intros _; apply preserves_handle_ack].
    destruct (utp_type h); try apply preserves_ret; by apply preserves_state.
  - apply preserves_bind; [apply preserves_handle_ack|intros _]. apply preserves_modify. intros c H.
    destruct (decide _); [|done]. destruct H. by split.
Qed.

(** ** Sending again *)

Lemma preserves_retransmit stream e seq : preserves (sending stream) (retransmit e seq).
Proof using.
  unfold retransmit. apply preserves_read_bind. intros c Hc. at_state c Hc. apply preserves_bind.
  - destruct (u_send_buffer c !! seq) as [pkt|] eqn:Hp; [|by apply preserves_ret]. pose proof (sg_again _ _ Hc seq pkt Hp) as Hw.
    destruct (_ <=? _); [apply preserves_bind; [by apply preserves_state|intros _; by apply preserves_lift]|].
    apply preserves_bind; [by apply preserves_forget|intros _].
    apply preserves_bind; [by apply preserves_socket_send|intros _]. by apply preserves_again.
  - intros _. clear c Hc. apply preserves_read_bind. intros c Hc. at_state c Hc.
    apply preserves_lift_bind. intros cc' E. apply preserves_set_cc. eapply cc_wire_timeout; [exact E|apply Hc].
Qed.

Lemma preserves_check_retransmit stream e : preserves (sending stream) (check_retransmit e).
Proof using.
  unfold check_retransmit. apply preserves_bind; [by apply preserves_read|intros c0].
  destruct (_ <? _); [apply preserves_bind; [by apply preserves_state|intros _; by apply preserves_lift]|].
  apply preserves_bind; [apply preserves_for_each; intros seq; apply preserves_retransmit|intros _].
  apply preserves_read_bind. intros c Hc. unfold id. rewrite (bool_decide_eq_false_2 (u_state c = SynSent)) by apply Hc.
  exact Hc.
Qed.

(** ** Sending *)

Lemma raw_header_wire stream e t seq ack c :
  sending stream c → in_u16 seq → in_u16 ack →
  header_ok (raw_header e t seq ack c) ∧ version (raw_header e t seq ack c) = UTP_VERSION.
Proof using. intros H Hs Ha. split; [|done]. apply raw_header_ok; [|done..]. split; [apply H|apply (sg_cc _ _ H)]. Qed.

(** A chunk becomes the next element of the stream, sent or not. *)
Lemma send_chunk_sending stream e chunk c :
  (length chunk ≤ 1500)%nat → sending stream c → sending (stream ++ [chunk]) (send_chunk e chunk c).1.
Proof using.
  intros Hl Hc. unfold send_chunk, sbind at 1 2 3, read, modify. conn_simpl.
  assert (wrapping_add16 (u_seq_nr c) 1 = as_u16 (s0 + 1 + zlen (stream ++ [chunk]))) as E.
  { rewrite (sg_seq _ _ Hc). unfold wrapping_add16, as_u16, zlen. rewrite length_app, Zplus_mod_idemp_l. cbn [length]. f_equal. lia. }
  rewrite E. apply preserves_send_raw; [|by apply sending_more]. intros c' Hc'.
  destruct (raw_header_wire (stream ++ [chunk]) e StData (u_seq_nr c) (u_ack_nr c) c' Hc') as [Hh Hv];
    [rewrite (sg_seq _ _ Hc); apply as_u16_range|apply Hc|].
  exists (raw_header e StData (u_seq_nr c) (u_ack_nr c) c'), chunk. split_and!; [done..|]. right. split; [by left|].
  right. exists (length stream). split; [by apply list_lookup_middle|]. split; [|done]. cbn [seq_nr raw_header].
  rewrite (sg_seq _ _ Hc). unfold seq_of, zlen. f_equal.
Qed.

Lemma send_chunks_sending e parts : ∀ stream c,
  Forall (λ p, (length p ≤ 1500)%nat) parts → sending stream c →
  ∃ n, sending (stream ++ take n parts) (for_each parts (send_chunk e) c).1 ∧
    (is_ok (for_each parts (send_chunk e) c).2 = true → take n parts = parts).
Proof using.
  induction parts as [|p parts IH]; intros stream c Hl Hc; [exists O; by rewrite app_nil_r|].
  apply Forall_cons in Hl as [Hp Hl]. pose proof (send_chunk_sending stream e p c Hp Hc) as H. cbn [for_each]. unfold sbind.
  destruct (send_chunk e p c) as [c' [[]|err| |]]; cbn [fst snd is_ok] in *;
    [|exists 1%nat; cbn; by split..].
  destruct (IH _ _ Hl H) as (n & Hn & Hok). exists (S n). cbn [take]. rewrite <- app_assoc in Hn. split; [done|].
  intros Hr. by rewrite Hok.
Qed.

(** How many packets a write can take. *)
Definition packets_of (data : bytes) : nat := (length data + 149) / 150.

Lemma chunks_bounds n (data : bytes) :
  (150 ≤ n)%nat → Forall (λ p, (length p ≤ n)%nat) (chunks n data) ∧ (length (chunks n data) ≤ packets_of data)%nat.
Proof using.
  intros Hn. remember (length data) as m eqn:Em. revert data Em. induction (lt_wf m) as [m _ IH]. intros data ->.
  destruct (decide (data = [])) as [->|Hne]; [by split; [constructor|cbn; lia]|].
  rewrite chunks_cons by (done || lia).
  assert (0 < length data)%nat by (destruct data; [done|cbn; lia]).
  destruct (IH (length (drop n data))) with (data := drop n data) as [H1 H2]; [rewrite length_drop; lia|done|].
  split; [constructor; [rewrite length_take; lia|done]|]. cbn [length]. unfold packets_of in *. rewrite length_drop in H2.
  destruct (Nat.le_gt_cases n (length data)).
  - replace (length data + 149)%nat with (length data - n + 149 + (n - 150) + 1 * 150)%nat by lia. rewrite Nat.div_add by lia.
    assert ((length data - n + 149) / 150 ≤ (length data - n + 149 + (n - 150)) / 150)%nat by (apply Nat.Div0.div_le_mono; lia). lia.
  - replace (length data - n)%nat with O in H2 by lia. cbn in H2.
    assert (1 * 150 / 150 ≤ (length data + 149) / 150)%nat by (apply Nat.Div0.div_le_mono; lia). cbn in *. lia.
Qed.

(** What [send] adds to the stream is an initial segment of the data, and all of it unless it fails. *)
Lemma send_sending stream e data c :
  sending stream c →
  ∃ more, sending (stream ++ more) (send e data c).1 ∧ (length more ≤ packets_of data)%nat ∧
    concat more `prefix_of` data ∧ (is_ok (send e data c).2 = true → concat more = data).
Proof using.
  intros Hc. unfold send, sbind, read, id, lift, sret. destruct (negb _).
  { exists []. rewrite app_nil_r. split_and!; [done|cbn; lia|apply prefix_nil|done]. }
  set (size := Z.to_nat (Z.max (packet_size (u_cc c)) 150)).
  assert (150 ≤ size ≤ 1500)%nat as Hsize by (pose proof (sg_cc _ _ Hc) as (_ & Hp & _); unfold MIN_PACKET_SIZE in Hp; lia).
  destruct (chunks_bounds size data) as [Hl Hn]; [lia|].
  destruct (send_chunks_sending e (chunks size data) stream c) as (n & Hs & Hok);
    [eapply Forall_impl; [exact Hl|]; cbn; lia|done|].
  assert (concat (chunks size data) = data) as Hd by (apply concat_chunks; lia).
  assert (concat (take n (chunks size data)) `prefix_of` data) as Hpre.
  { exists (concat (drop n (chunks size data))). by rewrite <- concat_app, take_drop. }
  exists (take n (chunks size data)). destruct (for_each _ _ c) as [c' [[]|err| |]]; cbn [fst snd is_ok] in *;
    (split; [done|]; split; [rewrite length_take; lia|]; split; [done|intros Hr; try done]).
  by rewrite Hok.
Qed.
End sending.
