(* ===== verification/UtpNode.v ===== *)
(** The socket with all its connections, [crates/torrent/src/peer/utp/socket.rs] and
    [crates/torrent/src/peer/utp/stream.rs], and two of them joined by a network that loses, repeats,
    reorders and adds datagrams: what the application reads from a connection is what the other side's
    application wrote. *)

From stdpp Require Import base numbers list gmap relations.
From Stdlib Require Import ZArith Lia.
From S2P Require Import Prelude Facts F64 Error Net Step Utp UtpFacts Congestion UtpConnection UtpDelivery UtpSocket.
From S2P Require Import UtpStream UtpSender.

(** * The socket *)

(** A connection: its identifier in the map of the socket, the channels of packets and of data to send
    that its task reads, and the task with the stream. The last two fields log what the application
    wrote and read. *)
Record UtpTask : Type := mk_utp_task {
  ut_id : Z;
  ut_packets : list (UtpHeader * bytes);
  ut_data : list bytes;
  ut_sys : TaskSystem;
  ut_wrote : list bytes;
  ut_read : bytes;
}.

Definition set_ut_packets (x : list (UtpHeader * bytes)) (t : UtpTask) : UtpTask :=
  mk_utp_task (ut_id t) x (ut_data t) (ut_sys t) (ut_wrote t) (ut_read t).
Definition set_ut_data (x : list bytes) (t : UtpTask) : UtpTask :=
  mk_utp_task (ut_id t) (ut_packets t) x (ut_sys t) (ut_wrote t) (ut_read t).
Definition set_ut_sys (x : TaskSystem) (t : UtpTask) : UtpTask :=
  mk_utp_task (ut_id t) (ut_packets t) (ut_data t) x (ut_wrote t) (ut_read t).

(** [connections] maps a receive identifier to the channel of a task; [resets] is the log of what the
    socket itself sends. *)
Record SocketState : Type := mk_socket {
  connections : gmap Z nat;
  tasks : list UtpTask;
  listening : bool;
  resets : list (SocketAddr * bytes);
}.

Definition set_connections (x : gmap Z nat) (s : SocketState) : SocketState :=
  mk_socket x (tasks s) (listening s) (resets s).
Definition set_tasks (x : list UtpTask) (s : SocketState) : SocketState :=
  mk_socket (connections s) x (listening s) (resets s).

(** [bind], of an address that is free. *)
Definition bind : SocketState := mk_socket ∅ [] true [].

(** The channels of a new connection and its task. *)
Definition start_task (c : UtpConnection) : UtpTask := mk_utp_task (u_conn_id_recv c) [] [] (task_new c) [] [].

Definition add_connection (c : UtpConnection) (s : SocketState) : SocketState :=
  set_tasks (tasks s ++ [start_task c])
    (set_connections (<[u_conn_id_recv c := length (tasks s)]> (connections s)) s).

(** [UtpSocket::connect]: the handle is the number of the task. *)
Definition connect_to (e : Env) (random : Z) (remote_addr : SocketAddr) (s : SocketState)
  : SocketState * result nat :=
  match connect e random remote_addr with
  | (c, Ok _) => (add_connection c s, Ok (length (tasks s)))
  | (_, Err err) => (s, Err err)
  | (_, Panic) => (s, Panic)
  | (_, NoFuel) => (s, NoFuel)
  end.

(** [tx.send(incoming)]; a task that has ended dropped its receiver. *)
Definition send_to_task (k : nat) (h : UtpHeader) (payload : bytes) (s : SocketState) : SocketState :=
  set_tasks (alter (λ t, if tk_running (ut_sys t) then set_ut_packets (ut_packets t ++ [(h, payload)]) t else t)
               k (tasks s)) s.

(** One turn of [recv_loop]; a panic ends it. *)
Definition on_packet (e : Env) (random : Z) (datagram : bytes) (src : SocketAddr) (s : SocketState)
  : SocketState :=
  if listening s then
    match dispatch (dom (connections s)) datagram with
    | Ok NoAction => s
    | Ok (Deliver conn_id h payload) =>
        match connections s !! conn_id with Some k => send_to_task k h payload s | None => s end
    | Ok (AcceptIncoming syn) =>
        match accept_incoming e random syn src (dom (connections s)) with
        | Ok (_, Some c) => add_connection c s
        | Ok (_, None) => set_connections (delete (connection_id syn) (connections s)) s
        | _ => mk_socket (connections s) (tasks s) false (resets s)
        end
    | Ok (SendReset packet) => mk_socket (connections s) (tasks s) true (resets s ++ [(src, packet)])
    | _ => mk_socket (connections s) (tasks s) false (resets s)
    end
  else s.

(** What the [select!] of [connection_task] waits for. *)
Inductive TaskInput : Type := FromSocket | FromApplication | FromTimer.

Definition next_event (input : TaskInput) (t : UtpTask) : option (TaskEvent * UtpTask) :=
  match input with
  | FromSocket =>
      match ut_packets t with
      | (h, payload) :: rest => Some (Incoming h payload, set_ut_packets rest t)
      | [] => None
      end
  | FromApplication =>
      match ut_data t with
      | data :: rest => Some (Outgoing data, set_ut_data rest t)
      | [] => None
      end
  | FromTimer => Some (Tick, t)
  end.

(** The loop of [connection_task] was left by a [break], so that the connection is removed from the map. *)
Definition leaves_loop {A} (r : result (A * bool)) : bool :=
  match r with Ok (_, go_on) => negb go_on | _ => false end.

(** One turn of the loop of [connection_task], with what follows its end. *)
Definition run_task (e : Env) (input : TaskInput) (k : nat) (s : SocketState) : SocketState :=
  match tasks s !! k with
  | None => s
  | Some t =>
      if tk_running (ut_sys t) then
        match next_event input t with
        | None => s
        | Some (ev, t') =>
            let r := (task_turn e ev (tk_conn (ut_sys t))).2 in
            let s := set_tasks (<[k := set_ut_sys (stream_step (Turn e ev) (ut_sys t)).1 t']> (tasks s)) s in
            if leaves_loop r then set_connections (delete (ut_id t) (connections s)) s else s
        end
      else s
  end.

(** * The stream's other methods *)

(** [poll_write]: everything goes into the channel, unless the task has ended. *)
Definition poll_write (data : bytes) (t : UtpTask) : UtpTask * result nat :=
  if tk_running (ut_sys t) then
    (mk_utp_task (ut_id t) (ut_packets t) (ut_data t ++ [data]) (ut_sys t) (ut_wrote t ++ [data]) (ut_read t),
     Ok (length data))
  else (t, Err PeerUtpConnectionFailed).

Definition poll_flush (t : UtpTask) : UtpTask * result unit := (t, Ok tt).
Definition poll_shutdown (t : UtpTask) : UtpTask * result unit := (t, Ok tt).

(** A read, with its result in the log. *)
Definition read_from (room : nat) (t : UtpTask) : UtpTask :=
  let '(sys, out) := stream_step (PollRead room) (ut_sys t) in
  mk_utp_task (ut_id t) (ut_packets t) (ut_data t) sys (ut_wrote t) (ut_read t ++ out).

(** * What can happen at a socket *)

Inductive SocketEvent : Type :=
| Datagram (e : Env) (random : Z) (datagram : bytes) (src : SocketAddr)
| RecvFails
| ConnectTo (e : Env) (random : Z) (dst : SocketAddr)
| RunTask (e : Env) (input : TaskInput) (k : nat)
| Write (data : bytes) (k : nat)
| Read (room : nat) (k : nat).

Definition socket_step (ev : SocketEvent) (s : SocketState) : SocketState :=
  match ev with
  | Datagram e random datagram src => on_packet e random datagram src s
  | RecvFails => mk_socket (connections s) (tasks s) false (resets s)
  | ConnectTo e random dst => (connect_to e random dst s).1
  | RunTask e input k => run_task e input k s
  | Write data k => set_tasks (alter (λ t, (poll_write data t).1) k (tasks s)) s
  | Read room k => set_tasks (alter (read_from room) k (tasks s)) s
  end.

(** * One task among the others *)

Inductive task_change (s : SocketState) (k : nat) : SocketEvent → UtpTask → UtpTask → Prop :=
| Nothing ev t : task_change s k ev t t
| Delivered e random d src id h payload t :
    dispatch (dom (connections s)) d = Ok (Deliver id h payload) → connections s !! id = Some k →
    task_change s k (Datagram e random d src) t (set_ut_packets (ut_packets t ++ [(h, payload)]) t)
| Turned e input tev t t1 :
    tk_running (ut_sys t) = true → next_event input t = Some (tev, t1) →
    task_change s k (RunTask e input k) t (set_ut_sys (stream_step (Turn e tev) (ut_sys t)).1 t1)
| Written data t : task_change s k (Write data k) t (poll_write data t).1
| WasRead room t : task_change s k (Read room k) t (read_from room t).

(** What an event does to a task that exists. *)
Definition changes (k : nat) (ev : SocketEvent) (s s' : SocketState) (t : UtpTask) : Prop :=
  ∃ t', tasks s' !! k = Some t' ∧ task_change s k ev t t'.

Lemma unchanged k ev s s' t : tasks s !! k = Some t → tasks s' = tasks s → changes k ev s s' t.
Proof. intros Ht E. exists t. split; [by rewrite E|constructor]. Qed.

Lemma add_connection_changes k ev c s t : tasks s !! k = Some t → changes k ev s (add_connection c s) t.
Proof. intros Ht. exists t. split; [by apply lookup_app_l_Some|constructor]. Qed.

Lemma alter_changes k j f ev s t :
  tasks s !! k = Some t → (j = k → task_change s k ev t (f t)) → changes k ev s (set_tasks (alter f j (tasks s)) s) t.
Proof.
  intros Ht Hf. destruct (decide (j = k)) as [->|Hne].
  - exists (f t). split; [|by apply Hf]. cbn [tasks set_tasks]. by rewrite list_lookup_alter_eq, Ht.
  - exists t. split; [|constructor]. cbn [tasks set_tasks]. by rewrite list_lookup_alter_ne.
Qed.

Lemma socket_step_changes k ev s t : tasks s !! k = Some t → changes k ev s (socket_step ev s) t.
Proof.
  intros Ht. destruct ev as [e random d src| |e random dst|e input j|data j|room j]; cbn [socket_step].
  - unfold on_packet. destruct (listening s); [|by apply unchanged].
    destruct (dispatch (dom (connections s)) d) as [[|id h payload|syn|packet]| | |] eqn:Ed; try by apply unchanged.
    + destruct (connections s !! id) as [j|] eqn:Ej; [|by apply unchanged]. apply alter_changes; [done|]. intros ->.
      destruct (tk_running (ut_sys t)); [by eapply Delivered|constructor].
    + destruct (accept_incoming e random syn src _) as [[conns [c|]]| | |]; [by apply add_connection_changes|by apply unchanged..].
  - by apply unchanged.
  - unfold connect_to. destruct (connect e random dst) as [c [u|err| |]]; [by apply add_connection_changes|by apply unchanged..].
  - unfold run_task. destruct (tasks s !! j) as [tj|] eqn:Hj; [|by apply unchanged].
    destruct (tk_running (ut_sys tj)) eqn:Hrun; [|by apply unchanged].
    destruct (next_event input tj) as [[tev t1]|] eqn:En; [|by apply unchanged].
    set (s1 := set_tasks _ s). assert (changes k (RunTask e input j) s s1 t) as (t' & Ht' & Hc).
    { destruct (decide (j = k)) as [->|Hne].
      - rewrite Ht in Hj. injection Hj as <-. eexists. split; [|by eapply Turned]. cbn [tasks s1 set_tasks].
        rewrite list_lookup_insert_eq; [done|]. by eapply lookup_lt_Some.
      - exists t. split; [|constructor]. cbn [tasks s1 set_tasks]. by rewrite list_lookup_insert_ne. }
    exists t'. split; [|done]. by destruct (leaves_loop _).
  - apply alter_changes; [done|]. intros ->. constructor.
  - apply alter_changes; [done|]. intros ->. constructor.
Qed.

Lemma next_event_id input t tev t1 : next_event input t = Some (tev, t1) → ut_id t1 = ut_id t.
Proof.
  destruct input; cbn [next_event]; [destruct (ut_packets t) as [|[h p] l]|destruct (ut_data t)|]; by intros [= <- <-] || done.
Qed.

Lemma poll_write_id data t : ut_id (poll_write data t).1 = ut_id t.
Proof. unfold poll_write. by destruct (tk_running _). Qed.

Lemma task_change_id s k ev t t' : task_change s k ev t t' → ut_id t' = ut_id t.
Proof.
  intros []; cbn [ut_id set_ut_packets set_ut_sys]; try done; [by eapply next_event_id|apply poll_write_id|].
  unfold read_from. by destruct (stream_step _ _).
Qed.

(** The map of the socket leads to tasks of the right identifier. *)
Definition registry_ok (s : SocketState) : Prop :=
  ∀ id k, connections s !! id = Some k → ∃ t, tasks s !! k = Some t ∧ ut_id t = id.

Lemma add_connection_registry c s : registry_ok s → registry_ok (add_connection c s).
Proof.
  intros H id k. cbn [connections tasks add_connection set_tasks set_connections].
  destruct (decide (id = u_conn_id_recv c)) as [->|Hne].
  - rewrite lookup_insert_eq. intros [= <-]. exists (start_task c). split; [by apply list_lookup_middle|done].
  - rewrite lookup_insert_ne by done. intros Hk. destruct (H id k Hk) as (t & Ht & Hid). exists t.
    split; [by apply lookup_app_l_Some|done].
Qed.

Lemma registry_shrinks s s' :
  registry_ok s → connections s' ⊆ connections s → (∀ k t, tasks s !! k = Some t → ∃ t', tasks s' !! k = Some t' ∧ ut_id t' = ut_id t) →
  registry_ok s'.
Proof.
  intros H Hsub Ht id k Hk. destruct (H id k) as (t & Hk' & Hid); [by eapply lookup_weaken|].
  destruct (Ht k t Hk') as (t' & ? & ?). exists t'. split; [done|congruence].
Qed.

Lemma socket_step_registry ev s : registry_ok s → registry_ok (socket_step ev s).
Proof.
  intros H. assert (∀ k t, tasks s !! k = Some t → ∃ t', tasks (socket_step ev s) !! k = Some t' ∧ ut_id t' = ut_id t) as Ht.
  { intros k t Hk. destruct (socket_step_changes k ev s t Hk) as (t' & ? & Hc). exists t'. split; [done|by eapply task_change_id]. }
  pose proof (registry_shrinks s (socket_step ev s) H) as Hsh. destruct ev as [e random d src| |e random dst|e input j|data j|room j];
    cbn [socket_step] in *; try by apply Hsh.
  - unfold on_packet in *. destruct (listening s); [|by apply Hsh].
    destruct (dispatch _ _) as [[|id h payload|syn|packet]| | |]; try by apply Hsh.
    + destruct (connections s !! id); by apply Hsh.
    + destruct (accept_incoming _ _ _ _ _) as [[conns [c|]]| | |]; try by apply Hsh.
      * by apply add_connection_registry.
      * apply Hsh; [apply delete_subseteq|done].
  - unfold connect_to in *. destruct (connect _ _ _) as [c [u|err| |]]; try by apply Hsh. by apply add_connection_registry.
  - unfold run_task in *. destruct (tasks s !! j) as [tj|]; [|by apply Hsh]. destruct (tk_running _); [|by apply Hsh].
    destruct (next_event input tj) as [[tev t1]|]; [|by apply Hsh].
    destruct (leaves_loop _); apply Hsh; try done. apply delete_subseteq.
Qed.

(** * From the wire to the channel of a task *)

Lemma dispatch_deliver conns d id h payload :
  dispatch conns d = Ok (Deliver id h payload) →
  Header.from_bytes (take 20 d) = Ok h ∧ connection_id h = id ∧ payload = take 4076 (drop 20 d) ∧ (20 ≤ length d)%nat.
Proof.
  unfold dispatch, SOCKET_RECV_BUF. destruct (Nat.ltb_spec (length (take 4096 d)) 20) as [|Hl]; [done|].
  rewrite length_take in Hl. rewrite take_take, Nat.min_l by lia.
  destruct (Header.from_bytes (take 20 d)) as [h'|err| |]; try done.
  repeat case_bool_decide; try done. intros [= <- <- <-]. split_and!; [done|done| |lia].
  by rewrite skipn_firstn_comm.
Qed.

Lemma deliver_header_ok conns d id h payload :
  bytes_ok d → dispatch conns d = Ok (Deliver id h payload) → header_ok h.
Proof.
  intros Hd Hdisp. apply dispatch_deliver in Hdisp as (Hh & _ & _ & Hl).
  apply (header_to_from (take 20 d) h); [rewrite length_take; unfold UTP_HEADER_SIZE; lia|by apply Forall_take|done].
Qed.

(** A packet of the stream arrives as it was sent. *)
Lemma wire_arrives s0 stream conns d id h payload :
  0 ≤ s0 → s0 + zlen stream ≤ u16_max → on_wire s0 stream d →
  dispatch conns d = Ok (Deliver id h payload) → remote_packet s0 stream h payload.
Proof.
  intros Hs0 Hroom (h' & p & -> & Hok & Hv & Ht) Hdisp. apply dispatch_deliver in Hdisp as (Hh & _ & -> & _).
  pose proof (length_header_bytes h') as Hl. unfold UTP_HEADER_SIZE in Hl.
  rewrite take_app_le, take_ge, header_from_to in Hh by (done || lia). injection Hh as <-.
  rewrite drop_app_ge, Hl by lia. replace (20 - 20)%nat with O by lia. rewrite drop_0.
  destruct Ht as [Ht|(Ht & Hs)]; [by left|right]. split; [done|]. destruct Hs as [Hs|(i & Hi & Hs & Hp)]; [by left|right].
  exists i. rewrite take_ge by lia. split; [done|]. rewrite Hs. unfold seq_of, as_u16 in *.
  apply lookup_lt_Some in Hi. unfold zlen in Hroom. apply Z.mod_small. lia.
Qed.

(** * The side that writes *)

Definition packets (writes : list bytes) : nat := sum_list (map packets_of writes).

Lemma packets_app a b : packets (a ++ b) = (packets a + packets b)%nat.
Proof. unfold packets. by rewrite map_app, sum_list_with_app || rewrite map_app; induction (map packets_of a); cbn; lia. Qed.

(** What the task has put on the wire is an initial segment of what was written after [w0], and, as long
    as it runs, the rest waits in its channel. *)
Record writing (s0 : Z) (w0 stream : list bytes) (t : UtpTask) : Prop := {
  wr_sending : sending s0 stream (tk_conn (ut_sys t));
  wr_packets : Forall (λ p, header_ok p.1) (ut_packets t);
  wr_wrote : ∃ w, ut_wrote t = w0 ++ w ∧ concat stream `prefix_of` concat w ∧
    (tk_running (ut_sys t) = true → concat stream ++ concat (ut_data t) = concat w) ∧
    (length stream + packets (ut_data t) ≤ packets w)%nat;
}.

(** A turn of the task. *)
Lemma task_turn_sending s0 stream e ev c :
  match ev with Incoming h _ => header_ok h | _ => True end → sending s0 stream c →
  ∃ more, sending s0 (stream ++ more) (task_turn e ev c).1 ∧
    match ev with
    | Outgoing data =>
        (length more ≤ packets_of data)%nat ∧ concat more `prefix_of` data ∧
        (is_ok (send e data c).2 = true → concat more = data)
    | _ => more = []
    end.
Proof.
  intros Hev Hc. unfold task_turn. destruct ev as [h payload|data|].
  - exists []. rewrite app_nil_r. split; [|done].
    pose proof (preserves_handle_packet s0 stream e h payload Hev c Hc) as H. unfold sbind.
    destruct (handle_packet e h payload c) as [c1 [[]|err| |]]; cbn [fst] in *; try done.
    unfold recv, sbind, read, modify, sret. cbn [fst]. by apply (preserves_frame s0 stream (set_ready_data [])).
  - destruct (send_sending s0 stream e data c Hc) as (more & H & Hrest). exists more. split; [|done]. unfold sbind.
    by destruct (send e data c) as [c1 [x|err| |]].
  - exists []. rewrite app_nil_r. split; [|done]. pose proof (preserves_check_retransmit s0 stream e c Hc) as H. unfold sbind.
    by destruct (check_retransmit e c) as [c1 [x|err| |]].
Qed.

(** The connection after a turn, and whether the task still runs. *)
Lemma stream_step_turn e ev t :
  tk_running t = true →
  tk_conn (stream_step (Turn e ev) t).1 = (task_turn e ev (tk_conn t)).1 ∧
  (tk_running (stream_step (Turn e ev) t).1 = true → is_ok (task_turn e ev (tk_conn t)).2 = true ∧
     match ev with Outgoing data => is_ok (send e data (tk_conn t)).2 = true | _ => True end) ∧
  (stream_step (Turn e ev) t).2 = [].
Proof.
  intros Hr. cbn [stream_step]. rewrite Hr. unfold task_turn.
  destruct ev as [h payload|data|]; unfold sbind;
    [destruct (handle_packet e h payload _) as [c1 [x|err| |]]
    |destruct (send e data _) as [c1 [x|err| |]]|destruct (check_retransmit e _) as [c1 [x|err| |]]]; by repeat split.
Qed.

Lemma writing_changes s0 w0 stream s k ev t t' :
  match ev with Datagram _ _ d _ => bytes_ok d | _ => True end →
  task_change s k ev t t' → writing s0 w0 stream t → ∃ more, writing s0 w0 (stream ++ more) t'.
Proof.
  intros Hev Hc [Hs Hp (w & Hw & Hpre & Hrun & Hlen)]. destruct Hc as [ev t|e random d src id h payload t Hd _|e input tev t t1 Hr Hn|data t|room t].
  - exists []. rewrite app_nil_r. split; [done..|by exists w].
  - exists []. rewrite app_nil_r. split; [done| |by exists w]. apply Forall_app. split; [done|]. constructor; [|done].
    by eapply deliver_header_ok.
  - destruct (stream_step_turn e tev (ut_sys t) Hr) as (Ec & Eok & _).
    destruct (task_turn_sending s0 stream e tev (tk_conn (ut_sys t))) as (more & Hs' & Hmore); [|done|].
    { destruct input; cbn [next_event] in Hn; [destruct (ut_packets t) as [|[h p] l]|destruct (ut_data t)|]; try done;
        injection Hn as <- <-; [|done..]. by apply Forall_cons in Hp as [Hh _]. }
    exists more. destruct input; cbn [next_event] in Hn.
    + destruct (ut_packets t) as [|[h p] l] eqn:El; [done|]. injection Hn as <- <-. subst more. rewrite app_nil_r in *.
      apply Forall_cons in Hp as [_ Hp]. split; cbn [ut_sys ut_packets ut_wrote ut_data set_ut_sys set_ut_packets]; [by rewrite Ec|done|].
      exists w. split_and!; [done|done|by intros _; apply Hrun|done].
    + destruct (ut_data t) as [|data l] eqn:El; [done|]. injection Hn as <- <-. destruct Hmore as (Hml & Hmp & Hmd).
      split; cbn [ut_sys ut_packets ut_wrote ut_data set_ut_sys set_ut_data]; [by rewrite Ec|done|].
      exists w. specialize (Hrun Hr). cbn [concat] in Hrun. rewrite concat_app. split_and!; [done| | |].
      * rewrite <- Hrun. apply prefix_app. etrans; [exact Hmp|]. by exists (concat l).
      * intros Hr'. destruct (Eok Hr') as [_ Hok]. rewrite (Hmd Hok). by rewrite <- app_assoc.
      * rewrite length_app. change (packets (data :: l)) with (packets_of data + packets l)%nat in Hlen. lia.
    + injection Hn as <- <-. subst more. rewrite app_nil_r in *. split; cbn [ut_sys ut_packets ut_wrote ut_data set_ut_sys]; [by rewrite Ec|done|].
      exists w. split_and!; [done|done|by intros _; apply Hrun|done].
  - exists []. rewrite app_nil_r. unfold poll_write. destruct (tk_running (ut_sys t)) eqn:Hr; [|split; [done..|exists w; cbn [fst]; rewrite Hr; done]].
    split; cbn [ut_sys ut_packets ut_wrote ut_data fst]; [done..|]. specialize (Hrun eq_refl).
    exists (w ++ [data]). rewrite !concat_app, !packets_app, Hw, <- Hrun, <- app_assoc. cbn [concat]. rewrite app_nil_r.
    split_and!; [done|by apply prefix_app_r, prefix_app_r|by intros _; rewrite app_assoc|lia].
  - exists []. rewrite app_nil_r. unfold read_from. cbn [stream_step]. destruct (poll_read room _) as [st out].
    split; [done..|by exists w].
Qed.

(** * The side that reads *)

Definition reading (s0 : Z) (stream : list bytes) (t : UtpTask) : Prop :=
  sys_in_order s0 stream (ut_read t) (ut_sys t) ∧ Forall (λ p, remote_packet s0 stream p.1 p.2) (ut_packets t).

Lemma remote_packet_more s0 stream more h payload : remote_packet s0 stream h payload → remote_packet s0 (stream ++ more) h payload.
Proof.
  intros [?|[? [?|(i & Hi & ?)]]]; [by left|right; split; [done|by left]|].
  right. split; [done|]. right. exists i. split; [by apply lookup_app_l_Some|done].
Qed.

Lemma reading_more s0 stream more t : reading s0 stream t → reading s0 (stream ++ more) t.
Proof.
  intros [H Hp]. split; [by apply in_order_prefix|]. eapply Forall_impl; [exact Hp|]. intros p. apply remote_packet_more.
Qed.

Lemma reading_changes s0 stream s k ev t t' :
  0 ≤ s0 → s0 + zlen stream ≤ u16_max →
  (∀ e r d src id h payload, ev = Datagram e r d src → dispatch (dom (connections s)) d = Ok (Deliver id h payload) →
     connections s !! id = Some k → on_wire s0 stream d) →
  task_change s k ev t t' → reading s0 stream t → reading s0 stream t'.
Proof.
  intros Hs0 Hroom Hev Hc [H Hp]. destruct Hc as [ev t|e random d src id h payload t Hd Hk|e input tev t t1 Hr Hn|data t|room t].
  - by split.
  - split; [done|]. apply Forall_app. split; [done|]. constructor; [|done]. by eapply wire_arrives; [..|by eapply Hev|].
  - destruct (stream_step_turn e tev (ut_sys t) Hr) as (_ & _ & Eout).
    assert (remote_event s0 stream (Turn e tev)) as Hrem.
    { destruct input; cbn [next_event] in Hn; [destruct (ut_packets t) as [|[h p] l]|destruct (ut_data t)|]; try done;
        injection Hn as <- <-; try exact I. by apply Forall_cons in Hp as [Hh _]. }
    pose proof (stream_step_in_order s0 stream Hs0 Hroom _ _ _ Hrem H) as H'. rewrite Eout, app_nil_r in H'.
    destruct input; cbn [next_event] in Hn; [destruct (ut_packets t) as [|[h p] l] eqn:El|destruct (ut_data t)|]; try done;
      injection Hn as <- <-; (split; [exact H'|cbn [ut_packets set_ut_sys set_ut_data set_ut_packets]]); [|done..].
    by apply Forall_cons in Hp as [_ ?].
  - unfold poll_write. by destruct (tk_running (ut_sys t)).
  - pose proof (stream_step_in_order s0 stream Hs0 Hroom (PollRead room) _ _ I H) as H'. unfold read_from.
    destruct (stream_step (PollRead room) (ut_sys t)) as [sys out]. by split.
Qed.

(** * Two sockets and a network *)

Section network.
Context (k l : nat).

Definition is_bytes (ev : SocketEvent) : Prop := match ev with Datagram _ _ d _ => bytes_ok d | _ => True end.

(** A datagram that carries the identifier of the reading connection was sent by the writing one, at
    some time; the network may lose, repeat, reorder and keep it. *)
Definition genuine (x y : SocketState) (ev : SocketEvent) : Prop :=
  match ev with
  | Datagram _ _ d _ => ∀ tx ty h,
      tasks x !! k = Some tx → tasks y !! l = Some ty →
      Header.from_bytes (take 20 d) = Ok h → connection_id h = ut_id ty → d ∈ u_sent (tk_conn (ut_sys tx))
  | _ => True
  end.

(** Anything can happen at the writing socket; the same at the reading one, forgeries excepted. *)
Inductive network_step : SocketState * SocketState → SocketState * SocketState → Prop :=
| At_writer x y ev : is_bytes ev → network_step (x, y) (socket_step ev x, y)
| At_reader x y ev : is_bytes ev → genuine x y ev → network_step (x, y) (x, socket_step ev y).

(** Connection [k] of the one socket and connection [l] of the other are open, and the next packet that
    the one sends is the next that the other waits for. *)
Record established (s0 : Z) (w0 : list bytes) (x y : SocketState) : Prop := {
  es_number : 0 ≤ s0;
  es_registry : registry_ok y;
  es_writer : ∃ tx, tasks x !! k = Some tx ∧ sending s0 [] (tk_conn (ut_sys tx)) ∧ ut_packets tx = [] ∧
    ut_data tx = [] ∧ ut_wrote tx = w0;
  es_reader : ∃ ty, tasks y !! l = Some ty ∧ u_state (tk_conn (ut_sys ty)) = Connected ∧
    u_ack_nr (tk_conn (ut_sys ty)) = s0 ∧ u_recv_buffer (tk_conn (ut_sys ty)) = ∅ ∧
    u_ready_data (tk_conn (ut_sys ty)) = [] ∧ unread (tk_stream (ut_sys ty)) = [] ∧
    ut_packets ty = [] ∧ ut_read ty = [];
}.

Definition joined (s0 : Z) (w0 : list bytes) (xy : SocketState * SocketState) : Prop :=
  registry_ok xy.2 ∧ ∃ tx ty stream, tasks xy.1 !! k = Some tx ∧ tasks xy.2 !! l = Some ty ∧
    writing s0 w0 stream tx ∧ (s0 + zlen stream ≤ u16_max → reading s0 stream ty).

Lemma established_joined s0 w0 x y : established s0 w0 x y → joined s0 w0 (x, y).
Proof using.
  intros [_ Hreg (tx & Hx & Hs & Hp & Hd & Hw) (ty & Hy & Hst & Ha & Hb & Hr & Hu & Hp' & Hread)].
  split; [done|]. exists tx, ty, []. split; [done|]. split; [done|]. split.
  - split; [done|by rewrite Hp|]. exists []. rewrite Hw, Hd, app_nil_r. split_and!; [done|by exists []|done|done].
  - intros _. split; [|by rewrite Hp']. left. exists O. unfold delivered. rewrite Hst, Ha, Hb, Hr, Hread, Hu.
    split_and!; [done|done|lia|done| |by intros]. intros seq d. by rewrite lookup_empty.
Qed.

Lemma network_step_joined s0 w0 xy xy' : 0 ≤ s0 → network_step xy xy' → joined s0 w0 xy → joined s0 w0 xy'.
Proof using.
  intros Hs0 Hstep (Hreg & tx & ty & stream & Hx & Hy & Hw & Hr). destruct Hstep as [x y ev Hev|x y ev Hev Hgen]; cbn [fst snd] in *.
  - destruct (socket_step_changes k ev x tx Hx) as (tx' & Hx' & Hc).
    destruct (writing_changes _ _ _ _ _ _ _ _ Hev Hc Hw) as (more & Hw'). split; [done|].
    exists tx', ty, (stream ++ more). split_and!; [done..|]. intros Hroom. apply reading_more, Hr.
    unfold zlen in *. rewrite length_app in Hroom. lia.
  - destruct (socket_step_changes l ev y ty Hy) as (ty' & Hy' & Hc). split; [by apply socket_step_registry|].
    exists tx, ty', stream. split_and!; [done..|]. intros Hroom. eapply reading_changes; [done|done| |exact Hc|by apply Hr].
    intros e r d src id h payload -> Hd Hid. destruct (Hreg id l Hid) as (ty0 & Hy0 & <-).
    rewrite Hy in Hy0. injection Hy0 as <-. apply dispatch_deliver in Hd as (Hh & Hcid & _).
    pose proof (Hgen tx ty h Hx Hy Hh Hcid) as Hin. pose proof (sg_sent _ _ _ (wr_sending _ _ _ _ Hw)) as Hall.
    rewrite Forall_forall in Hall. by apply Hall.
Qed.

Lemma network_run_joined s0 w0 xy xy' : 0 ≤ s0 → rtc network_step xy xy' → joined s0 w0 xy → joined s0 w0 xy'.
Proof using. intros Hs0. induction 1 as [|xy1 xy2 xy3 Hstep _ IH]; [done|]. intros H. by eapply IH, network_step_joined. Qed.
End network.

(** C31: what an application reads from a uTP connection is what the other side's application wrote.
    Two sockets, each with any number of connections, and a connection between them: applications
    write and read, tasks run, timers expire, sends fail, other connections come and go, and the
    network loses, repeats, reorders and delays datagrams and brings any others that do not carry the
    identifier of the connection. What was read at the one end, followed by what can be read there, is
    an initial segment of what was written at the other end since the connection was established, as
    long as this takes no more packets than there are sequence numbers left. *)
Theorem utp_end_to_end : ∀ s0 w0 k l x0 y0 x y,
  established k l s0 w0 x0 y0 → rtc (network_step k l) (x0, y0) (x, y) →
  ∃ tx ty w, tasks x !! k = Some tx ∧ tasks y !! l = Some ty ∧ ut_wrote tx = w0 ++ w ∧
    (s0 + Z.of_nat (packets w) ≤ u16_max → ut_read ty ++ unread (tk_stream (ut_sys ty)) `prefix_of` concat w).
Proof.
  intros s0 w0 k l x0 y0 x y He Hrun.
  destruct (network_run_joined k l s0 w0 _ _ (es_number _ _ _ _ _ _ He) Hrun (established_joined _ _ _ _ _ _ He))
    as (_ & tx & ty & stream & Hx & Hy & [Hs Hp (w & Hw & Hpre & _ & Hlen)] & Hr).
  exists tx, ty, w. split_and!; [done..|]. intros Hroom. destruct Hr as [H _]; [unfold zlen; lia|].
  destruct (in_order_segment _ _ _ _ _ H) as (j & Hj).
  trans (concat (take j stream)); [rewrite <- Hj; by apply prefix_app_r|].
  etrans; [|exact Hpre]. exists (concat (drop j stream)). by rewrite <- concat_app, take_drop.
Qed.

(** A packet from before the stream. *)
Lemma on_wire_old s0 stream p h :
  bytes_ok p → (20 <=? length p)%nat = true → Header.from_bytes (take 20 p) = Ok h →
  utp_type h = StSyn ∨ utp_type h = StData ∧ seq_nr h ≤ s0 → on_wire s0 stream p.
Proof.
  intros Hp Hl Hh Ht. apply Nat.leb_le in Hl.
  destruct (header_to_from (take 20 p) h) as (E & Hok & Hv); [rewrite length_take; unfold UTP_HEADER_SIZE; lia|by apply Forall_take|done|].
  exists h, (drop 20 p). rewrite E, take_drop. split_and!; [done..|].
  destruct Ht as [?|[? ?]]; [left; by right; right|right; split; [by left|by left]].
Qed.

Definition run_socket (events : list SocketEvent) (s : SocketState) : SocketState :=
  foldl (λ s ev, socket_step ev s) s events.

Definition sample_env : Env := mk_env 1000 5 (λ _ _, false).
Definition sample_host : SocketAddr := mk_addr (V4 [127; 0; 0; 1]) 6881.

Definition packet_of (n : nat) (s : SocketState) : bytes :=
  match tasks s !! 0%nat with Some t => u_sent (tk_conn (ut_sys t)) !!! n | None => [] end.

(** The connecting side: the answer to its SYN comes with the identifier that it listens on; then the
    application writes. *)
Definition sample_writer : SocketState :=
  run_socket [ConnectTo sample_env 7 sample_host; Datagram sample_env 0 (Header.to_bytes (Header.new StState 7 500 2)) sample_host;
              RunTask sample_env FromSocket 0; Write [9] 0; RunTask sample_env FromApplication 0] bind.

(** The accepting side: its connection is open with the first packet of data, whose payload is lost. *)
Definition sample_reader : SocketState :=
  run_socket [Datagram sample_env 600 (packet_of 0 sample_writer) sample_host;
              Datagram sample_env 0 (packet_of 1 sample_writer) sample_host; RunTask sample_env FromSocket 0] bind.

Lemma sample_established : established 0 0 3 [[9]] sample_writer sample_reader.
Proof.
  split; [done|by repeat apply socket_step_registry|eexists; split; [by vm_compute|]|
          eexists; split; [by vm_compute|by vm_compute]].
  split; [|by vm_compute]. assert (∀ p, p ∈ [packet_of 0 sample_writer; packet_of 1 sample_writer] → on_wire 3 [] p) as Hw.
  { intros p Hp. apply elem_of_cons in Hp as [->|Hp%list_elem_of_singleton]; [|subst p];
      (eapply on_wire_old; [apply (bool_decide_unpack _); by vm_compute|by vm_compute|by vm_compute|]);
      [by left|by right]. }
  split; [by vm_compute|by vm_compute| | |apply (bool_decide_unpack _); by vm_compute..].
  - apply Forall_forall. intros p Hp. apply Hw. revert p Hp. apply Forall_forall.
    apply (bool_decide_unpack _). by vm_compute.
  - intros seq p Hp. apply Hw. revert seq p Hp. apply (bool_decide_unpack (map_Forall (λ _ p, sp_data p ∈ _) _)). by vm_compute.
Qed.

(** Three bytes and one more, which arrives first, and a datagram for nobody. *)
Definition sample_written : SocketState :=
  run_socket [Write [1; 2; 3] 0; RunTask sample_env FromApplication 0; Write [4] 0; RunTask sample_env FromApplication 0]
    sample_writer.

Definition sample_arrivals : list SocketEvent :=
  [Datagram sample_env 0 (packet_of 3 sample_written) sample_host; RunTask sample_env FromSocket 0;
   Datagram sample_env 0 (Header.to_bytes (Header.new StData 99 5 0) ++ [6; 6]) sample_host;
   Datagram sample_env 0 (packet_of 2 sample_written) sample_host; RunTask sample_env FromSocket 0; Read 2 0].

Lemma run_writer k l events x y :
  Forall is_bytes events → rtc (network_step k l) (x, y) (run_socket events x, y).
Proof.
  intros H. revert x. induction H as [|ev events Hev _ IH]; intros x; [done|].
  eapply rtc_l; [by apply (At_writer _ _ _ _ ev)|apply IH].
Qed.

(** The datagrams are the writer's or carry another identifier. *)
Definition from_writer (id : Z) (x : SocketState) (k : nat) (ev : SocketEvent) : bool :=
  match ev with
  | Datagram _ _ d _ =>
      bool_decide (bytes_ok d) &&
      match Header.from_bytes (take 20 d), tasks x !! k with
      | Ok h, Some tx => bool_decide (connection_id h ≠ id) || bool_decide (d ∈ u_sent (tk_conn (ut_sys tx)))
      | _, _ => true
      end
  | _ => true
  end.

Lemma run_reader k l id events x y :
  (∃ ty, tasks y !! l = Some ty ∧ ut_id ty = id) → forallb (from_writer id x k) events = true →
  rtc (network_step k l) (x, y) (x, run_socket events y).
Proof.
  intros Hy He. revert y Hy. induction events as [|ev events IH]; intros y Hy; [done|].
  cbn [forallb] in He. apply andb_true_iff in He as [Hev He].
  eapply rtc_l; [apply (At_reader _ _ _ _ ev)|apply IH; [done|]].
  - destruct ev; try done. cbn [from_writer] in Hev. apply andb_true_iff in Hev as [Hb _]. by apply bool_decide_eq_true in Hb.
  - destruct ev as [e random d src| | | | |]; try done. intros tx ty h Hx Hl Hh Hid. destruct Hy as (ty' & Hl' & <-).
    rewrite Hl in Hl'. injection Hl' as <-. cbn [from_writer] in Hev. apply andb_true_iff in Hev as [_ Hev].
    rewrite Hh, Hx in Hev. apply orb_true_iff in Hev as [Hev|Hev]; [|by apply bool_decide_eq_true in Hev].
    by apply bool_decide_eq_true in Hev.
  - destruct Hy as (ty & Hl & Hid). destruct (socket_step_changes l ev y ty Hl) as (ty' & Hl' & Hc).
    exists ty'. split; [done|]. by rewrite (task_change_id _ _ _ _ _ Hc).
Qed.

Lemma utp_end_to_end_witness :
  let y := run_socket sample_arrivals sample_reader in
  (∃ ty, tasks y !! 0%nat = Some ty ∧ ut_read ty = [1; 2]) ∧
  ∃ tx ty w, tasks sample_written !! 0%nat = Some tx ∧ tasks y !! 0%nat = Some ty ∧ ut_wrote tx = [[9]] ++ w ∧
    (3 + Z.of_nat (packets w) ≤ u16_max → ut_read ty ++ unread (tk_stream (ut_sys ty)) `prefix_of` concat w).
Proof.
  split; [eexists; split; vm_compute; reflexivity|].
  apply (utp_end_to_end 3 [[9]] 0 0 sample_writer sample_reader); [exact sample_established|].
  trans (sample_written, sample_reader).
  - unfold sample_written. apply run_writer. by repeat constructor.
  - apply (run_reader 0 0 8); [eexists; split; vm_compute; reflexivity|vm_compute; reflexivity].
Defined.

(** ** Three departures *)

(** A packet is given to the connection of its identifier wherever it comes from. *)
Lemma source_is_not_checked e random d src src' s :
  (∃ id h payload, dispatch (dom (connections s)) d = Ok (Deliver id h payload)) →
  on_packet e random d src s = on_packet e random d src' s.
Proof. intros (id & h & payload & E). unfold on_packet. by rewrite E. Qed.

(** Two connections with the same random identifier: the end of the first removes the second from the
    map, whose packets are answered with resets from then on. *)
Example first_unregisters_second :
  let s := run_socket [ConnectTo sample_env 7 sample_host; ConnectTo sample_env 7 sample_host] bind in
  connections s !! 7 = Some 1%nat ∧
  connections (run_socket [RunTask (mk_env (10 ^ 12) 5 (λ _ _, false)) FromTimer 0] s) !! 7 = None.
Proof. split; vm_compute; reflexivity. Qed.

(** What is received is never acknowledged by itself: packets that come in make an open connection send
    nothing, so that the sender of a one-way stream sends everything again until it gives up. *)
Lemma receiving_sends_nothing e h payload c : u_sent (handle_packet e h payload c).1 = u_sent c.
Proof.
  assert (∀ h, keeps u_sent (handle_ack e h)) as Hack by (intros; by apply keeps_handle_ack).
  assert (keeps u_sent (accept_data h payload)) as Hacc.
  { unfold accept_data. apply keeps_bind; [done|]. intros c0. destruct (_ <=? _); [done|]. destruct (_ =? _).
    - destruct (_ <? _)%nat; [done|]. apply keeps_bind; [done|]. intros _. apply keeps_bind; [done|]. intros _ c1.
      unfold drain_recv_buffer. destruct (drain_loop _ _ c1) as [c2|err| |] eqn:E; try done. cbn [fst]. revert E.
      generalize (wrapping_add16 (seq_nr h) 1), (size (u_recv_buffer c1)). intros next fuel. revert next c1.
      induction fuel as [|fuel IH]; intros next c1; cbn [drain_loop]; destruct (_ !! next); try done; try by intros [= <-].
      destruct (_ <? _)%nat; [by intros [= <-]|]. intros E. by rewrite (IH _ _ E).
    - by destruct (_ <? _). }
  assert (keeps u_sent (process_data_packet e h payload)) as Hdata by (by apply keeps_bind).
  assert (keeps u_sent (handle_fin h)) as Hfin.
  { intros c0. unfold handle_fin, modify. cbn [fst]. conn_simpl. by destruct (decide _). }
  revert c. change (keeps u_sent (handle_packet e h payload)). unfold handle_packet.
  apply keeps_bind; [done|]. intros _. apply keeps_bind; [done|]. intros _. apply keeps_bind; [done|]. intros st.
  destruct st; [destruct (utp_type h)|destruct (utp_type h)|destruct (utp_type h)| | |]; try done;
    repeat (apply keeps_bind; [|intros _]); try done.
  - by destruct (utp_type h).
  - intros c0. unfold modify. cbn [fst]. by destruct (decide _).
Qed.
