(* ===== verification/UdpTracker.v ===== *)
(** The UDP tracker client (BEP 15): [crates/torrent/src/tracker/udp.rs].

    The network is an argument of the model: what a call sees depends on the packets sent so far. A
    packet is recorded when its [send_to] succeeds. The lock around the cached values is not modelled:
    one announce at a time. *)

From stdpp Require Import base numbers list strings.
From Stdlib Require Import ZArith Lia.
From S2P Require Import Prelude Facts Error Net Compact Tracker Step.

Definition INITIAL_CONNECTION_ID : Z := 0x41727101980.
Definition MAX_RETRIES : nat := 4.
Definition RECV_BUF_SIZE : nat := 2048.

(** * Packets *)

Definition build_connect_packet (transaction_id : Z) : bytes :=
  be_bytes 8 INITIAL_CONNECTION_ID ++ be_bytes 4 0 ++ be_bytes 4 transaction_id.

Definition build_announce_packet (connection_id transaction_id : Z) (req : AnnounceRequest) (event : Z)
    : bytes :=
  be_bytes 8 connection_id ++ be_bytes 4 1 ++ be_bytes 4 transaction_id ++
  req_info_hash req ++ req_peer_id req ++
  be_bytes 8 (downloaded req) ++ be_bytes 8 (left_bytes req) ++ be_bytes 8 (uploaded req) ++
  be_bytes 4 event ++ be_bytes 4 0 ++ be_bytes 4 (default 0 (key req)) ++
  be_bytes 4 (default 50 (numwant req)) ++ be_bytes 2 (req_port req).

(** [match req.event]. *)
Definition event_code (e : AnnounceEvent) : Z :=
  match e with NoEvent => 0 | Completed => 1 | Started => 2 | Stopped => 3 end.

(** The checks that both parsers make; [data[8..]] of an error message is within the length. *)
Definition check_header (min_len : nat) (want_action : Z) (data : bytes) (expected : Z) : result unit :=
  let! _ := guard_err (length data <? min_len)%nat TrackerProtocolError in
  let! action := get_be 4 0 data in
  let! _ := guard_err (action =? 3) TrackerProtocolError in
  let! _ := guard_err (negb (action =? want_action)) TrackerProtocolError in
  let! transaction_id := get_be 4 4 data in
  guard_err (negb (transaction_id =? expected)) TrackerProtocolError.

Definition parse_connect_response (data : bytes) (expected : Z) : result Z :=
  let! _ := check_header 16 0 data expected in
  get_be 8 8 data.

Definition parse_announce_response (data : bytes) (expected : Z) : result AnnounceResponse :=
  let! _ := check_header 20 1 data expected in
  let! interval := get_be 4 8 data in
  let! leechers := get_be 4 12 data in
  let! seeders := get_be 4 16 data in
  let peer_data := drop 20 data in
  let! peers :=
    match peer_data with
    | [] => Ok []
    | _ =>
        if (length peer_data mod 18 =? 0)%nat then parse_compact_peers_ipv6 peer_data
        else if (length peer_data mod 6 =? 0)%nat then parse_compact_peers_ipv4 peer_data
        else Err TrackerProtocolError
    end in
  Ok (response_from_udp_fields interval seeders leechers peers).

(** * The exchange *)

(** [struct UdpTracker] with the packets sent so far. *)
Record UdpTracker : Type := mk_udp {
  connection_id : option Z;
  cached_addr : option SocketAddr;
  sent : list (SocketAddr * bytes);
}.

Definition set_connection_id (x : option Z) (t : UdpTracker) : UdpTracker :=
  {| connection_id := x; cached_addr := cached_addr t; sent := sent t |}.

Definition set_cached_addr (x : option SocketAddr) (t : UdpTracker) : UdpTracker :=
  {| connection_id := connection_id t; cached_addr := x; sent := sent t |}.

Definition add_sent (p : SocketAddr * bytes) (t : UdpTracker) : UdpTracker :=
  {| connection_id := connection_id t; cached_addr := cached_addr t; sent := sent t ++ [p] |}.

(** What [timeout(recv_from)] yields. *)
Inductive Received : Type :=
| Datagram (data : bytes) (src : SocketAddr)
| RecvError
| Elapsed.

Record Network : Type := mk_network {
  n_resolve : list SocketAddr + ErrorKind;
  n_bind : SocketAddr → bool;
  n_random : list (SocketAddr * bytes) → Z;
  n_send : list (SocketAddr * bytes) → SocketAddr → bool;
  n_recv : list (SocketAddr * bytes) → Received;
}.

Section exchange.
Context (net : Network).

(** [socket.send_to(packet, addr)]. *)
Definition send_to (addr : SocketAddr) (packet : bytes) : step UdpTracker unit :=
  do! log := read sent in
  if n_send net log addr then modify (add_sent (addr, packet)) else lift (Err TrackerRequestFailed).

(** [timeout(RECV_TIMEOUT, socket.recv_from(&mut buf))] with a buffer of [size] bytes. *)
Definition recv_from (size : nat) : step UdpTracker Received :=
  read (λ t, match n_recv net (sent t) with
             | Datagram data src => Datagram (take size data) src
             | r => r
             end).

(** The loop of [connect]. *)
Fixpoint connect_loop (tries : nat) (addr : SocketAddr) (transaction_id : Z) : step UdpTracker Z :=
  match tries with
  | O => lift (Err TrackerRequestFailed)
  | S tries' =>
      do! _ := send_to addr (build_connect_packet transaction_id) in
      do! r := recv_from 16 in
      match r with
      | Datagram data src =>
          if negb (bool_decide (src = addr)) then connect_loop tries' addr transaction_id
          else lift (parse_connect_response data transaction_id)
      | _ => connect_loop tries' addr transaction_id
      end
  end.

Definition connect (addr : SocketAddr) : step UdpTracker Z :=
  do! transaction_id := read (λ t, n_random net (sent t)) in
  connect_loop MAX_RETRIES addr transaction_id.

(** The retries of the announce phase: a response, or the last error. *)
Fixpoint announce_loop (tries : nat) (addr : SocketAddr) (packet : bytes) (transaction_id : Z)
    (last_err : option ErrorKind) : step UdpTracker (AnnounceResponse + option ErrorKind) :=
  match tries with
  | O => sret (inr last_err)
  | S tries' =>
      do! s := attempt (send_to addr packet) in
      match s with
      | inr e => sret (inr (Some e))
      | inl _ =>
          do! r := recv_from RECV_BUF_SIZE in
          match r with
          | Datagram data src =>
              if negb (bool_decide (src = addr)) then announce_loop tries' addr packet transaction_id last_err
              else
                do! p := attempt (lift (parse_announce_response data transaction_id)) in
                match p with
                | inl response => sret (inl response)
                | inr e => do! _ := modify (set_connection_id None) in sret (inr (Some e))
                end
          | RecvError => announce_loop tries' addr packet transaction_id (Some TrackerRequestFailed)
          | Elapsed => announce_loop tries' addr packet transaction_id last_err
          end
      end
  end.

(** The loop over the addresses of the tracker. *)
Fixpoint try_addrs (req : AnnounceRequest) (addrs : list SocketAddr) (last_err : option ErrorKind)
    : step UdpTracker AnnounceResponse :=
  match addrs with
  | [] => lift (Err (default TrackerRequestFailed last_err))
  | addr :: addrs' =>
      if negb (n_bind net addr) then try_addrs req addrs' last_err
      else
        do! cached := read connection_id in
        do! c := match cached with
                 | Some id => sret (inl id)
                 | None =>
                     do! r := attempt (connect addr) in
                     match r with
                     | inl id => do! _ := modify (set_connection_id (Some id)) in sret (inl id)
                     | inr e => sret (inr e)
                     end
                 end in
        match c with
        | inr e => try_addrs req addrs' (Some e)
        | inl id =>
            do! transaction_id := read (λ t, n_random net (sent t)) in
            let packet := build_announce_packet id transaction_id req (event_code (event req)) in
            do! r := announce_loop MAX_RETRIES addr packet transaction_id last_err in
            match r with
            | inl response => sret response
            | inr last_err' => try_addrs req addrs' last_err'
            end
        end
  end.

(** [UdpTracker::announce]; the host of the URL is in [n_resolve]. *)
Definition announce (req : AnnounceRequest) : step UdpTracker AnnounceResponse :=
  do! cached := read cached_addr in
  do! target_addrs := match cached with
                      | Some addr => sret [addr]
                      | None =>
                          do! addrs := lift (match n_resolve net with inl addrs => Ok addrs | inr e => Err e end) in
                          match addrs with
                          | first :: _ => do! _ := modify (set_cached_addr (Some first)) in sret addrs
                          | [] => sret addrs
                          end
                      end in
  try_addrs req target_addrs None.

End exchange.

(** * Packets *)

(** A tracker's answer to an announce. *)
Definition build_announce_response (transaction_id interval leechers seeders : Z) (peer_data : bytes) : bytes :=
  be_bytes 4 1 ++ be_bytes 4 transaction_id ++ be_bytes 4 interval ++ be_bytes 4 leechers ++
  be_bytes 4 seeders ++ peer_data.

Lemma check_header_total min_len want data expected :
  (8 ≤ min_len)%nat → check_header min_len want data expected = Ok tt ∨
  check_header min_len want data expected = Err TrackerProtocolError.
Proof.
  intros Hm. unfold check_header. destruct (Nat.ltb_spec (length data) min_len); [by right|]. cbn [guard_err obind].
  rewrite get_be_ok by lia. cbn [obind]. destruct (_ =? 3); [by right|]. cbn [guard_err obind].
  destruct (negb _); [by right|]. cbn [guard_err obind]. rewrite get_be_ok by lia. cbn [obind].
  destruct (negb _); [by right|by left].
Qed.

Lemma check_header_ok min_len want data expected :
  check_header min_len want data expected = Ok tt →
  (min_len ≤ length data)%nat ∧ get_be (E := ErrorKind) 4 0 data = Ok want ∧
  get_be (E := ErrorKind) 4 4 data = Ok expected.
Proof.
  unfold check_header. destruct (Nat.ltb_spec (length data) min_len); [done|]. cbn [guard_err obind].
  destruct (get_be 4 0 data) as [action|e| |]; [|done..]. cbn [obind].
  destruct (action =? 3); [done|]. cbn [guard_err obind].
  destruct (Z.eqb_spec action want) as [->|]; [|done]. cbn [negb guard_err obind].
  destruct (get_be 4 4 data) as [tid|e| |]; [|done..]. cbn [obind].
  destruct (Z.eqb_spec tid expected) as [->|]; [|done]. done.
Qed.

Lemma parse_connect_total data tid :
  (∃ id, parse_connect_response data tid = Ok id) ∨ parse_connect_response data tid = Err TrackerProtocolError.
Proof.
  unfold parse_connect_response. destruct (check_header_total 16 0 data tid) as [E|E]; [lia|..]; rewrite E; [|by right].
  destruct (check_header_ok _ _ _ _ E) as (Hl & _). left. cbn [obind]. rewrite get_be_ok by lia. eauto.
Qed.

Lemma parse_announce_total data tid :
  (∃ r, parse_announce_response data tid = Ok r) ∨ parse_announce_response data tid = Err TrackerProtocolError.
Proof.
  unfold parse_announce_response. destruct (check_header_total 20 1 data tid) as [E|E]; [lia|..]; rewrite E; [|by right].
  destruct (check_header_ok _ _ _ _ E) as (Hl & _). cbn [obind].
  rewrite !get_be_ok by lia. cbn [obind]. destruct (drop 20 data) as [|b d] eqn:Ed; [left; cbn [obind]; eauto|].
  pose proof (parse_peers_eq true (b :: d)) as E6. pose proof (parse_peers_eq false (b :: d)) as E4.
  cbn [octet_count] in E4, E6. cbn zeta in *. change (16 + 2)%nat with 18%nat in E6. change (4 + 2)%nat with 6%nat in E4.
  destruct (length (b :: d) mod 18 =? 0)%nat.
  - rewrite E6. left. cbn [obind]. eauto.
  - destruct (length (b :: d) mod 6 =? 0)%nat; [|by right]. rewrite E4. left. cbn [obind]. eauto.
Qed.

(** What the parser makes of the answer of a tracker. *)
Definition u32_ok (z : Z) : Prop := 0 ≤ z < 256 ^ Z.of_nat 4.

Lemma parse_announce_built tid interval leechers seeders peer_data :
  u32_ok tid → u32_ok interval → u32_ok leechers → u32_ok seeders →
  parse_announce_response (build_announce_response tid interval leechers seeders peer_data) tid =
  (let! peers :=
     match peer_data with
     | [] => Ok []
     | _ =>
         if (length peer_data mod 18 =? 0)%nat then parse_compact_peers_ipv6 peer_data
         else if (length peer_data mod 6 =? 0)%nat then parse_compact_peers_ipv4 peer_data
         else Err TrackerProtocolError
     end in
   Ok (response_from_udp_fields interval seeders leechers peers)).
Proof.
  intros Ht Hi Hl Hs. unfold parse_announce_response, build_announce_response.
  set (d := be_bytes 4 1 ++ _).
  assert (length d = 20 + length peer_data)%nat as Hd by (subst d; rewrite !length_app, !length_be_bytes; lia).
  assert (∀ p v s, d = p ++ be_bytes 4 v ++ s → u32_ok v → get_be (E := ErrorKind) 4 (length p) d = Ok v) as Hget.
  { intros p v s -> Hv. by apply get_be_app. }
  assert (get_be (E := ErrorKind) 4 0 d = Ok 1) as H1 by (apply (Hget [] 1 _ eq_refl); unfold u32_ok; lia).
  assert (get_be (E := ErrorKind) 4 4 d = Ok tid) as H2 by (by eapply (Hget (be_bytes 4 1))).
  assert (get_be (E := ErrorKind) 4 8 d = Ok interval) as H3.
  { eapply (Hget (be_bytes 4 1 ++ be_bytes 4 tid)); [by rewrite <- app_assoc|done]. }
  assert (get_be (E := ErrorKind) 4 12 d = Ok leechers) as H4.
  { eapply (Hget (be_bytes 4 1 ++ be_bytes 4 tid ++ be_bytes 4 interval)); [by rewrite <- !app_assoc|done]. }
  assert (get_be (E := ErrorKind) 4 16 d = Ok seeders) as H5.
  { eapply (Hget (be_bytes 4 1 ++ be_bytes 4 tid ++ be_bytes 4 interval ++ be_bytes 4 leechers));
      [by rewrite <- !app_assoc|done]. }
  assert (drop 20 d = peer_data) as H6.
  { subst d. rewrite !app_assoc. apply drop_app_length'. rewrite !length_app, !length_be_bytes. done. }
  unfold check_header. rewrite (proj2 (Nat.ltb_ge _ _)) by lia. cbn [guard_err obind].
  rewrite H1. cbn [obind Z.eqb Pos.eqb guard_err negb]. rewrite H2. cbn [obind]. rewrite Z.eqb_refl. cbn [negb guard_err obind].
  rewrite H3, H4, H5, H6. done.
Qed.

(** * What an announce rests on *)

Section evidence.
Context (net : Network).
Implicit Types (log : list (SocketAddr * bytes)).

(** [packet] was sent to [addr], and the next datagram, [data], came from there. *)
Definition answered log (addr : SocketAddr) (packet data : bytes) : Prop :=
  ∃ before after, log = before ++ [(addr, packet)] ++ after ∧
                  n_recv net (before ++ [(addr, packet)]) = Datagram data addr.

(** A connection id is the one cached at the start, or a tracker's answer to a connect request. *)
Definition id_known (id0 : option Z) log (id : Z) : Prop :=
  id0 = Some id ∨
  ∃ addr tid data, answered log addr (build_connect_packet tid) data ∧
                   parse_connect_response (take 16 data) tid = Ok id.

(** A response is the answer to an announce that was made with a known connection id. *)
Definition announce_good (id0 : option Z) log (req : AnnounceRequest) (resp : AnnounceResponse) : Prop :=
  ∃ addr id tid data,
    answered log addr (build_announce_packet id tid req (event_code (event req))) data ∧
    parse_announce_response (take RECV_BUF_SIZE data) tid = Ok resp ∧ id_known id0 log id.

Lemma answered_more log more addr packet data : answered log addr packet data → answered (log ++ more) addr packet data.
Proof. intros (b & a & -> & Hr). exists b, (a ++ more). by rewrite <- !app_assoc. Qed.

Lemma id_known_more id0 log more id : id_known id0 log id → id_known id0 (log ++ more) id.
Proof.
  intros [->|(addr & tid & data & Ha & Hp)]; [by left|]. right. exists addr, tid, data.
  split; [by apply answered_more|done].
Qed.

(** From [s] to [s'], at most [n] packets were sent, all to addresses in [addrs], and the cached
    connection id is still a known one. *)
Definition grown (id0 : option Z) (addrs : list SocketAddr) (n : nat) (s s' : UdpTracker) : Prop :=
  (∃ ps, sent s' = sent s ++ ps ∧ (length ps ≤ n)%nat ∧ Forall (λ p, p.1 ∈ addrs) ps) ∧
  (∀ id, connection_id s' = Some id → id_known id0 (sent s') id).

Definition ids_known (id0 : option Z) (s : UdpTracker) : Prop :=
  ∀ id, connection_id s = Some id → id_known id0 (sent s) id.

Lemma grown_refl id0 addrs n s : ids_known id0 s → grown id0 addrs n s s.
Proof. intros Hs. split; [|done]. exists []. split; [by rewrite app_nil_r|]. split; [cbn; lia|constructor]. Qed.

Lemma grown_trans id0 addrs addrs' n m k s1 s2 s3 :
  grown id0 addrs n s1 s2 → grown id0 addrs' m s2 s3 → (n + m ≤ k)%nat →
  (∀ a, a ∈ addrs → a ∈ addrs') → grown id0 addrs' k s1 s3.
Proof.
  intros [(p & E & Hl & HF) _] [(q & E' & Hl' & HF') Hid] Hk Hsub. split; [|done].
  exists (p ++ q). rewrite E', E, <- app_assoc. split; [done|]. rewrite length_app. split; [lia|].
  apply List.Forall_app. split; [|done]. eapply Forall_impl; [exact HF|]. intros x. apply Hsub.
Qed.

Lemma grown_weaken id0 addrs addrs' n k s s' :
  grown id0 addrs n s s' → (n ≤ k)%nat → (∀ a, a ∈ addrs → a ∈ addrs') → grown id0 addrs' k s s'.
Proof.
  intros [(p & E & Hl & HF) Hid] Hk Hsub. split; [|done]. exists p. split; [done|]. split; [lia|].
  eapply Forall_impl; [exact HF|]. intros x. apply Hsub.
Qed.

Lemma send_to_spec E id0 addrs addr packet s (Q : unit → UdpTracker → Prop) :
  addr ∈ addrs → ids_known id0 s →
  (grown id0 addrs 1 s s → E s) →
  (∀ s', sent s' = sent s ++ [(addr, packet)] → connection_id s' = connection_id s → grown id0 addrs 1 s s' → Q tt s') →
  swp E (send_to net addr packet) Q s.
Proof.
  intros Ha Hs HE HQ. unfold send_to. apply swp_read. destruct (n_send net (sent s) addr).
  - apply HQ; [done|done|]. split.
    + exists [(addr, packet)]. split; [done|]. split; [done|]. by apply List.Forall_cons.
    + intros id Hid. apply id_known_more, Hs, Hid.
  - apply HE. by apply grown_refl.
Qed.

Lemma connect_loop_spec id0 tries addr tid s :
  ids_known id0 s →
  swp (grown id0 [addr] tries s) (connect_loop net tries addr tid)
    (λ id s', grown id0 [addr] tries s s' ∧ id_known id0 (sent s') id) s.
Proof.
  revert s. induction tries as [|tries IH]; intros s Hs; cbn [connect_loop]; [by apply grown_refl|].
  apply swp_bind. apply (send_to_spec _ id0 [addr]); [by left|done| |].
  { intros Hg. by eapply grown_weaken; [exact Hg|lia|]. }
  intros s' Hlog _ Hg. unfold recv_from. apply swp_read.
  assert (∀ s2, grown id0 [addr] tries s' s2 → grown id0 [addr] (S tries) s s2) as Hmore.
  { intros s2 H2. eapply grown_trans; [exact Hg|exact H2|lia|done]. }
  assert (swp (grown id0 [addr] (S tries) s) (connect_loop net tries addr tid)
    (λ id s2, grown id0 [addr] (S tries) s s2 ∧ id_known id0 (sent s2) id) s') as Hloop.
  { pose proof (IH s' (proj2 Hg)) as H. unfold swp in *.
    destruct (connect_loop net tries addr tid s') as [s2 [id|e| |]]; [|auto|done..].
    destruct H as [H1 H2]. auto. }
  destruct (n_recv net (sent s')) as [data src| |] eqn:Hr; [|exact Hloop..].
  destruct (bool_decide_reflect (src = addr)) as [->|]; [|exact Hloop]. cbn [negb].
  assert (grown id0 [addr] (S tries) s s') as Hg' by (by eapply grown_weaken; [exact Hg|lia|]).
  unfold swp, lift. destruct (parse_connect_total (take 16 data) tid) as [[id E]|E]; rewrite E; [|done].
  split; [done|]. right. exists addr, tid, data. split; [|done]. exists (sent s), [].
  rewrite Hlog in Hr |- *. by rewrite app_nil_r.
Qed.

(** [E] plays no role: an announce phase returns its error as a value. *)
Lemma announce_loop_spec E id0 tries addr id tid req last s :
  ids_known id0 s → id_known id0 (sent s) id →
  swp E (announce_loop net tries addr (build_announce_packet id tid req (event_code (event req))) tid last)
    (λ r s', grown id0 [addr] tries s s' ∧
       match r with inl resp => announce_good id0 (sent s') req resp | inr _ => True end) s.
Proof.
  revert last s. induction tries as [|tries IH]; intros last s Hs Hid; cbn [announce_loop].
  { split; [by apply grown_refl|done]. }
  apply swp_bind, swp_attempt. apply (send_to_spec _ id0 [addr]); [by left|done| |].
  { intros Hg e. split; [|done]. by eapply grown_weaken; [exact Hg|lia|]. }
  intros s' Hlog Hc Hg. unfold recv_from. apply swp_read.
  assert (∀ l, swp E (announce_loop net tries addr (build_announce_packet id tid req (event_code (event req))) tid l)
    (λ r s2, grown id0 [addr] (S tries) s s2 ∧
       match r with inl resp => announce_good id0 (sent s2) req resp | inr _ => True end) s') as Hloop.
  { intros l. eapply swp_mono; [apply IH; [exact (proj2 Hg)|rewrite Hlog; by apply id_known_more]|].
    intros r s2 [H1 H2]. split; [|done]. eapply grown_trans; [exact Hg|exact H1|lia|done]. }
  destruct (n_recv net (sent s')) as [data src| |] eqn:Hr; [|apply Hloop..].
  destruct (bool_decide_reflect (src = addr)) as [->|]; [|apply Hloop]. cbn [negb].
  assert (grown id0 [addr] (S tries) s s') as Hg' by (by eapply grown_weaken; [exact Hg|lia|]).
  apply swp_bind, swp_attempt. unfold swp at 1, lift.
  destruct (parse_announce_total (take RECV_BUF_SIZE data) tid) as [[resp Ep]|Ep]; rewrite Ep.
  - apply swp_ret. split; [done|]. exists addr, id, tid, data. split; [|split; [done|rewrite Hlog; by apply id_known_more]].
    exists (sent s), []. rewrite Hlog in Hr |- *. by rewrite app_nil_r.
  - intros e. apply swp_modify, swp_ret. split; [|done]. destruct Hg' as [Hg' _]. by split.
Qed.

(** The addresses one after the other, with at most two times [MAX_RETRIES] packets to each. *)
Lemma try_addrs_spec id0 req addrs all last s :
  (∀ a, a ∈ addrs → a ∈ all) → ids_known id0 s →
  swp (grown id0 all (length addrs * (2 * MAX_RETRIES)) s) (try_addrs net req addrs last)
    (λ resp s', grown id0 all (length addrs * (2 * MAX_RETRIES)) s s' ∧ announce_good id0 (sent s') req resp) s.
Proof.
  revert last s. induction addrs as [|addr addrs IH]; intros last s Hall Hs; cbn [try_addrs].
  { by apply grown_refl. }
  assert (addr ∈ all) as Hin by (apply Hall; by left).
  assert (∀ a, a ∈ addrs → a ∈ all) as Hall' by (intros a Ha; apply Hall; by right).
  set (k := (length addrs * (2 * MAX_RETRIES))%nat). cbn [length].
  assert (∀ n s1 l, (n ≤ 2 * MAX_RETRIES)%nat → grown id0 all n s s1 →
    swp (grown id0 all (S (length addrs) * (2 * MAX_RETRIES)) s) (try_addrs net req addrs l)
      (λ resp s', grown id0 all (S (length addrs) * (2 * MAX_RETRIES)) s s' ∧ announce_good id0 (sent s') req resp) s1)
    as Hrest.
  { intros n s1 l Hn Hg. pose proof (IH l s1 Hall' (proj2 Hg)) as H. unfold swp in *.
    destruct (try_addrs net req addrs l s1) as [s2 [resp|e| |]]; [|..|done|done].
    - destruct H as [H1 H2]. split; [|done]. eapply grown_trans; [exact Hg|exact H1|lia|done].
    - eapply grown_trans; [exact Hg|exact H|lia|done]. }
  destruct (n_bind net addr); cbn [negb]; [|apply (Hrest O); [lia|by apply grown_refl]].
  apply swp_read. apply swp_bind.
  assert (∀ r s1, grown id0 all MAX_RETRIES s s1 →
    match r with inl id => id_known id0 (sent s1) id | inr _ => True end →
    swp (grown id0 all (S (length addrs) * (2 * MAX_RETRIES)) s)
      match r with
      | inr e => try_addrs net req addrs (Some e)
      | inl id =>
          do! transaction_id := read (λ t, n_random net (sent t)) in
          let packet := build_announce_packet id transaction_id req (event_code (event req)) in
          do! r := announce_loop net MAX_RETRIES addr packet transaction_id last in
          match r with inl response => sret response | inr last_err' => try_addrs net req addrs last_err' end
      end
      (λ resp s', grown id0 all (S (length addrs) * (2 * MAX_RETRIES)) s s' ∧ announce_good id0 (sent s') req resp) s1)
    as Hnext.
  { intros [id|e] s1 Hg Hid; [|apply (Hrest MAX_RETRIES); [lia|done]]. apply swp_read. cbn zeta. apply swp_bind.
    eapply swp_mono; [apply announce_loop_spec; [exact (proj2 Hg)|done]|].
    intros r s2 [Hg2 Hr].
    assert (grown id0 all (2 * MAX_RETRIES) s s2) as Hg3.
    { eapply grown_trans; [exact Hg|by eapply grown_weaken; [exact Hg2|reflexivity|intros a ->%list_elem_of_singleton]|lia|done]. }
    destruct r as [resp|l]; [|by apply (Hrest (2 * MAX_RETRIES)%nat)].
    split; [|done]. eapply grown_weaken; [exact Hg3|lia|done]. }
  destruct (connection_id s) as [id|] eqn:Hcid.
  - apply (Hnext (inl id) s); [by apply grown_refl|by apply Hs].
  - apply swp_bind, swp_attempt. unfold connect. apply swp_read.
    pose proof (connect_loop_spec id0 MAX_RETRIES addr (n_random net (sent s)) s Hs) as Hconn. unfold swp in Hconn |- * at 1.
    destruct (connect_loop net MAX_RETRIES addr _ s) as [s1 [id|e| |]]; [|intros e'|done..].
    + destruct Hconn as [Hg Hid]. apply swp_modify. apply (Hnext (inl id)); [|done].
      destruct Hg as [(ps & E & Hl & HF) _]. split.
      * exists ps. split; [done|]. split; [done|]. eapply Forall_impl; [exact HF|].
        by intros x ->%list_elem_of_singleton.
      * intros id' [= <-]. done.
    + apply (Hnext (inr e') s1); [|done]. eapply grown_weaken; [exact Hconn|lia|].
      by intros a ->%list_elem_of_singleton.
Qed.
End evidence.

(** C35: an announce to a UDP tracker. It never panics, sends at most four connect and four announce
    packets to each address of the tracker and none elsewhere, and a response that it returns is
    what a tracker address answered to an announce of this request, with the transaction id of that
    announce, made with a connection id that was cached or that a tracker address had answered to a
    connect request. *)
Theorem udp_announce_is_answered : ∀ net req id0 addr0,
  let targets := match addr0 with
                 | Some addr => [addr]
                 | None => match n_resolve net with inl addrs => addrs | inr _ => [] end
                 end in
  let t' := (announce net req (mk_udp id0 addr0 [])).1 in
  (length (sent t') ≤ length targets * 8)%nat ∧ Forall (λ p, p.1 ∈ targets) (sent t') ∧
  match (announce net req (mk_udp id0 addr0 [])).2 with
  | Ok resp => announce_good net id0 (sent t') req resp
  | Err _ => True
  | _ => False
  end.
Proof.
  intros net req id0 addr0 targets t'. subst t'.
  assert (∀ cached s, s = mk_udp id0 cached [] →
    swp (grown net id0 targets (length targets * (2 * MAX_RETRIES)) s) (try_addrs net req targets None)
      (λ resp s', grown net id0 targets (length targets * (2 * MAX_RETRIES)) s s' ∧ announce_good net id0 (sent s') req resp) s)
    as Htry.
  { intros cached s ->. apply try_addrs_spec; [done|]. intros id Hid. by left. }
  assert (∀ cached (r : UdpTracker * result AnnounceResponse), r = try_addrs net req targets None (mk_udp id0 cached []) →
    (length (sent r.1) ≤ length targets * 8)%nat ∧ Forall (λ p, p.1 ∈ targets) (sent r.1) ∧
    match r.2 with Ok resp => announce_good net id0 (sent r.1) req resp | Err _ => True | _ => False end) as Hdone.
  { intros cached r ->. pose proof (Htry cached _ eq_refl) as H. unfold swp in H.
    destruct (try_addrs net req targets None _) as [s' [resp|e| |]]; [destruct H as [H Hg]|..|done|done];
      destruct H as [(ps & E & Hl & HF) _]; cbn [sent app fst snd] in *; rewrite E in *;
      (split; [exact Hl|split; [exact HF|done]]). }
  unfold announce, sbind, read, lift, modify. cbn [cached_addr]. destruct addr0 as [addr|].
  - by apply (Hdone (Some addr)).
  - unfold targets in *. destruct (n_resolve net) as [[|first addrs]|e]; cbn [fst snd sent].
    + by apply (Hdone None).
    + by apply (Hdone (Some first)).
    + done.
Qed.

(** The answer of a UDP tracker. Parsing never panics and fails only with a protocol error; an
    answer with another transaction id is refused; an answer with a list of peers of one family is
    read back exactly, unless it holds a positive multiple of three IPv4 peers: those are taken for
    IPv6 peers, one for every three. *)
Theorem udp_response_codec : ∀ v6 tid interval leechers seeders l,
  u32_ok tid → u32_ok interval → u32_ok leechers → u32_ok seeders → Forall (of_family v6) l →
  let peer_data := (if v6 then encode_compact_peers_ipv6 else encode_compact_peers_ipv4) l in
  let d := build_announce_response tid interval leechers seeders peer_data in
  (∀ data tid', (∃ r, parse_announce_response data tid' = Ok r) ∨
                parse_announce_response data tid' = Err TrackerProtocolError) ∧
  (∀ tid', tid' ≠ tid → parse_announce_response d tid' = Err TrackerProtocolError) ∧
  (v6 = true ∨ l = [] ∨ (length l mod 3 ≠ 0)%nat →
     parse_announce_response d tid = Ok (response_from_udp_fields interval seeders leechers l)) ∧
  (v6 = false → l ≠ [] → (length l mod 3 = 0)%nat →
     ∃ l', parse_announce_response d tid = Ok (response_from_udp_fields interval seeders leechers l') ∧
           (3 * length l' = length l)%nat ∧ Forall (λ a, is_v6 a = true) l').
Proof.
  intros v6 tid i le se l Ht Hi Hle Hse Hl peer_data d. split; [apply parse_announce_total|].
  assert (Forall addr_ok l) as Haddr by (eapply Forall_impl; [exact Hl|]; by intros a [? _]).
  assert (keep_addrs v6 l = l) as Hkeep.
  { apply filter_every. intros a Ha. eapply Forall_forall in Hl; [|exact Ha]. apply Hl. }
  assert (length peer_data = length l * (octet_count v6 + 2))%nat as Hlen.
  { unfold peer_data. rewrite encode_peers_eq, Hkeep. rewrite (length_concat_fixed (octet_count v6 + 2)).
    - rewrite length_map. lia.
    - apply Forall_map. eapply Forall_impl; [exact Hl|]. intros a Ha. by apply fc_put_length. }
  pose proof (parse_encode_peers v6 l Haddr) as Hparse. rewrite Hkeep in Hparse. fold peer_data in Hparse.
  split; [|split].
  - intros tid' Hne. unfold parse_announce_response. pose proof (parse_announce_built tid i le se peer_data Ht Hi Hle Hse) as E.
    destruct (check_header_total 20 1 d tid') as [Hok|Herr]; [lia| |by rewrite Herr].
    exfalso. destruct (check_header_ok _ _ _ _ Hok) as (_ & _ & Htid). unfold d, build_announce_response in Htid.
    rewrite (get_be_app 4 (be_bytes 4 1)) in Htid by done. congruence.
  - intros Hcase. unfold d. rewrite parse_announce_built by done.
    destruct peer_data as [|b pd] eqn:Epd.
    { destruct l; [done|]. cbn [length] in Hlen. lia. }
    destruct v6; cbn [octet_count] in *.
    + rewrite Hlen. change (16 + 2)%nat with 18%nat. rewrite Nat.Div0.mod_mul. cbn [Nat.eqb]. by rewrite Hparse.
    + rewrite (proj2 (Nat.eqb_neq (length (b :: pd) mod 18) 0)), (proj2 (Nat.eqb_eq (length (b :: pd) mod 6) 0)).
      * by rewrite Hparse.
      * rewrite Hlen. change (4 + 2)%nat with 6%nat. apply Nat.Div0.mod_mul.
      * destruct Hcase as [|[->|Hm]]; [done|done|]. rewrite Hlen. change (4 + 2)%nat with 6%nat.
        change 18%nat with (3 * 6)%nat. rewrite Nat.Div0.mul_mod_distr_r. lia.
  - intros -> Hne Hmod. unfold d. rewrite parse_announce_built by done. cbn [octet_count] in Hlen.
    assert (length peer_data mod 18 = 0)%nat as H18.
    { rewrite Hlen. change (4 + 2)%nat with 6%nat. change 18%nat with (3 * 6)%nat.
      rewrite Nat.Div0.mul_mod_distr_r. lia. }
    destruct peer_data as [|b pd] eqn:Epd.
    { destruct l; [done|]. cbn [length] in Hlen. lia. }
    rewrite (proj2 (Nat.eqb_eq _ _) H18). pose proof (parse_peers_eq true (b :: pd)) as E6.
    cbn [octet_count] in E6. change (16 + 2)%nat with 18%nat in E6. rewrite (proj2 (Nat.eqb_eq _ _) H18) in E6.
    cbn [obind]. rewrite E6. eexists. split; [done|]. split.
    + rewrite length_map. destruct (chunks_exact_inv 18 (b :: pd)) as (Ec & Hrem & HF); [lia|].
      apply (f_equal length) in Ec. rewrite length_app, Hrem, H18, (length_concat_fixed 18) in Ec by done.
      change (fc_width (addr_codec true)) with 18%nat. lia.
    + apply List.Forall_map, Forall_forall. intros c _. done.
Qed.

Definition sample_request : AnnounceRequest := request_new (replicate 20 1) (replicate 20 2) 6881.

Definition tracker_a : SocketAddr := mk_addr (V4 [10; 0; 0; 1]) 6969.
Definition tracker_b : SocketAddr := mk_addr (V4 [10; 0; 0; 2]) 6969.

Definition sample_list : list SocketAddr := [mk_addr (V4 [192; 168; 1; 7]) 51413; tracker_a].

Lemma udp_response_codec_witness :
  parse_announce_response
    (build_announce_response 9 1800 3 4 (encode_compact_peers_ipv4 sample_list)) 9 =
  Ok (response_from_udp_fields 1800 4 3 sample_list).
Proof.
  destruct (udp_response_codec false 9 1800 3 4 sample_list) as (_ & _ & H & _); try (unfold u32_ok; cbn; lia).
  - apply (bool_decide_unpack _). vm_compute. exact I.
  - apply H. right. right. vm_compute. discriminate.
Defined.

(** A tracker that stops answering: the cached connection id is never given up, so that no announce
    ever connects again. *)
Lemma timeouts_keep_connection_id net req id addr :
  (∀ log, n_recv net log = Elapsed) →
  connection_id (announce net req (mk_udp (Some id) (Some addr) [])).1 = Some id.
Proof.
  intros Hr.
  assert (∀ tries packet tid last s, connection_id (announce_loop net tries addr packet tid last s).1 = connection_id s ∧
    ∃ r, (announce_loop net tries addr packet tid last s).2 = Ok (inr r)) as Hloop.
  { induction tries as [|tries IH]; intros packet tid last s; [split; [done|by exists last]|].
    cbn [announce_loop]. unfold sbind, attempt, send_to, read, modify, lift, recv_from. cbn [sbind].
    unfold sbind, read. destruct (n_send net (sent s) addr); [|split; [done|by eexists]].
    rewrite Hr. destruct (IH packet tid last (add_sent (addr, packet) s)) as [E1 E2]. by rewrite E1. }
  unfold announce, sbind, read, sret. cbn [cached_addr try_addrs]. destruct (n_bind net addr); cbn [negb]; [|done].
  unfold sbind, read, sret. cbn [connection_id sent].
  match goal with |- context [announce_loop net MAX_RETRIES addr ?p ?t None ?s] =>
    destruct (Hloop MAX_RETRIES p t None s) as [E1 [r E2]]; destruct (announce_loop net MAX_RETRIES addr p t None s) as [s' o] end.
  cbn [fst snd] in *. subst o. exact E1.
Qed.

(** The connection id of one address is used for the next one, which never issued it. *)
Example connection_id_of_another_address :
  let net := {| n_resolve := inl [tracker_a; tracker_b]; n_bind := λ _, true; n_random := λ _, 5;
                n_send := λ _ _, true;
                n_recv := λ log, match log with
                                 | [_] => Datagram (be_bytes 4 0 ++ be_bytes 4 5 ++ be_bytes 8 7) tracker_a
                                 | _ => Elapsed
                                 end |} in
  map fst (filter (λ p, p.2 = build_connect_packet 5) (sent (announce net sample_request (mk_udp None None [])).1))
    = [tracker_a] ∧
  last (sent (announce net sample_request (mk_udp None None [])).1) =
    Some (tracker_b, build_announce_packet 7 5 sample_request 0).
Proof. vm_compute. done. Qed.
