(* ===== verification/Storage.v ===== *)
(** Storage of a torrent's data: the [Storage] trait of [crates/torrent-core/src/storage/mod.rs]
    and its file backend, [crates/torrent/src/storage/file_backend.rs].

    The file system is a map from files to contents; [resolve] is what the operating system does
    with a path, an argument of the model, so that two paths may name one file. Opening a file that
    does not exist fails, as does reading past the end of a file; a write to an open file succeeds.
    Directories are not modelled. *)

From stdpp Require Import base numbers list gmap strings.
From Stdlib Require Import ZArith Lia.
From S2P Require Import Prelude Facts Error Metainfo Step.

(** * The trait *)

(** [trait Storage]: the operations of a storage [T] over an outside world [W]. A buffer that an
    operation fills is the state of its step. *)
Class Storage (T W : Type) : Type := {
  read_block : T → W → Z → Z → step bytes unit;
  read_piece : T → W → Z → step bytes unit;
  write_block : T → Z → Z → bytes → step W unit;
  write_piece : T → Z → bytes → step W unit;
  prepare : T → step W unit;
}.

(** The default body of [Storage::write_piece]: one [write_block] for every 16 KiB of the piece. *)
Definition DEFAULT_BLOCK_SIZE : nat := 16 * 1024.

Definition default_write_piece {W} (write_block : Z → Z → bytes → step W unit) (index : Z) (data : bytes)
    : step W unit :=
  for_each (imap pair (chunks DEFAULT_BLOCK_SIZE data)) (λ '(i, chunk),
    write_block index (as_u32 (Z.of_nat (i * DEFAULT_BLOCK_SIZE))) chunk).

(** * Paths *)

(** [PathBuf::push] on Unix: an absolute path replaces what it is pushed on. *)
Abbreviation c_slash := 47 (only parsing).

Definition is_absolute (p : bytes) : bool := match p with c :: _ => c =? c_slash | [] => false end.

Definition push (p component : bytes) : bytes :=
  if is_absolute component then component
  else
    match last p with
    | None => component
    | Some c => if c =? c_slash then p ++ component else p ++ [c_slash] ++ component
    end.

(** * Layout *)

(** [struct StorageFile], [enum StorageMode] and [struct FileStorage]. *)
Record StorageFile : Type := mk_storage_file { sf_path : bytes; sf_length : Z }.

Inductive StorageMode : Type :=
| SingleFile (path : bytes)
| MultiFile (files : list StorageFile).

Record FileStorage : Type := mk_storage {
  st_num_pieces : nat;
  st_piece_length : Z;
  st_total_size : Z;
  st_mode : StorageMode;
}.

(** [FileStorage::new]. *)
Definition file_storage_new (i : Info) (download_dir : bytes) : result FileStorage :=
  let! total := total_size i in
  Ok {|
    st_num_pieces := num_pieces i;
    st_piece_length := piece_length i;
    st_total_size := total;
    st_mode :=
      match mode i with
      | Single name _ => SingleFile (push download_dir name)
      | Multiple name files =>
          let dir := push download_dir name in
          MultiFile (map (λ f, {| sf_path := foldl push dir (file_path f);
                                  sf_length := file_length f |}) files)
      end |}.

(** [index as u64 * self.piece_length]. *)
Definition piece_offset (s : FileStorage) (index : Z) : result Z :=
  checked_mul_panic index (st_piece_length s).

Definition piece_len_for_index (s : FileStorage) (index : Z) : result Z :=
  if Z.of_nat (st_num_pieces s) <=? index then Ok 0
  else
    let! start := checked_mul_panic index (st_piece_length s) in
    if index =? Z.of_nat (st_num_pieces s) - 1 then checked_sub_panic (st_total_size s) start
    else Ok (st_piece_length s).

(** The loop of [map_byte_range]. *)
Fixpoint map_range_loop (offset stop current_offset : Z) (files : list StorageFile)
    : result (list (bytes * Z * Z)) :=
  match files with
  | [] => Ok []
  | f :: files' =>
      let file_start := current_offset in
      let! file_end := checked_add_panic u64_max current_offset (sf_length f) in
      let range :=
        if (offset <? file_end) && (file_start <? stop) then
          let read_start := Z.max file_start offset - file_start in
          let read_end := Z.min file_end stop - file_start in
          [(sf_path f, read_start, read_end - read_start)]
        else [] in
      if stop <=? file_end then Ok range
      else let! rest := map_range_loop offset stop file_end files' in Ok (range ++ rest)
  end.

Definition map_byte_range (offset len : Z) (files : list StorageFile) : result (list (bytes * Z * Z)) :=
  let! stop := checked_add_panic u64_max offset len in
  map_range_loop offset stop 0 files.

(** * The file system *)

(** What a write of [data] at [off] leaves in a file of contents [c]: the gap after the end of the
    file is filled with zeros. *)
Definition overwrite (c : bytes) (off : nat) (data : bytes) : bytes :=
  match data with
  | [] => c
  | _ => take off (c ++ replicate (off - length c) 0) ++ data ++ drop (off + length data) c
  end.

Section file_storage.
Context {K : Type} `{Countable K} (resolve : bytes → K).

Abbreviation Fs := (gmap K bytes).

(** [File::open], [seek] and [read_exact]. *)
Definition read_at (fs : Fs) (path : bytes) (offset len : Z) : result bytes :=
  let! c := ok_or (fs !! resolve path) Io in
  let! _ := guard_err (i64_max <? offset) Io in
  let! _ := guard_err ((0 <? len) && (zlen c <? offset + len)) Io in
  Ok (take (Z.to_nat len) (drop (Z.to_nat offset) c)).

(** [OpenOptions::new().write(true).open], [seek] and [write_all]. *)
Definition write_at (path : bytes) (offset : Z) (data : bytes) : step Fs unit :=
  do! file := read (λ fs, fs !! resolve path) in
  do! c := lift (ok_or file Io) in
  do! _ := lift (guard_err (i64_max <? offset) Io) in
  modify (λ fs, <[resolve path := overwrite c (Z.to_nat offset) data]> fs).

(** [fs::File::create_new] and [set_len]. *)
Definition create_new (path : bytes) (len : Z) : step Fs unit :=
  do! file := read (λ fs, fs !! resolve path) in
  do! _ := lift (guard_err (bool_decide (is_Some file)) Io) in
  modify (λ fs, <[resolve path := replicate (Z.to_nat len) 0]> fs).

(** [buf[at..at + data.len()].copy_from_slice(&data)]. *)
Definition copy_into (start : nat) (data : bytes) : step bytes unit := λ buf,
  if (start + length data <=? length buf)%nat then (overwrite buf start data, Ok tt) else (buf, Panic).

(** * Reading and writing ranges *)

(** The loop of [read_range] over the ranges of a torrent of several files. *)
Fixpoint read_ranges (fs : Fs) (ranges : list (bytes * Z * Z)) (buf_offset : Z) : step bytes unit :=
  match ranges with
  | [] => sret tt
  | (path, file_offset, read_len) :: ranges' =>
      do! buf := read id in
      do! stop := lift (checked_add_panic u64_max buf_offset read_len) in
      do! actual_len := lift (checked_sub_panic (Z.min stop (zlen buf)) buf_offset) in
      if actual_len =? 0 then sret tt
      else
        do! data := lift (read_at fs path file_offset actual_len) in
        do! _ := copy_into (Z.to_nat buf_offset) data in
        read_ranges fs ranges' stop
  end.

(** [FileStorage::read_range]. *)
Definition read_range (s : FileStorage) (fs : Fs) (offset len : Z) : step bytes unit :=
  match st_mode s with
  | SingleFile path =>
      do! data := lift (read_at fs path offset len) in
      copy_into 0 data
  | MultiFile files =>
      do! ranges := lift (map_byte_range offset len files) in
      read_ranges fs ranges 0
  end.

(** The loop of [write_range] over the ranges of a torrent of several files. *)
Fixpoint write_ranges (ranges : list (bytes * Z * Z)) (data : bytes) (data_offset : Z) : step Fs unit :=
  match ranges with
  | [] => sret tt
  | (path, file_offset, write_len) :: ranges' =>
      do! stop := lift (checked_add_panic u64_max data_offset write_len) in
      let last := Z.min stop (zlen data) in
      if last <=? data_offset then sret tt
      else
        do! chunk := lift (slice data (Z.to_nat data_offset) (Z.to_nat last)) in
        do! _ := write_at path file_offset chunk in
        write_ranges ranges' data stop
  end.

(** [FileStorage::write_range]. *)
Definition write_range (s : FileStorage) (offset : Z) (data : bytes) : step Fs unit :=
  match st_mode s with
  | SingleFile path => write_at path offset data
  | MultiFile files =>
      do! ranges := lift (map_byte_range offset (zlen data) files) in
      write_ranges ranges data 0
  end.

(** * [impl Storage for FileStorage] *)

Definition file_read_block (s : FileStorage) (fs : Fs) (piece offset : Z) : step bytes unit :=
  do! buf := read id in
  do! start := lift (piece_offset s piece) in
  do! global_offset := lift (checked_add_panic u64_max start offset) in
  read_range s fs global_offset (zlen buf).

Definition file_read_piece (s : FileStorage) (fs : Fs) (index : Z) : step bytes unit :=
  do! offset := lift (piece_offset s index) in
  do! read_len := lift (piece_len_for_index s index) in
  read_range s fs offset read_len.

Definition file_write_block (s : FileStorage) (piece offset : Z) (data : bytes) : step Fs unit :=
  do! start := lift (piece_offset s piece) in
  do! global_offset := lift (checked_add_panic u64_max start offset) in
  write_range s global_offset data.

Definition file_write_piece (s : FileStorage) (index : Z) (data : bytes) : step Fs unit :=
  do! start := lift (piece_offset s index) in
  write_range s start data.

Definition file_prepare (s : FileStorage) : step Fs unit :=
  match st_mode s with
  | SingleFile path => create_new path (st_total_size s)
  | MultiFile files => for_each files (λ f, create_new (sf_path f) (sf_length f))
  end.

#[global] Instance file_storage : Storage FileStorage Fs := {
  read_block := file_read_block;
  read_piece := file_read_piece;
  write_block := file_write_block;
  write_piece := file_write_piece;
  prepare := file_prepare;
}.

End file_storage.
