(* ===== verification/StorageFacts.v ===== *)
(** The file backend stores a torrent as one flat array of bytes, whatever the sizes of its files.
    [FlatReads] is what a client that reads relies on, [FlatStorage] what one that writes does. *)

From stdpp Require Import base numbers list gmap strings.
From Stdlib Require Import ZArith Lia.
From S2P Require Import Prelude Facts Error Metainfo MetainfoFiles Step Storage.

(** * Overwriting a part of an array *)

Lemma overwrite_in c off data :
  (off + length data ≤ length c)%nat →
  overwrite c off data = take off c ++ data ++ drop (off + length data) c.
Proof.
  intros H. unfold overwrite. destruct data as [|b data'].
  - cbn [length app]. by rewrite Nat.add_0_r, take_drop.
  - replace (off - length c)%nat with O by lia. cbn [replicate]. by rewrite app_nil_r.
Qed.

Lemma overwrite_length c off data :
  (off + length data ≤ length c)%nat → length (overwrite c off data) = length c.
Proof. intros H. rewrite overwrite_in by done. rewrite !length_app, length_take, length_drop. lia. Qed.

(** Writing behind, before and across the border of two arrays. *)
Lemma overwrite_app_r c r off data :
  (length c ≤ off)%nat → (off + length data ≤ length c + length r)%nat →
  overwrite (c ++ r) off data = c ++ overwrite r (off - length c) data.
Proof.
  intros Ho Hl. rewrite !overwrite_in by (rewrite ?length_app; lia).
  rewrite take_app_ge, drop_app_ge by lia. rewrite <- app_assoc. do 4 f_equal. lia.
Qed.

Lemma overwrite_app_l c r off data :
  (off + length data ≤ length c)%nat → overwrite (c ++ r) off data = overwrite c off data ++ r.
Proof.
  intros Hl. rewrite !overwrite_in by (rewrite ?length_app; lia).
  rewrite take_app_le, drop_app_le by lia. by rewrite <- !app_assoc.
Qed.

Lemma overwrite_app_mid c r off data :
  (off ≤ length c ≤ off + length data)%nat → (off + length data ≤ length c + length r)%nat →
  overwrite (c ++ r) off data =
  overwrite c off (take (length c - off) data) ++ overwrite r 0 (drop (length c - off) data).
Proof.
  intros Ho Hl. rewrite !overwrite_in by (rewrite ?length_app, ?length_take, ?length_drop; lia).
  rewrite take_app_le, drop_app_ge by lia. rewrite length_take, length_drop.
  rewrite (drop_ge c) by lia. rewrite app_nil_r. cbn [take]. rewrite app_nil_l, <- !app_assoc. f_equal.
  rewrite app_assoc, take_drop. do 2 f_equal. lia.
Qed.

(** Two adjacent writes are one. *)
Lemma overwrite_twice c off d1 d2 :
  (off + length d1 + length d2 ≤ length c)%nat →
  overwrite (overwrite c off d1) (off + length d1) d2 = overwrite c off (d1 ++ d2).
Proof.
  intros Hl. rewrite (overwrite_in _ (off + length d1)) by (rewrite overwrite_length; lia).
  rewrite !(overwrite_in c) by (rewrite ?length_app; lia).
  rewrite (app_assoc (take off c)), take_app_length' by (rewrite length_app, length_take; lia).
  rewrite drop_app_ge by (rewrite length_app, length_take; lia).
  rewrite drop_drop, length_app, length_app, length_take, <- !app_assoc. do 4 f_equal. lia.
Qed.

Lemma lookup_overwrite c off data j :
  (off + length data ≤ length c)%nat →
  overwrite c off data !! j =
  if (off <=? j)%nat && (j <? off + length data)%nat then data !! (j - off)%nat else c !! j.
Proof.
  intros Hl. rewrite overwrite_in by done.
  destruct (Nat.leb_spec off j), (Nat.ltb_spec j (off + length data)); cbn [andb].
  - rewrite lookup_app_r, length_take by (rewrite length_take; lia).
    rewrite lookup_app_l by lia. f_equal. lia.
  - rewrite lookup_app_r, length_take by (rewrite length_take; lia).
    rewrite lookup_app_r by lia. rewrite lookup_drop. f_equal. lia.
  - rewrite lookup_app_l by (rewrite length_take; lia). by rewrite lookup_take_lt by lia.
  - lia.
Qed.

(** * The array of a storage *)

(** What a storage over an array [flat] of [total] bytes promises to its readers: in-bounds reads
    succeed and are those of the array, at the offset [piece * piece_len + offset]. *)
Class FlatReads {T W : Type} `{Storage T W} (t : T) (piece_len total : Z) (ready : W → Prop)
    (flat : W → bytes) : Prop := {
  flat_length w : ready w → zlen (flat w) = total;
  flat_read_block w p o buf :
    ready w → 0 ≤ p → 0 ≤ o → p * piece_len + o + zlen buf ≤ total →
    read_block t w p o buf =
    (take (length buf) (drop (Z.to_nat (p * piece_len + o)) (flat w)), Ok tt);
  flat_read_piece w p buf :
    ready w → 0 ≤ p → p * piece_len < total → Z.min piece_len (total - p * piece_len) ≤ zlen buf →
    read_piece t w p buf =
    (overwrite buf 0 (take (Z.to_nat piece_len) (drop (Z.to_nat (p * piece_len)) (flat w))), Ok tt);
}.

(** A storage that can be written, too: in-bounds writes are those of the array. *)
Class FlatStorage {T W : Type} `{Storage T W} (t : T) (piece_len total : Z) (ready : W → Prop)
    (flat : W → bytes) : Prop := {
  flat_reads :: FlatReads t piece_len total ready flat;
  flat_write_block w p o data :
    ready w → 0 ≤ p → 0 ≤ o → p * piece_len + o + zlen data ≤ total →
    ∃ w', write_block t p o data w = (w', Ok tt) ∧ ready w' ∧
          flat w' = overwrite (flat w) (Z.to_nat (p * piece_len + o)) data;
  flat_write_piece w p data :
    ready w → 0 ≤ p → p * piece_len + zlen data ≤ total →
    ∃ w', write_piece t p data w = (w', Ok tt) ∧ ready w' ∧
          flat w' = overwrite (flat w) (Z.to_nat (p * piece_len)) data;
}.

(** * The default [write_piece] *)

Section default_write_piece.
Context {T W : Type} `{Storage T W} {t : T} {piece_len total : Z} {ready : W → Prop} {flat : W → bytes}.
Context `{!FlatStorage t piece_len total ready flat}.

(** The blocks from block [i] on. *)
Lemma write_blocks_flat p i data w :
  ready w → 0 ≤ p → p * piece_len + Z.of_nat (i * DEFAULT_BLOCK_SIZE) + zlen data ≤ total →
  0 ≤ p * piece_len → Z.of_nat (i * DEFAULT_BLOCK_SIZE) + zlen data ≤ 2 ^ 32 →
  ∃ w',
    for_each (imap (λ k c, ((i + k)%nat, c)) (chunks DEFAULT_BLOCK_SIZE data)) (λ '(i, chunk),
      write_block t p (as_u32 (Z.of_nat (i * DEFAULT_BLOCK_SIZE))) chunk) w = (w', Ok tt) ∧ ready w' ∧
    flat w' = overwrite (flat w) (Z.to_nat (p * piece_len) + i * DEFAULT_BLOCK_SIZE) data.
Proof.
  assert (0 < DEFAULT_BLOCK_SIZE)%nat as Hn by (unfold DEFAULT_BLOCK_SIZE; lia).
  assert (∃ n, n = length data) as [n Hd] by eauto. revert i data Hd w.
  induction n as [n IH] using lt_wf_ind. intros i data Hd w Hw Hp Hb Hpp H32.
  destruct (decide (data = [])) as [->|Hne].
  { exists w. cbn. done. }
  assert (0 < length data)%nat as Hl by (destruct data; cbn; [done|lia]).
  rewrite chunks_cons by done. cbn [imap for_each]. rewrite Nat.add_0_r.
  assert (∀ l : list bytes, imap ((λ k c, ((i + k)%nat, c)) ∘ S) l = imap (λ k c, ((S i + k)%nat, c)) l)
    as -> by (intros l; apply imap_ext; intros k c _; cbn; f_equal; lia).
  set (B := DEFAULT_BLOCK_SIZE) in *.
  unfold as_u32. rewrite Z.mod_small by (unfold zlen in *; lia).
  assert (length (take B data) + length (drop B data) = length data)%nat as Hsum.
  { rewrite <- length_app. by rewrite take_drop. }
  destruct (flat_write_block w p (Z.of_nat (i * B)) (take B data)) as (w1 & E1 & Hw1 & F1);
    [done|done|lia|unfold zlen in *; lia|].
  unfold sbind. rewrite E1.
  pose proof (flat_length w Hw) as Hfl. pose proof (flat_length w1 Hw1) as Hfl1.
  destruct (decide (length data ≤ B)%nat) as [Hle|Hgt].
  - rewrite drop_ge by done. exists w1. split; [done|]. split; [done|].
    rewrite F1, take_ge by done. f_equal. lia.
  - assert (length (take B data) = B) as HB by (rewrite length_take; lia).
    destruct (IH (length (drop B data)) ltac:(lia) (S i) (drop B data) eq_refl w1 Hw1 Hp)
      as (w2 & E2 & Hw2 & F2); [unfold zlen in *; lia|done|unfold zlen in *; lia|].
    exists w2. split; [exact E2|]. split; [done|]. rewrite F2, F1.
    replace (Z.to_nat (p * piece_len) + S i * B)%nat
      with (Z.to_nat (p * piece_len + Z.of_nat (i * B)) + length (take B data))%nat by lia.
    rewrite overwrite_twice by (unfold zlen in *; lia).
    rewrite take_drop. f_equal. lia.
Qed.

(** The default body of [write_piece] writes the piece where a single write would. *)
Lemma default_write_piece_flat p data w :
  ready w → 0 ≤ p → 0 ≤ p * piece_len → p * piece_len + zlen data ≤ total → zlen data ≤ 2 ^ 32 →
  ∃ w', default_write_piece (write_block t) p data w = (w', Ok tt) ∧ ready w' ∧
    flat w' = overwrite (flat w) (Z.to_nat (p * piece_len)) data.
Proof.
  intros Hw Hp Hpp Hb H32.
  destruct (write_blocks_flat p 0 data w) as (w' & E & Hw' & F); [done|done|lia|done|lia|].
  exists w'. split; [exact E|]. split; [done|]. rewrite F. f_equal. lia.
Qed.
End default_write_piece.

(** * The files of a storage as an array *)

Section file_storage.
Context {K : Type} `{Countable K} (resolve : bytes → K).
Implicit Types (fs : gmap K bytes) (files : list StorageFile).

Definition file_content fs (f : StorageFile) : bytes := default [] (fs !! resolve (sf_path f)).

Definition flat_of files fs : bytes := concat (map (file_content fs) files).

(** Every file exists with its length, and no two paths lead to the same file. *)
Definition present fs (f : StorageFile) : Prop :=
  ∃ c, fs !! resolve (sf_path f) = Some c ∧ zlen c = sf_length f.

Definition files_ready files fs : Prop := Forall (present fs) files.

Definition distinct files : Prop := NoDup (map (λ f, resolve (sf_path f)) files).

(** The lengths of files a torrent may have for the storage to work: an empty file stops a read or
    a write that crosses it (see [write_stops_at_empty_file]). *)
Definition sizes_ok files : Prop := Forall (λ f, 0 < sf_length f ≤ i64_max) files.

Definition total_of files : Z := foldr (λ f acc, sf_length f + acc) 0 files.

Lemma present_content fs f : present fs f → zlen (file_content fs f) = sf_length f.
Proof. intros (c & E & Hc). unfold file_content. by rewrite E. Qed.

Lemma flat_of_length files fs : files_ready files fs → zlen (flat_of files fs) = total_of files.
Proof.
  induction 1 as [|f l Hf _ IH]; [done|]. unfold flat_of in *. cbn. rewrite zlen_app.
  rewrite IH. by rewrite present_content.
Qed.

Lemma total_nonneg files : Forall (λ f, 0 ≤ sf_length f) files → 0 ≤ total_of files.
Proof. induction 1 as [|f l Hf _ IH]; cbn [total_of foldr]; [done|]. fold (total_of l). lia. Qed.

Lemma total_of_nonneg files : sizes_ok files → 0 ≤ total_of files.
Proof. intros Hs. apply total_nonneg. eapply Forall_impl; [exact Hs|]. cbn. lia. Qed.

(** What happens to one file leaves the others alone. *)
Lemma flat_of_insert files fs k c :
  k ∉ map (λ f, resolve (sf_path f)) files → flat_of files (<[k := c]> fs) = flat_of files fs.
Proof.
  induction files as [|f l IH]; intros Hk; [done|]. unfold flat_of in *. cbn in *.
  apply not_elem_of_cons in Hk as [Hk1 Hk2]. rewrite IH by done. f_equal. unfold file_content.
  by rewrite lookup_insert_ne.
Qed.

Lemma files_ready_insert files fs k c :
  k ∉ map (λ f, resolve (sf_path f)) files → files_ready files fs → files_ready files (<[k := c]> fs).
Proof.
  induction files as [|f l IH]; intros Hk Hr; [constructor|]. cbn in Hk.
  apply not_elem_of_cons in Hk as [Hk1 Hk2]. apply Forall_cons in Hr as [(c' & E & Hc) Hr].
  apply Forall_cons. split; [|by apply IH]. exists c'. by rewrite lookup_insert_ne.
Qed.

(** One file: reading inside it, and writing inside it. *)
Lemma read_at_present fs f o len :
  present fs f → sf_length f ≤ i64_max → 0 ≤ o → 0 ≤ len → o + len ≤ sf_length f →
  read_at resolve fs (sf_path f) o len =
  Ok (take (Z.to_nat len) (drop (Z.to_nat o) (file_content fs f))).
Proof.
  intros (c & E & Hc) Hmax Ho Hn Hb. unfold read_at, file_content. rewrite E. cbn [ok_or obind default].
  rewrite (proj2 (Z.ltb_ge _ _)) by lia. rewrite (proj2 (Z.ltb_ge (zlen c) _)) by lia.
  by rewrite andb_false_r.
Qed.

Lemma write_at_present fs f o data :
  present fs f → sf_length f ≤ i64_max → 0 ≤ o → o + zlen data ≤ sf_length f →
  let c := overwrite (file_content fs f) (Z.to_nat o) data in
  write_at resolve (sf_path f) o data fs = (<[resolve (sf_path f) := c]> fs, Ok tt) ∧
  zlen c = sf_length f.
Proof.
  intros (c & E & Hc) Hmax Ho Hb. unfold write_at, file_content. rewrite E. cbn [default id].
  unfold sbind, read, lift, modify. rewrite E. cbn [ok_or].
  rewrite (proj2 (Z.ltb_ge _ _)) by (unfold zlen in *; lia). cbn [guard_err]. split; [done|].
  unfold zlen in *. rewrite overwrite_length; lia.
Qed.

(** A step of the loop over the files: a file that ends before the range is skipped; a file that
    overlaps it contributes one range. *)
Lemma map_range_skip offset stop cur f files :
  cur + sf_length f ≤ offset → offset < stop → cur + sf_length f ≤ u64_max →
  map_range_loop offset stop cur (f :: files) = map_range_loop offset stop (cur + sf_length f) files.
Proof.
  intros H1 H2 H3. cbn [map_range_loop]. rewrite checked_add_ok by done. cbn [obind].
  rewrite (proj2 (Z.ltb_ge _ _)) by lia. rewrite (proj2 (Z.leb_gt _ _)) by lia. cbn [andb].
  by destruct (map_range_loop offset stop (cur + sf_length f) files).
Qed.

Lemma map_range_last offset stop cur f files :
  offset < stop ≤ cur + sf_length f → cur < stop → cur + sf_length f ≤ u64_max →
  map_range_loop offset stop cur (f :: files) =
  Ok [(sf_path f, Z.max cur offset - cur, stop - Z.max cur offset)].
Proof.
  intros H1 H2 H3. cbn [map_range_loop]. rewrite checked_add_ok by done. cbn [obind].
  rewrite (proj2 (Z.ltb_lt _ _)) by lia. rewrite (proj2 (Z.ltb_lt _ _)) by lia.
  rewrite (proj2 (Z.leb_le _ _)) by lia. cbn [andb]. do 3 f_equal. lia.
Qed.

Lemma map_range_more offset stop cur f files :
  offset < cur + sf_length f < stop → cur + sf_length f ≤ u64_max → 0 < sf_length f →
  map_range_loop offset stop cur (f :: files) =
  (let! rest := map_range_loop offset stop (cur + sf_length f) files in
   Ok ((sf_path f, Z.max cur offset - cur, cur + sf_length f - Z.max cur offset) :: rest)).
Proof.
  intros H1 H2 H3. cbn [map_range_loop]. rewrite checked_add_ok by done. cbn [obind].
  rewrite (proj2 (Z.ltb_lt _ _)) by lia. rewrite (proj2 (Z.ltb_lt _ _)) by lia.
  rewrite (proj2 (Z.leb_gt _ _)) by lia. cbn [andb].
  destruct (map_range_loop offset stop (cur + sf_length f) files); [|done..]. cbn [obind app].
  do 3 f_equal. lia.
Qed.

Lemma distinct_cons f files :
  distinct (f :: files) → (resolve (sf_path f) ∉ map (λ f, resolve (sf_path f)) files) ∧ distinct files.
Proof. unfold distinct. cbn. by rewrite NoDup_cons. Qed.

Lemma flat_of_cons f files fs : flat_of (f :: files) fs = file_content fs f ++ flat_of files fs.
Proof. done. Qed.

(** One turn of the write loop: it writes the next [n] bytes of the data. *)
Lemma write_ranges_step f o n ranges data d fs :
  present fs f → sf_length f ≤ i64_max → 0 ≤ o → o + n ≤ sf_length f → 0 ≤ d → 0 < n →
  d + n ≤ zlen data → d + n ≤ u64_max →
  let fs1 := <[resolve (sf_path f) :=
                 overwrite (file_content fs f) (Z.to_nat o) (take (Z.to_nat n) (drop (Z.to_nat d) data))]> fs in
  write_ranges resolve ((sf_path f, o, n) :: ranges) data d fs =
  write_ranges resolve ranges data (d + n) fs1 ∧ present fs1 f.
Proof.
  intros Hp Hmax Ho Hb Hd Hn Hl Hu fs1.
  set (chunk := take (Z.to_nat n) (drop (Z.to_nat d) data)) in *.
  assert (zlen chunk = n) as Hck.
  { subst chunk. unfold zlen in *. rewrite length_take, length_drop. lia. }
  destruct (write_at_present fs f o chunk Hp Hmax Ho ltac:(lia)) as [E Hlen]. split.
  - cbn [write_ranges]. rewrite checked_add_ok by lia. unfold sbind at 1, lift at 1.
    rewrite (Z.min_l (d + n)) by lia. rewrite (proj2 (Z.leb_gt _ _)) by lia.
    rewrite slice_ok by (unfold zlen in *; lia). unfold sbind at 1, lift at 1.
    replace (Z.to_nat (d + n) - Z.to_nat d)%nat with (Z.to_nat n) by lia. fold chunk.
    unfold sbind at 1. by rewrite E.
  - exists (overwrite (file_content fs f) (Z.to_nat o) chunk). split; [|done]. by apply lookup_insert_eq.
Qed.

(** A file that the rest of a loop does not touch. *)
Lemma file_content_eq fs fs' f :
  fs' !! resolve (sf_path f) = fs !! resolve (sf_path f) → file_content fs' f = file_content fs f.
Proof. unfold file_content. by intros ->. Qed.

Lemma present_eq fs fs' f :
  fs' !! resolve (sf_path f) = fs !! resolve (sf_path f) → present fs f → present fs' f.
Proof. unfold present. by intros ->. Qed.

(** The write loop over the files from [cur] on, with [d] bytes of the data already written. *)
Lemma write_ranges_flat files offset data d cur fs :
  sizes_ok files → distinct files → files_ready files fs →
  0 ≤ cur → cur + total_of files ≤ u64_max → d = Z.max 0 (cur - offset) → 0 ≤ offset →
  d < zlen data → offset + zlen data ≤ cur + total_of files →
  ∃ rs fs',
    map_range_loop offset (offset + zlen data) cur files = Ok rs ∧
    write_ranges resolve rs data d fs = (fs', Ok tt) ∧ files_ready files fs' ∧
    flat_of files fs' =
      overwrite (flat_of files fs) (Z.to_nat (offset + d - cur)) (drop (Z.to_nat d) data) ∧
    ∀ k, k ∉ map (λ f, resolve (sf_path f)) files → fs' !! k = fs !! k.
Proof.
  revert d cur fs. induction files as [|f files IH];
    intros d cur fs Hs Hd Hr Hc Hu Hdd Ho Hlt Hb; [cbn in *; lia|].
  apply Forall_cons in Hs as [Hsf Hs]. apply distinct_cons in Hd as [Hnf Hd].
  apply Forall_cons in Hr as [Hpf Hr]. pose proof (total_of_nonneg files Hs) as Hnn.
  pose proof (present_content fs f Hpf) as Hcl. pose proof (flat_of_length files fs Hr) as Hfl.
  cbn [total_of foldr] in Hu, Hb. fold (total_of files) in Hu, Hb.
  destruct (decide (cur + sf_length f ≤ offset)) as [Hskip|Hin].
  - destruct (IH d (cur + sf_length f) fs) as (rs & fs' & E1 & E2 & Hr' & F & Hk); try done; try lia.
    exists rs, fs'. rewrite map_range_skip by lia. split; [done|]. split; [done|].
    pose proof (Hk _ Hnf) as Hkf. split; [apply Forall_cons; split; [by eapply present_eq|done]|].
    split; [|intros k [? ?]%not_elem_of_cons; by apply Hk].
    rewrite !flat_of_cons, (file_content_eq fs fs' f Hkf), F.
    rewrite overwrite_app_r by (rewrite ?length_drop; unfold zlen in *; lia). do 2 f_equal. unfold zlen in *. lia.
  - destruct (decide (offset + zlen data ≤ cur + sf_length f)) as [Hlast|Hmore].
    + rewrite map_range_last by lia.
      destruct (write_ranges_step f (offset + d - cur) (zlen data - d) [] data d fs)
        as [E Hp']; try done; try lia.
      eexists _, _. split; [done|].
      replace (Z.max cur offset - cur) with (offset + d - cur) by lia.
      replace (offset + zlen data - Z.max cur offset) with (zlen data - d) by lia.
      split; [exact E|]. split; [apply Forall_cons; split; [exact Hp'|by apply files_ready_insert]|].
      rewrite (take_ge (drop _ _)) by (rewrite length_drop; unfold zlen in *; lia).
      split; [|intros k [? ?]%not_elem_of_cons; by rewrite lookup_insert_ne].
      rewrite !flat_of_cons, flat_of_insert by done. unfold file_content at 1.
      rewrite lookup_insert_eq. cbn [default id].
      by rewrite overwrite_app_l by (rewrite ?length_drop; unfold zlen in *; lia).
    + rewrite map_range_more by lia.
      set (n := cur + sf_length f - Z.max cur offset).
      destruct (write_ranges_step f (offset + d - cur) n [] data d fs) as [_ Hp']; try done; try lia.
      set (fs1 := <[_ := _]> fs) in Hp'.
      destruct (IH (d + n) (cur + sf_length f) fs1) as (rs & fs' & E1 & E2 & Hr' & F & Hk);
        try done; try lia; [by apply files_ready_insert|].
      eexists (_ :: rs), fs'. split; [by rewrite E1|].
      destruct (write_ranges_step f (offset + d - cur) n rs data d fs) as [E _]; try done; try lia.
      replace (Z.max cur offset - cur) with (offset + d - cur) by lia. fold fs1 in E.
      split; [by rewrite E|]. pose proof (Hk _ Hnf) as Hkf.
      split; [apply Forall_cons; split; [by eapply present_eq|done]|].
      split; [|intros k [? ?]%not_elem_of_cons; rewrite Hk by done; by apply lookup_insert_ne].
      rewrite !flat_of_cons, (file_content_eq fs1 fs' f Hkf), F.
      unfold fs1. rewrite flat_of_insert by done. unfold file_content at 1.
      rewrite lookup_insert_eq. cbn [default id].
      rewrite overwrite_app_mid by (rewrite ?length_drop; unfold zlen in *; lia).
      unfold zlen in *. f_equal; f_equal; [f_equal; lia|lia|]. rewrite drop_drop. f_equal. lia.
Qed.

(** One turn of the read loop: it fills the next [n] bytes of the buffer. *)
Lemma read_ranges_step f o n ranges buf d fs :
  present fs f → sf_length f ≤ i64_max → 0 ≤ o → o + n ≤ sf_length f → 0 ≤ d → 0 < n →
  d + n ≤ zlen buf → d + n ≤ u64_max →
  read_ranges resolve fs ((sf_path f, o, n) :: ranges) d buf =
  read_ranges resolve fs ranges (d + n)
    (overwrite buf (Z.to_nat d) (take (Z.to_nat n) (drop (Z.to_nat o) (file_content fs f)))).
Proof.
  intros Hp Hmax Ho Hb Hd Hn Hl Hu. pose proof (present_content fs f Hp) as Hc.
  cbn [read_ranges]. unfold sbind at 1, read at 1. rewrite checked_add_ok by lia.
  unfold sbind at 1, lift at 1. unfold checked_sub_panic, id. rewrite (Z.min_l (d + n)) by lia.
  rewrite (proj2 (Z.leb_le _ _)) by lia. unfold sbind at 1, lift at 1.
  replace (d + n - d) with n by lia. rewrite (proj2 (Z.eqb_neq _ _)) by lia.
  rewrite read_at_present by (done || lia). unfold sbind at 1, lift at 1. unfold sbind at 1, copy_into.
  rewrite (proj2 (Nat.leb_le _ _)); [done|]. rewrite length_take, length_drop. unfold zlen in *. lia.
Qed.

(** The read loop over the files from [cur] on, with [d] bytes of the buffer already filled. *)
Lemma read_ranges_flat files offset len buf d cur fs :
  sizes_ok files → files_ready files fs →
  0 ≤ cur → cur + total_of files ≤ u64_max → d = Z.max 0 (cur - offset) → 0 ≤ offset →
  d < len ≤ zlen buf → offset + len ≤ cur + total_of files →
  ∃ rs,
    map_range_loop offset (offset + len) cur files = Ok rs ∧
    read_ranges resolve fs rs d buf =
      (overwrite buf (Z.to_nat d)
         (take (Z.to_nat (len - d)) (drop (Z.to_nat (offset + d - cur)) (flat_of files fs))), Ok tt).
Proof.
  revert d cur buf. induction files as [|f files IH];
    intros d cur buf Hs Hr Hc Hu Hdd Ho Hlt Hb; [cbn in *; lia|].
  apply Forall_cons in Hs as [Hsf Hs].
  apply Forall_cons in Hr as [Hpf Hr]. pose proof (total_of_nonneg files Hs) as Hnn.
  pose proof (present_content fs f Hpf) as Hcl. pose proof (flat_of_length files fs Hr) as Hfl.
  cbn [total_of foldr] in Hu, Hb. fold (total_of files) in Hu, Hb. rewrite flat_of_cons.
  destruct (decide (cur + sf_length f ≤ offset)) as [Hskip|Hin].
  - destruct (IH d (cur + sf_length f) buf) as (rs & E1 & E2); try done; try lia.
    exists rs. rewrite map_range_skip by lia. split; [done|]. rewrite E2.
    rewrite drop_app_ge by (unfold zlen in *; lia). do 4 f_equal. unfold zlen in *. lia.
  - destruct (decide (offset + len ≤ cur + sf_length f)) as [Hlast|Hmore].
    + rewrite map_range_last by lia. eexists. split; [done|].
      replace (Z.max cur offset - cur) with (offset + d - cur) by lia.
      replace (offset + len - Z.max cur offset) with (len - d) by lia.
      rewrite read_ranges_step by (done || lia). cbn. do 2 f_equal.
      rewrite drop_app_le, take_app_le by (rewrite ?length_drop; unfold zlen in *; lia). done.
    + rewrite map_range_more by lia. set (n := cur + sf_length f - Z.max cur offset).
      set (part := take (Z.to_nat n) (drop (Z.to_nat (offset + d - cur)) (file_content fs f))).
      assert (length part = Z.to_nat n) as Hpl.
      { unfold part. rewrite length_take, length_drop. unfold zlen in *. lia. }
      destruct (IH (d + n) (cur + sf_length f) (overwrite buf (Z.to_nat d) part)) as (rs & E1 & E2);
        try done; try lia; [unfold zlen in *; rewrite overwrite_length; lia|].
      eexists (_ :: rs). split; [by rewrite E1|].
      replace (Z.max cur offset - cur) with (offset + d - cur) by lia.
      rewrite read_ranges_step by (done || lia). fold part. rewrite E2. f_equal.
      replace (Z.to_nat (d + n)) with (Z.to_nat d + length part)%nat by lia.
      rewrite overwrite_twice by (rewrite ?length_take, ?length_drop; unfold zlen in *; lia).
      f_equal. unfold part. rewrite (take_ge (drop _ _)) by (rewrite length_drop; unfold zlen in *; lia).
      rewrite drop_app_le by (unfold zlen in *; lia). rewrite take_app_ge by (rewrite length_drop; unfold zlen in *; lia).
      replace (Z.to_nat (offset + (d + n) - (cur + sf_length f))) with O by lia.
      rewrite length_drop, drop_0. do 2 f_equal. unfold zlen in *. lia.
Qed.

(** An empty range reads and writes nothing. *)
Lemma map_range_empty files offset cur :
  sizes_ok files → 0 ≤ cur → cur + total_of files ≤ u64_max →
  ∃ rs, map_range_loop offset offset cur files = Ok rs ∧ Forall (λ r, r.2 = 0) rs.
Proof.
  revert cur. induction files as [|f files IH]; intros cur Hs Hc Hu; [by exists []|].
  apply Forall_cons in Hs as [Hsf Hs]. pose proof (total_of_nonneg files Hs).
  cbn [total_of foldr] in Hu. fold (total_of files) in Hu.
  cbn [map_range_loop]. rewrite checked_add_ok by lia. cbn [obind].
  set (r := if _ && _ then _ else _).
  assert (Forall (λ r, r.2 = 0) r) as Hr.
  { subst r. repeat case_bool; cbn [andb]; repeat constructor; cbn; lia. }
  destruct (offset <=? cur + sf_length f); [by exists r|].
  destruct (IH (cur + sf_length f)) as (rs & -> & HF); [done|lia..|]. exists (r ++ rs). split; [done|].
  by apply Forall_app.
Qed.

Lemma write_ranges_nil rs fs : Forall (λ r, r.2 = 0) rs → write_ranges resolve rs [] 0 fs = (fs, Ok tt).
Proof. destruct rs as [|[[p o] n] rs]; [done|]. intros [Hn _]%Forall_cons. cbn in Hn. by subst. Qed.

Lemma read_ranges_nil rs fs buf : Forall (λ r, r.2 = 0) rs → read_ranges resolve fs rs 0 buf = (buf, Ok tt).
Proof.
  destruct rs as [|[[p o] n] rs]; [done|]. intros [Hn _]%Forall_cons. cbn in Hn. subst n. cbn [read_ranges].
  unfold sbind, read, lift. rewrite checked_add_ok by lia. unfold checked_sub_panic, id.
  rewrite Z.min_l by apply zlen_nonneg. done.
Qed.

(** * The storage *)

Definition files_of (s : FileStorage) : list StorageFile :=
  match st_mode s with
  | SingleFile path => [{| sf_path := path; sf_length := st_total_size s |}]
  | MultiFile files => files
  end.

(** The layouts that the storage handles: no two paths lead to one file, no file among several is
    empty, and the pieces cover the files. *)
Definition layout_ok (s : FileStorage) : Prop :=
  match st_mode s with
  | SingleFile _ => 0 ≤ st_total_size s ≤ i64_max
  | MultiFile files => sizes_ok files
  end ∧
  distinct (files_of s) ∧
  total_of (files_of s) = st_total_size s ∧ st_total_size s ≤ u64_max ∧
  (Z.of_nat (st_num_pieces s) - 1) * st_piece_length s < st_total_size s
    ≤ Z.of_nat (st_num_pieces s) * st_piece_length s ∧
  0 < st_piece_length s.

Lemma write_range_flat s offset data fs :
  layout_ok s → files_ready (files_of s) fs → 0 ≤ offset → offset + zlen data ≤ st_total_size s →
  ∃ fs', write_range resolve s offset data fs = (fs', Ok tt) ∧ files_ready (files_of s) fs' ∧
    flat_of (files_of s) fs' = overwrite (flat_of (files_of s) fs) (Z.to_nat offset) data.
Proof.
  intros (Hm & Hd & Ht & Hu & _) Hr Ho Hb. unfold write_range, files_of in *.
  destruct (st_mode s) as [path|files].
  - apply Forall_cons in Hr as [Hp _].
    destruct (write_at_present fs _ offset data Hp) as [E Hl]; [cbn [sf_length]; lia..|]. cbn [sf_path] in *.
    rewrite E. eexists. split; [done|]. unfold flat_of, file_content. cbn.
    rewrite lookup_insert_eq, !app_nil_r. split; [|done]. repeat constructor. eexists.
    split; [by apply lookup_insert_eq|done].
  - unfold map_byte_range. rewrite checked_add_ok by lia. cbn [obind].
    destruct (decide (data = [])) as [->|Hne].
    + destruct (map_range_empty files offset 0) as (rs & E & HF); [done|lia|lia|].
      rewrite Z.add_0_r, E. cbn. exists fs. split; [by apply write_ranges_nil|done].
    + assert (0 < zlen data) by (destruct data; unfold zlen; cbn [length]; [done|lia]).
      destruct (write_ranges_flat files offset data 0 0 fs) as (rs & fs' & E1 & E2 & Hr' & F & _);
        [done|done|done|lia..|].
      rewrite E1. exists fs'. split; [exact E2|]. split; [done|]. rewrite F. cbn [Z.to_nat drop].
      f_equal. lia.
Qed.

Lemma read_range_flat s offset len buf fs :
  layout_ok s → files_ready (files_of s) fs → 0 ≤ offset → 0 ≤ len ≤ zlen buf →
  offset + len ≤ st_total_size s →
  read_range resolve s fs offset len buf =
  (overwrite buf 0 (take (Z.to_nat len) (drop (Z.to_nat offset) (flat_of (files_of s) fs))), Ok tt).
Proof.
  intros (Hm & Hd & Ht & Hu & _) Hr Ho Hl Hb. unfold read_range, files_of in *.
  destruct (st_mode s) as [path|files].
  - apply Forall_cons in Hr as [Hp _]. pose proof (present_content _ _ Hp) as Hc. cbn [sf_length] in Hc.
    pose proof (read_at_present fs _ offset len Hp) as E. cbn [sf_path sf_length] in E.
    rewrite E by lia. unfold sbind, lift, copy_into. cbn [flat_of]. unfold flat_of. cbn.
    rewrite app_nil_r, (proj2 (Nat.leb_le _ _)); [done|].
    rewrite length_take, length_drop. unfold zlen in *. lia.
  - unfold map_byte_range. rewrite checked_add_ok by lia. cbn [obind].
    destruct (decide (len = 0)) as [->|Hne].
    + destruct (map_range_empty files offset 0) as (rs & E & HF); [done|lia|lia|].
      rewrite Z.add_0_r, E. cbn [obind]. unfold sbind, lift. by rewrite read_ranges_nil.
    + destruct (read_ranges_flat files offset len buf 0 0 fs) as (rs & E1 & E2); [done|done|lia..|].
      rewrite E1. cbn [obind]. unfold sbind, lift. rewrite E2. cbn [Z.to_nat].
      replace (offset + 0 - 0) with offset by lia. by rewrite Z.sub_0_r.
Qed.

#[export] Instance file_storage_reads s :
  layout_ok s →
  FlatReads (H := file_storage resolve) s (st_piece_length s) (st_total_size s)
    (files_ready (files_of s)) (flat_of (files_of s)).
Proof.
  intros Hok. pose proof Hok as (_ & _ & Ht & Hu & Hp & Hpl). split.
  - intros fs Hr. by rewrite flat_of_length.
  - intros fs p o buf Hr Hp0 Ho Hb. pose proof (zlen_nonneg buf). pose proof (flat_of_length _ _ Hr) as Hfl.
    cbn. unfold file_read_block, piece_offset, checked_mul_panic.
    rewrite (proj2 (Z.leb_le _ _)) by lia. unfold sbind, lift, read. rewrite checked_add_ok by lia.
    unfold id. rewrite read_range_flat by (done || nia). rewrite overwrite_in by (rewrite length_take, length_drop; unfold zlen in *; nia).
    rewrite (drop_ge buf) by (rewrite length_take, length_drop; unfold zlen in *; nia). cbn [take app].
    rewrite app_nil_r. unfold zlen. by rewrite Nat2Z.id.
  - intros fs p buf Hr Hp0 Hin Hb. pose proof (flat_of_length _ _ Hr) as Hfl.
    cbn. unfold file_read_piece, piece_offset, checked_mul_panic, piece_len_for_index.
    assert (p < Z.of_nat (st_num_pieces s)) as Hpn by nia.
    rewrite (proj2 (Z.leb_le _ _)) by lia. unfold sbind, lift. rewrite (proj2 (Z.leb_gt _ _)) by lia.
    unfold checked_mul_panic. rewrite (proj2 (Z.leb_le _ _)) by lia. cbn [obind].
    destruct (Z.eqb_spec p (Z.of_nat (st_num_pieces s) - 1)) as [->|Hne].
    + unfold checked_sub_panic. rewrite (proj2 (Z.leb_le _ _)) by lia.
      rewrite read_range_flat by (done || nia). do 2 f_equal. unfold zlen in Hfl.
      rewrite !take_ge by (rewrite length_drop; nia). done.
    + apply read_range_flat; (done || nia).
Qed.

(** The file backend keeps the contract of a flat array. *)
#[export] Instance file_storage_flat s :
  layout_ok s →
  FlatStorage (H := file_storage resolve) s (st_piece_length s) (st_total_size s)
    (files_ready (files_of s)) (flat_of (files_of s)).
Proof.
  intros Hok. pose proof Hok as (_ & _ & Ht & Hu & Hp & Hpl). split.
  - by apply file_storage_reads.
  - intros fs p o data Hr Hp0 Ho Hb. pose proof (zlen_nonneg data). cbn. unfold file_write_block, piece_offset, checked_mul_panic.
    rewrite (proj2 (Z.leb_le _ _)) by lia. unfold sbind, lift. rewrite checked_add_ok by lia.
    apply write_range_flat; (done || nia).
  - intros fs p data Hr Hp0 Hb. pose proof (zlen_nonneg data). cbn. unfold file_write_piece, piece_offset, checked_mul_panic.
    rewrite (proj2 (Z.leb_le _ _)) by lia. unfold sbind, lift.
    apply write_range_flat; (done || nia).
Qed.

(** [prepare] creates the files, all zeros, and fails when one of them exists already. *)
Definition keys files : list K := map (λ f, resolve (sf_path f)) files.

Definition fresh files fs : Prop := ∀ k, k ∈ keys files → fs !! k = None.

Lemma create_all files fs :
  distinct files → Forall (λ f, 0 ≤ sf_length f) files → fresh files fs →
  ∃ fs', for_each files (λ f, create_new resolve (sf_path f) (sf_length f)) fs = (fs', Ok tt) ∧
    files_ready files fs' ∧ flat_of files fs' = replicate (Z.to_nat (total_of files)) 0 ∧
    ∀ k, k ∉ keys files → fs' !! k = fs !! k.
Proof.
  revert fs. induction files as [|f files IH]; intros fs Hd Hl Hf.
  { exists fs. split; [done|]. split; [constructor|]. done. }
  apply distinct_cons in Hd as [Hnf Hd]. apply Forall_cons in Hl as [Hlf Hl].
  assert (fs !! resolve (sf_path f) = None) as Hff by (apply Hf; unfold keys; cbn; apply elem_of_cons; by left).
  set (fs1 := <[resolve (sf_path f) := replicate (Z.to_nat (sf_length f)) 0]> fs).
  destruct (IH fs1) as (fs' & E & Hr & F & Hk); [done|done| |].
  { intros k Hk. unfold fs1. rewrite lookup_insert_ne by (intros <-; by apply Hnf).
    apply Hf. unfold keys. cbn. apply elem_of_cons. by right. }
  pose proof (Hk _ Hnf) as Hkf. unfold fs1 in Hkf. rewrite lookup_insert_eq in Hkf.
  exists fs'. split.
  { cbn [for_each]. unfold create_new at 1, sbind, read, lift, modify. rewrite Hff. cbn. exact E. }
  split; [apply Forall_cons; split; [|done]|split].
  - eexists. split; [exact Hkf|]. unfold zlen. rewrite length_replicate. lia.
  - rewrite flat_of_cons, F. unfold file_content. rewrite Hkf. cbn [default id total_of foldr].
    fold (total_of files). rewrite <- replicate_add. f_equal.
    pose proof (total_nonneg files Hl). lia.
  - intros k [Hkne Hkin]%not_elem_of_cons. rewrite Hk by done. by apply lookup_insert_ne.
Qed.

Lemma create_existing files fs k :
  k ∈ keys files → is_Some (fs !! k) →
  ∃ fs', for_each files (λ f, create_new resolve (sf_path f) (sf_length f)) fs = (fs', Err Io).
Proof.
  intros Hk. revert fs. induction files as [|f files IH]; intros fs Hs; [by apply elem_of_nil in Hk|].
  cbn [for_each]. unfold create_new at 1, sbind, read, lift, modify.
  destruct (fs !! resolve (sf_path f)) as [c|] eqn:E; [by eexists|].
  cbn. apply elem_of_cons in Hk as [->|Hk].
  - rewrite E in Hs. by destruct Hs.
  - apply IH; [done|]. destruct (decide (resolve (sf_path f) = k)) as [<-|Hne].
    + rewrite lookup_insert_eq. eauto.
    + by rewrite lookup_insert_ne.
Qed.

Lemma prepare_fresh s fs :
  layout_ok s → fresh (files_of s) fs →
  ∃ fs', file_prepare resolve s fs = (fs', Ok tt) ∧ files_ready (files_of s) fs' ∧
    flat_of (files_of s) fs' = replicate (Z.to_nat (st_total_size s)) 0 ∧
    ∀ k, k ∉ keys (files_of s) → fs' !! k = fs !! k.
Proof.
  intros (Hm & Hd & Ht & _) Hf.
  destruct (create_all (files_of s) fs) as (fs' & E & Hr & F & Hk); [done| |done|].
  { unfold files_of. destruct (st_mode s); [repeat constructor; cbn; lia|].
    eapply Forall_impl; [exact Hm|]. cbn. lia. }
  exists fs'. rewrite <- Ht. split; [|done].
  revert E. unfold file_prepare, files_of. destruct (st_mode s) as [path|files]; [|done].
  cbn [for_each sf_path sf_length]. unfold sbind, sret. by destruct (create_new _ _ _ _) as [fs1 [[]|e| |]].
Qed.
End file_storage.
