(* ===== verification/StorageArray.v ===== *)
(** What a client of the storage relies on: a storage is an array of bytes, the pieces written to it
    stay readable and keep their hashes, and splitting a piece into blocks makes no difference. *)

From stdpp Require Import base numbers list gmap strings.
From Stdlib Require Import ZArith Lia.
From S2P Require Import Prelude Facts Error Metainfo MetainfoFiles Step Storage StorageFacts.

(** * Operations in sequence *)

Inductive storage_op : Type :=
| WriteBlock (piece offset : Z) (data : bytes)
| WritePiece (piece : Z) (data : bytes)
| WritePieceInBlocks (piece : Z) (data : bytes)
| ReadBlock (piece offset : Z) (len : nat)
| ReadPiece (piece : Z).

(** The length of a piece of an array of [total] bytes. *)
Definition piece_size (piece_len total p : Z) : Z := Z.min piece_len (total - p * piece_len).

Definition in_bounds (piece_len total : Z) (op : storage_op) : Prop :=
  match op with
  | WriteBlock p o data => 0 ≤ p ∧ 0 ≤ o ∧ p * piece_len + o + zlen data ≤ total
  | WritePiece p data => 0 ≤ p ∧ p * piece_len + zlen data ≤ total
  | WritePieceInBlocks p data => 0 ≤ p ∧ p * piece_len + zlen data ≤ total ∧ zlen data ≤ 2 ^ 32
  | ReadBlock p o len => 0 ≤ p ∧ 0 ≤ o ∧ p * piece_len + o + Z.of_nat len ≤ total
  | ReadPiece p => 0 ≤ p ∧ p * piece_len < total
  end.

(** The array: its new contents and what the operation returns. *)
Definition array_op (piece_len : Z) (op : storage_op) (a : bytes) : bytes * bytes :=
  match op with
  | WriteBlock p o data => (overwrite a (Z.to_nat (p * piece_len + o)) data, [])
  | WritePiece p data => (overwrite a (Z.to_nat (p * piece_len)) data, [])
  | WritePieceInBlocks p data => (overwrite a (Z.to_nat (p * piece_len)) data, [])
  | ReadBlock p o len => (a, take len (drop (Z.to_nat (p * piece_len + o)) a))
  | ReadPiece p => (a, take (Z.to_nat piece_len) (drop (Z.to_nat (p * piece_len)) a))
  end.

Fixpoint array_ops (piece_len : Z) (ops : list storage_op) (a : bytes) : bytes * list bytes :=
  match ops with
  | [] => (a, [])
  | op :: ops' =>
      let '(a1, out) := array_op piece_len op a in
      let '(a2, outs) := array_ops piece_len ops' a1 in (a2, out :: outs)
  end.

Section client.
Context {T W : Type} `{Storage T W} (t : T) (piece_len total : Z).

(** A read fills a fresh buffer of the length asked for. *)
Definition with_buffer (n : nat) (m : W → step bytes unit) : step W bytes := λ w,
  match m w (replicate n 0) with
  | (buf, Ok _) => (w, Ok buf)
  | (_, Err e) => (w, Err e)
  | (_, Panic) => (w, Panic)
  | (_, NoFuel) => (w, NoFuel)
  end.

Definition storage_do (op : storage_op) : step W bytes :=
  match op with
  | WriteBlock p o data => do! _ := write_block t p o data in sret []
  | WritePiece p data => do! _ := write_piece t p data in sret []
  | WritePieceInBlocks p data => do! _ := default_write_piece (write_block t) p data in sret []
  | ReadBlock p o len => with_buffer len (λ w, read_block t w p o)
  | ReadPiece p => with_buffer (Z.to_nat (piece_size piece_len total p)) (λ w, read_piece t w p)
  end.

Fixpoint storage_run (ops : list storage_op) : step W (list bytes) :=
  match ops with
  | [] => sret []
  | op :: ops' => do! out := storage_do op in do! outs := storage_run ops' in sret (out :: outs)
  end.

Context {ready : W → Prop} {flat : W → bytes} `{!FlatStorage t piece_len total ready flat}.

(** One operation simulates the array's. *)
Lemma storage_do_array op w :
  0 < piece_len → ready w → in_bounds piece_len total op →
  ∃ w', storage_do op w = (w', Ok (array_op piece_len op (flat w)).2) ∧ ready w' ∧
        flat w' = (array_op piece_len op (flat w)).1.
Proof.
  intros Hpl Hw. pose proof (flat_length w Hw) as Hfl. unfold zlen in Hfl.
  destruct op as [p o data|p data|p data|p o len|p];
    cbn [in_bounds storage_do array_op fst snd]; intros Hb; unfold sbind, with_buffer.
  - destruct (flat_write_block w p o data) as (w' & -> & Hw' & F); [tauto..|]. by exists w'.
  - destruct (flat_write_piece w p data) as (w' & -> & Hw' & F); [tauto..|]. by exists w'.
  - destruct (default_write_piece_flat p data w) as (w' & -> & Hw' & F); [done|nia..|]. by exists w'.
  - exists w. rewrite flat_read_block by (unfold zlen; rewrite ?length_replicate; tauto).
    by rewrite length_replicate.
  - exists w. unfold piece_size.
    rewrite flat_read_piece by (done || unfold zlen; rewrite ?length_replicate; lia).
    rewrite overwrite_in by (rewrite length_take, length_drop, length_replicate; nia).
    rewrite (drop_ge (replicate _ _)) by (rewrite length_take, length_drop, length_replicate; nia).
    cbn [take app]. by rewrite app_nil_r.
Qed.

Lemma storage_run_array ops w :
  0 < piece_len → ready w → Forall (in_bounds piece_len total) ops →
  ∃ w', storage_run ops w = (w', Ok (array_ops piece_len ops (flat w)).2) ∧ ready w' ∧
        flat w' = (array_ops piece_len ops (flat w)).1.
Proof.
  intros Hpl Hw Hops. revert w Hw. induction Hops as [|op ops Hop _ IH]; intros w Hw; [by exists w|].
  destruct (storage_do_array op w Hpl Hw Hop) as (w1 & E1 & Hw1 & F1).
  destruct (IH w1 Hw1) as (w2 & E2 & Hw2 & F2). exists w2.
  cbn [storage_run array_ops]. unfold sbind. rewrite E1, E2. rewrite F1 in F2 |- *.
  destruct (array_op piece_len op (flat w)) as [a1 out]. cbn [fst snd] in *.
  by destruct (array_ops piece_len ops a1).
Qed.

(** * Pieces *)

(** The bytes of a piece in the array. *)
Definition piece_of (a : bytes) (p : Z) : bytes :=
  take (Z.to_nat piece_len) (drop (Z.to_nat (p * piece_len)) a).

Definition whole_piece (p : Z) (data : bytes) : Prop :=
  0 ≤ p ∧ p * piece_len < total ∧ zlen data = piece_size piece_len total p.

Lemma lookup_piece_of a p j :
  piece_of a p !! j =
  if (j <? Z.to_nat piece_len)%nat then a !! (Z.to_nat (p * piece_len) + j)%nat else None.
Proof.
  unfold piece_of. destruct (Nat.ltb_spec j (Z.to_nat piece_len)).
  - by rewrite lookup_take_lt, lookup_drop by done.
  - by rewrite lookup_take_ge by done.
Qed.

(** Writing a whole piece replaces that piece and no other. *)
Lemma piece_of_overwrite a p q data :
  0 < piece_len → zlen a = total → whole_piece p data → 0 ≤ q →
  piece_of (overwrite a (Z.to_nat (p * piece_len)) data) q = if decide (q = p) then data else piece_of a q.
Proof.
  intros Hpl Ha (Hp & Hin & Hd) Hq. unfold piece_size, zlen in *. apply list_eq. intros j.
  rewrite lookup_piece_of, lookup_overwrite by nia.
  destruct (decide (q = p)) as [->|Hne].
  - destruct (Nat.ltb_spec j (Z.to_nat piece_len)).
    + rewrite (proj2 (Nat.leb_le _ _)) by lia. cbn [andb].
      destruct (Nat.ltb_spec (Z.to_nat (p * piece_len) + j) (Z.to_nat (p * piece_len) + length data)).
      * f_equal. lia.
      * rewrite !lookup_ge_None_2; [done|lia|nia].
    + rewrite lookup_ge_None_2; [done|lia].
  - rewrite lookup_piece_of. destruct (Nat.ltb_spec j (Z.to_nat piece_len)); [|done].
    destruct (Nat.leb_spec (Z.to_nat (p * piece_len)) (Z.to_nat (q * piece_len) + j)); [|done].
    rewrite (proj2 (Nat.ltb_ge _ _)); [done|].
    assert (p < q) by nia. nia.
Qed.

(** Whole pieces written in any order, and again: every piece written holds what was written to it
    last, so that it has every property that its writes had. *)
Lemma written_pieces (P : Z → bytes → Prop) ws w :
  0 < piece_len → ready w → Forall (λ '(p, data), whole_piece p data ∧ P p data) ws →
  ∃ w', for_each ws (λ '(p, data), write_piece t p data) w = (w', Ok tt) ∧ ready w' ∧
    (∀ p, p ∈ map fst ws → P p (piece_of (flat w') p)) ∧
    (∀ p, 0 ≤ p → p ∉ map fst ws → piece_of (flat w') p = piece_of (flat w) p).
Proof.
  intros Hpl Hw HF. revert w Hw. induction HF as [|[p data] ws [Hwh HP] HF IH]; intros w Hw.
  { exists w. split; [done|]. split; [done|]. split; [by intros p ?%elem_of_nil|done]. }
  pose proof Hwh as (Hp & Hin & Hd). unfold piece_size in Hd.
  destruct (flat_write_piece w p data) as (w1 & E1 & Hw1 & F1); [done|done|lia|].
  destruct (IH w1 Hw1) as (w' & E & Hw' & Hws & Hrest). exists w'.
  cbn [for_each]. unfold sbind. rewrite E1, E. split; [done|]. split; [done|].
  pose proof (flat_length w Hw) as Hfl. cbn [map fst].
  split.
  - intros q Hq. destruct (decide (q ∈ map fst ws)) as [Hqw|Hqw]; [by apply Hws|].
    apply elem_of_cons in Hq as [->|]; [|done]. rewrite Hrest by done.
    by rewrite F1, piece_of_overwrite, decide_True by done.
  - intros q Hq [Hqp Hqw]%not_elem_of_cons. rewrite Hrest by done.
    by rewrite F1, piece_of_overwrite, decide_False by done.
Qed.
End client.

(** * The file backend *)

(** C22: the file backend is a flat array. For a torrent whose layout it handles (distinct files, none
    of several empty, pieces that cover them: [layout_ok], without which [write_stops_at_empty_file]
    shows it to be none), [prepare] succeeds when none of the files exists and fails when one does;
    afterwards every sequence of reads and writes inside the torrent ([in_bounds]) succeeds
    and returns what an array of [total_size] zeros returns for it, whole pieces written at once or
    in blocks of 16 KiB alike, and in the end the files, laid end to end, are that array. *)
Theorem storage_is_flat_array : ∀ (K : Type) `(Countable K) (resolve : bytes → K) i dir s,
  file_storage_new i dir = Ok s → layout_ok resolve s →
  (∀ fs k, k ∈ keys resolve (files_of s) → is_Some (fs !! k) →
     ∃ fs', prepare (Storage := file_storage resolve) s fs = (fs', Err Io)) ∧
  ∀ fs ops, fresh resolve (files_of s) fs →
    Forall (in_bounds (piece_length i) (st_total_size s)) ops →
    let a := replicate (Z.to_nat (st_total_size s)) 0 in
    ∃ fs1 fs2,
      prepare (Storage := file_storage resolve) s fs = (fs1, Ok tt) ∧
      storage_run (H := file_storage resolve) s (piece_length i) (st_total_size s) ops fs1
        = (fs2, Ok (array_ops (piece_length i) ops a).2) ∧
      files_ready resolve (files_of s) fs2 ∧
      flat_of resolve (files_of s) fs2 = (array_ops (piece_length i) ops a).1.
Proof.
  intros K Heq HK resolve i dir s Hnew Hok.
  assert (piece_length i = st_piece_length s) as ->.
  { unfold file_storage_new in Hnew. inv_outcome. by subst. }
  split.
  - intros fs k Hk Hs. cbn. unfold file_prepare. unfold files_of in Hk.
    destruct (st_mode s) as [path|files]; [|by eapply create_existing].
    destruct (create_existing resolve _ fs k Hk Hs) as [fs' E]. exists fs'. revert E.
    cbn [for_each sf_path sf_length]. unfold sbind, sret. by destruct (create_new _ _ _ _) as [fs1 [[]|e| |]].
  - intros fs ops Hf Hops a. destruct (prepare_fresh resolve s fs Hok Hf) as (fs1 & E1 & Hr & F1 & _).
    destruct (storage_run_array (FlatStorage0 := file_storage_flat resolve s Hok) s _ _ ops fs1)
      as (fs2 & E2 & Hr2 & F2); [apply Hok|done|done|].
    exists fs1, fs2. rewrite F1 in E2, F2. done.
Qed.

Definition sample_layout : Info :=
  {| piece_length := 4; pieces := replicate 3 (replicate 20 0);
     mode := Multiple (bs "d") [mk_file 5 [bs "a"]; mk_file 1 [bs "b"]; mk_file 5 [bs "s"; bs "c"]];
     raw_info := RawHash [] |}.

Definition sample_storage : FileStorage :=
  {| st_num_pieces := 3; st_piece_length := 4; st_total_size := 11;
     st_mode := MultiFile [mk_storage_file (bs "/dl/d/a") 5; mk_storage_file (bs "/dl/d/b") 1;
                           mk_storage_file (bs "/dl/d/s/c") 5] |}.

Lemma sample_layout_ok : layout_ok id sample_storage.
Proof.
  split; [repeat constructor; cbn; lia|]. split; [apply (bool_decide_unpack _); vm_compute; exact I|].
  cbn. lia.
Qed.

Lemma storage_is_flat_array_witness :
  ∃ fs1 fs2 : gmap bytes bytes,
    prepare (Storage := file_storage id) sample_storage ∅ = (fs1, Ok tt) ∧
    storage_run (H := file_storage id) sample_storage 4 11
      [WritePiece 1 [1; 2; 3; 4]; ReadBlock 1 1 3; ReadPiece 2] fs1 = (fs2, Ok [[]; [2; 3; 4]; [0; 0; 0]]) ∧
    flat_of id (files_of sample_storage) fs2 = [0; 0; 0; 0; 1; 2; 3; 4; 0; 0; 0].
Proof.
  destruct (storage_is_flat_array bytes _ id sample_layout (bs "/dl") sample_storage) as [_ H];
    [reflexivity|exact sample_layout_ok|].
  destruct (H ∅ [WritePiece 1 [1; 2; 3; 4]; ReadBlock 1 1 3; ReadPiece 2]) as (fs1 & fs2 & E1 & E2 & _ & F).
  - by intros k _.
  - repeat constructor; cbn; unfold zlen; cbn; lia.
  - exists fs1, fs2. done.
Defined.

(** An empty file between two others stops a write that crosses it, which still reports success. *)
Definition empty_file_storage : FileStorage :=
  {| st_num_pieces := 1; st_piece_length := 8; st_total_size := 8;
     st_mode := MultiFile [mk_storage_file (bs "a") 4; mk_storage_file (bs "b") 0;
                           mk_storage_file (bs "c") 4] |}.

Example write_stops_at_empty_file :
  let fs1 : gmap bytes bytes := (prepare (Storage := file_storage id) empty_file_storage ∅).1 in
  let r := write_piece (Storage := file_storage id) empty_file_storage 0 [1; 2; 3; 4; 5; 6; 7; 8] fs1 in
  r.2 = Ok tt ∧ r.1 !! bs "a" = Some [1; 2; 3; 4] ∧ r.1 !! bs "c" = Some [0; 0; 0; 0].
Proof. vm_compute. done. Qed.

(** The download directory does not confine a torrent that names an absolute path. *)
Lemma absolute_name_escapes i dir name len s :
  mode i = Single name len → is_absolute name = true → file_storage_new i dir = Ok s →
  st_mode s = SingleFile name.
Proof.
  intros Hm Ha Hs. unfold file_storage_new in Hs. inv_outcome. subst. cbn. rewrite Hm. unfold push.
  by rewrite Ha.
Qed.
