(* ===== verification/SwarmDisk.v ===== *)
(** The swarm and the file storage together: what a downloading torrent leaves on the disk. *)

From stdpp Require Import base numbers list gmap strings relations.
From Stdlib Require Import ZArith Lia.
From S2P Require Import Prelude Facts Error Net PeerMessage Piece Metainfo MetainfoFiles Download PeerManager Upload.
From S2P Require Import Step Swarm Pipeline Choke Registration Tracker SwarmFacts ExtContext SuperSeed PexExt WebSeed.
From S2P Require Import Uploads SwarmLoop WebSeedFacts FullLoop FullLoopFacts TorrentLife Storage StorageFacts.
From S2P Require Import StorageArray.

(** The length of a piece in the swarm is its length in the storage. *)
Lemma piece_len_agrees {K : Type} `{Countable K} (resolve : bytes → K) i dir s p len :
  file_storage_new i dir = Ok s → layout_ok resolve s → 0 ≤ p → p < Z.of_nat (Metainfo.num_pieces i) →
  Swarm.piece_len_for_index i p = Ok len →
  p * piece_length i < st_total_size s ∧ len = piece_size (piece_length i) (st_total_size s) p.
Proof.
  intros Hnew (_ & _ & Ht & _ & Hfit & Hpl) Hp Hn Hl. unfold file_storage_new in Hnew.
  destruct (total_size i) as [total|e| |] eqn:Htot; [|done..]. cbn [obind] in Hnew.
  injection Hnew as <-. cbn [st_num_pieces st_piece_length st_total_size] in *. unfold piece_size.
  split; [nia|]. unfold Swarm.piece_len_for_index in Hl. rewrite (proj2 (Z.leb_gt _ _)) in Hl by lia.
  destruct (checked_mul_panic p (piece_length i)) as [start|e| |] eqn:Hm; [|done..]. cbn [obind] in Hl.
  assert (start = p * piece_length i) as ->.
  { unfold checked_mul_panic in Hm. destruct (_ <=? _); [by injection Hm|done]. }
  rewrite Htot in Hl. cbn [obind] in Hl. repeat case_bool; try discriminate Hl; injection Hl as <-; nia.
Qed.

(** The layout of the storage is that of the pieces. *)
Lemma layout_geometry {K : Type} `{Countable K} (resolve : bytes → K) i dir s :
  file_storage_new i dir = Ok s → layout_ok resolve s → geometry_ok i.
Proof.
  intros Hnew (_ & _ & _ & _ & Hfit & Hpl). unfold file_storage_new in Hnew.
  destruct (total_size i) as [total|e| |] eqn:Htot; [|done..]. cbn [obind] in Hnew. injection Hnew as <-.
  cbn [st_num_pieces st_piece_length st_total_size] in *. by exists total.
Qed.

(** C1: a downloading torrent leaves the right bytes on the disk. Let the torrent have a layout that
    the file storage handles (distinct files, no empty file among several, as many pieces as cover
    the files: [layout_ok]), and let none of its files exist yet. Then, whatever its peers, its
    tracker, its web seeds and its extensions do, in every state that the loop of a new download
    reaches, the pieces it wrote are accepted by the file storage of the torrent, and every piece
    that is marked as completed can be read back from the files, at its own place, with the hash that
    the metainfo gives for it. With an empty file among several this fails: a write ends at that
    file and reports success (StorageArray, [write_stops_at_empty_file]). *)
Theorem completed_pieces_are_on_disk : ∀ (K : Type) `(Countable K) (resolve : bytes → K)
    (Url : Type) `(UrlCrate Url) sha1 ln c n mgr max status tracker exts (l : LoopState Url) dir s fs,
  let i := c_info (lc_swarm c) in
  file_storage_new i dir = Ok s → layout_ok resolve s → fresh resolve (files_of s) fs →
  Forall fresh_ext exts → reachable sha1 ln c (loop_new (pm_new n) mgr max status tracker exts) l →
  ∃ fs1 fs2,
    prepare (Storage := file_storage resolve) s fs = (fs1, Ok tt) ∧
    for_each (s_written (l_core l)) (λ '(p, data), Storage.write_piece (Storage := file_storage resolve) s p data) fs1
      = (fs2, Ok tt) ∧
    ∀ p, 0 ≤ p → has_piece (s_piece_mgr (l_core l)) p = true →
      pieces i !! Z.to_nat p = Some (sha1 (piece_of (piece_length i) (flat_of resolve (files_of s) fs2) p)).
Proof.
  intros K Heq HK resolve Url HU sha1 ln c n mgr max status tracker exts l dir s fs i Hnew Hok Hf Hx Hr.
  destruct (loop_inv_reachable sha1 ln c _ mgr max status tracker exts l
    (layout_geometry resolve i dir s Hnew Hok) (pm_new_ok n) Hx Hr) as ([(_ & Hw & Hb & _ & _) _] & _).
  destruct (prepare_fresh resolve s fs Hok Hf) as (fs1 & E1 & Hr1 & _).
  assert (piece_length i = st_piece_length s) as Hpl.
  { unfold file_storage_new in Hnew. inv_outcome. by subst. }
  destruct (written_pieces (FlatStorage0 := file_storage_flat resolve s Hok) s (st_piece_length s) (st_total_size s)
    (λ p d, pieces i !! Z.to_nat p = Some (sha1 d)) (s_written (l_core l)) fs1) as (fs2 & E2 & _ & Hall & _);
    [apply Hok|done| |].
  { apply Forall_forall. intros [p d] Hin. destruct (Hw p d Hin) as (Hi & Hd & len & Hlen & Hl).
    split; [|done]. assert (p < Z.of_nat (Metainfo.num_pieces i)) as Hlt.
    { apply lookup_lt_Some in Hd. unfold Metainfo.num_pieces, i. lia. }
    destruct (piece_len_agrees resolve i dir s p len Hnew Hok Hi Hlt Hlen) as [Hlo ->].
    rewrite Hpl in *. split; [done|]. split; [done|]. unfold zlen. rewrite Hl.
    unfold piece_size. destruct Hok as (_ & _ & _ & _ & _ & ?). lia. }
  exists fs1, fs2. split; [exact E1|]. split; [exact E2|]. intros p Hi Hhas. rewrite Hpl. apply Hall.
  destruct (Hb p Hi Hhas) as [Hnew'|[d Hin]].
  - change ((Z.to_nat p <? n)%nat && default false (replicate n false !! Z.to_nat p) = true) in Hnew'.
    destruct (Nat.ltb_spec (Z.to_nat p) n) as [Hlt|]; [|done].
    rewrite lookup_replicate_2 in Hnew' by done. discriminate Hnew'.
  - apply list_elem_of_fmap. by exists (p, d).
Qed.

Definition sample_disk : FileStorage :=
  {| st_num_pieces := 2; st_piece_length := 4; st_total_size := 8; st_mode := SingleFile (bs "/dl/file") |}.

(** A new download that gets its first piece from a peer and its second one from a web seed. *)
#[local] Instance plain_urls : UrlCrate bytes :=
  {| url_eq_dec := _; url_parse := Some; url_path := id; url_join u r := Some (u ++ r); request_target _ := true |}.

Definition disk_exts : list (DynExtension bytes) :=
  maybe_webseed true [[47; 120]] web_config_default 1 (maybe_super_seed false (maybe_pex true 60 [])).

Definition disk_loop : LoopState bytes :=
  loop_new (pm_new 2) (peer_manager_new [] [] 5 10 3 60) 4 (x_status pex_here) sample_tracker_status disk_exts.

Definition disk_start : LoopState bytes := (run_start sample_loop_config disk_loop).1.

Definition disk_branches : list (Step.step (LoopState bytes) unit) :=
  [control_branch toy_hash sample_loop_config sample_world sample_answer
     (Some (InboundPeer sample_peer (replicate 8 0)));
   event_branch toy_hash sample_loop_config sample_world [sample_peer] sample_peer (Message (Bitfield [128]));
   event_branch toy_hash sample_loop_config sample_world [sample_peer] sample_peer (Message Unchoke);
   event_branch toy_hash sample_loop_config sample_world [sample_peer] sample_peer
     (Message (PeerMessage.Piece 0 0 [1; 2; 3; 4]));
   tick_branch toy_hash sample_loop_config sample_world sample_answer sample_answer [] []].

Definition disk_ticked : LoopState bytes := foldl (λ l m, (m l).1) disk_start disk_branches.

(** The steps of the task of the web seed. *)
Fixpoint run_web (n : nat) (l : LoopState bytes) : LoopState bytes :=
  match n with
  | O => l
  | S n' => run_web n' (default l (web_step toy_hash (λ x, x) sample_loop_config sample_world (Ok [5; 6; 7; 8]) 1 0 l))
  end.

Definition disk_end : LoopState bytes := run_web 7 disk_ticked.

Fixpoint web_runs (n : nat) (l : LoopState bytes) : bool :=
  match n with
  | O => true
  | S n' =>
      match web_step toy_hash (λ x, x) sample_loop_config sample_world (Ok [5; 6; 7; 8]) 1 0 l with
      | Some l1 => web_runs n' l1
      | None => false
      end
  end.

Lemma run_web_steps n l :
  l_running l = true → web_runs n l = true →
  rtc (loop_step toy_hash (λ x, x) sample_loop_config) l (run_web n l).
Proof.
  revert l. induction n as [|n IH]; intros l Hr; cbn [run_web web_runs]; [intros _; apply rtc_refl|].
  destruct (web_step _ _ _ _ _ _ _ l) as [l1|] eqn:H0; [|done]. intros Hall. cbn [default].
  eapply rtc_l; [by eapply (Loop_web _ _ _ _ sample_world)|]. apply IH; [|done].
  rewrite <- Hr. unfold web_step in H0. repeat (case_match; try done). injection H0 as <-. by destruct l.
Qed.

Lemma disk_run : reachable toy_hash (λ x, x) sample_loop_config disk_loop disk_end.
Proof.
  exists disk_start. split; [by vm_compute|]. eapply rtc_trans; [|apply run_web_steps; by vm_compute].
  unfold disk_ticked, disk_branches. cbn [foldl].
  eapply rtc_l; [apply (Loop_control _ _ _ _ sample_world sample_answer (Some (InboundPeer sample_peer (replicate 8 0))));
    by vm_compute|].
  eapply rtc_l; [apply (Loop_event _ _ _ _ sample_world [sample_peer] sample_peer (Message (Bitfield [128])));
    [by vm_compute| |by vm_compute]|].
  { apply (bool_decide_unpack _). by vm_compute. }
  eapply rtc_l; [apply (Loop_event _ _ _ _ sample_world [sample_peer] sample_peer (Message Unchoke));
    [by vm_compute|exact I|by vm_compute]|].
  eapply rtc_l; [apply (Loop_event _ _ _ _ sample_world [sample_peer] sample_peer
    (Message (PeerMessage.Piece 0 0 [1; 2; 3; 4]))); [by vm_compute| |by vm_compute]|].
  { apply (bool_decide_unpack _). by vm_compute. }
  eapply rtc_l; [apply (Loop_tick _ _ _ _ sample_world sample_answer sample_answer [] []); by vm_compute|].
  apply rtc_refl.
Qed.

Lemma completed_pieces_are_on_disk_witness :
  ∃ fs2 : gmap bytes bytes,
    pieces sample_info !! 0%nat =
      Some (toy_hash (piece_of 4 (flat_of id (files_of sample_disk) fs2) 0)) ∧
    pieces sample_info !! 1%nat =
      Some (toy_hash (piece_of 4 (flat_of id (files_of sample_disk) fs2) 1)).
Proof.
  destruct (completed_pieces_are_on_disk bytes _ id bytes plain_urls toy_hash (λ x, x) sample_loop_config 2
    (peer_manager_new [] [] 5 10 3 60) 4 (x_status pex_here) sample_tracker_status disk_exts disk_end
    (bs "/dl") sample_disk ∅) as (fs1 & fs2 & _ & _ & H).
  - reflexivity.
  - split; [cbn; lia|]. split; [apply (bool_decide_unpack _); vm_compute; exact I|]. cbn. lia.
  - by intros k _.
  - apply builder_fresh.
  - exact disk_run.
  - exists fs2. split; [exact (H 0 ltac:(lia) ltac:(vm_compute; reflexivity))
                       |exact (H 1 ltac:(lia) ltac:(vm_compute; reflexivity))].
Defined.
