(* ===== verification/HttpClient.v ===== *)
(** The HTTP client of trackers and web seeds: [crates/torrent/src/net/http.rs].

    What the client uses of the crates [url] and [http] is in two classes; sockets, name resolution and
    TLS are a record of functions that may look at the requests sent before. *)

From stdpp Require Import base numbers list list_numbers strings.
From Stdlib Require Import ZArith Lia.
From S2P Require Import Prelude Facts Error Text Net IpText Tracker Step.

Definition MAX_REDIRECTS : nat := 5.

(** * The crates *)

(** [url::Url]. *)
Class UrlText (Url : Type) : Type := {
  parse_url : bytes → option Url;
  as_str : Url → bytes;
  scheme : Url → bytes;
  host_str : Url → option bytes;
  port_or_known_default : Url → option Z;
  set_query : bytes → Url → Url;
  join_url : Url → bytes → option Url;
  byte_serialize : bytes → bytes;
}.

(** [http::Uri] and the header types of [http]. A name is normalised to lower case. *)
Record Uri : Type := mk_uri {
  uri_scheme : option bytes;
  uri_host : option bytes;
  uri_port : option Z;
  uri_path_and_query : option bytes;
}.

Class HttpCrate : Type := {
  parse_uri : bytes → option Uri;
  header_name : bytes → option bytes;
  header_value : bytes → option bytes;
  value_to_str : bytes → option bytes;
  status_from_u16 : Z → option Z;
}.

(** * Responses *)

Record Response : Type := mk_http_response {
  rs_status : Z;
  rs_headers : list (bytes * bytes);
  rs_body : bytes;
}.

Record Request : Type := mk_http_request {
  rq_method : bytes;
  rq_uri : Uri;
  rq_headers : list (bytes * bytes);
}.

Definition crlf : bytes := [13; 10].

(** [raw.windows(4).position(..)] with the slices on both sides. *)
Definition split_head (raw : bytes) : option (bytes * bytes) := split_once_str (crlf ++ crlf) raw.

(** A piece of text up to the next white space, and what is left. *)
Fixpoint take_word (fuel : nat) (l : bytes) : bytes * bytes :=
  match fuel with
  | O => ([], l)
  | S f =>
      match l, strip_any whitespace l with
      | [], _ | _, Some _ => ([], l)
      | x :: l', None => let '(w, rest) := take_word f l' in (x :: w, rest)
      end
  end.

(** [str::split_whitespace], collected. *)
Fixpoint split_whitespace_loop (fuel : nat) (l : bytes) : list bytes :=
  match fuel, trim_start l with
  | O, _ | _, [] => []
  | S f, l' => let '(w, rest) := take_word (length l') l' in w :: split_whitespace_loop f rest
  end.

Definition split_whitespace (l : bytes) : list bytes := split_whitespace_loop (length l) l.

Section http.
Context `{HttpCrate}.

(** The status of the first line, [500] when there is none. *)
Definition status_code (status_line : bytes) : Z :=
  default 500 (w ← split_whitespace status_line !! 1%nat; parse_unsigned u16_max w).

(** [Response::builder]: an error stays until [body] reports it. *)
Fixpoint add_headers (lines : list bytes) (headers : option (list (bytes * bytes)))
    : option (list (bytes * bytes)) :=
  match lines with
  | [] => headers
  | line :: lines' =>
      add_headers lines'
        match split_once_str (bs ": ") line with
        | Some (name, value) =>
            hs ← headers; n ← header_name name; v ← header_value value; Some (hs ++ [(n, v)])
        | None => headers
        end
  end.

Definition parse_http_response (raw : bytes) : result Response :=
  let! (head, body) := ok_or (split_head raw) Protocol in
  let! head := ok_or (from_utf8 head) Protocol in
  let ls := lines head in
  let code := status_code (default [] (ls !! 0%nat)) in
  let headers := _ ← status_from_u16 code; add_headers (tail ls) (Some []) in
  let! hs := ok_or headers Protocol in
  Ok {| rs_status := code; rs_headers := hs; rs_body := body |}.

(** [resp.headers().get(name)]: the first value under this name. *)
Definition get_header (name : bytes) (hs : list (bytes * bytes)) : option bytes :=
  option_map snd (head (filter (λ h, h.1 = name) hs)).

(** * The exchange *)

(** A packet of the client: where it went, whether through TLS, and the text of the request. *)
Definition Sent : Type := SocketAddr * bool * bytes.

(** What happens outside: name resolution, the creation of a socket, the connection, the
    certificates of the platform, the handshake, and the answer to a request with what was sent
    before. *)
Record Wire : Type := mk_wire {
  w_lookup : bytes → Z → option (list SocketAddr);
  w_socket : SocketAddr → bool;
  w_connect : SocketAddr → bool;
  w_certs : bool;
  w_server_name : bytes → bool;
  w_handshake : SocketAddr → bytes → bool;
  w_write : list Sent → Sent → bool;
  w_answer : list Sent → Sent → option bytes;
}.

Definition build_tls_connector (w : Wire) : result unit := guard_err (negb (w_certs w)) InvalidInput.

(** The loop over the addresses: a socket that cannot be created ends it, a failed connection does
    not. *)
Fixpoint connect_any (w : Wire) (addrs : list SocketAddr) : result (option SocketAddr) :=
  match addrs with
  | [] => Ok None
  | a :: addrs' =>
      let! _ := guard_err (negb (w_socket w a)) Io in
      if w_connect w a then Ok (Some a) else connect_any w addrs'
  end.

(** The headers that can be printed. *)
Definition print_headers (hs : list (bytes * bytes)) : bytes :=
  concat (map (λ '(n, v), match value_to_str v with Some t => n ++ bs ": " ++ t ++ crlf | None => [] end) hs).

Definition contains_key (n : bytes) (hs : list (bytes * bytes)) : bool :=
  existsb (λ h, bool_decide (h.1 = n)) hs.

Definition request_text (rq : Request) (host path_and_query : bytes) : bytes :=
  rq_method rq ++ bs " " ++ path_and_query ++ bs " HTTP/1.1" ++ crlf ++ bs "Host: " ++ host ++ crlf ++
  print_headers (rq_headers rq) ++
  (if contains_key (bs "user-agent") (rq_headers rq) then [] else bs "User-Agent: torrent-rs/0.1.0" ++ crlf) ++
  (if contains_key (bs "accept-encoding") (rq_headers rq) then [] else bs "Accept-Encoding: identity" ++ crlf) ++
  bs "Connection: close" ++ crlf ++ crlf.

(** [x-max-response], when it is a number. *)
Definition max_response (rq : Request) : option Z :=
  v ← get_header (bs "x-max-response") (rq_headers rq); s ← value_to_str v; parse_unsigned u64_max s.

Definition cap_response (rq : Request) (raw : bytes) : bytes :=
  match max_response rq with
  | Some cap => take (Z.to_nat (Z.min cap (zlen raw))) raw
  | None => raw
  end.

Definition send_request (w : Wire) (rq : Request) : step (list Sent) Response :=
  let uri := rq_uri rq in
  let https := bool_decide (uri_scheme uri = Some (bs "https")) in
  do! host := lift (ok_or (uri_host uri) InvalidInput) in
  let port := default (if https then 443 else 80) (uri_port uri) in
  let path_and_query := default (bs "/") (uri_path_and_query uri) in
  do! _ := lift (if https then build_tls_connector w else Ok tt) in
  do! addrs := lift (ok_or (w_lookup w host port) Io) in
  do! stream := lift (connect_any w addrs) in
  do! addr := lift (ok_or stream Io) in
  do! _ := lift (if https then
      let! _ := guard_err (negb (w_server_name w host)) InvalidInput in
      guard_err (negb (w_handshake w addr host)) Io
    else Ok tt) in
  let p := (addr, https, request_text rq host path_and_query) in
  do! sent := read id in
  do! _ := lift (guard_err (negb (w_write w sent p)) Io) in
  do! _ := modify (λ s, s ++ [p]) in
  do! raw := lift (ok_or (w_answer w sent p) Io) in
  lift (parse_http_response (cap_response rq raw)).
End http.

(** * Redirects *)

Definition resolve_redirect_url `{UrlText Url} (base : Url) (location : bytes) : result Url :=
  let! new_url := ok_or (join_url base location) TrackerProtocolError in
  if bool_decide (scheme new_url = bs "http") || bool_decide (scheme new_url = bs "https")
  then Ok new_url else Err TrackerProtocolError.

(** * What the HTTP client does with a response: what a server writes is read back, as far as the client
    knows the encoding of its body. *)

(** * Responses *)

(** A line of a head: not empty, and without the two characters that end lines. *)
Definition head_line (l : bytes) : Prop := l ≠ [] ∧ (13 ∉ l) ∧ (10 ∉ l).

Fixpoint join_crlf (ls : list bytes) : bytes :=
  match ls with
  | [] => []
  | [l] => l
  | l :: ls' => l ++ crlf ++ join_crlf ls'
  end.

Lemma split_once_str_skip x p a r :
  x ∉ a → split_once_str (x :: p) (a ++ r) =
    option_map (λ q : bytes * bytes, (a ++ q.1, q.2)) (split_once_str (x :: p) r).
Proof.
  induction a as [|y a IH]; intros Hx; [cbn [app]; by destruct (split_once_str _ r) as [[]|]|].
  apply not_elem_of_cons in Hx as [Hy Ha]. cbn [app split_once_str strip_prefix].
  destruct (Z.eqb_spec x y) as [->|_]; [done|]. rewrite IH by done.
  by destruct (split_once_str _ r) as [[]|].
Qed.

Lemma split_head_join ls body :
  ls ≠ [] → Forall head_line ls → split_head (join_crlf ls ++ crlf ++ crlf ++ body) = Some (join_crlf ls, body).
Proof.
  unfold split_head, crlf. intros Hne Hls. induction Hls as [|l ls (Hl & H13 & _) Hls IH]; [done|].
  destruct ls as [|l' ls].
  - cbn [join_crlf]. by apply (split_once_str_app 13 [10; 13; 10]).
  - change (join_crlf (l :: l' :: ls)) with (l ++ crlf ++ join_crlf (l' :: ls)). unfold crlf.
    rewrite <- !app_assoc. cbn [app] in *. rewrite split_once_str_skip by done. specialize (IH ltac:(done)).
    inversion Hls as [|?? (Hl' & H13' & _) _]; subst.
    assert (∃ x r, join_crlf (l' :: ls) = x :: r ∧ x ≠ 13) as (x & r & E & Hx).
    { destruct l' as [|x l']; [done|]. apply not_elem_of_cons in H13' as [? _].
      destruct ls; eexists x, _; (split; [reflexivity|congruence]). }
    rewrite E in *. cbn [app] in *.
    assert (∀ q, split_once_str [13; 10; 13; 10] (13 :: 10 :: x :: q) =
      option_map (λ p : bytes * bytes, (13 :: 10 :: p.1, p.2)) (split_once_str [13; 10; 13; 10] (x :: q))) as ->.
    { intros q. cbn. destruct x as [|x|x]; cbn.
      all: try (destruct (Pos.eqb_spec 13 x); [subst; congruence|]).
      all: repeat case_match; simplify_eq/=; done. }
    rewrite IH. cbn. done.
Qed.

Lemma lines_join ls : Forall head_line ls → lines (join_crlf ls) = ls.
Proof.
  unfold lines. intros Hls. induction Hls as [|l ls (Hl & _ & H10) Hls IH]; [done|]. destruct ls as [|l' ls].
  - cbn [join_crlf]. rewrite split_on_none by done. by destruct l.
  - change (join_crlf (l :: l' :: ls)) with (l ++ crlf ++ join_crlf (l' :: ls)). unfold crlf.
    change (l ++ [13; 10] ++ join_crlf (l' :: ls)) with (l ++ ([13] ++ [10]) ++ join_crlf (l' :: ls)).
    rewrite <- (app_assoc [13]), (app_assoc l). cbn [app].
    rewrite split_on_app by (rewrite not_elem_of_app, list_elem_of_singleton; split; [done|lia]).
    destruct (split_on 10 (join_crlf (l' :: ls))) as [|s ss] eqn:E; [done|].
    change (lines_of ((l ++ [13]) :: s :: ss)) with (strip_cr (l ++ [13]) :: lines_of (s :: ss)).
    by rewrite strip_cr_crlf, IH.
Qed.

Lemma strip_any_nil ps : [] ∉ ps → strip_any ps [] = None.
Proof.
  induction ps as [|p ps IH]; intros Hn; [done|]. apply not_elem_of_cons in Hn as [Hp Hn].
  destruct p as [|x p]; [done|]. cbn. auto.
Qed.

Lemma take_word_graphic w r fuel :
  Forall graphic w → (length w ≤ fuel)%nat → strip_any whitespace r ≠ None ∨ r = [] →
  take_word fuel (w ++ r) = (w, r).
Proof.
  intros Hw. revert fuel. induction Hw as [|x w Hx Hw IH]; intros fuel Hf Hr; cbn [app length] in *.
  - destruct fuel as [|f]; [done|]. cbn [take_word]. destruct r as [|y r]; [done|].
    destruct (strip_any whitespace (y :: r)); [done|]. by destruct Hr.
  - destruct fuel as [|f]; [lia|]. cbn [take_word].
    rewrite strip_any_graphic by (done || apply whitespace_not_graphic). by rewrite IH by (lia || done).
Qed.

(** The first words of a text of words between single blanks. *)
Lemma split_words_cons w r fuel :
  w ≠ [] → Forall graphic w → (length w < fuel)%nat →
  split_whitespace_loop fuel (w ++ 32 :: r) = w :: split_whitespace_loop (fuel - 1) (32 :: r).
Proof.
  intros Hne Hw Hf. destruct fuel as [|f]; [lia|]. destruct w as [|x w]; [done|].
  inversion Hw as [|?? Hx Hw']; subst. cbn [split_whitespace_loop]. unfold trim_start. cbn [app].
  rewrite strip_all_graphic by (done || apply whitespace_not_graphic).
  change (x :: w ++ 32 :: r) with ((x :: w) ++ 32 :: r).
  rewrite take_word_graphic; [|done|rewrite length_app; cbn; lia|by left].
  by replace (S f - 1)%nat with f by lia.
Qed.

Lemma trim_start_blank x r : graphic x → trim_start (32 :: x :: r) = x :: r.
Proof.
  intros Hx. unfold trim_start. cbn [length strip_all].
  replace (strip_any whitespace (32 :: x :: r)) with (Some (x :: r)) by reflexivity.
  by rewrite strip_any_graphic by (done || apply whitespace_not_graphic).
Qed.

Lemma second_word a w r :
  a ≠ [] → Forall graphic a → w ≠ [] → Forall graphic w →
  split_whitespace (a ++ 32 :: w ++ 32 :: r) !! 1%nat = Some w.
Proof.
  intros Ha Hga Hw Hgw. unfold split_whitespace.
  rewrite split_words_cons by (done || rewrite length_app; cbn; lia). cbn [lookup list_lookup].
  destruct w as [|x w]; [done|]. inversion Hgw as [|?? Hx Hgw']; subst.
  assert (∀ f, (length (x :: w) < f)%nat → split_whitespace_loop f (32 :: (x :: w) ++ 32 :: r) !! 0%nat = Some (x :: w)) as H.
  { intros [|f] Hf; [lia|]. cbn [split_whitespace_loop app]. rewrite trim_start_blank by done.
    change (x :: w ++ 32 :: r) with ((x :: w) ++ 32 :: r).
    rewrite take_word_graphic; [done|done|rewrite length_app; cbn; lia|by left]. }
  apply H. rewrite !length_app. cbn. rewrite length_app. cbn. destruct a; [done|cbn; lia].
Qed.

Lemma u64_to_string_graphic n : Forall graphic (u64_to_string n).
Proof.
  eapply Forall_impl; [by apply (dec_digits_chars 20 n []), List.Forall_nil|].
  unfold ip_char, graphic, c_dot. cbn. lia.
Qed.

Section response.
Context `{HttpCrate}.

(** A header as the text of its line. *)
Definition header_text (h : bytes * bytes) : bytes := h.1 ++ bs ": " ++ h.2.

(** The text of a header that [http] accepts and that normalises to [k]. *)
Definition header_ok (h k : bytes * bytes) : Prop :=
  (58 ∉ h.1) ∧ head_line (header_text h) ∧ utf8_valid (header_text h) = true ∧
  header_name h.1 = Some k.1 ∧ header_value h.2 = Some k.2.

Lemma add_headers_read hs ks acc :
  Forall2 header_ok hs ks → add_headers (map header_text hs) (Some acc) = Some (acc ++ ks).
Proof.
  intros Hhs. revert acc. induction Hhs as [|h k hs ks (Hn & _ & _ & Ek & Ev) _ IH]; intros acc.
  - cbn. by rewrite app_nil_r.
  - cbn [map add_headers]. change (header_text h) with (h.1 ++ [58; 32] ++ h.2).
    change (bs ": ") with [58; 32]. rewrite split_once_str_app by done. cbn [mbind option_bind]. rewrite Ek, Ev. cbn [mbind option_bind].
    rewrite IH, <- app_assoc. by destruct k.
Qed.

Definition status_line (code : Z) (reason : bytes) : bytes :=
  bs "HTTP/1.1 " ++ u64_to_string code ++ [32] ++ reason.

(** The text of a response. *)
Definition response_text (code : Z) (reason : bytes) (hs : list (bytes * bytes)) (body : bytes) : bytes :=
  join_crlf (status_line code reason :: map header_text hs) ++ crlf ++ crlf ++ body.

Lemma status_code_read code reason :
  100 ≤ code ≤ 999 → status_code (status_line code reason) = code.
Proof.
  intros Hc. unfold status_code, status_line.
  change (bs "HTTP/1.1 ") with (bs "HTTP/1.1" ++ [32]). rewrite <- app_assoc. cbn [app].
  destruct (u64_to_string_spec code ltac:(lia)) as (d & ds & E & _).
  rewrite second_word; try done.
  - cbn [mbind option_bind]. by rewrite parse_unsigned_to_string by lia.
  - apply (bool_decide_unpack _). by vm_compute.
  - by rewrite E.
  - apply u64_to_string_graphic.
Qed.

Lemma status_line_ok code reason :
  13 ∉ reason → 10 ∉ reason → utf8_valid reason = true →
  head_line (status_line code reason) ∧ utf8_valid (status_line code reason) = true.
Proof.
  intros H13 H10 Hu. unfold status_line. pose proof (u64_to_string_graphic code) as Hg.
  assert (∀ c, ¬ graphic c → c ∉ u64_to_string code) as Hno.
  { intros c Hc Hin. by apply Hc, (proj1 (Forall_forall _ _) Hg). }
  split; [split; [done|split]|].
  - rewrite !not_elem_of_app. repeat split; [by apply (bool_decide_unpack _)|apply Hno; unfold graphic; lia|by apply (bool_decide_unpack _)|done].
  - rewrite !not_elem_of_app. repeat split; [by apply (bool_decide_unpack _)|apply Hno; unfold graphic; lia|by apply (bool_decide_unpack _)|done].
  - repeat apply utf8_valid_app; try done. apply utf8_valid_ascii. eapply Forall_impl; [exact Hg|]. unfold graphic. cbn. lia.
Qed.

Lemma utf8_join ls : Forall (λ l, utf8_valid l = true) ls → utf8_valid (join_crlf ls) = true.
Proof.
  induction 1 as [|l ls Hl Hls IH]; [done|]. destruct ls as [|l' ls]; [done|].
  change (join_crlf (l :: l' :: ls)) with (l ++ crlf ++ join_crlf (l' :: ls)).
  repeat apply utf8_valid_app; done.
Qed.

Lemma parse_response code reason hs ks body :
  100 ≤ code ≤ 999 → status_from_u16 code = Some code → 13 ∉ reason → 10 ∉ reason → utf8_valid reason = true →
  Forall2 header_ok hs ks →
  parse_http_response (response_text code reason hs body) =
    Ok {| rs_status := code; rs_headers := ks; rs_body := body |}.
Proof.
  intros Hc Hs H13 H10 Hu Hhs. destruct (status_line_ok code reason H13 H10 Hu) as [Hl Hlu].
  set (ls := status_line code reason :: map header_text hs).
  assert (Forall (λ l, head_line l ∧ utf8_valid l = true) ls) as [Hls Hus]%Forall_and.
  { constructor; [done|]. apply Forall_map. clear -Hhs. induction Hhs as [|h k hs ks (_ & ? & ? & _) _ IH]; constructor; done. }
  unfold parse_http_response, response_text. fold ls. rewrite split_head_join by done. cbn [ok_or obind].
  rewrite from_utf8_valid by (by apply utf8_join). cbn [ok_or obind]. rewrite lines_join by done.
  unfold ls. cbn [lookup list_lookup from_option tail id]. rewrite status_code_read, Hs by done. cbn [mbind option_bind].
  by rewrite (add_headers_read hs ks []).
Qed.
End response.

Lemma split_once_str_Some p l a b : split_once_str p l = Some (a, b) → l = a ++ p ++ b.
Proof.
  revert a. induction l as [|x l IH]; intros a; cbn [split_once_str].
  - destruct (strip_prefix p []) eqn:E; [|done]. intros [= <- <-]. exact (strip_prefix_Some p [] _ E).
  - destruct (strip_prefix p (x :: l)) eqn:E; [intros [= <- <-]; exact (strip_prefix_Some p _ _ E)|].
    destruct (split_once_str p l) as [[a' b']|]; [|done]. intros [= <- <-]. cbn. f_equal. by apply IH.
Qed.

(** C36: the HTTP client reads what a server writes. A response with a status between 100 and 999, any
    reason and any headers that the crate accepts is read as this status, these headers and all
    bytes after the empty line; whatever else arrives, the parser returns the bytes after the first
    empty line as the body, or the error [Protocol], and never panics. *)
Theorem http_response_is_read : ∀ `(HttpCrate) code reason hs ks body,
  100 ≤ code ≤ 999 → status_from_u16 code = Some code →
  13 ∉ reason → 10 ∉ reason → utf8_valid reason = true → Forall2 header_ok hs ks →
  parse_http_response (response_text code reason hs body) =
    Ok {| rs_status := code; rs_headers := ks; rs_body := body |} ∧
  ∀ raw, match parse_http_response raw with
         | Ok r => ∃ head, raw = head ++ crlf ++ crlf ++ rs_body r
         | Err e => e = Protocol
         | _ => False
         end.
Proof.
  intros HC code reason hs ks body Hc Hs H13 H10 Hu Hhs. split; [by apply parse_response|].
  intros raw. unfold parse_http_response, split_head.
  destruct (split_once_str _ raw) as [[head b]|] eqn:E; cbn [ok_or obind]; [|done].
  apply split_once_str_Some in E. destruct (from_utf8 head); cbn [ok_or obind]; [|done].
  destruct (_ ← _; _) as [k|]; cbn [ok_or obind]; [|done]. exists head. by rewrite E, <- app_assoc.
Qed.

(** A model of the crate that accepts every header. *)
#[local] Instance plain_http : HttpCrate :=
  {| parse_uri t := Some (mk_uri (Some (bs "http")) (Some (bs "tracker")) None (Some t));
     header_name n := Some (map ascii_lower n); header_value := Some; value_to_str := Some;
     status_from_u16 z := if (100 <=? z) && (z <=? 999) then Some z else None |}.

Lemma http_response_is_read_witness :
  parse_http_response (bs "HTTP/1.1 302 Found" ++ crlf ++ bs "Location: /a" ++ crlf ++ crlf ++ [1; 13; 10; 13; 10]) =
    Ok {| rs_status := 302; rs_headers := [(bs "location", bs "/a")]; rs_body := [1; 13; 10; 13; 10] |}.
Proof.
  refine (proj1 (http_response_is_read plain_http 302 (bs "Found") [(bs "Location", bs "/a")]
    [(bs "location", bs "/a")] [1; 13; 10; 13; 10] _ _ _ _ _ _)).
  - lia.
  - reflexivity.
  - apply (bool_decide_unpack _). vm_compute. exact I.
  - apply (bool_decide_unpack _). vm_compute. exact I.
  - reflexivity.
  - constructor; [|constructor]. unfold header_ok, head_line. cbn [fst snd].
    repeat split; try (apply (bool_decide_unpack _); vm_compute; exact I).
Defined.

(** A body in chunks, which a server may send to a client that speaks HTTP/1.1, is not put together. *)
Example chunked_body_is_raw :
  option_map rs_body (outcome_ok (parse_http_response
    (bs "HTTP/1.1 200 OK" ++ crlf ++ bs "Transfer-Encoding: chunked" ++ crlf ++ crlf ++ bs "2" ++ crlf ++ bs "de" ++ crlf ++
     bs "0" ++ crlf ++ crlf))) = Some (bs "2" ++ crlf ++ bs "de" ++ crlf ++ bs "0" ++ crlf ++ crlf).
Proof. vm_compute. reflexivity. Qed.
