(* ===== verification/HttpTracker.v ===== *)
(** The HTTP tracker client (BEP 3, 23): [crates/torrent/src/tracker/http.rs].

    Its announce is a loop over redirects; the query it sends is read back by a tracker that follows
    the encoding of HTML forms. *)

From stdpp Require Import base numbers list list_numbers strings.
From Stdlib Require Import ZArith Lia.
From S2P Require Import Prelude Facts Error Text Net IpText Tracker Step HttpClient.

Definition MAX_RESPONSE_SIZE : Z := 256 * 1024.

(** * The query *)

Section query.
Context {Url : Type} `{UrlText Url}.

(** [match req.event]. *)
Definition event_str (e : AnnounceEvent) : bytes :=
  match e with
  | Started => bs "started"
  | Stopped => bs "stopped"
  | Completed => bs "completed"
  | NoEvent => bs "empty"
  end.

Definition opt_param {A} (name : string) (o : option A) (print : A → bytes) : bytes :=
  match o with Some a => bs name ++ print a | None => [] end.

Definition build_query_string (req : AnnounceRequest) : bytes :=
  bs "info_hash=" ++ byte_serialize (req_info_hash req) ++
  bs "&peer_id=" ++ byte_serialize (req_peer_id req) ++
  bs "&port=" ++ u64_to_string (req_port req) ++
  bs "&uploaded=" ++ u64_to_string (uploaded req) ++
  bs "&downloaded=" ++ u64_to_string (downloaded req) ++
  bs "&left=" ++ u64_to_string (left_bytes req) ++
  (if compact req then bs "&compact=1" else []) ++
  bs "&event=" ++ event_str (event req) ++
  opt_param "&numwant=" (numwant req) u64_to_string ++
  opt_param "&key=" (key req) u64_to_string ++
  opt_param "&trackerid=" (trackerid req) id ++
  opt_param "&ip=" (req_ip req) ipv4_to_string ++
  opt_param "&ipv6=" (req_ipv6 req) ipv6_to_string.
End query.

(** * The announce *)

(** [struct HttpTracker]. *)
Record HttpTracker (Url : Type) : Type := mk_http_tracker {
  ht_url : Url;
  ht_host : bytes;
  ht_port : Z;
  ht_tls : bool;
}.
Arguments mk_http_tracker {Url}. Arguments ht_url {Url}. Arguments ht_host {Url}.
Arguments ht_port {Url}. Arguments ht_tls {Url}.

Section announce.
Context {Url : Type} `{UrlText Url} `{HttpCrate}.

(** [HttpTracker::new] on a URL. *)
Definition http_tracker_new (w : Wire) (url : Url) : result (HttpTracker Url) :=
  let! host := ok_or (host_str url) InvalidInput in
  let https := bool_decide (scheme url = bs "https") in
  let! _ := if https then build_tls_connector w else Ok tt in
  Ok {| ht_url := url; ht_host := host; ht_port := default 80 (port_or_known_default url); ht_tls := https |}.

(** One exchange: the request for the current URL and its answer. *)
Definition exchange (w : Wire) (req : AnnounceRequest) (current_url : Url) : step (list Sent) Response :=
  let announce_url := set_query (build_query_string req) current_url in
  do! uri := lift (ok_or (parse_uri (as_str announce_url)) TrackerInvalidResponse) in
  do! size := lift (ok_or (header_value (u64_to_string MAX_RESPONSE_SIZE)) TrackerInvalidResponse) in
  let rq := {| rq_method := bs "GET"; rq_uri := uri; rq_headers := [(bs "x-max-response", size)] |} in
  do! r := attempt (send_request w rq) in
  match r with
  | inl resp => sret resp
  | inr _ => lift (Err Io)
  end.

Definition location_of (resp : Response) : bytes :=
  default [] (v ← get_header (bs "location") (rs_headers resp); value_to_str v).

(** The arm of a redirect: the counter is already decremented. *)
Definition follow (w : Wire) (remaining : nat) (current_url : Url) (tls : bool) (resp : Response)
    : result (Url * bool) :=
  let! _ := guard_err (remaining =? 0)%nat TrackerRequestFailed in
  let location := location_of resp in
  let! _ := guard_err (bool_decide (location = [])) TrackerProtocolError in
  let! new_url := resolve_redirect_url current_url location in
  let! tls :=
    if bool_decide (scheme new_url = bs "https") && negb tls then
      let! _ := build_tls_connector w in Ok true
    else Ok (if bool_decide (scheme new_url = bs "http") then false else tls) in
  Ok (new_url, tls).

(** The loop, with the redirects that remain. It returns at the last of them. *)
Fixpoint http_announce_loop (w : Wire) (req : AnnounceRequest) (remaining : nat) (current_url : Url)
    (tls : bool) : step (list Sent) AnnounceResponse :=
  match remaining with
  | O => lift NoFuel
  | S remaining' =>
      do! resp := exchange w req current_url in
      if (rs_status resp =? 301) || (rs_status resp =? 302) then
        do! (new_url, tls) := lift (follow w remaining' current_url tls resp) in
        http_announce_loop w req remaining' new_url tls
      else if rs_status resp =? 200 then lift (response_from_bencode (rs_body resp))
      else lift (Err TrackerRequestFailed)
  end.

Definition http_announce (w : Wire) (t : HttpTracker Url) (req : AnnounceRequest)
    : step (list Sent) AnnounceResponse :=
  http_announce_loop w req MAX_REDIRECTS (ht_url t) (ht_tls t).
End announce.

(** * What a tracker reads in the query of an HTTP announce. *)

(** * Reading a form *)

(** The decoding of [application/x-www-form-urlencoded]. *)
Fixpoint form_decode (l : bytes) : bytes :=
  match l with
  | [] => []
  | x :: l' =>
      if x =? c_plus then 32 :: form_decode l'
      else if x =? c_percent then
        match l' with
        | a :: b :: l'' =>
            match hex_val a, hex_val b with
            | Ok h, Ok d => h * 16 + d :: form_decode l''
            | _, _ => x :: form_decode l'
            end
        | _ => x :: form_decode l'
        end
      else x :: form_decode l'
  end.

Definition parse_field (s : bytes) : bytes * bytes :=
  match split_once 61 s with
  | Some (k, v) => (k, form_decode v)
  | None => (s, [])
  end.

Definition parse_query (q : bytes) : list (bytes * bytes) := map parse_field (split_on 38 q).

(** What the announce says, as the fields of a form. *)
Definition opt_field {A} (name : string) (o : option A) (print : A → bytes) : list (bytes * bytes) :=
  match o with Some a => [(bs name, print a)] | None => [] end.

Definition form_fields (ser : bytes → bytes) (tid : bytes → list (bytes * bytes)) (req : AnnounceRequest)
    : list (bytes * bytes) :=
  (bs "info_hash", ser (req_info_hash req)) ::
  [(bs "peer_id", ser (req_peer_id req)); (bs "port", u64_to_string (req_port req));
   (bs "uploaded", u64_to_string (uploaded req)); (bs "downloaded", u64_to_string (downloaded req));
   (bs "left", u64_to_string (left_bytes req))] ++
  (if compact req then [(bs "compact", bs "1")] else []) ++
  [(bs "event", event_str (event req))] ++
  opt_field "numwant" (numwant req) u64_to_string ++ opt_field "key" (key req) u64_to_string ++
  match trackerid req with Some t => tid t | None => [] end ++
  opt_field "ip" (req_ip req) ipv4_to_string ++ opt_field "ipv6" (req_ipv6 req) ipv6_to_string.

Definition query_fields (ser : bytes → bytes) : AnnounceRequest → list (bytes * bytes) :=
  form_fields ser (λ t, [(bs "trackerid", t)]).

(** What becomes of the tracker id, which is not encoded: every ampersand in it starts a field. *)
Definition tracker_id_fields (t : bytes) : list (bytes * bytes) :=
  match split_on 38 t with
  | v :: rest => (bs "trackerid", form_decode v) :: map parse_field rest
  | [] => []
  end.

(** * The text of the query *)

Definition field_text (f : bytes * bytes) : bytes := f.1 ++ [61] ++ f.2.

Definition amp (fs : list (bytes * bytes)) : bytes := concat (map (λ f, 38 :: field_text f) fs).

Lemma amp_app fs gs : amp (fs ++ gs) = amp fs ++ amp gs.
Proof. unfold amp. by rewrite map_app, concat_app. Qed.

Lemma join_amp f fs : join 38 (map field_text (f :: fs)) = field_text f ++ amp fs.
Proof.
  revert f. induction fs as [|g fs IH]; intros f; [cbn [map join amp concat]; by rewrite app_nil_r|].
  change (join 38 (map field_text (f :: g :: fs))) with (field_text f ++ 38 :: join 38 (map field_text (g :: fs))).
  rewrite IH. done.
Qed.

Section facts.
Context {Url : Type} `{UrlText Url}.

Lemma query_is_join req :
  build_query_string req = join 38 (map field_text (query_fields byte_serialize req)).
Proof.
  unfold query_fields, form_fields.
  change (match trackerid req with Some t => _ | None => _ end) with (opt_field "trackerid" (trackerid req) id).
  rewrite join_amp, !amp_app. unfold build_query_string.
  assert (∀ A (n1 n2 : string) (o : option A) p, bs n1 = 38 :: bs n2 ++ [61] → opt_param n1 o p = amp (opt_field n2 o p)) as Hopt.
  { intros A n1 n2 [a|] p E; [|done]. cbn [opt_param opt_field]. unfold amp, field_text. cbn [map concat fst snd].
    rewrite app_nil_r, E. cbn [app]. by rewrite <- app_assoc. }
  rewrite (Hopt _ "&numwant=" "numwant"), (Hopt _ "&key=" "key"), (Hopt _ "&trackerid=" "trackerid"),
    (Hopt _ "&ip=" "ip"), (Hopt _ "&ipv6=" "ipv6") by reflexivity.
  repeat match goal with |- context [amp (opt_field ?n ?o ?p)] => generalize (amp (opt_field n o p)); intros ? end.
  repeat match goal with |- context [u64_to_string ?n] => generalize (u64_to_string n); intros ? end.
  generalize (byte_serialize (req_info_hash req)) (byte_serialize (req_peer_id req)) (event_str (event req)). intros b1 b2 b3.
  unfold amp, field_text. destruct (compact req); cbn; rewrite ?app_nil_r; repeat progress (rewrite <- ?app_assoc; cbn [app]); reflexivity.
Qed.

Lemma plain_decode l : 37 ∉ l → 43 ∉ l → form_decode l = l.
Proof.
  induction l as [|x l IH]; intros H1 H2; [done|].
  apply not_elem_of_cons in H1 as [H1 H1']. apply not_elem_of_cons in H2 as [H2 H2'].
  cbn [form_decode]. rewrite (proj2 (Z.eqb_neq _ _)), (proj2 (Z.eqb_neq _ _)) by congruence. by rewrite IH.
Qed.

Lemma ip_char_plain l : Forall ip_char l → (37 ∉ l) ∧ (43 ∉ l) ∧ (38 ∉ l).
Proof.
  intros Hl. assert (∀ c, ¬ ip_char c → c ∉ l) as Hno.
  { intros c Hc Hin. by apply Hc, (proj1 (Forall_forall _ _) Hl). }
  split; [|split]; apply Hno; unfold ip_char, c_dot; lia.
Qed.
End facts.

(** A field that a tracker reads as its name and the value [v]. *)
Definition reads (f g : bytes * bytes) : Prop :=
  f.1 = g.1 ∧ (61 ∉ f.1) ∧ (38 ∉ f.1) ∧ (38 ∉ f.2) ∧ form_decode f.2 = g.2.

Lemma reads_plain n v : 61 ∉ bs n → 38 ∉ bs n → (37 ∉ v) ∧ (43 ∉ v) ∧ (38 ∉ v) → reads (bs n, v) (bs n, v).
Proof. intros H1 H2 (H3 & H4 & H5). unfold reads. cbn [fst snd]. by rewrite plain_decode. Qed.

Lemma split_on_cons c x : ∃ s ss, split_on c x = s :: ss.
Proof. destruct x as [|y x]; cbn [split_on]; [by eexists _, _|]. destruct (y =? c), (split_on c x); by eexists _, _. Qed.

Lemma split_on_sep c x y : split_on c (x ++ c :: y) = split_on c x ++ split_on c y.
Proof.
  induction x as [|z x IH]; cbn [app split_on]; [by rewrite Z.eqb_refl|]. rewrite IH.
  destruct (z =? c); [done|]. by destruct (split_on_cons c x) as (s & ss & ->).
Qed.

(** Behind any text, the fields [fs] are read as [gs]. *)
Definition amp_reads (fs gs : list (bytes * bytes)) : Prop :=
  ∀ x, parse_query (x ++ amp fs) = parse_query x ++ gs.

Lemma amp_reads_nil : amp_reads [] [].
Proof. intros x. unfold amp. cbn. by rewrite !app_nil_r. Qed.

Lemma amp_reads_app fs gs fs' gs' : amp_reads fs gs → amp_reads fs' gs' → amp_reads (fs ++ fs') (gs ++ gs').
Proof. intros H1 H2 x. by rewrite amp_app, app_assoc, H2, H1, app_assoc. Qed.

Lemma amp_reads_text f gs : parse_query (field_text f) = gs → amp_reads [f] gs.
Proof.
  intros <- x. unfold amp, parse_query. cbn [map concat]. rewrite app_nil_r, split_on_sep. apply map_app.
Qed.

Lemma parse_reads f g : reads f g → parse_query (field_text f) = [g].
Proof.
  intros (E & H1 & H2 & H3 & E2). unfold parse_query, field_text. rewrite split_on_none.
  - cbn [map]. unfold parse_field. cbn [app]. rewrite split_once_app by done. rewrite E, E2. by destruct g.
  - rewrite !not_elem_of_app, list_elem_of_singleton. repeat split; [done|lia|done].
Qed.

Lemma amp_reads_one f g : reads f g → amp_reads [f] [g].
Proof. intros H. by apply amp_reads_text, parse_reads. Qed.

Lemma tracker_id_text t : parse_query (field_text (bs "trackerid", t)) = tracker_id_fields t.
Proof.
  unfold parse_query, field_text, tracker_id_fields. cbn [fst snd].
  change (bs "trackerid" ++ [61] ++ t) with (bs "trackerid=" ++ t).
  assert (∀ p l, 38 ∉ p → split_on 38 (p ++ l) =
    match split_on 38 l with v :: rest => (p ++ v) :: rest | [] => [] end) as Hp.
  { induction p as [|x p IH]; intros l Hno; cbn [app]; destruct (split_on_cons 38 l) as (s & ss & E); [by rewrite E|].
    apply not_elem_of_cons in Hno as [Hx Hno]. cbn [split_on].
    rewrite (proj2 (Z.eqb_neq _ _)) by congruence. by rewrite IH, E. }
  rewrite Hp by (apply (bool_decide_unpack _); vm_compute; exact I).
  destruct (split_on 38 t) as [|v rest]; reflexivity.
Qed.

Lemma tracker_id_plain t : (37 ∉ t) ∧ (43 ∉ t) ∧ (38 ∉ t) → tracker_id_fields t = [(bs "trackerid", t)].
Proof. intros (H1 & H2 & H3). unfold tracker_id_fields. by rewrite split_on_none, plain_decode by done. Qed.

Ltac field_name := apply (bool_decide_unpack _); vm_compute; exact I.

(** C37: what a tracker reads in the query of an announce. Assumed of the encoding of forms, which the
    crate [url] documents: what it encodes is decoded to the same bytes, and holds no ampersand. Then the
    fields a tracker parses are those of the request, in order: the raw hash and peer id, the decimal
    counters, and each optional field that is set; only the tracker id, which is written without
    encoding, is read as a value that ends at its first ampersand, decoded, and as a further field for
    what follows each ampersand. So if it has no ampersand, no plus and no percent sign, the fields are
    exactly those of the request. *)
Theorem query_is_read_back : ∀ (Url : Type) `(UrlText Url) req,
  (∀ b, bytes_ok b → form_decode (byte_serialize b) = b ∧ (38 ∉ byte_serialize b)) →
  bytes_ok (req_info_hash req) → bytes_ok (req_peer_id req) →
  parse_query (build_query_string req) = form_fields id tracker_id_fields req ∧
  ((∀ t, trackerid req = Some t → (37 ∉ t) ∧ (43 ∉ t) ∧ (38 ∉ t)) →
   parse_query (build_query_string req) = query_fields id req).
Proof.
  intros Url HU req Hser Hih Hpid.
  assert (parse_query (build_query_string req) = form_fields id tracker_id_fields req) as E.
  2: { split; [done|]. intros Htid. rewrite E. unfold query_fields, form_fields.
       destruct (trackerid req) as [t|]; [|done]. by rewrite tracker_id_plain by by apply Htid. }
  destruct (Hser _ Hih) as [Ei Hi]. destruct (Hser _ Hpid) as [Ep Hp].
  assert (∀ n, (37 ∉ u64_to_string n) ∧ (43 ∉ u64_to_string n) ∧ (38 ∉ u64_to_string n)) as Hdec
    by (intros n; apply ip_char_plain, (dec_digits_chars 20 n []), List.Forall_nil).
  assert (∀ A n (o : option A) p, 61 ∉ bs n → 38 ∉ bs n →
    (∀ a, (37 ∉ p a) ∧ (43 ∉ p a) ∧ (38 ∉ p a)) → amp_reads (opt_field n o p) (opt_field n o p)) as Hopt.
  { intros A n [a|] p H1 H2 Ha; [by apply amp_reads_one, reads_plain|apply amp_reads_nil]. }
  rewrite query_is_join. unfold query_fields, form_fields. rewrite join_amp.
  match goal with |- _ = ?g :: ?gs => change (g :: gs) with ([g] ++ gs) end.
  rewrite <- (parse_reads (bs "info_hash", byte_serialize (req_info_hash req)) (bs "info_hash", id (req_info_hash req)))
    by (repeat split; try done; field_name).
  match goal with |- _ = _ ++ ?gs => enough (amp_reads _ gs) as H by apply H end.
  repeat apply amp_reads_app.
  - apply (amp_reads_app [_] [_]); [apply amp_reads_one; repeat split; try done; field_name|].
    repeat (apply (amp_reads_app [_] [_]); [apply amp_reads_one, reads_plain; [field_name|field_name|apply Hdec]|]).
    apply amp_reads_nil.
  - destruct (compact req); [apply amp_reads_one; repeat split; try done; field_name|apply amp_reads_nil].
  - apply amp_reads_one. destruct (event req); repeat split; try done; field_name.
  - apply Hopt; [field_name|field_name|]. intros; apply Hdec.
  - apply Hopt; [field_name|field_name|]. intros; apply Hdec.
  - destruct (trackerid req) as [t|]; [by apply amp_reads_text, tracker_id_text|apply amp_reads_nil].
  - apply Hopt; [field_name|field_name|]. intros a. apply ip_char_plain, ipv4_chars.
  - apply Hopt; [field_name|field_name|]. intros a. apply ip_char_plain, (ip_to_string_chars (V6 a)).
Qed.

(** The encoding as the standard for forms describes it. *)
Definition percent (b : Z) : bytes :=
  if is_ascii_digit b || in_range 65 90 b || in_range 97 122 b || bool_decide (b ∈ [42; 45; 46; 95]) then [b]
  else if b =? 32 then [43] else 37 :: hex_byte true b.

Lemma percent_reads l :
  bytes_ok l → form_decode (concat (map percent l)) = l ∧ (38 ∉ concat (map percent l)).
Proof.
  induction 1 as [|b l Hb _ [IH1 IH2]]; [split; [done|apply not_elem_of_nil]|]. cbn [map concat].
  assert (form_decode (percent b ++ concat (map percent l)) = b :: form_decode (concat (map percent l)) ∧ (38 ∉ percent b)) as [E Hno].
  { unfold percent. destruct (_ || _) eqn:Es.
    - assert (b ≠ 37 ∧ b ≠ 43 ∧ b ≠ 38) as (H1 & H2 & H3) by (repeat split; intros ->; by vm_compute in Es).
      cbn [app form_decode]. rewrite (proj2 (Z.eqb_neq _ _) H2), (proj2 (Z.eqb_neq _ _) H1).
      split; [done|]. by rewrite list_elem_of_singleton.
    - destruct (Z.eqb_spec b 32) as [->|]; [split; [done|apply (bool_decide_unpack _); by vm_compute]|].
      destruct (nibbles b Hb) as (Hh & Hd & _). unfold hex_byte. cbn [app form_decode Z.eqb Pos.eqb].
      rewrite !hex_val_digit by done. split; [f_equal; pose proof (Z.div_mod b 16 ltac:(lia)); lia|].
      destruct (hex_digit_graphic true _ Hh), (hex_digit_graphic true _ Hd). rewrite !not_elem_of_cons.
      repeat split; try lia. apply not_elem_of_nil. }
  rewrite E, IH1. split; [done|]. rewrite not_elem_of_app. done.
Qed.

(** URLs as their texts. *)
#[local] Instance text_urls : UrlText bytes :=
  {| parse_url := Some; as_str := id; scheme t := match split_once c_colon t with Some (s, _) => s | None => [] end;
     host_str t := Some t; port_or_known_default _ := Some 80;
     set_query q t := match split_once 63 t with Some (p, _) => p | None => t end ++ [63] ++ q;
     join_url _ l := Some l; byte_serialize l := concat (map percent l) |}.

Definition sample_request : AnnounceRequest :=
  {| req_info_hash := [0; 38; 61; 43] ++ replicate 16 97; req_peer_id := replicate 20 255; req_port := 6881;
     uploaded := 1; downloaded := 2; left_bytes := 3; event := Started; compact := true; numwant := Some 50;
     key := None; trackerid := Some (bs "abc"); req_ip := Some [1; 2; 3; 4];
     req_ipv6 := Some (replicate 15 0 ++ [1]) |}.

Lemma query_is_read_back_witness :
  parse_query (build_query_string sample_request) = query_fields id sample_request.
Proof.
  destruct (query_is_read_back bytes text_urls sample_request percent_reads) as [_ Hplain].
  - apply (bool_decide_unpack _). vm_compute. exact I.
  - apply (bool_decide_unpack _). vm_compute. exact I.
  - apply Hplain. intros t [= <-]. apply (bool_decide_unpack _). vm_compute. exact I.
Defined.

(** A tracker id is not encoded: one with an ampersand adds fields of the tracker's choice. *)
Example tracker_id_adds_fields :
  let req := {| req_info_hash := []; req_peer_id := []; req_port := 1; uploaded := 0; downloaded := 0; left_bytes := 7;
    event := NoEvent; compact := false; numwant := None; key := None; trackerid := Some (bs "x&left=0");
    req_ip := None; req_ipv6 := None |} in
  drop 7 (parse_query (build_query_string req)) = [(bs "trackerid", bs "x"); (bs "left", bs "0")].
Proof. vm_compute. reflexivity. Qed.
