(* ===== verification/HttpAnnounce.v ===== *)
(** An announce over HTTP as a whole: how many requests it sends, to which URLs, and what it returns. *)

From stdpp Require Import base numbers list list_numbers strings.
From Stdlib Require Import ZArith Lia.
From S2P Require Import Prelude Facts Error Text Net Tracker Step HttpClient HttpTracker.

Section announce.
Context {Url : Type} `{UrlText Url} `{HttpCrate} (w : Wire) (req : AnnounceRequest).

Definition fails_or_returns {A} (r : result A) : Prop := match r with Ok _ | Err _ => True | _ => False end.

(** A request for the announce at the URL [u]. *)
Definition request_of (u : Url) (p : Sent) : Prop :=
  ∃ uri size host, parse_uri (as_str (set_query (build_query_string req) u)) = Some uri ∧
    uri_host uri = Some host ∧
    p.2 = request_text (mk_http_request (bs "GET") uri [(bs "x-max-response", size)]) host
            (default (bs "/") (uri_path_and_query uri)).

Definition web_url (u : Url) : Prop := scheme u = bs "http" ∨ scheme u = bs "https".

Lemma parse_http_fails raw : fails_or_returns (parse_http_response raw).
Proof.
  unfold parse_http_response. destruct (split_head raw) as [[h b]|]; [|done]. cbn [ok_or obind].
  destruct (from_utf8 h); [|done]. cbn [ok_or obind]. by destruct (_ ← _; _).
Qed.

Lemma connect_any_fails addrs : fails_or_returns (connect_any w addrs).
Proof.
  induction addrs as [|a addrs IH]; [done|]. cbn [connect_any].
  destruct (w_socket w a); [|done]. cbn [negb guard_err obind]. by destruct (w_connect w a).
Qed.

Ltac nothing_sent :=
  exists []; rewrite app_nil_r; split; [done|]; split; [cbn; lia|]; repeat first [split | apply List.Forall_nil | done].

(** A request is recorded once it is written. *)
Lemma send_request_spec rq s :
  ∃ ps, (send_request w rq s).1 = s ++ ps ∧ (length ps ≤ 1)%nat ∧ fails_or_returns (send_request w rq s).2 ∧
    Forall (λ p : Sent, ∃ host, uri_host (rq_uri rq) = Some host ∧
      p.2 = request_text rq host (default (bs "/") (uri_path_and_query (rq_uri rq)))) ps.
Proof.
  unfold send_request, sbind, lift, read, modify.
  destruct (uri_host _) as [host|] eqn:Eh; cbn [ok_or]; [|nothing_sent].
  assert (fails_or_returns (if bool_decide (uri_scheme (rq_uri rq) = Some (bs "https")) then build_tls_connector w else Ok tt))
    as Hb by (unfold build_tls_connector; by destruct (bool_decide _), (w_certs w)).
  destruct (if bool_decide _ then build_tls_connector w else Ok tt); try done; [|nothing_sent].
  destruct (w_lookup w host _) as [addrs|]; cbn [ok_or]; [|nothing_sent].
  pose proof (connect_any_fails addrs) as Hc. destruct (connect_any w addrs) as [[addr|]|e| |]; try done;
    cbn [ok_or]; try (nothing_sent).
  match goal with |- context [match (if ?b then ?x else Ok tt) with _ => _ end] =>
    assert (fails_or_returns (if b then x else Ok tt)) as Ht
      by (destruct b; [destruct (w_server_name w host), (w_handshake w addr host); done|done]);
    destruct (if b then x else Ok tt); try done end; [|nothing_sent].
  destruct (w_write w _ _); cbn [negb guard_err]; [|nothing_sent].
  destruct (w_answer w _ _) as [raw|]; cbn [ok_or fst snd].
  all: eexists; split; [reflexivity|]; split; [cbn; lia|]; split; [first [apply parse_http_fails|done]|].
  all: repeat constructor; by exists host.
Qed.

Lemma exchange_spec u s :
  ∃ ps, (exchange w req u s).1 = s ++ ps ∧ (length ps ≤ 1)%nat ∧ Forall (request_of u) ps ∧
    fails_or_returns (exchange w req u s).2.
Proof.
  unfold exchange, sbind, lift, attempt. destruct (parse_uri _) as [uri|] eqn:Eu; cbn [ok_or];
    [|nothing_sent].
  destruct (header_value _) as [size|]; cbn [ok_or]; [|nothing_sent].
  set (rq := mk_http_request _ _ _). destruct (send_request_spec rq s) as (ps & E & L & F & P).
  exists ps. destruct (send_request w rq s) as [s' r]. cbn [fst snd] in *. subst s'.
  assert (Forall (request_of u) ps).
  { eapply Forall_impl; [exact P|]. intros p (host & Hh & Ep). by exists uri, size, host. }
  destruct r; try done; repeat split; done.
Qed.
(** What ends an announce: an error, or the reading of the body of an answer with status 200. *)
Definition concludes (r : result AnnounceResponse) : Prop :=
  (∃ e, r = Err e) ∨ ∃ resp, rs_status resp = 200 ∧ r = response_from_bencode (rs_body resp).

Lemma follow_spec n u tls resp :
  (∃ e, follow w n u tls resp = Err e) ∨
  (∃ v tls', follow w n u tls resp = Ok (v, tls') ∧ web_url v ∧ n ≠ 0%nat).
Proof.
  unfold follow. destruct (Nat.eqb_spec n 0) as [|Hn]; cbn [guard_err obind]; [eauto|].
  destruct (bool_decide _); cbn [guard_err obind]; [eauto|]. unfold resolve_redirect_url.
  destruct (join_url _ _) as [v|]; cbn [ok_or obind]; [|eauto].
  assert (fails_or_returns (build_tls_connector w)) as Hb by (unfold build_tls_connector; by destruct (w_certs w)).
  unfold web_url. destruct (bool_decide_reflect (scheme v = bs "http")), (bool_decide_reflect (scheme v = bs "https"));
    cbn [orb obind]; [| | |by eauto].
  all: destruct (bool_decide _ && _); cbn [obind];
    [destruct (build_tls_connector w); try done; cbn [obind]; [right|by eauto]|right]; eauto 10.
Qed.

(** A round of the loop whose exchange returned a response. *)
Definition conclude (n : nat) (u : Url) (tls : bool) (resp : Response) (s : list Sent)
    : list Sent * result AnnounceResponse :=
  if (rs_status resp =? 301) || (rs_status resp =? 302) then
    match follow w n u tls resp with
    | Ok (v, tls') => http_announce_loop w req n v tls' s
    | Err e => (s, Err e)
    | Panic => (s, Panic)
    | NoFuel => (s, NoFuel)
    end
  else if rs_status resp =? 200 then (s, response_from_bencode (rs_body resp)) else (s, Err TrackerRequestFailed).

Lemma announce_loop_eq n u tls s :
  http_announce_loop w req (S n) u tls s =
    match exchange w req u s with
    | (s', Ok resp) => conclude n u tls resp s'
    | (s', Err e) => (s', Err e)
    | (s', Panic) => (s', Panic)
    | (s', NoFuel) => (s', NoFuel)
    end.
Proof.
  cbn [http_announce_loop]. unfold sbind at 1. destruct (exchange w req u s) as [s' [resp|e| |]]; try done.
  unfold conclude. destruct (_ || _); [|by destruct (_ =? _)].
  unfold sbind, lift. by destruct (follow _ _ _ _ _) as [[v tls']|e| |].
Qed.

Lemma http_loop_spec n u tls s :
  n ≠ 0%nat → web_url u →
  ∃ ps, (http_announce_loop w req n u tls s).1 = s ++ ps ∧ (length ps ≤ n)%nat ∧
    Forall (λ p, ∃ v, web_url v ∧ request_of v p) ps ∧ concludes (http_announce_loop w req n u tls s).2.
Proof.
  revert u tls s. induction n as [|n IH]; intros u tls s Hn Hu; [done|]. rewrite announce_loop_eq.
  destruct (exchange_spec u s) as (ps & E & L & F & R).
  assert (Forall (λ p, ∃ v, web_url v ∧ request_of v p) ps) as F' by (eapply Forall_impl; [exact F|]; eauto).
  destruct (exchange w req u s) as [s' [resp|e| |]]; try done; cbn [fst snd] in *; subst s'.
  2: { exists ps. split; [done|]. split; [lia|]. split; [done|]. left. by eexists. }
  unfold conclude. destruct ((rs_status resp =? 301) || (rs_status resp =? 302)).
  - destruct (follow_spec n u tls resp) as [[e ->]|(v & tls' & -> & Hv & Hn')].
    + exists ps. split; [done|]. split; [lia|]. split; [done|]. left. by eexists.
    + destruct (IH v tls' (s ++ ps) Hn' Hv) as (ps' & E' & L' & F2 & R'). exists (ps ++ ps').
      split; [by rewrite E', app_assoc|]. split; [rewrite length_app; lia|]. split; [|done].
      by apply List.Forall_app.
  - destruct (Z.eqb_spec (rs_status resp) 200) as [H200|]; cbn [fst snd]; exists ps.
    + split; [done|]. split; [lia|]. split; [done|]. right. by exists resp.
    + split; [done|]. split; [lia|]. split; [done|]. left. by eexists.
Qed.

(** A server that answers a request for the same URL always in the same way, and what it redirects to. *)
Definition reply (u : Url) : result Response := (exchange w req u []).2.

Definition steady : Prop := w_certs w = true ∧ ∀ u s, (exchange w req u s).2 = reply u.

Inductive redirects : nat → Url → Url → Prop :=
| redirects_here u : redirects 0 u u
| redirects_to n u resp v x :
    reply u = Ok resp → rs_status resp = 301 ∨ rs_status resp = 302 → location_of resp ≠ [] →
    resolve_redirect_url u (location_of resp) = Ok v → redirects n v x → redirects (S n) u x.

Lemma follow_ok n u tls resp v :
  w_certs w = true → location_of resp ≠ [] → resolve_redirect_url u (location_of resp) = Ok v →
  ∃ tls', follow w (S n) u tls resp = Ok (v, tls').
Proof.
  intros Hc Hl Hr. unfold follow. cbn [Nat.eqb guard_err obind]. rewrite bool_decide_false by done.
  cbn [guard_err obind]. rewrite Hr. cbn [obind]. unfold build_tls_connector. rewrite Hc.
  destruct (bool_decide _ && _); cbn [negb guard_err obind]; eauto.
Qed.

Lemma announce_redirected k u x :
  steady → redirects k u x → ∀ n tls s, (n ≠ 0)%nat →
  if (k <? n)%nat then ∃ tls' s', (http_announce_loop w req n u tls s).2 = (http_announce_loop w req (n - k) x tls' s').2
  else (http_announce_loop w req n u tls s).2 = Err TrackerRequestFailed.
Proof.
  intros [Hc Hw]. induction 1 as [u|k u resp v x Hr Hst Hl Hv _ IH]; intros n tls s Hn.
  { destruct n as [|n]; [done|]. cbn [Nat.ltb Nat.leb]. rewrite Nat.sub_0_r. eauto. }
  destruct n as [|n]; [done|]. rewrite announce_loop_eq.
  pose proof (Hw u s) as E. rewrite Hr in E. destruct (exchange w req u s) as [s' r]. cbn [snd] in E. subst r.
  unfold conclude.
  assert ((rs_status resp =? 301) || (rs_status resp =? 302) = true) as ->.
  { apply orb_true_iff. rewrite !Z.eqb_eq. exact Hst. }
  destruct n as [|n].
  - unfold follow. cbn [Nat.eqb guard_err obind]. by destruct k.
  - destruct (follow_ok n u tls resp v Hc Hl Hv) as (tls' & ->). specialize (IH (S n) tls' s' ltac:(done)).
    change (S k <? S (S n))%nat with (k <? S n)%nat. destruct (k <? S n)%nat; [|done].
    destruct IH as (t & s2 & IH). exists t, s2. by rewrite IH.
Qed.

End announce.

(** C12: an HTTP announce comes to an end and follows redirects. Whatever the network does, it sends at
    most five requests, all of them the announce query to a URL with the scheme [http] or [https], and
    returns an error or what the body of an answer with status 200 says. With a server that always
    redirects the same way, at most four redirects are followed to the answer, and the fifth is
    refused, one less than [MAX_REDIRECTS]. *)
Theorem http_announce_follows_redirects : ∀ (Url : Type) `(UrlText Url) `(HttpCrate) w t req log,
  web_url (ht_url t) →
  let '(log', r) := http_announce w t req log in
  (∃ ps, log' = log ++ ps ∧ (length ps ≤ MAX_REDIRECTS)%nat ∧
     Forall (λ p, ∃ u, web_url u ∧ request_of req u p) ps) ∧
  concludes r ∧
  (steady w req → ∀ k u, redirects w req k (ht_url t) u →
     ((k < MAX_REDIRECTS)%nat → ∀ resp, reply w req u = Ok resp → rs_status resp = 200 →
        r = response_from_bencode (rs_body resp)) ∧
     ((MAX_REDIRECTS ≤ k)%nat → r = Err TrackerRequestFailed)).
Proof.
  intros Url HU HC w t req log Hu. unfold http_announce, MAX_REDIRECTS.
  destruct (http_loop_spec w req 5 (ht_url t) (ht_tls t) log ltac:(done) Hu) as (ps & E & L & F & R).
  destruct (http_announce_loop w req 5 (ht_url t) (ht_tls t) log) as [log' r] eqn:El. cbn [fst snd] in *.
  split; [by exists ps|]. split; [done|]. intros Hst k u Hk.
  pose proof (announce_redirected w req k (ht_url t) u Hst Hk 5 (ht_tls t) log ltac:(done)) as Hr.
  rewrite El in Hr. cbn [snd] in Hr. split.
  - intros Hlt resp Ha H200. rewrite (proj2 (Nat.ltb_lt k 5) Hlt) in Hr. destruct Hr as (tls' & s' & ->).
    destruct (5 - k)%nat as [|m] eqn:Em; [lia|]. rewrite announce_loop_eq.
    pose proof (proj2 Hst u s') as Ex. rewrite Ha in Ex. destruct (exchange w req u s') as [s2 r2]. cbn [snd] in Ex.
    subst r2. unfold conclude. by rewrite H200.
  - intros Hge. by rewrite (proj2 (Nat.ltb_ge k 5)) in Hr.
Qed.

#[local] Existing Instance text_urls.
#[local] Existing Instance plain_http.

(** A tracker that has moved from [/a] to [/b]. *)
Definition moved_answer (text : bytes) : bytes :=
  match strip_prefix (bs "GET http://t/a?") text with
  | Some _ => bs "HTTP/1.1 301 Moved" ++ crlf ++ bs "Location: http://t/b" ++ crlf ++ crlf
  | None => bs "HTTP/1.1 200 OK" ++ crlf ++ crlf ++ bs "d8:intervali900e5:peers0:e"
  end.

Definition tracker_addr : SocketAddr := mk_addr (V4 [127; 0; 0; 1]) 80.

Definition moved_wire : Wire :=
  {| w_lookup _ _ := Some [tracker_addr]; w_socket _ := true; w_connect _ := true; w_certs := true;
     w_server_name _ := true; w_handshake _ _ := true; w_write _ _ := true;
     w_answer _ p := Some (moved_answer p.2) |}.

Definition moved_tracker : HttpTracker bytes :=
  {| ht_url := bs "http://t/a"; ht_host := bs "t"; ht_port := 80; ht_tls := false |}.

Definition moved_response : Response :=
  {| rs_status := 200; rs_headers := []; rs_body := bs "d8:intervali900e5:peers0:e" |}.

Lemma moved_steady : steady moved_wire sample_request.
Proof.
  split; [done|]. intros u s. unfold reply, exchange, send_request, sbind, lift, attempt, read, modify. cbn.
  by destruct (parse_http_response _).
Qed.

Lemma http_announce_follows_redirects_witness :
  ∃ a, (http_announce moved_wire moved_tracker sample_request []).2 = Ok a ∧ interval a = 900.
Proof.
  pose proof (http_announce_follows_redirects bytes text_urls plain_http moved_wire moved_tracker sample_request []
    ltac:(left; reflexivity)) as H.
  destruct (http_announce moved_wire moved_tracker sample_request []) as [log' r]. destruct H as (_ & _ & H).
  destruct (H moved_steady 1%nat (bs "http://t/b")) as [H1 _].
  - eapply redirects_to; [vm_compute; reflexivity|left; reflexivity|done|vm_compute; reflexivity|apply redirects_here].
  - cbn [snd]. rewrite (H1 ltac:(unfold MAX_REDIRECTS; lia) moved_response ltac:(vm_compute; reflexivity) eq_refl).
    eexists. split; vm_compute; reflexivity.
Defined.
