(* ===== verification/TrackerClient.v ===== *)
(** The client of one or more trackers: [crates/torrent/src/tracker/mod.rs], with the conversions of
    [crates/torrent/src/net/into_url.rs].

    The tasks of an announce run at the same time; what the client sees of them is the order in which
    they end, which is an argument. *)

From stdpp Require Import base numbers list gmap strings.
From Stdlib Require Import ZArith Lia.
From S2P Require Import Prelude Facts Error Net Tracker Metainfo Magnet Step UdpTracker HttpClient HttpTracker.
From S2P Require Import HttpAnnounce.

(** * The source of a torrent, a torrent file or a magnet link: [crates/torrent-core/src/spec.rs]. *)

(** [enum TorrentSpec]. *)
Inductive TorrentSpec : Type :=
| SpecMetainfo (m : Metainfo)
| SpecMagnet (m : MagnetUri).

Definition spec_info_hash (sha1 : bytes → bytes) (s : TorrentSpec) : result bytes :=
  match s with
  | SpecMetainfo m => Ok (info_hash sha1 m)
  | SpecMagnet m => primary_info_hash m
  end.

(** The name of either mode. *)
Definition mode_name (m : Mode) : bytes :=
  match m with Single name _ => name | Multiple name _ => name end.

Definition spec_name (s : TorrentSpec) : option bytes :=
  match s with
  | SpecMetainfo m => Some (mode_name (mode (info m)))
  | SpecMagnet m => display_name m
  end.

Definition spec_trackers (s : TorrentSpec) : list bytes :=
  match s with
  | SpecMetainfo m => Metainfo.announce m :: concat (announce_list m)
  | SpecMagnet m => trackers m
  end.

Definition spec_web_seeds (s : TorrentSpec) : list bytes :=
  match s with
  | SpecMetainfo m => url_list m
  | SpecMagnet m => web_seeds m
  end.

Definition spec_httpseeds (s : TorrentSpec) : list bytes :=
  match s with
  | SpecMetainfo m => httpseeds m
  | SpecMagnet _ => []
  end.
(** * URLs *)

(** [trait IntoUrl]. *)
Class IntoUrl (Url A : Type) : Type := into_url : A → result Url.

#[global] Instance into_url_id {Url} : IntoUrl Url Url | 5 := Ok.

#[global] Instance into_url_text {Url} `{UrlText Url} : IntoUrl Url bytes | 10 :=
  λ s, ok_or (parse_url s) InvalidInput.

(** [UdpTracker::new] on a URL. *)
Definition udp_tracker_new {Url} `{UrlText Url} (url : Url) : result UdpTracker :=
  if bool_decide (scheme url = bs "udp")
  then Ok {| connection_id := None; cached_addr := None; sent := [] |} else Err InvalidInput.

(** * The list of trackers *)

(** [enum Inner]. *)
Inductive Inner (Url : Type) : Type :=
| Http (t : HttpTracker Url)
| Udp (url : Url) (t : UdpTracker).
Arguments Http {Url}. Arguments Udp {Url}.

(** [struct Tracker]. *)
Record Tracker (Url : Type) : Type := mk_tracker { inners : list (Inner Url) }.
Arguments mk_tracker {Url}. Arguments inners {Url}.

Section client.
Context {Url : Type} `{UrlText Url} (w : Wire).

Definition inner_url (i : Inner Url) : Url :=
  match i with Http t => ht_url t | Udp url _ => url end.

Definition inner_text (i : Inner Url) : bytes := as_str (inner_url i).

(** [Inner::from_url]. *)
Definition inner_from_url (url : Url) : result (Inner Url) :=
  if bool_decide (scheme url = bs "http") || bool_decide (scheme url = bs "https") then
    let! t := http_tracker_new w url in Ok (Http t)
  else if bool_decide (scheme url = bs "udp") then
    let! t := udp_tracker_new url in Ok (Udp url t)
  else Err InvalidInput.

Section generic.
Context {A : Type} `{IntoUrl Url A}.

Definition single (url : A) : option (Tracker Url) :=
  u ← outcome_ok (into_url url); i ← outcome_ok (inner_from_url u); Some (mk_tracker [i]).

(** The loop of [multi]: a URL is seen before it is known to be supported. *)
Fixpoint multi_loop (urls : list A) (seen : gset bytes) (trackers : list (Inner Url)) : list (Inner Url) :=
  match urls with
  | [] => trackers
  | url :: urls' =>
      match into_url url with
      | Ok u =>
          if bool_decide (as_str u ∈ seen) then multi_loop urls' seen trackers
          else
            multi_loop urls' ({[as_str u]} ∪ seen)
              match inner_from_url u with Ok i => trackers ++ [i] | _ => trackers end
      | _ => multi_loop urls' seen trackers
      end
  end.

Definition multi (urls : list A) : option (Tracker Url) :=
  match multi_loop urls ∅ [] with
  | [] => None
  | trackers => Some (mk_tracker trackers)
  end.

Definition add (url : A) (t : Tracker Url) : Tracker Url * result unit :=
  match into_url url with
  | Ok u =>
      if existsb (λ i, bool_decide (inner_text i = as_str u)) (inners t) then (t, Ok tt)
      else
        match inner_from_url u with
        | Ok i => (mk_tracker (inners t ++ [i]), Ok tt)
        | Err e => (t, Err e)
        | Panic => (t, Panic)
        | NoFuel => (t, NoFuel)
        end
  | Err e => (t, Err e)
  | Panic => (t, Panic)
  | NoFuel => (t, NoFuel)
  end.

(** The loop of [add_all]. *)
Fixpoint add_all_loop (urls : list A) (seen : gset bytes) (new_trackers : list (Inner Url))
    : result (list (Inner Url)) :=
  match urls with
  | [] => Ok new_trackers
  | url :: urls' =>
      let! u := into_url url in
      if bool_decide (as_str u ∈ seen) then add_all_loop urls' seen new_trackers
      else
        let! i := inner_from_url u in
        add_all_loop urls' ({[as_str u]} ∪ seen) (new_trackers ++ [i])
  end.

Definition add_all (urls : list A) (t : Tracker Url) : Tracker Url * result unit :=
  match add_all_loop urls (list_to_set (map inner_text (inners t))) [] with
  | Ok new_trackers => (mk_tracker (inners t ++ new_trackers), Ok tt)
  | Err e => (t, Err e)
  | Panic => (t, Panic)
  | NoFuel => (t, NoFuel)
  end.
End generic.

(** [Tracker::from_torrent]. *)
Definition from_torrent (spec : TorrentSpec) : option (Tracker Url) := multi (spec_trackers spec).

Definition tracker_len (t : Tracker Url) : nat := length (inners t).

Definition is_empty (t : Tracker Url) : bool := bool_decide (inners t = []).

Definition remove (url : bytes) (t : Tracker Url) : Tracker Url * bool :=
  let kept := filter (λ i, inner_text i ≠ url) (inners t) in
  (mk_tracker kept, (length kept <? length (inners t))%nat).

Definition clear (t : Tracker Url) : Tracker Url := mk_tracker [].

Definition urls (t : Tracker Url) : list bytes := map inner_text (inners t).

(** * Announcing *)

(** The call of a task: what the tracker answers. A task that panics is an error of [join_next]. *)
Definition inner_call `{HttpCrate} (net : Url → Network) (i : Inner Url) (req : AnnounceRequest)
    : result AnnounceResponse :=
  match i with
  | Http t => (http_announce w t req []).2
  | Udp url t => (UdpTracker.announce (net url) req t).2
  end.

Definition announce_into_set (call : Inner Url → AnnounceRequest → result AnnounceResponse) (t : Tracker Url)
    (req : AnnounceRequest) : list (result AnnounceResponse) :=
  map (λ i, call i req) (inners t).

(** The loop over [join_next], on the results in the order in which the tasks end. *)
Fixpoint first_loop (ended : list (result AnnounceResponse)) (last_err : option ErrorKind)
    : result AnnounceResponse :=
  match ended with
  | [] => Err (default TrackerRequestFailed last_err)
  | Ok resp :: _ => Ok resp
  | Err e :: ended' => first_loop ended' (Some e)
  | _ :: ended' => first_loop ended' (Some TrackerRequestFailed)
  end.

Definition announce_first (ended : list (result AnnounceResponse)) : result AnnounceResponse :=
  first_loop ended None.

Definition announce_all (ended : list (result AnnounceResponse)) : list AnnounceResponse :=
  omap outcome_ok ended.
End client.

(** * The list of trackers is a set of supported URLs in the order of their first appearance, and an
    announce returns the first success of the race. *)

(** * First occurrences *)

(** The elements of a list that are not in [seen], each at its first occurrence. *)
Fixpoint uniq (seen l : list bytes) : list bytes :=
  match l with
  | [] => []
  | x :: l' => if bool_decide (x ∈ seen) then uniq seen l' else x :: uniq (x :: seen) l'
  end.

Lemma elem_of_uniq seen l x : x ∈ uniq seen l ↔ x ∈ l ∧ (x ∉ seen).
Proof.
  revert seen. induction l as [|y l IH]; intros seen; cbn [uniq].
  - rewrite !elem_of_nil. tauto.
  - destruct (bool_decide_reflect (y ∈ seen)); rewrite ?elem_of_cons, IH.
    + destruct (decide (x = y)) as [->|]; tauto.
    + rewrite not_elem_of_cons. destruct (decide (x = y)) as [->|]; tauto.
Qed.

Lemma NoDup_uniq seen l : NoDup (uniq seen l).
Proof.
  revert seen. induction l as [|y l IH]; intros seen; cbn [uniq]; [constructor|].
  destruct (bool_decide _); [done|]. constructor; [|done]. rewrite elem_of_uniq, not_elem_of_cons. tauto.
Qed.

Lemma uniq_ext seen seen' l : (∀ x, x ∈ seen ↔ x ∈ seen') → uniq seen l = uniq seen' l.
Proof.
  revert seen seen'. induction l as [|y l IH]; intros seen seen' Hs; [done|]. cbn [uniq].
  rewrite (bool_decide_ext _ _ (Hs y)). destruct (bool_decide _); [by apply IH|]. f_equal. apply IH.
  intros x. by rewrite !elem_of_cons, Hs.
Qed.

Lemma uniq_snoc seen y l : y ∉ seen → uniq seen (y :: l) = y :: uniq (seen ++ [y]) l.
Proof.
  intros Hy. cbn [uniq]. rewrite bool_decide_false by done. f_equal. apply uniq_ext.
  intros x. rewrite elem_of_cons, elem_of_app, list_elem_of_singleton. tauto.
Qed.

Section facts.
Context {Url : Type} `{UrlText Url} (w : Wire) (Hparse : ∀ u : Url, parse_url (as_str u) = Some u).

Lemma as_str_inj u v : as_str u = as_str v → u = v.
Proof. intros E. apply (f_equal parse_url) in E. rewrite !Hparse in E. congruence. Qed.

(** A text that names a tracker: it parses, and its scheme and host are supported. *)
Definition tracker_url {A} `{IntoUrl Url A} (a : A) : option Url :=
  u ← outcome_ok (into_url a); if is_ok (inner_from_url w u) then Some u else None.

Definition inner_ok (i : Inner Url) : Prop := is_ok (inner_from_url w (inner_url i)) = true.

Definition tracker_ok (t : Tracker Url) : Prop := NoDup (urls t) ∧ Forall inner_ok (inners t).

Lemma http_tracker_new_url u t : http_tracker_new w u = Ok t → ht_url t = u.
Proof. unfold http_tracker_new. intros E. destruct (host_str u); [|done]. cbn [ok_or obind] in E.
  destruct (if bool_decide _ then _ else _); [|done..]. by injection E as <-. Qed.

Lemma inner_from_url_cases u :
  (∃ i, inner_from_url w u = Ok i ∧ inner_url i = u) ∨ inner_from_url w u = Err InvalidInput.
Proof.
  unfold inner_from_url. destruct (_ || _).
  - destruct (http_tracker_new w u) as [t|e| |] eqn:E; cbn [obind].
    + left. eexists. split; [done|]. by apply http_tracker_new_url.
    + right. revert E. unfold http_tracker_new, build_tls_connector. destruct (host_str u), (bool_decide _), (w_certs w); cbn; congruence.
    + exfalso. revert E. unfold http_tracker_new, build_tls_connector. by destruct (host_str u), (bool_decide _), (w_certs w).
    + exfalso. revert E. unfold http_tracker_new, build_tls_connector. by destruct (host_str u), (bool_decide _), (w_certs w).
  - unfold udp_tracker_new. destruct (bool_decide (scheme u = bs "udp")); cbn [obind]; [left; by eexists|by right].
Qed.

Section generic.
Context {A : Type} `{IntoUrl Url A}.

(** The loop of [multi] appends the trackers that are seen for the first time. *)
Lemma multi_loop_spec (us : list A) seen trackers :
  (∀ u, is_ok (inner_from_url w u) = true → as_str u ∈ seen ↔ as_str u ∈ map inner_text trackers) →
  Forall inner_ok trackers →
  map inner_text (multi_loop w us seen trackers) =
    map inner_text trackers ++ uniq (map inner_text trackers) (map as_str (omap tracker_url us)) ∧
  Forall inner_ok (multi_loop w us seen trackers).
Proof.
  revert seen trackers. induction us as [|a us IH]; intros seen trackers Hs Hok; cbn [multi_loop omap list_omap].
  { cbn. by rewrite app_nil_r. }
  assert (tracker_url a = match into_url a with Ok u => if is_ok (inner_from_url w u) then Some u else None | _ => None end)
    as -> by (unfold tracker_url; by destruct (into_url a)).
  destruct (into_url a) as [u|e| |]; try (by apply IH).
  destruct (bool_decide_reflect (as_str u ∈ seen)) as [Hin|Hin].
  - destruct (is_ok (inner_from_url w u)) eqn:Eu; [|by apply IH]. cbn [map uniq].
    rewrite bool_decide_true by (by apply Hs). by apply IH.
  - destruct (inner_from_url_cases u) as [(i & Ei & Hi)|Ei]; rewrite Ei.
    + cbn [is_ok map]. rewrite uniq_snoc by (rewrite <- Hs; [done|by rewrite Ei]).
      assert (map inner_text (trackers ++ [i]) = map inner_text trackers ++ [as_str u]) as Em.
      { rewrite map_app. cbn [map]. unfold inner_text at 2. by rewrite Hi. }
      destruct (IH ({[as_str u]} ∪ seen) (trackers ++ [i])) as [E F].
      * intros v Hv. rewrite Em, elem_of_union, elem_of_app, elem_of_singleton, list_elem_of_singleton, Hs by done. tauto.
      * apply List.Forall_app. split; [done|]. constructor; [|constructor]. unfold inner_ok. by rewrite Hi, Ei.
      * split; [|done]. by rewrite E, Em, <- app_assoc.
    + apply IH; [|done]. intros v Hv. rewrite elem_of_union, elem_of_singleton, Hs by done.
      split; [|tauto]. intros [Ev|]; [|done]. apply as_str_inj in Ev as ->. by rewrite Ei in Hv.
Qed.

(** The loop of [add_all] either appends all new trackers or fails at a URL that is none. *)
Lemma add_all_loop_spec (us : list A) seen old new :
  (∀ x, x ∈ seen ↔ x ∈ old ++ map inner_text new) → Forall inner_ok new →
  (∀ u, as_str u ∈ old → is_ok (inner_from_url w u) = true) →
  match add_all_loop w us seen new with
  | Ok new' => Forall (λ a, is_Some (tracker_url a)) us ∧ Forall inner_ok new' ∧
      map inner_text new' = map inner_text new ++ uniq (old ++ map inner_text new) (map as_str (omap tracker_url us))
  | Err e => Exists (λ a, tracker_url a = None) us
  | _ => Exists (λ a, into_url a = Panic ∨ into_url a = NoFuel) us
  end.
Proof.
  intros Hs Hn Hold. revert seen new Hs Hn. induction us as [|a us IH]; intros seen new Hs Hn; cbn [add_all_loop omap list_omap].
  { cbn. rewrite app_nil_r. by split. }
  assert (tracker_url a = match into_url a with Ok u => if is_ok (inner_from_url w u) then Some u else None | _ => None end)
    as Et by (unfold tracker_url; by destruct (into_url a)).
  rewrite Et. destruct (into_url a) as [u|e| |] eqn:Ea; cbn [obind]; try (by left; rewrite Et).
  2-3: left; rewrite Ea; tauto.
  destruct (bool_decide_reflect (as_str u ∈ seen)) as [Hin|Hin].
  - assert (is_ok (inner_from_url w u) = true) as Eu.
    { apply Hs, elem_of_app in Hin as [Hin|Hin]; [by apply Hold|].
      apply list_elem_of_In, in_map_iff in Hin as (i & Ei & Hi). apply as_str_inj in Ei as <-.
      by apply (proj1 (Forall_forall _ _) Hn), list_elem_of_In. }
    rewrite Eu. specialize (IH seen new Hs Hn). destruct (add_all_loop w us seen new) as [new'|e| |]; [|by right..].
    destruct IH as (H1 & H2 & H3). split; [constructor; [|done]; rewrite Et, Eu; by eexists|]. split; [done|].
    rewrite H3. cbn [map uniq]. by rewrite bool_decide_true by (by apply Hs).
  - destruct (inner_from_url_cases u) as [(i & Ei & Hi)|Ei]; rewrite Ei; cbn [obind is_ok]; [|left; by rewrite Et, Ei].
    assert (map inner_text (new ++ [i]) = map inner_text new ++ [as_str u]) as Em.
    { rewrite map_app. cbn [map]. unfold inner_text at 2. by rewrite Hi. }
    specialize (IH ({[as_str u]} ∪ seen) (new ++ [i])).
    destruct (add_all_loop w us _ (new ++ [i])) as [new'|e| |].
    2-4: right; apply IH.
    2,4,6: intros x; rewrite Em, elem_of_union, elem_of_singleton, Hs, !elem_of_app, list_elem_of_singleton; tauto.
    2-4: apply List.Forall_app; split; [done|]; constructor; [unfold inner_ok; by rewrite Hi, Ei|constructor].
    destruct IH as (H1 & H2 & H3).
    { intros x. rewrite Em, elem_of_union, elem_of_singleton, Hs, !elem_of_app, list_elem_of_singleton. tauto. }
    { apply List.Forall_app. split; [done|]. constructor; [unfold inner_ok; by rewrite Hi, Ei|constructor]. }
    split; [constructor; [|done]; rewrite Et, Ei; by eexists|]. split; [done|]. rewrite H3, Em. cbn [map].
    rewrite uniq_snoc by (by rewrite <- Hs). by rewrite <- !app_assoc.
Qed.
End generic.

(** A list that its operations built. *)
Inductive built : Tracker Url → Prop :=
| built_single (a : bytes) t : single w a = Some t → built t
| built_multi (us : list bytes) t : multi w us = Some t → built t
| built_add (a : bytes) t : built t → built (add w a t).1
| built_add_all (us : list bytes) t : built t → built (add_all w us t).1
| built_remove a t : built t → built (remove a t).1
| built_clear t : built t → built (clear t).

Lemma multi_spec (us : list bytes) :
  let texts := map as_str (omap tracker_url us) in
  match multi w us with
  | Some t => urls t = uniq [] texts ∧ Forall inner_ok (inners t)
  | None => texts = []
  end.
Proof.
  intros texts. unfold multi. destruct (multi_loop_spec us ∅ []) as [E F];
    [intros u _; by rewrite elem_of_empty, elem_of_nil|constructor|].
  destruct (multi_loop w us ∅ []) as [|i l]; [|by split]. fold texts in E. cbn [map app] in E.
  destruct texts as [|x texts]; [done|]. cbn [uniq] in E. by rewrite bool_decide_false in E by apply not_elem_of_nil.
Qed.

Lemma text_is_tracker i : inner_ok i → ∀ u, as_str u = inner_text i → is_ok (inner_from_url w u) = true.
Proof. intros Hi u E. unfold inner_text in E. by apply as_str_inj in E as ->. Qed.

Lemma url_is_tracker t u : Forall inner_ok (inners t) → as_str u ∈ urls t → is_ok (inner_from_url w u) = true.
Proof.
  intros Hok Hu. unfold urls in Hu. apply list_elem_of_In, in_map_iff in Hu as (i & Ei & Hi).
  apply (text_is_tracker i); [|done]. by apply (proj1 (Forall_forall _ _) Hok), list_elem_of_In.
Qed.

Lemma add_all_spec (us : list bytes) t :
  tracker_ok t →
  let '(t', r) := add_all w us t in
  let texts := map as_str (omap tracker_url us) in
  (r = Ok tt ∧ Forall (λ a, is_Some (tracker_url a)) us ∧ urls t' = urls t ++ uniq (urls t) texts ∧ tracker_ok t') ∨
  (t' = t ∧ (∃ e, r = Err e) ∧ Exists (λ a, tracker_url a = None) us).
Proof.
  intros [Hnd Hok]. unfold add_all.
  assert (∀ x, x ∈ (list_to_set (map inner_text (inners t)) : gset bytes) ↔ x ∈ urls t ++ map inner_text []) as Hs.
  { intros x. rewrite elem_of_list_to_set. cbn [map]. by rewrite app_nil_r. }
  pose proof (add_all_loop_spec us _ (urls t) [] Hs ltac:(constructor) (λ u, url_is_tracker t u Hok)) as H1.
  destruct (add_all_loop w us _ []) as [new|e| |]; [|right; by eauto| |].
  - destruct H1 as (H1 & H2 & H3). left. cbn [map] in H3. rewrite app_nil_r in H3. cbn [app] in H3.
    assert (urls (mk_tracker (inners t ++ new)) = urls t ++ uniq (urls t) (map as_str (omap tracker_url us))) as E.
    { unfold urls at 1. cbn [inners]. by rewrite map_app, H3. }
    split; [done|]. split; [done|]. split; [done|]. split; [|by apply List.Forall_app].
    rewrite E. apply NoDup_app. split; [done|]. split; [|apply NoDup_uniq]. intros x Hx. rewrite elem_of_uniq. tauto.
  - exfalso. apply Exists_exists in H1 as (a & _ & Ha). unfold into_url, into_url_text in Ha.
    by destruct (parse_url a), Ha.
  - exfalso. apply Exists_exists in H1 as (a & _ & Ha). unfold into_url, into_url_text in Ha.
    by destruct (parse_url a), Ha.
Qed.

Lemma add_spec (a : bytes) t :
  tracker_ok t →
  let '(t', r) := add w a t in
  tracker_ok t' ∧
  match tracker_url a with
  | Some u => r = Ok tt ∧ urls t' = urls t ++ uniq (urls t) [as_str u]
  | None => t' = t ∧ ∃ e, r = Err e
  end.
Proof.
  intros [Hnd Hok]. unfold add, tracker_url, into_url, into_url_text.
  destruct (parse_url a) as [u|]; cbn [ok_or outcome_ok mbind option_bind]; [|split; [by split|]; split; [done|by eexists]].
  assert (existsb (λ i, bool_decide (inner_text i = as_str u)) (inners t) = bool_decide (as_str u ∈ urls t)) as ->.
  { apply eq_true_iff_eq. rewrite existsb_exists, bool_decide_eq_true. unfold urls. rewrite list_elem_of_In, in_map_iff.
    split; [intros (i & Hi & Ei%bool_decide_eq_true)|intros (i & Ei & Hi)]; exists i; rewrite ?bool_decide_eq_true; done. }
  destruct (bool_decide_reflect (as_str u ∈ urls t)) as [Hin|Hin].
  - rewrite (url_is_tracker t u Hok Hin). split; [by split|]. split; [done|]. cbn [uniq].
    by rewrite bool_decide_true, app_nil_r.
  - destruct (inner_from_url_cases u) as [(i & Ei & Hi)|Ei]; rewrite Ei; cbn [is_ok].
    + assert (urls (mk_tracker (inners t ++ [i])) = urls t ++ [as_str u]) as E.
      { unfold urls. cbn [inners]. rewrite map_app. cbn [map]. unfold inner_text at 2. by rewrite Hi. }
      split; [split|].
      * rewrite E. apply NoDup_app. split; [done|]. split; [|apply NoDup_singleton].
        intros x Hx. rewrite list_elem_of_singleton. by intros ->.
      * apply List.Forall_app. split; [done|]. constructor; [unfold inner_ok; by rewrite Hi, Ei|constructor].
      * split; [done|]. rewrite E. cbn [uniq]. by rewrite bool_decide_false.
    + split; [by split|]. split; [done|by eexists].
Qed.

Lemma remove_spec (u : bytes) t :
  tracker_ok t →
  let '(t', b) := remove u t in
  tracker_ok t' ∧ urls t' = filter (λ x, x ≠ u) (urls t) ∧ b = bool_decide (u ∈ urls t).
Proof.
  intros [Hnd Hok]. unfold remove. set (kept := filter _ (inners t)).
  assert (urls (mk_tracker kept) = filter (λ x, x ≠ u) (urls t)) as E.
  { unfold urls, kept. cbn [inners]. generalize (inners t). intros l. clear.
    induction l as [|i l IH]; [done|]. rewrite !filter_cons. cbn [map].
    rewrite filter_cons. by destruct (decide (inner_text i ≠ u)); cbn [map]; rewrite IH. }
  split; [split|split]; [rewrite E; by apply NoDup_filter| |done|].
  { apply Forall_forall. intros i [_ Hi]%list_elem_of_filter. by apply (proj1 (Forall_forall _ _) Hok). }
  apply eq_true_iff_eq. rewrite Nat.ltb_lt, bool_decide_eq_true.
  assert (length kept = length (filter (λ x, x ≠ u) (urls t))) as -> by (rewrite <- E; unfold urls; by rewrite length_map).
  assert (length (inners t) = length (urls t)) as -> by (unfold urls; by rewrite length_map).
  generalize (urls t). intros l. clear. induction l as [|x l IH]; [cbn; rewrite elem_of_nil; lia|].
  rewrite filter_cons, elem_of_cons. destruct (decide (x ≠ u)) as [Hx|Hx%dec_stable]; cbn [length].
  - rewrite <- IH. pose proof (length_filter (λ x, x ≠ u) l). split; [lia|]. intros [->|]; [done|lia].
  - pose proof (length_filter (λ x, x ≠ u) l). subst. split; [by left|lia].
Qed.

Lemma built_ok t : built t → tracker_ok t.
Proof.
  induction 1 as [a t E|us t E|a t _ IH|us t _ IH|a t _ IH|t _ IH].
  - unfold single in E. destruct (outcome_ok (into_url a)) as [u|]; [|done]. cbn [mbind option_bind] in E.
    destruct (inner_from_url_cases u) as [(i & Ei & Hi)|Ei]; rewrite Ei in E; [|done]. injection E as <-.
    split; [apply NoDup_singleton|]. constructor; [unfold inner_ok; by rewrite Hi, Ei|constructor].
  - pose proof (multi_spec us) as Hm. rewrite E in Hm. destruct Hm as [Hu Hok]. split; [|done]. rewrite Hu. apply NoDup_uniq.
  - pose proof (add_spec a t IH) as Hs. destruct (add w a t). by destruct Hs.
  - pose proof (add_all_spec us t IH) as Hs. destruct (add_all w us t).
    by destruct Hs as [(_ & _ & _ & ?)|(-> & _)].
  - pose proof (remove_spec a t IH) as Hs. destruct (remove a t). by destruct Hs.
  - split; constructor.
Qed.
End facts.

(** C16: a tracker client keeps a set of supported URLs in the order in which they first appeared. This
    holds however it was built. Creating it from many URLs keeps exactly those that parse and that a
    tracker supports, once each, and yields nothing only if there are none; adding one URL or many is
    all or nothing, and changes nothing on an error; removing takes out one URL and says whether it was
    there. The crate [url] reads back what it prints. *)
Theorem tracker_list_is_a_set : ∀ (Url : Type) `(UrlText Url) w,
  (∀ u : Url, parse_url (as_str u) = Some u) →
  (∀ us : list bytes, match multi w us with
                      | Some t => urls t = uniq [] (map as_str (omap (tracker_url w) us))
                      | None => omap (tracker_url w) us = []
                      end) ∧
  ∀ t : Tracker Url, built w t →
    NoDup (urls t) ∧ Forall (inner_ok w) (inners t) ∧
    (∀ a : bytes, let '(t', r) := add w a t in
       match tracker_url w a with
       | Some u => r = Ok tt ∧ urls t' = urls t ++ uniq (urls t) [as_str u]
       | None => t' = t ∧ ∃ e, r = Err e
       end) ∧
    (∀ us : list bytes, let '(t', r) := add_all w us t in
       (r = Ok tt ∧ Forall (λ a, is_Some (tracker_url w a)) us ∧
        urls t' = urls t ++ uniq (urls t) (map as_str (omap (tracker_url w) us))) ∨
       (t' = t ∧ (∃ e, r = Err e) ∧ Exists (λ a, tracker_url w a = None) us)) ∧
    (∀ u : bytes, let '(t', b) := remove u t in
       urls t' = filter (λ x, x ≠ u) (urls t) ∧ b = bool_decide (u ∈ urls t)).
Proof.
  intros Url HU w Hparse. split.
  - intros us. pose proof (multi_spec w Hparse us) as Hm. destruct (multi w us); [apply Hm|].
    by destruct (omap (tracker_url w) us).
  - intros t Hb. pose proof (built_ok w Hparse t Hb) as Ht. split; [apply Ht|]. split; [apply Ht|]. split; [|split].
    + intros a. pose proof (add_spec w Hparse a t Ht) as Hs. destruct (add w a t). apply Hs.
    + intros us. pose proof (add_all_spec w Hparse us t Ht) as Hs. destruct (add_all w us t).
      destruct Hs as [(H1 & H2 & H3 & _)|Hs]; [by left|by right].
    + intros u. pose proof (remove_spec w u t Ht) as Hs. destruct (remove u t). apply Hs.
Qed.

#[local] Existing Instance text_urls.

Lemma tracker_list_is_a_set_witness :
  ∃ t, multi moved_wire [bs "http://a"; bs "ftp://b"; bs "udp://c"; bs "http://a"] = Some t ∧
    urls t = [bs "http://a"; bs "udp://c"] ∧ urls (remove (bs "udp://c") t).1 = [bs "http://a"] ∧
    (add_all moved_wire [bs "udp://d"; bs "x"] t).1 = t.
Proof.
  destruct (tracker_list_is_a_set bytes text_urls moved_wire (λ _, eq_refl)) as [Hm Hb].
  eexists. split; [vm_compute; reflexivity|]. split; [vm_compute; reflexivity|].
  match goal with |- context [remove _ ?t] => set (t0 := t) end.
  assert (built moved_wire t0) as Ht.
  { apply (built_multi _ [bs "http://a"; bs "udp://c"]). vm_compute. reflexivity. }
  destruct (Hb t0 Ht) as (_ & _ & _ & Ha & Hr). split.
  - specialize (Hr (bs "udp://c")). destruct (remove (bs "udp://c") t0) as [t' b]. cbn [fst]. destruct Hr as [-> _]. vm_compute. reflexivity.
  - specialize (Ha [bs "udp://d"; bs "x"]). destruct (add_all moved_wire _ t0) as [t' r].
    destruct Ha as [(_ & Hall & _)|(-> & _)]; [|done]. exfalso. inversion Hall as [|? ? _ H2]. subst. inversion H2 as [|? ? H3 _]. subst.
    by apply is_Some_None in H3.
Defined.

(** * The race *)

Definition failure {A} (r : result A) : Prop := outcome_ok r = None.

(** The error a failed task leaves: a task that panicked is a failed request. *)
Definition task_error {A} (r : result A) : ErrorKind := match r with Err e => e | _ => TrackerRequestFailed end.

Lemma first_loop_failures before ended last :
  Forall failure before →
  first_loop (before ++ ended) last = first_loop ended (foldl (λ _ r, Some (task_error r)) last before).
Proof.
  intros Hb. revert last. induction Hb as [|r before Hr _ IH]; intros last; [done|].
  cbn [app first_loop foldl]. by destruct r; rewrite ?IH.
Qed.

Lemma race_cases (ended : list (result AnnounceResponse)) :
  (∃ before resp after, ended = before ++ Ok resp :: after ∧ Forall failure before) ∨ Forall failure ended.
Proof.
  induction ended as [|r ended [(b & resp & a & -> & Hb)|Hf]]; [by right|..]; destruct (outcome_ok r) as [x|] eqn:E.
  - left. exists [], x, (b ++ Ok resp :: a). by destruct r; simplify_eq/=.
  - left. exists (r :: b), resp, a. split; [done|by constructor].
  - left. exists [], x, ended. by destruct r; simplify_eq/=.
  - right. by constructor.
Qed.

(** An announce to several trackers returns the first success. In whatever order the tasks of the
    trackers end: the result is the answer of the first one that succeeded, after tasks that all
    failed, and there is one exactly if some tracker answers; if all fail it is the error of the last
    one to end, and without trackers [TrackerRequestFailed]; collecting all answers yields those of the
    trackers that succeed, each once. *)
Theorem announce_race : ∀ (Url : Type) (call : Inner Url → AnnounceRequest → result AnnounceResponse) t req ended,
  ended ≡ₚ announce_into_set call t req →
  (match announce_first ended with
   | Ok resp => (∃ before after, ended = before ++ Ok resp :: after ∧ Forall failure before) ∧
       ∃ i, i ∈ inners t ∧ call i req = Ok resp
   | Err e => (∀ i, i ∈ inners t → failure (call i req)) ∧
       (inners t = [] → e = TrackerRequestFailed) ∧ (∀ r before, ended = before ++ [r] → e = task_error r)
   | _ => False
   end) ∧
  announce_all ended ≡ₚ omap (λ i, outcome_ok (call i req)) (inners t).
Proof.
  intros Url call t req ended Hp. split.
  - unfold announce_first. destruct (race_cases ended) as [(before & resp & after & E & Hb)|Hf].
    + rewrite E, first_loop_failures by done. cbn [first_loop]. split; [by exists before, after|].
      assert (Ok resp ∈ announce_into_set call t req) as Hin.
      { rewrite <- Hp, E. apply elem_of_app. right. left. }
      apply list_elem_of_In, in_map_iff in Hin as (i & Ei & Hi). exists i. by rewrite list_elem_of_In.
    + pose proof (first_loop_failures ended [] None Hf) as El. rewrite app_nil_r in El. rewrite El. cbn [first_loop].
      split; [|split].
      * intros i Hi. apply (proj1 (Forall_forall _ _) Hf). rewrite Hp. apply list_elem_of_In, in_map_iff. exists i.
        by rewrite <- list_elem_of_In.
      * intros H0. unfold announce_into_set in Hp. rewrite H0 in Hp. apply Permutation_nil_r in Hp as ->. done.
      * intros r before ->. by rewrite foldl_app.
  - unfold announce_all. rewrite Hp. unfold announce_into_set. clear. induction (inners t) as [|i l IH]; [done|].
    cbn [map omap list_omap]. destruct (outcome_ok (call i req)); [by rewrite IH|done].
Qed.

Definition answer_of_two (i : Inner bytes) (_ : AnnounceRequest) : result AnnounceResponse :=
  match i with
  | Udp _ _ => response_from_bencode (rs_body moved_response)
  | Http _ => Err TrackerRequestFailed
  end.

Definition two_trackers : Tracker bytes :=
  default (mk_tracker []) (multi moved_wire [bs "udp://c"; bs "http://a"]).

Lemma announce_race_witness :
  ∃ resp, announce_first (rev (announce_into_set answer_of_two two_trackers sample_request)) = Ok resp ∧
    interval resp = 900 ∧ length (announce_all (rev (announce_into_set answer_of_two two_trackers sample_request))) = 1%nat.
Proof.
  destruct (announce_race bytes answer_of_two two_trackers sample_request
    (rev (announce_into_set answer_of_two two_trackers sample_request))) as [H1 H2].
  - apply Permutation_sym, Permutation_rev.
  - destruct (announce_first _) as [resp|e| |] eqn:E; [|vm_compute in E; discriminate..].
    exists resp. split; [done|]. split; [|rewrite H2; vm_compute; reflexivity].
    vm_compute in E. injection E as <-. reflexivity.
Defined.
