(* ===== verification/MetadataDownload.v ===== *)
(** The metadata of a magnet link, downloaded from peers (BEP 9):
    [download_metadata_from_peer], [download_metadata_from_peers] and [resolve_metadata] of
    [crates/torrent/src/session/download/mod.rs].

    A peer is a function: what it sends next depends on how many messages it has sent and on what it
    was sent. *)

From stdpp Require Import base numbers list gmap strings.
From Stdlib Require Import ZArith Lia.
From S2P Require Import Prelude Facts Error Bencode BencodeFacts BencodeSpec Net PeerMessage Codec Extension Metainfo.
From S2P Require Import Step.

Definition MAX_METADATA_PEERS : nat := 8.

(** * One peer *)

Record Dialog : Type := mk_dialog { d_received : nat; d_sent : list PeerMessage }.

(** The remote end of a connection: whether the handshake succeeds, whether a message can be sent, and
    what comes next. *)
Record Remote : Type := mk_remote {
  r_connect : result unit;
  r_send : list PeerMessage → PeerMessage → result unit;
  r_next : nat → list PeerMessage → result PeerMessage;
}.

Section dialog.
Context (p : Remote).

Definition conn_send (m : PeerMessage) : step Dialog unit :=
  do! d := read id in
  do! _ := lift (r_send p (d_sent d) m) in
  modify (λ d, mk_dialog (d_received d) (d_sent d ++ [m])).

Definition conn_recv : step Dialog PeerMessage :=
  do! d := read id in
  do! m := lift (r_next p (d_received d) (d_sent d)) in
  do! _ := modify (λ d, mk_dialog (S (d_received d)) (d_sent d)) in
  sret m.

(** The handshake of the extension protocol that was received. *)
Definition read_handshake (data : bytes) : result (option Z * option Z) :=
  let! (ben, _) := match Bencode.decode data with Err _ => Err PeerInvalidExtendedMessage | r => r end in
  let! neg := match negotiation_from_bencode ben with Err _ => Err PeerInvalidExtendedMessage | r => r end in
  Ok (Extension.m neg !! UT_METADATA_EXT, as_u64 <$> metadata_size neg).

(** The loop that waits for it. It has no bound; the fuel is the number of messages it reads. *)
Fixpoint await_handshake (fuel : nat) : step Dialog (option Z * option Z) :=
  match fuel with
  | O => lift NoFuel
  | S fuel' =>
      do! msg := conn_recv in
      match msg with
      | Extended 0 data => lift (read_handshake data)
      | KeepAlive | Bitfield _ | Unchoke | Have _ => await_handshake fuel'
      | _ => lift (Err PeerInvalidExtendedMessage)
      end
  end.

(** [split_bep9_data]. *)
Definition split_bep9_data (data : bytes) : result (bytes * bytes) :=
  let! (_, rest) := match Bencode.decode data with Err _ => Err PeerInvalidExtendedMessage | r => r end in
  Ok (take (length data - length rest) data, rest).

Definition div_ceil (a b : Z) : Z := (a + b - 1) / b.

(** The bytes of a piece are copied into a slice that ends at the end of the buffer; a slice of another
    length panics. *)
Definition copy_piece (buf : bytes) (piece : Metadata) : result bytes :=
  let offset := md_piece piece * METADATA_PIECE_SIZE in
  let stop := Z.min (offset + zlen (md_data piece)) (zlen buf) in
  if (offset <=? stop) && (stop - offset =? zlen (md_data piece)) then
    Ok (take (Z.to_nat offset) buf ++ md_data piece ++ drop (Z.to_nat stop) buf)
  else Panic.

(** The answer to a request for a piece. *)
Definition read_piece (ext_id : Z) (buf : bytes) (resp : PeerMessage) : result bytes :=
  match resp with
  | Extended resp_id data =>
      if resp_id =? ext_id then
        let! (dict, raw_data) := split_bep9_data data in
        let! (ben, _) := match Bencode.decode dict with Err _ => Err PeerInvalidExtendedMessage | r => r end in
        let! _ := guard_err (is_reject ben) PeerInvalidExtendedMessage in
        let! piece := metadata_from_bencode ben raw_data in
        copy_piece buf piece
      else Err PeerInvalidExtendedMessage
  | _ => Err PeerInvalidExtendedMessage
  end.

(** The loop over the pieces [piece_idx .. piece_idx + todo]. *)
Fixpoint collect_pieces (todo : nat) (piece_idx ext_id : Z) (buf : bytes) : step Dialog bytes :=
  match todo with
  | O => sret buf
  | S todo' =>
      do! _ := conn_send (Extended ext_id (Bencode.encode (request_to_bencode {| req_piece := piece_idx |}))) in
      do! resp := conn_recv in
      do! buf' := lift (read_piece ext_id buf resp) in
      collect_pieces todo' (piece_idx + 1) ext_id buf'
  end.

(** The handshake we send. *)
Definition our_handshake : result PeerMessage :=
  let! neg := add_extension negotiation_new UT_METADATA_EXT UT_METADATA_ID in
  Ok (Extended 0 (Bencode.encode (negotiation_to_bencode neg))).

Definition download_from_peer (fuel : nat) : step Dialog bytes :=
  do! _ := lift (r_connect p) in
  do! hello := lift our_handshake in
  do! _ := conn_send hello in
  do! (remote_ext_id, metadata_size) := await_handshake fuel in
  do! ext_id := lift (ok_or remote_ext_id PeerInvalidExtendedMessage) in
  do! total_size := lift (ok_or metadata_size PeerInvalidExtendedMessage) in
  let num_pieces := div_ceil total_size METADATA_PIECE_SIZE in
  do! buf := lift (zeroed total_size) in
  collect_pieces (Z.to_nat (as_u32 num_pieces)) 0 ext_id buf.
End dialog.

Definition dialog_start : Dialog := mk_dialog 0 [].

Definition download_metadata_from_peer (fuel : nat) (p : Remote) : result bytes :=
  (download_from_peer p fuel dialog_start).2.

(** * Several peers *)

(** The tasks that are started, and the loop over [join_next]: the first success, whatever failed or
    panicked before. *)
Definition started {A} (addrs : list A) : list A := take (length addrs `min` MAX_METADATA_PEERS) addrs.

Fixpoint first_metadata (ended : list (result bytes)) : result bytes :=
  match ended with
  | [] => Err PeerConnectionClosed
  | Ok b :: _ => Ok b
  | _ :: ended' => first_metadata ended'
  end.

(** * The builder *)

(** What [resolve_metadata] knows: whether it ran, the addresses of the link, and the handle of the
    torrent with its metainfo. *)
Record DownloadBuilder : Type := mk_download {
  metadata_resolved : bool;
  magnet_peers : list SocketAddr;
  handle_metainfo : option (option Metainfo);
}.

(** [download ends] is what [download_metadata_from_peers] returns for the addresses. *)
Definition resolve_metadata (download : list SocketAddr → result bytes) : step DownloadBuilder unit :=
  do! b := read id in
  if metadata_resolved b then sret tt
  else
    do! known := lift (ok_or (handle_metainfo b) InvalidInput) in
    do! _ := match known with
             | Some _ => sret tt
             | None =>
                 let addrs := magnet_peers b in
                 do! _ := modify (λ b, mk_download (metadata_resolved b) [] (handle_metainfo b)) in
                 match addrs with
                 | [] => sret tt
                 | _ =>
                     do! meta_bytes := lift (download addrs) in
                     do! new_meta := lift (metainfo_from_bytes meta_bytes) in
                     modify (λ b, mk_download (metadata_resolved b) (magnet_peers b) (Some (Some new_meta)))
                 end
             end in
    modify (λ b, mk_download true (magnet_peers b) (handle_metainfo b)).

(** * What a magnet link becomes: an honest peer's metadata is assembled byte for byte, is not compared
    with the hash of the link, and is then parsed as if it were a torrent file. *)

(** * An honest peer *)

Definition hello_of (neg : ExtensionNegotiation) : PeerMessage :=
  Extended 0 (Bencode.encode (negotiation_to_bencode neg)).

Definition request_of_piece (e i : Z) : PeerMessage :=
  Extended e (Bencode.encode (request_to_bencode {| req_piece := i |})).

(** Piece [i] of the metadata: the number of the piece, the size of the whole, and its bytes. *)
Definition meta_piece (meta : bytes) (i : Z) : Metadata :=
  {| md_piece := i; Extension.total_size := zlen meta;
     md_data := take (Z.to_nat METADATA_PIECE_SIZE) (drop (Z.to_nat (i * METADATA_PIECE_SIZE)) meta) |}.

Definition piece_payload (d : Metadata) : bytes := Bencode.encode (to_bencode_with_data d) ++ md_data d.

(** It announces the size of the metadata and its number [e] for the extension, and answers every request
    sent under that number with the piece, under the number we announced. *)
Definition honest (p : Remote) (meta : bytes) (e : Z) : Prop :=
  r_connect p = Ok tt ∧ (∀ s m, r_send p s m = Ok tt) ∧
  (∃ neg, negotiation_ok neg ∧ metadata_size neg = Some (zlen meta) ∧
     Extension.m neg !! UT_METADATA_EXT = Some e ∧ ∀ sent, r_next p 0 sent = Ok (hello_of neg)) ∧
  ∀ n sent i, in_u32 i → last sent = Some (request_of_piece e i) →
    r_next p (S n) sent = Ok (Extended UT_METADATA_ID (piece_payload (meta_piece meta i))).

(** * Reading a piece *)

Lemma split_payload v raw : bencode_wf v → split_bep9_data (Bencode.encode v ++ raw) = Ok (Bencode.encode v, raw).
Proof.
  intros Hv. unfold split_bep9_data. rewrite decode_encode by done. cbn [obind].
  rewrite length_app. replace (length (Bencode.encode v) + length raw - length raw)%nat with (length (Bencode.encode v)) by lia.
  by rewrite take_app_length.
Qed.

Lemma read_payload k buf d :
  metadata_ok d → read_piece k buf (Extended k (piece_payload d)) = copy_piece buf d.
Proof.
  intros Hd. unfold read_piece, piece_payload. rewrite Z.eqb_refl.
  rewrite split_payload by by apply metadata_wf. cbn [obind].
  rewrite <- (app_nil_r (Bencode.encode _)), decode_encode by by apply metadata_wf. cbn [obind].
  replace (is_reject (normalize (to_bencode_with_data d))) with false.
  - cbn [guard_err obind]. by rewrite metadata_from_to.
  - symmetry. unfold is_reject. rewrite dict_get_int_normalize by by apply metadata_wf. done.
Qed.

(** The buffer after [k] bytes. *)
Definition filled (meta : bytes) (k : nat) : bytes := take k meta ++ replicate (length meta - k) 0.

Lemma copy_next meta i :
  0 ≤ i → i * METADATA_PIECE_SIZE ≤ zlen meta →
  copy_piece (filled meta (Z.to_nat (i * METADATA_PIECE_SIZE))) (meta_piece meta i) =
    Ok (filled meta (Nat.min (Z.to_nat ((i + 1) * METADATA_PIECE_SIZE)) (length meta))).
Proof.
  unfold METADATA_PIECE_SIZE, zlen. intros Hi Hle. set (k := Z.to_nat (i * (16 * 1024))).
  assert (Z.of_nat k = i * (16 * 1024)) as Ek by lia. assert (k ≤ length meta)%nat as Hk by lia.
  assert (length (filled meta k) = length meta) as Hlen.
  { unfold filled. rewrite length_app, length_take, length_replicate. lia. }
  unfold copy_piece, METADATA_PIECE_SIZE, zlen. cbn [md_piece md_data meta_piece]. unfold METADATA_PIECE_SIZE. fold k.
  set (d := take (Z.to_nat (16 * 1024)) (drop k meta)).
  assert (length d = Nat.min (Z.to_nat (16 * 1024)) (length meta - k)) as Hd by (unfold d; rewrite length_take, length_drop; done).
  rewrite Hlen. replace (Z.min (i * (16 * 1024) + Z.of_nat (length d)) (Z.of_nat (length meta)))
    with (i * (16 * 1024) + Z.of_nat (length d)) by lia.
  rewrite (proj2 (Z.leb_le _ _)), (proj2 (Z.eqb_eq _ _)) by lia. cbn [andb]. f_equal.
  replace (Z.to_nat (i * (16 * 1024) + Z.of_nat (length d))) with (k + length d)%nat by lia. fold k.
  replace (Nat.min (Z.to_nat ((i + 1) * (16 * 1024))) (length meta)) with (k + length d)%nat by lia.
  unfold filled. rewrite take_app_le by (rewrite length_take; lia). rewrite take_take, Nat.min_id.
  rewrite drop_app_ge by (rewrite length_take; lia). rewrite drop_replicate, length_take.
  replace (length meta - k - (k + length d - Nat.min k (length meta)))%nat with (length meta - (k + length d))%nat by lia.
  rewrite app_assoc. f_equal. rewrite <- take_take_drop. f_equal. rewrite Hd. unfold d.
  destruct (Nat.min_spec (Z.to_nat (16 * 1024)) (length meta - k)) as [[_ ->]|[Hge ->]]; [done|].
  rewrite !take_ge by (rewrite length_drop; lia). done.
Qed.

(** * The dialog *)

Section dialog.
Context (p : Remote) (meta : bytes) (e : Z) (Hp : honest p meta e).

Definition pieces_of : Z := div_ceil (zlen meta) METADATA_PIECE_SIZE.

Lemma send_ok m d : conn_send p m d = (mk_dialog (d_received d) (d_sent d ++ [m]), Ok tt).
Proof. destruct Hp as (_ & Hs & _). unfold conn_send, sbind, read, lift, modify, id. by rewrite Hs. Qed.

(** One request and its answer. *)
Lemma piece_answered i n sent :
  in_u32 i →
  conn_recv p (mk_dialog (S n) (sent ++ [request_of_piece e i])) =
    (mk_dialog (S (S n)) (sent ++ [request_of_piece e i]),
     Ok (Extended UT_METADATA_ID (piece_payload (meta_piece meta i)))).
Proof.
  intros Hi. destruct Hp as (_ & _ & _ & Hn). unfold conn_recv, sbind, read, lift, modify, sret, id. cbn [d_received d_sent].
  rewrite (Hn n _ i) by (done || apply last_snoc). done.
Qed.

Lemma collect_all todo i n sent :
  e = UT_METADATA_ID → zlen meta ≤ u32_max → 0 ≤ i → i + Z.of_nat todo = pieces_of →
  (collect_pieces p todo i e (filled meta (Nat.min (Z.to_nat (i * METADATA_PIECE_SIZE)) (length meta)))
     (mk_dialog (S n) sent)).2 = Ok (filled meta (length meta)).
Proof.
  intros He Hlen. unfold pieces_of, div_ceil, METADATA_PIECE_SIZE, zlen in *.
  revert i n sent. induction todo as [|todo IH]; intros i n sent Hi Hsum; cbn [collect_pieces].
  - cbn [sret snd]. do 2 f_equal. pose proof (Z.div_mod (Z.of_nat (length meta) + 16 * 1024 - 1) (16 * 1024) ltac:(lia)).
    pose proof (Z.mod_pos_bound (Z.of_nat (length meta) + 16 * 1024 - 1) (16 * 1024) ltac:(lia)). lia.
  - assert (i * (16 * 1024) < Z.of_nat (length meta)) as Hlt.
    { pose proof (Z.div_mod (Z.of_nat (length meta) + 16 * 1024 - 1) (16 * 1024) ltac:(lia)).
      pose proof (Z.mod_pos_bound (Z.of_nat (length meta) + 16 * 1024 - 1) (16 * 1024) ltac:(lia)). lia. }
    assert (in_u32 i) as Hu by (unfold in_u32; lia).
    unfold sbind. rewrite send_ok. cbn [d_received d_sent]. fold (request_of_piece e i).
    rewrite piece_answered by done. unfold lift. rewrite He, read_payload.
    + replace (Nat.min (Z.to_nat (i * (16 * 1024))) (length meta)) with (Z.to_nat (i * METADATA_PIECE_SIZE))
        by (unfold METADATA_PIECE_SIZE; lia).
      rewrite copy_next by (unfold METADATA_PIECE_SIZE, zlen; lia). rewrite <- He. apply IH; lia.
    + split; [done|]. cbn [Extension.total_size meta_piece]. unfold in_u64, zlen. lia.
Qed.

Lemma collect_foreign todo i n sent buf :
  e ≠ UT_METADATA_ID → in_u32 i →
  (collect_pieces p (S todo) i e buf (mk_dialog (S n) sent)).2 = Err PeerInvalidExtendedMessage.
Proof.
  intros He Hi. cbn [collect_pieces]. unfold sbind at 1. rewrite send_ok. cbn [d_received d_sent].
  fold (request_of_piece e i). unfold sbind. rewrite piece_answered by done. unfold lift, read_piece.
  by rewrite (proj2 (Z.eqb_neq _ _)) by congruence.
Qed.

Lemma hello_read neg :
  negotiation_ok neg → metadata_size neg = Some (zlen meta) → Extension.m neg !! UT_METADATA_EXT = Some e → e ≠ 0 →
  read_handshake (Bencode.encode (negotiation_to_bencode neg)) = Ok (Some e, Some (as_u64 (zlen meta))).
Proof.
  intros Hn Hs He He0. unfold read_handshake.
  rewrite <- (app_nil_r (Bencode.encode _)), decode_encode by exact (to_bencode_wf neg Hn). cbn [obind].
  rewrite negotiation_from_to by done. cbn [obind Extension.m metadata_size negotiation_canon].
  rewrite Hs. cbn. do 3 f_equal. apply map_lookup_filter_Some_2; done.
Qed.

Lemma download_honest fuel :
  e ≠ 0 → 0 < zlen meta ≤ u32_max → (0 < fuel)%nat →
  download_metadata_from_peer fuel p = if e =? UT_METADATA_ID then Ok meta else Err PeerInvalidExtendedMessage.
Proof.
  intros He Hlen Hf. destruct Hp as (Hc & _ & (neg & Hn & Hsize & Hext & Hhello) & _).
  destruct fuel as [|fuel]; [lia|]. unfold download_metadata_from_peer, download_from_peer.
  unfold sbind, lift. rewrite Hc. cbn [our_handshake]. unfold our_handshake, add_extension. cbn [Z.eqb UT_METADATA_ID obind].
  rewrite send_ok. cbn [await_handshake dialog_start d_received d_sent app]. unfold sbind, conn_recv, sbind, read, lift, modify, sret, id.
  cbn [d_received d_sent]. rewrite Hhello. unfold hello_of. rewrite hello_read by done. cbn [ok_or].
  assert (as_u64 (zlen meta) = zlen meta) as -> by (unfold as_u64; apply Z.mod_small; lia).
  unfold zeroed. rewrite (proj2 (Z.leb_le _ _)) by lia.
  assert (0 < pieces_of ≤ u32_max) as Hpc.
  { unfold pieces_of, div_ceil, METADATA_PIECE_SIZE. split; [apply Z.div_str_pos; lia|].
    apply Z.div_le_upper_bound; lia. }
  fold pieces_of. rewrite as_u32_id by lia.
  destruct (Z.eqb_spec e UT_METADATA_ID) as [E|E].
  - replace (Z.to_nat (zlen meta)) with (length meta) by (unfold zlen; lia).
    replace (replicate (length meta) 0) with (filled meta (Nat.min (Z.to_nat (0 * METADATA_PIECE_SIZE)) (length meta)))
      by (unfold filled; cbn; by rewrite Nat.sub_0_r).
    rewrite (collect_all (Z.to_nat pieces_of) 0 0) by (done || lia). f_equal.
    unfold filled. by rewrite Nat.sub_diag, app_nil_r, firstn_all.
  - destruct (Z.to_nat pieces_of) as [|todo] eqn:Et; [lia|]. apply collect_foreign; [done|]. unfold in_u32. lia.
Qed.
End dialog.

(** * From the metadata to a torrent *)

Lemma info_dict_is_no_torrent entries :
  bencode_wf (BDict entries) → dict_get (BDict entries) (bs "info") = None →
  metainfo_from_bytes (Bencode.encode (BDict entries)) = Err MetainfoMissingField.
Proof.
  intros Hw Hno. unfold metainfo_from_bytes.
  rewrite <- (app_nil_r (Bencode.encode _)), decode_encode by done. cbn [obind].
  destruct (is_dict_normalize (BDict entries)) as [l El]; [by eexists|]. rewrite El. cbn [obind]. rewrite <- El.
  by rewrite dict_get_normalize, Hno.
Qed.

Lemma first_metadata_after before r :
  Forall (λ r : result bytes, outcome_ok r = None) before → is_ok r = true → first_metadata (before ++ [r]) = r.
Proof.
  intros Hb Hr. induction Hb as [|x before Hx _ IH]; [by destruct r|]. cbn [app first_metadata]. by destruct x.
Qed.


(** A peer that reads every request and answers it. *)
Definition polite (meta : bytes) (e : Z) : Remote :=
  {| r_connect := Ok tt; r_send _ _ := Ok tt;
     r_next n sent :=
       match n with
       | O => Ok (hello_of {| Extension.m := {[UT_METADATA_EXT := e]}; v := None; yourip := None;
                              metadata_size := Some (zlen meta); reqq := None |})
       | S _ =>
           match last sent with
           | Some (Extended _ data) =>
               let! (r, _) := receive (A := MetadataRequest) data in
               Ok (Extended UT_METADATA_ID (piece_payload (meta_piece meta (req_piece r))))
           | _ => Err PeerConnectionClosed
           end
       end |}.

Lemma polite_honest meta e : in_u8 e → in_i64 (zlen meta) → honest (polite meta e) meta e.
Proof.
  intros He Hm. split; [done|]. split; [done|]. split.
  - eexists. split; [|split; [|split; [|done]]]; [|done|apply lookup_singleton_eq].
    split; [|split; [done|split; [done|split; [|done]]]].
    + intros k i Hk. cbn [Extension.m] in Hk. apply lookup_singleton_Some in Hk as [<- <-]. split; [|done]. split; [|done].
      apply (bool_decide_unpack _). vm_compute. exact I.
    + by intros x [= <-].
  - intros n sent i Hi Hl. cbn [r_next polite]. rewrite Hl. cbn [request_of_piece].
    pose proof (receive_encoded (mk_request i) [] Hi) as Hr. rewrite app_nil_r in Hr.
    change (send (mk_request i)) with (Bencode.encode (request_to_bencode {| req_piece := i |})) in Hr.
    by rewrite Hr.
Qed.

Definition sample_info_entries : list (bytes * Bencode) :=
  [(bs "length", BInteger 5); (bs "name", BBytes (bs "a")); (bs "piece length", BInteger 16384);
   (bs "pieces", BBytes (replicate 20 7))].

Lemma sample_info_wf : bencode_wf (BDict sample_info_entries).
Proof.
  apply (wf_entries _ (map fst sample_info_entries)); [done|nodup_keys|].
  wf_fields; constructor; first [short_lit | by vm_compute].
Qed.


(** What a dishonest peer can do: a piece that does not fit the size it announced, or a negative size,
    panics the task. *)
Definition dishonest (size : Z) (data : bytes) : Remote :=
  {| r_connect := Ok tt; r_send _ _ := Ok tt;
     r_next n _ :=
       match n with
       | O => Ok (hello_of {| Extension.m := {[UT_METADATA_EXT := 2]}; v := None; yourip := None;
                              metadata_size := Some size; reqq := None |})
       | S _ => Ok (Extended 2 (piece_payload {| md_piece := 0; Extension.total_size := 0; md_data := data |}))
       end |}.

Example dishonest_metadata_panics :
  download_metadata_from_peer 1 (dishonest 2 [1; 2; 3]) = Panic ∧ download_metadata_from_peer 1 (dishonest (-1) []) = Panic.
Proof. split; vm_compute; reflexivity. Qed.
