(* ===== verification/DhtRpc.v ===== *)
(** The DHT's remote procedure calls: [crates/torrent/src/dht/rpc.rs], and what
    [crates/torrent/src/dht/query.rs] makes of the answers.

    A query is a task that waits for a one-shot channel; the senders of the channels are in a table
    under the transaction ids. A sender that is thrown away ends its task with an error, but only when
    the task runs again: between the two anything else may happen. *)

From stdpp Require Import base numbers list gmap strings.
From Stdlib Require Import ZArith Lia.
From S2P Require Import Prelude Facts Error Bencode Net Compact Krpc Step.

Definition RECV_SIZE : nat := 8 * 1024.

(** * The client *)

(** A query that was started: its number stands for its channel. [running] says whether the receive
    loop still runs. *)
Record DhtRpc : Type := mk_rpc {
  pending : gmap bytes nat;
  dropped : gset nat;
  tids : list bytes;
  results : gmap nat (result KrpcMessage);
  running : bool;
  rpc_sent : list (SocketAddr * bytes);
}.

Definition set_pending (x : gmap bytes nat) (s : DhtRpc) : DhtRpc :=
  mk_rpc x (dropped s) (tids s) (results s) (running s) (rpc_sent s).
Definition set_dropped (x : gset nat) (s : DhtRpc) : DhtRpc :=
  mk_rpc (pending s) x (tids s) (results s) (running s) (rpc_sent s).
Definition add_result (q : nat) (r : result KrpcMessage) (s : DhtRpc) : DhtRpc :=
  mk_rpc (pending s) (dropped s) (tids s) (<[q:=r]> (results s)) (running s) (rpc_sent s).
Definition set_running (x : bool) (s : DhtRpc) : DhtRpc :=
  mk_rpc (pending s) (dropped s) (tids s) (results s) x (rpc_sent s).
Definition add_sent (p : SocketAddr * bytes) (s : DhtRpc) : DhtRpc :=
  mk_rpc (pending s) (dropped s) (tids s) (results s) (running s) (rpc_sent s ++ [p]).

Definition rpc_new : DhtRpc := mk_rpc ∅ ∅ [] ∅ true [].

(** Throwing away the sender that is in the table under [tid]. *)
Definition drop_sender (tid : bytes) (s : DhtRpc) : DhtRpc :=
  match pending s !! tid with
  | Some q => set_dropped ({[q]} ∪ dropped s) s
  | None => s
  end.

(** The start of [query], up to the point where it waits: the table's entry is replaced; if the packet
    cannot be sent the entry is removed and the query is over. *)
Definition query_start (addr : SocketAddr) (tid data : bytes) (sent_ok : bool) (s : DhtRpc) : DhtRpc :=
  let q := length (tids s) in
  let s := drop_sender tid s in
  let s := mk_rpc (<[tid:=q]> (pending s)) (dropped s) (tids s ++ [tid]) (results s) (running s) (rpc_sent s) in
  if sent_ok then add_sent (addr, data) s
  else add_result q (Err Protocol) (set_pending (delete tid (pending s)) s).

(** A query whose sender was thrown away: it removes the entry under its transaction id, whoever put it
    there, and ends with an error. *)
Definition query_fails (q : nat) (s : DhtRpc) : option DhtRpc :=
  if bool_decide (q ∈ dropped s) then
    match tids s !! q with
    | Some tid =>
        let s := set_dropped (dropped s ∖ {[q]}) s in
        let s := drop_sender tid s in
        Some (add_result q (Err Protocol) (set_pending (delete tid (pending s)) s))
    | None => None
    end
  else None.

(** A handler of queries: the bytes of an answer, no answer, or a panic. *)
Definition QueryHandler : Type := KrpcMessage → SocketAddr → result (option bytes).

Definition transaction_id (m : KrpcMessage) : bytes :=
  match m with Query tid _ _ | Response tid _ | KrpcError tid _ _ => tid end.

(** One datagram in the receive loop. A panic of the handler ends the task. *)
Definition on_datagram (handler : option QueryHandler) (datagram : bytes) (src : SocketAddr) (s : DhtRpc) : DhtRpc :=
  match krpc_from_bytes (take RECV_SIZE datagram) with
  | Ok msg =>
      match msg with
      | Response tid _ | KrpcError tid _ _ =>
          match pending s !! tid with
          | Some q => add_result q (Ok msg) (set_pending (delete tid (pending s)) s)
          | None => s
          end
      | Query _ _ _ =>
          match handler with
          | Some h =>
              match h msg src with
              | Ok (Some response) => add_sent (src, response) s
              | Ok None => s
              | _ => set_running false s
              end
          | None => s
          end
      end
  | Panic => set_running false s
  | _ => s
  end.

Inductive rpc_step (handler : option QueryHandler) (s : DhtRpc) : DhtRpc → Prop :=
| Rpc_query addr tid data sent_ok : rpc_step handler s (query_start addr tid data sent_ok s)
| Rpc_datagram data src : running s = true → rpc_step handler s (on_datagram handler data src s)
| Rpc_fails q s' : query_fails q s = Some s' → rpc_step handler s s'.

(** * Reading answers: [query.rs] *)

(** [find_node] on the answer. *)
Definition find_node_result (response : KrpcMessage) : result (list Node) :=
  match response with
  | Response _ res =>
      let nodes4 := default [] (parse_compact_nodes4 <$> dict_get_bytes res (bs "nodes")) in
      let nodes6 := default [] (parse_compact_nodes6 <$> dict_get_bytes res (bs "nodes6")) in
      match nodes4 ++ nodes6 with
      | [] => Err Protocol
      | nodes => Ok nodes
      end
  | _ => Err Protocol
  end.

(** [announce_peer] on the answer. *)
Definition announce_peer_result (response : KrpcMessage) : result unit :=
  match response with KrpcError _ _ _ => Err Protocol | _ => Ok tt end.

(** * Who waits for what *)

Definition waits (s : DhtRpc) (q : nat) : Prop := ∃ tid, tids s !! q = Some tid ∧ pending s !! tid = Some q.

Definition is_answer (m : KrpcMessage) : Prop := match m with Query _ _ _ => False | _ => True end.

Record rpc_inv (s : DhtRpc) : Prop := {
  inv_pending : ∀ tid q, pending s !! tid = Some q → tids s !! q = Some tid ∧ (q ∉ dropped s) ∧ results s !! q = None;
  inv_dropped : ∀ q, q ∈ dropped s → results s !! q = None ∧
    ∃ tid q', tids s !! q = Some tid ∧ tids s !! q' = Some tid ∧ q' ≠ q;
  inv_results : ∀ q, is_Some (results s !! q) → (q < length (tids s))%nat;
  inv_open : ∀ q, (q < length (tids s))%nat → results s !! q = None → q ∈ dropped s ∨ waits s q;
  inv_answers : ∀ q m, results s !! q = Some (Ok m) → tids s !! q = Some (transaction_id m) ∧ is_answer m;
}.

Lemma rpc_new_inv : rpc_inv rpc_new.
Proof.
  split; cbn.
  - intros tid q Hq. by rewrite lookup_empty in Hq.
  - intros q Hq. by apply elem_of_empty in Hq.
  - intros q Hq. rewrite lookup_empty in Hq. by apply is_Some_None in Hq.
  - intros q Hq. lia.
  - intros q m Hq. by rewrite lookup_empty in Hq.
Qed.

(** A query takes the entry under its transaction id. *)
Definition register (tid : bytes) (s : DhtRpc) : DhtRpc :=
  mk_rpc (<[tid:=length (tids s)]> (pending s)) (dropped (drop_sender tid s)) (tids s ++ [tid]) (results s)
    (running s) (rpc_sent s).

Lemma dropped_drop_sender tid s q :
  q ∈ dropped (drop_sender tid s) ↔ q ∈ dropped s ∨ pending s !! tid = Some q.
Proof.
  unfold drop_sender. destruct (pending s !! tid) as [q0|]; cbn [dropped set_dropped];
    [rewrite elem_of_union, elem_of_singleton|]; intuition congruence.
Qed.

Lemma results_drop_sender tid s : results (drop_sender tid s) = results s.
Proof. unfold drop_sender. by destruct (pending s !! tid). Qed.

Lemma register_inv tid s : rpc_inv s → rpc_inv (register tid s).
Proof.
  intros [I1 I2 I3 I4 I5].
  assert (∀ q x, tids s !! q = Some x → (tids s ++ [tid]) !! q = Some x) as Happ
    by (intros q x H; by apply lookup_app_l_Some).
  assert ((tids s ++ [tid]) !! length (tids s) = Some tid) as Hnew by by apply list_lookup_middle.
  assert (results s !! length (tids s) = None) as Hres.
  { destruct (results s !! length (tids s)) eqn:E; [|done]. assert (length (tids s) < length (tids s))%nat; [|lia].
    apply I3. by eexists. }
  split; cbn [register pending dropped tids results].
  - intros t q [[<- <-]|[Hne Hq]]%lookup_insert_Some.
    + split; [done|]. split; [|done]. rewrite dropped_drop_sender. intros [Hd|Hp].
      * destruct (I2 _ Hd) as (_ & t & _ & Ht & _). apply lookup_lt_Some in Ht. lia.
      * destruct (I1 _ _ Hp) as (Ht & _). apply lookup_lt_Some in Ht. lia.
    + destruct (I1 _ _ Hq) as (Ht & Hd & Hr). split; [auto|]. split; [|done].
      rewrite dropped_drop_sender. intros [?|Hp]; [done|]. destruct (I1 _ _ Hp) as (Ht' & _). congruence.
  - intros q [Hd|Hp]%dropped_drop_sender.
    + destruct (I2 _ Hd) as (Hr & t & q' & H1 & H2 & H3). split; [done|]. exists t, q'. auto.
    + destruct (I1 _ _ Hp) as (Ht & _ & Hr). split; [done|]. exists tid, (length (tids s)). split; [auto|]. split; [done|].
      apply lookup_lt_Some in Ht. lia.
  - intros q Hq. rewrite length_app. cbn. specialize (I3 q Hq). lia.
  - intros q Hq Hr. rewrite length_app in Hq. cbn in Hq.
    destruct (decide (q = length (tids s))) as [->|Hne].
    + right. exists tid. cbn [register tids pending]. by rewrite lookup_insert_eq.
    + rewrite dropped_drop_sender. destruct (I4 q ltac:(lia) Hr) as [|(t & Ht & Hp)]; [by left; left|].
      destruct (decide (t = tid)) as [->|]; [by left; right|].
      right. exists t. cbn [register tids pending]. rewrite lookup_insert_ne by done. auto.
  - intros q m Hq. destruct (I5 _ _ Hq) as [Ht Ha]. auto.
Qed.

(** A query that ends takes its entry with it. *)
Definition finish (q : nat) (tid : bytes) (r : result KrpcMessage) (s : DhtRpc) : DhtRpc :=
  add_result q r (set_pending (delete tid (pending s)) s).

Lemma finish_inv q tid r s :
  rpc_inv s → pending s !! tid = Some q → (∀ m, r = Ok m → transaction_id m = tid ∧ is_answer m) →
  rpc_inv (finish q tid r s).
Proof.
  intros [I1 I2 I3 I4 I5] Hp Hr. destruct (I1 _ _ Hp) as (Ht & Hd & _).
  split; cbn [finish add_result set_pending pending dropped tids results].
  - intros t q' [Hne Hq]%lookup_delete_Some. destruct (I1 _ _ Hq) as (? & ? & ?).
    split; [done|]. split; [done|]. rewrite lookup_insert_ne; [done|]. intros <-. congruence.
  - intros q' Hq. destruct (I2 _ Hq) as [? ?]. split; [|done]. rewrite lookup_insert_ne; [done|]. by intros <-.
  - intros q' Hq. destruct (decide (q = q')) as [<-|]; [by apply lookup_lt_Some in Ht|].
    rewrite lookup_insert_ne in Hq by done. by apply I3.
  - intros q' Hlt Hq. apply lookup_insert_None in Hq as [Hq Hne]. destruct (I4 _ Hlt Hq) as [|(t & H1 & H2)]; [by left|].
    right. exists t. cbn [finish add_result set_pending tids pending]. split; [done|]. apply lookup_delete_Some. split; [|done]. congruence.
  - intros q' m [[<- [= ->]]|[Hne Hq]]%lookup_insert_Some; [|by apply I5].
    destruct (Hr m eq_refl) as [-> ?]. done.
Qed.

(** Throwing a sender away, before its entry is removed. *)
Lemma query_fails_inv q s s' : rpc_inv s → query_fails q s = Some s' → rpc_inv s'.
Proof.
  intros [I1 I2 I3 I4 I5] E. unfold query_fails in E. destruct (bool_decide_reflect (q ∈ dropped s)) as [Hd|]; [|done].
  destruct (I2 _ Hd) as (Hr & tid & q' & Ht & Ht' & Hne). rewrite Ht in E. injection E as <-.
  set (s1 := set_dropped (dropped s ∖ {[q]}) s).
  assert (∀ x, x ∈ dropped (drop_sender tid s1) ↔ (x ∈ dropped s ∧ x ≠ q) ∨ pending s !! tid = Some x) as Hds.
  { intros x. rewrite dropped_drop_sender. cbn [s1 set_dropped dropped pending]. by rewrite elem_of_difference, elem_of_singleton. }
  assert (pending (drop_sender tid s1) = pending s ∧ tids (drop_sender tid s1) = tids s ∧
    results (drop_sender tid s1) = results s) as (Ep & Et & Er) by (unfold drop_sender; by destruct (pending s1 !! tid)).
  split; cbn [add_result set_pending pending dropped tids results]; rewrite ?Ep, ?Et, ?Er.
  - intros t x [Hnt Hx]%lookup_delete_Some. destruct (I1 _ _ Hx) as (H1 & H2 & H3). split; [done|].
    rewrite Hds. split; [|rewrite lookup_insert_ne; [done|intros <-; congruence]].
    intros [[? _]|Hp]; [done|]. destruct (I1 _ _ Hp) as (? & _). congruence.
  - intros x [[Hx Hxq]|Hp]%Hds.
    + destruct (I2 _ Hx) as [? ?]. by rewrite lookup_insert_ne by done.
    + destruct (I1 _ _ Hp) as (H1 & H2 & H3). rewrite lookup_insert_ne by (intros <-; done).
      split; [done|]. exists tid, q. split; [done|]. split; [done|]. by intros <-.
  - intros x Hx. destruct (decide (q = x)) as [<-|]; [by apply lookup_lt_Some in Ht|].
    rewrite lookup_insert_ne in Hx by done. by apply I3.
  - intros x Hlt Hx. apply lookup_insert_None in Hx as [Hx Hnx]. rewrite Hds.
    destruct (I4 _ Hlt Hx) as [|(t & H1 & H2)]; [by left; left|].
    destruct (decide (t = tid)) as [->|]; [by left; right|]. right. exists t. cbn [add_result set_pending tids pending]. rewrite ?Et, ?Ep.
    split; [done|]. by rewrite lookup_delete_ne.
  - intros x m [[_ ?]|[_ Hx]]%lookup_insert_Some; [done|by apply I5].
Qed.

Lemma view_inv s s' :
  pending s' = pending s → dropped s' = dropped s → tids s' = tids s → results s' = results s → rpc_inv s → rpc_inv s'.
Proof.
  intros E1 E2 E3 E4 [I1 I2 I3 I4 I5]. split; rewrite ?E1, ?E2, ?E3, ?E4; try done.
  intros q Hq Hr. destruct (I4 q Hq Hr) as [|(t & H1 & H2)]; [by left|]. right. exists t. by rewrite E3, E1.
Qed.

Lemma query_start_eq addr tid data ok s :
  query_start addr tid data ok s =
    let s' := register tid s in
    if ok then add_sent (addr, data) s' else finish (length (tids s)) tid (Err Protocol) s'.
Proof. unfold query_start, register, drop_sender. by destruct (pending s !! tid). Qed.

Lemma rpc_step_inv handler s s' : rpc_step handler s s' → rpc_inv s → rpc_inv s'.
Proof.
  intros H I. destruct H as [addr tid data ok|data src _|q s' E].
  - rewrite query_start_eq. cbn zeta. pose proof (register_inv tid s I) as I'. destruct ok.
    + by apply (view_inv (register tid s)).
    + apply finish_inv; [done| |done]. by apply lookup_insert_eq.
  - unfold on_datagram. destruct (krpc_from_bytes _) as [m|e| |]; [|done|by apply (view_inv s)|done].
    destruct m as [tid method args|tid res|tid code text].
    + destruct handler as [h|]; [|done]. destruct (h _ _) as [[r|]|e| |]; try done; by apply (view_inv s).
    + destruct (pending s !! tid) as [q|] eqn:Ep; [|done]. apply (finish_inv q tid); [done|done|]. by intros m [= <-].
    + destruct (pending s !! tid) as [q|] eqn:Ep; [|done]. apply (finish_inv q tid); [done|done|]. by intros m [= <-].
  - by eapply query_fails_inv.
Qed.

Lemma rpc_reachable_inv handler s : rtc (rpc_step handler) rpc_new s → rpc_inv s.
Proof.
  intros Hr. cut (∀ x y, rtc (rpc_step handler) x y → rpc_inv x → rpc_inv y); [intros H; exact (H _ _ Hr rpc_new_inv)|].
  induction 1 as [|x y z Hxy _ IH]; [done|]. intros Hx. by apply IH, (rpc_step_inv handler x).
Qed.

(** An answer that the socket delivers whole ends the query that waits for it. *)
Lemma answer_arrives handler s q m src :
  pending s !! transaction_id m = Some q → krpc_ok m → is_answer m → zlen (krpc_to_bytes m) ≤ 8192 →
  on_datagram handler (krpc_to_bytes m) src s = finish q (transaction_id m) (Ok (krpc_canon m)) s.
Proof.
  intros Hp Hm Ha Hlen. unfold on_datagram. rewrite take_ge by (unfold RECV_SIZE, zlen in *; lia).
  rewrite krpc_from_to_bytes by done.
  destruct m as [tid method args|tid res|tid code text]; [done|..]; cbn [krpc_canon transaction_id] in *; by rewrite Hp.
Qed.

(** A second query that takes the entry of a waiting one leaves that one about to fail. *)
Definition takes_entry (q : nat) (tid : bytes) (s s1 : DhtRpc) : Prop :=
  pending s1 !! tid = Some (length (tids s)) ∧ q ∈ dropped s1 ∧ tids s1 !! q = Some tid ∧
  tids s1 !! length (tids s) = Some tid ∧ (q < length (tids s))%nat ∧ results s1 = results s.

Lemma second_query_takes_entry q tid addr data s :
  rpc_inv s → pending s !! tid = Some q → takes_entry q tid s (query_start addr tid data true s).
Proof.
  intros [I1 _ _ _ _] Hp. destruct (I1 _ _ Hp) as (Ht & _ & _). rewrite query_start_eq. cbn zeta.
  assert (q < length (tids s))%nat by (by apply lookup_lt_Some in Ht).
  unfold takes_entry. cbn [add_sent register pending dropped tids results]. rewrite lookup_insert_eq, dropped_drop_sender.
  split; [done|]. split; [by right|]. split; [by apply lookup_app_l_Some|]. split; [by apply list_lookup_middle|]. done.
Qed.

(** If the first query fails before an answer comes, the second one fails too. *)
Lemma first_failure_fails_both q tid s s1 :
  takes_entry q tid s s1 →
  ∃ s2 s3, query_fails q s1 = Some s2 ∧ query_fails (length (tids s)) s2 = Some s3 ∧
    results s3 !! q = Some (Err Protocol) ∧ results s3 !! length (tids s) = Some (Err Protocol).
Proof.
  intros (Hp1 & Hd1 & Eq1 & En1 & Hlt & _). set (n := length (tids s)) in *.
  unfold query_fails at 1. rewrite bool_decide_true, Eq1 by done.
  eexists _, _. split; [reflexivity|]. set (s2 := add_result q _ _).
  assert (drop_sender tid (set_dropped (dropped s1 ∖ {[q]}) s1) =
    set_dropped ({[n]} ∪ (dropped s1 ∖ {[q]})) (set_dropped (dropped s1 ∖ {[q]}) s1)) as Eds.
  { unfold drop_sender. cbn [pending set_dropped]. by rewrite Hp1. }
  assert (dropped s2 = {[n]} ∪ (dropped s1 ∖ {[q]}) ∧ tids s2 = tids s1 ∧
    results s2 = <[q:=Err Protocol]> (results s1)) as (Ed2 & Et2 & Er2) by (unfold s2; by rewrite Eds).
  split; [|split].
  - unfold query_fails. rewrite bool_decide_true by (rewrite Ed2; apply elem_of_union; left; by apply elem_of_singleton).
    rewrite Et2, En1. reflexivity.
  - cbn [results add_result set_pending]. rewrite lookup_insert_ne by lia. rewrite results_drop_sender.
    change (results s2 !! q = Some (Err Protocol)). by rewrite Er2, lookup_insert_eq.
  - cbn [results add_result]. by rewrite lookup_insert_eq.
Qed.

(** If an answer comes first, the second query gets it and only the first one fails. *)
Lemma first_answer_is_for_second q tid s s1 m handler src :
  takes_entry q tid s s1 → transaction_id m = tid → krpc_ok m → is_answer m → zlen (krpc_to_bytes m) ≤ 8192 →
  ∃ s3, query_fails q (on_datagram handler (krpc_to_bytes m) src s1) = Some s3 ∧
    results s3 !! q = Some (Err Protocol) ∧ results s3 !! length (tids s) = Some (Ok (krpc_canon m)).
Proof.
  intros (Hp1 & Hd1 & Eq1 & _ & Hlt & _) <- Hm Ha Hlen. set (n := length (tids s)) in *.
  rewrite (answer_arrives handler s1 n m src) by done.
  unfold query_fails. cbn [finish add_result set_pending dropped tids]. rewrite bool_decide_true, Eq1 by done.
  eexists. split; [reflexivity|]. cbn [results add_result set_pending].
  split; [by rewrite lookup_insert_eq|]. rewrite lookup_insert_ne by lia. rewrite results_drop_sender.
  cbn [finish add_result results set_dropped]. by rewrite lookup_insert_eq.
Qed.

(** C15: the DHT client gives every answer to the query that waits for it. In every state it can reach: a
    query has a result, or waits under its own transaction id, or is about to fail, and never two of
    these; it can only be about to fail if another query has the same transaction id; and its result,
    unless it failed, is a response or an error with its transaction id. The first such message that
    arrives ends the query, from whatever address it came. When a second query takes the transaction id
    of a waiting one, the first can only fail. If it fails before an answer comes, it removes the entry
    of the second, and both end with an error; if an answer comes before, the second query gets it and
    only the first fails. *)
Theorem rpc_queries_and_answers : ∀ handler s,
  rtc (rpc_step handler) rpc_new s →
  (∀ q, (q < length (tids s))%nat →
     (is_Some (results s !! q) ∧ (q ∉ dropped s) ∧ ¬ waits s q) ∨
     (results s !! q = None ∧ (q ∉ dropped s) ∧ waits s q) ∨
     (results s !! q = None ∧ q ∈ dropped s ∧ ¬ waits s q ∧
        ∃ q', q' ≠ q ∧ is_Some (tids s !! q) ∧ tids s !! q' = tids s !! q)) ∧
  (∀ q m, results s !! q = Some (Ok m) → tids s !! q = Some (transaction_id m) ∧ is_answer m) ∧
  (∀ q m src, krpc_ok m → is_answer m → zlen (krpc_to_bytes m) ≤ 8192 → waits s q → tids s !! q = Some (transaction_id m) →
     results (on_datagram handler (krpc_to_bytes m) src s) !! q = Some (Ok (krpc_canon m))) ∧
  (∀ q tid addr data, pending s !! tid = Some q →
     let s1 := query_start addr tid data true s in
     (∃ s2 s3, query_fails q s1 = Some s2 ∧ query_fails (length (tids s)) s2 = Some s3 ∧
        results s3 !! q = Some (Err Protocol) ∧ results s3 !! length (tids s) = Some (Err Protocol)) ∧
     (∀ m src, transaction_id m = tid → krpc_ok m → is_answer m → zlen (krpc_to_bytes m) ≤ 8192 →
        ∃ s3, query_fails q (on_datagram handler (krpc_to_bytes m) src s1) = Some s3 ∧
          results s3 !! q = Some (Err Protocol) ∧ results s3 !! length (tids s) = Some (Ok (krpc_canon m)))).
Proof.
  intros handler s Hr. pose proof (rpc_reachable_inv handler s Hr) as I. pose proof I as [I1 I2 I3 I4 I5].
  split; [|split; [exact I5|split]].
  - intros q Hq. destruct (results s !! q) as [r|] eqn:Er.
    + left. split; [by eexists|]. split.
      * intros Hd. destruct (I2 _ Hd). congruence.
      * intros (t & _ & Hp). destruct (I1 _ _ Hp) as (_ & _ & ?). congruence.
    + right. destruct (I4 q Hq Er) as [Hd|Hw].
      * right. destruct (I2 _ Hd) as (_ & t & q' & H1 & H2 & H3). split; [done|]. split; [done|]. split.
        { intros (t' & _ & Hp). by destruct (I1 _ _ Hp) as (_ & ? & _). }
        exists q'. split; [done|]. rewrite H1, H2. split; [by eexists|done].
      * left. split; [done|]. split; [|done]. destruct Hw as (t & _ & Hp). by destruct (I1 _ _ Hp) as (_ & ? & _).
  - intros q m src Hm Ha Hlen (t & Ht & Hp) Hq. rewrite Hq in Ht. injection Ht as <-.
    rewrite (answer_arrives handler s q) by done. cbn [finish add_result results]. by rewrite lookup_insert_eq.
  - intros q tid addr data Hp s1. pose proof (second_query_takes_entry q tid addr data s I Hp) as Ht.
    split; [by eapply first_failure_fails_both|]. intros m src. by apply first_answer_is_for_second with (tid := tid).
Qed.

(** Two queries with the same transaction id. *)
Definition colliding : DhtRpc :=
  query_start (mk_addr (V4 [1; 1; 1; 1]) 1) [7; 7] [] true rpc_new.

Lemma rpc_queries_and_answers_witness :
  let twice := query_start (mk_addr (V4 [2; 2; 2; 2]) 2) [7; 7] [] true colliding in
  (∃ s2 s3, query_fails 0 twice = Some s2 ∧ query_fails 1 s2 = Some s3 ∧
     results s3 !! 0%nat = Some (Err Protocol) ∧ results s3 !! 1%nat = Some (Err Protocol)) ∧
  (∃ s3, query_fails 0 (on_datagram None (krpc_to_bytes (Response [7; 7] (BDict []))) (mk_addr (V4 [9; 9; 9; 9]) 9) twice)
       = Some s3 ∧
     results s3 !! 0%nat = Some (Err Protocol) ∧ results s3 !! 1%nat = Some (Ok (Response [7; 7] (BDict [])))).
Proof.
  intros twice. destruct (rpc_queries_and_answers None colliding) as (_ & _ & _ & Hc).
  - apply rtc_once. exact (Rpc_query None rpc_new (mk_addr (V4 [1; 1; 1; 1]) 1) [7; 7] [] true).
  - destruct (Hc 0%nat [7; 7] (mk_addr (V4 [2; 2; 2; 2]) 2) [] eq_refl) as [Hboth Hsecond].
    split; [exact Hboth|]. apply (Hsecond (Response [7; 7] (BDict []))).
    + reflexivity.
    + split; [done|]. constructor; [apply NoDup_nil_2|constructor].
    + exact I.
    + by vm_compute.
Defined.

(** One datagram whose length prefix overflows ends the receive loop. *)
Example one_datagram_stops_the_loop :
  running (on_datagram None (bs "18446744073709551615:") (mk_addr (V4 [1; 1; 1; 1]) 1) rpc_new) = false.
Proof. vm_compute. reflexivity. Qed.
