(* ===== verification/DhtNode.v ===== *)
(** The DHT node of a session: [crates/torrent/src/dht/node.rs].

    What other nodes answer is an argument; a node that never answers is [None], since a query has no
    timeout. The clock is an argument of the lookup: whether the deadline has passed at its [k]-th
    look. *)

From stdpp Require Import base numbers list gmap strings.
From Stdlib Require Import ZArith Lia.
From S2P Require Import Prelude Facts Error Bencode Net Compact IpText Krpc Dht DhtFacts DhtRpc.

Definition ALPHA : nat := 8.
Definition LOOKUP_CONCURRENCY : nat := 3.
Definition WANT_CROSS_FAMILY : option (list bytes) := Some [bs "n4"; bs "n6"].

(** * Answering queries *)

(** The routing table is behind an asynchronous mutex of tokio. [blocking_lock in_task rt] is what
    [blocking_lock] gives when the mutex holds [rt]; it is documented to panic when it is called while
    an asynchronous task runs. *)
Class TokioMutex : Type := {
  blocking_lock : bool → DualRoutingTable → result DualRoutingTable;
  blocking_lock_in_task rt : blocking_lock true rt = Panic;
  blocking_lock_outside rt : blocking_lock false rt = Ok rt;
}.

Section handler.
Context `{TokioMutex} (sha1 : bytes → bytes) (our_id secret : bytes).

(** The token is bound to the address the query came from. *)
Definition generate_token (addr : SocketAddr) : bytes := take 4 (sha1 (secret ++ ip_to_string (ip addr))).

(** [in_task] says whether the handler is called while an asynchronous task runs. *)
Definition create_query_handler (in_task : bool) (table : DualRoutingTable) (msg : KrpcMessage) (src : SocketAddr)
    : result (option bytes) :=
  match msg with
  | Query tid method args =>
      if bool_decide (method = bs "ping") then Ok (Some (build_ping_response tid our_id))
      else if bool_decide (method = bs "find_node") then
        match dict_get_bytes args (bs "target") with
        | Some target =>
            let! rt := blocking_lock in_task table in
            Ok (Some (build_find_node_response tid our_id (dual_find_closest rt (copy_padded 20 target) 8)))
        | None => Ok None
        end
      else if bool_decide (method = bs "get_peers") then
        match dict_get_bytes args (bs "info_hash") with
        | Some info_hash =>
            let token := generate_token src in
            let! rt := blocking_lock in_task table in
            Ok (Some (build_get_peers_response_nodes tid our_id token
                        (dual_find_closest rt (copy_padded 20 info_hash) 8)))
        | None => Ok None
        end
      else if bool_decide (method = bs "announce_peer") then Ok (Some (build_ping_response tid our_id))
      else Ok None
  | _ => Ok None
  end.

(** The receive loop of [DhtRpc], which is a task, is the only caller of the handler. *)
Definition loop_handler (table : DualRoutingTable) : QueryHandler := create_query_handler true table.
End handler.

(** * Waiting for answers *)

(** An answer that does not come: the caller waits for ever. *)
Definition await {A B} (answer : option A) (k : A → result (option B)) : result (option B) :=
  match answer with Some a => k a | None => Ok None end.

Fixpoint insert_all (nodes : list Node) (t : DualRoutingTable) : result DualRoutingTable :=
  match nodes with
  | [] => Ok t
  | n :: nodes' => let! (t', _) := dual_insert t n in insert_all nodes' t'
  end.

(** Whether there is a socket for an address. *)
Definition reachable_addr (have_v6 : bool) (addr : SocketAddr) : bool := is_v4 addr || have_v6.

(** [bootstrap]: the addresses are asked one after the other. *)
Fixpoint bootstrap (have_v6 : bool) (ask : SocketAddr → option (result (list Node))) (addrs : list SocketAddr)
    (t : DualRoutingTable) : result (option DualRoutingTable) :=
  match addrs with
  | [] => Ok (Some t)
  | addr :: addrs' =>
      if reachable_addr have_v6 addr then
        await (ask addr) (λ r,
          match r with
          | Ok nodes => let! t' := insert_all nodes t in bootstrap have_v6 ask addrs' t'
          | _ => bootstrap have_v6 ask addrs' t
          end)
      else bootstrap have_v6 ask addrs' t
  end.

(** * Starting a node *)

(** [DhtNode::new]: the node's identifier is in its routing table; the IPv4 socket is needed, the other
    one is not; a bootstrap node is the first address its name resolves to. *)
Record NodeStart : Type := mk_node_start {
  ns_table : DualRoutingTable;
  ns_have_v6 : bool;
  ns_bootstrap_nodes : list SocketAddr;
}.

Definition resolve (lookup_host : bytes * Z → result (list SocketAddr)) (hosts : list (bytes * Z)) : list SocketAddr :=
  omap (λ h, outcome_ok (lookup_host h) ≫= head) hosts.

Definition node_new (node_id : bytes) (rpc_v4 rpc_v6 : result unit) (lookup_host : bytes * Z → result (list SocketAddr))
    (bootstrap_v4 bootstrap_v6 : list (bytes * Z)) : result NodeStart :=
  let! _ := rpc_v4 in
  Ok (mk_node_start (dual_with_id node_id) (is_ok rpc_v6) (resolve lookup_host (bootstrap_v4 ++ bootstrap_v6))).

(** [spawn_bootstrap]: one round after the other, as long as every node that is asked answers. *)
Fixpoint spawn_bootstrap (have_v6 : bool) (rounds : list (SocketAddr → option (result (list Node))))
    (addrs : list SocketAddr) (t : DualRoutingTable) : result (option DualRoutingTable) :=
  match rounds with
  | [] => Ok (Some t)
  | ask :: rounds' =>
      let! r := bootstrap have_v6 ask addrs t in
      match r with Some t' => spawn_bootstrap have_v6 rounds' addrs t' | None => Ok None end
  end.

(** * The lookup *)

(** The state of [get_peers], with the batches asked so far. *)
Record Lookup : Type := mk_lookup {
  lk_table : DualRoutingTable;
  lk_queried : gset bytes;
  lk_peers : gset SocketAddr;
  lk_pending : list Node;
  lk_batches : list (list Node);
}.

Definition set_pending (x : list Node) (l : Lookup) : Lookup :=
  mk_lookup (lk_table l) (lk_queried l) (lk_peers l) x (lk_batches l).

(** [drain(..).filter(..).take(n)]: a node that is not reached is neither asked nor remembered. *)
Fixpoint take_batch (n : nat) (nodes : list Node) (queried : gset bytes) : list Node * gset bytes :=
  match n, nodes with
  | O, _ | _, [] => ([], queried)
  | S n', x :: nodes' =>
      if bool_decide (node_id x ∈ queried) then take_batch n nodes' queried
      else let '(b, q) := take_batch n' nodes' ({[node_id x]} ∪ queried) in (x :: b, q)
  end.

(** The nodes of an answer that were not asked yet go to the routing table and to the candidates. *)
Fixpoint learn (nodes : list Node) (l : Lookup) : result Lookup :=
  match nodes with
  | [] => Ok l
  | n :: nodes' =>
      if bool_decide (node_id n ∈ lk_queried l) then learn nodes' l
      else
        let! (t, _) := dual_insert (lk_table l) n in
        learn nodes' (mk_lookup t (lk_queried l) (lk_peers l) (lk_pending l ++ [n]) (lk_batches l))
  end.

Section lookup.
Context (have_v6 : bool) (ask : nat → Node → option (result GetPeersResult)) (late : nat → bool) (info_hash : bytes).

(** The loop over the handles of a round, in the order of the batch. *)
Fixpoint collect (round : nat) (batch : list Node) (l : Lookup) : result (option Lookup) :=
  match batch with
  | [] => Ok (Some l)
  | n :: batch' =>
      if reachable_addr have_v6 (node_addr n) then
        await (ask round n) (λ r,
          match r with
          | Ok (Values _ returned_peers) =>
              collect round batch'
                (mk_lookup (lk_table l) (lk_queried l) (list_to_set returned_peers ∪ lk_peers l) (lk_pending l) (lk_batches l))
          | Ok (Nodes nodes) => let! l' := learn nodes l in collect round batch' l'
          | _ => collect round batch' l
          end)
      else collect round batch' l
  end.

(** A round, and whether the loop goes on. *)
Definition lookup_round (round : nat) (l : Lookup) : result (option (Lookup * bool)) :=
  let '(batch, queried) := take_batch LOOKUP_CONCURRENCY (lk_pending l) (lk_queried l) in
  let l := mk_lookup (lk_table l) queried (lk_peers l) [] (lk_batches l) in
  if bool_decide (batch = []) || late (2 * round) then Ok (Some (l, false))
  else
    let l := mk_lookup (lk_table l) queried (lk_peers l) [] (lk_batches l ++ [batch]) in
    let! r := collect round batch l in
    match r with
    | None => Ok None
    | Some l =>
        if negb (bool_decide (lk_peers l = ∅)) || late (2 * round + 1) then Ok (Some (l, false))
        else
          let fresh := dual_find_closest (lk_table l) info_hash ALPHA in
          let l := set_pending (lk_pending l ++ filter (λ n, node_id n ∉ lk_queried l) fresh) l in
          Ok (Some (l, negb (bool_decide (lk_pending l = []))))
    end.

(** The loop has no bound of its own: the fuel is the number of rounds. *)
Fixpoint lookup_loop (fuel round : nat) (l : Lookup) : result (option Lookup) :=
  match fuel with
  | O => NoFuel
  | S fuel' =>
      let! r := lookup_round round l in
      match r with
      | None => Ok None
      | Some (l', false) => Ok (Some l')
      | Some (l', true) => lookup_loop fuel' (S round) l'
      end
  end.

Definition lookup_start (t : DualRoutingTable) : Lookup :=
  mk_lookup t ∅ ∅ (dual_find_closest t info_hash ALPHA) [].

(** [DhtNode::get_peers]. *)
Definition get_peers (fuel : nat) (t : DualRoutingTable) : result (option Lookup) :=
  let l := lookup_start t in
  if bool_decide (lk_pending l = []) then Ok (Some l) else lookup_loop fuel 0 l.
End lookup.

(** The packets of [DhtNode::announce_peer], for the transaction ids it draws. *)
Definition announce_packets (have_v6 : bool) (tid : Node → bytes) (our_id info_hash : bytes) (port : Z)
    (t : DualRoutingTable) : list (SocketAddr * bytes) :=
  map (λ n, (node_addr n, build_announce_peer (tid n) our_id info_hash port []))
    (filter (λ n, reachable_addr have_v6 (node_addr n) = true) (dual_find_closest t info_hash ALPHA)).

(** * What a DHT lookup asks, what it finds, and when it ends: about [DhtNode.get_peers]. *)

(** * The routing table of the node *)

Definition dual_ok (t : DualRoutingTable) : Prop :=
  id_ok (dual_id t) ∧ table_ok (dual_id t) (buckets_v4 t) ∧ table_ok (dual_id t) (buckets_v6 t).

Lemma dual_ok_new id : id_ok id → dual_ok (dual_with_id id).
Proof. intros H. split; [done|]. split; apply table_ok_new. Qed.

Lemma dual_insert_ok t n :
  dual_ok t → id_ok (node_id n) → ∃ t' added, dual_insert t n = Ok (t', added) ∧ dual_ok t'.
Proof.
  intros (Hid & H4 & H6) Hn. unfold dual_insert. destruct (is_v4 (node_addr n)).
  - destruct (insert_table_ok _ _ _ Hid Hn H4) as (b & added & -> & Hb & _). by eexists _, _.
  - destruct (insert_table_ok _ _ _ Hid Hn H6) as (b & added & -> & Hb & _). by eexists _, _.
Qed.

Lemma insert_all_ok nodes t :
  dual_ok t → Forall (λ n, id_ok (node_id n)) nodes → ∃ t', insert_all nodes t = Ok t' ∧ dual_ok t'.
Proof.
  intros Ht Hn. revert t Ht. induction Hn as [|n nodes Hn _ IH]; intros t Ht; [by exists t|]. cbn [insert_all].
  destruct (dual_insert_ok t n Ht Hn) as (t' & added & -> & Ht'). by apply IH.
Qed.

(** Bootstrapping never panics, whatever the answers are: the routing table stays well formed, and the
    only way to get stuck is a node that was asked and never answers. *)
Definition answers_nodes (ask : SocketAddr → option (result (list Node))) : Prop :=
  ∀ addr nodes, ask addr = Some (Ok nodes) → Forall (λ n, id_ok (node_id n)) nodes.

Lemma bootstrap_ok have_v6 ask addrs t :
  dual_ok t → answers_nodes ask →
  (∃ t', bootstrap have_v6 ask addrs t = Ok (Some t') ∧ dual_ok t') ∨
  (bootstrap have_v6 ask addrs t = Ok None ∧
   ∃ addr, addr ∈ addrs ∧ reachable_addr have_v6 addr = true ∧ ask addr = None).
Proof.
  intros Ht Ha. revert t Ht. induction addrs as [|addr addrs IH]; intros t Ht; cbn [bootstrap]; [left; by exists t|].
  assert (∀ r : result (option DualRoutingTable), (∃ t', r = Ok (Some t') ∧ dual_ok t') ∨
      (r = Ok None ∧ ∃ a, a ∈ addrs ∧ reachable_addr have_v6 a = true ∧ ask a = None) →
    (∃ t', r = Ok (Some t') ∧ dual_ok t') ∨
      (r = Ok None ∧ ∃ a, a ∈ addr :: addrs ∧ reachable_addr have_v6 a = true ∧ ask a = None)) as Hskip.
  { intros r [?|(? & a & ? & ?)]; [by left|right]. split; [done|]. exists a. split; [by right|done]. }
  destruct (reachable_addr have_v6 addr) eqn:Hr; [|by apply Hskip, IH]. unfold await.
  destruct (ask addr) as [[nodes|e| |]|] eqn:E; [|by apply Hskip, IH..|].
  - destruct (insert_all_ok nodes t Ht (Ha _ _ E)) as (t' & -> & Ht'). by apply Hskip, IH.
  - right. split; [done|]. exists addr. split; [by left|done].
Qed.

Lemma spawn_bootstrap_ok have_v6 rounds addrs t :
  dual_ok t → Forall answers_nodes rounds →
  (∃ t', spawn_bootstrap have_v6 rounds addrs t = Ok (Some t') ∧ dual_ok t') ∨
  spawn_bootstrap have_v6 rounds addrs t = Ok None.
Proof.
  intros Ht Hr. revert t Ht. induction Hr as [|ask rounds Ha _ IH]; intros t Ht; cbn [spawn_bootstrap]; [left; by exists t|].
  destruct (bootstrap_ok have_v6 ask addrs t Ht Ha) as [(t' & -> & Ht')|[-> _]]; [by apply IH|by right].
Qed.

(** A node starts whenever its IPv4 socket can be bound, with an empty, well-formed table. *)
Lemma node_new_ok node_id rpc_v4 rpc_v6 lookup_host b4 b6 n :
  id_ok node_id → node_new node_id rpc_v4 rpc_v6 lookup_host b4 b6 = Ok n →
  dual_ok (ns_table n) ∧ dual_num_nodes (ns_table n) = 0%nat ∧ is_ok rpc_v4 = true.
Proof.
  intros Hid. unfold node_new. destruct rpc_v4; try done. intros [= <-]. split; [by apply dual_ok_new|]. by split; vm_compute.
Qed.

Lemma closest_ids t target count :
  dual_ok t → Forall (λ n, id_ok (node_id n)) (dual_find_closest t target count).
Proof.
  intros (Hid & H4 & H6). apply Forall_take. unfold dual_find_closest_v4, dual_find_closest_v6, find_closest_in_buckets.
  assert (∀ b, table_ok (dual_id t) b →
    Forall (λ n, id_ok (node_id n)) (take count (stable_sort (dist_leb target) (concat b)))) as H.
  { intros b [_ Hb]. apply Forall_take, Forall_forall. intros n. rewrite stable_sort_perm.
    intros (c & Hn & [i Hc]%list_elem_of_lookup_1)%elem_of_concat. destruct (Hb _ _ Hc) as [_ HF].
    rewrite Forall_forall in HF. by apply HF. }
  apply Forall_forall. intros n. rewrite stable_sort_perm. revert n. apply Forall_forall, Forall_app. split; by apply H.
Qed.

(** * A batch *)

Lemma take_batch_spec n nodes q b q' :
  take_batch n nodes q = (b, q') →
  (length b ≤ n)%nat ∧ (∀ x, x ∈ b → x ∈ nodes) ∧ NoDup (KBucket.ids b) ∧
  (∀ i, i ∈ KBucket.ids b → i ∉ q) ∧ (∀ i, i ∈ q' ↔ i ∈ q ∨ i ∈ KBucket.ids b).
Proof.
  revert n q b q'. induction nodes as [|x nodes IH]; intros [|n] q b q' E; cbn in E.
  1-3: injection E as <- <-; change (KBucket.ids []) with (@nil bytes); split_and!;
    [cbn; lia|by intros ? ?%elem_of_nil|constructor|by intros ? ?%elem_of_nil|intros i; rewrite elem_of_nil; tauto].
  destruct (bool_decide_reflect (node_id x ∈ q)) as [Hx|Hx].
  - destruct (IH _ _ _ _ E) as (H1 & H2 & H3 & H4 & H5). split_and!; [done| |done..]. intros y Hy. right. by apply H2.
  - destruct (take_batch n nodes _) as [c r] eqn:Ec. injection E as <- <-.
    destruct (IH _ _ _ _ Ec) as (H1 & H2 & H3 & H4 & H5). change (KBucket.ids (x :: c)) with (node_id x :: KBucket.ids c).
    split_and!; cbn [length]; [lia| | | |].
    + intros y [->|Hy]%elem_of_cons; [by left|right; by apply H2].
    + constructor; [|done]. intros Hi. apply (H4 _ Hi), elem_of_union. left. by apply elem_of_singleton.
    + intros i [->|Hi]%elem_of_cons; [done|]. intros Hq. apply (H4 _ Hi), elem_of_union. by right.
    + intros i. rewrite H5, elem_of_union, elem_of_singleton, elem_of_cons. tauto.
Qed.

Section lookup_facts.
Context (have_v6 : bool) (ask : nat → Node → option (result GetPeersResult)).
Context (ask_ids : ∀ r n nodes, ask r n = Some (Ok (Nodes nodes)) → Forall (λ n, id_ok (node_id n)) nodes).

(** An address is in an answer of a node of a round. *)
Definition answered_in (round : nat) (batch : list Node) (p : SocketAddr) : Prop :=
  ∃ n tok ps, n ∈ batch ∧ reachable_addr have_v6 (node_addr n) = true ∧
    ask round n = Some (Ok (Values tok ps)) ∧ p ∈ ps.

Definition answered (batches : list (list Node)) (p : SocketAddr) : Prop :=
  ∃ r b, batches !! r = Some b ∧ answered_in r b p.

Lemma answered_in_nil round p : ¬ answered_in round [] p.
Proof using. by intros (n & tok & ps & ?%elem_of_nil & _). Qed.

Lemma answered_in_cons round n b p : answered_in round (n :: b) p ↔ answered_in round [n] p ∨ answered_in round b p.
Proof using.
  split.
  - intros (m & tok & ps & H & Hm). apply elem_of_cons in H as [H|H]; [left|right]; exists m, tok, ps; (split; [|done]);
      [subst; by left|done].
  - intros [(m & tok & ps & H & Hm)|(m & tok & ps & H & Hm)]; exists m, tok, ps; (split; [|done]);
      [apply list_elem_of_singleton in H as ->; by left|by right].
Qed.

(** Nothing but the table, the peers and the candidates changes while answers come in. *)
Record hears (l l' : Lookup) : Prop := {
  he_table : dual_ok (lk_table l');
  he_pending : Forall (λ n, id_ok (node_id n)) (lk_pending l');
  he_queried : lk_queried l' = lk_queried l;
  he_batches : lk_batches l' = lk_batches l;
}.

Lemma learn_ok nodes l :
  Forall (λ n, id_ok (node_id n)) nodes → dual_ok (lk_table l) → Forall (λ n, id_ok (node_id n)) (lk_pending l) →
  ∃ l', learn nodes l = Ok l' ∧ hears l l' ∧ lk_peers l' = lk_peers l.
Proof using.
  intros Hn. revert l. induction Hn as [|n nodes Hn _ IH]; intros l Ht Hp; [by exists l|]. cbn [learn].
  destruct (bool_decide _); [by apply IH|]. destruct (dual_insert_ok _ n Ht Hn) as (t & added & -> & Ht'). cbn [obind].
  destruct (IH (mk_lookup t (lk_queried l) (lk_peers l) (lk_pending l ++ [n]) (lk_batches l))) as (l' & -> & [] & ?); cbn in *;
    [done|apply Forall_app; split; [done|constructor; [done|constructor]]|]. exists l'. by split_and!.
Qed.

(** The answers of a round: either one never comes, or all of them are taken in. *)
Lemma collect_ok round batch l :
  dual_ok (lk_table l) → Forall (λ n, id_ok (node_id n)) (lk_pending l) →
  (collect have_v6 ask round batch l = Ok None ∧
     ∃ n, n ∈ batch ∧ reachable_addr have_v6 (node_addr n) = true ∧ ask round n = None) ∨
  (∃ l', collect have_v6 ask round batch l = Ok (Some l') ∧ hears l l' ∧
     (∀ n, n ∈ batch → reachable_addr have_v6 (node_addr n) = true → ask round n ≠ None) ∧
     ∀ p, p ∈ lk_peers l' ↔ p ∈ lk_peers l ∨ answered_in round batch p).
Proof using ask_ids.
  revert l. induction batch as [|n batch IH]; intros l Ht Hp; cbn [collect].
  { right. exists l. split_and!; [done|done|by intros ? ?%elem_of_nil|]. intros p. pose proof (answered_in_nil round p). tauto. }
  assert (∀ l1, hears l l1 → (∀ p, p ∈ lk_peers l1 ↔ p ∈ lk_peers l ∨ answered_in round [n] p) →
    (reachable_addr have_v6 (node_addr n) = true → ask round n ≠ None) →
    (collect have_v6 ask round batch l1 = Ok None ∧
      ∃ m, m ∈ n :: batch ∧ reachable_addr have_v6 (node_addr m) = true ∧ ask round m = None) ∨
    (∃ l', collect have_v6 ask round batch l1 = Ok (Some l') ∧ hears l l' ∧
      (∀ m, m ∈ n :: batch → reachable_addr have_v6 (node_addr m) = true → ask round m ≠ None) ∧
      ∀ p, p ∈ lk_peers l' ↔ p ∈ lk_peers l ∨ answered_in round (n :: batch) p)) as Hrec.
  { intros l1 [Ht1 Hp1 Hq1 Hb1] Hpeers Hans. destruct (IH l1 Ht1 Hp1) as [(-> & m & ? & ?)|(l' & -> & [] & Hall & Hp')].
    - left. split; [done|]. exists m. split; [by right|done].
    - right. exists l'. split_and!; [done|split; congruence| |].
      + intros m [->|Hm]%elem_of_cons; [done|by apply Hall].
      + intros p. rewrite Hp', Hpeers, (answered_in_cons round n batch). tauto. }
  assert (hears l l) as Hsame by done.
  destruct (reachable_addr have_v6 (node_addr n)) eqn:Er.
  2: { apply Hrec; [done| |congruence]. intros p. split; [by left|].
    intros [?|(m & tok & ps & ->%list_elem_of_singleton & ? & ?)]; [done|congruence]. }
  destruct (ask round n) as [r|] eqn:Ea; cbn [await]; [|left; split; [done|]; exists n; split; [by left|done]].
  assert ((∀ tok ps, r ≠ Ok (Values tok ps)) → ∀ p, p ∈ lk_peers l ↔ p ∈ lk_peers l ∨ answered_in round [n] p) as Hno.
  { intros Hr p. split; [by left|]. intros [?|(m & tok & ps & ->%list_elem_of_singleton & _ & H & _)]; [done|].
    rewrite Ea in H. injection H as ->. by destruct (Hr tok ps). }
  destruct r as [[tok ps|nodes]|e| |]; [| |by apply Hrec; [|apply Hno|]..].
  - apply Hrec; [done| |done]. intros p. cbn [lk_peers]. rewrite elem_of_union, elem_of_list_to_set.
    split; [intros [?|?]; [right|by left]|intros [?|(m & tok' & ps' & ->%list_elem_of_singleton & _ & H & ?)]; [by right|left]].
    + exists n, tok, ps. split_and!; [by left|done..].
    + rewrite Ea in H. by injection H as -> ->.
  - destruct (learn_ok nodes l (ask_ids _ _ _ Ea) Ht Hp) as (l1 & -> & Hh & Epeers). cbn [obind]. apply Hrec; [done| |done].
    rewrite Epeers. by apply Hno.
Qed.

(** The state of a lookup after some rounds. *)
Record lookup_inv (l : Lookup) : Prop := {
  li_table : dual_ok (lk_table l);
  li_pending : Forall (λ n, id_ok (node_id n)) (lk_pending l);
  li_once : NoDup (KBucket.ids (concat (lk_batches l)));
  li_queried : ∀ i, i ∈ KBucket.ids (concat (lk_batches l)) → i ∈ lk_queried l;
  li_batches : Forall (λ b, 1 ≤ length b ≤ LOOKUP_CONCURRENCY)%nat (lk_batches l);
  li_peers : ∀ p, p ∈ lk_peers l ↔ answered (lk_batches l) p;
}.

Lemma answered_snoc batches b p : answered (batches ++ [b]) p ↔ answered batches p ∨ answered_in (length batches) b p.
Proof using.
  split.
  - intros (r & c & [[_ Hr]|[-> <-]]%lookup_snoc_Some & Hc); [left; by exists r, c|by right].
  - intros [(r & c & Hr & Hc)|Hb]; [exists r, c|exists (length batches), b]; (split; [|done]).
    + by apply lookup_app_l_Some.
    + by apply list_lookup_middle.
Qed.

Lemma lookup_start_inv info_hash t : dual_ok t → lookup_inv (lookup_start info_hash t).
Proof using.
  intros Ht. split; cbn [lookup_start lk_table lk_pending lk_batches lk_queried lk_peers];
    [done|by apply closest_ids|constructor|by intros i ?%elem_of_nil|constructor|].
  intros p. split; [by intros ?%elem_of_empty|]. by intros (r & b & Hr & _).
Qed.

(** Someone in the last batch was asked and never answers. *)
Definition stuck (round : nat) (b : list Node) : Prop :=
  ∃ n, n ∈ b ∧ reachable_addr have_v6 (node_addr n) = true ∧ ask round n = None.

Section rounds.
Context (late : nat → bool) (info_hash : bytes).

Lemma lookup_round_ok l :
  lookup_inv l →
  (lookup_round have_v6 ask late info_hash (length (lk_batches l)) l = Ok None ∧
     ∃ b, (∀ n, n ∈ b → n ∈ lk_pending l) ∧ stuck (length (lk_batches l)) b) ∨
  ∃ l' more, lookup_round have_v6 ask late info_hash (length (lk_batches l)) l = Ok (Some (l', more)) ∧ lookup_inv l' ∧
    (length (lk_batches l) ≤ length (lk_batches l') ≤ S (length (lk_batches l)))%nat ∧
    (more = true → length (lk_batches l') = S (length (lk_batches l)) ∧ late (2 * length (lk_batches l)) = false).
Proof using ask_ids.
  intros [It Ip Io Iq Ib Ipeers]. unfold lookup_round.
  destruct (take_batch _ _ _) as [b q] eqn:Eb. destruct (take_batch_spec _ _ _ _ _ Eb) as (B1 & B2 & B3 & B4 & B5).
  cbn [lk_table lk_peers lk_batches lk_queried lk_pending].
  assert (∀ i, i ∈ KBucket.ids (concat (lk_batches l)) → i ∈ q) as Iq' by (intros i Hi; apply B5; left; by apply Iq).
  destruct (bool_decide_reflect (b = [])) as [->|Hb]; cbn [orb].
  { right. exists (mk_lookup (lk_table l) q (lk_peers l) [] (lk_batches l)), false. split_and!; [done|split; [done|constructor|done..]|cbn; lia|cbn; lia|done]. }
  destruct (late (2 * _)) eqn:El.
  { right. exists (mk_lookup (lk_table l) q (lk_peers l) [] (lk_batches l)), false. split_and!; [done|split; [done|constructor|done..]|cbn; lia|cbn; lia|done]. }
  destruct (collect_ok (length (lk_batches l)) b (mk_lookup (lk_table l) q (lk_peers l) [] (lk_batches l ++ [b])))
    as [(-> & n & Hn)|(l1 & -> & [H1 H2 H3 H4] & _ & Hp)]; [done|constructor| |]; cbn [obind].
  { left. split; [done|]. exists b. split; [done|by exists n]. }
  cbn [lk_table lk_peers lk_batches lk_queried lk_pending] in *. right.
  assert (lookup_inv l1) as I1.
  { split; [done|done|..]; rewrite ?H3, ?H4.
    - rewrite concat_app. cbn [concat]. rewrite app_nil_r. unfold KBucket.ids. rewrite map_app. apply NoDup_app.
      split_and!; [done| |done]. intros i Hi Hi'. by apply (B4 i Hi'), Iq.
    - intros i Hi. rewrite concat_app in Hi. cbn [concat] in Hi. rewrite app_nil_r in Hi. unfold KBucket.ids in Hi.
      rewrite map_app in Hi. apply elem_of_app in Hi as [Hi|Hi]; [by apply Iq'|]. apply B5. by right.
    - apply Forall_app. split; [done|]. constructor; [|constructor]. split; [destruct b; [done|cbn; lia]|done].
    - intros p. rewrite Hp, answered_snoc, Ipeers. done. }
  assert (length (lk_batches l1) = S (length (lk_batches l))) as Elen by (rewrite H4, length_app; cbn; lia).
  destruct (negb (bool_decide (lk_peers l1 = ∅)) || late (2 * _ + 1)) eqn:Estop.
  { exists l1, false. split_and!; [done|done|lia|lia|done]. }
  eexists _, _. split; [done|]. split; [|cbn [set_pending lk_batches]; split; [lia|done]].
  destruct I1 as [? ? ? ? ? ?]. split; cbn [set_pending lk_table lk_pending lk_batches lk_queried lk_peers]; [done| |done..].
  apply Forall_app. split; [done|]. apply Forall_forall. intros n Hn. apply list_elem_of_filter in Hn as [_ Hn].
  pose proof (closest_ids (lk_table l1) info_hash ALPHA) as Hc. rewrite Forall_forall in Hc. by apply Hc.
Qed.

Lemma lookup_loop_ok fuel l :
  lookup_inv l →
  (lookup_loop have_v6 ask late info_hash fuel (length (lk_batches l)) l = NoFuel ∧
     ∀ r, (length (lk_batches l) ≤ r < length (lk_batches l) + fuel)%nat → late (2 * r) = false) ∨
  (lookup_loop have_v6 ask late info_hash fuel (length (lk_batches l)) l = Ok None ∧ ∃ r n, ask r n = None) ∨
  (∃ l', lookup_loop have_v6 ask late info_hash fuel (length (lk_batches l)) l = Ok (Some l') ∧ lookup_inv l').
Proof using ask_ids.
  revert l. induction fuel as [|fuel IH]; intros l Il; cbn [lookup_loop]; [left; split; [done|lia]|].
  destruct (lookup_round_ok l Il) as [(-> & b & _ & n & _ & _ & Hn)|(l' & more & -> & Il' & Hlen & Hmore)]; cbn [obind].
  { right. left. split; [done|]. by eexists _, _. }
  destruct more; [|right; right; by exists l']. destruct (Hmore eq_refl) as [El Hlate]. rewrite <- El.
  destruct (IH l' Il') as [[-> H]|[H|H]]; [left|by right; left|by right; right].
  split; [done|]. intros r Hr. destruct (decide (r = length (lk_batches l))) as [->|]; [done|]. apply H. lia.
Qed.
End rounds.
End lookup_facts.

(** C9: a DHT lookup asks every node at most once, at most three in a round, and its peers are exactly
    the ones in the answers of the nodes it asked. If every node answers it ends: no later than at the
    first round that starts after the deadline. But a query has no timeout: if one of the three nodes
    of the first round never answers, the lookup waits for ever, whatever the clock says. It never
    panics, however the answers look. *)
Theorem dht_lookup : ∀ have_v6 ask late info_hash t,
  dual_ok t →
  (∀ r n nodes, ask r n = Some (Ok (Nodes nodes)) → Forall (λ n, id_ok (node_id n)) nodes) →
  (∀ fuel l, get_peers have_v6 ask late info_hash fuel t = Ok (Some l) →
     NoDup (KBucket.ids (concat (lk_batches l))) ∧ Forall (λ b, 1 ≤ length b ≤ 3)%nat (lk_batches l) ∧
     (∀ p, p ∈ lk_peers l ↔ answered have_v6 ask (lk_batches l) p)) ∧
  (∀ fuel (r : nat), (∀ r n, ask r n ≠ None) → late (2 * r)%nat = true → (r < fuel)%nat →
     ∃ l, get_peers have_v6 ask late info_hash fuel t = Ok (Some l)) ∧
  (∀ fuel n, n ∈ fst (take_batch 3 (dual_find_closest t info_hash ALPHA) ∅) →
     reachable_addr have_v6 (node_addr n) = true → ask 0%nat n = None → late 0%nat = false →
     get_peers have_v6 ask late info_hash (S fuel) t = Ok None) ∧
  (∀ fuel, get_peers have_v6 ask late info_hash fuel t = NoFuel ∨ ∃ r, get_peers have_v6 ask late info_hash fuel t = Ok r).
Proof.
  intros have_v6 ask late info_hash t Ht Hask. pose proof (lookup_start_inv have_v6 ask info_hash t Ht) as I0.
  pose proof (λ fuel, lookup_loop_ok have_v6 ask Hask late info_hash fuel _ I0) as Hloop.
  change (length (lk_batches (lookup_start info_hash t))) with 0%nat in Hloop. unfold get_peers.
  split_and!.
  - intros fuel l. assert (lookup_inv have_v6 ask l →
      NoDup (KBucket.ids (concat (lk_batches l))) ∧ Forall (λ b, 1 ≤ length b ≤ 3)%nat (lk_batches l) ∧
      (∀ p, p ∈ lk_peers l ↔ answered have_v6 ask (lk_batches l) p)) as Hinv by (intros []; done).
    destruct (bool_decide _); [intros [= <-]; by apply Hinv|].
    destruct (Hloop fuel) as [[-> _]|[[-> _]|(l' & -> & Hl')]]; [done..|]. intros [= <-]. by apply Hinv.
  - intros fuel r Hall Hlate Hr. destruct (bool_decide _); [by eexists|].
    destruct (Hloop fuel) as [[_ H]|[[_ (r' & n & H)]|(l' & -> & _)]]; [|by destruct (Hall r' n)|by eexists].
    rewrite H in Hlate by lia. done.
  - intros fuel n Hn Hreach Hnone Hlate. cbn [lookup_loop lk_pending lookup_start].
    destruct (bool_decide_reflect (dual_find_closest t info_hash ALPHA = [])) as [E|_].
    { rewrite E in Hn. by apply elem_of_nil in Hn. }
    pose proof (lookup_round_ok have_v6 ask Hask late info_hash _ I0) as Hround.
    change (length (lk_batches (lookup_start info_hash t))) with 0%nat in Hround.
    destruct Hround as [[-> _]|(l' & more & E & _)]; [done|].
    exfalso. revert E. unfold lookup_round, lookup_start.
    cbn [lk_table lk_peers lk_batches lk_queried lk_pending]. change LOOKUP_CONCURRENCY with 3%nat.
    destruct (take_batch 3 _ _) as [b q]. cbn [fst] in Hn.
    rewrite bool_decide_false by (intros ->; by apply elem_of_nil in Hn). change (2 * 0)%nat with 0%nat. rewrite Hlate. cbn [orb app].
    destruct (collect_ok have_v6 ask Hask 0 b (mk_lookup t q ∅ [] [b])) as [[-> _]|(l1 & _ & _ & Hall & _)];
      [done|constructor|done|by destruct (Hall n Hn Hreach)].
  - intros fuel. destruct (bool_decide _); [right; by eexists|].
    destruct (Hloop fuel) as [[-> _]|[[-> _]|(l' & -> & _)]]; [by left|right; by eexists..].
Qed.

(** Three nodes: the first answers with the second, the second with a peer; the third is silent. *)
Definition lookup_id (k : Z) : bytes := replicate 19 0 ++ [k].
Definition lookup_node (k : Z) : Node := mk_node (lookup_id k) (mk_addr (V4 [10; 0; 0; k]) 6881).
Definition lookup_peer : SocketAddr := mk_addr (V4 [9; 9; 9; 9]) 51413.

Definition lookup_ask (round : nat) (n : Node) : option (result GetPeersResult) :=
  if bool_decide (node_id n = lookup_id 1) then Some (Ok (Nodes [lookup_node 2]))
  else if bool_decide (node_id n = lookup_id 2) then Some (Ok (Values [1] [lookup_peer]))
  else if bool_decide (node_id n = lookup_id 3) then None else Some (Err Protocol).

Definition lookup_table (k : Z) : DualRoutingTable :=
  match dual_insert (dual_with_id (lookup_id 255)) (lookup_node k) with Ok (t, _) => t | _ => dual_with_id [] end.

Lemma lookup_ask_ids r n nodes : lookup_ask r n = Some (Ok (Nodes nodes)) → Forall (λ n, id_ok (node_id n)) nodes.
Proof.
  unfold lookup_ask. repeat case_bool_decide; [|done..]. intros [= <-]. apply (bool_decide_unpack _). vm_compute. exact I.
Qed.

Lemma lookup_table_ok k : id_ok (lookup_id k) → dual_ok (lookup_table k).
Proof.
  intros Hk. unfold lookup_table. assert (id_ok (lookup_id 255)) as H255 by (apply (bool_decide_unpack _); vm_compute; exact I).
  destruct (dual_insert_ok (dual_with_id (lookup_id 255)) (lookup_node k)) as (t & added & -> & Ht);
    [by apply dual_ok_new|done|done].
Qed.

Lemma dht_lookup_witness :
  (∃ l, get_peers false lookup_ask (λ k, (6 <=? k)%nat) (lookup_id 2) 4 (lookup_table 1) = Ok (Some l)) ∧
  get_peers false lookup_ask (λ k, (6 <=? k)%nat) (lookup_id 2) 100 (lookup_table 3) = Ok None ∧
  lk_batches <$> (match get_peers false lookup_ask (λ k, (6 <=? k)%nat) (lookup_id 2) 4 (lookup_table 1) with Ok r => r | _ => None end)
    = Some [[lookup_node 1]; [lookup_node 2]].
Proof.
  assert (id_ok (lookup_id 1)) as H1 by (apply (bool_decide_unpack _); vm_compute; exact I).
  assert (id_ok (lookup_id 3)) as H3 by (apply (bool_decide_unpack _); vm_compute; exact I).
  destruct (dht_lookup false lookup_ask (λ k, (6 <=? k)%nat) (lookup_id 2) (lookup_table 3) (lookup_table_ok 3 H3) lookup_ask_ids)
    as (_ & _ & Hwait & _).
  split; [|split].
  - vm_compute. by eexists.
  - apply (Hwait 99%nat (lookup_node 3)); [vm_compute; left|reflexivity|reflexivity|reflexivity].
  - vm_compute. reflexivity.
Defined.
