(* ===== verification/DhtExchange.v ===== *)
(** A question of one DHT node and the answer of another, over the wire: [DhtNode]'s handler between two
    [DhtRpc] clients. *)

From stdpp Require Import base numbers list gmap strings.
From Stdlib Require Import ZArith Lia.
From S2P Require Import Prelude Facts Error Bencode BencodeFacts Codec Net IpText Compact Krpc Dht DhtFacts DhtRpc.
From S2P Require Import DhtNode.

(** * How long an encoding can be *)

Fixpoint size_bound (v : Bencode) : Z :=
  match v with
  | BBytes b => zlen b + 21
  | BInteger _ => 23
  | BList items => 2 + foldr Z.add 0 (map size_bound items)
  | BDict entries => 2 + foldr Z.add 0 (map (λ '(k, v), zlen k + 21 + size_bound v) entries)
  end.

Lemma length_dec_digits fuel n acc : (length (dec_digits fuel n acc) ≤ fuel + length acc)%nat.
Proof.
  revert n acc. induction fuel as [|fuel IH]; intros n acc; cbn [dec_digits]; [done|].
  destruct (n <? 10); [cbn; lia|]. specialize (IH (n / 10) ((c_0 + n mod 10) :: acc)). cbn [length] in IH. lia.
Qed.

Lemma zlen_u64_to_string n : zlen (u64_to_string n) ≤ 20.
Proof. unfold zlen, u64_to_string. pose proof (length_dec_digits 20 n []). cbn [length] in *. lia. Qed.

Lemma zlen_encode_bytes b : zlen (encode_bytes b) ≤ zlen b + 21.
Proof. unfold encode_bytes. pose proof (zlen_u64_to_string (zlen b)). unfold zlen in *. rewrite !length_app. cbn [length]. lia. Qed.

Lemma zlen_concat (ls : list bytes) : zlen (concat ls) = foldr Z.add 0 (map zlen ls).
Proof. induction ls as [|l ls IH]; [done|]. cbn [concat map foldr]. rewrite <- IH. unfold zlen. rewrite length_app. lia. Qed.

#[local] Instance sum_perm : Proper ((≡ₚ) ==> eq) (foldr Z.add 0).
Proof. intros l l' H. induction H; cbn [foldr]; lia. Qed.

Lemma zlen_encode v : zlen (encode v) ≤ size_bound v.
Proof.
  induction v as [b|i|items IH|entries IH] using bencode_ind'; cbn [encode size_bound].
  - apply zlen_encode_bytes.
  - unfold encode_integer, i64_to_string. pose proof (zlen_u64_to_string i). pose proof (zlen_u64_to_string (- i)).
    unfold zlen in *. destruct (i <? 0); rewrite !length_app; cbn [length]; lia.
  - assert (zlen (concat (map encode items)) ≤ foldr Z.add 0 (map size_bound items)) as H.
    { rewrite zlen_concat, map_map. induction IH as [|x l Hx _ IHl]; [done|]. cbn [map foldr]. lia. }
    unfold zlen in *. rewrite !length_app. cbn [length]. lia.
  - match goal with |- zlen (_ ++ ?x ++ _) ≤ _ =>
      assert (zlen x ≤ foldr Z.add 0 (map (λ '(k, v), zlen k + 21 + size_bound v) entries)) as H end.
    { rewrite zlen_concat, map_map. unfold sort_entries. rewrite stable_sort_perm, map_map.
      induction IH as [|[k v] l Hx _ IHl]; [done|]. cbn [map foldr snd] in *.
      pose proof (zlen_encode_bytes k). unfold zlen in *. rewrite length_app. lia. }
    unfold zlen in *. rewrite !length_app. cbn [length]. lia.
Qed.

(** * The two messages *)

Lemma closest_fit t target :
  Forall node_ok (dual_find_closest t target 8) → nodes_fit (dual_find_closest t target 8).
Proof.
  intros H. split; [done|]. unfold dual_find_closest, zlen. rewrite length_take. lia.
Qed.

Lemma short_token sha1 secret src : short (generate_token sha1 secret src).
Proof. apply short_small. unfold generate_token. rewrite length_take. lia. Qed.

Lemma get_peers_query_ok tid id info_hash :
  length tid = 2%nat → length id = 20%nat → length info_hash = 20%nat →
  krpc_ok (Query tid (bs "get_peers") (BDict ([(bs "id", BBytes id); (bs "info_hash", BBytes info_hash)] ++ want_entry WANT_CROSS_FAMILY))).
Proof.
  intros Ht Hi Hh. split_and!; [done|short_lit|done|].
  apply (wf_entries _ [bs "id"; bs "info_hash"; bs "want"]); [done|nodup_keys|].
  cbn [app want_entry]. unfold opt_entry. cbn. wf_fields; try apply wf_bytes; try (apply short_small; lia).
  apply wf_list. repeat (apply List.Forall_cons); try apply List.Forall_nil; apply wf_bytes; short_lit.
Qed.

Lemma zlen_encode_nodes (v6 : bool) nodes :
  Forall node_ok nodes → zlen ((if v6 then encode_compact_nodes6 else encode_compact_nodes4) nodes) ≤ 38 * zlen nodes.
Proof.
  intros Hl. rewrite encode_nodes_eq. unfold zlen. rewrite (length_concat_fixed (20 + (octet_count v6 + 2))).
  - rewrite length_map. unfold keep_nodes. pose proof (length_filter (λ a, is_v6 (node_addr a) = v6) nodes).
    destruct v6; cbn [octet_count]; lia.
  - apply Forall_map. eapply Forall_impl; [by apply keep_nodes_of_family|]. intros a Ha. by apply fc_put_length.
Qed.

Lemma nodes_reply_fits tid id token nodes :
  length tid = 2%nat → length id = 20%nat → (length token ≤ 4)%nat → Forall node_ok nodes → (length nodes ≤ 8)%nat →
  zlen (build_get_peers_response_nodes tid id token nodes) ≤ 8192.
Proof.
  intros Ht Hi Hk Hn H8. unfold build_get_peers_response_nodes, krpc_to_bytes.
  etransitivity; [apply zlen_encode|]. pose proof (zlen_encode_nodes false nodes Hn) as H4.
  pose proof (zlen_encode_nodes true nodes Hn) as H6. cbn iota in H4, H6.
  unfold nodes_result, nodes6_entry, opt_entry. revert H4 H6.
  generalize (encode_compact_nodes4 nodes), (encode_compact_nodes6 nodes). intros n4 n6 H4 H6.
  destruct n6 as [|z n6]; [|set (n := z :: n6) in *; clearbody n]; cbn; unfold zlen in *; cbn [length]; lia.
Qed.

Lemma get_peers_query_fits tid id info_hash :
  length tid = 2%nat → length id = 20%nat → length info_hash = 20%nat →
  zlen (build_get_peers tid id info_hash WANT_CROSS_FAMILY) ≤ 8192.
Proof.
  intros Ht Hi Hh. unfold build_get_peers, krpc_to_bytes. etransitivity; [apply zlen_encode|].
  unfold want_entry, opt_entry. cbn. unfold zlen. cbn [length]. lia.
Qed.

Lemma find_node_query_ok tid id target :
  length tid = 2%nat → length id = 20%nat → length target = 20%nat →
  krpc_ok (Query tid (bs "find_node") (BDict ([(bs "id", BBytes id); (bs "target", BBytes target)] ++ want_entry WANT_CROSS_FAMILY))).
Proof.
  intros Ht Hi Hh. split_and!; [done|short_lit|done|].
  apply (wf_entries _ [bs "id"; bs "target"; bs "want"]); [done|nodup_keys|].
  cbn [app want_entry]. unfold opt_entry. cbn. wf_fields; try apply wf_bytes; try (apply short_small; lia).
  apply wf_list. repeat (apply List.Forall_cons); try apply List.Forall_nil; apply wf_bytes; short_lit.
Qed.

Lemma ping_query_ok tid id :
  length tid = 2%nat → length id = 20%nat → krpc_ok (Query tid (bs "ping") (BDict [(bs "id", BBytes id)])).
Proof.
  intros Ht Hi. split_and!; [done|short_lit|done|]. apply (wf_entries _ [bs "id"]); [done|nodup_keys|].
  wf_fields. apply wf_bytes, short_small. lia.
Qed.

Lemma announce_query_ok tid id info_hash port token :
  length tid = 2%nat → length id = 20%nat → length info_hash = 20%nat → in_u16 port → zlen token ≤ 4096 →
  krpc_ok (Query tid (bs "announce_peer") (BDict [(bs "id", BBytes id); (bs "info_hash", BBytes info_hash);
    (bs "port", BInteger port); (bs "token", BBytes token)])).
Proof.
  intros Ht Hi Hh Hp Hk. split_and!; [done|short_lit|done|].
  apply (wf_entries _ [bs "id"; bs "info_hash"; bs "port"; bs "token"]); [done|nodup_keys|].
  wf_fields; first [apply wf_integer; unfold in_u16, in_i64 in *; lia|apply wf_bytes; unfold short, zlen in *; lia].
Qed.

Lemma ping_answer_ok tid id :
  length tid = 2%nat → length id = 20%nat → krpc_ok (Response tid (BDict [(bs "id", BBytes id)])).
Proof.
  intros Ht Hi. split; [done|]. apply (wf_entries _ [bs "id"]); [done|nodup_keys|]. wf_fields. apply wf_bytes, short_small. lia.
Qed.

(** Literal messages are shorter than the receive buffer. *)
Ltac fits := unfold krpc_to_bytes; etransitivity; [apply zlen_encode|]; unfold want_entry, opt_entry; cbn;
  unfold zlen in *; cbn [length]; lia.

(** * The exchange *)

(** A query that arrives whole is given to the handler. *)
Lemma query_arrives h tid method args src s :
  krpc_ok (Query tid method args) → zlen (krpc_to_bytes (Query tid method args)) ≤ 8192 →
  on_datagram (Some h) (krpc_to_bytes (Query tid method args)) src s =
    match h (Query tid method (normalize args)) src with
    | Ok (Some response) => add_sent (src, response) s
    | Ok None => s
    | _ => set_running false s
    end.
Proof.
  intros Hq Hlen. unfold on_datagram. rewrite take_ge by (unfold RECV_SIZE, zlen in *; lia).
  by rewrite krpc_from_to_bytes by done.
Qed.

Ltac other_method := rewrite bool_decide_eq_false_2 by (vm_compute; discriminate).
Ltac this_method := rewrite bool_decide_eq_true_2 by done.

Section answers.
Context `{TokioMutex} (sha1 : bytes → bytes) (sid secret tid cid : bytes) (src : SocketAddr) (s : DhtRpc).
Context (Ht : length tid = 2%nat) (Hc : length cid = 20%nat).

Abbreviation loop rt := (Some (loop_handler sha1 sid secret rt)).

Lemma ping_answered rt : on_datagram (loop rt) (build_ping tid cid) src s = add_sent (src, build_ping_response tid sid) s.
Proof using Ht Hc.
  unfold build_ping. rewrite query_arrives; [|by apply ping_query_ok|fits].
  unfold loop_handler, create_query_handler. by this_method.
Qed.

Lemma announce_answered rt info_hash port token :
  length info_hash = 20%nat → in_u16 port → zlen token ≤ 4096 →
  on_datagram (loop rt) (build_announce_peer tid cid info_hash port token) src s =
    add_sent (src, build_ping_response tid sid) s.
Proof using Ht Hc.
  intros Hh Hp Hk. unfold build_announce_peer. rewrite query_arrives; [|by apply announce_query_ok|fits].
  unfold loop_handler, create_query_handler. do 3 other_method. by this_method.
Qed.

Lemma get_peers_stops rt info_hash :
  length info_hash = 20%nat →
  on_datagram (loop rt) (build_get_peers tid cid info_hash WANT_CROSS_FAMILY) src s = set_running false s.
Proof using Ht Hc.
  intros Hh. pose proof (get_peers_query_ok tid cid info_hash Ht Hc Hh) as Hq. unfold build_get_peers.
  rewrite query_arrives; [|done|by apply (get_peers_query_fits tid cid info_hash)].
  unfold loop_handler, create_query_handler. do 2 other_method. this_method. destruct Hq as (_ & _ & _ & Hargs).
  rewrite !dict_get_bytes_normalize by done. unfold dict_get_bytes. cbn [app]. dict_lookup.
  by rewrite blocking_lock_in_task.
Qed.

Lemma find_node_stops rt target :
  length target = 20%nat →
  on_datagram (loop rt) (build_find_node tid cid target WANT_CROSS_FAMILY) src s = set_running false s.
Proof using Ht Hc.
  intros Hh. pose proof (find_node_query_ok tid cid target Ht Hc Hh) as Hq. unfold build_find_node.
  rewrite query_arrives; [|done|fits].
  unfold loop_handler, create_query_handler. other_method. this_method. destruct Hq as (_ & _ & _ & Hargs).
  rewrite !dict_get_bytes_normalize by done. unfold dict_get_bytes. cbn [app]. dict_lookup.
  by rewrite blocking_lock_in_task.
Qed.
End answers.

(** An answer reaches the query that waits for it. *)
Lemma waiting_query_reads h m src c q :
  krpc_ok m → is_answer m → zlen (krpc_to_bytes m) ≤ 8192 → waits c q → tids c !! q = Some (transaction_id m) →
  results (on_datagram h (krpc_to_bytes m) src c) !! q = Some (Ok (krpc_canon m)).
Proof.
  intros Hm Ha Hlen (tid & Htid & Hw) Eq. rewrite Eq in Htid. injection Htid as <-.
  rewrite (answer_arrives h c q) by done. cbn [finish add_result results]. by rewrite lookup_insert_eq.
Qed.

(** C24: DHT questions and answers over the wire. The receive loop of a node answers a ping and an
    [announce_peer] to the address they came from, with the node's own id, and the query that waits for
    the answer reads that id. A [get_peers] or [find_node] question, though, ends the receive loop and
    nothing is sent: the handler takes the lock of the routing table with [blocking_lock], which panics
    in a task, whatever the table is. An answer with at most eight nodes, as the builder of answers writes it (and as
    other implementations send it), reaches the query that waits for it, which reads the IPv4 nodes of
    it if there are any, otherwise the IPv6 ones, and an error if there are none. *)
Theorem dht_questions_and_answers : ∀ `{TokioMutex} sha1 sid secret cid tid rt src server_addr h s c q,
  length tid = 2%nat → length sid = 20%nat → length cid = 20%nat → waits c q → tids c !! q = Some tid →
  let handler := Some (loop_handler sha1 sid secret rt) in
  (on_datagram handler (build_ping tid cid) src s = add_sent (src, build_ping_response tid sid) s ∧
   (∀ info_hash port token, length info_hash = 20%nat → in_u16 port → zlen token ≤ 4096 →
      on_datagram handler (build_announce_peer tid cid info_hash port token) src s
        = add_sent (src, build_ping_response tid sid) s) ∧
   ∃ m, results (on_datagram h (build_ping_response tid sid) server_addr c) !! q = Some (Ok m) ∧
     parse_ping_response m = Ok sid ∧ announce_peer_result m = Ok tt) ∧
  (∀ target, length target = 20%nat →
     on_datagram handler (build_get_peers tid cid target WANT_CROSS_FAMILY) src s = set_running false s ∧
     on_datagram handler (build_find_node tid cid target WANT_CROSS_FAMILY) src s = set_running false s) ∧
  (∀ token nodes, (length token ≤ 4)%nat → Forall node_ok nodes → (length nodes ≤ 8)%nat →
     ∃ m, results (on_datagram h (build_get_peers_response_nodes tid sid token nodes) server_addr c) !! q = Some (Ok m) ∧
       parse_get_peers_response m =
         match keep_nodes false nodes, keep_nodes true nodes with
         | [], [] => Err Protocol
         | [], n6 => Ok (Nodes n6)
         | n4, _ => Ok (Nodes n4)
         end).
Proof.
  intros Hmutex sha1 sid secret cid tid rt src server_addr h s c q Ht Hs Hc Hw Eq handler. split; [|split].
  - split; [by apply ping_answered|]. split; [intros; by apply announce_answered|].
    eexists. split; [apply waiting_query_reads; try done; [by apply ping_answer_ok|unfold build_ping_response; fits]|].
    pose proof (ping_answer_ok tid sid Ht Hs) as [_ Hwf]. cbn [krpc_canon parse_ping_response].
    rewrite dict_get_bytes_normalize by done. unfold dict_get_bytes. dict_lookup. cbn [ok_or obind].
    by rewrite copy_padded_exact.
  - intros target Hl. split; [by apply get_peers_stops|by apply find_node_stops].
  - intros token nodes Hk Hn H8.
    assert (nodes_fit nodes) as Hfit by (split; [done|unfold zlen; lia]).
    assert (short token) as Hshort by (apply short_small; lia).
    pose proof (nodes_result_wf sid token nodes Hs Hshort Hfit) as Hwf.
    eexists. split; [apply waiting_query_reads; try done; by apply nodes_reply_fits|].
    pose proof (proj2 (get_peers_through_wire tid sid token Ht Hs Hshort) nodes Hfit) as Hread.
    unfold build_get_peers_response_nodes in Hread. by rewrite krpc_from_to_bytes in Hread.
Qed.

(** The lock as it is documented. *)
#[local] Instance documented_mutex : TokioMutex.
Proof. by refine {| blocking_lock in_task rt := if in_task then Panic else Ok rt |}. Defined.

Definition asking : DhtRpc := query_start (mk_addr (V4 [10; 0; 0; 1]) 6881) [7; 7] [] true rpc_new.

Lemma dht_questions_and_answers_witness :
  on_datagram (Some (loop_handler (λ b, b) (lookup_id 255) (bs "secret") (lookup_table 1)))
    (build_get_peers [7; 7] (lookup_id 9) (lookup_id 2) WANT_CROSS_FAMILY) lookup_peer rpc_new = set_running false rpc_new ∧
  ∃ m, results (on_datagram None (build_get_peers_response_nodes [7; 7] (lookup_id 255) [1; 2; 3; 4] [lookup_node 1])
      (mk_addr (V4 [10; 0; 0; 1]) 6881) asking) !! 0%nat = Some (Ok m) ∧
    parse_get_peers_response m = Ok (Nodes [lookup_node 1]).
Proof.
  destruct (dht_questions_and_answers (λ b, b) (lookup_id 255) (bs "secret") (lookup_id 9) [7; 7]
    (lookup_table 1) lookup_peer (mk_addr (V4 [10; 0; 0; 1]) 6881) None rpc_new asking 0)
    as (_ & Hstop & Hnodes).
  - reflexivity.
  - reflexivity.
  - reflexivity.
  - exists [7; 7]. split; reflexivity.
  - reflexivity.
  - split; [exact (proj1 (Hstop (lookup_id 2) eq_refl))|]. destruct (Hnodes [1; 2; 3; 4] [lookup_node 1]) as (m & H1 & H2).
    + cbn. lia.
    + apply (bool_decide_unpack _). vm_compute. exact I.
    + cbn. lia.
    + exists m. split; [exact H1|]. rewrite H2. vm_compute. reflexivity.
Defined.
