(* ===== verification/Seeding.v ===== *)
(** Creating a torrent from local data, and serving it: [crates/torrent/src/session/seed].

    A data source is a record of its operations; a read gives the bytes it put at the front of the
    buffer, at most as many as the buffer holds. *)

From stdpp Require Import base numbers list gmap strings.
From Stdlib Require Import ZArith Lia.
From S2P Require Import Prelude Facts Error Bencode BencodeFacts Compact Piece Metainfo MetainfoFacts MetainfoBuilder.
From S2P Require Import Magnet Step Storage StorageFacts StorageArray.

(** * Data sources: [source.rs] *)

(** [trait DataSource]. *)
Record DataSource : Type := mk_source {
  ds_name : bytes;
  ds_total_size : result Z;
  ds_read_at : Z → nat → result bytes;
}.

(** [impl DataSource for Vec<u8>]. *)
Definition memory_source (data : bytes) : DataSource := {|
  ds_name := bs "memory";
  ds_total_size := Ok (zlen data);
  ds_read_at := λ offset len,
    let start := Z.to_nat offset in
    if (length data <=? start)%nat then Ok []
    else
      let stop := Nat.min (start + len) (length data) in
      slice data start stop
|}.

(** [Path::file_name]: the last component, if it is a normal one. *)
Fixpoint split_slash (p : bytes) (cur : bytes) : list bytes :=
  match p with
  | [] => [cur]
  | c :: p' => if c =? c_slash then cur :: split_slash p' [] else split_slash p' (cur ++ [c])
  end.

Definition file_name (p : bytes) : option bytes :=
  match last (filter (λ c, c ≠ [] ∧ c ≠ bs ".") (split_slash p [])) with
  | Some c => if bool_decide (c = bs "..") then None else Some c
  | None => None
  end.

(** [impl DataSource for PathBuf], for what the file holds; [None] is a file that cannot be opened. One
    read of the operating system gives [got offset len] of the bytes there are. *)
Definition path_source (path : bytes) (content : option bytes) (got : Z → nat → nat) : DataSource := {|
  ds_name := default (bs "<unknown>") (file_name path ≫= from_utf8);
  ds_total_size := ok_or (zlen <$> content) Io;
  ds_read_at := λ offset len,
    let! c := ok_or content Io in
    Ok (take (got offset len) (take len (drop (Z.to_nat offset) c)))
|}.

(** * Hashing: [hash.rs] *)

Definition infer_piece_length (total_size : Z) : Z :=
  if total_size <=? 67108864 then 32 * 1024
  else if total_size <=? 536870912 then 64 * 1024
  else if total_size <=? 1073741824 then 128 * 1024
  else if total_size <=? 8589934592 then 256 * 1024
  else 512 * 1024.

Definition resolve_piece_length (source : DataSource) (user_override : option Z) : result Z :=
  match user_override with
  | Some pl => Ok pl
  | None => let! total := ds_total_size source in Ok (infer_piece_length total)
  end.

Section hashing.
Context (sha1 : bytes → bytes).

(** The loop of [hash_source]: a read that gives nothing ends it with an error, so that every round
    moves on. *)
Fixpoint hash_loop (fuel : nat) (source : DataSource) (buf_size total offset : Z) (builder : MetainfoBuilder)
    : result MetainfoBuilder :=
  match fuel with
  | O => NoFuel
  | S fuel' =>
      if offset <? total then
        let remaining := total - offset in
        let read_len := Z.min buf_size remaining in
        let! d := ds_read_at source offset (Z.to_nat read_len) in
        let! _ := guard_err (bool_decide (d = [])) InvalidInput in
        let! builder' := add_data sha1 builder d in
        hash_loop fuel' source buf_size total (offset + zlen d) builder'
      else Ok builder
  end.

Definition hash_source (source : DataSource) (piece_length : Z) : result MetainfoBuilder :=
  let! total := ds_total_size source in
  let! builder := builder_new piece_length in
  let buf_size := Z.min piece_length (16 * 1024 * 1024) in
  hash_loop (S (Z.to_nat total)) source buf_size total 0 builder.

(** * The builder: [mod.rs] *)

Record SeedBuilder : Type := mk_seed_builder {
  sb_source : DataSource;
  sb_piece_length : option Z;
  sb_announce : option bytes;
  sb_announce_list : option (list (list bytes));
  sb_name : option bytes;
  sb_comment : option bytes;
  sb_created_by : option bytes;
  sb_is_private : bool;
  sb_super_seed : bool;
}.

Definition seed_builder_new (source : DataSource) : SeedBuilder :=
  mk_seed_builder source None None None None None None false false.

Definition with_piece_length (n : Z) (b : SeedBuilder) : SeedBuilder :=
  mk_seed_builder (sb_source b) (Some n) (sb_announce b) (sb_announce_list b) (sb_name b) (sb_comment b)
    (sb_created_by b) (sb_is_private b) (sb_super_seed b).
Definition with_announce (url : bytes) (b : SeedBuilder) : SeedBuilder :=
  mk_seed_builder (sb_source b) (sb_piece_length b) (Some url) (sb_announce_list b) (sb_name b) (sb_comment b)
    (sb_created_by b) (sb_is_private b) (sb_super_seed b).
Definition with_announce_list (tiers : list (list bytes)) (b : SeedBuilder) : SeedBuilder :=
  mk_seed_builder (sb_source b) (sb_piece_length b) (sb_announce b) (Some tiers) (sb_name b) (sb_comment b)
    (sb_created_by b) (sb_is_private b) (sb_super_seed b).
Definition with_name (name : bytes) (b : SeedBuilder) : SeedBuilder :=
  mk_seed_builder (sb_source b) (sb_piece_length b) (sb_announce b) (sb_announce_list b) (Some name) (sb_comment b)
    (sb_created_by b) (sb_is_private b) (sb_super_seed b).
Definition with_comment (c : bytes) (b : SeedBuilder) : SeedBuilder :=
  mk_seed_builder (sb_source b) (sb_piece_length b) (sb_announce b) (sb_announce_list b) (sb_name b) (Some c)
    (sb_created_by b) (sb_is_private b) (sb_super_seed b).
Definition with_created_by (c : bytes) (b : SeedBuilder) : SeedBuilder :=
  mk_seed_builder (sb_source b) (sb_piece_length b) (sb_announce b) (sb_announce_list b) (sb_name b) (sb_comment b)
    (Some c) (sb_is_private b) (sb_super_seed b).
Definition private (b : SeedBuilder) : SeedBuilder :=
  mk_seed_builder (sb_source b) (sb_piece_length b) (sb_announce b) (sb_announce_list b) (sb_name b) (sb_comment b)
    (sb_created_by b) true (sb_super_seed b).
Definition with_super_seed (enabled : bool) (b : SeedBuilder) : SeedBuilder :=
  mk_seed_builder (sb_source b) (sb_piece_length b) (sb_announce b) (sb_announce_list b) (sb_name b) (sb_comment b)
    (sb_created_by b) (sb_is_private b) enabled.

(** [struct PreparedTorrent]. *)
Record PreparedTorrent : Type := mk_prepared {
  pt_source : DataSource;
  pt_metainfo : Metainfo;
  pt_torrent_bytes : bytes;
  pt_super_seed : bool;
}.

(** [SeedBuilder::hash]; the private flag is not used. *)
Definition described (b : SeedBuilder) (m : Metainfo) : Metainfo := {|
  announce := announce m;
  announce_list := default (announce_list m) (sb_announce_list b);
  info := info m; url_list := url_list m; httpseeds := httpseeds m; creation_date := creation_date m;
  comment := match sb_comment b with Some c => Some c | None => comment m end;
  created_by := match sb_created_by b with Some c => Some c | None => created_by m end;
  encoding := encoding m
|}.

Definition hash (b : SeedBuilder) : result PreparedTorrent :=
  let! piece_length := resolve_piece_length (sb_source b) (sb_piece_length b) in
  let! builder := hash_source (sb_source b) piece_length in
  let name := default (ds_name (sb_source b)) (sb_name b) in
  let m := described b (finish sha1 builder (default [] (sb_announce b)) (Single name (b_total_length builder)) [] []) in
  let! torrent_bytes := ok_or (metainfo_to_bytes m) InvalidInput in
  Ok (mk_prepared (sb_source b) m torrent_bytes (sb_super_seed b)).

(** [PreparedTorrent::magnet_uri] and [Session::magnet_uri]. *)
Definition magnet_of (m : Metainfo) : bytes :=
  let name := match mode (info m) with Single name _ | Multiple name _ => name end in
  bs "magnet:?xt=urn:btih:" ++ hex_encode (info_hash sha1 m) ++ bs "&dn=" ++ name.
End hashing.

(** * A storage over a data source: [storage.rs] *)

Record DataSourceStorage : Type := mk_source_storage {
  dss_source : DataSource;
  dss_piece_length : Z;
  dss_num_pieces : nat;
  dss_total_size : Z;
}.

Definition source_storage_new (source : DataSource) (i : Info) : result DataSourceStorage :=
  let! total := total_size i in
  Ok (mk_source_storage source (piece_length i) (Metainfo.num_pieces i) total).

Definition source_piece_offset (s : DataSourceStorage) (index : Z) : result Z :=
  checked_mul_panic index (dss_piece_length s).

Definition source_piece_len (s : DataSourceStorage) (index : Z) : result Z :=
  if Z.of_nat (dss_num_pieces s) <=? index then Ok 0
  else
    let! start := checked_mul_panic index (dss_piece_length s) in
    if index =? Z.of_nat (dss_num_pieces s) - 1 then checked_sub_panic (dss_total_size s) start
    else Ok (dss_piece_length s).

(** The bytes that were not read are zero. *)
Definition fill_read (d : bytes) (len : nat) : step bytes unit :=
  modify (λ buf, d ++ replicate (len - length d) 0 ++ drop len buf).

Definition source_read_block (s : DataSourceStorage) (piece offset : Z) : step bytes unit :=
  do! start := lift (source_piece_offset s piece) in
  do! global_offset := lift (checked_add_panic u64_max start offset) in
  do! len := read length in
  do! d := lift (ds_read_at (dss_source s) global_offset len) in
  fill_read d len.

Definition source_read_piece (s : DataSourceStorage) (index : Z) : step bytes unit :=
  do! offset := lift (source_piece_offset s index) in
  do! len := lift (source_piece_len s index) in
  do! buf_len := read length in
  do! _ := lift (if (Z.to_nat len <=? buf_len)%nat then Ok tt else Panic) in
  do! d := lift (ds_read_at (dss_source s) offset (Z.to_nat len)) in
  fill_read d (Z.to_nat len).

(** [impl Storage for DataSourceStorage]: what is written is thrown away. *)
#[export] Instance source_storage : Storage DataSourceStorage unit := {|
  read_block := λ s _, source_read_block s;
  read_piece := λ s _, source_read_piece s;
  write_block := λ _ _ _ _, sret tt;
  write_piece := λ _ _ _, sret tt;
  prepare := λ _, sret tt;
|}.

(** * Verification: [verify.rs] *)

Section verify.
Context (sha1 : bytes → bytes) {T W : Type} `{Storage T W} (t : T) (w : W) (i : Info).

Definition verify_piece_len (k : nat) : result Z :=
  if (k =? Metainfo.num_pieces i - 1)%nat then
    let! total := total_size i in
    let! start := checked_mul_panic (Z.of_nat k) (piece_length i) in
    checked_sub_panic total start
  else Ok (piece_length i).

(** The loop over the pieces: the buffer is used again for every piece. *)
Fixpoint verify_loop (todo k : nat) (buf : bytes) (pm : PieceManager) (verified : nat) : result (PieceManager * nat) :=
  match todo with
  | O => Ok (pm, verified)
  | S todo' =>
      let idx := as_u32 (Z.of_nat k) in
      let! actual_len := verify_piece_len k in
      let! _ := if (Z.to_nat actual_len <=? length buf)%nat then Ok tt else Panic in
      let '(read_buf, r) := read_piece t w idx (take (Z.to_nat actual_len) buf) in
      let! _ := r in
      let! expected := index (pieces i) k in
      let buf' := read_buf ++ drop (Z.to_nat actual_len) buf in
      if bool_decide (sha1 read_buf = expected) then verify_loop todo' (S k) buf' (set_piece pm idx) (S verified)
      else verify_loop todo' (S k) buf' pm verified
  end.

Definition verify_existing (pm : PieceManager) : result (PieceManager * nat) :=
  let! buf := zeroed (piece_length i) in
  verify_loop (Metainfo.num_pieces i) 0 buf pm 0.
End verify.

(** * What hashing a data source makes of it, and what the seeder's storage and verification give back:
    about [Seeding]. *)

(** * What a source promises *)

(** The source has a content: a read inside of it gives some of the bytes there. *)
Class HasContent (source : DataSource) (data : bytes) : Prop := {
  content_size : ds_total_size source = Ok (zlen data);
  content_read offset len :
    0 ≤ offset < zlen data → (0 < len)%nat →
    ∃ n, (0 < n)%nat ∧ ds_read_at source offset len = Ok (take n (take len (drop (Z.to_nat offset) data)));
}.

(** The contract of the trait: fewer bytes than the buffer holds only at the end. *)
Class FullReads (source : DataSource) (data : bytes) : Prop := {
  full_size : ds_total_size source = Ok (zlen data);
  full_read offset len : 0 ≤ offset → ds_read_at source offset len = Ok (take len (drop (Z.to_nat offset) data));
}.

#[export] Instance full_has_content source data : FullReads source data → HasContent source data.
Proof.
  intros [Hs Hr]. split; [done|]. intros offset len Ho Hl. exists len. split; [done|].
  rewrite Hr by lia. by rewrite take_take, Nat.min_id.
Qed.

#[export] Instance memory_full data : FullReads (memory_source data) data.
Proof.
  split; [done|]. intros offset len Ho. cbn. destruct (Nat.leb_spec (length data) (Z.to_nat offset)).
  - rewrite drop_ge by done. by rewrite take_nil.
  - unfold slice. rewrite (proj2 (Nat.leb_le _ _)), (proj2 (Nat.leb_le _ _)) by lia. cbn [andb]. f_equal.
    destruct (decide (Z.to_nat offset + len ≤ length data)%nat).
    + rewrite Nat.min_l by done. f_equal. lia.
    + rewrite Nat.min_r by lia. rewrite !take_ge by (rewrite length_drop; lia). done.
Qed.

(** A file, when the operating system always reads something. *)
Lemma path_has_content path data got :
  (∀ offset len, (0 < len)%nat → (0 < got offset len)%nat) → HasContent (path_source path (Some data) got) data.
Proof.
  intros Hg. split; [done|]. intros offset len Ho Hl. cbn. exists (got offset len). split; [by apply Hg|done].
Qed.

(** * Pieces of a content *)

Lemma drop_concat_fixed w (cs : list bytes) r k :
  Forall (λ c, length c = w) cs → (k ≤ length cs)%nat → drop (k * w) (concat cs ++ r) = concat (drop k cs) ++ r.
Proof.
  intros HF. revert k. induction HF as [|c cs Hc HF IH]; intros k Hk; cbn [length] in Hk.
  - by assert (k = 0%nat) as -> by lia.
  - destruct k as [|k]; [done|]. cbn [concat]. rewrite <- app_assoc.
    replace (S k * w)%nat with (w + k * w)%nat by lia. rewrite <- drop_drop, drop_app_length' by done.
    rewrite IH by lia. done.
Qed.

Lemma lookup_split_pieces w data k :
  (0 < w)%nat →
  split_pieces w data !! k = if (k * w <? length data)%nat then Some (take w (drop (k * w) data)) else None.
Proof.
  intros Hw. destruct (chunks_exact_inv w data Hw) as (E & _ & HF). unfold split_pieces.
  assert (length (chunks_remainder w data) < w)%nat as Hr.
  { unfold chunks_remainder. rewrite length_drop. pose proof (Nat.div_mod_eq (length data) w).
    pose proof (Nat.mod_upper_bound (length data) w ltac:(lia)). lia. }
  set (cs := chunks_exact w data) in *. set (r := chunks_remainder w data) in *.
  assert (length data = length cs * w + length r)%nat as Hlen.
  { rewrite E at 1. rewrite length_app, (length_concat_fixed w) by done. lia. }
  assert ((k * w <? length data)%nat = ((k <? length cs) || ((k =? length cs) && (0 <? length r)))%nat) as ->.
  { apply eq_true_iff_eq. rewrite orb_true_iff, andb_true_iff, !Nat.ltb_lt, Nat.eqb_eq. nia. }
  destruct (Nat.ltb_spec k (length cs)) as [Hk|Hk]; cbn [orb].
  - rewrite lookup_app_l by done. destruct (lookup_lt_is_Some_2 cs k Hk) as [c Hc]. rewrite Hc. f_equal.
    rewrite E at 1. rewrite drop_concat_fixed by (done || lia). rewrite (drop_S cs c k) by done. cbn [concat].
    rewrite <- app_assoc, take_app_length'; [done|]. rewrite Forall_forall in HF. symmetry. apply HF. by eapply list_elem_of_lookup_2.
  - rewrite lookup_app_r by done. destruct (Nat.eqb_spec k (length cs)) as [->|Hne]; cbn [andb].
    + rewrite Nat.sub_diag, E at 1. destruct r as [|z r'] eqn:Er; [done|]. cbn [length Nat.ltb Nat.leb lookup list_lookup].
      f_equal. rewrite drop_concat_fixed by (done || lia). rewrite drop_ge by done. cbn [concat app].
      by rewrite take_ge by lia.
    + apply lookup_ge_None_2. destruct r; cbn [length]; lia.
Qed.

Lemma length_split_pieces_Z w data :
  (0 < w)%nat → zlen (split_pieces w data) = (zlen data + Z.of_nat w - 1) / Z.of_nat w.
Proof.
  intros Hw. assert (∀ k, (k < length (split_pieces w data))%nat ↔ (k * w < length data)%nat) as H.
  { intros k. rewrite <- lookup_lt_is_Some, lookup_split_pieces by done.
    destruct (Nat.ltb_spec (k * w) (length data)) as [Hk|Hk]; split; [done|by eexists|by intros [? ?]|lia]. }
  unfold zlen. set (n := length (split_pieces w data)) in *. apply Z.div_unique with
    (r := Z.of_nat (length data) + Z.of_nat w - 1 - Z.of_nat w * Z.of_nat n); [left|lia].
  assert (¬ (n * w < length data)%nat) as H1 by (rewrite <- H; lia).
  destruct (decide (n = 0%nat)) as [E|E]; [rewrite E in *; lia|].
  assert ((n - 1) * w < length data)%nat as H2 by (apply H; lia). nia.
Qed.

(** * Hashing *)

Section hashing.
Context (sha1 : bytes → bytes).

Lemma hash_loop_ok source data `{!HasContent source data} buf_size fuel offset b :
  0 < buf_size → zlen data ≤ u64_max → 0 ≤ offset ≤ zlen data → builder_inv sha1 (take (Z.to_nat offset) data) b →
  (Z.to_nat (zlen data - offset) < fuel)%nat →
  ∃ b', hash_loop sha1 fuel source buf_size (zlen data) offset b = Ok b' ∧ builder_inv sha1 data b' ∧
    b_piece_length b' = b_piece_length b.
Proof.
  intros Hbs Hu. revert offset b. induction fuel as [|fuel IH]; intros offset b Ho Hi Hf; [lia|]. cbn [hash_loop].
  destruct (Z.ltb_spec offset (zlen data)) as [Hlt|Hge].
  - set (len := Z.to_nat (Z.min buf_size (zlen data - offset))).
    destruct (content_read offset len) as (n & Hn & ->); [lia|lia|]. cbn [obind].
    set (d := take n (take len (drop (Z.to_nat offset) data))).
    assert (length d = n `min` len)%nat as Hd.
    { unfold d. rewrite !length_take, length_drop. unfold zlen in *. lia. }
    rewrite (bool_decide_eq_false_2 (d = [])) by (intros E; rewrite E in Hd; cbn in Hd; lia). cbn [guard_err obind].
    assert (take (Z.to_nat (offset + zlen d)) data = take (Z.to_nat offset) data ++ d) as Happ.
    { replace (Z.to_nat (offset + zlen d)) with (Z.to_nat offset + length d)%nat by (unfold zlen; lia).
      rewrite <- take_take_drop. f_equal. rewrite Hd. unfold d. by rewrite take_take. }
    assert (offset + zlen d ≤ zlen data) as Hle by (unfold zlen in *; lia).
    destruct (add_data_inv sha1 _ b d Hi) as (b1 & -> & Hi1 & Hp1).
    { rewrite <- Happ. unfold zlen in *. rewrite length_take. lia. }
    cbn [obind]. rewrite <- Happ in Hi1. destruct (IH (offset + zlen d) b1) as (b2 & -> & Hi2 & Hp2);
      [unfold zlen in *; lia|done|unfold zlen in *; lia|].
    exists b2. split_and!; [done|done|congruence].
  - exists b. split_and!; [done| |done]. rewrite take_ge in Hi by (unfold zlen in *; lia). done.
Qed.

Lemma hash_source_ok source data `{!HasContent source data} pl :
  0 < pl → zlen data ≤ u64_max →
  ∃ b, hash_source sha1 source pl = Ok b ∧ builder_inv sha1 data b ∧ b_piece_length b = pl.
Proof.
  intros Hpl Hu. unfold hash_source. rewrite content_size. cbn [obind]. unfold builder_new.
  rewrite (proj2 (Z.ltb_lt _ _)) by done. cbn [obind].
  apply (hash_loop_ok source data (Z.min pl (16 * 1024 * 1024)) _ 0 (mk_builder pl [] [] 0)); [lia|done|pose proof (zlen_nonneg data); lia| |lia].
  split_and!; [done|done|]. exists []. split_and!; [done|done|constructor|cbn; lia].
Qed.

(** The texts of a builder, under which its torrent is a well-formed file. *)
Definition builder_ok (b : SeedBuilder) : Prop :=
  text_ok (default [] (sb_announce b)) ∧
  Forall (λ tier, tier ≠ [] ∧ Forall text_ok tier) (default [] (sb_announce_list b)) ∧
  text_ok (default (ds_name (sb_source b)) (sb_name b)) ∧
  (∀ c, sb_comment b = Some c → text_ok c) ∧ (∀ c, sb_created_by b = Some c → text_ok c).

(** The piece length that is used. *)
Definition used_piece_length (b : SeedBuilder) (data : bytes) : Z :=
  default (infer_piece_length (zlen data)) (sb_piece_length b).

Lemma infer_piece_length_range n : 0 < infer_piece_length n ≤ 512 * 1024.
Proof. unfold infer_piece_length. repeat case_bool; lia. Qed.

(** The torrent of some content, whatever way the content is read: the pieces are the hashes of the
    content cut at the piece length. *)
Definition seed_torrent (b : SeedBuilder) (data : bytes) : Metainfo :=
  let pl := used_piece_length b data in
  let hashes := map sha1 (split_pieces (Z.to_nat pl) data) in
  let md := Single (default (ds_name (sb_source b)) (sb_name b)) (zlen data) in
  {| announce := default [] (sb_announce b);
     announce_list := default [] (sb_announce_list b);
     info := {| piece_length := pl; pieces := hashes; mode := md;
                raw_info := RawBytes (encode (build_info_dict pl (concat hashes) md)) |};
     url_list := []; httpseeds := []; creation_date := None;
     comment := sb_comment b; created_by := sb_created_by b; encoding := None |}.

Lemma hash_ok b data `{!HasContent (sb_source b) data} :
  (∀ x, length (sha1 x) = 20%nat) → builder_ok b → 0 < used_piece_length b data ≤ u32_max →
  20 * (zlen data + 1) ≤ i64_max →
  ∃ d, hash sha1 b = Ok (mk_prepared (sb_source b) (seed_torrent b data) d (sb_super_seed b)) ∧
    metainfo_from_bytes d = Ok (seed_torrent b data).
Proof.
  intros Hsha (Ha & Hal & Hn & Hc & Hcb) Hpl Hlen. pose proof (zlen_nonneg data) as Hnn. unfold hash.
  assert (resolve_piece_length (sb_source b) (sb_piece_length b) = Ok (used_piece_length b data)) as ->.
  { unfold resolve_piece_length, used_piece_length. destruct (sb_piece_length b); [done|]. by rewrite content_size. }
  cbn [obind]. destruct (hash_source_ok (sb_source b) data (used_piece_length b data)) as (mb & -> & Hi & Hp); [lia|lia|].
  cbn [obind]. pose proof (builder_pieces sha1 data mb Hi) as Hps. rewrite Hp in Hps.
  assert (b_total_length mb = zlen data) as -> by apply Hi.
  assert (described b (finish sha1 mb (default [] (sb_announce b))
    (Single (default (ds_name (sb_source b)) (sb_name b)) (zlen data)) [] []) = seed_torrent b data) as ->.
  { unfold described, finish, seed_torrent. cbn. rewrite Hps, Hp.
    by destruct (sb_announce_list b), (sb_comment b), (sb_created_by b). }
  set (m := seed_torrent b data). set (md := mode (info m)).
  assert (mode_text_ok md) as Hmd by (split; [done|lia]).
  assert (Forall (λ h, length h = 20%nat) (pieces (info m))) as H20.
  { apply Forall_map, Forall_forall. intros x _. apply Hsha. }
  assert (short (concat (pieces (info m)))) as Hshort.
  { unfold short, zlen in *. rewrite (length_concat_fixed 20) by done. cbn [pieces info m seed_torrent]. rewrite length_map.
    pose proof (length_split_pieces (Z.to_nat (used_piece_length b data)) data ltac:(lia)). lia. }
  destruct (written_from_bytes m (encode (build_info_dict (used_piece_length b data) (concat (pieces (info m))) md))
    (normalize (build_info_dict (used_piece_length b data) (concat (pieces (info m))) md))) as (d & -> & Hd).
  - unfold metainfo_ok. cbn. split_and!; done.
  - done.
  - intros y. apply decode_encode. by apply info_dict_wf.
  - by rewrite parse_built_info.
  - cbn [ok_or obind]. exists d. done.
Qed.
End hashing.
