(* ===== verification/SeedVerify.v ===== *)
(** Verification of stored data against the hashes of a torrent, and the seeder's storage: a storage that
    reads as an array is all that [verify_existing] needs, and both [FileStorage] and
    [DataSourceStorage] are one. *)

From stdpp Require Import base numbers list gmap strings.
From Stdlib Require Import ZArith Lia.
From S2P Require Import Prelude Facts Error Metainfo MetainfoFacts MetainfoBuilder Magnet Piece Step Storage.
From S2P Require Import StorageFacts StorageArray Seeding.

(** * A data source as storage *)

(** The storage was made for the content of its source. *)
Definition source_storage_ok (s : DataSourceStorage) (data : bytes) : Prop :=
  0 < dss_piece_length s ≤ u64_max ∧ dss_total_size s = zlen data ∧ zlen data ≤ i64_max ∧
  (Z.of_nat (dss_num_pieces s) - 1) * dss_piece_length s < zlen data ≤ Z.of_nat (dss_num_pieces s) * dss_piece_length s.

Lemma source_pieces s data p :
  source_storage_ok s data → 0 ≤ p → p * dss_piece_length s < zlen data →
  source_piece_offset s p = Ok (p * dss_piece_length s) ∧
  source_piece_len s p = Ok (piece_size (dss_piece_length s) (zlen data) p).
Proof.
  intros (Hpl & Ht & Hu & Hfit) Hp Hin.
  unfold source_piece_offset, source_piece_len, checked_mul_panic, checked_sub_panic, piece_size.
  rewrite (proj2 (Z.leb_le (p * dss_piece_length s) _)) by lia. split; [done|]. assert (p < Z.of_nat (dss_num_pieces s)) as Hlt by nia.
  rewrite (proj2 (Z.leb_gt _ _)) by lia. cbn [obind].
  destruct (Z.eqb_spec p (Z.of_nat (dss_num_pieces s) - 1)) as [->|Hne].
  - rewrite Ht, (proj2 (Z.leb_le _ _)) by lia. f_equal. nia.
  - f_equal. nia.
Qed.

(** A source that keeps the contract of the trait makes a storage that reads as its content. *)
#[export] Instance source_storage_reads s data :
  FullReads (dss_source s) data → source_storage_ok s data →
  FlatReads s (dss_piece_length s) (zlen data) (λ _ : unit, True) (λ _, data).
Proof.
  intros [_ Hr] Hok. pose proof Hok as (Hpl & Ht & Hu & Hfit). split.
  - done.
  - intros [] p o buf _ Hp Ho Hb. pose proof (zlen_nonneg buf). cbn.
    unfold source_read_block, source_piece_offset, checked_mul_panic. rewrite (proj2 (Z.leb_le _ _)) by nia.
    unfold sbind, lift, read. unfold checked_add_panic. rewrite (proj2 (Z.leb_le _ _)) by nia. rewrite Hr by nia. unfold fill_read, modify. f_equal.
    rewrite (drop_ge buf) by done. rewrite app_nil_r. replace (length buf - _)%nat with 0%nat; [by rewrite app_nil_r|].
    rewrite length_take, length_drop. unfold zlen in *. nia.
  - intros [] p buf _ Hp Hin Hb. destruct (source_pieces s data p Hok Hp Hin) as [Eo El].
    cbn. unfold source_read_piece. rewrite Eo, El. unfold sbind, lift, read, piece_size in *.
    rewrite (proj2 (Nat.leb_le _ _)) by (unfold zlen in *; lia). rewrite Hr by nia.
    unfold fill_read, modify. f_equal.
    assert (take (Z.to_nat (Z.min (dss_piece_length s) (zlen data - p * dss_piece_length s))) (drop (Z.to_nat (p * dss_piece_length s)) data)
      = take (Z.to_nat (dss_piece_length s)) (drop (Z.to_nat (p * dss_piece_length s)) data)) as ->.
    { destruct (Z.le_ge_cases (dss_piece_length s) (zlen data - p * dss_piece_length s)).
      - by rewrite Z.min_l by done.
      - rewrite Z.min_r by done. rewrite !take_ge by (rewrite length_drop; unfold zlen in *; nia). done. }
    set (d := take (Z.to_nat (dss_piece_length s)) _).
    assert (length d = Z.to_nat (Z.min (dss_piece_length s) (zlen data - p * dss_piece_length s))) as Hd.
    { unfold d. rewrite length_take, length_drop. unfold zlen in *. nia. }
    rewrite overwrite_in by (rewrite Hd; unfold zlen in *; lia). cbn [take app]. rewrite <- Hd, Nat.sub_diag. done.
Qed.

(** * Verification *)

Section verify.
Context (sha1 : bytes → bytes) {T W : Type} `{Storage T W} (t : T) (w : W) (i : Info).
Context {ready : W → Prop} {flat : W → bytes} {total : Z} `{!FlatReads t (piece_length i) total ready flat}.
Context (Hw : ready w) (Hpl : 0 < piece_length i ≤ i64_max) (Htotal : total_size i = Ok total) (Hu : total ≤ u64_max).
Context (Hfit : (Z.of_nat (Metainfo.num_pieces i) - 1) * piece_length i < total ≤ Z.of_nat (Metainfo.num_pieces i) * piece_length i).
Context (Hidx : Z.of_nat (Metainfo.num_pieces i) ≤ 2 ^ 32).

(** The stored piece has the hash of the torrent. *)
Definition stored (k : nat) : bool :=
  bool_decide (pieces i !! k = Some (sha1 (piece_of (piece_length i) (flat w) (Z.of_nat k)))).

Lemma verify_piece_len_ok k :
  (k < Metainfo.num_pieces i)%nat →
  verify_piece_len i k = Ok (piece_size (piece_length i) total (Z.of_nat k)).
Proof using All.
  intros Hk. unfold verify_piece_len, piece_size. destruct (Nat.eqb_spec k (Metainfo.num_pieces i - 1)) as [->|Hne].
  - rewrite Htotal. cbn [obind]. unfold checked_mul_panic, checked_sub_panic. rewrite (proj2 (Z.leb_le _ _)) by nia.
    cbn [obind]. rewrite (proj2 (Z.leb_le _ _)) by nia. f_equal. nia.
  - f_equal. nia.
Qed.

Lemma piece_of_length k :
  (k < Metainfo.num_pieces i)%nat →
  length (piece_of (piece_length i) (flat w) (Z.of_nat k)) = Z.to_nat (piece_size (piece_length i) total (Z.of_nat k)).
Proof using All.
  intros Hk. unfold piece_of, piece_size. rewrite length_take, length_drop. pose proof (flat_length w Hw) as Hfl.
  unfold zlen in Hfl. nia.
Qed.

Lemma verify_loop_ok todo k buf pm v :
  (k + todo = Metainfo.num_pieces i)%nat → length buf = Z.to_nat (piece_length i) → pm_ok pm →
  Piece.num_pieces pm = Metainfo.num_pieces i →
  ∃ pm', verify_loop sha1 t w i todo k buf pm v = Ok (pm', (v + length (filter (λ j, stored j = true) (seq k todo)))%nat) ∧
    pm_ok pm' ∧ Piece.num_pieces pm' = Metainfo.num_pieces i ∧
    ∀ j : nat, has_piece pm' (Z.of_nat j) = has_piece pm (Z.of_nat j) || (bool_decide (k ≤ j < k + todo)%nat && stored j).
Proof using All.
  revert k buf pm v. induction todo as [|todo IH]; intros k buf pm v Hk Hbuf Hpm Hn; cbn [verify_loop seq].
  - exists pm. rewrite filter_nil, Nat.add_0_r. split_and!; [done..|]. intros j. rewrite bool_decide_false by lia. by rewrite orb_false_r.
  - assert (k < Metainfo.num_pieces i)%nat as Hlt by lia. rewrite verify_piece_len_ok by done. cbn [obind].
    set (a := piece_size (piece_length i) total (Z.of_nat k)).
    assert (0 < a ≤ piece_length i) as Ha by (unfold a, piece_size; nia).
    rewrite (proj2 (Nat.leb_le _ _)) by lia. unfold as_u32. rewrite (Z.mod_small (Z.of_nat k)) by lia.
    rewrite flat_read_piece; [|done|lia|unfold a, piece_size in Ha; nia|unfold a, piece_size in *; unfold zlen; rewrite length_take; lia].
    cbn [obind]. fold (piece_of (piece_length i) (flat w) (Z.of_nat k)).
    pose proof (piece_of_length k Hlt) as Hlen. fold a in Hlen.
    set (d := piece_of (piece_length i) (flat w) (Z.of_nat k)) in *.
    assert (overwrite (take (Z.to_nat a) buf) 0 d = d) as ->.
    { rewrite overwrite_in by (rewrite length_take; lia). rewrite drop_ge by (rewrite length_take; lia). cbn [take app].
      by rewrite app_nil_r. }
    destruct (lookup_lt_is_Some_2 (pieces i) k Hlt) as [e He]. unfold index. rewrite He. cbn [obind].
    assert (stored k = bool_decide (sha1 d = e)) as Hst.
    { unfold stored. rewrite He. apply bool_decide_ext. unfold d. split; [by intros [= ->]|by intros ->]. }
    assert (length (d ++ drop (Z.to_nat a) buf) = Z.to_nat (piece_length i)) as Hbuf'
      by (rewrite length_app, length_drop; lia).
    rewrite filter_cons, Hst. destruct (bool_decide_reflect (sha1 d = e)) as [Eh|Eh].
    + destruct (IH (S k) (d ++ drop (Z.to_nat a) buf) (set_piece pm (Z.of_nat k)) (S v)) as (pm' & -> & Hpm' & Hn' & Hhas);
        [lia|done|by apply set_piece_ok|by unfold set_piece; destruct (_ <? _)%nat|].
      exists pm'. rewrite decide_True by done. cbn [length]. split; [f_equal; f_equal; lia|]. split_and!; [done..|].
      intros j. rewrite Hhas, has_piece_set, Hn by (done || lia).
      destruct (decide (j = k)) as [->|Hj].
      * rewrite (bool_decide_true (_ ∧ _)) by lia. rewrite (bool_decide_true (k ≤ k < k + S todo)%nat) by lia.
        rewrite Hst. cbn [orb andb]. by rewrite orb_true_r.
      * rewrite (bool_decide_false (_ ∧ _)) by lia. cbn [orb]. f_equal. f_equal. apply bool_decide_ext. lia.
    + destruct (IH (S k) (d ++ drop (Z.to_nat a) buf) pm v) as (pm' & -> & Hpm' & Hn' & Hhas); [lia|done|done|done|].
      exists pm'. rewrite decide_False by done. split_and!; [done..|]. intros j. rewrite Hhas. f_equal.
      destruct (decide (j = k)) as [->|Hj].
      * rewrite Hst. by rewrite !andb_false_r.
      * f_equal. apply bool_decide_ext. lia.
Qed.

Lemma verify_existing_ok pm :
  pm_ok pm → Piece.num_pieces pm = Metainfo.num_pieces i →
  ∃ pm', verify_existing sha1 t w i pm = Ok (pm', length (filter (λ j, stored j = true) (seq 0 (Metainfo.num_pieces i)))) ∧
    pm_ok pm' ∧ Piece.num_pieces pm' = Metainfo.num_pieces i ∧
    ∀ j, (j < Metainfo.num_pieces i)%nat → has_piece pm' (Z.of_nat j) = has_piece pm (Z.of_nat j) || stored j.
Proof using All.
  intros Hpm Hn. unfold verify_existing, zeroed. rewrite (proj2 (Z.leb_le _ _)) by lia. cbn [obind].
  destruct (verify_loop_ok (Metainfo.num_pieces i) 0 (replicate (Z.to_nat (piece_length i)) 0) pm 0)
    as (pm' & -> & Hpm' & Hn' & Hhas); [lia|apply length_replicate|done|done|].
  exists pm'. split_and!; [done..|]. intros j Hj. rewrite Hhas, bool_decide_true by lia. done.
Qed.
End verify.

(** * The seeder *)

Lemma seed_layout sha1 b data :
  0 < used_piece_length b data →
  let i := info (seed_torrent sha1 b data) in
  (Z.of_nat (Metainfo.num_pieces i) - 1) * piece_length i < zlen data ≤ Z.of_nat (Metainfo.num_pieces i) * piece_length i.
Proof.
  intros Hpl. cbn zeta. unfold Metainfo.num_pieces. cbn [seed_torrent info pieces piece_length]. rewrite length_map.
  set (pl := used_piece_length b data) in *. pose proof (length_split_pieces_Z (Z.to_nat pl) data ltac:(lia)) as H.
  unfold zlen at 1 in H. rewrite H, Z2Nat.id by lia. pose proof (zlen_nonneg data).
  pose proof (Z.mul_div_le (zlen data + pl - 1) pl Hpl). pose proof (Z.mod_pos_bound (zlen data + pl - 1) pl Hpl).
  pose proof (Z.div_mod (zlen data + pl - 1) pl ltac:(lia)). nia.
Qed.

Lemma all_pieces_complete pm :
  pm_ok pm → Z.of_nat (Piece.num_pieces pm) ≤ u32_max →
  (∀ j, (j < Piece.num_pieces pm)%nat → has_piece pm (Z.of_nat j) = true) → missing_pieces pm = [].
Proof.
  intros Hok Hn Hall. apply elem_of_nil_inv. intros x Hx.
  assert (0 ≤ x) as H0.
  { unfold missing_pieces, indices_where in Hx. apply list_elem_of_fmap in Hx as (e & -> & _). unfold as_u32. by apply Z.mod_pos_bound. }
  apply missing_pieces_spec in Hx as [Hlt Hfalse]; [|done..]. specialize (Hall (Z.to_nat x)). rewrite Z2Nat.id in Hall by done.
  rewrite Hall in Hfalse by lia. done.
Qed.

Lemma filter_all {A} (P : A → Prop) `{!∀ x, Decision (P x)} (l : list A) : (∀ x, x ∈ l → P x) → filter P l = l.
Proof.
  intros Hall. induction l as [|x l IH]; [done|]. rewrite filter_cons, decide_True by (apply Hall; by left).
  f_equal. apply IH. intros y Hy. apply Hall. by right.
Qed.

(** A seeder's own content has the hashes of its torrent. *)
Lemma seed_stored sha1 b data k :
  0 < used_piece_length b data → (k < Metainfo.num_pieces (info (seed_torrent sha1 b data)))%nat →
  pieces (info (seed_torrent sha1 b data)) !! k =
    Some (sha1 (piece_of (used_piece_length b data) data (Z.of_nat k))).
Proof.
  intros Hpl Hk. unfold Metainfo.num_pieces in Hk. cbn [seed_torrent info pieces] in *. rewrite length_map in Hk.
  rewrite list_lookup_fmap. destruct (lookup_lt_is_Some_2 _ _ Hk) as [c Hc]. rewrite Hc. cbn. do 2 f_equal.
  rewrite lookup_split_pieces in Hc by lia. destruct (_ <? _)%nat; [|done]. injection Hc as <-. unfold piece_of.
  do 2 f_equal. lia.
Qed.

(** The start of a seeder: hash the source, make a storage of it, verify. *)
Definition prepare_seed (sha1 : bytes → bytes) (b : SeedBuilder) : result (PreparedTorrent * DataSourceStorage * PieceManager * nat) :=
  let! t := hash sha1 b in
  let i := info (pt_metainfo t) in
  let! s := source_storage_new (pt_source t) i in
  let! (pm, verified) := verify_existing sha1 s tt i (pm_new (Metainfo.num_pieces i)) in
  Ok (t, s, pm, verified).

Lemma prepare_seed_ok sha1 b data `{!FullReads (sb_source b) data} :
  (∀ x, length (sha1 x) = 20%nat) → builder_ok b → 0 < used_piece_length b data ≤ u32_max →
  20 * (zlen data + 1) ≤ i64_max → zlen (split_pieces (Z.to_nat (used_piece_length b data)) data) ≤ u32_max →
  ∃ d s pm, prepare_seed sha1 b =
      Ok (mk_prepared (sb_source b) (seed_torrent sha1 b data) d (sb_super_seed b), s, pm,
          Metainfo.num_pieces (info (seed_torrent sha1 b data))) ∧
    metainfo_from_bytes d = Ok (seed_torrent sha1 b data) ∧
    s = mk_source_storage (sb_source b) (used_piece_length b data)
          (Metainfo.num_pieces (info (seed_torrent sha1 b data))) (zlen data) ∧
    pm_ok pm ∧ Piece.num_pieces pm = Metainfo.num_pieces (info (seed_torrent sha1 b data)) ∧ missing_pieces pm = [].
Proof.
  intros Hsha Hb Hpl Hlen Hn. destruct (hash_ok sha1 b data Hsha Hb Hpl Hlen) as (d & Eh & Hd). unfold prepare_seed.
  rewrite Eh. cbn [obind pt_metainfo pt_source]. set (i := info (seed_torrent sha1 b data)).
  pose proof (seed_layout sha1 b data ltac:(lia)) as Hfit. cbn zeta in Hfit. fold i in Hfit.
  assert (Z.of_nat (Metainfo.num_pieces i) ≤ u32_max) as Hn'.
  { unfold Metainfo.num_pieces, i. cbn [seed_torrent info pieces]. rewrite length_map. exact Hn. }
  unfold source_storage_new. change (total_size i) with (Ok (E:=ErrorKind) (zlen data)). cbn [obind].
  change (piece_length i) with (used_piece_length b data) in *.
  set (s := mk_source_storage (sb_source b) (used_piece_length b data) (Metainfo.num_pieces i) (zlen data)).
  assert (source_storage_ok s data) as Hs by (unfold source_storage_ok; cbn [dss_piece_length dss_total_size dss_num_pieces s]; lia).
  pose proof (source_storage_reads s data _ Hs) as Hreads. cbn [dss_piece_length s] in Hreads.
  destruct (verify_existing_ok sha1 s tt i (total := zlen data) (ready := λ _, True) (flat := λ _, data)
    (FlatReads0 := Hreads)) with (pm := pm_new (Metainfo.num_pieces i)) as (pm & -> & Hpm & Hnum & Hhas);
    [done|cbn; lia|done|lia|done|lia|apply pm_new_ok|done|]. cbn [obind].
  assert (∀ k, (k < Metainfo.num_pieces i)%nat → stored sha1 tt i (flat := λ _, data) k = true) as Hst.
  { intros k Hk. unfold stored. apply bool_decide_eq_true. by apply seed_stored; [lia|]. }
  exists d, s, pm. split_and!.
  - rewrite filter_all, length_seq; [done|]. intros k Hk. apply Hst. apply elem_of_seq in Hk. lia.
  - done.
  - done.
  - done.
  - done.
  - apply all_pieces_complete; [done|lia|]. intros j Hj. rewrite Hhas, Hst by lia. by rewrite orb_true_r.
Qed.

(** * Properties *)

(** C17: verification is exact. Whatever the storage is, as long as it reads as an array of the
    torrent's size, and the torrent has as many pieces as this size calls for, [verify_existing] ends without an error, marks a piece exactly if it was marked
    before or its bytes in the storage have the hash of the torrent, and returns how many those are. *)
Theorem verification_is_exact : ∀ sha1 T W (H : Storage T W) (t : T) (w : W) i ready flat total pm,
  FlatReads t (piece_length i) total ready flat → ready w →
  0 < piece_length i ≤ i64_max → total_size i = Ok total → total ≤ u64_max →
  (Z.of_nat (Metainfo.num_pieces i) - 1) * piece_length i < total ≤ Z.of_nat (Metainfo.num_pieces i) * piece_length i →
  Z.of_nat (Metainfo.num_pieces i) ≤ 2 ^ 32 → pm_ok pm → Piece.num_pieces pm = Metainfo.num_pieces i →
  ∃ pm' verified, verify_existing sha1 t w i pm = Ok (pm', verified) ∧ pm_ok pm' ∧
    (∀ p : nat, (p < Metainfo.num_pieces i)%nat →
       has_piece pm' (Z.of_nat p) = true ↔
       has_piece pm (Z.of_nat p) = true ∨ pieces i !! p = Some (sha1 (piece_of (piece_length i) (flat w) (Z.of_nat p)))) ∧
    verified = length (filter (λ p : nat, pieces i !! p = Some (sha1 (piece_of (piece_length i) (flat w) (Z.of_nat p))))
                         (seq 0 (Metainfo.num_pieces i))).
Proof.
  intros sha1 T W H t w i ready flat total pm HF Hw Hpl Ht Hu Hfit Hidx Hpm Hn.
  destruct (verify_existing_ok sha1 t w i Hw Hpl Ht Hu Hfit Hidx pm Hpm Hn) as (pm' & -> & Hpm' & _ & Hhas).
  eexists pm', _. split_and!; [done|done| |].
  - intros p Hp. rewrite Hhas, orb_true_iff by done. unfold stored. by rewrite bool_decide_eq_true.
  - f_equal. apply list_filter_iff. intros p. unfold stored. by rewrite bool_decide_eq_true.
Qed.

(** Two pieces of three bytes; the second one was changed after hashing. *)
Definition seed_sha1 (x : bytes) : bytes := take 20 (x ++ replicate 20 0).
Definition seed_example : SeedBuilder := with_piece_length 3 (with_name (bs "f") (seed_builder_new (memory_source (bs "abcdef")))).
Definition seed_info : Info := info (seed_torrent seed_sha1 seed_example (bs "abcdef")).
Definition changed_storage : DataSourceStorage := mk_source_storage (memory_source (bs "abcdEf")) 3 2 6.

Lemma verification_is_exact_witness :
  ∃ pm' verified, verify_existing seed_sha1 changed_storage tt seed_info (pm_new 2) = Ok (pm', verified) ∧
    pm_ok pm' ∧ verified = 1%nat ∧ has_piece pm' 0 = true ∧ has_piece pm' 1 = false.
Proof.
  assert (source_storage_ok changed_storage (bs "abcdEf")) as Hs by (vm_compute; split_and!; congruence).
  pose proof (source_storage_reads changed_storage (bs "abcdEf") (memory_full _) Hs) as HF.
  destruct (verification_is_exact seed_sha1 _ _ source_storage changed_storage tt seed_info (λ _, True) (λ _, bs "abcdEf") 6 (pm_new 2)
    HF I) as (pm' & v & E & Hpm & Hhas & Hv).
  - vm_compute. split; congruence.
  - reflexivity.
  - vm_compute. congruence.
  - vm_compute. split; congruence.
  - vm_compute. congruence.
  - apply pm_new_ok.
  - reflexivity.
  - exists pm', v. split; [exact E|]. split; [exact Hpm|]. split; [rewrite Hv; vm_compute; reflexivity|].
    vm_compute in E. injection E as <- _. split; reflexivity.
Defined.

(** C8: a seeder serves what it hashed. For a source that keeps the contract of [DataSource]
    ([FullReads]; texts, piece length and number of pieces within their bounds), hashing
    gives the reference torrent of the source's content, whose file reads back as that torrent; the
    verification before seeding finds every piece; and every block and piece inside the content is
    read from the seeder's storage as the content has it. *)
Theorem seeder_serves_what_it_hashed : ∀ sha1 b data,
  FullReads (sb_source b) data → (∀ x, length (sha1 x) = 20%nat) → builder_ok b →
  0 < used_piece_length b data ≤ u32_max → 20 * (zlen data + 1) ≤ i64_max →
  zlen (split_pieces (Z.to_nat (used_piece_length b data)) data) ≤ u32_max →
  ∃ t s pm, prepare_seed sha1 b = Ok (t, s, pm, Metainfo.num_pieces (info (pt_metainfo t))) ∧
    pt_metainfo t = seed_torrent sha1 b data ∧ metainfo_from_bytes (pt_torrent_bytes t) = Ok (pt_metainfo t) ∧
    missing_pieces pm = [] ∧
    (∀ p o buf, 0 ≤ p → 0 ≤ o → p * used_piece_length b data + o + zlen buf ≤ zlen data →
       read_block s tt p o buf =
         (take (length buf) (drop (Z.to_nat (p * used_piece_length b data + o)) data), Ok tt)) ∧
    (∀ p, (p < Metainfo.num_pieces (info (pt_metainfo t)))%nat →
       ∃ d, read_piece s tt (Z.of_nat p) (replicate (Z.to_nat (piece_size (used_piece_length b data) (zlen data) (Z.of_nat p))) 0)
              = (d, Ok tt) ∧ pieces (info (pt_metainfo t)) !! p = Some (sha1 d)).
Proof.
  intros sha1 b data HF Hsha Hb Hpl Hlen Hn.
  destruct (prepare_seed_ok sha1 b data Hsha Hb Hpl Hlen Hn) as (d & s & pm & E & Hd & Hs & _ & _ & Hmiss).
  pose proof (seed_layout sha1 b data ltac:(lia)) as Hfit. cbn zeta in Hfit.
  change (piece_length (info (seed_torrent sha1 b data))) with (used_piece_length b data) in Hfit.
  assert (FlatReads s (used_piece_length b data) (zlen data) (λ _ : unit, True) (λ _, data)) as HR.
  { rewrite Hs. apply (source_storage_reads (mk_source_storage _ _ _ _) data HF).
    unfold source_storage_ok. cbn [dss_piece_length dss_total_size dss_num_pieces]. lia. }
  eexists _, s, pm. split; [exact E|]. split; [done|]. split; [exact Hd|]. split; [done|]. split.
  - intros p o buf Hp Ho Hin. by apply (flat_read_block (FlatReads := HR)).
  - cbn [pt_metainfo]. intros p Hp. rewrite (seed_stored sha1 b data p) by lia.
    rewrite (flat_read_piece (FlatReads := HR));
      [|done|lia|nia|unfold piece_size, zlen; rewrite length_replicate; lia].
    eexists. split; [reflexivity|]. do 2 f_equal. unfold piece_of.
    set (k := Z.to_nat (piece_size _ _ _)).
    rewrite overwrite_in by (rewrite length_take, length_drop, length_replicate; unfold k, piece_size, zlen; nia).
    rewrite (drop_ge (replicate k 0)) by (rewrite length_take, length_drop, length_replicate; unfold k, piece_size, zlen; nia).
    cbn [take app]. by rewrite app_nil_r.
Qed.

Lemma seeder_serves_what_it_hashed_witness :
  ∃ t s pm, prepare_seed seed_sha1 seed_example = Ok (t, s, pm, 2%nat) ∧
    metainfo_from_bytes (pt_torrent_bytes t) = Ok (pt_metainfo t) ∧ missing_pieces pm = [] ∧
    read_block s tt 1 1 [0; 0] = (bs "ef", Ok tt).
Proof.
  assert (builder_ok seed_example) as Hb.
  { split; [split; [vm_compute; congruence|reflexivity]|]. split; [constructor|].
    split; [split; [vm_compute; congruence|reflexivity]|]. split; discriminate. }
  destruct (seeder_serves_what_it_hashed seed_sha1 seed_example (bs "abcdef")) as (t & s & pm & E & Hm & Hp & Hmiss & Hr & _).
  - apply memory_full.
  - intros x. unfold seed_sha1. rewrite length_take, length_app, length_replicate. clear. lia.
  - exact Hb.
  - vm_compute. split; congruence.
  - vm_compute. congruence.
  - vm_compute. congruence.
  - exists t, s, pm. split; [|split; [exact Hp|split; [exact Hmiss|]]].
    + rewrite E, Hm. reflexivity.
    + rewrite Hr; [vm_compute; reflexivity|lia|lia|vm_compute; congruence].
Defined.

(** [read_at] of a path makes one read of the operating system, which may give fewer bytes than the
    buffer holds: then hashing still works, but nothing verifies, and blocks are filled up with zeros. *)
Definition short_file : DataSource := path_source (bs "dir/f") (Some (bs "abcdef")) (λ _ len, Nat.min 2 len).

Example short_reads_break_seeding :
  match prepare_seed seed_sha1 (with_piece_length 3 (seed_builder_new short_file)) with
  | Ok (t, s, pm, verified) =>
      (pieces (info (pt_metainfo t)), verified, missing_pieces pm, read_block s tt 0 0 [9; 9; 9])
      = (map seed_sha1 [bs "abc"; bs "def"], 0%nat, [0; 1], (bs "ab" ++ [0], Ok tt))
  | _ => False
  end.
Proof. vm_compute. reflexivity. Qed.

(** The flag of a private torrent changes nothing. *)
Example private_is_forgotten : hash seed_sha1 (private seed_example) = hash seed_sha1 seed_example.
Proof. reflexivity. Qed.

(** The name in the magnet link is not encoded: the link of a file named [a&b] names it [a]. *)
Example magnet_name_is_cut :
  match magnet_from_str (magnet_of (λ x, replicate 20 7) (seed_torrent seed_sha1 (with_name (bs "a&b") seed_example) (bs "abcdef"))) with
  | Ok m => display_name m = Some (bs "a")
  | _ => False
  end.
Proof. vm_compute. reflexivity. Qed.
