(* ===== verification/Session.v ===== *)
(** The session: [crates/torrent/src/session/mod.rs], with the handles of
    [crates/torrent/src/session/swarm/mod.rs] and [DownloadBuilder::start] of
    [crates/torrent/src/session/download/mod.rs].

    The state is the map of the registered torrents. A handle has the objects it shares with its loop as
    the session sees them; an activated torrent has a loop, which is the state it starts in (the steps
    from there on are [FullLoop]'s) and the commands it was sent. A loop whose handle is gone is kept
    in a list: its channel is closed.

    An operation is one step, apart from [start], whose two halves other operations may come between. *)

From stdpp Require Import base numbers list gmap strings.
From Stdlib Require Import ZArith Lia SpecFloat.
From S2P Require Import Prelude Facts F64 Error Net IpText Metainfo Magnet Piece Step PeerManager Swarm SwarmLoop.
From S2P Require Import ExtContext SuperSeed PexExt WebSeed FullLoop HttpClient TrackerClient MetadataDownload.
From S2P Require Import Seeding.

(** * Configuration: [config.rs] *)

(** [struct SessionConfig], durations in nanoseconds, a bootstrap node as its host and port. The model
    of the session reads the fields for the torrents; those of the DHT, the local discovery, the uTP
    socket and the timers are data here. *)
Record SessionConfig : Type := mk_session_config {
  listen_port : Z;
  announce_ip : option bytes;
  announce_ipv6 : option bytes;
  sc_max_connections : Z;
  sc_max_uploads : Z;
  download_rate_limit : option Z;
  upload_rate_limit : option Z;
  max_active_torrents : nat;
  sc_max_concurrent_pieces : nat;
  sc_piece_cache_size : nat;
  sc_endgame_threshold : nat;
  sc_request_timeout : Z;
  peer_connect_timeout : Z;
  peer_max_retries : Z;
  peer_cooldown : Z;
  choke_interval : Z;
  sc_snub_timeout : Z;
  sc_corrupt_ban_threshold : Z;
  announce_fallback_interval : Z;
  tracker_timeout : Z;
  dht_poll_interval : Z;
  pex_enabled : bool;
  pex_interval : Z;
  lsd_enabled : bool;
  lsd_interval : Z;
  peer_msg_buffer_size : nat;
  enable_utp : bool;
  webseed_enabled : bool;
  webseed_min_gap_pieces : Z;
  webseed_max_range_bytes : Z;
  webseed_concurrency : nat;
  bootstrap_nodes : option (list (bytes * Z));
  bootstrap_nodes_v6 : option (list (bytes * Z));
  node_id : option bytes;
}.

Definition secs (n : Z) : Z := n * 10 ^ 9.

(** [SessionConfig::default]. *)
Definition default_config : SessionConfig := {|
  listen_port := 6881; announce_ip := None; announce_ipv6 := None; sc_max_connections := 50; sc_max_uploads := 8;
  download_rate_limit := None; upload_rate_limit := None;
  max_active_torrents := 0; sc_max_concurrent_pieces := 5; sc_piece_cache_size := 256; sc_endgame_threshold := 10;
  sc_request_timeout := secs 60; peer_connect_timeout := 500 * 10 ^ 6; peer_max_retries := 3; peer_cooldown := secs 30;
  choke_interval := secs 10; sc_snub_timeout := secs 60; sc_corrupt_ban_threshold := 10;
  announce_fallback_interval := secs 30; tracker_timeout := secs 15; dht_poll_interval := secs 30;
  pex_enabled := true; pex_interval := secs 60; lsd_enabled := true; lsd_interval := secs 300;
  peer_msg_buffer_size := 256; enable_utp := true;
  webseed_enabled := true; webseed_min_gap_pieces := 4;
  webseed_max_range_bytes := 5 * 1024 * 1024; webseed_concurrency := 8;
  bootstrap_nodes := Some [(bs "router.bittorrent.com", 6881); (bs "dht.transmissionbt.com", 6881)];
  bootstrap_nodes_v6 := None; node_id := None
|}.

(** [struct SessionStatus]. *)
Record SessionStatus : Type := mk_session_status {
  total_download_rate : spec_float;
  total_upload_rate : spec_float;
  ss_total_downloaded : Z;
  ss_total_uploaded : Z;
  num_torrents : nat;
  num_connections : nat;
  dht_nodes : nat;
}.

(** * Handles *)

Section session.
Context (sha1 : bytes → bytes) {Url : Type} `{UrlText Url} (wire : Wire) (cfg : SessionConfig).

(** A loop that was started: what it was built from, whether it still takes commands, and the commands
    it was sent. *)
Record Loop : Type := mk_running {
  lp_config : LoopConfig;
  lp_metainfo : Metainfo;
  lp_start : LoopState Url;
  lp_open : bool;
  lp_commands : list TorrentCommand;
}.

(** [struct TorrentHandle]: the control channel and the task are there together. *)
Record TorrentHandle : Type := mk_handle {
  h_info_hash : bytes;
  h_metainfo : option Metainfo;
  h_peer_mgr : PeerManager;
  h_piece_mgr : PieceManager;
  h_status : TorrentStatus;
  h_peer_statuses : list PeerStatus;
  h_tracker_status : TrackerStatus;
  h_web_seeds : list bytes;
  h_events : list TorrentEvent;
  h_loop : option Loop;
}.

Definition set_h_metainfo (x : option Metainfo) (h : TorrentHandle) : TorrentHandle :=
  let 'mk_handle a _ c d e f g i j k := h in mk_handle a x c d e f g i j k.
Definition set_h_peer_mgr (x : PeerManager) (h : TorrentHandle) : TorrentHandle :=
  let 'mk_handle a b _ d e f g i j k := h in mk_handle a b x d e f g i j k.
Definition set_h_piece_mgr (x : PieceManager) (h : TorrentHandle) : TorrentHandle :=
  let 'mk_handle a b c _ e f g i j k := h in mk_handle a b c x e f g i j k.
Definition set_h_status (x : TorrentStatus) (h : TorrentHandle) : TorrentHandle :=
  let 'mk_handle a b c d _ f g i j k := h in mk_handle a b c d x f g i j k.
Definition add_h_event (x : TorrentEvent) (h : TorrentHandle) : TorrentHandle :=
  let 'mk_handle a b c d e f g i j k := h in mk_handle a b c d e f g i (j ++ [x]) k.
Definition set_h_loop (x : option Loop) (h : TorrentHandle) : TorrentHandle :=
  let 'mk_handle a b c d e f g i j _ := h in mk_handle a b c d e f g i j x.

(** Assignments to the fields of a status. *)
Definition set_sizes (total num : Z) (t : TorrentStatus) : TorrentStatus :=
  let 'mk_torrent_status a b c d e f g h _ j k _ m n o p q r s := t in
  mk_torrent_status a b c d e f g h total j k num m n o p q r s.
Definition set_verified (progress : spec_float) (completed : Z) (bitfield : list bool) (t : TorrentStatus) : TorrentStatus :=
  let 'mk_torrent_status a b _ d e f g h i j k l _ _ o p q r s := t in
  mk_torrent_status a b progress d e f g h i j k l completed bitfield o p q r s.
Definition set_error_message (x : option bytes) (t : TorrentStatus) : TorrentStatus :=
  let 'mk_torrent_status a b c d e f g h i j k l m n o _ q r s := t in
  mk_torrent_status a b c d e f g h i j k l m n o x q r s.

Definition registered_status (info_hash name : bytes) (total : Z) (num : nat) : TorrentStatus :=
  mk_torrent_status info_hash name (f64_of_Z 0) (f64_of_Z 0) (f64_of_Z 0) 0 0 Registered total 0 0
    (as_u32 (Z.of_nat num)) 0 (replicate num false) 0 None 0 false 0.

(** [TorrentHandle::register]; the peer id is a random draw. *)
Definition register (peer_id : bytes) (spec : TorrentSpec) : result TorrentHandle :=
  let! ih := spec_info_hash sha1 spec in
  let! (metainfo, name, num, total) :=
    match spec with
    | SpecMetainfo m => let! ts := total_size (info m) in Ok (Some m, mode_name (mode (info m)), Metainfo.num_pieces (info m), ts)
    | SpecMagnet uri => Ok (None, default (hex_encode ih) (display_name uri), 0%nat, 0)
    end in
  Ok {| h_info_hash := ih; h_metainfo := metainfo;
        h_peer_mgr := peer_manager_new ih peer_id (sc_max_connections cfg) (peer_connect_timeout cfg)
                        (peer_max_retries cfg) (peer_cooldown cfg);
        h_piece_mgr := pm_new num;
        h_status := registered_status ih name total num;
        h_peer_statuses := [];
        h_tracker_status := mk_tracker_status (default [] (announce <$> metainfo)) None 0 0 0 None;
        h_web_seeds := spec_web_seeds spec; h_events := []; h_loop := None |}.

(** What a start draws and reads: a peer id, the time, the version of the library. *)
Record Draw : Type := mk_draw { dr_peer_id : bytes; dr_now : Z; dr_version : bytes }.

Definition loop_config (d : Draw) (ih : bytes) (m : Metainfo) : LoopConfig := {|
  lc_swarm := {| c_info_hash := ih; c_info := info m; piece_cache_size := sc_piece_cache_size cfg;
                 corrupt_ban_threshold := sc_corrupt_ban_threshold cfg;
                 max_concurrent_pieces := sc_max_concurrent_pieces cfg;
                 endgame_threshold := sc_endgame_threshold cfg;
                 request_timeout := sc_request_timeout cfg; snub_timeout := sc_snub_timeout cfg |};
  lc_peer_id := dr_peer_id d; lc_listen_port := listen_port cfg;
  lc_announce_ip := announce_ip cfg; lc_announce_ipv6 := announce_ipv6 cfg;
  lc_has_tracker := match from_torrent (Url := Url) wire (SpecMetainfo m) with Some _ => true | None => false end;
  lc_fallback_interval := announce_fallback_interval cfg; lc_started_at := dr_now d; lc_version := dr_version d |}.

Definition loop_extensions (web_seeds : list bytes) (super_seed : bool) : list (DynExtension Url) :=
  maybe_webseed (webseed_enabled cfg) web_seeds
    {| min_gap_pieces := webseed_min_gap_pieces cfg; max_range_bytes := webseed_max_range_bytes cfg;
       park_threshold := park_threshold web_config_default; park_retry_interval := park_retry_interval web_config_default |}
    (webseed_concurrency cfg)
    (maybe_super_seed super_seed (maybe_pex (pex_enabled cfg) (pex_interval cfg) [])).

(** [TorrentHandle::spawn_swarm_loop]; a loop that ran before loses its channel. *)
Definition spawn_swarm_loop (d : Draw) (m : Metainfo) (super_seed : bool) (h : TorrentHandle) : TorrentHandle :=
  set_h_loop (Some {|
    lp_config := loop_config d (h_info_hash h) m;
    lp_metainfo := m;
    lp_start := loop_new (h_piece_mgr h) (h_peer_mgr h) (sc_max_uploads cfg) (h_status h) (h_tracker_status h)
                  (loop_extensions (h_web_seeds h) super_seed);
    lp_open := true; lp_commands := [] |}) h.

(** [TorrentHandle::activate]: only the status learns the size of the torrent. *)
Definition activate (d : Draw) (h : TorrentHandle) : result TorrentHandle :=
  match h_metainfo h with
  | None => Panic
  | Some m =>
      let! total := total_size (info m) in
      let num := as_u32 (Z.of_nat (Metainfo.num_pieces (info m))) in
      Ok (spawn_swarm_loop d m false (set_h_status (set_sizes total num (h_status h)) h))
  end.

(** [TorrentHandle::activate_seed]. *)
Definition activate_seed (d : Draw) (m : Metainfo) (pm : PieceManager) (super_seed : bool) (h : TorrentHandle)
    : result TorrentHandle :=
  if bool_decide (info_hash sha1 m = h_info_hash h) then
    let! total := total_size (info m) in
    let num := as_u32 (Z.of_nat (Metainfo.num_pieces (info m))) in
    let completed := as_u32 (Z.of_nat (length (completed_pieces pm))) in
    let state := if bool_decide (missing_pieces pm = []) then Seeding else Downloading in
    let status := set_state state (set_verified (progress pm) completed (bitfield pm) (set_sizes total num (h_status h))) in
    Ok (spawn_swarm_loop d m super_seed (set_h_status status (set_h_piece_mgr pm (set_h_metainfo (Some m) h))))
  else Panic.

(** * The session *)

Record Session : Type := mk_session {
  torrents : gmap bytes TorrentHandle;
  orphans : list Loop;
}.

Definition session_new : Session := mk_session ∅ [].

(** The services that [Session::new] starts, for the sockets that can be bound: the ports of the DHT,
    local discovery, uTP, and the listener for connections. *)
Record Binds : Type := mk_binds { binds_dht : bool; binds_utp : bool; binds_tcp : bool }.

Record Services : Type := mk_services {
  sv_dht : option (Z * Z);
  sv_lsd : bool;
  sv_utp : bool;
  sv_tcp : bool;
}.

Definition session_services (b : Binds) : result Services :=
  let v4 := default [] (bootstrap_nodes cfg) in
  let v6 := default [] (bootstrap_nodes_v6 cfg) in
  let! dht :=
    if bool_decide (v4 = []) && bool_decide (v6 = []) then Ok None
    else
      let! bind_v4 := checked_add_panic u16_max (listen_port cfg) 1 in
      let! bind_v6 := checked_add_panic u16_max (listen_port cfg) 2 in
      Ok (if binds_dht b then Some (bind_v4, bind_v6) else None) in
  Ok (mk_services dht (lsd_enabled cfg) (enable_utp cfg && binds_utp b) (binds_tcp b)).

Definition set_torrents (x : gmap bytes TorrentHandle) (s : Session) : Session := mk_session x (orphans s).

Abbreviation in_session := (Step.step Session).

(** The handle of a torrent that must be known. *)
Definition known (ih : bytes) : in_session TorrentHandle :=
  do! h := read (λ s, torrents s !! ih) in lift (ok_or h InvalidInput).

Definition put (ih : bytes) (h : TorrentHandle) : in_session unit := modify (λ s, set_torrents (<[ih := h]> (torrents s)) s).

(** A handle that is thrown away closes the channel of its loop. *)
Definition orphan (h : option TorrentHandle) (s : Session) : Session :=
  match h ≫= h_loop with
  | Some l => mk_session (torrents s)
                (orphans s ++ [mk_running (lp_config l) (lp_metainfo l) (lp_start l) false (lp_commands l)])
  | None => s
  end.

(** [Session::register_spec]: what was registered under the hash before is replaced. *)
Definition register_spec (peer_id : bytes) (spec : TorrentSpec) : in_session bytes :=
  do! h := lift (register peer_id spec) in
  do! _ := modify (λ s, orphan (torrents s !! h_info_hash h) s) in
  do! _ := put (h_info_hash h) h in
  sret (h_info_hash h).

(** [Session::torrent_events]: the receiver gets the events after those that there are already. *)
Definition torrent_events (ih : bytes) : in_session nat :=
  do! h := known ih in sret (length (h_events h)).

(** [struct DownloadBuilder], without its view of the handle. *)
Record Download : Type := mk_builder {
  dl_info_hash : bytes;
  dl_resolved : bool;
  dl_magnet_peers : list SocketAddr;
  dl_factory : option (Info → result unit);
}.

(** [Session::add_torrent], [add_torrent_bytes], [add_magnet_str]. *)
Definition add_torrent (peer_id : bytes) (spec : TorrentSpec) : in_session Download :=
  let addrs := match spec with SpecMagnet uri => omap parse_socket_addr (peers uri) | SpecMetainfo _ => [] end in
  let resolved := match spec with SpecMetainfo _ => true | SpecMagnet _ => false end in
  do! ih := register_spec peer_id spec in
  sret (mk_builder ih resolved addrs None).

Definition add_torrent_bytes (peer_id data : bytes) : in_session Download :=
  do! m := lift (metainfo_from_bytes data) in add_torrent peer_id (SpecMetainfo m).

Definition add_magnet_str (peer_id uri : bytes) : in_session Download :=
  do! m := lift (magnet_from_str uri) in add_torrent peer_id (SpecMagnet m).

(** [DownloadBuilder::storage]: the factory's [create] and [prepare] as one result. *)
Definition with_storage (factory : Info → result unit) (b : Download) : Download :=
  mk_builder (dl_info_hash b) (dl_resolved b) (dl_magnet_peers b) (Some factory).

(** [DownloadBuilder::resolve_metadata], see [MetadataDownload]: its view of the handle is the handle's
    metainfo. *)
Definition session_resolve (download : list SocketAddr → result bytes) (b : Download) : in_session Download := λ s,
  let ih := dl_info_hash b in
  let '(d, r) := resolve_metadata download (mk_download (dl_resolved b) (dl_magnet_peers b) (h_metainfo <$> torrents s !! ih)) in
  let s' := match handle_metainfo d, torrents s !! ih with
            | Some m, Some h => set_torrents (<[ih := set_h_metainfo m h]> (torrents s)) s
            | _, _ => s
            end in
  (s', let! _ := r in Ok (mk_builder ih (metadata_resolved d) (magnet_peers d) (dl_factory b))).

Definition is_active (h : TorrentHandle) : bool := bool_decide (is_Some (h_loop h)).

Definition active_count (ts : gmap bytes TorrentHandle) : nat := length (filter (λ e, is_active e.2 = true) (map_to_list ts)).

(** The peers of a magnet link go to the peer manager. *)
Definition inject_peers (ih : bytes) (addrs : list SocketAddr) (s : Session) : Session :=
  match torrents s !! ih with
  | Some h => set_torrents (<[ih := set_h_peer_mgr (add_peers addrs (h_peer_mgr h)) h]> (torrents s)) s
  | None => s
  end.

(** [DownloadBuilder::start] up to the creation of the storage: the metadata and the peers of a magnet
    link, the limit, the factory and the [Info]. The start is over, and the torrent stays registered,
    or the storage of this torrent is to be made with this factory. *)
Definition start_begin (download : list SocketAddr → result bytes) (b : Download)
    : in_session (bytes + bytes * (Info → result unit) * Info) :=
  do! b := if dl_resolved b then sret b else session_resolve download b in
  let ih := dl_info_hash b in
  do! _ := if bool_decide (dl_magnet_peers b = []) then sret tt else modify (inject_peers ih (dl_magnet_peers b)) in
  do! active := read (λ s, active_count (torrents s)) in
  let limit := max_active_torrents cfg in
  do! _ := lift (guard_err ((0 <? limit)%nat && (limit <=? active)%nat) InvalidInput) in
  match dl_factory b with
  | None => sret (inl ih)
  | Some factory =>
      do! h := known ih in
      match h_metainfo h with
      | None => sret (inl ih)
      | Some m => sret (inr (ih, factory, info m))
      end
  end.

(** The rest of it, once the storage is prepared: by then other operations may have had their turn. *)
Definition start_finish (d : Draw) (ih : bytes) : in_session bytes :=
  do! h := known ih in
  do! h' := lift (activate d h) in
  do! _ := modify (orphan (Some h)) in
  do! _ := put ih h' in
  sret ih.

(** [DownloadBuilder::start] when nothing comes between: [create] and [prepare] do not see the session. *)
Definition start (d : Draw) (download : list SocketAddr → result bytes) (b : Download) : in_session bytes :=
  do! r := start_begin download b in
  match r with
  | inl ih => sret ih
  | inr (ih, factory, i) => do! _ := lift (factory i) in start_finish d ih
  end.

(** [Session::start_seeding]. *)
Definition start_seeding (peer_id : bytes) (d : Draw) (t : PreparedTorrent) : in_session bytes :=
  let i := info (pt_metainfo t) in
  do! storage := lift (source_storage_new (pt_source t) i) in
  do! (pm, _) := lift (verify_existing sha1 storage tt i (pm_new (Metainfo.num_pieces i))) in
  do! ih := register_spec peer_id (SpecMetainfo (pt_metainfo t)) in
  do! h := read (λ s, torrents s !! ih) in
  do! h := lift (match h with Some h => Ok h | None => Panic end) in
  do! h' := lift (activate_seed d (pt_metainfo t) pm (pt_super_seed t) h) in
  do! _ := put ih h' in
  sret ih.

(** * Life cycle *)

(** Sending a command: an error when the loop has ended. *)
Definition send_command (c : TorrentCommand) (l : Loop) : result Loop :=
  if lp_open l then Ok (mk_running (lp_config l) (lp_metainfo l) (lp_start l) true (lp_commands l ++ [c]))
  else Err Protocol.

(** [pause_torrent] and [resume_torrent]. *)
Definition command_torrent (c : TorrentCommand) (ih : bytes) : in_session unit :=
  do! h := known ih in
  match h_loop h with
  | Some l => do! l' := lift (send_command c l) in put ih (set_h_loop (Some l') h)
  | None => sret tt
  end.

Definition pause_torrent : bytes → in_session unit := command_torrent Pause.
Definition resume_torrent : bytes → in_session unit := command_torrent Resume.

(** [remove_torrent]: the loop is told to stop and waited for. *)
Definition remove_torrent (ih : bytes) : in_session unit :=
  do! h := known ih in
  do! _ := modify (λ s, set_torrents (delete ih (torrents s)) s) in
  match h_loop h with
  | Some l =>
      let l' := match send_command Cancel l with Ok l' => l' | _ => l end in
      modify (orphan (Some (set_h_loop (Some l') h)))
  | None => sret tt
  end.

Definition clear_error (ih : bytes) : in_session unit :=
  do! h := known ih in
  if bool_decide (ts_state (h_status h) = Swarm.Error) then
    put ih (add_h_event (StateChanged Swarm.Error Downloading)
              (set_h_status (set_state Downloading (set_error_message None (h_status h))) h))
  else sret tt.

(** * Queries *)

Definition query {A} (ih : bytes) (f : TorrentHandle → result A) : in_session A :=
  do! h := known ih in lift (f h).

Definition torrent_status (ih : bytes) : in_session TorrentStatus := query ih (λ h, Ok (h_status h)).
Definition tracker_status (ih : bytes) : in_session TrackerStatus := query ih (λ h, Ok (h_tracker_status h)).

(** [try_read] of the statuses fails while the loop writes them. *)
Definition peer_status (locked : bool) (ih : bytes) : in_session (list PeerStatus) :=
  query ih (λ h, Ok (if locked then [] else h_peer_statuses h)).

Definition session_file_status (ih : bytes) : in_session (list FileStatus) :=
  query ih (λ h, let! m := ok_or (h_metainfo h) InvalidInput in file_status (info m) (bitfield (h_piece_mgr h))).

Definition active_torrents (s : Session) : list bytes := map fst (map_to_list (torrents s)).

(** The sums over the torrents, in the order of the map; the [u64] sums may overflow. *)
Fixpoint sum_statuses (l : list TorrentStatus) (acc : SessionStatus) : result SessionStatus :=
  match l with
  | [] => Ok acc
  | t :: l' =>
      let! down := checked_add_panic u64_max (ss_total_downloaded acc) (ts_total_downloaded t) in
      let! up := checked_add_panic u64_max (ss_total_uploaded acc) (ts_total_uploaded t) in
      sum_statuses l' (mk_session_status (f64_add (total_download_rate acc) (ts_download_rate t))
        (f64_add (total_upload_rate acc) (ts_upload_rate t)) down up (num_torrents acc)
        (num_connections acc + ts_num_peers t) (dht_nodes acc))
  end.

Definition session_status (dht : nat) (s : Session) : result SessionStatus :=
  let statuses := map (λ e, h_status e.2) (map_to_list (torrents s)) in
  sum_statuses statuses (mk_session_status (f64_of_Z 0) (f64_of_Z 0) 0 0 (length statuses) 0 dht).

Definition session_metainfo (ih : bytes) (s : Session) : option Metainfo := torrents s !! ih ≫= h_metainfo.

Definition torrent_bytes (ih : bytes) (s : Session) : option bytes := session_metainfo ih s ≫= metainfo_to_bytes.

Definition session_magnet_uri (ih : bytes) (s : Session) : option bytes := magnet_of sha1 <$> session_metainfo ih s.

Definition torrent_name (h : TorrentHandle) : bytes :=
  default (bs "<unknown>") ((λ m, mode_name (mode (info m))) <$> h_metainfo h).

(** * Peers from outside *)

(** One round of [spawn_dht_poll]: the peers that the DHT knows for each torrent, in the order of the
    map's keys at its start. *)
Fixpoint dht_poll (found : bytes → list SocketAddr) (hashes : list bytes) (s : Session) : Session :=
  match hashes with
  | [] => s
  | ih :: hashes' =>
      let s' := if bool_decide (found ih = []) then s else inject_peers ih (found ih) s in
      dht_poll found hashes' s'
  end.

Definition dht_round (found : bytes → list SocketAddr) (s : Session) : Session :=
  dht_poll found (active_torrents s) s.
End session.

Arguments Loop : clear implicits.
Arguments TorrentHandle : clear implicits.
Arguments Session : clear implicits.
