(* ===== verification/SessionLife.v ===== *)
(** The life of the torrents of a session: the registry, the limit of active torrents, seeding from a
    source. About [Session], [Seeding] and the loops that start there. The steps of a session are its
    operations and the halves of its starts, so that starts may overlap. *)

From stdpp Require Import base numbers list gmap strings.
From Stdlib Require Import ZArith Lia SpecFloat.
From S2P Require Import Prelude Facts F64 Error Net IpText Piece Metainfo MetainfoBuilder Magnet Step PeerManager.
From S2P Require Import Swarm ExtContext SwarmLoop FullLoop StorageArray HttpClient HttpTracker HttpAnnounce.
From S2P Require Import TrackerClient MetadataDownload Seeding SeedVerify Session.

(** * What holds of a session in every state it can reach: about [Session]. *)

Section session_facts.
Context (sha1 : bytes → bytes) {Url : Type} `{UrlText Url} (wire : Wire) (cfg : SessionConfig).
Implicit Types (s : Session Url) (h : TorrentHandle Url) (l : Loop Url).

(** What the loop of a torrent does to the objects it shares with the handle: anything, but it keeps
    what it was built from, and does not take commands again once it has ended. *)
Definition loop_moves h h' : Prop :=
  h_info_hash h' = h_info_hash h ∧ h_metainfo h' = h_metainfo h ∧ h_web_seeds h' = h_web_seeds h ∧
  ∃ l l', h_loop h = Some l ∧ h_loop h' = Some l' ∧ lp_config l' = lp_config l ∧ lp_metainfo l' = lp_metainfo l ∧
    lp_start l' = lp_start l ∧ lp_commands l' = lp_commands l ∧ (lp_open l' = true → lp_open l = true).

(** The steps of a session that are not part of a start: its operations, whatever they return, the peers
    that arrive from outside, and the loops. *)
Inductive other_step s : Session Url → Prop :=
| Session_add pid spec : other_step s (add_torrent sha1 cfg pid spec s).1
| Session_resolve download b : other_step s (session_resolve download b s).1
| Session_command c ih : other_step s (command_torrent c ih s).1
| Session_remove ih : other_step s (remove_torrent ih s).1
| Session_clear ih : other_step s (clear_error ih s).1
| Session_peers ih addrs : other_step s (inject_peers ih addrs s)
| Session_loop ih h h' :
    torrents s !! ih = Some h → loop_moves h h' → other_step s (set_torrents (<[ih := h']> (torrents s)) s).

(** The steps of a session. The two halves of a start are steps of their own, in any order and number,
    so that starts may overlap with each other and with everything else. *)
Inductive session_step s : Session Url → Prop :=
| Session_other s' : other_step s s' → session_step s s'
| Session_begin download b : session_step s (start_begin cfg download b s).1
| Session_finish d ih : session_step s (start_finish wire cfg d ih s).1.

(** The steps with seeding. *)
Inductive seed_step s : Session Url → Prop :=
| Seed_step s' : session_step s s' → seed_step s s'
| Seed_start pid d t : seed_step s (start_seeding sha1 wire cfg pid d t s).1.

(** A handle is the one of its hash, and its loop is the one of its torrent. *)
Definition handle_ok (ih : bytes) h : Prop :=
  h_info_hash h = ih ∧
  ∀ l, h_loop h = Some l →
    h_metainfo h = Some (lp_metainfo l) ∧ c_info_hash (lc_swarm (lp_config l)) = ih ∧
    c_info (lc_swarm (lp_config l)) = info (lp_metainfo l).

Definition session_ok s : Prop :=
  (∀ ih h, torrents s !! ih = Some h → handle_ok ih h) ∧ Forall (λ l, lp_open l = false) (orphans s).

Lemma put_ok ih h s : session_ok s → handle_ok ih h → session_ok (set_torrents (<[ih := h]> (torrents s)) s).
Proof using.
  intros [Ht Ho] Hh. split; [|done]. intros k h'. cbn. intros [[<- <-]|[_ Hk]]%lookup_insert_Some; [done|by apply Ht].
Qed.

Lemma put_ok_orphan ih h o s :
  session_ok (orphan o s) → handle_ok ih h → session_ok (set_torrents (<[ih := h]> (torrents s)) (orphan o s)).
Proof using.
  intros I Hh. assert (torrents (orphan o s) = torrents s) as <- by (unfold orphan; by destruct (o ≫= h_loop)).
  by apply put_ok.
Qed.

Lemma orphan_ok o s : session_ok s → session_ok (orphan o s).
Proof using.
  intros [Ht Ho]. unfold orphan. destruct (o ≫= h_loop) as [l|]; [|done]. split; [done|]. cbn.
  apply Forall_app. split; [done|]. by constructor.
Qed.

Lemma torrents_orphan o s : torrents (orphan o s) = torrents s.
Proof using. unfold orphan. by destruct (o ≫= h_loop). Qed.

Lemma delete_ok ih s : session_ok s → session_ok (set_torrents (delete ih (torrents s)) s).
Proof using. intros [Ht Ho]. split; [|done]. intros k h. cbn. intros [_ Hk]%lookup_delete_Some. by apply Ht. Qed.

Lemma known_spec ih s :
  known ih s = match torrents s !! ih with Some h => (s, Ok h) | None => (s, Err InvalidInput) end.
Proof using. unfold known, sbind, read, lift. by destruct (torrents s !! ih). Qed.

(** An operation that starts by looking its torrent up. *)
Lemma known_bind {B} ih (k : TorrentHandle Url → Step.step (Session Url) B) s :
  sbind (known ih) k s = match torrents s !! ih with Some h => k h s | None => (s, Err InvalidInput) end.
Proof using. unfold sbind. rewrite known_spec. by destruct (torrents s !! ih). Qed.

Lemma register_handle pid spec h :
  register (Url := Url) sha1 cfg pid spec = Ok h →
  h_loop h = None ∧ spec_info_hash sha1 spec = Ok (h_info_hash h) ∧
  h_metainfo h = (match spec with SpecMetainfo m => Some m | SpecMagnet _ => None end) ∧
  h_piece_mgr h = pm_new (match spec with SpecMetainfo m => Metainfo.num_pieces (info m) | SpecMagnet _ => 0%nat end) ∧
  ts_state (h_status h) = Registered.
Proof using.
  intros E. unfold register in E. destruct (spec_info_hash sha1 spec) as [ih|e| |]; try discriminate E. cbn [obind] in E.
  destruct spec as [m|uri].
  - destruct (total_size (info m)) as [ts|e| |]; try discriminate E. cbn [obind] in E. by injection E as <-.
  - cbn [obind] in E. by injection E as <-.
Qed.

(** Registering: the handle is there, everything else is as it was. *)
Lemma register_spec_eq pid spec s :
  register_spec sha1 cfg pid spec s =
    match register (Url := Url) sha1 cfg pid spec with
    | Ok h => (set_torrents (<[h_info_hash h := h]> (torrents s)) (orphan (torrents s !! h_info_hash h) s), Ok (h_info_hash h))
    | Err e => (s, Err e) | Panic => (s, Panic) | NoFuel => (s, NoFuel)
    end.
Proof using.
  unfold register_spec, sbind, lift, modify, put, sret. destruct (register _ _ _ _) as [h|e| |]; try done.
  cbn. by rewrite torrents_orphan.
Qed.

Lemma register_spec_ok pid spec s : session_ok s → session_ok (register_spec sha1 cfg pid spec s).1.
Proof using.
  intros I. rewrite register_spec_eq. destruct (register _ _ _ _) as [h|e| |] eqn:E; try done. cbn [fst].
  destruct (register_handle _ _ _ E) as (El & _).
  apply put_ok_orphan; [by apply orphan_ok|]. split; [done|].
  intros l Hl. congruence.
Qed.

Lemma resolve_metainfo download b d r m :
  resolve_metadata download b = (d, r) → handle_metainfo b = Some (Some m) → handle_metainfo d = Some (Some m).
Proof using.
  unfold resolve_metadata, sbind, read, lift, modify, sret, id. destruct (metadata_resolved b); [by intros [= <- <-]|].
  intros E Hm. rewrite Hm in E. cbn in E. injection E as <- <-. done.
Qed.

Lemma session_resolve_ok download b s : session_ok s → session_ok (session_resolve download b s).1.
Proof using.
  intros I. unfold session_resolve. destruct (resolve_metadata _ _) as [d r] eqn:E. cbn [fst].
  destruct (handle_metainfo d) as [m|] eqn:Em; [|done]. destruct (torrents s !! dl_info_hash b) as [h|] eqn:Eh; [|done].
  apply put_ok; [done|]. destruct (proj1 I _ _ Eh) as [Hih Hl]. split; [by destruct h|]. intros l Hlp.
  assert (h_loop h = Some l) as Hlp' by (by destruct h). destruct (Hl l Hlp') as (Hm & Hc1 & Hc2). split; [|done].
  pose proof (resolve_metainfo _ _ _ _ (lp_metainfo l) E) as Hk. cbn [handle_metainfo fmap option_fmap option_map] in Hk.
  rewrite Hm in Hk. specialize (Hk eq_refl). rewrite Em in Hk. injection Hk as ->. by destruct h.
Qed.

Lemma inject_peers_ok ih addrs s : session_ok s → session_ok (inject_peers ih addrs s).
Proof using.
  intros I. unfold inject_peers. destruct (torrents s !! ih) as [h|] eqn:Eh; [|done]. apply put_ok; [done|].
  destruct (proj1 I _ _ Eh) as [Hih Hl]. split; [by destruct h|]. intros l Hlp. destruct h. by apply Hl.
Qed.

Lemma activate_ok d ih h h' : handle_ok ih h → activate wire cfg d h = Ok h' → handle_ok ih h'.
Proof using.
  intros [Hih _] E. unfold activate in E. destruct (h_metainfo h) as [m|] eqn:Em; [|done].
  destruct (total_size (info m)) as [ts|e| |]; try discriminate E. cbn [obind] in E. injection E as <-.
  destruct h. cbn in *. subst. split; [done|]. by intros l [= <-].
Qed.

(** What holds after every way to end holds after a sequence. *)
Lemma bind_state {A B} (P : Session Url → Prop) (m : Step.step (Session Url) A) (k : A → Step.step (Session Url) B) s :
  P (m s).1 → (∀ a s', m s = (s', Ok a) → P s' → P (k a s').1) → P (sbind m k s).1.
Proof using.
  intros Hm Hk. unfold sbind. destruct (m s) as [s' [a|e| |]] eqn:E; cbn [fst] in *; try done. by apply (Hk a s').
Qed.

Lemma start_finish_ok d ih s : session_ok s → session_ok (start_finish wire cfg d ih s).1.
Proof using.
  intros I. unfold start_finish. rewrite known_bind. destruct (torrents s !! ih) as [h|] eqn:Eh; [|done].
  apply bind_state; [done|]. intros h' s' [= <- Ea] _.
  apply bind_state; [by apply orphan_ok|]. intros [] s' [= <-] Is. apply bind_state; [|by intros [] s' _ Is'].
  cbn. rewrite torrents_orphan. apply put_ok_orphan; [done|]. apply (activate_ok d ih h); [by apply I|done].
Qed.

(** What the first half of a start leaves of a session: what the metadata and the peers of a magnet link
    leave of it. *)
Lemma begin_state (P : Session Url → Prop) download b s :
  P s → (∀ s', P s' → P (session_resolve download b s').1) →
  (∀ ih addrs s', ih = dl_info_hash b → P s' → P (inject_peers ih addrs s')) →
  P (start_begin cfg download b s).1.
Proof using.
  intros I Hres Hpeers. unfold start_begin. apply bind_state; [destruct (dl_resolved b); auto|].
  intros b' s1 E I1. assert (dl_info_hash b' = dl_info_hash b) as Eih.
  { destruct (dl_resolved b); [by injection E as _ <-|]. unfold session_resolve in E.
    destruct (resolve_metadata _ _) as [x r]. destruct r; cbn [obind] in E; try discriminate E. by injection E as _ <-. }
  apply bind_state; [case_bool_decide; [done|by apply Hpeers]|].
  intros [] s2 _ I2. apply bind_state; [done|]. intros n s3 [= <- _] _.
  apply bind_state; [done|]. intros [] s3 [= <- _] _. destruct (dl_factory b') as [factory|]; [|done].
  rewrite known_bind. destruct (torrents s2 !! dl_info_hash b') as [h|]; [|done]. by destruct (h_metainfo h).
Qed.

Lemma start_begin_ok download b s : session_ok s → session_ok (start_begin cfg download b s).1.
Proof using.
  intros I. apply begin_state; [done|by apply session_resolve_ok|]. intros. by apply inject_peers_ok.
Qed.

Lemma command_ok c ih s : session_ok s → session_ok (command_torrent c ih s).1.
Proof using.
  intros I. unfold command_torrent. rewrite known_bind. destruct (torrents s !! ih) as [h|] eqn:Eh; [|done].
  destruct (h_loop h) as [l|] eqn:El; [|done]. apply bind_state; [done|]. intros l' s' [= <- E] _.
  apply put_ok; [done|]. destruct (proj1 I _ _ Eh) as [Hih Hl]. split; [by destruct h|]. intros l1 E1.
  unfold send_command in E. destruct (lp_open l); [|done]. injection E as <-.
  destruct (Hl l El) as (H1 & H2 & H3). destruct h. cbn in *. injection E1 as <-. done.
Qed.

Lemma remove_ok ih s : session_ok s → session_ok (remove_torrent ih s).1.
Proof using.
  intros I. unfold remove_torrent. rewrite known_bind. destruct (torrents s !! ih) as [h|] eqn:Eh; [|done].
  apply bind_state; [by apply delete_ok|]. intros [] s' [= <-] Is. destruct (h_loop h); [|done]. by apply orphan_ok.
Qed.

Lemma clear_ok ih s : session_ok s → session_ok (clear_error ih s).1.
Proof using.
  intros I. unfold clear_error. rewrite known_bind. destruct (torrents s !! ih) as [h|] eqn:Eh; [|done].
  case_bool_decide; [|done]. apply put_ok; [done|]. destruct (proj1 I _ _ Eh) as [Hih Hl].
  split; [by destruct h|]. intros l Hlp. destruct h. by apply Hl.
Qed.

Lemma add_torrent_fst pid spec s : (add_torrent sha1 cfg pid spec s).1 = (register_spec sha1 cfg pid spec s).1.
Proof using. unfold add_torrent, sbind. by destruct (register_spec sha1 cfg pid spec s) as [s' [a|e| |]]. Qed.

Lemma activate_seed_ok d m pm ss ih h h' :
  handle_ok ih h → activate_seed sha1 wire cfg d m pm ss h = Ok h' → handle_ok ih h'.
Proof using.
  intros [Hih _] E. unfold activate_seed in E. case_bool_decide; [|done].
  destruct (total_size (info m)) as [ts|e| |]; try discriminate E. cbn [obind] in E. injection E as <-.
  destruct h. cbn in *. subst. split; [done|]. by intros l [= <-].
Qed.

Lemma start_seeding_ok pid d t s : session_ok s → session_ok (start_seeding sha1 wire cfg pid d t s).1.
Proof using.
  intros I. unfold start_seeding. apply bind_state; [done|]. intros st s' [= <- _] _.
  apply bind_state; [done|]. intros [pm v] s' [= <- _] _. apply bind_state; [by apply register_spec_ok|].
  clear I. intros ih s1 _ I. apply bind_state; [done|]. intros o s' [= <- <-] _. apply bind_state; [done|].
  intros h s' [= <- Eh] _. destruct (torrents s1 !! ih) as [h0|] eqn:E; [|done]. injection Eh as ->.
  apply bind_state; [done|]. intros h' s' [= <- Ea] _. apply bind_state; [|done]. apply put_ok; [done|].
  apply (activate_seed_ok d _ pm _ ih h _ (proj1 I _ _ E) Ea).
Qed.

Lemma other_step_ok s s' : other_step s s' → session_ok s → session_ok s'.
Proof using.
  intros Hstep I. destruct Hstep as [pid spec|download b|c ih|ih|ih|ih addrs|ih h h' Eh Hm].
  - rewrite add_torrent_fst. by apply register_spec_ok.
  - by apply session_resolve_ok.
  - by apply command_ok.
  - by apply remove_ok.
  - by apply clear_ok.
  - by apply inject_peers_ok.
  - apply put_ok; [done|]. destruct (proj1 I _ _ Eh) as [Hih Hl]. destruct Hm as (H1 & H2 & H3 & l & l' & E1 & E2 & H4 & H5 & _).
    split; [congruence|]. intros l0 E0. destruct (Hl l E1) as (? & ? & ?). rewrite E2 in E0. injection E0 as <-. by rewrite H2, H4, H5.
Qed.

Lemma session_step_ok s s' : session_step s s' → session_ok s → session_ok s'.
Proof using.
  intros [x Hx|download b|d ih] I; [by eapply other_step_ok|by apply start_begin_ok|by apply start_finish_ok].
Qed.

Lemma seed_step_ok s s' : seed_step s s' → session_ok s → session_ok s'.
Proof using. intros [x Hx|pid d t] I; [by apply (session_step_ok s)|by apply start_seeding_ok]. Qed.

Lemma reachable_ok s : rtc seed_step (session_new (Url := Url)) s → session_ok s.
Proof using.
  assert (session_ok (session_new (Url := Url))) as I0 by (split; [intros ih h; cbn; by rewrite lookup_empty|constructor]).
  intros Hr. revert I0. induction Hr as [|x y z Hxy _ IH]; [done|]. intros I. by apply IH, (seed_step_ok x).
Qed.

(** * How many torrents are active *)

Definition active_one h : nat := if is_active h then 1 else 0.

Lemma active_count_fresh (ts : gmap bytes (TorrentHandle Url)) ih h :
  ts !! ih = None → active_count (<[ih := h]> ts) = (active_one h + active_count ts)%nat.
Proof using.
  intros Hn. unfold active_count. rewrite map_to_list_insert by done. rewrite filter_cons. cbn [snd]. unfold active_one.
  destruct (is_active h); [by rewrite decide_True|by rewrite decide_False].
Qed.

Lemma active_count_delete (ts : gmap bytes (TorrentHandle Url)) ih h :
  ts !! ih = Some h → active_count ts = (active_one h + active_count (delete ih ts))%nat.
Proof using.
  intros Hh. rewrite <- (insert_delete_id ts ih h Hh) at 1. apply active_count_fresh. apply lookup_delete_eq.
Qed.

Lemma active_count_insert (ts : gmap bytes (TorrentHandle Url)) ih h :
  active_count (<[ih := h]> ts) = (active_one h + active_count (delete ih ts))%nat.
Proof using. rewrite <- insert_delete_eq. apply active_count_fresh. apply lookup_delete_eq. Qed.

Lemma active_count_delete_le (ts : gmap bytes (TorrentHandle Url)) ih : (active_count (delete ih ts) ≤ active_count ts)%nat.
Proof using.
  destruct (ts !! ih) as [h|] eqn:E; [rewrite (active_count_delete ts ih h E); lia|by rewrite delete_id].
Qed.

Lemma active_count_same (ts : gmap bytes (TorrentHandle Url)) ih h h' :
  ts !! ih = Some h → is_active h' = is_active h → active_count (<[ih := h']> ts) = active_count ts.
Proof using. intros Hh E. rewrite active_count_insert, (active_count_delete ts ih h Hh). unfold active_one. by rewrite E. Qed.

Lemma inject_peers_count ih addrs s : active_count (torrents (inject_peers ih addrs s)) = active_count (torrents s).
Proof using.
  unfold inject_peers. destruct (torrents s !! ih) as [h|] eqn:E; [|done]. cbn. apply (active_count_same _ _ h); [done|by destruct h].
Qed.

Lemma resolve_count download b s : active_count (torrents (session_resolve download b s).1) = active_count (torrents s).
Proof using.
  unfold session_resolve. destruct (resolve_metadata _ _) as [d r]. cbn [fst].
  destruct (handle_metainfo d); [|done]. destruct (torrents s !! dl_info_hash b) as [h|] eqn:E; [|done].
  cbn. apply (active_count_same _ _ h); [done|by destruct h].
Qed.

Lemma begin_count download b s : active_count (torrents (start_begin cfg download b s).1) = active_count (torrents s).
Proof using.
  apply (begin_state (λ s', active_count (torrents s') = active_count (torrents s))); [done|..].
  - intros s'. by rewrite resolve_count.
  - intros ih addrs s' _. by rewrite inject_peers_count.
Qed.

(** A start goes on only below the limit. *)
Lemma begin_below_limit download b s s' r :
  (0 < max_active_torrents cfg)%nat → start_begin cfg download b s = (s', Ok r) →
  (active_count (torrents s) < max_active_torrents cfg)%nat.
Proof using.
  intros Hpos E. rewrite <- (begin_count download b s), E. cbn [fst]. revert E. unfold start_begin.
  unfold sbind at 1. destruct (if dl_resolved b then _ else _) as [s1 [b'|e| |]]; try discriminate.
  unfold sbind at 1. destruct (if bool_decide _ then _ else _) as [s2 [[]|e| |]]; try discriminate.
  unfold sbind at 1, read. unfold sbind at 1, lift. unfold guard_err.
  destruct ((0 <? max_active_torrents cfg)%nat && _) eqn:E; [discriminate|].
  assert (active_count (torrents s2) < max_active_torrents cfg)%nat as Hlt.
  { apply andb_false_iff in E as [E|E]; [apply Nat.ltb_ge in E; lia|by apply Nat.leb_gt in E]. }
  destruct (dl_factory b') as [factory|]; [|by intros [= <- _]].
  rewrite known_bind. destruct (torrents s2 !! dl_info_hash b') as [h|]; [|discriminate].
  by destruct (h_metainfo h); intros [= <- _].
Qed.

(** The second half makes at most one more torrent active. *)
Lemma finish_count d ih s : (active_count (torrents (start_finish wire cfg d ih s).1) ≤ S (active_count (torrents s)))%nat.
Proof using.
  unfold start_finish. rewrite known_bind. destruct (torrents s !! ih) as [h|] eqn:Eh; [|cbn; lia].
  set (P := λ s', (active_count (torrents s') ≤ S (active_count (torrents s)))%nat).
  apply (bind_state P); [unfold P; cbn; lia|]. intros h' s' [= <- Ea] _.
  apply (bind_state P); [unfold P; cbn; rewrite torrents_orphan; lia|]. intros [] s' [= <-] _.
  apply (bind_state P); [|by intros [] s3 _ Is]. unfold P. cbn. rewrite torrents_orphan, active_count_insert.
  pose proof (active_count_delete_le (torrents s) ih). unfold active_one. destruct (is_active h'); lia.
Qed.

Lemma other_step_count s s' : other_step s s' → (active_count (torrents s') ≤ active_count (torrents s))%nat.
Proof using.
  intros Hstep. set (P := λ s', (active_count (torrents s') ≤ active_count (torrents s))%nat). change (P s').
  assert (P s) as P0 by (unfold P; lia).
  destruct Hstep as [pid spec|download b|c ih|ih|ih|ih addrs|ih h h' Eh Hm].
  - rewrite add_torrent_fst, register_spec_eq. destruct (register _ _ _ _) as [h|e| |] eqn:E; [|done..]. unfold P. cbn.
    rewrite active_count_insert. destruct (register_handle _ _ _ E) as (El & _). unfold active_one, is_active. rewrite El.
    pose proof (active_count_delete_le (torrents s) (h_info_hash h)). cbn. lia.
  - unfold P. by rewrite resolve_count.
  - unfold command_torrent. rewrite known_bind. destruct (torrents s !! ih) as [h|] eqn:Eh; [|done].
    destruct (h_loop h) as [l|] eqn:El; [|done]. apply bind_state; [done|]. intros l' s' [= <- E] _.
    unfold P. cbn. rewrite (active_count_same _ _ h); [done|done|]. unfold is_active. rewrite El. by destruct h.
  - unfold remove_torrent. rewrite known_bind. destruct (torrents s !! ih) as [h|] eqn:Eh; [|done].
    assert (P (set_torrents (delete ih (torrents s)) s)) as I' by apply active_count_delete_le.
    apply bind_state; [done|]. intros [] s' [= <-] _. destruct (h_loop h); [|done]. unfold P. cbn [fst modify].
    by rewrite torrents_orphan.
  - unfold clear_error. rewrite known_bind. destruct (torrents s !! ih) as [h|] eqn:Eh; [|done].
    case_bool_decide; [|done]. unfold P. cbn. rewrite (active_count_same _ _ h); [done|done|by destruct h].
  - unfold P. by rewrite inject_peers_count.
  - destruct Hm as (_ & _ & _ & l & l' & E1 & E2 & _). unfold P. cbn.
    rewrite (active_count_same _ _ h); [done|done|]. unfold is_active. by rewrite E1, E2.
Qed.

(** A session with the starts under way, those whose first half went on to the storage: at most [k] at a
    time. The metadata and the peers of a magnet link are also steps of their own ([other_step]). *)
Inductive start_step (k : nat) : Session Url * list bytes → Session Url * list bytes → Prop :=
| Start_other s s' ps : other_step s s' → start_step k (s, ps) (s', ps)
| Start_begins download b s s' ih factory i ps :
    start_begin cfg download b s = (s', Ok (inr (ih, factory, i))) → (length ps < k)%nat →
    start_step k (s, ps) (s', ih :: ps)
| Start_stays download b s ps :
    (∀ p, (start_begin cfg download b s).2 ≠ Ok (inr p)) → start_step k (s, ps) ((start_begin cfg download b s).1, ps)
| Start_fails s ps1 ih ps2 : start_step k (s, ps1 ++ ih :: ps2) (s, ps1 ++ ps2)
| Start_finishes d s ps1 ih ps2 :
    start_step k (s, ps1 ++ ih :: ps2) ((start_finish wire cfg d ih s).1, ps1 ++ ps2).

Definition within_limit (k : nat) (x : Session Url * list bytes) : Prop :=
  (active_count (torrents x.1) + length x.2 < max_active_torrents cfg + k)%nat.

Lemma start_step_limit k x y :
  (0 < max_active_torrents cfg)%nat → start_step k x y → within_limit k x → within_limit k y.
Proof using.
  unfold within_limit.
  intros Hpos [s s' ps Ho|download b s s' ih factory i ps E Hk|download b s ps _|s ps1 ih ps2|d s ps1 ih ps2]; cbn [fst snd].
  - pose proof (other_step_count s s' Ho). lia.
  - intros _. pose proof (begin_below_limit download b s s' _ Hpos E). pose proof (begin_count download b s) as Hc.
    rewrite E in Hc. cbn [fst length] in *. lia.
  - by rewrite begin_count.
  - rewrite !length_app. cbn [length]. lia.
  - rewrite !length_app. cbn [length]. pose proof (finish_count d ih s). lia.
Qed.

Lemma starts_reachable k s ps :
  (0 < k)%nat → (0 < max_active_torrents cfg)%nat → rtc (start_step k) (session_new, []) (s, ps) →
  within_limit k (s, ps).
Proof using.
  intros Hk Hpos Hr.
  assert (within_limit k (session_new (Url := Url), [])) as I0.
  { unfold within_limit, active_count, session_new. cbn. rewrite map_to_list_empty. cbn. lia. }
  revert I0. induction Hr as [|x y z Hxy _ IH]; [done|]. intros I. by apply IH, (start_step_limit k x).
Qed.

(** ** A start at the limit *)

(** What the metadata and the peers of a magnet link may change: the metainfo and the peer manager of this
    torrent. Its loop stays. *)
Definition prepared h h' : Prop := ∃ m mgr, h' = set_h_peer_mgr mgr (set_h_metainfo m h).

Definition only_prepared (ih : bytes) s s' : Prop :=
  orphans s' = orphans s ∧ (∀ k, k ≠ ih → torrents s' !! k = torrents s !! k) ∧
  option_Forall2 prepared (torrents s !! ih) (torrents s' !! ih).

Lemma only_prepared_put ih h h' s s' :
  only_prepared ih s s' → torrents s' !! ih = Some h → prepared h h' →
  only_prepared ih s (set_torrents (<[ih := h']> (torrents s')) s').
Proof using.
  intros (H1 & H2 & H3) Hh (m & mgr & ->). split; [done|]. cbn [torrents set_torrents]. split.
  - intros k Hk. rewrite lookup_insert_ne by done. by apply H2.
  - rewrite lookup_insert_eq. rewrite Hh in H3. inversion H3 as [h0 h1 (m0 & mgr0 & ->) E E1|]. constructor.
    exists m, mgr. by destruct h0.
Qed.

Lemma begin_prepares download b s : only_prepared (dl_info_hash b) s (start_begin cfg download b s).1.
Proof using.
  apply begin_state.
  - split; [done|]. split; [done|]. destruct (torrents s !! _) as [h|]; constructor.
    exists (h_metainfo h), (h_peer_mgr h). by destruct h.
  - intros s' I. unfold session_resolve. destruct (resolve_metadata _ _) as [x r]. cbn [fst].
    destruct (handle_metainfo x) as [m|]; [|done]. destruct (torrents s' !! dl_info_hash b) as [h|] eqn:E; [|done].
    apply (only_prepared_put _ h); [done|done|]. exists m, (h_peer_mgr h). by destruct h.
  - intros ih addrs s' -> I. unfold inject_peers. destruct (torrents s' !! dl_info_hash b) as [h|] eqn:E; [|done].
    apply (only_prepared_put _ h); [done|done|]. exists (h_metainfo h), (add_peers addrs (h_peer_mgr h)). by destruct h.
Qed.

(** At the limit a start is no more than its first half, and that is not successful. *)
Lemma start_at_limit d download b s :
  (0 < max_active_torrents cfg)%nat → (max_active_torrents cfg ≤ active_count (torrents s))%nat →
  (∀ ih, (start wire cfg d download b s).2 ≠ Ok ih) ∧ (start wire cfg d download b s).1 = (start_begin cfg download b s).1.
Proof using.
  intros Hpos Hfull. unfold start, sbind at 1 3. destruct (start_begin cfg download b s) as [s' [r|e| |]] eqn:E; [|done..].
  pose proof (begin_below_limit download b s s' r Hpos E). lia.
Qed.

Lemma start_at_limit_resolved d download b s :
  (0 < max_active_torrents cfg)%nat → (max_active_torrents cfg ≤ active_count (torrents s))%nat → dl_resolved b = true →
  start wire cfg d download b s = (if bool_decide (dl_magnet_peers b = []) then s else inject_peers (dl_info_hash b) (dl_magnet_peers b) s, Err InvalidInput).
Proof using.
  intros Hpos Hfull Hres. unfold start, start_begin, sbind, sret, read, lift, modify, guard_err. rewrite Hres.
  case_bool_decide; rewrite ?inject_peers_count, (proj2 (Nat.ltb_lt _ _)), (proj2 (Nat.leb_le _ _)) by done; done.
Qed.
End session_facts.
(** A session starts whatever can be bound, and never fails; but with bootstrap nodes a listen port above
    65533 panics, since the DHT's ports are the two that follow it. *)
Lemma session_services_outcome cfg b :
  let has_dht := negb (bool_decide (default [] (bootstrap_nodes cfg) = []) && bool_decide (default [] (bootstrap_nodes_v6 cfg) = [])) in
  session_services cfg b =
    if has_dht && (u16_max <? listen_port cfg + 2) then Panic
    else Ok (mk_services (if has_dht && binds_dht b then Some (listen_port cfg + 1, listen_port cfg + 2) else None)
               (lsd_enabled cfg) (enable_utp cfg && binds_utp b) (binds_tcp b)).
Proof.
  cbn zeta. unfold session_services. destruct (_ && _); [done|]. cbn [negb andb]. unfold checked_add_panic.
  destruct (Z.ltb_spec u16_max (listen_port cfg + 2)).
  - destruct (listen_port cfg + 1 <=? u16_max); [|done]. cbn [obind]. by rewrite (proj2 (Z.leb_gt _ _)) by lia.
  - rewrite !(proj2 (Z.leb_le _ _)) by lia. done.
Qed.

(** * The registry *)

(** C6: the registry of a session. In every state a session reaches, with its torrents downloading and
    seeding: every handle is the one of the hash it is found under, and its loop was built for that
    hash and the metainfo of the handle; the loops that lost their handle take no commands; the active
    torrents are listed once each. An operation on a hash that is not registered is an error that
    changes nothing. Registering puts the new handle under its hash, whatever was there before, and
    leaves the others alone. Removing a torrent cannot fail: it forgets this torrent only, and its
    loop, if it takes commands, was told to cancel. *)
Theorem session_registry : ∀ sha1 Url (U : UrlText Url) wire cfg (s : Session Url),
  rtc (seed_step sha1 wire cfg) session_new s →
  (∀ ih h, torrents s !! ih = Some h → handle_ok ih h) ∧
  Forall (λ l, lp_open l = false) (orphans s) ∧
  NoDup (active_torrents s) ∧ (∀ ih, ih ∈ active_torrents s ↔ is_Some (torrents s !! ih)) ∧
  (∀ ih, torrents s !! ih = None →
     pause_torrent ih s = (s, Err InvalidInput) ∧ resume_torrent ih s = (s, Err InvalidInput) ∧
     remove_torrent ih s = (s, Err InvalidInput) ∧ clear_error ih s = (s, Err InvalidInput) ∧
     torrent_status ih s = (s, Err InvalidInput) ∧ session_file_status ih s = (s, Err InvalidInput)) ∧
  (∀ pid spec h, register sha1 cfg pid spec = Ok h →
     torrents (add_torrent sha1 cfg pid spec s).1 = <[h_info_hash h := h]> (torrents s) ∧
     ts_state (h_status h) = Registered ∧ h_loop h = None) ∧
  (∀ ih h, torrents s !! ih = Some h →
     let '(s', r) := remove_torrent ih s in
     r = Ok tt ∧ torrents s' = delete ih (torrents s) ∧
     ∀ l, h_loop h = Some l → lp_open l = true →
       ∃ l', last (orphans s') = Some l' ∧ lp_config l' = lp_config l ∧ lp_commands l' = lp_commands l ++ [Cancel]).
Proof.
  intros sha1 Url U wire cfg s Hr. destruct (reachable_ok sha1 wire cfg s Hr) as [Ht Ho].
  split; [exact Ht|]. split; [exact Ho|]. split; [apply NoDup_fst_map_to_list|]. split; [|split; [|split]].
  - intros ih. unfold active_torrents. rewrite list_elem_of_fmap. split.
    + intros ([k h] & -> & Hk%elem_of_map_to_list). by eexists.
    + intros [h Hh]. exists (ih, h). split; [done|]. by apply elem_of_map_to_list.
  - intros ih Hn. unfold pause_torrent, resume_torrent, command_torrent, remove_torrent, clear_error, torrent_status,
      session_file_status, query. rewrite !known_bind, Hn. done.
  - intros pid spec h Hreg. rewrite add_torrent_fst, register_spec_eq, Hreg. split; [done|].
    destruct (register_handle _ _ _ _ _ Hreg) as (El & _ & _ & _ & Es). done.
  - intros ih h Hh. unfold remove_torrent. rewrite known_bind, Hh. unfold sbind, modify, sret.
    destruct (h_loop h) as [l|] eqn:El; [|by split_and!]. split; [done|]. split; [by rewrite torrents_orphan|].
    intros l1 [= <-] Hopen. unfold orphan, send_command. rewrite Hopen.
    destruct h. cbn. rewrite last_snoc. eexists. split; [reflexivity|]. done.
Qed.

(** A magnet link of twenty bytes, and a session with its torrent. *)
Definition life_uri : bytes := bs "magnet:?xt=urn:btih:0707070707070707070707070707070707070707&x.pe=10.0.0.1:6881".
Definition life_hash : bytes := replicate 20 7.
#[local] Existing Instance text_urls.

Definition life_magnet : TorrentSpec :=
  match magnet_from_str life_uri with Ok m => SpecMagnet m | _ => SpecMagnet (mk_magnet [] None [] [] None None None None None []) end.

Definition life_session : Session bytes := (add_torrent seed_sha1 default_config [] life_magnet session_new).1.

Lemma session_registry_witness :
  active_torrents life_session = [life_hash] ∧
  pause_torrent [1] life_session = (life_session, Err InvalidInput) ∧
  (let '(s', r) := remove_torrent life_hash life_session in r = Ok tt ∧ torrents s' = delete life_hash (torrents life_session)).
Proof.
  destruct (session_registry seed_sha1 bytes text_urls moved_wire default_config life_session) as (_ & _ & _ & _ & Hu & _ & Hrm).
  - apply rtc_once, Seed_step, Session_other. exact (Session_add seed_sha1 default_config session_new [] life_magnet).
  - split; [vm_compute; reflexivity|]. split.
    + exact (proj1 (Hu [1] eq_refl)).
    + assert (∃ h, torrents life_session !! life_hash = Some h) as [h Hh] by (eexists; vm_compute; reflexivity).
      pose proof (Hrm life_hash h Hh) as H. destruct (remove_torrent life_hash life_session) as [s' r].
      destruct H as (H1 & H2 & _). split; [exact H1|exact H2].
Defined.

(** * The limit *)

(** C14: the limit of active torrents, [max_active_torrents], when there is one. Let a session go through
    any sequence of registrations, metadata downloads, starts, pauses, resumptions and removals, in which
    starts may overlap: a start checks the limit, then makes its storage while anything else may happen,
    then activates its torrent. If never more than [k] starts are between the two, fewer than the limit
    plus [k] torrents are active or about to be; so if starts do not overlap, never more than the limit.
    Paused torrents, and those whose loop has ended, count; seeding is not among these steps.
    A start at the limit never succeeds: no torrent becomes active and no loop changes, other torrents stay
    as they are, and of this one at most the metainfo and the known peers change; if its metadata was there
    the error is [InvalidInput] and only the peers of its magnet link were added, so that without such
    peers the session stays as it is. *)
Theorem active_torrents_are_limited : ∀ sha1 Url (U : UrlText Url) wire cfg k (s : Session Url) ps,
  (0 < max_active_torrents cfg)%nat → (0 < k)%nat → rtc (start_step sha1 wire cfg k) (session_new, []) (s, ps) →
  (active_count (torrents s) + length ps < max_active_torrents cfg + k)%nat ∧
  (k = 1%nat → (active_count (torrents s) ≤ max_active_torrents cfg)%nat) ∧
  ((max_active_torrents cfg ≤ active_count (torrents s))%nat → ∀ d download b,
     let '(s', r) := start wire cfg d download b s in
     (∀ ih, r ≠ Ok ih) ∧ active_count (torrents s') = active_count (torrents s) ∧ only_prepared (dl_info_hash b) s s' ∧
     (dl_resolved b = true → r = Err InvalidInput ∧
        s' = if bool_decide (dl_magnet_peers b = []) then s else inject_peers (dl_info_hash b) (dl_magnet_peers b) s)).
Proof.
  intros sha1 Url U wire cfg k s ps Hpos Hk Hr. pose proof (starts_reachable sha1 wire cfg k s ps Hk Hpos Hr) as Hlim.
  unfold within_limit in Hlim. cbn [fst snd] in Hlim. split; [done|]. split; [intros ->; lia|].
  intros Hfull d download b. destruct (start_at_limit wire cfg d download b s Hpos Hfull) as [Hno E].
  pose proof (start_at_limit_resolved wire cfg d download b s Hpos Hfull) as Hres.
  destruct (start wire cfg d download b s) as [s' r]. cbn [fst snd] in *. split; [done|]. rewrite E.
  split; [apply begin_count|]. split; [apply begin_prepares|]. rewrite <- E. intros Hb. by injection (Hres Hb) as -> ->.
Qed.

(** * Seeding *)

(** C23: seeding starts complete. Whatever a session holds, starting to seed what was hashed from a
    source that keeps the contract of [DataSource] ([FullReads]; texts, piece length and number of pieces
    within their bounds) registers the torrent under its info hash and leaves the other torrents alone; the torrent
    is [Seeding] from the start, and its loop starts with every piece and none missing. *)
Theorem seeding_starts_complete : ∀ sha1 Url (U : UrlText Url) wire cfg b data pid d (s : Session Url),
  FullReads (sb_source b) data → (∀ x, length (sha1 x) = 20%nat) → builder_ok b →
  0 < used_piece_length b data ≤ u32_max → 20 * (zlen data + 1) ≤ i64_max →
  zlen (split_pieces (Z.to_nat (used_piece_length b data)) data) ≤ u32_max →
  let m := seed_torrent sha1 b data in
  ∃ t h l, hash sha1 b = Ok t ∧
    (start_seeding sha1 wire cfg pid d t s).2 = Ok (info_hash sha1 m) ∧
    torrents (start_seeding sha1 wire cfg pid d t s).1 = <[info_hash sha1 m := h]> (torrents s) ∧
    h_metainfo h = Some m ∧ ts_state (h_status h) = Seeding ∧ h_loop h = Some l ∧ lp_metainfo l = m ∧
    s_piece_mgr (x_core (l_ctx (lp_start l))) = h_piece_mgr h ∧ missing_pieces (h_piece_mgr h) = [] ∧
    Piece.num_pieces (h_piece_mgr h) = Metainfo.num_pieces (info m).
Proof.
  intros sha1 Url U wire cfg b data pid d s HF Hsha Hb Hpl Hlen Hn m.
  destruct (prepare_seed_ok sha1 b data Hsha Hb Hpl Hlen Hn) as (tb & st & pm & E & _ & _ & Hpm & Hnum & Hmiss).
  unfold prepare_seed in E. destruct (hash sha1 b) as [t|e| |] eqn:Eh; try discriminate E. cbn [obind] in E.
  destruct (source_storage_new (pt_source t) (info (pt_metainfo t))) as [st'|e| |] eqn:Es; try discriminate E. cbn [obind] in E.
  destruct (verify_existing sha1 st' tt (info (pt_metainfo t)) _) as [[pm' v]|e| |] eqn:Ev; try discriminate E. cbn [obind] in E.
  injection E as Et -> -> _. assert (pt_metainfo t = m) as Em by (by rewrite Et).
  assert (total_size (info m) = Ok (zlen data)) as Hts by done.
  destruct (register (Url := Url) sha1 cfg pid (SpecMetainfo m)) as [h0|e| |] eqn:Er;
    [|unfold register in Er; cbn [spec_info_hash obind] in Er; rewrite Hts in Er; discriminate Er..].
  destruct (register_handle _ _ _ _ _ Er) as (El & Ei & _). cbn [spec_info_hash] in Ei. injection Ei as Ei.
  assert (∃ h l, activate_seed sha1 wire cfg d m pm (pt_super_seed t) h0 = Ok h ∧ h_metainfo h = Some m ∧
    ts_state (h_status h) = Seeding ∧ h_loop h = Some l ∧ lp_metainfo l = m ∧
    s_piece_mgr (x_core (l_ctx (lp_start l))) = h_piece_mgr h ∧ h_piece_mgr h = pm) as (h & l & Ea & Hm & Hst & Hl & Hlm & Hs & Hp).
  { unfold activate_seed. rewrite bool_decide_true by done. rewrite Hts. cbn [obind]. rewrite Hmiss.
    rewrite bool_decide_true by done. clear Er. destruct h0 as [a1 a2 a3 a4 a5 a6 a7 a8 a9 a10]. destruct a5.
    eexists _, _. split; [reflexivity|]. by split_and!. }
  exists t, h, l. split; [done|].
  assert (start_seeding sha1 wire cfg pid d t s =
    (set_torrents (<[info_hash sha1 m := h]> (torrents s)) (orphan (torrents s !! info_hash sha1 m) s), Ok (info_hash sha1 m))) as ->.
  { unfold start_seeding, sbind, lift, read, put, modify, sret. rewrite Es, Ev. rewrite register_spec_eq, Em, Er, <- Ei. cbn.
    rewrite lookup_insert_eq, Ea. cbn. by rewrite insert_insert_eq. }
  split; [done|]. split; [done|]. rewrite Hp. split_and!; try done; congruence.
Qed.

(** One more torrent than the limit: seeding does not look at it. *)
Definition one_active : SessionConfig :=
  let 'mk_session_config a b c d e f g _ i j k l m n o p q r s t u v w x y z aa ab ac ad ae af ag ah := default_config in
  mk_session_config a b c d e f g 1 i j k l m n o p q r s t u v w x y z aa ab ac ad ae af ag ah.

Definition life_draw : Draw := mk_draw [] 0 [].

Definition seed_twice : Session bytes :=
  match hash seed_sha1 seed_example, hash seed_sha1 (with_piece_length 3 (seed_builder_new (memory_source (bs "abc")))) with
  | Ok t1, Ok t2 => (start_seeding seed_sha1 moved_wire one_active [] life_draw t2
                      (start_seeding seed_sha1 moved_wire one_active [] life_draw t1 session_new).1).1
  | _, _ => session_new
  end.

Definition life_meta (data : bytes) : Metainfo :=
  seed_torrent seed_sha1 (with_piece_length 3 (with_name (bs "f") (seed_builder_new (memory_source data)))) data.

Definition life_download (data : bytes) : Download :=
  mk_builder (info_hash seed_sha1 (life_meta data)) true [] (Some (λ _, Ok tt)).

Definition life_added : Session bytes :=
  (add_torrent seed_sha1 one_active [] (SpecMetainfo (life_meta (bs "abc")))
     (add_torrent seed_sha1 one_active [] (SpecMetainfo (life_meta (bs "abcdef"))) session_new).1).1.

Definition life_started : Session bytes :=
  (start moved_wire one_active life_draw (λ _, Err Io) (life_download (bs "abcdef")) life_added).1.

Lemma life_begins :
  start_begin one_active (λ _, Err Io) (life_download (bs "abcdef")) life_added =
    (life_added, Ok (inr (info_hash seed_sha1 (life_meta (bs "abcdef")), (λ _, Ok tt), info (life_meta (bs "abcdef"))))).
Proof. vm_compute. reflexivity. Qed.

Lemma life_started_eq :
  life_started = (start_finish moved_wire one_active life_draw (info_hash seed_sha1 (life_meta (bs "abcdef"))) life_added).1.
Proof. unfold life_started, start, sbind, lift. rewrite life_begins. reflexivity. Qed.

Lemma active_torrents_are_limited_witness :
  active_count (torrents life_started) = 1%nat ∧
  start moved_wire one_active life_draw (λ _, Err Io) (life_download (bs "abc")) life_started = (life_started, Err InvalidInput).
Proof.
  assert (active_count (torrents life_started) = 1%nat) as E by (vm_compute; reflexivity). split; [exact E|].
  destruct (active_torrents_are_limited seed_sha1 bytes text_urls moved_wire one_active 1 life_started []) as (_ & _ & Hfull).
  - vm_compute. apply le_n.
  - apply le_n.
  - eapply rtc_l; [apply (Start_other seed_sha1 moved_wire one_active 1 session_new), (Session_add seed_sha1 one_active session_new [] (SpecMetainfo (life_meta (bs "abcdef"))))|].
    eapply rtc_l; [apply Start_other, (Session_add seed_sha1 one_active _ [] (SpecMetainfo (life_meta (bs "abc"))))|].
    eapply rtc_l; [eapply (Start_begins seed_sha1 moved_wire one_active 1 (λ _, Err Io)); [exact life_begins|apply le_n]|].
    apply rtc_once. rewrite life_started_eq. apply (Start_finishes seed_sha1 moved_wire one_active 1 life_draw life_added [] _ []).
  - assert (max_active_torrents one_active ≤ active_count (torrents life_started))%nat as Hle by (rewrite E; vm_compute; apply le_n).
    specialize (Hfull Hle life_draw (λ _, Err Io) (life_download (bs "abc"))).
    destruct (start moved_wire one_active life_draw (λ _, Err Io) (life_download (bs "abc")) life_started) as [s' r].
    destruct Hfull as (_ & _ & _ & Hres). destruct (Hres eq_refl) as [-> ->]. reflexivity.
Defined.

(** Two starts whose first halves come before their second halves exceed the limit. *)
Example overlapping_starts_exceed_the_limit :
  let first := start_begin one_active (λ _, Err Io) (life_download (bs "abcdef")) life_added in
  let second := start_begin one_active (λ _, Err Io) (life_download (bs "abc")) first.1 in
  let ih data := info_hash seed_sha1 (life_meta data) in
  let s := (start_finish moved_wire one_active life_draw (ih (bs "abcdef")) second.1).1 in
  max_active_torrents one_active = 1%nat ∧
  (start_finish moved_wire one_active life_draw (ih (bs "abc")) s).2 = Ok (ih (bs "abc")) ∧
  active_count (torrents (start_finish moved_wire one_active life_draw (ih (bs "abc")) s).1) = 2%nat.
Proof. cbv zeta. split; [|split]; vm_compute; reflexivity. Qed.

(** The limit does not hold for seeding. *)
Example seeding_ignores_the_limit : active_count (torrents seed_twice) = 2%nat ∧ max_active_torrents one_active = 1%nat.
Proof. split; vm_compute; reflexivity. Qed.

Lemma seeding_starts_complete_witness :
  ∃ t h l, hash seed_sha1 seed_example = Ok t ∧
    torrents (start_seeding seed_sha1 moved_wire one_active [] life_draw t life_session).1
      = <[info_hash seed_sha1 (life_meta (bs "abcdef")) := h]> (torrents life_session) ∧
    ts_state (h_status h) = Seeding ∧ h_loop h = Some l ∧ missing_pieces (s_piece_mgr (x_core (l_ctx (lp_start l)))) = [].
Proof.
  assert (builder_ok seed_example) as Hb.
  { split; [split; [vm_compute; congruence|reflexivity]|]. split; [constructor|].
    split; [split; [vm_compute; congruence|reflexivity]|]. split; discriminate. }
  destruct (seeding_starts_complete seed_sha1 bytes text_urls moved_wire one_active seed_example (bs "abcdef") [] life_draw life_session)
    as (t & h & l & Eh & _ & Es & _ & Hst & Hl & _ & Hpm & Hmiss & _).
  - apply memory_full.
  - intros x. unfold seed_sha1. rewrite length_take, length_app, length_replicate. clear. lia.
  - exact Hb.
  - vm_compute. split; congruence.
  - vm_compute. congruence.
  - vm_compute. congruence.
  - exists t, h, l. split; [exact Eh|]. split; [exact Es|]. split; [exact Hst|]. split; [exact Hl|]. rewrite Hpm. exact Hmiss.
Defined.

(** * A magnet link that got its metadata *)

(** The piece manager of a magnet torrent is made before the number of pieces is known, and activation
    does not replace it: the loop starts with no pieces at all, none missing, whatever the metadata. *)
Lemma magnet_loop_starts_empty sha1 {Url} `{UrlText Url} wire cfg pid uri d m (h h' : TorrentHandle Url) :
  register sha1 cfg pid (SpecMagnet uri) = Ok h → activate wire cfg d (set_h_metainfo (Some m) h) = Ok h' →
  ∃ l, h_loop h' = Some l ∧ lp_metainfo l = m ∧
    Piece.num_pieces (s_piece_mgr (x_core (l_ctx (lp_start l)))) = 0%nat ∧
    missing_pieces (s_piece_mgr (x_core (l_ctx (lp_start l)))) = [].
Proof.
  intros Er Ea. destruct (register_handle _ _ _ _ _ Er) as (_ & _ & _ & Hp & _). destruct h. cbn in Hp. subst.
  unfold activate in Ea. cbn in Ea. destruct (total_size (info m)); try discriminate Ea. cbn in Ea. injection Ea as <-.
  eexists. split; [reflexivity|]. done.
Qed.
