(* ===== verification/Discovery.v ===== *)
(** Peers that find a session: connections that come in, [crates/torrent/src/session/inbound.rs], and
    the local service discovery of [crates/torrent/src/session/lsd.rs]. *)

From stdpp Require Import base numbers list gmap strings.
From Stdlib Require Import ZArith Lia.
From S2P Require Import Handshake Prelude Facts Error Net IpText Metainfo MetainfoBuilder Magnet Lsd Step PeerManager.
From S2P Require Import Registration PeerStream PexExt FullLoop StorageArray HttpClient HttpTracker HttpAnnounce.
From S2P Require Import TrackerClient DhtExchange Seeding SeedVerify Session SessionLife.

Section discovery.
Context {Url : Type} `{UrlText Url}.
Implicit Types s : Session Url.

(** * Connections that come in *)

(** The stream and the session. *)
Definition on_io {A} (m : io_step A) : Step.step (Io * Session Url) A := λ '(io, s),
  let '(io', r) := m io in ((io', s), r).

Definition on_session (f : Session Url → Session Url) : Step.step (Io * Session Url) unit := modify (λ '(io, s), (io, f s)).

Definition read_handshake : io_step Handshake.Handshake :=
  do! buf := read_with_timeout 68 in lift (Handshake.from_bytes buf).

(** [let _ = control_tx.send(command)]. *)
Definition send_to_loop (c : TorrentCommand) (ih : bytes) (s : Session Url) : Session Url :=
  match torrents s !! ih with
  | Some h =>
      match h_loop h with
      | Some l =>
          match send_command c l with
          | Ok l' => set_torrents (<[ih := set_h_loop (Some l') h]> (torrents s)) s
          | _ => s
          end
      | None => s
      end
  | None => s
  end.

(** [handle_inbound_tcp]. *)
Definition handle_inbound (nodelay : bool) (our_peer_id : bytes) (addr : SocketAddr) : Step.step (Io * Session Url) unit :=
  do! r := attempt (on_io read_handshake) in
  match r with
  | inr _ => sret tt
  | inl remote =>
      let ih := Handshake.info_hash remote in
      do! control_tx := read (λ '(_, s), torrents s !! ih ≫= h_loop) in
      match control_tx with
      | None => sret tt
      | Some _ =>
          do! r := attempt (on_io (inbound nodelay (Handshake.peer_id remote) (Handshake.reserved remote) ih our_peer_id)) in
          match r with
          | inr _ => sret tt
          | inl conn => on_session (send_to_loop (InboundPeer addr (remote_reserved conn)) ih)
          end
      end
  end.

(** [handle_inbound_utp], the callback of the uTP socket. *)
Definition handle_inbound_utp (our_peer_id : bytes) (addr : SocketAddr) : Step.step (Io * Session Url) unit :=
  do! r := attempt (on_io (read_with_timeout 68)) in
  match r with
  | inr _ => sret tt
  | inl buf =>
      do! r := attempt (lift (Handshake.from_bytes buf)) in
      match r with
      | inr _ => sret tt
      | inl remote =>
          let ih := Handshake.info_hash remote in
          do! control_tx := read (λ '(_, s), torrents s !! ih ≫= h_loop) in
          match control_tx with
          | None => sret tt
          | Some _ =>
              do! r := attempt (on_io (inbound_utp (Handshake.peer_id remote) (Handshake.reserved remote) ih our_peer_id)) in
              match r with
              | inr _ => sret tt
              | inl conn => on_session (send_to_loop (InboundPeer addr (remote_reserved conn)) ih)
              end
          end
      end
  end.

(** [accept_loop] over what the listener accepts, [None] for an error: one connection after the other,
    each with what [set_nodelay] will give on it and a peer id drawn for it. A panic ends the task. *)
Fixpoint accept_loop (peer_id : nat → bytes) (n : nat) (accepted : list (option (Io * SocketAddr * bool))) s
    : list Io * Session Url :=
  match accepted with
  | [] => ([], s)
  | None :: accepted' => accept_loop peer_id (S n) accepted' s
  | Some (io, addr, nodelay) :: accepted' =>
      match handle_inbound nodelay (peer_id n) addr (io, s) with
      | ((io', s'), Panic) | ((io', s'), NoFuel) => ([io'], s')
      | ((io', s'), _) => let '(ios, s'') := accept_loop peer_id (S n) accepted' s' in (io' :: ios, s'')
      end
  end.

(** * Local service discovery *)

Definition LSD_IPV4_MULTICAST : IpAddr := V4 [239; 192; 152; 143].
Definition LSD_IPV6_MULTICAST : IpAddr := V6 [255; 21; 0; 0; 0; 0; 0; 0; 0; 0; 0; 0; 239; 192; 152; 143].
Definition LSD_PORT : Z := 6771.

(** [LsdService::handle_incoming]. *)
Definition handle_incoming (data : bytes) (src : SocketAddr) (s : Session Url) : Session Url :=
  match lsd_from_bytes data with
  | Ok announce =>
      let known := filter (λ ih, is_Some (torrents s !! ih)) (a_info_hashes announce) in
      let peer_addr := mk_addr (ip src) (a_port announce) in
      foldl (λ s ih, inject_peers ih [peer_addr] s) s known
  | _ => s
  end.

(** One socket of [LsdService::broadcast_announce]. *)
Definition broadcast_on (host : LsdHost) (port : Z) (info_hashes : list bytes) : list (SocketAddr * bytes) :=
  match lsd_to_bytes (mk_announce host port info_hashes None) with
  | Some data =>
      [(mk_addr (match host with HostV4 => LSD_IPV4_MULTICAST | HostV6 => LSD_IPV6_MULTICAST end) LSD_PORT, data)]
  | None => []
  end.

(** [LsdService::broadcast_announce]: the datagrams, for the sockets that could be bound. *)
Definition broadcast_announce (v4 v6 : bool) (port : Z) (s : Session Url) : list (SocketAddr * bytes) :=
  let info_hashes := active_torrents s in
  if bool_decide (info_hashes = []) then []
  else (if v4 then broadcast_on HostV4 port info_hashes else []) ++
       (if v6 then broadcast_on HostV6 port info_hashes else []).

Definition MAX_LSD_DATAGRAM : nat := 1500.

(** [struct LsdService]: the sockets that could be bound, the port that is announced, and how often. *)
Record LsdService : Type := mk_lsd { socket_v4 : bool; socket_v6 : bool; lsd_port : Z; announce_interval : Z }.

Definition lsd_new (bound_v4 bound_v6 : result unit) (cfg : SessionConfig) : LsdService :=
  mk_lsd (is_ok bound_v4) (is_ok bound_v6) (listen_port cfg) (lsd_interval cfg).

(** What the [select!] of [run] waits for: what one of the sockets receives, the thirty seconds without
    a socket, or the timer, whose first tick comes at once. *)
Inductive LsdEvent : Type := Receives (host : LsdHost) (r : result (bytes * SocketAddr)) | Sleeps | Ticks.

(** [recv_any]: a datagram that does not fit the buffer is cut; a socket that was not bound receives nothing. *)
Definition recv_any (svc : LsdService) (ev : LsdEvent) : option (bytes * SocketAddr) :=
  match ev with
  | Receives host r =>
      if (match host with HostV4 => socket_v4 svc | HostV6 => socket_v6 svc end)
      then '(data, src) ← outcome_ok r; Some (take MAX_LSD_DATAGRAM data, src)
      else None
  | _ => None
  end.

Definition lsd_turn (svc : LsdService) (ev : LsdEvent) s : Session Url * list (SocketAddr * bytes) :=
  match ev with
  | Ticks => (s, broadcast_announce (socket_v4 svc) (socket_v6 svc) (lsd_port svc) s)
  | _ =>
      (match recv_any svc ev with
       | Some (buf, src) => handle_incoming buf src s
       | None => s
       end, [])
  end.

(** [run]: the session and everything that was sent. *)
Fixpoint lsd_turns (svc : LsdService) (events : list LsdEvent) s : Session Url * list (SocketAddr * bytes) :=
  match events with
  | [] => (s, [])
  | ev :: events' =>
      let '(s', out) := lsd_turn svc ev s in
      let '(s'', out') := lsd_turns svc events' s' in (s'', out ++ out')
  end.

Definition lsd_run (svc : LsdService) (events : list LsdEvent) s : Session Url * list (SocketAddr * bytes) :=
  let '(s', out) := lsd_turns svc events s in
  (s', broadcast_announce (socket_v4 svc) (socket_v6 svc) (lsd_port svc) s ++ out).
End discovery.

(** * Both ways for peers to find a session work across two of them: about [Discovery], [PeerStream] and
    [Lsd]. *)

(** * Connections *)

(** The reserved bytes of every handshake of the program: BEP 10 twice and BEP 6. *)
Definition our_reserved : Conn := [0; 0; 0; 0; 0; 24; 0; 1].

Lemma our_handshake_eq ih pid : our_handshake ih pid = Ok (Handshake.mk_handshake ih pid our_reserved).
Proof. reflexivity. Qed.

Lemma our_handshake_bytes ih pid :
  length ih = 20%nat → length pid = 20%nat →
  length (Handshake.to_bytes (Handshake.mk_handshake ih pid our_reserved)) = 68%nat ∧
  Handshake.from_bytes (Handshake.to_bytes (Handshake.mk_handshake ih pid our_reserved))
    = Ok (Handshake.mk_handshake ih pid our_reserved).
Proof.
  intros Hi Hp. assert (Handshake.handshake_ok (Handshake.mk_handshake ih pid our_reserved)) as H.
  { repeat split; try done. apply (bool_decide_unpack _). vm_compute. exact I. }
  split; [by apply Handshake.length_to_bytes|by apply Handshake.from_to_bytes].
Qed.

(** What the connecting side does with the answer. *)
Lemma connect_answer ih ih' pid pid' rest :
  length ih' = 20%nat → length pid' = 20%nat →
  connect ih pid (mk_io (Handshake.to_bytes (Handshake.mk_handshake ih' pid' our_reserved) ++ rest) [] Taken) =
  (mk_io rest (Handshake.to_bytes (Handshake.mk_handshake ih pid our_reserved)) Taken,
   if bool_decide (ih' = ih) then Ok (mk_connection Init (Some pid') our_reserved) else Err PeerInvalidHandshake).
Proof.
  intros Hi Hp. destruct (our_handshake_bytes ih' pid' Hi Hp) as [Hl Hf].
  unfold connect, perform_handshake, sbind, lift, sret. rewrite our_handshake_eq.
  unfold write_unless_stalled, write_with_timeout. cbn [write_end incoming outgoing fst].
  rewrite read_exact_app by done. rewrite Hf. cbn [Handshake.info_hash Handshake.peer_id Handshake.reserved app].
  by case_bool_decide.
Qed.

Section inbound.
Context {Url : Type} `{UrlText Url}.
Implicit Types s : Session Url.

(** What the accepting side does with a handshake. *)
Lemma handle_inbound_known ih pid pid' addr rest s :
  length ih = 20%nat → length pid' = 20%nat →
  handle_inbound true pid addr (mk_io (Handshake.to_bytes (Handshake.mk_handshake ih pid' our_reserved) ++ rest) [] Taken, s) =
  match torrents s !! ih ≫= h_loop with
  | Some _ => ((mk_io rest (Handshake.to_bytes (Handshake.mk_handshake ih pid our_reserved)) Taken,
                send_to_loop (InboundPeer addr our_reserved) ih s), Ok tt)
  | None => ((mk_io rest [] Taken, s), Ok tt)
  end.
Proof using.
  intros Hi Hp. destruct (our_handshake_bytes ih pid' Hi Hp) as [Hl Hf].
  unfold handle_inbound, sbind, attempt, on_io, read_handshake, sbind, lift, read, sret.
  rewrite read_exact_app by done. rewrite Hf. cbn [Handshake.info_hash Handshake.peer_id Handshake.reserved].
  destruct (torrents s !! ih ≫= h_loop); [|done]. unfold inbound, write_handshake, sbind, lift, sret.
  rewrite our_handshake_eq. reflexivity.
Qed.

(** Bytes that are no handshake change nothing in the session. *)
Lemma handle_inbound_refused nodelay pid addr i out we s :
  ((length i < 68)%nat ∨ Handshake.from_bytes (take 68 i) = Err PeerInvalidHandshake) →
  ∃ io, handle_inbound nodelay pid addr (mk_io i out we, s) = ((io, s), Ok tt) ∧ outgoing io = out.
Proof using.
  intros Hi. unfold handle_inbound, sbind, attempt, on_io, read_handshake, sbind, lift, read, sret.
  unfold read_with_timeout. cbn [incoming outgoing write_end].
  destruct (Nat.leb_spec 68 (length i)) as [Hle|Hgt]; [|by eexists].
  destruct Hi as [?|Hf]; [lia|]. rewrite Hf. by eexists.
Qed.

(** Neither does a stream on which [set_nodelay] fails. *)
Lemma handle_inbound_delayed pid addr i out we s :
  ∃ io, handle_inbound false pid addr (mk_io i out we, s) = ((io, s), Ok tt) ∧ outgoing io = out.
Proof using.
  unfold handle_inbound, sbind, attempt, on_io, read_handshake, sbind, lift, read, sret.
  unfold read_with_timeout. cbn [incoming outgoing write_end].
  destruct (68 <=? length i)%nat; [|by eexists].
  destruct (from_bytes_outcome (take 68 i)) as [[hs ->]| ->]; [|by eexists].
  destruct (torrents s !! _ ≫= h_loop); by eexists.
Qed.
End inbound.

(** C13: connections between two sessions. The handshake that the connecting side writes makes an
    accepting session that runs the torrent write its own and hand the connection to the loop of this
    torrent, as one command after those it already has, and nothing else changes; with this answer
    the connecting side has a connection. Each side knows the other's peer id and that it speaks the
    extension protocol and the fast extension, and what follows the handshakes is left for the
    messages. A session that does not run the torrent answers nothing and stays as it is, and the
    connecting side fails; an answer for another torrent is refused, and bytes that are no handshake
    change nothing; nor does a connection on which [set_nodelay] fails. *)
Theorem inbound_meets_outbound : ∀ Url (U : UrlText Url) (s : Session Url) ih pid1 pid2 addr,
  length ih = 20%nat → length pid1 = 20%nat → length pid2 = 20%nat →
  ∃ request answer,
    (∀ i, outgoing (connect ih pid1 (mk_io i [] Taken)).1 = request) ∧
    (∀ h l rest, torrents s !! ih = Some h → h_loop h = Some l → lp_open l = true →
       ∃ s', handle_inbound true pid2 addr (mk_io (request ++ rest) [] Taken, s) = ((mk_io rest answer Taken, s'), Ok tt) ∧
         orphans s' = orphans s ∧
         torrents s' = <[ih := set_h_loop (Some (mk_running (lp_config l) (lp_metainfo l) (lp_start l) true
                                   (lp_commands l ++ [InboundPeer addr our_reserved]))) h]> (torrents s)) ∧
    (∀ rest, connect ih pid1 (mk_io (answer ++ rest) [] Taken)
             = (mk_io rest request Taken, Ok (mk_connection Init (Some pid2) our_reserved))) ∧
    remote_has_extension our_reserved 44 = true ∧ remote_ltep our_reserved = true ∧
    (torrents s !! ih ≫= h_loop = None →
       ∀ rest, handle_inbound true pid2 addr (mk_io (request ++ rest) [] Taken, s) = ((mk_io rest [] Taken, s), Ok tt)) ∧
    (connect ih pid1 (mk_io [] [] Taken)).2 = Err PeerConnectionClosed ∧
    (∀ ih' rest, length ih' = 20%nat → ih' ≠ ih →
       (connect ih' pid1 (mk_io (answer ++ rest) [] Taken)).2 = Err PeerInvalidHandshake) ∧
    (∀ nodelay i out we,
       (length i < 68)%nat ∨ Handshake.from_bytes (take 68 i) = Err PeerInvalidHandshake ∨ nodelay = false →
       ∃ io, handle_inbound nodelay pid2 addr (mk_io i out we, s) = ((io, s), Ok tt) ∧ outgoing io = out).
Proof.
  intros Url U s ih pid1 pid2 addr Hi H1 H2.
  exists (Handshake.to_bytes (Handshake.mk_handshake ih pid1 our_reserved)),
         (Handshake.to_bytes (Handshake.mk_handshake ih pid2 our_reserved)).
  split; [|split; [|split; [|split; [|split; [|split; [|split; [|split]]]]]]].
  - intros i. unfold connect, perform_handshake, sbind, lift, sret, write_unless_stalled, write_with_timeout. rewrite our_handshake_eq.
    cbn [write_end incoming outgoing fst app]. unfold read_with_timeout. cbn [incoming outgoing write_end].
    destruct (68 <=? length i)%nat; [|done]. destruct (Handshake.from_bytes _); try done.
    unfold guard_err. by destruct (negb _).
  - intros h l rest Hh Hl Ho. rewrite handle_inbound_known by done. rewrite Hh. cbn [mbind option_bind]. rewrite Hl.
    eexists. split; [reflexivity|]. unfold send_to_loop, send_command. by rewrite Hh, Hl, Ho.
  - intros rest. rewrite connect_answer by done. by rewrite bool_decide_true by done.
  - done.
  - done.
  - intros Hn rest. rewrite handle_inbound_known by done. by rewrite Hn.
  - done.
  - intros ih' rest Hi' Hne. rewrite connect_answer by done. by rewrite bool_decide_false by congruence.
  - intros nodelay i out we [Hbad|[Hbad| ->]]; [apply handle_inbound_refused; auto..|by apply handle_inbound_delayed].
Qed.

Lemma inbound_meets_outbound_witness :
  let ih := info_hash seed_sha1 (life_meta (bs "abcdef")) in
  let pid1 := replicate 20 1 in let pid2 := replicate 20 2 in
  (connect ih pid1 (mk_io (Handshake.to_bytes (Handshake.mk_handshake ih pid2 our_reserved)) [] Taken)).2
    = Ok (mk_connection Init (Some pid2) our_reserved) ∧
  ∃ request, outgoing (connect ih pid1 (mk_io [] [] Taken)).1 = request ∧
    handle_inbound true pid2 (mk_addr (V4 [10; 0; 0; 1]) 6881) (mk_io request [] Taken, life_session)
      = ((mk_io [] [] Taken, life_session), Ok tt).
Proof.
  intros ih pid1 pid2.
  destruct (inbound_meets_outbound bytes text_urls life_session ih pid1 pid2 (mk_addr (V4 [10; 0; 0; 1]) 6881))
    as (request & answer & Hr & _ & _ & _ & _ & Hn & _); [vm_compute; reflexivity..|].
  split; [vm_compute; reflexivity|]. exists request. split; [exact (Hr [])|].
  rewrite <- (app_nil_r request). apply (Hn eq_refl []).
Defined.

(** The same request makes the session that downloads the torrent take the connection. *)
Example connection_is_handed_over :
  let ih := info_hash seed_sha1 (life_meta (bs "abcdef")) in
  let '((io, s), r) := handle_inbound true (replicate 20 2) (mk_addr (V4 [10; 0; 0; 1]) 6881)
    (mk_io (Handshake.to_bytes (Handshake.mk_handshake ih (replicate 20 1) our_reserved)) [] Taken, life_started) in
  r = Ok tt ∧ length (outgoing io) = 68%nat ∧
  (lp_commands <$> (torrents s !! ih ≫= h_loop)) = Some [InboundPeer (mk_addr (V4 [10; 0; 0; 1]) 6881) our_reserved].
Proof. vm_compute. done. Qed.

(** * Local service discovery *)

Section lsd.
Context {Url : Type} `{UrlText Url}.
Implicit Types (s : Session Url) (h : TorrentHandle Url).

Definition learns (addr : SocketAddr) h : TorrentHandle Url := set_h_peer_mgr (add_peers [addr] (h_peer_mgr h)) h.

Lemma inject_peer_lookup ih addr s k :
  torrents (inject_peers ih [addr] s) !! k =
    if bool_decide (k = ih) then learns addr <$> torrents s !! k else torrents s !! k.
Proof using.
  unfold inject_peers. case_bool_decide as Hk; [subst k|]; destruct (torrents s !! ih) as [h|] eqn:E; cbn;
    rewrite ?lookup_insert_eq, ?E, ?lookup_insert_ne by done; done.
Qed.

Lemma inject_each hs addr s k :
  NoDup hs →
  torrents (foldl (λ s ih, inject_peers ih [addr] s) s hs) !! k =
    if bool_decide (k ∈ hs) then learns addr <$> torrents s !! k else torrents s !! k.
Proof using.
  intros Hn. revert s. induction Hn as [|ih hs Hnot _ IH]; intros s; [done|]. cbn [foldl].
  rewrite IH, inject_peer_lookup. rewrite (bool_decide_ext (k ∈ ih :: hs) (k = ih ∨ k ∈ hs)) by apply elem_of_cons.
  rewrite bool_decide_or. destruct (bool_decide_reflect (k = ih)) as [->|Hk]; cbn [orb]; [|done].
  by rewrite bool_decide_false by done.
Qed.

Lemma inject_each_orphans hs addr s :
  orphans (foldl (λ s ih, inject_peers ih [addr] s) s hs) = orphans s.
Proof using.
  revert s. induction hs as [|ih hs IH]; intros s; [done|]. cbn [foldl]. rewrite IH. unfold inject_peers.
  by destruct (torrents s !! ih).
Qed.

(** Twenty-five hashes fit, in an announce of either family, whatever the port. *)
Lemma announce_room host port hs : room (head_length (mk_announce host port hs None)) = 25%nat.
Proof using.
  assert (∀ n, (46 < n ≤ 98)%nat → room n = 25%nat) as Hroom.
  { intros n Hn. symmetry. apply (Nat.div_unique _ 52 25 (98 - n)); lia. }
  apply Hroom. unfold head_length, head_lines, cookie_lines, unlines. cbn [a_host a_port a_cookie map concat].
  rewrite !length_app. pose proof (zlen_u64_to_string port). unfold zlen in *.
  destruct host; cbn [multicast_addr length]; change (length (bs ?t)) with (String.length t); cbn [String.length]; lia.
Qed.

(** The datagram of one socket: it is small enough, and is read back with the first hashes. *)
Lemma broadcast_on_spec host port s :
  0 ≤ port ≤ u16_max → (∀ ih, is_Some (torrents s !! ih) → bytes_ok ih ∧ length ih = 20%nat) → active_torrents s ≠ [] →
  ∃ dst data, broadcast_on host port (active_torrents s) = [(dst, data)] ∧ (length data ≤ 1400)%nat ∧
    lsd_from_bytes data = Ok (mk_announce host port (take 25 (active_torrents s)) None).
Proof using.
  intros Hp Hk Hne. unfold broadcast_on. set (a := mk_announce host port (active_torrents s) None) in *.
  assert (lsd_ok a) as Ha.
  { split; [done|]. split; [|done]. apply Forall_forall. intros ih Hih. cbn [a_info_hashes a] in Hih.
    apply Hk. unfold active_torrents in Hih. apply list_elem_of_fmap in Hih as ([k h] & -> & Hm).
    apply elem_of_map_to_list in Hm. cbn. by rewrite Hm. }
  pose proof (lsd_roundtrip a Ha) as Hr. cbn zeta in Hr.
  assert (room (head_length a) = 25%nat) as Hroom by apply announce_room. unfold room in Hroom. rewrite Hroom in Hr.
  cbn [a_info_hashes a a_host a_port a_cookie] in Hr.
  assert (take (Nat.min (length (active_torrents s)) 25) (active_torrents s) = take 25 (active_torrents s)) as Htake.
  { destruct (decide (length (active_torrents s) ≤ 25)%nat).
    - rewrite Nat.min_l by done. by rewrite !take_ge by lia.
    - by rewrite Nat.min_r by lia. }
  destruct (lsd_to_bytes a) as [b|].
  - destruct Hr as (_ & Hl & Hr). eexists _, b. split; [done|]. split; [done|]. by rewrite Hr, Htake.
  - exfalso. apply Hne, nil_length_inv. lia.
Qed.

Lemma active_empty s : active_torrents s = [] ↔ torrents s = ∅.
Proof using.
  unfold active_torrents. split; intros E; [|by rewrite E, map_to_list_empty].
  apply map_to_list_empty_iff. by destruct (map_to_list (torrents s)).
Qed.
End lsd.

(** Whatever arrives, the service changes what torrents know of peers and nothing else: their number,
    what they are and what their loops were told stays. *)
Definition unchanged {Url} (h h' : TorrentHandle Url) : Prop := set_h_peer_mgr (h_peer_mgr h) h' = h.

Section lsd_service.
Context {Url : Type} `{UrlText Url}.
Implicit Types (s : Session Url).

Definition same_torrents s s' : Prop :=
  orphans s' = orphans s ∧ ∀ ih, option_Forall2 unchanged (torrents s !! ih) (torrents s' !! ih).

Lemma same_torrents_refl s : same_torrents s s.
Proof using.
  split; [done|]. intros ih. destruct (torrents s !! ih) as [h|]; constructor. unfold unchanged. by destruct h.
Qed.

Lemma same_torrents_trans s1 s2 s3 : same_torrents s1 s2 → same_torrents s2 s3 → same_torrents s1 s3.
Proof using.
  intros [E1 H1] [E2 H2]. split; [congruence|]. intros ih. specialize (H1 ih). specialize (H2 ih).
  destruct H1 as [h1 h2 H1|]; inversion H2 as [? h3 H3 E|E]; subst; constructor.
  unfold unchanged in *. rewrite <- H1, <- H3. by destruct h3.
Qed.

Lemma inject_peers_same ih addrs s : same_torrents s (inject_peers ih addrs s).
Proof using.
  unfold inject_peers. destruct (torrents s !! ih) as [h|] eqn:E; [|apply same_torrents_refl]. split; [done|]. intros k.
  cbn [torrents set_torrents]. destruct (decide (k = ih)) as [->|Hne].
  - rewrite lookup_insert_eq, E. constructor. unfold unchanged. by destruct h.
  - rewrite lookup_insert_ne by done. apply (proj2 (same_torrents_refl s)).
Qed.

Lemma handle_incoming_same data src s : same_torrents s (handle_incoming data src s).
Proof using.
  unfold handle_incoming. destruct (lsd_from_bytes data) as [a|e| |]; try apply same_torrents_refl.
  generalize (filter (λ ih, is_Some (torrents s !! ih)) (a_info_hashes a)). intros hs. revert s.
  induction hs as [|ih hs IH]; intros s; [apply same_torrents_refl|]. cbn [foldl].
  eapply same_torrents_trans; [apply inject_peers_same|apply IH].
Qed.

Lemma lsd_run_same svc events s : same_torrents s (lsd_run svc events s).1.
Proof using.
  assert (same_torrents s (lsd_turns svc events s).1) as Hturns.
  { revert s. induction events as [|ev events IH]; intros s; [apply same_torrents_refl|]. cbn [lsd_turns].
    assert (same_torrents s (lsd_turn svc ev s).1) as H1.
    { destruct ev as [host r| |]; cbn [lsd_turn fst]; [|apply same_torrents_refl..].
      destruct (recv_any _ _) as [[buf src]|]; [apply handle_incoming_same|apply same_torrents_refl]. }
    destruct (lsd_turn svc ev s) as [s' out]. specialize (IH s'). destruct (lsd_turns svc events s') as [s'' out'].
    by eapply same_torrents_trans. }
  unfold lsd_run. by destruct (lsd_turns svc events s).
Qed.

(** Both transports hand a connection over in the same way. *)
Lemma handle_inbound_utp_eq pid addr io s : handle_inbound_utp pid addr (io, s) = handle_inbound true pid addr (io, s).
Proof using.
  unfold handle_inbound_utp, handle_inbound, sbind, attempt, on_io, read_handshake, sbind, lift, read, sret.
  destruct (read_with_timeout 68 io) as [io' [buf|e| |]]; [|done..].
  destruct (Handshake.from_bytes buf) as [hs|e| |]; [|done..]. by destruct (torrents s !! _ ≫= h_loop).
Qed.

(** Connections that come in add commands to the loops of torrents, and change nothing else. *)
Definition told {Url} (h h' : TorrentHandle Url) : Prop :=
  h' = h ∨ ∃ l cmds, h_loop h = Some l ∧ Forall (λ c, ∃ addr res, c = InboundPeer addr res) cmds ∧
    h' = set_h_loop (Some (mk_running (lp_config l) (lp_metainfo l) (lp_start l) true (lp_commands l ++ cmds))) h.

Definition only_told s s' : Prop :=
  orphans s' = orphans s ∧ ∀ ih, option_Forall2 told (torrents s !! ih) (torrents s' !! ih).

Lemma only_told_refl s : only_told s s.
Proof using. split; [done|]. intros ih. destruct (torrents s !! ih); constructor. by left. Qed.

Lemma only_told_trans s1 s2 s3 : only_told s1 s2 → only_told s2 s3 → only_told s1 s3.
Proof using.
  intros [E1 H1] [E2 H2]. split; [congruence|]. intros ih. specialize (H1 ih). specialize (H2 ih).
  destruct H1 as [h1 h2 H1|]; inversion H2 as [? h3 H3 E|E]; subst; constructor.
  destruct H1 as [->|(l & cmds & Hl & Hc & ->)]; [done|]. right. destruct H3 as [->|(l' & cmds' & Hl' & Hc' & ->)].
  - by exists l, cmds.
  - destruct h1. cbn in Hl, Hl'. injection Hl' as <-. subst. exists l, (cmds ++ cmds'). split; [done|].
    split; [by apply Forall_app|]. cbn. by rewrite app_assoc.
Qed.

Lemma send_to_loop_told addr res ih s : only_told s (send_to_loop (InboundPeer addr res) ih s).
Proof using.
  unfold send_to_loop. destruct (torrents s !! ih) as [h|] eqn:E; [|apply only_told_refl].
  destruct (h_loop h) as [l|] eqn:El; [|apply only_told_refl].
  unfold send_command. destruct (lp_open l); [|apply only_told_refl]. split; [done|]. intros k.
  cbn [torrents set_torrents]. destruct (decide (k = ih)) as [->|Hne].
  - rewrite lookup_insert_eq, E. constructor. right. exists l, [InboundPeer addr res]. split; [done|]. split; [|done].
    by repeat econstructor.
  - rewrite lookup_insert_ne by done. apply (proj2 (only_told_refl s)).
Qed.

Lemma handle_inbound_told nodelay pid addr io s : only_told s (handle_inbound nodelay pid addr (io, s)).1.2.
Proof using.
  unfold handle_inbound, sbind, attempt, on_io, lift, read, sret.
  destruct (read_handshake io) as [io' [hs|e| |]]; cbn [fst snd]; try apply only_told_refl.
  destruct (torrents s !! Handshake.info_hash hs ≫= h_loop); cbn [fst snd]; [|apply only_told_refl].
  destruct (inbound _ _ _ _ _ io') as [io'' [c|e| |]]; cbn [fst snd]; try apply only_told_refl.
  apply send_to_loop_told.
Qed.

Lemma accept_loop_told pid n accepted s : only_told s (accept_loop pid n accepted s).2.
Proof using.
  revert n s. induction accepted as [|[[[io addr] nodelay]|] accepted IH]; intros n s; cbn [accept_loop]; [apply only_told_refl| |apply IH].
  pose proof (handle_inbound_told nodelay (pid n) addr io s) as H1.
  destruct (handle_inbound nodelay (pid n) addr (io, s)) as [[io' s'] r]. cbn [fst snd] in H1. specialize (IH (S n) s').
  destruct (accept_loop pid (S n) accepted s') as [ios s'']. destruct r; cbn [snd] in *; try done; by eapply only_told_trans.
Qed.
End lsd_service.

(** C25: local discovery between two sessions. What a session broadcasts are datagrams of at most 1400
    bytes, one for each socket it has, and none when it has no torrents. Whoever hears one from an
    address learns the peer at this address, with the port the announcing session listens on, for
    those of its own torrents that are among the first twenty-five of the announcing session, and
    nothing else changes; the peer then waits to be connected to, if it is not connected. A session
    of more torrents never announces the others. *)
Theorem lsd_finds_peers : ∀ Url (U : UrlText Url) (s t : Session Url) v4 v6 port src,
  0 ≤ port ≤ u16_max → (∀ ih, is_Some (torrents s !! ih) → bytes_ok ih ∧ length ih = 20%nat) →
  length (broadcast_announce v4 v6 port s) =
    (if bool_decide (torrents s = ∅) then 0 else (if v4 then 1 else 0) + (if v6 then 1 else 0))%nat ∧
  ∀ dst data, (dst, data) ∈ broadcast_announce v4 v6 port s →
    (length data ≤ 1400)%nat ∧
    orphans (handle_incoming data src t) = orphans t ∧
    ∀ ih, torrents (handle_incoming data src t) !! ih =
      (if bool_decide (ih ∈ take 25 (active_torrents s))
       then (λ h, set_h_peer_mgr (add_peers [mk_addr (ip src) port] (h_peer_mgr h)) h) <$> torrents t !! ih
       else torrents t !! ih) ∧
      ∀ h, ih ∈ take 25 (active_torrents s) → torrents t !! ih = Some h → manager_ok (h_peer_mgr h) →
        ∃ h', torrents (handle_incoming data src t) !! ih = Some h' ∧
          (mk_addr (ip src) port ∈ waiting (h_peer_mgr h') ∨ is_Some (connections (h_peer_mgr h') !! mk_addr (ip src) port)).
Proof.
  intros Url U s t v4 v6 port src Hp Hk. split.
  - rewrite <- (bool_decide_ext _ _ (active_empty s)). unfold broadcast_announce. case_bool_decide as Hnil; [done|].
    destruct (broadcast_on_spec HostV4 port s Hp Hk Hnil) as (? & ? & E4 & _).
    destruct (broadcast_on_spec HostV6 port s Hp Hk Hnil) as (? & ? & E6 & _).
    rewrite E4, E6. by destruct v4, v6.
  - intros dst data Hin.
    assert ((length data ≤ 1400)%nat ∧ ∃ host, lsd_from_bytes data = Ok (mk_announce host port (take 25 (active_torrents s)) None))
      as (Hl & host & Hr).
    { unfold broadcast_announce in Hin. case_bool_decide as Hnil; [by apply not_elem_of_nil in Hin|].
      assert (∃ host, (dst, data) ∈ broadcast_on host port (active_torrents s)) as [host Hon].
      { apply elem_of_app in Hin as [Hin|Hin]; [destruct v4|destruct v6]; try (by apply not_elem_of_nil in Hin); by eexists. }
      destruct (broadcast_on_spec host port s Hp Hk Hnil) as (dst' & data' & E & Hl & Hr).
      rewrite E in Hon. apply list_elem_of_singleton in Hon. injection Hon as -> ->. split; [done|by exists host]. }
    split; [done|].
    unfold handle_incoming. rewrite Hr. cbn [a_info_hashes a_port]. split; [apply inject_each_orphans|].
    set (addr := mk_addr (ip src) port). set (hs := take 25 (active_torrents s)).
    set (kn := filter (λ ih, is_Some (torrents t !! ih)) hs).
    assert (NoDup kn) as Hn.
    { apply NoDup_filter. eapply sublist_NoDup; [|apply sublist_take]. apply NoDup_fst_map_to_list. }
    assert (∀ ih, torrents (foldl (λ s ih, inject_peers ih [addr] s) t kn) !! ih =
      if bool_decide (ih ∈ hs) then learns addr <$> torrents t !! ih else torrents t !! ih) as E.
    { intros ih. rewrite inject_each by done. subst kn. rewrite (bool_decide_ext _ _ (list_elem_of_filter _ _ _)), bool_decide_and.
      destruct (torrents t !! ih) as [h|]; [by rewrite bool_decide_true by done|]. by case_bool_decide; case_bool_decide. }
    intros ih. split; [by rewrite E|]. intros h Hih Hh Hm. rewrite E, bool_decide_true by done. rewrite Hh.
    eexists. split; [reflexivity|]. destruct (add_peers_spec [addr] (h_peer_mgr h) Hm) as [Hc Hw].
    unfold learns. assert (h_peer_mgr (set_h_peer_mgr (add_peers [addr] (h_peer_mgr h)) h) = add_peers [addr] (h_peer_mgr h)) as -> by (by destruct h).
    rewrite Hw, Hc. destruct (connections (h_peer_mgr h) !! addr) eqn:Ec; [by right; eexists|]. left. right. split; [by left|done].
Qed.

Definition lan_address : SocketAddr := mk_addr (V4 [192; 168; 0; 7]) 51413.

Lemma lsd_finds_peers_witness :
  ∃ dst data, broadcast_announce true false 6881 life_session = [(dst, data)] ∧
    torrents (handle_incoming data lan_address life_session) !! life_hash =
      (λ h, set_h_peer_mgr (add_peers [mk_addr (V4 [192; 168; 0; 7]) 6881] (h_peer_mgr h)) h) <$> torrents life_session !! life_hash.
Proof.
  assert (∀ ih, is_Some (torrents life_session !! ih) → bytes_ok ih ∧ length ih = 20%nat) as Hk.
  { intros ih Hi. destruct (decide (ih = life_hash)) as [->|Hne].
    - split; [apply (bool_decide_unpack _); vm_compute; exact I|reflexivity].
    - exfalso. assert (∃ h, torrents life_session = <[life_hash := h]> ∅) as [h Eh] by (eexists; vm_compute; reflexivity).
      rewrite Eh, lookup_insert_ne, lookup_empty in Hi by congruence. by destruct Hi. }
  destruct (lsd_finds_peers bytes text_urls life_session life_session true false 6881 lan_address) as [_ H];
    [vm_compute; split; congruence|exact Hk|].
  destruct (broadcast_announce true false 6881 life_session) as [|[dst data] [|? ?]] eqn:E;
    [vm_compute in E; discriminate E| |vm_compute in E; discriminate E].
  exists dst, data. split; [reflexivity|].
  destruct (H dst data (list_elem_of_here _ _)) as (_ & _ & Hl). destruct (Hl life_hash) as [Hl' _]. rewrite Hl'.
  rewrite bool_decide_true; [reflexivity|]. apply (bool_decide_unpack _). vm_compute. exact I.
Defined.
